(* ===== verification/_CoqProject ===== *)
-Q . S2P
Prelude.v
IntUtil.v
JsString.v
JsRegex.v
JsNumber.v
TxUtils.v
HardForks.v
Wizard.v
PasswordDialog.v
Utils.v
Translations.v
Radix.v
Amount.v
Varint.v
Base58.v
Hex.v
Address.v
SortedLists.v
Difficulty.v
DifficultyCache.v
Emission.v
HardFork.v
Pruning.v
TreeHash.v
MergeMining.v
Checkpoints.v
BlockQueue.v
I18n.v
RollingMedian.v
Weights.v
Fees.v
BlockChecks.v
AltChains.v
TxPool.v
BlockTemplate.v
Serialization.v
TxExtra.v
RingCt.v
Transactions.v
Identifiers.v
TxWeight.v
Offsets.v
Mnemonics.v
English.v
MinerTx.v
PaymentUri.v
RestoreHeight.v
PortableStorage.v
NetBuffer.v
Levin.v
Peerlist.v
