(* ===== verification/Prelude.v ===== *)
(** * HashmonkeyCoin A model of the parts of HashmonkeyCoin (HMNY) that decide on their own: the
    consensus arithmetic of the node, hashmonkey-core, and the scripts of the desktop wallet,
    hashmonkey-gui. Paths below are relative to the repository; [core] stands for hashmonkey-core
    and [gui] for hashmonkey-gui. ** The program and the files The node checks blocks: a block's
    version must be the one of the fork table at its height ([HardForks], [HardFork]), its hash must
    meet the difficulty ([Difficulty]), its reward is bounded by the emission rule ([Emission],
    [BlockChecks]), its weight by limits that follow the chain ([Weights], [RollingMedian]), its
    fees by the fee rule ([Fees], [TxWeight]), and its transactions are committed to by a Merkle
    root ([TreeHash]). Transactions wait in a pool ([TxPool]) until a miner lists them
    ([BlockTemplate]) and pays itself ([MinerTx]). Blocks and transactions travel as binary archives
    ([Serialization], [RingCt], [Transactions], [TxExtra], [Offsets]) and are known by hashes of
    their parts ([Identifiers]). Numbers travel as varints ([Varint]), addresses as base58 text
    ([Base58], [Address]), hashes as hexadecimal ([Hex]), messages between nodes as storages of
    named values ([PortableStorage]) with a header, whole or in fragments ([Levin], [NetBuffer]);
    the peers known are kept in lists ([Peerlist]); peers that prune announce a stripe of blocks
    ([Pruning]); a key is written down as words ([Mnemonics], [English]), an address with an amount
    as a link ([PaymentUri]). A wallet looks for the height where it has to begin ([RestoreHeight]).
    The wallet's QML pages call the scripts under gui/js to format and check what the user types, to
    estimate restore heights and to ask for the password before the seed is shown ([TxUtils],
    [Wizard], [Utils], [PasswordDialog]); the texts these show come from the translation of the
    language selected ([Translations]). - [Prelude]: machine integers, the error monad, automation,
    shared lemmas. - [IntUtil]: core/contrib/epee/include/int-util.h and src/int-util.cpp. -
    [JsString], [JsRegex], [JsNumber]: the parts of ECMAScript the scripts use: UTF-16 strings, the
    backtracking matcher (with a declarative relation it is sound and complete for), IEEE doubles as
    rationals with explicit rounding. - [TxUtils], [Wizard], [Utils]: gui/js/TxUtils.js, Wizard.js,
    Utils.js and Windows.js, one definition per function. - [PasswordDialog]:
    gui/components/PasswordDialog.qml with the parts of the window it changes; [Utils] has the
    handlers of its signals and what the user can do with it as steps. - [Translations]: the context
    "Utils" of gui/translations/hmny-core_??.ts, the languages of gui/lang/languages.xml and their
    selection (gui/src/TranslationManager.cpp, gui/components/LanguageSidebar.qml). - [HardForks]:
    the tables of core/src/hardforks/hardforks.cpp. - [Radix]: digits in a base, bytes of words,
    shared by the encoders. - [Varint], [Base58]: core/src/common/varint.h and base58.cpp. - [Hex]:
    core/contrib/epee/src/hex.cpp. - [Address]: the networks of core/src/cryptonote_config.h and the
    address functions of core/src/cryptonote_basic/cryptonote_basic_impl.cpp. - [Difficulty]:
    core/src/cryptonote_basic/difficulty.cpp. - [Emission]: the block reward of
    cryptonote_basic_impl.cpp. - [HardFork]: core/src/cryptonote_basic/hardfork.cpp; the state of
    the class is the record [hardfork], its methods are functions on it, and the database is the
    class [BlockchainDB] with the laws [BlockchainDBLaws]. - [Pruning]: core/src/common/pruning.cpp.
    - [TreeHash]: core/src/crypto/tree-hash.c, with the arrays updated in place. - [MergeMining]:
    core/src/cryptonote_basic/merge_mining.cpp. - [Checkpoints]:
    core/src/checkpoints/checkpoints.cpp. - [Amount]: reading, printing and rounding of amounts, of
    core/src/cryptonote_basic/cryptonote_format_utils.cpp. - [I18n]: core/src/common/i18n.cpp, with
    every access to the file's buffer checked. - [SortedLists]: std::sort and order statistics,
    shared by medians and windows. - [RollingMedian]: core/contrib/epee/include/rolling_median.h,
    two heaps in one array, and the median of misc_language.h. - [Weights], [Fees], [BlockChecks]:
    the rules of core/src/cryptonote_core/blockchain.cpp on block weights and their limits, on fees
    and their estimates, and on miner transactions, timestamps, unlock times and outputs. -
    [DifficultyCache]: the difficulty of the next block of the same file, with the last answer and
    the lists it keeps; the methods that change the chain or mark the lists as stale are the steps
    of a transition system. - [AltChains]: new blocks of the same file: the main chain, the blocks
    aside, the blocks remembered as invalid, the chain built for a block aside, its difficulty and
    seed, the switch to it and the rollback. The checks of a block for the main chain are an
    argument, a function of the chain and the block: the pool and the clock are not among its
    inputs. - [TxPool], [BlockTemplate]: core/src/cryptonote_core/tx_pool.cpp: the table of the
    database and what is kept in memory beside it in a record, the methods as functions on it, and
    the choice of the transactions of a new block. - [MinerTx]: [construct_miner_tx] of
    cryptonote_tx_utils.cpp and [create_block_template] of blockchain.cpp on top of the main chain,
    which takes the median from the chain of [Weights] and the transactions from [BlockTemplate],
    and builds the transaction that pays the miner until its weight fits. - [BlockQueue]:
    core/src/cryptonote_protocol/block_queue.cpp, three containers in a record, with the calls of
    the protocol handler as steps. - [Serialization]: core/src/serialization: readers, writers, and
    codecs that pair them; the classes [Lawful], [Nonempty] and [Exact] are the laws that a
    structure inherits from its fields. - [TxExtra]: core/src/cryptonote_basic/tx_extra.h and the
    functions on extra fields of cryptonote_format_utils.cpp. - [RingCt]: the serialized part of
    core/src/ringct/rctTypes.h. - [Transactions]: cryptonote_basic.h, the parsing functions of
    cryptonote_format_utils.cpp, and the split of a text by core/src/blockchain_db/lmdb/db_lmdb.cpp.
    - [Identifiers], [TxWeight], [Offsets]: hashes, weights and ring offsets, of
    cryptonote_format_utils.cpp. - [Mnemonics], [English]: core/src/mnemonics/electrum-words.cpp,
    language_base.h and the words of english.h. - [PaymentUri]: payment links: [make_uri] and
    [parse_uri] of core/src/wallet/wallet2.cpp, the escapes of
    core/contrib/epee/src/abstract_http_client.cpp, and the way of a link through the desktop wallet
    (gui/main.qml, gui/src/libwalletqt). - [RestoreHeight]: the heights that wallet2.cpp estimates
    for a new wallet and finds for a date. - [PortableStorage]: core/contrib/epee/include/storages
    and src/portable_storage.cpp: the storage as a tree of entries, its binary writer, and its
    reader with the counters of the class as state and the nesting of calls as an argument. -
    [NetBuffer]: core/contrib/epee/include/net/buffer.h and src/buffer.cpp. - [Levin]:
    core/contrib/epee/include/net/levin_base.h, src/levin_base.cpp and
    levin_protocol_handler_async.h: the members of a connection's object in a record, its methods as
    functions on it, what happens to it as a list of events; the node and the endpoint are the
    record [surroundings] of functions on a state of their own. - [Peerlist]:
    core/src/p2p/net_peerlist.h and net_peerlist.cpp and the addresses of
    core/contrib/epee/include/net/net_utils_base.h and local_ip.h; the ordered index by time is the
    class [TimeIndex] with the laws [TimeIndexLaws]. ** Conventions An unsigned integer of [w] bits
    is a [Z], reduced by [wrap w] after every operation that can leave the range. An exception, a
    failed check or an access out of range is [Throw] of the type [result] or [None]. Output
    parameters are components of the result. Code outside the repository (Keccak, the curve, the
    database, Qt, the wallet manager, the clock) is a parameter, with the laws the code relies on as
    fields of a class or as hypotheses; each has an instance. ** What the theorems show - Encodings:
    varints, base58, hexadecimal and addresses read back what was written, and accept nothing else,
    so every value has one text (the case of hexadecimal digits and the old form of addresses
    apart); amounts are read exactly or refused. A seed reads back as its key, and the texts
    accepted for a key have, up to letter case, the same prefixes. A payment link reads back as what
    it was made of, but for texts with an equals sign, and the links accepted are characterised. -
    Messages: it does not matter in what pieces a stream comes; a storage sent as fragments arrives;
    an answer calls back the oldest request waiting, each request is called back at most once and
    outer calls are counted exactly; no more is kept for a peer than its limit and the runtime
    checks of sizes never fail; a buffer with an offset is a list of bytes. - Peers: no address is
    twice in a list, whatever is loaded when the node starts; while what is loaded fits, as what a
    node saved does, no address is in two lists and no host twice among the white peers, and the
    lists keep to their limits; peers told by others cannot change what a node found out. -
    Storages: what is stored is loaded again; whatever bytes are loaded, the sections have each name
    once, in order, values and lengths are in range, and nesting, objects, fields and strings stay
    within their limits. - Transactions and blocks: what parses is written back to the same bytes,
    but for a transaction without signatures and extra field whose text is cut in its last number;
    whole, base and prefix readers agree; the two parts the database keeps are the text, and a
    pruned node computes from its part the identifier and the weight that the whole has; identifiers
    bind transactions and blocks up to a collision of the hash. Extra fields are sorted by kind,
    stably, and without loss. - Consensus: the two hash checks and the two difficulty rules agree
    with one another and with their specification; the reward is the exact penalty formula and
    monotone; the window of fork votes is, after any additions, pops, reorganisations and restarts,
    that of the last blocks, behind votes that fill it after pops; a restart rebuilds that window
    from the chain, and the same state where nothing was popped; block [k] of the main network has
    version [max 1 (min k 16)]; the cached median of weights is always the median of the chain, also
    after blocks were popped, and the difficulty answered from the caches is the one computed
    afresh, also after batches that were aborted; a block aside meets the difficulty and the seed of
    the place it would take, while no voted fork or checkpoint lies ahead, the main chain only
    changes for more work, and a failed switch leaves it as it was; the rolling median is the median
    of the last items; a fee is accepted exactly when the formula says, and what a wallet pays by
    the estimate is accepted; a miner transaction takes exactly reward and fees; timestamps and
    unlock times. - Pool: after any sequence of calls what is in memory agrees with the table and no
    two transactions spend one image, popped blocks apart; a double spend is refused; a transaction
    taken out leaves the pool as it was; pruning drops the worst ones and no more than it must; a
    restart rebuilds what was in memory. - Template: a transaction is listed exactly when it is
    worth it after those listed before it; those listed are in the pool, spend no image twice and
    fit the weight limit; the miner transaction that is built with half the weight limit for a
    median passes the node's own checks, which take the median in another way, at the weight it was
    built for; and it is found at once while the block stays within the median. - Download: the
    containers of the queue agree after any sequence of calls, a reservation is a run of the peer's
    hashes that nobody was asked for, and a peer that can serve is given work while there is any. -
    Trees: every leaf's branch verifies against the root, and a branch binds its leaf up to a
    collision of the hash. - Pruning: the next unpruned height is the first one a peer keeps. -
    Checkpoints: no reorganisation reaches a checkpoint passed, and no loading changes one. -
    Catalogues: the reader stays inside any file, ends, and reads every well-formed one completely.
    - Wallet: no seed page and no new password without the password, of an OpenAlias answer exactly
    the second field, when it is valid, escaped text without markup, date and age arithmetic exact
    despite rounding, termination and minimality of the proposed wallet name, exact shape of what
    the checks of proofs, names and seeds accept. The search for the height of a date ends and,
    where timestamps do not go back, all blocks below the height it gives are from before the date.
    - Where the code does not do what it means to, the theorem states what it does: the page
    switcher past its ends, the restore estimate of another chain, dates in eight digits, translated
    network names, the refill of the vote window, characters beyond the Basic Multilingual Plane in
    catalogues, twelve-word seeds, the estimate of fees for 100 blocks of grace, numbers cut off by
    the end of a text, the first block's timestamp, the times of relayed transactions that are never
    stored, the coinbase compared as a float, links that no desktop wallet opens, the start of a new
    wallet beside a synchronized daemon, arrays of empty strings in a storage, noise with space for
    one header, the loopback address written as an IPv6 one, stored peers that are loaded without a
    check. ** Fuel Loops that are not structural take fuel computed from their input: the binary
    length of the number for varints and digits, the number of levels [cnt] for trees, 28 doublings
    for [tree_hash_cnt] (the source refuses more than [2 ^ 28] leaves), the length of the subject
    for the matcher, the length of the file for the reader of catalogues, the length of the text for
    the fields of an extra text and 255 for padding, 32 rounds for powers of two of 32 bits, the
    number of items for the heaps, 21 digits of an amount, the height of a block for its alternative
    chain, two nested switches of chains, the number of outputs for those of a miner transaction, 64
    rounds for the search of a date, eight for the digits of an escape, one more than the bytes left
    for the fields of a section, twice the bytes received for the messages in them (a header and a
    body are two rounds and take a byte at least), the bytes left for fragments; the ten tries to
    build a miner transaction and the 99 nested calls of the reader of storages are the source's.
    The theorems hold of the functions with this fuel, so it is enough. ** Not modelled The rest of
    the wallet library, ring signatures and range proofs, multisignature, LMDB, the rest of the
    network and RPC layers, devices and QML layout: input and output, or mathematics of the curve.
    Locks are left out: each modelled method runs under one lock. Of the serialized structures the
    JSON and debug archives and the members that are rebuilt when signatures are verified are left
    out, of storages their JSON form and the typed access to their entries; the word lists other
    than English are arguments. The version of a chain is a function of the chain for
    [DifficultyCache], which leaves out the correction of drifted difficulties. Of the pool the
    caches of parsed transactions and checked inputs and the lists for clients are left out, of
    templates those on top of another block and the one that is kept for the next call. *)

From Stdlib Require Export ZArith Lia Bool.
From stdpp Require Export base numbers list gmap strings.
#[export] Set Default Goal Selector "!".
#[global] Open Scope Z_scope.

(** ** Machine integers

    A [w]-bit unsigned integer is a [Z]; every operation that can leave the
    range is followed by [wrap w], which is what the C and C++ unsigned types
    do. *)

Definition wrap (w z : Z) : Z := z mod 2 ^ w.

Declare Scope hmny_scope.
Delimit Scope hmny_scope with hmny.
Notation u8 := (wrap 8) (only parsing).
Notation u16 := (wrap 16) (only parsing).
Notation u32 := (wrap 32) (only parsing).
Notation u64 := (wrap 64) (only parsing).
Notation u128 := (wrap 128) (only parsing).

(** [x] is a value of the [w]-bit unsigned type. *)
Definition in_width (w x : Z) : Prop := 0 <= x < 2 ^ w.
Notation is_u8 := (in_width 8) (only parsing).
Notation is_u32 := (in_width 32) (only parsing).
Notation is_u64 := (in_width 64) (only parsing).

Definition UINT64_MAX : Z := 2 ^ 64 - 1.
Definition UINT32_MAX : Z := 2 ^ 32 - 1.

#[global] Instance in_width_dec w x : Decision (in_width w x).
Proof. unfold in_width. apply _. Defined.

Create HintDb machine.

Lemma wrap_range w z : 0 <= w -> in_width w (wrap w z).
Proof. intros. apply Z.mod_pos_bound. lia. Qed.

Lemma wrap_small w z : in_width w z -> wrap w z = z.
Proof. intros []. apply Z.mod_small. lia. Qed.

Lemma wrap_wrap w z : wrap w (wrap w z) = wrap w z.
Proof. apply Zmod_mod. Qed.

#[export] Hint Resolve wrap_range : machine.
#[export] Hint Rewrite wrap_wrap : machine.

(** [mach] turns range facts into inequalities over literals and calls [lia]. *)
Ltac width_unfold :=
  unfold in_width in *;
  change (2 ^ 8) with 256 in *; change (2 ^ 16) with 65536 in *;
  change (2 ^ 32) with 4294967296 in *;
  change (2 ^ 64) with 18446744073709551616 in *.
Ltac mach := width_unfold; lia.

(** Removes a [wrap] whose argument is in range by linear arithmetic. *)
Ltac unwrap :=
  repeat match goal with
  | |- context [wrap ?w ?z] => rewrite (wrap_small w z) by mach
  end.

(** The same from the inside out *)
Ltac unwrap_inner :=
  repeat match goal with
  | |- context [wrap ?w ?z] =>
      lazymatch z with context [wrap _ _] => fail | _ => rewrite (wrap_small w z) by mach end
  end.

(** ** Bytes of a C string literal *)

Definition str_bytes (s : string) : list Z :=
  (fun a => Z.of_nat (Ascii.nat_of_ascii a)) <$> String.list_ascii_of_string s.

(** ** Booleans *)

Lemma bool_eq_iff (a b : bool) : (a = true <-> b = true) <-> a = b.
Proof. destruct a, b; naive_solver. Qed.

(** Splits every boolean integer comparison in sight. *)
Ltac cases_cmp :=
  repeat match goal with
  | |- context [Z.ltb ?a ?b] => destruct (Z.ltb_spec a b)
  | |- context [Z.leb ?a ?b] => destruct (Z.leb_spec a b)
  | |- context [Z.eqb ?a ?b] => destruct (Z.eqb_spec a b)
  | |- context [Z.gtb ?a ?b] => rewrite (Z.gtb_ltb a b)
  | |- context [Z.geb ?a ?b] => rewrite (Z.geb_leb a b)
  end.

(** ** Results of code that can fail *)

Inductive result (E A : Type) : Type := Ret (a : A) | Throw (e : E).
Arguments Ret {E A} a.
Arguments Throw {E A} e.

#[global] Instance result_ret E : MRet (result E) := fun A a => Ret a.
#[global] Instance result_bind E : MBind (result E) := fun A B f r =>
  match r with Ret a => f a | Throw e => Throw e end.
#[global] Instance result_fmap E : FMap (result E) := fun A B f r =>
  match r with Ret a => Ret (f a) | Throw e => Throw e end.

(** Closes a decidable goal on concrete data by evaluating its decision. *)
Ltac by_decide :=
  match goal with |- ?P => refine (bool_decide_unpack P _); vm_compute; exact I end.

(** ** Filters *)

Lemma filter_none {A} (P : A -> Prop) `{forall x, Decision (P x)} l :
  Forall (fun x => ~ P x) l -> filter P l = [].
Proof. induction 1 as [|x l Hx _ IH]; [done|]. by rewrite filter_cons_False. Qed.

Lemma filter_all {A} (P : A -> Prop) `{forall x, Decision (P x)} l : Forall P l -> filter P l = l.
Proof. induction 1 as [|x l Hx _ IH]; [done|]. by rewrite filter_cons_True, IH. Qed.

Lemma Forall_filter {A} (P Q : A -> Prop) `{forall x, Decision (P x)} l : Forall Q l -> Forall Q (filter P l).
Proof. intros Hl. apply Forall_forall. intros x [_ Hx]%list_elem_of_filter. rewrite Forall_forall in Hl. by apply Hl. Qed.
