(* ===== verification/IntUtil.v ===== *)
(** * Machine arithmetic helpers: contrib/epee/include/int-util.h and
    contrib/epee/src/int-util.cpp

    Wide multiplication and division on 64-bit words, clamped addition and
    subtraction, byte swaps.  An output parameter is a component of the result.
    The multiprecision division the 128-bit division goes through is the
    mathematical one on naturals below [2 ^ 128]; it throws on a zero divisor. *)

From S2P Require Import Prelude.

Definition hi_dword (val : Z) : Z := Z.shiftr val 32.
Definition lo_dword (val : Z) : Z := Z.land val 0xFFFFFFFF.

(** [mul128 multiplier multiplicand] is [(product_lo, product_hi)]: the return
    value and what is stored through [product_hi]. *)
Definition mul128 (multiplier multiplicand : Z) : Z * Z :=
  let a := hi_dword multiplier in
  let b := lo_dword multiplier in
  let c := hi_dword multiplicand in
  let d := lo_dword multiplicand in
  let ac := u64 (a * c) in
  let ad := u64 (a * d) in
  let bc := u64 (b * c) in
  let bd := u64 (b * d) in
  let adbc := u64 (ad + bc) in
  let adbc_carry := if adbc <? ad then 1 else 0 in
  let product_lo := u64 (bd + u64 (Z.shiftl adbc 32)) in
  let product_lo_carry := if product_lo <? bd then 1 else 0 in
  let product_hi :=
    u64 (u64 (u64 (ac + Z.shiftr adbc 32) + u64 (Z.shiftl adbc_carry 32))
         + product_lo_carry) in
  (product_lo, product_hi).

(** The quotient and the new remainder *)
Definition div_with_reminder (dividend divisor remainder : Z) : Z * Z :=
  let dividend := Z.lor dividend (u64 (Z.shiftl remainder 32)) in
  (dividend / divisor, u32 (dividend mod divisor)).

(** The remainder, then the two words of the quotient *)
Definition div128_32 (dividend_hi dividend_lo divisor : Z) : Z * Z * Z :=
  let '(q3, r) := div_with_reminder (hi_dword dividend_hi) divisor 0 in
  let '(q2, r) := div_with_reminder (lo_dword dividend_hi) divisor r in
  let '(q1, r) := div_with_reminder (hi_dword dividend_lo) divisor r in
  let '(q0, r) := div_with_reminder (lo_dword dividend_lo) divisor r in
  (r, Z.lor (u64 (Z.shiftl q3 32)) q2, Z.lor (u64 (Z.shiftl q1 32)) q0).

Inductive arith_error := Division_by_zero.

(** Quotient (high, low) and remainder (high, low) *)
Definition div128_64 (dividend_hi dividend_lo divisor : Z)
    : result arith_error ((Z * Z) * (Z * Z)) :=
  let dividend := Z.lor (u128 (Z.shiftl dividend_hi 64)) dividend_lo in
  if divisor =? 0 then Throw Division_by_zero
  else
    let q := dividend / divisor in
    let r := dividend mod divisor in
    Ret ((Z.land (Z.shiftr q 64) (2 ^ 64 - 1), Z.land q (2 ^ 64 - 1)),
         (Z.land (Z.shiftr r 64) (2 ^ 64 - 1), Z.land r (2 ^ 64 - 1))).

Definition add64clamp (value add : Z) : Z :=
  if u64 (UINT64_MAX - add) <? value then UINT64_MAX else u64 (value + add).
Definition sub64clamp (value sub : Z) : Z :=
  if value <? sub then 0 else u64 (value - sub).

Definition rol32 (x r : Z) : Z :=
  Z.lor (u32 (Z.shiftl x (Z.land r 31))) (Z.shiftr x (Z.land (- r) 31)).
Definition rol64 (x r : Z) : Z :=
  Z.lor (u64 (Z.shiftl x (Z.land r 63))) (Z.shiftr x (Z.land (- r) 63)).

Definition swap16 (x : Z) : Z :=
  u16 (Z.lor (Z.shiftl (Z.land x 0x00ff) 8) (Z.shiftr (Z.land x 0xff00) 8)).
Definition swap32 (x : Z) : Z :=
  let x := Z.lor (u32 (Z.shiftl (Z.land x 0x00ff00ff) 8)) (Z.shiftr (Z.land x 0xff00ff00) 8) in
  Z.lor (u32 (Z.shiftl x 16)) (Z.shiftr x 16).
Definition swap64 (x : Z) : Z :=
  let x := Z.lor (u64 (Z.shiftl (Z.land x 0x00ff00ff00ff00ff) 8))
                 (Z.shiftr (Z.land x 0xff00ff00ff00ff00) 8) in
  let x := Z.lor (u64 (Z.shiftl (Z.land x 0x0000ffff0000ffff) 16))
                 (Z.shiftr (Z.land x 0xffff0000ffff0000) 16) in
  Z.lor (u64 (Z.shiftl x 32)) (Z.shiftr x 32).

(** ** Words and bits *)

Lemma land_ones_mod a n : 0 <= n -> Z.land a (2 ^ n - 1) = a mod 2 ^ n.
Proof. intros. rewrite <- Z.land_ones by done. by rewrite Z.ones_equiv. Qed.

(** A word whose low [n] bits are free takes the low bits of another by [lor]. *)
Lemma lor_add_low hi lo n :
  0 <= n -> 0 <= lo < 2 ^ n -> Z.lor (Z.shiftl hi n) lo = hi * 2 ^ n + lo.
Proof.
  intros Hn Hlo. rewrite Z.shiftl_mul_pow2 by done.
  rewrite <- Z.lxor_lor, <- Z.add_nocarry_lxor; [done|..];
    (apply Z.bits_inj'; intros i Hi; rewrite Z.land_spec, Z.bits_0;
     destruct (Z.lt_ge_cases i n);
     [by rewrite Z.mul_pow2_bits_low by done
     |replace lo with (lo mod 2 ^ n) by (by apply Z.mod_small);
      by rewrite Z.mod_pow2_bits_high, andb_false_r by lia]).
Qed.

Lemma hi_dword_div v : hi_dword v = v / 2 ^ 32.
Proof. unfold hi_dword. by rewrite Z.shiftr_div_pow2. Qed.
Lemma lo_dword_mod v : lo_dword v = v mod 2 ^ 32.
Proof. unfold lo_dword. by rewrite <- (land_ones_mod v 32). Qed.

Lemma dwords v :
  is_u64 v -> v = hi_dword v * 2 ^ 32 + lo_dword v /\ is_u32 (hi_dword v) /\ is_u32 (lo_dword v).
Proof.
  rewrite hi_dword_div, lo_dword_mod. width_unfold. intros Hv.
  pose proof (Z.div_mod v 4294967296). pose proof (Z.mod_pos_bound v 4294967296).
  pose proof (Z.div_pos v 4294967296). pose proof (Z.div_lt_upper_bound v 4294967296 4294967296). lia.
Qed.

(** The carry of an addition, detected by comparing the sum with a summand *)
Lemma carry_spec w x y :
  0 <= w -> in_width w x -> in_width w y ->
  x + y = wrap w (x + y) + (if wrap w (x + y) <? x then 1 else 0) * 2 ^ w.
Proof.
  intros Hw Hx Hy. unfold in_width, wrap in *.
  destruct (Z.lt_ge_cases (x + y) (2 ^ w)).
  - rewrite Z.mod_small by lia. destruct (Z.ltb_spec (x + y) x); lia.
  - replace ((x + y) mod 2 ^ w) with (x + y - 2 ^ w).
    + destruct (Z.ltb_spec (x + y - 2 ^ w) x); lia.
    + apply Z.mod_unique with 1; lia.
Qed.

(** ** Multiplication *)

Lemma mul128_spec x y :
  is_u64 x -> is_u64 y ->
  let '(lo, hi) := mul128 x y in is_u64 lo /\ is_u64 hi /\ x * y = hi * 2 ^ 64 + lo.
Proof.
  intros Hx Hy. unfold mul128.
  destruct (dwords x Hx) as (Ex & Ha & Hb). destruct (dwords y Hy) as (Ey & Hc & Hd).
  set (a := hi_dword x) in *. set (b := lo_dword x) in *.
  set (c := hi_dword y) in *. set (d := lo_dword y) in *. clearbody a b c d.
  assert (forall u v, is_u32 u -> is_u32 v -> 0 <= u * v <= 4294967295 * 4294967295) as Hm
    by (width_unfold; nia).
  pose proof (Hm a c Ha Hc). pose proof (Hm a d Ha Hd).
  pose proof (Hm b c Hb Hc). pose proof (Hm b d Hb Hd).
  assert (0 <= x * y <= 18446744073709551615 * 18446744073709551615) as Hp by (width_unfold; nia).
  assert (x * y = (a * c) * 2 ^ 64 + (a * d + b * c) * 2 ^ 32 + b * d) as E
    by (rewrite Ex, Ey; change (2 ^ 64) with (2 ^ 32 * 2 ^ 32); ring).
  generalize dependent (a * c). generalize dependent (a * d).
  generalize dependent (b * c). generalize dependent (b * d). generalize dependent (x * y).
  clear. intros p Hp bd Hbd bc Hbc ad Had ac Hac E.
  rewrite (wrap_small 64 ac), (wrap_small 64 ad), (wrap_small 64 bc), (wrap_small 64 bd) by mach.
  pose proof (carry_spec 64 ad bc ltac:(lia) ltac:(mach) ltac:(mach)) as E1.
  set (s := u64 (ad + bc)) in *. pose proof (wrap_range 64 (ad + bc) ltac:(lia)) as Hs.
  fold s in Hs. clearbody s.
  set (c1 := if s <? ad then 1 else 0) in *. assert (0 <= c1 <= 1) as Hc1 by (unfold c1; case_match; lia).
  clearbody c1. rewrite Z.shiftr_div_pow2, !Z.shiftl_mul_pow2 by lia.
  assert (u64 (s * 2 ^ 32) = s mod 2 ^ 32 * 2 ^ 32) as ->.
  { unfold wrap. change (2 ^ 64) with (2 ^ 32 * 2 ^ 32). rewrite Z.mul_mod_distr_r by lia. done. }
  pose proof (Z.div_mod s (2 ^ 32) ltac:(lia)) as Es. pose proof (Z.mod_pos_bound s (2 ^ 32) ltac:(lia)).
  set (sh := s / 2 ^ 32) in *. set (sl := s mod 2 ^ 32) in *. clearbody sh sl.
  pose proof (carry_spec 64 bd (sl * 2 ^ 32) ltac:(lia) ltac:(mach) ltac:(mach)) as E2.
  pose proof (wrap_range 64 (bd + sl * 2 ^ 32) ltac:(lia)) as Hlo.
  set (lo := u64 (bd + sl * 2 ^ 32)) in *. clearbody lo.
  set (c2 := if lo <? bd then 1 else 0) in *. assert (0 <= c2 <= 1) as Hc2 by (unfold c2; case_match; lia).
  clearbody c2. unwrap. repeat split; mach.
Qed.

(** ** Division *)

Lemma div_with_reminder_spec dw divisor r :
  is_u32 dw -> is_u32 divisor -> 0 <= r < divisor ->
  let '(q, r') := div_with_reminder dw divisor r in
  is_u32 q /\ 0 <= r' < divisor /\ r * 2 ^ 32 + dw = q * divisor + r'.
Proof.
  intros Hw Hd Hr. unfold div_with_reminder.
  assert (u64 (Z.shiftl r 32) = Z.shiftl r 32) as ->
    by (apply wrap_small; rewrite Z.shiftl_mul_pow2 by lia; mach).
  rewrite Z.lor_comm, lor_add_low by (mach || lia).
  set (n := r * 2 ^ 32 + dw).
  pose proof (Z.mod_pos_bound n divisor ltac:(lia)). pose proof (Z.div_mod n divisor ltac:(lia)).
  assert (0 <= n < divisor * 2 ^ 32) by (unfold n; width_unfold; nia).
  pose proof (Z.div_pos n divisor ltac:(lia) ltac:(lia)).
  pose proof (Z.div_lt_upper_bound n divisor (2 ^ 32) ltac:(lia) ltac:(lia)).
  rewrite wrap_small by mach. split_and!; try mach.
Qed.

(** The long division in base 2^32 gives the quotient and the remainder of
    the 128-bit dividend by the 32-bit divisor. *)
Theorem div128_32_spec (hi lo divisor : Z) :
  is_u64 hi -> is_u64 lo -> is_u32 divisor -> divisor <> 0 ->
  let '(r, qhi, qlo) := div128_32 hi lo divisor in
  is_u64 qhi /\ is_u64 qlo /\ qhi * 2 ^ 64 + qlo = (hi * 2 ^ 64 + lo) / divisor /\
  r = (hi * 2 ^ 64 + lo) mod divisor.
Proof.
  intros Hh Hl Hd Hnz. unfold div128_32.
  destruct (dwords hi Hh) as (Eh & H3 & H2). destruct (dwords lo Hl) as (El & H1 & H0).
  assert (0 <= 0 < divisor) as Hr by mach.
  pose proof (div_with_reminder_spec _ _ _ H3 Hd Hr) as S3.
  destruct (div_with_reminder (hi_dword hi) divisor 0) as [q3 r3].
  destruct S3 as (B3 & R3 & E3). pose proof (div_with_reminder_spec _ _ _ H2 Hd R3) as S2.
  destruct (div_with_reminder (lo_dword hi) divisor r3) as [q2 r2].
  destruct S2 as (B2 & R2 & E2). pose proof (div_with_reminder_spec _ _ _ H1 Hd R2) as S1.
  destruct (div_with_reminder (hi_dword lo) divisor r2) as [q1 r1].
  destruct S1 as (B1 & R1 & E1). pose proof (div_with_reminder_spec _ _ _ H0 Hd R1) as S0.
  destruct (div_with_reminder (lo_dword lo) divisor r1) as [q0 r0].
  destruct S0 as (B0 & R0 & E0).
  assert (forall a b, is_u32 a -> is_u32 b -> Z.lor (u64 (Z.shiftl a 32)) b = a * 2 ^ 32 + b) as Hj.
  { intros a b Ha Hb. rewrite wrap_small by (rewrite Z.shiftl_mul_pow2 by lia; mach).
    apply lor_add_low; mach. }
  rewrite !Hj by done.
  assert (hi * 2 ^ 64 + lo
          = divisor * ((q3 * 2 ^ 32 + q2) * 2 ^ 64 + (q1 * 2 ^ 32 + q0)) + r0) as E.
  { rewrite Eh, El. change (2 ^ 64) with (2 ^ 32 * 2 ^ 32). nia. }
  split_and!; [mach..| |].
  - apply Z.div_unique with r0; [by left|exact E].
  - eapply Z.mod_unique; [by left|exact E].
Qed.

(** The 64-bit divisor version gives the quotient and the remainder of the
    128-bit dividend, the high word of the remainder being 0. *)
Lemma div128_64_spec hi lo divisor :
  is_u64 hi -> is_u64 lo -> is_u64 divisor -> divisor <> 0 ->
  exists qhi qlo,
    div128_64 hi lo divisor = Ret ((qhi, qlo), (0, (hi * 2 ^ 64 + lo) mod divisor)) /\
    is_u64 qhi /\ is_u64 qlo /\ qhi * 2 ^ 64 + qlo = (hi * 2 ^ 64 + lo) / divisor.
Proof.
  intros Hh Hl Hd Hnz. unfold div128_64.
  assert (u128 (Z.shiftl hi 64) = Z.shiftl hi 64) as ->.
  { apply wrap_small. rewrite Z.shiftl_mul_pow2 by lia. unfold in_width in *.
    change (2 ^ 128) with (2 ^ 64 * 2 ^ 64). nia. }
  rewrite lor_add_low by (lia || done). set (n := hi * 2 ^ 64 + lo).
  destruct (Z.eqb_spec divisor 0); [done|]. rewrite !land_ones_mod, !Z.shiftr_div_pow2 by lia.
  assert (0 <= n < 2 ^ 64 * 2 ^ 64) as Hn by (unfold n, in_width in *; nia).
  pose proof (Z.mod_pos_bound n divisor ltac:(mach)) as Hm.
  pose proof (Z.div_pos n divisor ltac:(lia) ltac:(mach)) as Hq.
  assert (n / divisor < 2 ^ 64 * 2 ^ 64) as Hq2
    by (apply Z.div_lt_upper_bound; unfold in_width in *; nia).
  rewrite (Z.div_small (n mod divisor)) by mach. rewrite (Z.mod_small (n mod divisor)) by mach.
  rewrite (Z.mod_small (n / divisor / 2 ^ 64)).
  2: { split; [by apply Z.div_pos|]. apply Z.div_lt_upper_bound; lia. }
  exists (n / divisor / 2 ^ 64), (n / divisor mod 2 ^ 64). split_and!; [done|..].
  - split; [by apply Z.div_pos|]. apply Z.div_lt_upper_bound; lia.
  - by apply Z.mod_pos_bound.
  - pose proof (Z.div_mod (n / divisor) (2 ^ 64) ltac:(lia)). lia.
Qed.

Lemma add64clamp_spec v a : is_u64 v -> is_u64 a -> add64clamp v a = Z.min (v + a) UINT64_MAX.
Proof.
  intros Hv Ha. unfold add64clamp, UINT64_MAX. rewrite wrap_small by mach.
  destruct (Z.ltb_spec (2 ^ 64 - 1 - a) v); [lia|]. rewrite wrap_small by mach. lia.
Qed.

Lemma sub64clamp_spec v s : is_u64 v -> is_u64 s -> sub64clamp v s = Z.max (v - s) 0.
Proof.
  intros Hv Hs. unfold sub64clamp.
  destruct (Z.ltb_spec v s); [lia|]. rewrite wrap_small by mach. lia.
Qed.

Lemma div128_32_spec_witness :
  div128_32 (2 ^ 64 - 1) 5846 (2 ^ 32 - 1) = (5846, 4294967297, 0) /\
  4294967297 * 2 ^ 64 + 0 = ((2 ^ 64 - 1) * 2 ^ 64 + 5846) / (2 ^ 32 - 1).
Proof.
  split; [by vm_compute|].
  exact (proj1 (proj2 (proj2 (div128_32_spec (2 ^ 64 - 1) 5846 (2 ^ 32 - 1)
           ltac:(by_decide) ltac:(by_decide) ltac:(by_decide) ltac:(by_decide))))).
Defined.
