(* ===== verification/JsString.v ===== *)
(** * JavaScript strings

    The string operations of ECMAScript that the scripts of hashmonkey-gui/js
    use.  A string is the list of its UTF-16 code units; an index out of range
    gives what the language gives (clamping for [substring] and [slice], [None]
    for [undefined]). *)

From S2P Require Import Prelude.

Abbreviation jsstring := (list Z).

(** Run-time errors of the scripts: a method call or property access on
    [undefined] or [null]. *)
Inductive js_error := TypeError.

(** A literal of the source: ASCII text as code units. *)
Definition js (s : string) : jsstring :=
  (fun a => Z.of_N (Ascii.N_of_ascii a)) <$> String.list_ascii_of_string s.

(** The code unit of a one-character literal. *)
Definition chr (s : string) : Z := default 0 (head (js s)).

Definition code_unit (c : Z) : Prop := in_width 16 c.

Definition str_eqb (s t : jsstring) : bool := bool_decide (s = t).

(** [s.length] *)
Definition str_length (s : jsstring) : Z := Z.of_nat (length s).

(** [s.substring(a, b)]: both ends clamped to [0, length], swapped if needed. *)
Definition substring (s : jsstring) (a b : Z) : jsstring :=
  let n := str_length s in
  let a' := Z.max 0 (Z.min a n) in
  let b' := Z.max 0 (Z.min b n) in
  let lo := Z.to_nat (Z.min a' b') in
  let hi := Z.to_nat (Z.max a' b') in
  take (hi - lo) (drop lo s).

(** [s.substring(a)] *)
Definition substring_from (s : jsstring) (a : Z) : jsstring :=
  substring s a (str_length s).

(** [s.slice(1)] and [s.charAt(0)] *)
Definition slice1 (s : jsstring) : jsstring := drop 1 s.
Definition charAt0 (s : jsstring) : jsstring := take 1 s.

(** Is [p] a prefix of [s]?  Then the rest of [s]. *)
Fixpoint strip_prefix (p s : jsstring) : option jsstring :=
  match p, s with
  | [], _ => Some s
  | _ :: _, [] => None
  | a :: p', c :: s' => if a =? c then strip_prefix p' s' else None
  end.

(** [s.indexOf(p)] *)
Fixpoint indexOf (p s : jsstring) : Z :=
  match strip_prefix p s with
  | Some _ => 0
  | None =>
      match s with
      | [] => -1
      | _ :: s' => let i := indexOf p s' in if i <? 0 then -1 else i + 1
      end
  end.

(** [s.lastIndexOf(c)] for a one-unit pattern *)
Fixpoint lastIndexOf (c : Z) (s : jsstring) : Z :=
  match s with
  | [] => -1
  | d :: s' =>
      let i := lastIndexOf c s' in
      if 0 <=? i then i + 1 else if d =? c then 0 else -1
  end.

(** [s.endsWith(c)] for a one-unit pattern *)
Definition endsWith (s : jsstring) (c : Z) : bool :=
  match last s with Some d => d =? c | None => false end.

(** [s.split(c)] for a one-unit separator: always at least one piece. *)
Fixpoint split (c : Z) (s : jsstring) : list jsstring :=
  match s with
  | [] => [[]]
  | d :: s' =>
      if d =? c then [] :: split c s'
      else match split c s' with
           | [] => [[d]]
           | w :: ws => (d :: w) :: ws
           end
  end.

(** [ws.join(sep)] *)
Fixpoint join (sep : jsstring) (ws : list jsstring) : jsstring :=
  match ws with
  | [] => []
  | [w] => w
  | w :: ws' => w ++ sep ++ join sep ws'
  end.

(** ASCII classes used by the scripts *)
Definition between (lo hi c : Z) : bool := (lo <=? c) && (c <=? hi).
Definition is_digit (c : Z) : bool := between 48 57 c.
Definition is_lower (c : Z) : bool := between 97 122 c.
Definition is_upper (c : Z) : bool := between 65 90 c.
Definition is_alnum (c : Z) : bool := is_digit c || is_lower c || is_upper c.

(** White space and line terminators of ECMAScript ([\s], and what [parseInt]
    and [trim] skip). *)
Definition is_space (c : Z) : bool :=
  between 9 13 c || (c =? 32) || (c =? 160) || (c =? 0x1680)
  || between 0x2000 0x200a c || (c =? 0x2028) || (c =? 0x2029)
  || (c =? 0x202f) || (c =? 0x205f) || (c =? 0x3000) || (c =? 0xfeff).

Definition is_line_terminator (c : Z) : bool :=
  (c =? 10) || (c =? 13) || (c =? 0x2028) || (c =? 0x2029).

(** ** Lemmas *)

Lemma strip_prefix_Some p s t : strip_prefix p s = Some t <-> s = p ++ t.
Proof.
  revert s. induction p as [|a p IH]; intros [|c s]; simpl; try naive_solver.
  destruct (Z.eqb_spec a c) as [->|Hne]; [rewrite IH|]; naive_solver.
Qed.

Lemma indexOf_0 p s : indexOf p s = 0 <-> exists t, s = p ++ t.
Proof.
  destruct s as [|c s]; simpl.
  - destruct (strip_prefix p []) eqn:E.
    + apply strip_prefix_Some in E. naive_solver.
    + split; [done|]. intros [t Ht].
      assert (strip_prefix p [] = Some t) as Hs by by apply strip_prefix_Some.
      congruence.
  - destruct (strip_prefix p (c :: s)) eqn:E.
    + apply strip_prefix_Some in E. naive_solver.
    + split.
      * cases_cmp; lia.
      * intros [t Ht].
        assert (strip_prefix p (c :: s) = Some t) as Hs by by apply strip_prefix_Some.
        congruence.
Qed.

Lemma split_nonnil c s : split c s <> [].
Proof. destruct s; simpl; [done|]. case_match; [done|]. by case_match. Qed.

(** A piece without the separator comes out whole. *)
Lemma split_app c w s :
  c ∉ w -> split c (w ++ c :: s) = w :: split c s.
Proof.
  induction w as [|d w IH]; intros Hw; simpl.
  - by rewrite Z.eqb_refl.
  - rewrite IH by set_solver.
    destruct (Z.eqb_spec d c) as [->|]; [set_solver|done].
Qed.

Lemma split_no_sep c w : c ∉ w -> split c w = [w].
Proof.
  induction w as [|d w IH]; intros Hw; simpl; [done|].
  rewrite IH by set_solver.
  destruct (Z.eqb_spec d c) as [->|]; [set_solver|done].
Qed.

(** [split] undone by [join]. *)
Lemma join_split c s : join [c] (split c s) = s.
Proof.
  induction s as [|d s IH]; simpl; [done|].
  destruct (Z.eqb_spec d c) as [->|].
  - pose proof (split_nonnil c s). destruct (split c s); [done|].
    simpl in *. by rewrite IH.
  - pose proof (split_nonnil c s). destruct (split c s) as [|w ws]; [done|].
    destruct ws; simpl in *; by rewrite <- IH.
Qed.

Lemma take_all_len {A} (l : list A) n : (length l <= n)%nat -> take n l = l.
Proof. apply take_ge. Qed.

(** [substring] with ordered arguments in range. *)
Lemma substring_range s a b :
  0 <= a <= b -> b <= str_length s ->
  substring s a b = take (Z.to_nat (b - a)) (drop (Z.to_nat a) s).
Proof.
  unfold substring, str_length. intros.
  replace (Z.max 0 (Z.min a _)) with a by lia.
  replace (Z.max 0 (Z.min b _)) with b by lia.
  by replace (Z.to_nat (Z.max a b) - Z.to_nat (Z.min a b))%nat
    with (Z.to_nat (b - a)) by lia; replace (Z.min a b) with a by lia.
Qed.

Lemma substring_prefix s n :
  0 <= n -> substring s 0 n = take (Z.to_nat n) s.
Proof.
  intros. unfold substring, str_length.
  replace (Z.min (Z.max 0 _) _) with 0 by lia. simpl. rewrite drop_0.
  destruct (decide (n <= Z.of_nat (length s))).
  - f_equal; lia.
  - rewrite !take_ge; [done|lia|lia].
Qed.

Lemma substring_suffix s a :
  0 <= a <= str_length s -> substring_from s a = drop (Z.to_nat a) s.
Proof.
  intros Ha. unfold substring_from. rewrite substring_range by lia.
  apply take_ge. rewrite length_drop. unfold str_length in *. lia.
Qed.

Lemma lastIndexOf_absent c s : c ∉ s -> lastIndexOf c s = -1.
Proof.
  induction s as [|d s IH]; intros H; simpl; [done|].
  rewrite IH by set_solver. simpl. destruct (Z.eqb_spec d c) as [->|]; [set_solver|done].
Qed.

(** The text after the last separator *)
Lemma lastIndexOf_last c s w :
  c ∉ w -> lastIndexOf c (s ++ c :: w) = str_length s.
Proof.
  intros Hw. unfold str_length. induction s as [|d s IH]; simpl.
  - rewrite lastIndexOf_absent by done. simpl. by rewrite Z.eqb_refl.
  - rewrite IH. destruct (Z.leb_spec 0 (Z.of_nat (length s))); lia.
Qed.

Lemma after_last c s w :
  c ∉ w -> substring_from (s ++ c :: w) (lastIndexOf c (s ++ c :: w) + 1) = w.
Proof.
  intros Hw. rewrite lastIndexOf_last by done.
  rewrite substring_suffix; unfold str_length.
  - replace (Z.to_nat (Z.of_nat (length s) + 1)) with (S (length s)) by lia.
    rewrite (cons_middle c s w), app_assoc. rewrite drop_app_length'; [done|].
    rewrite length_app. simpl. lia.
  - rewrite length_app. simpl. lia.
Qed.
