(* ===== verification/JsRegex.v ===== *)
(** * JavaScript regular expressions

    The backtracking matcher of ECMAScript (continuations, greedy and lazy
    quantifiers, one capture group, [^] and [$]) for the patterns in the scripts
    of hashmonkey-gui/js, the string methods built on it ([test], [replace],
    [match], [split]), and a declarative matching relation for which the matcher
    is sound and complete. *)

From S2P Require Import Prelude JsString.

Inductive regex :=
| RChr (p : Z -> bool)
| RSeq (r1 r2 : regex)
| RAlt (r1 r2 : regex)
| RQuant (greedy : bool) (mn : nat) (mx : option nat) (r : regex)
| RGroup (r : regex)
| RBol
| REol.

Notation "r '⋆'" := (RQuant true 0 None r) (at level 30).
Notation "r '⁺'" := (RQuant true 1 None r) (at level 30).
Infix "⋅" := RSeq (at level 35, right associativity).

(** A literal character, and [.] *)
Definition RLit (c : Z) : regex := RChr (Z.eqb c).
Definition RDot : regex := RChr (fun c => negb (is_line_terminator c)).

(** Matcher state: the index reached, the code units after it and the text of
    the last completed group. *)
Record st := St { pos : nat; rest : jsstring; cap : option jsstring }.

Definition cont := st -> option st.

(** Does the pattern contain the capture group? *)
Fixpoint has_group (r : regex) : bool :=
  match r with
  | RGroup _ => true
  | RSeq r1 r2 | RAlt r1 r2 => has_group r1 || has_group r2
  | RQuant _ _ _ r1 => has_group r1
  | _ => false
  end.

(** An iteration of a quantifier forgets the captures inside its body. *)
Definition reset_cap (inside : bool) (s : st) : st :=
  if inside then St (pos s) (rest s) None else s.

(** RepeatMatcher.  [fuel] bounds the iterations; [m] below starts it with more
    than [mn + length (rest s)], the number of iterations there can be. *)
Fixpoint repeat_matcher (inside : bool) (mr : cont -> st -> option st) (greedy : bool)
    (k : cont) (fuel mn : nat) (mx : option nat) (s : st) : option st :=
  match fuel with
  | O => None
  | S fuel' =>
      if bool_decide (mx = Some O) then k s
      else
        let d s' :=
          if bool_decide (mn = O) && bool_decide (pos s' = pos s) then None
          else repeat_matcher inside mr greedy k fuel' (pred mn) (pred <$> mx) s' in
        if negb (bool_decide (mn = O)) then mr d (reset_cap inside s)
        else if greedy
             then match mr d (reset_cap inside s) with Some z => Some z | None => k s end
             else match k s with Some z => Some z | None => mr d (reset_cap inside s) end
  end.

Fixpoint m (r : regex) (k : cont) (s : st) : option st :=
  match r with
  | RChr p =>
      match rest s with
      | c :: t => if p c then k (St (S (pos s)) t (cap s)) else None
      | [] => None
      end
  | RSeq r1 r2 => m r1 (m r2 k) s
  | RAlt r1 r2 => match m r1 k s with Some z => Some z | None => m r2 k s end
  | RQuant greedy mn mx r1 =>
      repeat_matcher (has_group r1) (m r1) greedy k (S (mn + length (rest s))) mn mx s
  | RGroup r1 =>
      m r1 (fun s' => k (St (pos s') (rest s') (Some (take (pos s' - pos s) (rest s))))) s
  | RBol => if bool_decide (pos s = O) then k s else None
  | REol => match rest s with [] => k s | _ => None end
  end.

(** [exec]: the leftmost start at which the pattern matches. *)
Fixpoint exec_at (r : regex) (i : nat) (t : jsstring) : option (nat * st) :=
  match m r Some (St i t None) with
  | Some s' => Some (i, s')
  | None => match t with [] => None | _ :: t' => exec_at r (S i) t' end
  end.

(** [r.test(s)] *)
Definition test (r : regex) (s : jsstring) : bool := bool_decide (is_Some (exec_at r 0 s)).

(** [s.replace(r, ...)] without the g flag; the replacement is computed from the
    capture ([fun _ => lit] for a plain text, [default []] for ["$1"]). *)
Definition replace (r : regex) (repl : option jsstring -> jsstring) (s : jsstring) : jsstring :=
  match exec_at r 0 s with
  | None => s
  | Some (i, s') => take i s ++ repl (cap s') ++ rest s'
  end.

(** The matches found by the g flag, as (text before, match, capture), and the
    text after the last one. An empty match moves [lastIndex] on by one. *)
Fixpoint matches_g (r : regex) (fuel i : nat) (t : jsstring)
    : list (jsstring * jsstring * option jsstring) * jsstring :=
  match fuel with
  | O => ([], t)
  | S fuel' =>
      match exec_at r i t with
      | None => ([], t)
      | Some (j, s') =>
          let before := take (j - i) t in
          let found := take (pos s' - j) (drop (j - i) t) in
          if bool_decide (pos s' = j) then
            match rest s' with
            | [] => ([(before, found, cap s')], [])
            | c :: t' =>
                let '(ms, tl) := matches_g r fuel' (S j) t' in
                match ms with
                | (b, f, cp) :: ms' => ((before, found, cap s') :: (c :: b, f, cp) :: ms', tl)
                | [] => ([(before, found, cap s')], c :: tl)
                end
            end
          else
            let '(ms, tl) := matches_g r fuel' (pos s') (rest s') in
            ((before, found, cap s') :: ms, tl)
      end
  end.

(** [s.replace(r, lit)] with the g flag *)
Definition replace_g (r : regex) (lit : jsstring) (s : jsstring) : jsstring :=
  let '(ms, tl) := matches_g r (S (length s)) 0 s in
  concat ((fun x => x.1.1 ++ lit) <$> ms) ++ tl.

(** [s.match(r)] with the g flag: [None] is [null]. *)
Definition match_g (r : regex) (s : jsstring) : option (list jsstring) :=
  match (matches_g r (S (length s)) 0 s).1 with
  | [] => None
  | ms => Some ((fun x => x.1.2) <$> ms)
  end.

(** [s.split(r)]: [cur] is the piece being read, in reverse. *)
Fixpoint split_loop (r : regex) (fuel i : nat) (cur t : jsstring) : list jsstring :=
  match fuel with
  | O => [rev cur]
  | S fuel' =>
      match t with
      | [] => [rev cur]
      | c :: t' =>
          match m r Some (St i t None) with
          | Some s' =>
              if bool_decide (pos s' = i) && bool_decide (cur = [])
              then split_loop r fuel' (S i) (c :: cur) t'
              else rev cur :: split_loop r fuel' (pos s') [] (rest s')
          | None => split_loop r fuel' (S i) (c :: cur) t'
          end
      end
  end.

Definition split_re (r : regex) (s : jsstring) : list jsstring :=
  match s with
  | [] => if bool_decide (is_Some (m r Some (St 0 [] None))) then [] else [[]]
  | _ => split_loop r (S (length s)) 0 [] s
  end.

(** ** The matching relation *)

Inductive qmatch (inside : bool) (R : st -> st -> Prop) : nat -> option nat -> st -> st -> Prop :=
| q_stop mx s : qmatch inside R 0 mx s s
| q_max mn s : qmatch inside R mn (Some O) s s
| q_step mn mx s s1 s2 :
    mx <> Some O ->
    R (reset_cap inside s) s1 ->
    (mn = O -> pos s1 <> pos s) ->
    qmatch inside R (pred mn) (pred <$> mx) s1 s2 ->
    qmatch inside R mn mx s s2.

Fixpoint rmatch (r : regex) (s s' : st) : Prop :=
  match r with
  | RChr p => exists c t, rest s = c :: t /\ p c = true /\ s' = St (S (pos s)) t (cap s)
  | RSeq r1 r2 => exists s1, rmatch r1 s s1 /\ rmatch r2 s1 s'
  | RAlt r1 r2 => rmatch r1 s s' \/ rmatch r2 s s'
  | RQuant _ mn mx r1 => qmatch (has_group r1) (rmatch r1) mn mx s s'
  | RGroup r1 =>
      exists s1, rmatch r1 s s1 /\
        s' = St (pos s1) (rest s1) (Some (take (pos s1 - pos s) (rest s)))
  | RBol => pos s = O /\ s' = s
  | REol => rest s = [] /\ s' = s
  end.

(** A match consumes a prefix of what is left. *)
Definition advances (s s' : st) : Prop :=
  (pos s <= pos s')%nat /\ rest s' = drop (pos s' - pos s) (rest s)
  /\ (pos s' - pos s <= length (rest s))%nat.

Lemma advances_refl s : advances s s.
Proof. unfold advances. rewrite Nat.sub_diag, drop_0. split_and!; [lia|done|lia]. Qed.

Lemma advances_trans s1 s2 s3 : advances s1 s2 -> advances s2 s3 -> advances s1 s3.
Proof.
  intros (?&E1&?) (?&E2&L). rewrite E1 in *. rewrite length_drop in L.
  unfold advances. split_and!; [lia| |lia].
  rewrite E2, drop_drop. f_equal. lia.
Qed.

Lemma rmatch_advances r s s' : rmatch r s s' -> advances s s'.
Proof.
  revert s s'. induction r as [p|r1 IH1 r2 IH2|r1 IH1 r2 IH2|g mn mx r IH|r IH| |];
    intros s s'; simpl.
  - intros (c & t & E & _ & ->). unfold advances; simpl. rewrite E.
    replace (S (pos s) - pos s)%nat with 1%nat by lia. simpl. split_and!; [lia|done|lia].
  - intros (s1 & H1 & H2). eauto using advances_trans.
  - intros [H|H]; eauto.
  - induction 1 as [| |mn mx s s1 s2 _ HR _ _ IHq]; [apply advances_refl..|].
    apply IH in HR. destruct (has_group r); eauto using advances_trans.
  - intros (s1 & H1 & ->). apply IH in H1. done.
  - intros [_ ->]. apply advances_refl.
  - intros [_ ->]. apply advances_refl.
Qed.

Lemma reset_cap_pos b s : pos (reset_cap b s) = pos s.
Proof. by destruct b. Qed.
Lemma reset_cap_rest b s : rest (reset_cap b s) = rest s.
Proof. by destruct b. Qed.

(** What makes a matcher [mr] correct for a relation [R]. *)
Definition matcher_ok (mr : cont -> st -> option st) (R : st -> st -> Prop) : Prop :=
  (forall k s z, mr k s = Some z -> exists s', R s s' /\ k s' = Some z) /\
  (forall k s s', R s s' -> is_Some (k s') -> is_Some (mr k s)).

Lemma repeat_sound inside mr R greedy k fuel mn mx s z :
  matcher_ok mr R ->
  repeat_matcher inside mr greedy k fuel mn mx s = Some z ->
  exists s', qmatch inside R mn mx s s' /\ k s' = Some z.
Proof.
  intros [Hs _]. revert mn mx s z.
  induction fuel as [|fuel IH]; intros mn mx s z; simpl; [done|].
  case_bool_decide as Hmx; [subst; eauto using qmatch|].
  set (d := fun s' => _).
  assert (forall z', mr d (reset_cap inside s) = Some z' ->
            exists s', qmatch inside R mn mx s s' /\ k s' = Some z') as Hd.
  { intros z' (s1 & HR & Hd)%Hs. subst d. simpl in Hd.
    destruct (bool_decide _ && _) eqn:E in Hd; [done|].
    apply IH in Hd as (s2 & Hq & Hk).
    exists s2. split; [|done]. eapply q_step; eauto.
    intros -> Hp. rewrite Hp in E. rewrite !bool_decide_eq_true_2 in E by done. done. }
  destruct (bool_decide (mn = 0%nat)) eqn:Emn; simpl; [|apply Hd].
  apply bool_decide_eq_true in Emn as ->.
  destruct greedy; destruct (mr d _) eqn:Em, (k s) eqn:Ek; naive_solver eauto using qmatch.
Qed.

Lemma repeat_complete inside mr R greedy k fuel mn mx s s' :
  matcher_ok mr R ->
  (forall s1 s2, R s1 s2 -> advances s1 s2) ->
  (mn + length (rest s) < fuel)%nat ->
  qmatch inside R mn mx s s' -> is_Some (k s') ->
  is_Some (repeat_matcher inside mr greedy k fuel mn mx s).
Proof.
  intros [_ Hc] Hadv Hf Hq Hk. revert fuel Hf.
  induction Hq as [mx s|mn s|mn mx s s1 s2 Hmx HR Hprog Hq IH]; intros [|fuel] Hf;
    try lia; simpl.
  - case_bool_decide; [done|]. simpl.
    destruct greedy.
    + by case_match.
    + by destruct (k s) eqn:Ek; [|destruct Hk].
  - done.
  - rewrite bool_decide_eq_false_2 by done.
    set (d := fun s' => _).
    assert (is_Some (mr d (reset_cap inside s))) as Hd.
    { apply (Hc _ _ s1); [done|]. subst d; simpl.
      destruct (bool_decide (mn = 0%nat) && _) eqn:E.
      - apply andb_true_iff in E as [->%bool_decide_eq_true E%bool_decide_eq_true].
        naive_solver.
      - apply IH; [done|]. apply Hadv in HR as (Hp & Hr & Hl).
        rewrite reset_cap_pos, ?reset_cap_rest in *.
        rewrite Hr, length_drop.
        destruct mn as [|mn]; simpl; [specialize (Hprog eq_refl)|]; lia. }
    destruct Hd as [z Hz]. rewrite Hz.
    case_bool_decide; simpl; [|done]. destruct greedy; [done|]. by destruct (k s).
Qed.

(** The matcher finds a match exactly when the relation has one that the
    continuation accepts. *)
Theorem m_ok r : matcher_ok (m r) (rmatch r).
Proof.
  induction r as [p|r1 [S1 C1] r2 [S2 C2]|r1 [S1 C1] r2 [S2 C2]|g mn mx r IH|r [S1 C1]| |];
    split; cbn [m rmatch].
  - intros k s z. destruct (rest s) as [|c t] eqn:E; [done|].
    destruct (p c) eqn:Ep; [|done]. eauto 10.
  - intros k s s' (c & t & -> & -> & ->). done.
  - intros k s z (s1 & H1 & (s2 & H2 & ?)%S2)%S1. eauto.
  - intros k s s' (s1 & H1 & H2) Hk. eauto.
  - intros k s z. destruct (m r1 k s) eqn:E.
    + intros [= ->]. apply S1 in E as (s' & ? & ?). eauto.
    + intros (s' & ? & ?)%S2. eauto.
  - intros k s s' [H|H] Hk.
    + destruct (C1 _ _ _ H Hk) as [z ->]. done.
    + destruct (m r1 k s); [done|]. eauto.
  - intros k s z. by apply repeat_sound.
  - intros k s s' Hq Hk.
    eapply repeat_complete; eauto using rmatch_advances; lia.
  - intros k s z (s1 & H1 & H2)%S1. eauto 10.
  - intros k s s' (s1 & H1 & ->) Hk. eapply C1; eauto.
  - intros k s z. case_bool_decide; naive_solver.
  - intros k s s' [Hp ->] Hk. by rewrite bool_decide_eq_true_2.
  - intros k s z. destruct (rest s) eqn:E; naive_solver.
  - intros k s s' [-> ->] Hk. done.
Qed.

Lemma m_Some_is r s : is_Some (m r Some s) <-> exists s', rmatch r s s'.
Proof.
  split.
  - intros [z (s' & ? & _)%(m_ok r)]. eauto.
  - intros [s' H]. eapply (m_ok r); eauto.
Qed.

(** [test] finds a match starting somewhere in the string. *)
Lemma exec_at_Some r i t :
  is_Some (exec_at r i t) <->
  exists n s', (n <= length t)%nat /\ rmatch r (St (i + n) (drop n t) None) s'.
Proof.
  revert i. induction t as [|c t IH]; intros i; simpl.
  - destruct (m r Some (St i [] None)) eqn:E.
    + assert (is_Some (m r Some (St i [] None))) as [s' Hs]%m_Some_is by eauto.
      split; [|done]. intros _. exists 0%nat, s'. rewrite Nat.add_0_r. auto.
    + split; [by intros []|]. intros (n & s' & Hn & Hs).
      assert (n = 0%nat) as -> by (simpl in Hn; lia). rewrite Nat.add_0_r in Hs.
      assert (is_Some (m r Some (St i [] None))) as [? ?] by (apply m_Some_is; eauto).
      congruence.
  - destruct (m r Some (St i (c :: t) None)) eqn:E.
    + assert (is_Some (m r Some (St i (c :: t) None))) as [s' Hs]%m_Some_is by eauto.
      split; [|done]. intros _. exists 0%nat, s'. rewrite Nat.add_0_r. split; [lia|done].
    + rewrite IH. split.
      * intros (n & s' & Hn & Hs). exists (S n), s'. split; [lia|].
        by rewrite <- Nat.add_succ_comm.
      * intros ([|n] & s' & Hn & Hs).
        { rewrite Nat.add_0_r in Hs. simpl in Hs.
          assert (is_Some (m r Some (St i (c :: t) None))) as [? ?] by (apply m_Some_is; eauto).
          congruence. }
        exists n, s'. split; [lia|]. by rewrite Nat.add_succ_comm.
Qed.

Lemma test_spec r s :
  test r s = true <->
  exists n s', (n <= length s)%nat /\ rmatch r (St n (drop n s) None) s'.
Proof. unfold test. rewrite bool_decide_eq_true, exec_at_Some. done. Qed.

(** ** Quantified character classes

    A quantifier over a class tries the lengths of the run of matching
    characters from the longest down when it is greedy, from the shortest up when
    it is lazy. *)

Fixpoint span (p : Z -> bool) (t : jsstring) : nat :=
  match t with c :: t' => if p c then S (span p t') else O | [] => O end.

Fixpoint backoff {A} (f : nat -> option A) (n : nat) : option A :=
  match f n with
  | Some z => Some z
  | None => match n with O => None | S n' => backoff f n' end
  end.

Fixpoint forth {A} (f : nat -> option A) (n : nat) : option A :=
  match f O with
  | Some z => Some z
  | None => match n with O => None | S n' => forth (fun i => f (S i)) n' end
  end.

Definition cut (mx : option nat) (n : nat) : nat :=
  match mx with Some b => Nat.min b n | None => n end.

Lemma backoff_S {A} (f : nat -> option A) n :
  backoff f (S n) =
  match backoff (fun i => f (S i)) n with Some z => Some z | None => f O end.
Proof.
  induction n as [|n IH].
  - simpl. repeat case_match; congruence.
  - change (backoff f (S (S n))) with
      (match f (S (S n)) with Some z => Some z | None => backoff f (S n) end).
    rewrite IH. simpl. by destruct (f (S (S n))).
Qed.

Lemma backoff_hit {A} (f : nat -> option A) n z : f n = Some z -> backoff f n = Some z.
Proof. intros H. destruct n; simpl; by rewrite H. Qed.

Lemma backoff_ext {A} (f g : nat -> option A) n :
  (forall i, (i <= n)%nat -> f i = g i) -> backoff f n = backoff g n.
Proof.
  induction n as [|n IH]; intros H; simpl; rewrite H by lia; [done|].
  case_match; [done|]. apply IH. intros. apply H. lia.
Qed.

Lemma forth_ext {A} (f g : nat -> option A) n :
  (forall i, (i <= n)%nat -> f i = g i) -> forth f n = forth g n.
Proof.
  revert f g. induction n as [|n IH]; intros f g H; simpl; rewrite H by lia; [done|].
  case_match; [done|]. apply IH. intros. apply H. lia.
Qed.

Lemma span_le p t : (span p t <= length t)%nat.
Proof. induction t as [|c t IH]; simpl; [lia|]. case_match; lia. Qed.

Lemma repeat_class_greedy p k fuel mx i t c :
  (length t < fuel)%nat ->
  repeat_matcher false (m (RChr p)) true k fuel 0 mx (St i t c) =
  backoff (fun n => k (St (i + n) (drop n t) c)) (cut mx (span p t)).
Proof.
  revert mx i t. induction fuel as [|fuel IH]; intros mx i t Hf; [lia|].
  cbn [repeat_matcher]. case_bool_decide as Hmx.
  { subst mx. simpl. rewrite Nat.add_0_r, drop_0. by destruct (k _). }
  cbn [negb bool_decide decide_rel reset_cap m rest pos].
  destruct t as [|d t]; simpl in Hf.
  { simpl. assert (cut mx 0 = 0%nat) as -> by (destruct mx; simpl; lia).
    simpl. rewrite Nat.add_0_r. by destruct (k _). }
  simpl. destruct (p d) eqn:Ep.
  - rewrite (bool_decide_eq_false_2 (S i = i)) by lia. rewrite IH by lia.
    assert (cut mx (S (span p t)) = S (cut (pred <$> mx) (span p t))) as ->.
    { destruct mx as [[|b]|]; simpl; [done|lia|lia]. }
    rewrite backoff_S. rewrite Nat.add_0_r, drop_0.
    erewrite (backoff_ext (fun n => k (St (i + S n) _ _))); [done|].
    intros n _. simpl. by rewrite Nat.add_succ_r.
  - assert (cut mx 0 = 0%nat) as -> by (destruct mx; simpl; lia).
    simpl. rewrite Nat.add_0_r. by destruct (k _).
Qed.

Lemma repeat_class_lazy p k fuel i t c :
  (length t < fuel)%nat ->
  repeat_matcher false (m (RChr p)) false k fuel 0 None (St i t c) =
  forth (fun n => k (St (i + n) (drop n t) c)) (span p t).
Proof.
  revert i t. induction fuel as [|fuel IH]; intros i t Hf; [lia|].
  cbn [repeat_matcher]. simpl (bool_decide _). cbn [negb reset_cap m rest pos].
  destruct t as [|d t]; simpl in Hf; simpl.
  { rewrite Nat.add_0_r. by destruct (k _). }
  destruct (p d) eqn:Ep; simpl; rewrite Nat.add_0_r.
  - rewrite (bool_decide_eq_false_2 (S i = i)) by lia. rewrite IH by lia.
    destruct (k _); [done|]. apply forth_ext. intros n _. by rewrite Nat.add_succ_r.
  - by destruct (k _).
Qed.

Lemma m_star p k i t c :
  m (RChr p ⋆) k (St i t c) =
  backoff (fun n => k (St (i + n) (drop n t) c)) (span p t).
Proof. cbn [m]. apply repeat_class_greedy. simpl. lia. Qed.

Lemma m_star_lazy p k i t c :
  m (RQuant false 0 None (RChr p)) k (St i t c) =
  forth (fun n => k (St (i + n) (drop n t) c)) (span p t).
Proof. cbn [m]. apply repeat_class_lazy. simpl. lia. Qed.

(** One or more, at most [mx] *)
Lemma m_plus p mx k i t c :
  mx <> Some O ->
  m (RQuant true 1 mx (RChr p)) k (St i t c) =
  match t with
  | d :: t' =>
      if p d then
        backoff (fun n => k (St (S i + n) (drop n t') c)) (cut (pred <$> mx) (span p t'))
      else None
  | [] => None
  end.
Proof.
  intros Hmx. cbn [m]. cbn [repeat_matcher plus]. rewrite bool_decide_eq_false_2 by done.
  cbn [negb bool_decide decide_rel reset_cap m rest pos has_group].
  destruct t as [|d t]; [done|]. simpl.
  destruct (p d); [|done].
  pose proof (repeat_class_greedy p k (S (S (length t))) (pred <$> mx) (S i) t c ltac:(lia)) as E.
  exact E.
Qed.

(** Global replacement of a class by a text, character by character. *)
Definition subst_chr (p : Z -> bool) (lit : jsstring) (s : jsstring) : jsstring :=
  concat ((fun c => if p c then lit else [c]) <$> s).

Lemma exec_at_chr p i t :
  exec_at (RChr p) i t =
  let n := span (fun c => negb (p c)) t in
  match drop n t with
  | c :: t' => Some ((i + n)%nat, St (S (i + n)) t' None)
  | [] => None
  end.
Proof.
  revert i. induction t as [|c t IH]; intros i; simpl; [done|].
  destruct (p c) eqn:Ep; simpl; [by rewrite Nat.add_0_r|].
  rewrite IH. simpl. case_match; [done|]. by rewrite Nat.add_succ_r.
Qed.

Lemma subst_chr_span p lit t :
  let n := span (fun c => negb (p c)) t in
  subst_chr p lit t =
  take n t ++ match drop n t with c :: t' => lit ++ subst_chr p lit t' | [] => [] end.
Proof.
  induction t as [|c t IH]; [done|]. simpl. unfold subst_chr in *. simpl in *.
  destruct (p c) eqn:Ep; simpl; [done|]. rewrite IH at 1. done.
Qed.

Lemma replace_g_chr p lit s : replace_g (RChr p) lit s = subst_chr p lit s.
Proof.
  unfold replace_g.
  enough (forall fuel i t, (length t < fuel)%nat ->
    (let '(ms, tl) := matches_g (RChr p) fuel i t in
     concat ((fun x => x.1.1 ++ lit) <$> ms) ++ tl) = subst_chr p lit t) as H.
  { apply (H (S (length s)) 0%nat s). lia. }
  induction fuel as [|fuel IH]; intros i t Hf; [lia|]. cbn [matches_g].
  rewrite exec_at_chr. simpl. rewrite subst_chr_span.
  pose proof (span_le (fun c => negb (p c)) t) as Hs.
  assert (length (drop (span (fun c => negb (p c)) t) t)
          = length t - span (fun c => negb (p c)) t)%nat as Hl by apply length_drop.
  destruct (drop _ t) as [|c t'] eqn:Ed; simpl in *.
  - rewrite app_nil_r, take_ge; [done|]. lia.
  - rewrite bool_decide_eq_false_2 by lia.
    specialize (IH (S (i + span (fun c => negb (p c)) t)) t' ltac:(lia)).
    destruct (matches_g _ fuel _ t') as [ms tl]. simpl.
    replace (i + _ - i)%nat with (span (fun c => negb (p c)) t) by lia.
    by rewrite <- IH, <- !app_assoc.
Qed.

(** ** The language of a pattern

    [consumes R L]: what [R] consumes are exactly the words of [L], wherever it
    starts. *)
Definition consumes (R : st -> st -> Prop) (L : jsstring -> Prop) : Prop :=
  (forall s s', R s s' ->
     exists w, L w /\ rest s = w ++ rest s' /\ pos s' = (pos s + length w)%nat) /\
  (forall s w t, L w -> rest s = w ++ t ->
     exists s', R s s' /\ rest s' = t /\ pos s' = (pos s + length w)%nat).

Lemma consumes_chr p : consumes (rmatch (RChr p)) (fun w => exists c, w = [c] /\ p c = true).
Proof.
  split; simpl.
  - intros s s' (c & t & -> & Hp & ->). exists [c]. simpl. split_and!; [eauto|done|lia].
  - intros s w t (c & -> & Hp) E. eexists (St (S (pos s)) t (cap s)).
    split_and!; [|done|simpl; lia]. exists c, t. done.
Qed.

Lemma consumes_seq r1 r2 L1 L2 :
  consumes (rmatch r1) L1 -> consumes (rmatch r2) L2 ->
  consumes (rmatch (RSeq r1 r2)) (fun w => exists u v, w = u ++ v /\ L1 u /\ L2 v).
Proof.
  intros [A1 B1] [A2 B2]. split; simpl.
  - intros s s' (s1 & (u & Hu & E1 & P1)%A1 & (v & Hv & E2 & P2)%A2).
    exists (u ++ v). rewrite length_app. split_and!; [eauto|by rewrite E1, E2, app_assoc|lia].
  - intros s w t (u & v & -> & Hu & Hv) E. rewrite <- app_assoc in E.
    destruct (B1 s u (v ++ t) Hu E) as (s1 & H1 & E1 & P1).
    destruct (B2 s1 v t Hv E1) as (s2 & H2 & E2 & P2).
    exists s2. rewrite length_app. split_and!; [eauto|done|lia].
Qed.

Lemma consumes_group r L : consumes (rmatch r) L -> consumes (rmatch (RGroup r)) L.
Proof.
  intros [A B]. split; simpl.
  - intros s s' (s1 & H & ->). by apply A in H.
  - intros s w t Hw E. destruct (B s w t Hw E) as (s1 & H & E1 & P1).
    eexists. split; [eauto|]. done.
Qed.

Lemma consumes_quant g mn r L :
  consumes (rmatch r) L -> (forall w, L w -> w <> []) ->
  consumes (rmatch (RQuant g mn None r))
    (fun w => exists ws, w = concat ws /\ Forall L ws /\ (mn <= length ws)%nat).
Proof.
  intros [A B] Hne. split; cbn [rmatch].
  - intros s s' Hq. remember (@None nat) as mx eqn:Emx.
    induction Hq as [mx s|mn s|mn mx s s1 s2 _ HR _ _ IH]; subst; [|done|].
    + exists []. split_and!; [exists []; simpl; auto|done|simpl; lia].
    + apply A in HR as (w & Hw & E1 & P1). rewrite reset_cap_rest, reset_cap_pos in *.
      destruct IH as (v & (ws & -> & Hws & Hl) & E2 & P2); [done|].
      exists (w ++ concat ws). rewrite length_app. split_and!.
      * exists (w :: ws). split_and!; [done|by constructor|simpl; lia].
      * by rewrite E1, E2, app_assoc.
      * lia.
  - intros s w t (ws & -> & Hws & Hl). revert s mn Hl.
    induction Hws as [|w ws Hw _ IH]; intros s mn Hl E; simpl in *.
    + assert (mn = 0%nat) as -> by lia. exists s. split_and!; [constructor|done|lia].
    + rewrite <- app_assoc in E.
      destruct (B (reset_cap (has_group r) s) w (concat ws ++ t)) as (s1 & H1 & E1 & P1);
        [done|by rewrite reset_cap_rest|]. rewrite reset_cap_pos in P1.
      destruct (IH s1 (pred mn) ltac:(lia) E1) as (s2 & H2 & E2 & P2).
      exists s2. rewrite length_app. split_and!; [|done|lia].
      eapply q_step; eauto. intros -> Hp. apply Hne in Hw. destruct w; [done|]. simpl in P1. lia.
Qed.

(** One or more characters of a class *)
Lemma consumes_plus_chr p :
  consumes (rmatch (RChr p ⁺)) (fun w => w <> [] /\ Forall (fun c => p c = true) w).
Proof.
  destruct (consumes_quant true 1 (RChr p) _ (consumes_chr p)) as [A B].
  { intros w (c & -> & _). done. }
  split.
  - intros s s' (w & (ws & -> & Hws & Hl) & E)%A. exists (concat ws). split; [|done].
    split.
    + destruct ws as [|w ws]; simpl in *; [lia|].
      apply Forall_cons in Hws as [(c & -> & _) _]. done.
    + clear Hl E. induction Hws as [|w ws (c & -> & Hc) _ IH]; simpl; [done|]. by constructor.
  - intros s w t [Hn Hw] E. apply (B s w t); [|done].
    exists ((fun c => [c]) <$> w). split_and!.
    + clear. induction w; simpl; [done|]. by f_equal.
    + apply Forall_fmap. eapply Forall_impl; [exact Hw|]. simpl. eauto.
    + rewrite length_fmap. destruct w; simpl; [done|lia].
Qed.

(** A pattern between [^] and [$] tests membership of the whole string. *)
Lemma test_anchored r L s :
  consumes (rmatch r) L -> test (RBol ⋅ r ⋅ REol) s = true <-> L s.
Proof.
  intros [A B]. rewrite test_spec. split.
  - intros (n & s' & Hn & Hm). simpl in Hm.
    destruct Hm as (s1 & [-> ->] & s2 & (w & Hw & E & P)%A & E2 & _).
    simpl in *. rewrite E2, app_nil_r in E. rewrite drop_0 in E. by subst.
  - intros Hs. destruct (B (St 0 s None) s []) as (s' & Hm & E & P);
      [done|by rewrite app_nil_r|].
    exists 0%nat, s'. split; [lia|]. simpl. rewrite drop_0. eauto 10.
Qed.

Lemma test_anchored2 r1 r2 L1 L2 s :
  consumes (rmatch r1) L1 -> consumes (rmatch r2) L2 ->
  test (RBol ⋅ r1 ⋅ r2 ⋅ REol) s = true <-> exists u v, s = u ++ v /\ L1 u /\ L2 v.
Proof.
  intros H1 H2. rewrite <- (test_anchored _ _ s (consumes_seq _ _ _ _ H1 H2)), !test_spec.
  split; intros (n & s' & Hn & Hm); exists n, s'; (split; [done|]); simpl in *; naive_solver.
Qed.
