(* ===== verification/JsNumber.v ===== *)
(** * JavaScript numbers

    IEEE binary64 values as exact rationals, with every arithmetic operation
    followed by rounding to nearest, ties to even ([fround]); [Math.floor],
    [parseInt] and the printing of integers.  The sign of zero is not
    represented: no script of hashmonkey-gui/js can observe it. *)

From Stdlib Require Import QArith Qround.
From S2P Require Import Prelude JsString.
#[local] Open Scope Z_scope.

Inductive num := NaN | Infinity (neg : bool) | Fin (q : Q).

(** Nearest integer of [n / d], ties to even. *)
Definition rne (n d : Z) : Z :=
  let q := n / d in
  let r := n mod d in
  if 2 * r <? d then q
  else if d <? 2 * r then q + 1
  else if Z.even q then q else q + 1.

(** Exponent of the last place of the double nearest to [n / d > 0]. *)
Definition last_place (n d : Z) : Z :=
  let l := Z.log2 n - Z.log2 d in
  let ge := if 0 <=? l then d * 2 ^ l <=? n else d <=? n * 2 ^ (- l) in
  Z.max (-1074) (if ge then l - 52 else l - 53).

(** [mant * 2 ^ e] as a rational *)
Definition dyadic (mant e : Z) : Q :=
  if 0 <=? e then inject_Z (mant * 2 ^ e) else Qmake mant (Z.to_pos (2 ^ (- e))).

Definition scaled (n d e : Z) : Z * Z :=
  if 0 <=? e then (n, d * 2 ^ e) else (n * 2 ^ (- e), d).

Definition max_double : Z := (2 ^ 53 - 1) * 2 ^ 971.

(** Rounding of a non-negative [n / d]; [None] is overflow. *)
Definition fround_pos (n d : Z) : option Q :=
  if n =? 0 then Some (inject_Z 0)
  else
    let e := last_place n d in
    let mant := rne (scaled n d e).1 (scaled n d e).2 in
    let y := dyadic mant e in
    if Qle_bool y (inject_Z max_double) then Some y else None.

Definition fround (q : Q) : num :=
  match fround_pos (Z.abs (Qnum q)) (Zpos (Qden q)) with
  | Some y => Fin (if Qnum q <? 0 then Qopp y else y)
  | None => Infinity (Qnum q <? 0)
  end.

(** ** Operators *)

Definition num_of_Z (z : Z) : num := fround (inject_Z z).

Definition num_neg (x : num) : num :=
  match x with NaN => NaN | Infinity s => Infinity (negb s) | Fin q => Fin (Qopp q) end.

Definition num_add (x y : num) : num :=
  match x, y with
  | NaN, _ | _, NaN => NaN
  | Infinity s, Infinity t => if Bool.eqb s t then Infinity s else NaN
  | Infinity s, Fin _ => Infinity s
  | Fin _, Infinity t => Infinity t
  | Fin a, Fin b => fround (Qplus a b)
  end.

Definition num_sub (x y : num) : num := num_add x (num_neg y).

(** [x / c] for a literal [c <> 0] of the source *)
Definition num_div_lit (x : num) (c : Z) : num :=
  match x with
  | NaN => NaN
  | Infinity s => Infinity (xorb s (c <? 0))
  | Fin a => fround (Qdiv a (inject_Z c))
  end.

Definition num_mul_lit (x : num) (c : Z) : num :=
  match x with
  | NaN => NaN
  | Infinity s => if c =? 0 then NaN else Infinity (xorb s (c <? 0))
  | Fin a => fround (Qmult a (inject_Z c))
  end.

(** [x < y]; false when either is NaN *)
Definition num_lt (x y : num) : bool :=
  match x, y with
  | NaN, _ | _, NaN => false
  | Infinity s, Infinity t => s && negb t
  | Infinity s, Fin _ => s
  | Fin _, Infinity t => negb t
  | Fin a, Fin b => negb (Qle_bool b a)
  end.

Definition num_le (x y : num) : bool :=
  match x, y with
  | NaN, _ | _, NaN => false
  | Fin a, Fin b => Qle_bool a b
  | _, _ => negb (num_lt y x)
  end.

Definition isNaN (x : num) : bool := match x with NaN => true | _ => false end.

Definition math_floor (x : num) : num :=
  match x with Fin q => Fin (inject_Z (Qfloor q)) | _ => x end.

Definition math_max (x y : num) : num :=
  match x, y with
  | NaN, _ | _, NaN => NaN
  | _, _ => if num_lt x y then y else x
  end.

(** ** Decimal text *)

Fixpoint dec_digits_fuel (fuel : nat) (z : Z) : jsstring :=
  match fuel with
  | O => []
  | S f => (if z <? 10 then [] else dec_digits_fuel f (z / 10)) ++ [48 + z mod 10]
  end.

(** The decimal digits of [z >= 0]; each step divides [z] by ten, so the binary
    length of [z] bounds the number of steps. *)
Definition dec_digits (z : Z) : jsstring := dec_digits_fuel (S (Z.to_nat (Z.log2 z))) z.

Definition digits_value (base : Z) (ds : list Z) : Z :=
  fold_left (fun acc d => acc * base + d) ds 0.

(** Value of a digit character in a base up to 16 *)
Definition digit_of (c : Z) : option Z :=
  if is_digit c then Some (c - 48)
  else if between 97 102 c then Some (c - 87)
  else if between 65 70 c then Some (c - 55)
  else None.

Fixpoint take_digits (base : Z) (s : jsstring) : list Z :=
  match s with
  | [] => []
  | c :: s' =>
      match digit_of c with
      | Some d => if d <? base then d :: take_digits base s' else []
      | None => []
      end
  end.

Fixpoint drop_space (s : jsstring) : jsstring :=
  match s with c :: s' => if is_space c then drop_space s' else s | [] => [] end.

(** [parseInt(s)] with no radix *)
Definition parseInt (s : jsstring) : num :=
  let s := drop_space s in
  let '(neg, s) :=
    match s with
    | c :: s' => if c =? 45 then (true, s') else if c =? 43 then (false, s') else (false, s)
    | [] => (false, s)
    end in
  let '(base, s) :=
    match s with
    | 48 :: c :: s' => if (c =? 120) || (c =? 88) then (16, s') else (10, s)
    | _ => (10, s)
    end in
  match take_digits base s with
  | [] => NaN
  | ds => let v := digits_value base ds in num_of_Z (if neg then - v else v)
  end.

(** *** Decimal numerals: the grammar StrDecimalLiteral *)

Definition isFinite (x : num) : bool := match x with Fin _ => true | _ => false end.

(** The digits at the start of a text and what follows them *)
Fixpoint span_digits (s : jsstring) : jsstring * jsstring :=
  match s with
  | c :: s' => if is_digit c then let '(w, t) := span_digits s' in (c :: w, t) else ([], s)
  | [] => ([], [])
  end.

Definition take_sign (s : jsstring) : bool * jsstring :=
  match s with
  | c :: s' => if c =? 45 then (true, s') else if c =? 43 then (false, s') else (false, s)
  | [] => (false, s)
  end.

Definition dec_value (w : jsstring) : Z := digits_value 10 ((fun c => c - 48) <$> w).

(** An exponent part, if there is a complete one *)
Definition take_exponent (s : jsstring) : Z * jsstring :=
  match s with
  | c :: s' =>
      if (c =? 101) || (c =? 69) then
        let '(neg, t) := take_sign s' in
        match span_digits t with
        | ([], _) => (0, s)
        | (w, t') => (if neg then - dec_value w else dec_value w, t')
        end
      else (0, s)
  | [] => (0, s)
  end.

(** [m * 10 ^ e] *)
Definition scale10 (m e : Z) : Q :=
  if e <? 0 then Qmake m (Z.to_pos (10 ^ (- e))) else inject_Z (m * 10 ^ e).

(** The longest prefix that is a decimal numeral, its value and the rest *)
Definition str_decimal (s : jsstring) : option (num * jsstring) :=
  let '(neg, s) := take_sign s in
  match strip_prefix (js "Infinity") s with
  | Some t => Some (Infinity neg, t)
  | None =>
      let '(w, t) := span_digits s in
      let '(f, t) :=
        match t with
        | 46 :: t' => match w, span_digits t' with [], ([], _) => ([], t) | _, r => r end
        | _ => ([], t)
        end in
      match w ++ f with
      | [] => None
      | ds =>
          let '(e, t) := take_exponent t in
          let m := if neg then - dec_value ds else dec_value ds in
          Some (fround (scale10 m (e - Z.of_nat (length f))), t)
      end
  end.

Definition parseFloat (s : jsstring) : num :=
  match str_decimal (drop_space s) with Some (x, _) => x | None => NaN end.

(** A numeral with a base prefix: [0x], [0o] or [0b] *)
Definition str_prefixed (s : jsstring) : option num :=
  match s with
  | z :: c :: s' =>
      let base :=
        if negb (z =? 48) then 0
        else if (c =? 120) || (c =? 88) then 16
        else if (c =? 111) || (c =? 79) then 8
        else if (c =? 98) || (c =? 66) then 2 else 0 in
      let ds := take_digits base s' in
      if negb (base =? 0) && bool_decide (length ds = length s') && negb (bool_decide (s' = []))
      then Some (num_of_Z (digits_value base ds)) else None
  | _ => None
  end.

(** [Number(s)] *)
Definition to_number (s : jsstring) : num :=
  let s := rev (drop_space (rev (drop_space s))) in
  match s with
  | [] => num_of_Z 0
  | _ =>
      match str_prefixed s with
      | Some x => x
      | None => match str_decimal s with Some (x, []) => x | _ => NaN end
      end
  end.

(** Shortest decimal significand of the double [z > 0]: the least [k] for which
    some [k]-digit [c] has [c * 10 ^ (n - k)] rounding to [z], and the closest
    such [c]. Gives (digits of [c], exponent [n]). *)
Definition rounds_to (x z : Z) : bool :=
  match num_of_Z x with Fin q => Qeq_bool q (inject_Z z) | _ => false end.

Fixpoint shortest (fuel k n : nat) (z : Z) : jsstring * nat :=
  match fuel with
  | O => (dec_digits z, n)
  | S f =>
      let p := 10 ^ Z.of_nat (n - k) in
      let lo := z / p in
      let lo_ok := rounds_to (lo * p) z in
      let hi_ok := rounds_to ((lo + 1) * p) z in
      let pick c :=
        if c =? 10 ^ Z.of_nat k then (js "1", S n) else (dec_digits c, n) in
      if lo_ok && hi_ok
      then pick (if (z - lo * p) <=? ((lo + 1) * p - z) then lo else lo + 1)
      else if lo_ok then pick lo
      else if hi_ok then pick (lo + 1)
      else shortest f (S k) n z
  end.

(** [x.toString()] for a number that is an integer, NaN or infinite *)
Definition int_to_string_pos (z : Z) : jsstring :=
  if z =? 0 then js "0"
  else
    let n0 := length (dec_digits z) in
    let '(ds, n) := shortest n0 1 n0 z in
    if (Z.of_nat n <=? 21) then ds ++ replicate (n - length ds) 48
    else
      match ds with
      | [d] => [d] ++ js "e+" ++ dec_digits (Z.of_nat n - 1)
      | d :: ds' => [d] ++ js "." ++ ds' ++ js "e+" ++ dec_digits (Z.of_nat n - 1)
      | [] => []
      end.

Definition num_to_string (x : num) : jsstring :=
  match x with
  | NaN => js "NaN"
  | Infinity false => js "Infinity"
  | Infinity true => js "-Infinity"
  | Fin q =>
      let z := Qfloor q in
      if z <? 0 then js "-" ++ int_to_string_pos (- z) else int_to_string_pos z
  end.

Example toString_1e23 :
  num_to_string (parseInt (js "100000000000000000000000")) = js "1e+23".
Proof. vm_compute. reflexivity. Qed.
Example toString_2p53 :
  num_to_string (parseInt (js "9007199254740993")) = js "9007199254740992".
Proof. vm_compute. reflexivity. Qed.
Example toString_21 :
  num_to_string (parseInt (js "123456789012345678901")) = js "123456789012345680000".
Proof. vm_compute. reflexivity. Qed.
Example toString_neg : num_to_string (parseInt (js "-0012px")) = js "-12".
Proof. vm_compute. reflexivity. Qed.

(** ** Rounding never crosses a representable number *)

Lemma pow_pos_nonneg a : 0 <= a -> 0 < 2 ^ a.
Proof. intros. by apply Z.pow_pos_nonneg. Qed.

(** Comparing [d * 2 ^ a] with [n * 2 ^ b] depends on [a - b] only. *)
Lemma scale_le d n a b a' b' :
  0 <= a -> 0 <= b -> 0 <= a' -> 0 <= b' -> a - b = a' - b' ->
  d * 2 ^ a <= n * 2 ^ b -> d * 2 ^ a' <= n * 2 ^ b'.
Proof.
  intros ? ? ? ? E H.
  apply (Z.mul_le_mono_pos_r _ _ (2 ^ b)); [by apply pow_pos_nonneg|].
  apply (Z.mul_le_mono_nonneg_r _ _ (2 ^ b')) in H; [|apply Z.lt_le_incl; by apply pow_pos_nonneg].
  rewrite <- !Z.mul_assoc, <- !Z.pow_add_r in * by lia.
  replace (a' + b) with (a + b') by lia. by replace (b' + b) with (b + b') by lia.
Qed.

Lemma scale_lt d n a b a' b' :
  0 <= a -> 0 <= b -> 0 <= a' -> 0 <= b' -> a - b = a' - b' ->
  d * 2 ^ a < n * 2 ^ b -> d * 2 ^ a' < n * 2 ^ b'.
Proof.
  intros ? ? ? ? E H. apply Z.lt_nge. intros H'. apply Z.lt_nge in H. apply H.
  apply (scale_le n d b' a' b a); lia.
Qed.

Lemma scaled_pos n d e : 0 < n -> 0 < d -> 0 < (scaled n d e).1 /\ 0 < (scaled n d e).2.
Proof.
  intros. unfold scaled. destruct (Z.leb_spec 0 e); simpl.
  - pose proof (pow_pos_nonneg e). nia.
  - pose proof (pow_pos_nonneg (- e)). nia.
Qed.

(** [n / d] lies in the binade that [last_place] chose, or is subnormal. *)
Lemma last_place_spec n d :
  0 < n -> 0 < d ->
  let e := last_place n d in
  let '(N, D) := scaled n d e in
  -1074 <= e /\ N < 2 ^ 53 * D /\ (e = -1074 \/ 2 ^ 52 * D <= N).
Proof.
  intros Hn Hd e.
  set (l := Z.log2 n - Z.log2 d) in *.
  set (b := if 0 <=? l then d * 2 ^ l <=? n else d <=? n * 2 ^ (- l)).
  set (e0 := if b then l - 52 else l - 53).
  assert (e = Z.max (-1074) e0) as He by done.
  pose proof (Z.log2_spec n Hn) as [Ln Un]. pose proof (Z.log2_spec d Hd) as [Ld Ud].
  pose proof (Z.log2_nonneg n). pose proof (Z.log2_nonneg d).
  assert (forall a c, 0 <= a -> 0 <= c -> a - c = e0 + 52 -> d * 2 ^ a <= n * 2 ^ c) as Hlo.
  { intros a c Ha Hc E. unfold e0, b in E. destruct (Z.leb_spec 0 l) as [Hl|Hl].
    - destruct (Z.leb_spec (d * 2 ^ l) n).
      + apply (scale_le d n l 0); [lia..|]. change (2 ^ 0) with 1. lia.
      + apply (scale_le d n (Z.log2 n) (Z.log2 d + 1)); [lia..|]. nia.
    - destruct (Z.leb_spec d (n * 2 ^ (- l))).
      + apply (scale_le d n 0 (- l)); [lia..|]. change (2 ^ 0) with 1. lia.
      + apply (scale_le d n (Z.log2 n) (Z.log2 d + 1)); [lia..|]. nia. }
  assert (forall a c, 0 <= a -> 0 <= c -> a - c = e0 + 53 -> n * 2 ^ c < d * 2 ^ a) as Hhi.
  { intros a c Ha Hc E. unfold e0, b in E. destruct (Z.leb_spec 0 l) as [Hl|Hl].
    - destruct (Z.leb_spec (d * 2 ^ l) n).
      + apply (scale_lt n d (Z.log2 d) (Z.log2 n + 1)); [lia..|]. nia.
      + apply (scale_lt n d 0 l); [lia..|]. change (2 ^ 0) with 1. lia.
    - destruct (Z.leb_spec d (n * 2 ^ (- l))).
      + apply (scale_lt n d (Z.log2 d) (Z.log2 n + 1)); [lia..|]. nia.
      + apply (scale_lt n d (- l) 0); [lia..|]. change (2 ^ 0) with 1. lia. }
  clearbody e0 b l. clear Ln Un Ld Ud.
  unfold scaled. destruct (Z.leb_spec 0 e) as [He0|He0].
  - split; [lia|]. split.
    + specialize (Hhi (e + 53) (e - e0)).
      rewrite Z.pow_add_r in Hhi by lia.
      pose proof (pow_pos_nonneg (e - e0) ltac:(lia)). nia.
    + right. specialize (Hlo (e + 52) 0). rewrite Z.pow_add_r in Hlo by lia.
      change (2 ^ 0) with 1 in Hlo. nia.
  - split; [lia|]. split.
    + specialize (Hhi 53 (- e0)).
      assert (e0 <= e) by lia.
      assert (n * 2 ^ (- e0) < d * 2 ^ 53) as Hb by (apply Hhi; lia).
      assert (2 ^ (- e) <= 2 ^ (- e0)) by (apply Z.pow_le_mono_r; lia). nia.
    + destruct (decide (e = -1074)) as [->|]; [by left|right].
      specialize (Hlo 52 (- e)). rewrite Z.mul_comm. apply Hlo; lia.
Qed.

Lemma rne_le n d j : 0 < d -> n <= j * d -> rne n d <= j.
Proof.
  intros Hd H. unfold rne.
  pose proof (Z.div_mod n d ltac:(lia)) as E. pose proof (Z.mod_pos_bound n d Hd) as B.
  assert (n / d <= j) as Hq by (apply Z.div_le_upper_bound; lia).
  set (q := n / d) in *. set (r := n mod d) in *. clearbody q r.
  destruct (decide (q = j)) as [Hj|]; [|cases_cmp; [lia|lia|case_match; lia]].
  assert (r = 0) as -> by (subst q; lia). cases_cmp; lia.
Qed.

Lemma rne_ge n d j : 0 < d -> j * d <= n -> j <= rne n d.
Proof.
  intros Hd H. unfold rne.
  assert (j <= n / d) by (apply Z.div_le_lower_bound; lia).
  cases_cmp; [lia|lia|case_match; lia].
Qed.

(** [N / D] is [n / d] over [2 ^ e], in the cross-multiplied form used below. *)
Lemma scaled_le n d e x y f :
  0 < n -> 0 < d -> 0 <= x -> 0 <= f -> -1074 <= e ->
  0 <= y -> x - f = e + y -> forall j, n * 2 ^ y <= j * d ->
  (scaled n d e).1 * 2 ^ x <= j * 2 ^ f * (scaled n d e).2.
Proof.
  intros Hn Hd Hx Hf He Hy E j H. unfold scaled. destruct (Z.leb_spec 0 e); simpl.
  - assert (n * 2 ^ x <= j * d * 2 ^ (f + e)); [|rewrite Z.pow_add_r in *; lia].
    apply (scale_le n (j * d) y 0); [lia..|]. change (2 ^ 0) with 1. lia.
  - rewrite <- Z.mul_assoc, <- Z.pow_add_r by lia.
    replace (j * 2 ^ f * d) with (j * d * 2 ^ f) by lia.
    apply (scale_le n (j * d) y 0); [lia..|]. change (2 ^ 0) with 1. lia.
Qed.

Lemma scaled_ge n d e x y f :
  0 < n -> 0 < d -> 0 <= x -> 0 <= f -> -1074 <= e ->
  0 <= y -> x - f = e + y -> forall j, j * d <= n * 2 ^ y ->
  j * 2 ^ f * (scaled n d e).2 <= (scaled n d e).1 * 2 ^ x.
Proof.
  intros Hn Hd Hx Hf He Hy E j H. unfold scaled. destruct (Z.leb_spec 0 e); simpl.
  - assert (j * d * 2 ^ (f + e) <= n * 2 ^ x); [|rewrite Z.pow_add_r in *; lia].
    apply (scale_le (j * d) n 0 y); [lia..|]. change (2 ^ 0) with 1. lia.
  - rewrite <- (Z.mul_assoc n), <- Z.pow_add_r by lia.
    replace (j * 2 ^ f * d) with (j * d * 2 ^ f) by lia.
    apply (scale_le (j * d) n 0 y); [lia..|]. change (2 ^ 0) with 1. lia.
Qed.

(** The multiples of [2 ^ - s] up to the [2 ^ 53]rd are representable: rounding
    stays on the same side of each of them. *)
Lemma mantissa_le n d s j a b :
  0 < n -> 0 < d -> 0 <= s <= 1074 -> j <= 2 ^ 53 ->
  n * 2 ^ s <= j * d ->
  let e := last_place n d in
  0 <= a -> 0 <= b -> a - b = e + s ->
  rne (scaled n d e).1 (scaled n d e).2 * 2 ^ a <= j * 2 ^ b.
Proof.
  intros Hn Hd Hs Hj H e Ha Hb E.
  pose proof (last_place_spec n d Hn Hd) as Hlp. cbv zeta in Hlp. fold e in Hlp.
  pose proof (scaled_pos n d e Hn Hd) as [HN HD].
  destruct (Z.le_gt_cases (e + s) 0) as [Hf|Hg].
  - pose proof (scaled_le n d e 0 s (- (e + s)) Hn Hd) as Hsc.
    destruct (scaled n d e) as [N D]. simpl in *. destruct Hlp as (He & _ & _).
    specialize (Hsc ltac:(lia) ltac:(lia) He ltac:(lia) ltac:(lia) j H).
    change (2 ^ 0) with 1 in Hsc.
    assert (rne N D <= j * 2 ^ (- (e + s))) as Hr by (apply rne_le; lia).
    apply (scale_le _ _ 0 (- (e + s))); [lia..|]. change (2 ^ 0) with 1. lia.
  - pose proof (scaled_le n d e (e + s) s 0 Hn Hd) as Hsc.
    destruct (scaled n d e) as [N D]. simpl in *. destruct Hlp as (He & _ & Hlo).
    specialize (Hsc ltac:(lia) ltac:(lia) He ltac:(lia) ltac:(lia) j H).
    change (2 ^ 0) with 1 in Hsc. destruct Hlo as [?|Hlo]; [lia|].
    assert (2 ^ 52 * 2 ^ (e + s) <= j) as Hj2.
    { apply (Z.mul_le_mono_pos_r _ _ D); [done|].
      pose proof (pow_pos_nonneg (e + s)). nia. }
    assert (e + s = 1) as Hg1.
    { destruct (decide (2 <= e + s)); [|lia].
      assert (2 ^ 2 <= 2 ^ (e + s)) by (apply Z.pow_le_mono_r; lia).
      change (2 ^ 2) with 4 in *. lia. }
    rewrite Hg1 in *. change (2 ^ 1) with 2 in *.
    assert (j = 2 ^ 53) as -> by lia.
    assert (rne N D <= 2 ^ 52) as Hr by (apply rne_le; lia).
    replace a with (b + 1) by lia. rewrite Z.pow_add_r by lia.
    pose proof (pow_pos_nonneg b Hb). nia.
Qed.

Lemma mantissa_ge n d s j a b :
  0 < n -> 0 < d -> 0 <= s <= 1074 -> j <= 2 ^ 53 ->
  j * d <= n * 2 ^ s ->
  let e := last_place n d in
  0 <= a -> 0 <= b -> a - b = e + s ->
  j * 2 ^ b <= rne (scaled n d e).1 (scaled n d e).2 * 2 ^ a.
Proof.
  intros Hn Hd Hs Hj H e Ha Hb E.
  pose proof (last_place_spec n d Hn Hd) as Hlp. cbv zeta in Hlp. fold e in Hlp.
  pose proof (scaled_pos n d e Hn Hd) as [HN HD].
  destruct (Z.le_gt_cases (e + s) 0) as [Hf|Hg].
  - pose proof (scaled_ge n d e 0 s (- (e + s)) Hn Hd) as Hsc.
    destruct (scaled n d e) as [N D]. simpl in *. destruct Hlp as (He & _ & _).
    specialize (Hsc ltac:(lia) ltac:(lia) He ltac:(lia) ltac:(lia) j H).
    change (2 ^ 0) with 1 in Hsc.
    assert (j * 2 ^ (- (e + s)) <= rne N D) as Hr by (apply rne_ge; lia).
    apply (scale_le _ _ (- (e + s)) 0); [lia..|]. change (2 ^ 0) with 1. lia.
  - destruct (scaled n d e) as [N D]. simpl in *. destruct Hlp as (He & _ & Hlo).
    destruct Hlo as [?|Hlo]; [lia|].
    assert (2 ^ 52 <= rne N D) as Hr by (apply rne_ge; lia).
    replace a with (b + (e + s)) by lia. rewrite Z.pow_add_r by lia.
    assert (2 ^ 1 <= 2 ^ (e + s)) as Hp by (apply Z.pow_le_mono_r; lia).
    change (2 ^ 1) with 2 in Hp. pose proof (pow_pos_nonneg b Hb).
    assert (j <= rne N D * 2 ^ (e + s)) as Hj2 by nia.
    apply (Z.mul_le_mono_nonneg_r _ _ (2 ^ b)) in Hj2; lia.
Qed.

(** [j] units of [2 ^ - s] *)
Definition grid (j s : Z) : Q := Qmake j (Z.to_pos (2 ^ s)).

Lemma dyadic_le_grid mant e j s :
  0 <= s -> Qle (dyadic mant e) (grid j s) <->
  mant * 2 ^ (s + Z.max 0 e) <= j * 2 ^ Z.max 0 (- e).
Proof.
  intros Hs. unfold dyadic, grid, Qle. destruct (Z.leb_spec 0 e); simpl.
  - replace (Z.max 0 e) with e by lia. replace (Z.max 0 (- e)) with 0 by lia.
    rewrite Z2Pos.id by (by apply pow_pos_nonneg). rewrite Z.pow_add_r by lia.
    change (2 ^ 0) with 1. lia.
  - replace (Z.max 0 e) with 0 by lia. replace (Z.max 0 (- e)) with (- e) by lia.
    rewrite !Z2Pos.id by (apply pow_pos_nonneg; lia). by rewrite Z.add_0_r.
Qed.

Lemma grid_le_dyadic mant e j s :
  0 <= s -> Qle (grid j s) (dyadic mant e) <->
  j * 2 ^ Z.max 0 (- e) <= mant * 2 ^ (s + Z.max 0 e).
Proof.
  intros Hs. unfold dyadic, grid, Qle. destruct (Z.leb_spec 0 e); simpl.
  - replace (Z.max 0 e) with e by lia. replace (Z.max 0 (- e)) with 0 by lia.
    rewrite Z2Pos.id by (by apply pow_pos_nonneg). rewrite Z.pow_add_r by lia.
    change (2 ^ 0) with 1. lia.
  - replace (Z.max 0 e) with 0 by lia. replace (Z.max 0 (- e)) with (- e) by lia.
    rewrite !Z2Pos.id by (apply pow_pos_nonneg; lia). by rewrite Z.add_0_r.
Qed.

Lemma grid_nonneg j s : 0 <= j -> Qle (inject_Z 0) (grid j s).
Proof. intros. unfold grid, Qle. simpl. lia. Qed.

Lemma grid_le j1 j2 s : 0 <= s -> Qle (grid j1 s) (grid j2 s) <-> j1 <= j2.
Proof.
  intros. unfold grid, Qle. simpl. pose proof (pow_pos_nonneg s).
  rewrite Z2Pos.id by auto. nia.
Qed.

Lemma grid_small j s :
  0 <= s -> j <= 2 ^ 53 -> Qle (grid j s) (inject_Z max_double).
Proof.
  intros. unfold grid, Qle. simpl Qnum; simpl Qden.
  pose proof (pow_pos_nonneg s). rewrite Z2Pos.id by auto.
  assert (2 ^ 53 <= max_double) by (vm_compute; discriminate). nia.
Qed.

(** Rounding a non-negative rational within two grid points. *)
Lemma fround_pos_between n d s lo hi :
  0 <= n -> 0 < d -> 0 <= s <= 1074 -> hi <= 2 ^ 53 ->
  lo * d <= n * 2 ^ s -> n * 2 ^ s <= hi * d ->
  exists y, fround_pos n d = Some y /\ Qle (grid lo s) y /\ Qle y (grid hi s).
Proof.
  intros Hn Hd Hs Hhi Hl Hu. unfold fround_pos.
  pose proof (pow_pos_nonneg s) as Hp.
  destruct (Z.eqb_spec n 0) as [->|Hn0].
  { exists (inject_Z 0). split; [done|].
    split; unfold Qle, grid; simpl; [assert (lo <= 0) by nia|assert (0 <= hi) by nia]; lia. }
  set (e := last_place n d). set (mant := rne _ _).
  assert (Qle (dyadic mant e) (grid hi s)) as H1.
  { apply dyadic_le_grid; [lia|]. apply (mantissa_le n d s hi); fold e; lia. }
  rewrite (proj2 (Qle_bool_iff _ _)).
  - eexists. split; [done|]. split; [|done].
    apply grid_le_dyadic; [lia|]. apply (mantissa_ge n d s lo); fold e; try lia.
    destruct (decide (lo <= 2 ^ 53)); [done|]. exfalso.
    assert (lo * d <= hi * d) as H2 by lia. nia.
  - eapply Qle_trans; [exact H1|]. apply grid_small; lia.
Qed.

Lemma grid_opp j s : Qeq (Qopp (grid j s)) (grid (- j) s).
Proof. done. Qed.

Lemma fround_between q s lo hi :
  0 <= s <= 1074 -> - 2 ^ 53 <= lo -> hi <= 2 ^ 53 ->
  Qle (grid lo s) q -> Qle q (grid hi s) ->
  exists y, fround q = Fin y /\ Qle (grid lo s) y /\ Qle y (grid hi s).
Proof.
  intros Hs Hlo Hhi Hl Hu. unfold fround. destruct q as [n d].
  unfold Qle, grid in Hl, Hu. simpl in *.
  rewrite Z2Pos.id in Hl, Hu by (apply pow_pos_nonneg; lia).
  destruct (Z.ltb_spec n 0).
  - destruct (fround_pos_between (Z.abs n) (Zpos d) s (- hi) (- lo)) as (y & -> & H1 & H2); [lia..|].
    exists (Qopp y). split; [done|].
    split; [rewrite <- (Z.opp_involutive lo)|rewrite <- (Z.opp_involutive hi)];
      rewrite <- grid_opp; by apply Qopp_le_compat.
  - destruct (fround_pos_between (Z.abs n) (Zpos d) s lo hi) as (y & -> & H1 & H2); [lia..|].
    eauto.
Qed.

(** ** Floors are exact

    [unit_of k s y]: [y] is at least [k] and at most [k + 1 - 2 ^ - s]. *)
Definition unit_of (k s : Z) (y : Q) : Prop :=
  Qle (grid (k * 2 ^ s) s) y /\ Qle y (grid ((k + 1) * 2 ^ s - 1) s).

Lemma grid_int k s : 0 <= s -> Qeq (grid (k * 2 ^ s) s) (inject_Z k).
Proof.
  intros. unfold grid, Qeq. simpl. rewrite Z2Pos.id by (by apply pow_pos_nonneg). lia.
Qed.

Lemma unit_of_floor k s y : 0 <= s -> unit_of k s y -> Qfloor y = k.
Proof.
  intros Hs [H1 H2]. rewrite grid_int in H1 by done.
  apply Qfloor_resp_le in H1. rewrite Qfloor_Z in H1.
  apply Qfloor_resp_le in H2.
  assert (Qfloor (grid ((k + 1) * 2 ^ s - 1) s) <= k) as H3; [|lia].
  unfold grid, Qfloor. pose proof (pow_pos_nonneg s Hs). rewrite Z2Pos.id by done.
  apply Z.lt_succ_r. apply Z.div_lt_upper_bound; lia.
Qed.

Lemma unit_of_fround k s q :
  0 <= s <= 1074 -> - 2 ^ 53 <= k * 2 ^ s -> (k + 1) * 2 ^ s <= 2 ^ 53 ->
  unit_of k s q -> exists y, fround q = Fin y /\ unit_of k s y.
Proof. intros Hs Hlo Hhi [H1 H2]. apply fround_between; auto with lia. Qed.

Lemma unit_of_weaken k s s' q : 0 <= s <= s' -> unit_of k s q -> unit_of k s' q.
Proof.
  intros Hs [H1 H2]. split.
  - rewrite grid_int in * by lia. done.
  - eapply Qle_trans; [exact H2|]. unfold Qle, grid. simpl.
    rewrite !Z2Pos.id by (apply pow_pos_nonneg; lia).
    assert (2 ^ s <= 2 ^ s') by (apply Z.pow_le_mono_r; lia). nia.
Qed.

(** An integer is in its own unit, at any precision. *)
Lemma unit_of_Z k s : 0 <= s -> unit_of k s (inject_Z k).
Proof.
  intros Hs. split; [rewrite grid_int by done; apply Qle_refl|].
  rewrite <- (grid_int k s) by done. apply grid_le; [done|].
  pose proof (pow_pos_nonneg s Hs). lia.
Qed.

(** A quotient of integers is in the unit of its floor. *)
Lemma unit_of_div z c s :
  0 < c <= 2 ^ s -> 0 <= s -> unit_of (z / c) s (Qdiv (inject_Z z) (inject_Z c)).
Proof.
  intros Hc Hs. pose proof (pow_pos_nonneg s Hs) as Hp.
  pose proof (Z.div_mod z c ltac:(lia)) as E. pose proof (Z.mod_pos_bound z c ltac:(lia)) as B.
  set (k := z / c) in *. set (r := z mod c) in *.
  assert (Qeq (Qdiv (inject_Z z) (inject_Z c)) (Qmake z (Z.to_pos c))) as Hq.
  { unfold Qdiv, Qinv, Qmult, Qeq. destruct c; simpl; lia. }
  unfold unit_of. rewrite Hq. unfold grid, Qle. simpl.
  rewrite !Z2Pos.id by lia. split; nia.
Qed.

Lemma grid_shift a j s :
  0 <= s -> Qeq (Qplus (inject_Z a) (grid j s)) (grid (a * 2 ^ s + j) s).
Proof.
  intros Hs. rewrite <- (grid_int a s) by done.
  unfold grid, Qplus, Qeq. simpl Qnum; simpl Qden.
  rewrite Pos2Z.inj_mul, !Z2Pos.id by (by apply pow_pos_nonneg). lia.
Qed.

(** Adding an integer shifts the unit. *)
Lemma unit_of_add a k s y :
  0 <= s -> unit_of k s y -> unit_of (a + k) s (Qplus (inject_Z a) y).
Proof.
  intros Hs [H1 H2]. rewrite grid_int in H1 by done. split.
  - rewrite grid_int, inject_Z_plus by done. apply Qplus_le_compat; [apply Qle_refl|exact H1].
  - eapply Qle_trans; [apply Qplus_le_compat; [apply Qle_refl|exact H2]|].
    rewrite grid_shift by done. apply grid_le; [done|]. lia.
Qed.

(** Integers up to [2 ^ 53] are exact. *)
Lemma num_of_Z_exact z :
  - 2 ^ 53 <= z <= 2 ^ 53 -> exists q, num_of_Z z = Fin q /\ Qeq q (inject_Z z).
Proof.
  intros Hz. destruct (fround_between (inject_Z z) 0 z z) as (y & Hy & H1 & H2); try lia.
  { apply Qle_refl. } { apply Qle_refl. }
  exists y. split; [done|]. apply Qle_antisym; done.
Qed.

(** [Math.floor(z / c)] computed in doubles is the integer quotient. *)
Lemma floor_div_exact z c s q :
  Qeq q (inject_Z z) -> 0 <= s <= 1074 -> 0 < c <= 2 ^ s ->
  - 2 ^ 53 <= z / c * 2 ^ s -> (z / c + 1) * 2 ^ s <= 2 ^ 53 ->
  math_floor (num_div_lit (Fin q) c) = Fin (inject_Z (z / c)).
Proof.
  intros Hq Hs Hc Hlo Hhi. simpl.
  destruct (unit_of_fround (z / c) s (Qdiv q (inject_Z c))) as (y & Hy & Hu); [done..| |].
  { unfold unit_of. rewrite Hq. apply unit_of_div; lia. }
  rewrite Hy. simpl. do 2 f_equal. apply (unit_of_floor _ s); [lia|done].
Qed.

(** ** Decimal text of integers *)

Definition all_digits (w : jsstring) : Prop := Forall (fun c => is_digit c = true) w.


(** Digits without a superfluous leading zero *)
Definition canonical_dec (w : jsstring) : Prop :=
  all_digits w /\ w <> [] /\ (w = [48] \/ head w <> Some 48).

#[global] Instance canonical_dec_dec w : Decision (canonical_dec w).
Proof. unfold canonical_dec, all_digits. apply _. Defined.

Lemma is_digit_range c : is_digit c = true <-> 48 <= c <= 57.
Proof. unfold is_digit, between. rewrite andb_true_iff, !Z.leb_le. done. Qed.

Lemma digits_value_app b ds d : digits_value b (ds ++ [d]) = digits_value b ds * b + d.
Proof. unfold digits_value. by rewrite fold_left_app. Qed.

Lemma dec_value_app w c : dec_value (w ++ [c]) = dec_value w * 10 + (c - 48).
Proof. unfold dec_value. rewrite fmap_app. apply digits_value_app. Qed.

Lemma dec_value_concat w f : dec_value (w ++ f) = dec_value w * 10 ^ Z.of_nat (length f) + dec_value f.
Proof.
  induction f as [|c f IH] using rev_ind.
  - rewrite app_nil_r. simpl. rewrite Z.mul_1_r. by rewrite Z.add_0_r.
  - rewrite app_assoc, !dec_value_app, IH, length_app, Nat2Z.inj_add, Z.pow_add_r by lia. simpl. lia.
Qed.

Lemma dec_value_nonneg w : all_digits w -> 0 <= dec_value w.
Proof.
  induction w as [|c w IH] using rev_ind; intros H; [done|].
  apply Forall_app in H as [H1 H2]. apply Forall_singleton, is_digit_range in H2.
  rewrite dec_value_app. specialize (IH H1). lia.
Qed.

Lemma dec_digits_fuel_spec f z :
  0 <= z < 2 ^ Z.of_nat f -> (0 < f)%nat ->
  canonical_dec (dec_digits_fuel f z) /\ dec_value (dec_digits_fuel f z) = z.
Proof.
  revert z. induction f as [|f IH]; intros z Hz Hf; [lia|]. simpl.
  pose proof (Z.mod_pos_bound z 10 ltac:(lia)) as Hm.
  pose proof (Z.div_mod z 10 ltac:(lia)) as E.
  assert (is_digit (48 + z mod 10) = true) as Hd by (apply is_digit_range; lia).
  destruct (Z.ltb_spec z 10) as [Hlt|Hge].
  - rewrite Z.mod_small in * by lia. simpl. split.
    + unfold canonical_dec. split_and!; [by constructor|done|].
      destruct (decide (z = 0)) as [->|]; [by left|right]. simpl. injection. lia.
    + unfold dec_value, digits_value. simpl. lia.
  - destruct (IH (z / 10)) as [(Hd' & Hn & Hh) Hv].
    { rewrite Nat2Z.inj_succ, Z.pow_succ_r in Hz by lia.
      split; [apply Z.div_pos; lia|]. apply Z.div_lt_upper_bound; lia. }
    { destruct f; [|lia]. simpl in Hz. lia. }
    split; [|rewrite dec_value_app, Hv; lia].
    unfold canonical_dec. split_and!.
    + apply Forall_app. split; [done|]. by apply Forall_singleton.
    + intros ?%(f_equal length). rewrite length_app in *. simpl in *. lia.
    + right. destruct (dec_digits_fuel f (z / 10)) as [|c w] eqn:Ew; [done|]. simpl.
      destruct Hh as [[= -> ->]|Hh]; [|exact Hh]. unfold dec_value in Hv.
      simpl in Hv. unfold digits_value in Hv. simpl in Hv. lia.
Qed.

Lemma dec_digits_spec z :
  0 <= z -> canonical_dec (dec_digits z) /\ dec_value (dec_digits z) = z.
Proof.
  intros Hz. apply dec_digits_fuel_spec; [|lia]. split; [done|].
  rewrite Nat2Z.inj_succ, Z2Nat.id by apply Z.log2_nonneg.
  destruct (decide (z = 0)) as [->|]; [done|]. apply Z.log2_spec. lia.
Qed.

Lemma canonical_init w c : w <> [] -> canonical_dec (w ++ [c]) -> canonical_dec w /\ dec_value w <> 0.
Proof.
  intros Hw (Ha & _ & Hh). apply Forall_app in Ha as [Ha _].
  destruct w as [|d w]; [done|]. simpl in Hh.
  assert (d <> 48) as Hd.
  { destruct Hh as [Hh|Hh]; [|congruence]. injection Hh as -> Hh. by destruct w. }
  split.
  - split_and!; [done|done|]. right. simpl. congruence.
  - clear Hh Hw. induction w as [|c' w IH] using rev_ind.
    + apply Forall_singleton, is_digit_range in Ha.
      unfold dec_value, digits_value. simpl. lia.
    + change (d :: w ++ [c']) with ((d :: w) ++ [c']) in *. rewrite dec_value_app.
      apply Forall_app in Ha as [Ha Hc]. apply Forall_singleton, is_digit_range in Hc.
      specialize (IH Ha). pose proof (dec_value_nonneg _ Ha). lia.
Qed.

(** A number has one canonical numeral. *)
Lemma canonical_dec_inj w w' :
  canonical_dec w -> canonical_dec w' -> dec_value w = dec_value w' -> w = w'.
Proof.
  revert w'. induction w as [|c w IH] using rev_ind; intros w' Hw Hw' E.
  { by destruct Hw as (_ & ? & _). }
  destruct w' as [|c' w' _] using rev_ind; [by destruct Hw' as (_ & ? & _)|].
  rewrite !dec_value_app in E.
  pose proof Hw as (Ha & _ & _). pose proof Hw' as (Ha' & _ & _).
  apply Forall_app in Ha as [Ha Hc]. apply Forall_app in Ha' as [Ha' Hc'].
  apply Forall_singleton, is_digit_range in Hc. apply Forall_singleton, is_digit_range in Hc'.
  assert (dec_value w = dec_value w' /\ c = c') as [Ev ->] by lia.
  f_equal. destruct (decide (w = [])) as [->|Hn], (decide (w' = [])) as [->|Hn']; [done| | |].
  - apply canonical_init in Hw' as [_ H]; [|done]. unfold dec_value at 1 in Ev. simpl in Ev.
    unfold digits_value in Ev. simpl in Ev. lia.
  - apply canonical_init in Hw as [_ H]; [|done]. unfold dec_value at 2 in Ev. simpl in Ev.
    unfold digits_value in Ev. simpl in Ev. lia.
  - apply IH; [by eapply canonical_init|by eapply canonical_init|done].
Qed.

Lemma dec_digits_unique w : canonical_dec w -> dec_digits (dec_value w) = w.
Proof.
  intros Hw. pose proof Hw as (Ha & _).
  destruct (dec_digits_spec (dec_value w)) as [H1 H2]; [by apply dec_value_nonneg|].
  by apply canonical_dec_inj.
Qed.

Lemma fround_pos_ge n d s lo y :
  0 <= n -> 0 < d -> 0 <= s <= 1074 -> lo <= 2 ^ 53 ->
  lo * d <= n * 2 ^ s -> fround_pos n d = Some y -> Qle (grid lo s) y.
Proof.
  intros Hn Hd Hs Hlo Hl. unfold fround_pos. pose proof (pow_pos_nonneg s).
  destruct (Z.eqb_spec n 0) as [->|Hn0].
  { intros [= <-]. unfold Qle, grid. simpl. nia. }
  case_match; [|done]. intros [= <-].
  apply grid_le_dyadic; [lia|]. apply (mantissa_ge n d s lo); lia.
Qed.

(** Below [2 ^ 53], rounding to [z] means being [z]. *)
Lemma rounds_to_exact x z :
  0 <= x -> 0 <= z < 2 ^ 53 -> rounds_to x z = true <-> x = z.
Proof.
  intros Hx Hz. unfold rounds_to. split.
  - destruct (Z.le_gt_cases x (2 ^ 53)).
    + destruct (num_of_Z_exact x) as (q & -> & Hq); [lia|].
      intros Hb%Qeq_bool_iff. rewrite Hq in Hb. unfold Qeq in Hb. simpl in Hb. lia.
    + unfold num_of_Z, fround. simpl. destruct (Z.ltb_spec x 0); [lia|].
      destruct (fround_pos (Z.abs x) 1) as [y|] eqn:Ey; [|done].
      apply (fround_pos_ge _ _ 0 (2 ^ 53)) in Ey; [|lia..].
      intros Hb%Qeq_bool_iff. rewrite Hb in Ey. unfold Qle, grid in Ey. simpl in Ey. lia.
  - intros ->. destruct (num_of_Z_exact z) as (q & -> & Hq); [lia|].
    by apply Qeq_bool_iff.
Qed.

Lemma dec_value_zeros w k : dec_value (w ++ replicate k 48) = dec_value w * 10 ^ Z.of_nat k.
Proof.
  induction k as [|k IH]; [simpl; rewrite app_nil_r; lia|].
  rewrite replicate_S_end, app_assoc, dec_value_app, IH, Nat2Z.inj_succ, Z.pow_succ_r by lia.
  lia.
Qed.

Lemma canonical_zeros w k :
  canonical_dec w -> dec_value w <> 0 -> canonical_dec (w ++ replicate k 48).
Proof.
  intros (Ha & Hn & Hh) Hv. split_and!.
  - apply Forall_app. split; [done|]. apply Forall_replicate. done.
  - intros ?%app_eq_nil. naive_solver.
  - right. destruct Hh as [->|Hh]; [by destruct Hv|]. by destruct w.
Qed.

(** The numeral of [z] followed by zeros is the numeral of the product. *)
Lemma dec_digits_shift c k :
  0 < c -> dec_digits (c * 10 ^ Z.of_nat k) = dec_digits c ++ replicate k 48.
Proof.
  intros Hc. destruct (dec_digits_spec c) as [H1 H2]; [lia|].
  rewrite <- H2 at 1. rewrite <- dec_value_zeros.
  apply dec_digits_unique, canonical_zeros; [done|]. lia.
Qed.

Lemma dec_value_lt w : all_digits w -> dec_value w < 10 ^ Z.of_nat (length w).
Proof.
  induction w as [|c w IH] using rev_ind; intros H; [done|].
  apply Forall_app in H as [H1 H2]. apply Forall_singleton, is_digit_range in H2.
  rewrite dec_value_app, length_app. simpl length.
  rewrite Nat2Z.inj_add, Z.pow_add_r by lia. specialize (IH H1). change (10 ^ Z.of_nat 1) with 10. lia.
Qed.

Lemma shortest_exact fuel k n z :
  0 < z < 2 ^ 53 -> n = length (dec_digits z) -> (1 <= k)%nat -> (k + fuel = n + 1)%nat ->
  exists ds, shortest fuel k n z = (ds, n) /\ ds ++ replicate (n - length ds) 48 = dec_digits z.
Proof.
  intros Hz Hn. revert k. induction fuel as [|fuel IH]; intros k Hk Hf.
  { exists (dec_digits z). subst n. simpl. rewrite Nat.sub_diag, app_nil_r. done. }
  cbn [shortest]. set (p := 10 ^ Z.of_nat (n - k)). set (lo := z / p).
  assert (0 < p) as Hp by (apply Z.pow_pos_nonneg; lia).
  pose proof (Z.div_mod z p ltac:(lia)) as E. pose proof (Z.mod_pos_bound z p Hp) as B.
  fold lo in E. assert (0 <= lo) as Hlo by (apply Z.div_pos; lia).
  assert (rounds_to ((lo + 1) * p) z = false) as Hhi.
  { apply not_true_is_false. rewrite rounds_to_exact by nia. nia. }
  rewrite Hhi, andb_false_r.
  destruct (rounds_to (lo * p) z) eqn:Hr.
  - apply rounds_to_exact in Hr; [|nia|lia].
    destruct (dec_digits_spec z) as [[Ha _] Hv]; [lia|]. pose proof (dec_value_lt _ Ha) as Hlt.
    rewrite Hv, <- Hn in Hlt.
    assert (lo <> 10 ^ Z.of_nat k) as Hne.
    { intros Hlk. rewrite Hlk in Hr. unfold p in Hr. rewrite <- Z.pow_add_r in Hr by lia.
      replace (Z.of_nat k + Z.of_nat (n - k)) with (Z.of_nat n) in Hr by lia. lia. }
    apply Z.eqb_neq in Hne. rewrite Hne. eexists. split; [done|].
    assert (dec_digits z = dec_digits lo ++ replicate (n - k) 48) as Ez.
    { rewrite <- Hr. apply dec_digits_shift. nia. }
    rewrite Ez. f_equal. f_equal. apply (f_equal length) in Ez.
    rewrite length_app, length_replicate in Ez. lia.
  - apply IH; [lia|lia].
Qed.

Lemma dec_value_ge w :
  canonical_dec w -> dec_value w <> 0 -> 10 ^ (Z.of_nat (length w) - 1) <= dec_value w.
Proof.
  induction w as [|c w IH] using rev_ind; intros Hw Hv; [done|].
  pose proof Hw as (Ha & _ & _). apply Forall_app in Ha as [Ha Hc].
  apply Forall_singleton, is_digit_range in Hc.
  rewrite dec_value_app in *. rewrite length_app. simpl length.
  replace (Z.of_nat (length w + 1) - 1) with (Z.of_nat (length w)) by lia.
  destruct (decide (w = [])) as [->|Hn].
  { unfold dec_value, digits_value in *. simpl in *. lia. }
  destruct (canonical_init w c Hn Hw) as [Hw' Hv']. specialize (IH Hw' Hv').
  assert (0 < length w)%nat by (destruct w; simpl; [done|lia]).
  replace (Z.of_nat (length w)) with (1 + (Z.of_nat (length w) - 1)) by lia.
  rewrite Z.pow_add_r by lia. change (10 ^ 1) with 10. lia.
Qed.

(** An integer below [2 ^ 53] prints as its numeral. *)
Lemma int_to_string_exact z : 0 <= z < 2 ^ 53 -> int_to_string_pos z = dec_digits z.
Proof.
  intros Hz. unfold int_to_string_pos. destruct (Z.eqb_spec z 0) as [->|Hz0]; [done|].
  destruct (dec_digits_spec z) as [Hc Hv]; [lia|]. pose proof Hc as (_ & Hne & _).
  assert (0 < length (dec_digits z))%nat by (destruct (dec_digits z); simpl; [done|lia]).
  destruct (shortest_exact (length (dec_digits z)) 1 _ z ltac:(lia) eq_refl) as (ds & -> & Hds);
    [lia..|].
  destruct (Z.leb_spec (Z.of_nat (length (dec_digits z))) 21); [done|]. exfalso.
  apply dec_value_ge in Hc; [|lia]. rewrite Hv in Hc.
  assert (10 ^ 21 <= 10 ^ (Z.of_nat (length (dec_digits z)) - 1)) by (apply Z.pow_le_mono_r; lia).
  lia.
Qed.

Lemma take_digits_all w : all_digits w -> take_digits 10 w = (fun c => c - 48) <$> w.
Proof.
  induction 1 as [|c w Hc _ IH]; [done|]. simpl. unfold digit_of. rewrite Hc.
  apply is_digit_range in Hc. destruct (Z.ltb_spec (c - 48) 10); [|lia]. by rewrite IH.
Qed.

Lemma is_space_digit c : is_digit c = true -> is_space c = false.
Proof.
  intros Hc%is_digit_range. unfold is_space, between.
  repeat (apply orb_false_iff; split); cases_cmp; simpl; try lia; done.
Qed.

(** [parseInt] of a digit string is its value. *)
Lemma parseInt_digits w :
  all_digits w -> w <> [] -> parseInt w = num_of_Z (dec_value w).
Proof.
  intros Ha Hn. destruct w as [|c w]; [done|]. pose proof (Forall_inv Ha) as Hc. simpl in Hc.
  unfold parseInt. cbn [drop_space]. rewrite is_space_digit by done.
  apply is_digit_range in Hc as Hr.
  destruct (Z.eqb_spec c 45); [lia|]. destruct (Z.eqb_spec c 43); [lia|].
  assert (match c :: w with
          | 48 :: d :: s' => if (d =? 120) || (d =? 88) then (16, s') else (10, c :: w)
          | _ => (10, c :: w) end = (10, c :: w)) as ->.
  { destruct (decide (c = 48)) as [->|Hc48].
    - destruct w as [|d w]; [done|]. apply Forall_inv_tail, Forall_inv, is_digit_range in Ha.
      destruct (Z.eqb_spec d 120); [lia|]. by destruct (Z.eqb_spec d 88); [lia|].
    - do 7 (destruct c as [|c|c]; try done; try (destruct c; try done)). }
  rewrite take_digits_all by done. done.
Qed.

(** Printing what [parseInt] reads gives the canonical numeral back. *)
Lemma parseInt_print w :
  all_digits w -> w <> [] -> dec_value w < 2 ^ 53 ->
  num_to_string (parseInt w) = dec_digits (dec_value w).
Proof.
  intros Ha Hn Hv. pose proof (dec_value_nonneg _ Ha).
  rewrite parseInt_digits by done.
  destruct (num_of_Z_exact (dec_value w)) as (q & -> & Hq); [lia|]. simpl.
  assert (Qfloor q = dec_value w) as -> by (rewrite Hq; apply Qfloor_Z).
  destruct (Z.ltb_spec (dec_value w) 0); [lia|].
  apply int_to_string_exact. lia.
Qed.

(** ** Integer-valued numbers

    [num_is x z]: the number [x] is the integer [z]. *)
Definition num_is (x : num) (z : Z) : Prop := exists q, x = Fin q /\ Qeq q (inject_Z z).

Definition safe (z : Z) : Prop := - 2 ^ 53 <= z <= 2 ^ 53.

Lemma num_is_of_Z z : safe z -> num_is (num_of_Z z) z.
Proof. apply num_of_Z_exact. Qed.

Lemma num_is_fround q z : safe z -> Qeq q (inject_Z z) -> num_is (fround q) z.
Proof.
  intros Hz Hq. destruct (fround_between q 0 z z) as (y & Hy & H1 & H2); unfold safe in *; try lia.
  - rewrite Hq. unfold Qle, grid. simpl. lia.
  - rewrite Hq. unfold Qle, grid. simpl. lia.
  - exists y. split; [done|]. unfold Qle, Qeq, grid in *. simpl in *. lia.
Qed.

Lemma num_is_add x y a b : num_is x a -> num_is y b -> safe (a + b) -> num_is (num_add x y) (a + b).
Proof.
  intros (p & -> & Hp) (q & -> & Hq) Hs. simpl. apply num_is_fround; [done|].
  by rewrite Hp, Hq, inject_Z_plus.
Qed.

Lemma num_is_sub x y a b : num_is x a -> num_is y b -> safe (a - b) -> num_is (num_sub x y) (a - b).
Proof.
  intros Hx (q & -> & Hq) Hs. unfold num_sub. apply num_is_add; [done| |done].
  simpl. exists (Qopp q). split; [done|]. rewrite Hq. done.
Qed.

Lemma num_is_lt x y a b : num_is x a -> num_is y b -> num_lt x y = (a <? b).
Proof.
  intros (p & -> & Hp) (q & -> & Hq). simpl. apply eq_true_iff_eq.
  rewrite negb_true_iff, Z.ltb_lt, <- not_true_iff_false, Qle_bool_iff, Hp, Hq.
  unfold Qle. simpl. lia.
Qed.

Lemma num_is_floor x z : num_is x z -> num_is (math_floor x) z.
Proof.
  intros (q & -> & Hq). simpl. exists (inject_Z (Qfloor q)). split; [done|].
  rewrite Hq, Qfloor_Z. done.
Qed.

(** [x / c] in the unit of its floor: enough for a later [Math.floor]. *)
Lemma num_is_div_unit x z c s :
  num_is x z -> 0 <= s <= 1074 -> 0 < c <= 2 ^ s ->
  - 2 ^ 53 <= z / c * 2 ^ s -> (z / c + 1) * 2 ^ s <= 2 ^ 53 ->
  exists y, num_div_lit x c = Fin y /\ unit_of (z / c) s y.
Proof.
  intros (q & -> & Hq) Hs Hc Hlo Hhi. simpl.
  apply (unit_of_fround (z / c) s (Qdiv q (inject_Z c))); [done..|].
  unfold unit_of. rewrite Hq. apply unit_of_div; lia.
Qed.

Lemma num_is_floor_div x z c s :
  num_is x z -> 0 <= s <= 1074 -> 0 < c <= 2 ^ s ->
  - 2 ^ 53 <= z / c * 2 ^ s -> (z / c + 1) * 2 ^ s <= 2 ^ 53 ->
  num_is (math_floor (num_div_lit x c)) (z / c).
Proof.
  intros Hx Hs Hc Hlo Hhi.
  destruct (num_is_div_unit x z c s) as (y & -> & Hu); [done..|]. simpl.
  exists (inject_Z (Qfloor y)). split; [done|]. by rewrite (unit_of_floor (z / c) s y) by (done || lia).
Qed.

(** [Math.floor(a + x / c)]: two roundings and still the integer result. *)
Lemma num_is_floor_add_div w a x z c s :
  num_is w a -> num_is x z -> 0 <= s <= 1074 -> 0 < c <= 2 ^ s ->
  - 2 ^ 53 <= z / c * 2 ^ s -> (z / c + 1) * 2 ^ s <= 2 ^ 53 ->
  - 2 ^ 53 <= (a + z / c) * 2 ^ s -> (a + z / c + 1) * 2 ^ s <= 2 ^ 53 ->
  num_is (math_floor (num_add w (num_div_lit x c))) (a + z / c).
Proof.
  intros (p & -> & Hp) Hx Hs Hc H1 H2 H3 H4.
  destruct (num_is_div_unit x z c s) as (y & -> & Hu); [done..|]. simpl.
  destruct (unit_of_fround (a + z / c) s (Qplus p y)) as (v & -> & Hv); [done..| |].
  { unfold unit_of. rewrite Hp. apply unit_of_add; [lia|done]. }
  simpl. exists (inject_Z (Qfloor v)). split; [done|].
  by rewrite (unit_of_floor (a + z / c) s v) by (done || lia).
Qed.

Lemma num_is_div_exact x z c k :
  num_is x z -> c <> 0 -> z = k * c -> safe k -> num_is (num_div_lit x c) k.
Proof.
  intros (q & -> & Hq) Hc -> Hk. simpl. apply num_is_fround; [done|].
  rewrite Hq, inject_Z_mult. field. intros H. apply Hc.
  unfold Qeq in H. simpl in H. lia.
Qed.

Lemma num_is_mul_lit x z c : num_is x z -> safe (z * c) -> num_is (num_mul_lit x c) (z * c).
Proof.
  intros (q & -> & Hq) Hs. simpl. apply num_is_fround; [done|]. by rewrite Hq, inject_Z_mult.
Qed.
