(* ===== verification/TxUtils.v ===== *)
(** * Transaction helpers of the wallet GUI: hashmonkey-gui/js/TxUtils.js

    Address display, syntactic checks of ids, proofs and OpenAlias names, and the
    handling of an OpenAlias resolution.  [walletManager], [qsTr] and the
    persistent settings belong to the QML application and are parameters. *)

From S2P Require Import Prelude JsString JsRegex JsNumber.

Definition destinationsToAmount (destinations : jsstring) : jsstring :=
  match split 32 destinations with
  | w :: _ => match split 58 w with a :: _ => a | [] => [] end
  | [] => []
  end.

Definition destinationsToAddress (destinations : jsstring) : jsstring :=
  match split 32 destinations !! 1%nat with
  | Some address => address
  | None => []
  end.

Definition addressTruncate (address : option jsstring) (range : option Z) : jsstring :=
  match address with
  | None => []
  | Some address =>
      let range := default 8 range in
      substring address 0 range ++ js "..." ++
      substring_from address (str_length address - range)
  end.

(** The pattern /.{1,4}/ *)
Definition four_chars : regex := RQuant true 1 (Some 4%nat) RDot.

(** [s.match(/.{1,4}/g).join(' ')]; [match] gives null when nothing matches. *)
Definition match_join (s : jsstring) : result js_error jsstring :=
  match match_g four_chars s with
  | Some ws => Ret (join (js " ") ws)
  | None => Throw TypeError
  end.

Definition addressTruncatePretty (address : option jsstring) (blocks : option Z)
    : result js_error jsstring :=
  match address with
  | None => Ret []
  | Some address =>
      let blocks := default 2 blocks in
      let blocks := if blocks <=? 1 then 1 else if 23 <=? blocks then 23 else blocks in
      a ← match_join (substring address 0 (4 * blocks));
      b ← match_join (substring_from address (str_length address - 4 * blocks));
      Ret (a ++ js " .. " ++ b)
  end.

Fixpoint check256_loop (str : jsstring) : bool :=
  match str with
  | [] => true
  | c :: str' =>
      if (chr "0" <=? c) && (c <=? chr "9") then check256_loop str'
      else if (chr "a" <=? c) && (c <=? chr "z") then check256_loop str'
      else if (chr "A" <=? c) && (c <=? chr "Z") then check256_loop str'
      else false
  end.

Definition check256 (str : jsstring) (len : Z) : bool :=
  if negb (str_length str =? len) then false else check256_loop str.

Definition checkTxID (txid : jsstring) : bool := check256 txid 64.

(** One branch of [checkSignature]; [%] of the language keeps the sign. *)
Definition proof_body (signature : jsstring) (header body : Z) : bool :=
  if negb (Z.rem (str_length signature - header) body =? 0) then false
  else check256 signature (str_length signature).

Definition checkSignature (signature : jsstring) : bool :=
  if indexOf (js "OutProofV") signature =? 0 then proof_body signature 10 132
  else if indexOf (js "InProofV") signature =? 0 then proof_body signature 9 132
  else if indexOf (js "SpendProofV") signature =? 0 then proof_body signature 12 88
  else if indexOf (js "ReserveProofV") signature =? 0 then proof_body signature 14 447
  else false.

(** /^[A-Za-z0-9-@]+(\.[A-Za-z0-9-]+)+$/ *)
Definition alias_first (c : Z) : bool := is_alnum c || (c =? chr "-") || (c =? chr "@").
Definition alias_label (c : Z) : bool := is_alnum c || (c =? chr "-").
Definition alias_regex : regex :=
  RBol ⋅ RChr alias_first ⁺ ⋅ (RGroup (RLit (chr ".") ⋅ RChr alias_label ⁺)) ⁺ ⋅ REol.

Definition isValidOpenAliasAddress (address : jsstring) : bool :=
  if negb (test alias_regex address) then false
  else
    let lastPart := substring_from address (lastIndexOf (chr ".") address + 1) in
    isNaN (parseInt lastPart)
    || negb (str_eqb lastPart (num_to_string (parseInt lastPart))).

Section OpenAlias.
(** The wallet manager of the application and the translation function. The
    address given to [addressValid] is [undefined] ([None]) when the resolver's
    answer has no second field. *)
Context (resolveOpenAlias : jsstring -> jsstring).
Context (addressValid : option jsstring -> Z -> bool).
Context (qsTr : jsstring -> jsstring).

Definition checkAddress (address : jsstring) (testnet : Z) : bool :=
  addressValid (Some address) testnet.

(** The object returned: the fields that are set. *)
Record resolution := Resolution {
  r_address : option jsstring;
  r_description : option jsstring;
  r_message : option jsstring }.

Definition message (text : string) : resolution :=
  Resolution None None (Some (qsTr (js text))).

Definition handleOpenAliasResolution (nettype : Z) (address : jsstring)
    (descriptionText : option jsstring) : resolution :=
  let result := resolveOpenAlias address in
  if bool_decide (result = []) then message "No address found"
  else
    let fields := split (chr "|") result in
    let isDnssecValid := fields !! 0%nat in
    let resolvedAddress := fields !! 1%nat in
    let isAddressValid := addressValid resolvedAddress nettype in
    if bool_decide (isDnssecValid = Some (js "true")) then
      if isAddressValid then
        let updated :=
          match descriptionText with
          | Some (c :: d) => address ++ js " " ++ c :: d
          | _ => address
          end in
        Resolution resolvedAddress (Some updated) None
      else message "No valid address found at this OpenAlias address"
    else if bool_decide (isDnssecValid = Some (js "false")) then
      if isAddressValid then
        Resolution resolvedAddress None
          (Some (qsTr (js "Address found, but the DNSSEC signatures could not be verified, so this address may be spoofed")))
      else message "No valid address found at this OpenAlias address, but the DNSSEC signatures could not be verified, so this may be spoofed"
    else message "Internal error".
End OpenAlias.

(** ** Display of destinations *)

(** A destinations line "amount: address" is taken apart into the amount and
    the address it was made of, whatever they are, as long as the amount has no
    space or colon and the address no space. *)
Theorem destinations_roundtrip (amount address : jsstring) :
  32 ∉ amount -> 58 ∉ amount -> 32 ∉ address ->
  destinationsToAmount (amount ++ js ": " ++ address) = amount /\
  destinationsToAddress (amount ++ js ": " ++ address) = address.
Proof.
  intros H1 H2 H3.
  assert (split 32 (amount ++ js ": " ++ address) = [amount ++ [58]; address]) as Hs.
  { change (js ": " ++ address) with ([58] ++ 32 :: address).
    rewrite app_assoc, split_app by set_solver. by rewrite split_no_sep. }
  unfold destinationsToAmount, destinationsToAddress. rewrite Hs. simpl.
  rewrite split_app by done. done.
Qed.

(** ** Address truncation *)

(** Reference: pieces of four characters. *)
Fixpoint chunks_fuel (fuel : nat) (s : jsstring) : list jsstring :=
  match fuel, s with
  | S f, _ :: _ => take 4 s :: chunks_fuel f (drop 4 s)
  | _, _ => []
  end.
Definition chunks (s : jsstring) : list jsstring := chunks_fuel (length s) s.

Definition single_line (s : jsstring) : Prop :=
  Forall (fun c => is_line_terminator c = false) s.

Lemma chunks_fuel_concat f s : (length s <= f)%nat -> concat (chunks_fuel f s) = s.
Proof.
  revert s. induction f as [|f IH]; intros [|c s] H; simpl in *; try done; [lia|].
  rewrite IH; [|rewrite length_drop; lia].
  by rewrite take_drop.
Qed.

Lemma span_single_line s :
  single_line s -> span (fun c => negb (is_line_terminator c)) s = length s.
Proof. induction 1 as [|c s Hc _ IH]; simpl; [done|]. rewrite Hc. simpl. by rewrite IH. Qed.

Lemma single_line_drop n s : single_line s -> single_line (drop n s).
Proof. apply Forall_drop. Qed.

Lemma single_line_take n s : single_line s -> single_line (take n s).
Proof. apply Forall_take. Qed.

Lemma exec_four i c s :
  single_line (c :: s) ->
  exec_at four_chars i (c :: s) = Some (i, St (i + length (take 4 (c :: s))) (drop 4 (c :: s)) None).
Proof.
  intros Hs. pose proof (Forall_inv Hs) as Hc. pose proof (Forall_inv_tail Hs) as Ht.
  assert (m four_chars Some (St i (c :: s) None)
          = Some (St (i + length (take 4 (c :: s))) (drop 4 (c :: s)) None)) as E.
  { unfold four_chars, RDot. rewrite m_plus by done. simpl in Hc. rewrite Hc. cbn [negb].
    rewrite span_single_line by done.
    erewrite backoff_hit by done. f_equal. rewrite length_take.
    change (cut (pred <$> Some 4%nat) (length s)) with (Nat.min 3 (length s)).
    change (drop 4 (c :: s)) with (drop 3 s). cbn [length].
    destruct (Nat.le_gt_cases (length s) 3).
    - rewrite !Nat.min_r by lia. rewrite !drop_ge by lia. f_equal. lia.
    - rewrite !Nat.min_l by lia. f_equal. lia. }
  cbn [exec_at]. by rewrite E.
Qed.

Lemma match_g_four s :
  single_line s -> match_g four_chars s = match s with [] => None | _ => Some (chunks s) end.
Proof.
  intros Hs. unfold match_g.
  enough (forall fuel i t, (length t < fuel)%nat -> single_line t ->
    (fun x => x.1.2) <$> (matches_g four_chars fuel i t).1 = chunks_fuel (length t) t) as H.
  { destruct s as [|c s]; [done|].
    specialize (H (S (length (c :: s))) 0%nat (c :: s) ltac:(lia) Hs).
    unfold chunks. destruct (matches_g _ _ _ _).1 eqn:E; simpl in *; [done|].
    by rewrite <- H. }
  clear s Hs. intros fuel i t Hf Hs.
  enough (forall f, (length t <= f)%nat ->
    (fun x => x.1.2) <$> (matches_g four_chars fuel i t).1 = chunks_fuel f t) as H by (apply H; lia).
  revert i t Hf Hs. induction fuel as [|fuel IH]; intros i t Hf Hs f Hlf; [lia|].
  destruct t as [|c t]; [by destruct f|]. destruct f as [|f]; simpl in Hlf; [lia|].
  cbn [matches_g]. rewrite exec_four by done. cbn [pos rest cap].
  rewrite bool_decide_eq_false_2 by (simpl; lia).
  pose proof (IH (i + length (take 4 (c :: t)))%nat (drop 4 (c :: t))) as IHt.
  destruct (matches_g four_chars fuel _ _) as [ms tl]. cbn [fst fmap list_fmap snd].
  cbn [chunks_fuel]. f_equal.
  - replace (i - i)%nat with 0%nat by lia. rewrite drop_0.
    replace (i + length (take 4 (c :: t)) - i)%nat with (length (take 4 (c :: t))) by lia.
    rewrite length_take. destruct (Nat.le_gt_cases 4 (length (c :: t))).
    + by rewrite Nat.min_l by lia.
    + rewrite Nat.min_r by lia. rewrite !take_ge by lia. done.
  - simpl fst in IHt. rewrite <- (IHt ltac:(rewrite length_drop; simpl in *; lia)
      ltac:(by apply single_line_drop) f); [done|]. rewrite length_drop. simpl. lia.
Qed.

Lemma match_join_single s :
  single_line s -> s <> [] -> match_join s = Ret (join (js " ") (chunks s)).
Proof. intros Hs Hn. unfold match_join. rewrite match_g_four by done. by destruct s. Qed.

(** The block count the display uses. *)
Definition clamp_blocks (b : Z) : Z := if b <=? 1 then 1 else if 23 <=? b then 23 else b.

(** For a non-empty one-line address the pretty form is the first and the
    last 4*blocks characters (blocks clamped to 1..23), each cut into groups of
    four that concatenate back to that text, joined by spaces with ".." between. *)
Theorem addressTruncatePretty_spec (a : jsstring) (blocks : Z) :
  single_line a -> a <> [] ->
  let n := (4 * Z.to_nat (clamp_blocks blocks))%nat in
  let front := take n a in
  let back := drop (length a - n) a in
  addressTruncatePretty (Some a) (Some blocks)
    = Ret (join (js " ") (chunks front) ++ js " .. " ++ join (js " ") (chunks back))
  /\ concat (chunks front) = front /\ concat (chunks back) = back.
Proof.
  intros Hs Hn n front back.
  split; [|split; apply chunks_fuel_concat; lia].
  unfold addressTruncatePretty. change (default 2 (Some blocks)) with blocks.
  cbv zeta. fold (clamp_blocks blocks).
  assert (1 <= clamp_blocks blocks <= 23) as Hb by (unfold clamp_blocks; cases_cmp; lia).
  assert (0 < length a)%nat by (destruct a; simpl; [done|lia]).
  assert (substring a 0 (4 * clamp_blocks blocks) = front) as ->.
  { rewrite substring_prefix by lia. unfold front, n. f_equal. lia. }
  assert (substring_from a (str_length a - 4 * clamp_blocks blocks) = back) as ->.
  { unfold back, n. destruct (Z.le_gt_cases (4 * clamp_blocks blocks) (str_length a)).
    - rewrite substring_suffix by lia. f_equal. unfold str_length. lia.
    - replace (length a - _)%nat with 0%nat by (unfold str_length in *; lia). rewrite drop_0.
      unfold substring_from, substring.
      replace (Z.max 0 (Z.min (_ - _) _)) with 0 by (unfold str_length in *; lia).
      replace (Z.max 0 (Z.min (str_length a) (str_length a))) with (str_length a)
        by (unfold str_length; lia).
      replace (Z.min 0 _) with 0 by (unfold str_length; lia).
      replace (Z.max 0 _) with (str_length a) by (unfold str_length; lia).
      simpl. rewrite drop_0. apply take_ge. unfold str_length. lia. }
  rewrite (match_join_single front), (match_join_single back); [done|..].
  - by apply single_line_drop.
  - intros E%(f_equal length). unfold back in E. rewrite length_drop in E. simpl in E. lia.
  - by apply single_line_take.
  - intros E%(f_equal length). unfold front in E. rewrite length_take in E. simpl in E. lia.
Qed.

(** On the empty string the pretty form does not return: [match] gives null
    and the call of [join] on it is a TypeError. *)
Theorem addressTruncatePretty_empty (blocks : option Z) :
  addressTruncatePretty (Some []) blocks = Throw TypeError.
Proof.
  unfold addressTruncatePretty. rewrite substring_prefix; [by rewrite take_nil|].
  case_match; [lia|]. case_match; [lia|]. apply Z.leb_gt in H. lia.
Qed.

(** ** Syntactic checks *)

Definition alnum_string (s : jsstring) : Prop := Forall (fun c => is_alnum c = true) s.

Lemma check256_loop_spec s : check256_loop s = true <-> alnum_string s.
Proof.
  induction s as [|c s IH]; simpl; [by split; [constructor|]|].
  unfold alnum_string in *. rewrite Forall_cons, <- IH. cbv beta.
  unfold is_alnum, is_digit, is_lower, is_upper, between.
  change (chr "0") with 48. change (chr "9") with 57. change (chr "a") with 97.
  change (chr "z") with 122. change (chr "A") with 65. change (chr "Z") with 90.
  destruct ((48 <=? c) && (c <=? 57)), ((97 <=? c) && (c <=? 122)),
    ((65 <=? c) && (c <=? 90)); simpl; intuition congruence.
Qed.

Lemma check256_spec s n : check256 s n = true <-> str_length s = n /\ alnum_string s.
Proof.
  unfold check256. destruct (Z.eqb_spec (str_length s) n); simpl; [|naive_solver].
  rewrite check256_loop_spec. naive_solver.
Qed.

(** The proof formats: prefix, length of the header, length of one body unit. *)
Definition proof_formats : list (jsstring * Z * Z) :=
  [(js "OutProofV", 10, 132); (js "InProofV", 9, 132);
   (js "SpendProofV", 12, 88); (js "ReserveProofV", 14, 447)].

Lemma proof_body_spec s h b :
  0 < b -> proof_body s h b = true <-> (b | str_length s - h) /\ alnum_string s.
Proof.
  intros Hb. unfold proof_body.
  destruct (Z.eqb_spec (Z.rem (str_length s - h) b) 0) as [E|E]; simpl.
  - rewrite check256_spec. apply Z.rem_divide in E; [|lia]. naive_solver.
  - split; [done|]. intros [Hd _]. apply Z.rem_divide in Hd; [done|lia].
Qed.

Lemma starts_with_other p q t :
  p <> [] -> q <> [] -> head p <> head q -> (indexOf p (q ++ t) =? 0) = false.
Proof.
  intros Hp Hq Hh. apply Z.eqb_neq. rewrite indexOf_0. intros [v Hv].
  destruct p, q; simpl in *; try done. congruence.
Qed.

Lemma starts_with_dec p s : {t | s = p ++ t} + {(indexOf p s =? 0) = false}.
Proof.
  destruct (strip_prefix p s) as [t|] eqn:E.
  - left. exists t. by apply strip_prefix_Some.
  - right. apply Z.eqb_neq. rewrite indexOf_0. intros [t Ht].
    apply strip_prefix_Some in Ht. congruence.
Qed.

Lemma starts_with_eqb p t : (indexOf p (p ++ t) =? 0) = true.
Proof. apply Z.eqb_eq, indexOf_0. eauto. Qed.

(** A proof string is accepted exactly when it is alphanumeric, starts with
    one of the four proof prefixes and its length is that format's header plus a
    whole number of body units. *)
Theorem checkSignature_spec (s : jsstring) :
  checkSignature s = true <->
  alnum_string s /\
  exists p h b t, In (p, h, b) proof_formats /\ s = p ++ t /\ (b | str_length s - h).
Proof.
  unfold checkSignature. split.
  - intros H.
    assert (exists p h b t, In (p, h, b) proof_formats /\ s = p ++ t
            /\ 0 < b /\ proof_body s h b = true) as (p & h & b & t & Hin & E & Hb & Hp).
    { destruct (starts_with_dec (js "OutProofV") s) as [[t E]|E1].
      { rewrite E in H at 1. rewrite starts_with_eqb in H.
        do 4 eexists. split; [left; reflexivity|]. done. }
      rewrite E1 in H. destruct (starts_with_dec (js "InProofV") s) as [[t E]|E2].
      { rewrite E in H at 1. rewrite starts_with_eqb in H.
        do 4 eexists. split; [right; left; reflexivity|]. done. }
      rewrite E2 in H. destruct (starts_with_dec (js "SpendProofV") s) as [[t E]|E3].
      { rewrite E in H at 1. rewrite starts_with_eqb in H.
        do 4 eexists. split; [right; right; left; reflexivity|]. done. }
      rewrite E3 in H. destruct (starts_with_dec (js "ReserveProofV") s) as [[t E]|E4].
      { rewrite E in H at 1. rewrite starts_with_eqb in H.
        do 4 eexists. split; [right; right; right; left; reflexivity|]. done. }
      rewrite E4 in H. done. }
    apply proof_body_spec in Hp as [Hd Ha]; [|done]. split; [done|]. exists p, h, b, t. done.
  - intros (Ha & p & h & b & t & Hin & E & Hd). unfold proof_formats in Hin. cbn [In] in Hin.
    assert (0 < b /\ proof_body s h b = true) as [Hb Hp].
    { assert (0 < b) by naive_solver. split; [done|]. by apply proof_body_spec. }
    assert (forall q, q <> [] -> head q <> head p -> (indexOf q s =? 0) = false) as Ho.
    { intros q Hq Hh. rewrite E. apply starts_with_other; [done| |done]. by naive_solver. }
    assert ((indexOf p s =? 0) = true) as Hs by (rewrite E; apply starts_with_eqb).
    clear E Hd Ha Hb.
    destruct Hin as [[= <- <- <-]|[[= <- <- <-]|[[= <- <- <-]|[[= <- <- <-]|[]]]]];
      rewrite ?Hs; repeat rewrite Ho by done; rewrite ?Hs; done.
Qed.

(** ** OpenAlias names *)

(** [first.label.label...]: a non-empty first part and at least one label *)
Definition alias_shape (a first : jsstring) (labels : list jsstring) : Prop :=
  a = first ++ concat ((cons (chr ".")) <$> labels) /\
  first <> [] /\ Forall (fun c => alias_first c = true) first /\
  labels <> [] /\ Forall (fun l => l <> [] /\ Forall (fun c => alias_label c = true) l) labels.

Lemma alias_regex_spec a :
  test alias_regex a = true <-> exists first labels, alias_shape a first labels.
Proof.
  unfold alias_regex. rewrite test_anchored2; cycle 1.
  - apply consumes_plus_chr.
  - apply consumes_quant.
    + apply consumes_group, consumes_seq; [apply consumes_chr|apply consumes_plus_chr].
    + by intros w (u & v & -> & (c & -> & _) & _).
  - unfold alias_shape. split.
    + intros (u & w & -> & [Hu Hu'] & (ws & -> & Hws & Hl)).
      assert (exists labels, ws = (cons (chr ".")) <$> labels /\
        Forall (fun l => l <> [] /\ Forall (fun c => alias_label c = true) l) labels)
        as (labels & -> & Hlab).
      { clear Hl. induction Hws as [|w ws (x & v & -> & (c & -> & Hc) & Hv) _ (ls & -> & Hls)].
        - by exists [].
        - exists (v :: ls). apply Z.eqb_eq in Hc as <-. split; [done|]. by constructor. }
      exists u, labels. split_and!; try done. intros ->. simpl in Hl. lia.
    + intros (u & labels & -> & Hu & Hu' & Hl & Hlab).
      exists u, (concat ((cons (chr ".")) <$> labels)). split_and!; [done..|].
      exists ((cons (chr ".")) <$> labels). split_and!; [done| |].
      * apply Forall_fmap. eapply Forall_impl; [exact Hlab|]. intros l Hgood. simpl.
        destruct Hgood. exists [chr "."], l. split_and!; [done| |done..]. by exists (chr ".").
      * rewrite length_fmap. destruct labels; simpl; [done|lia].
Qed.

(** The text the code takes for the last label is the last label. *)
Lemma alias_last_part a first labels l :
  alias_shape a first (labels ++ [l]) ->
  substring_from a (lastIndexOf (chr ".") a + 1) = l.
Proof.
  intros (-> & _ & _ & _ & Hl). rewrite fmap_app, concat_app. simpl. rewrite app_nil_r.
  rewrite app_assoc. apply after_last.
  apply Forall_app in Hl as [_ [_ Hl]%Forall_singleton].
  intros H. eapply Forall_forall in Hl; [|exact H]. done.
Qed.

(** An accepted OpenAlias name consists of a non-empty first part (letters,
    digits, "-" and "@") and one or more non-empty labels (letters, digits and
    "-") after dots, and its last label is not the numeral of an integer below
    2^53; in particular no dotted-quad IP address is accepted. *)
Theorem isValidOpenAliasAddress_sound (a : jsstring) :
  isValidOpenAliasAddress a = true ->
  exists first labels l,
    alias_shape a first (labels ++ [l]) /\ ~ (canonical_dec l /\ dec_value l < 2 ^ 53).
Proof.
  unfold isValidOpenAliasAddress. destruct (test alias_regex a) eqn:E; [|done].
  cbn [negb]. apply alias_regex_spec in E as (first & labels & Hs).
  destruct labels as [|l labels _] using rev_ind; [by destruct Hs as (_&_&_&?&_)|].
  rewrite (alias_last_part _ _ _ _ Hs). intros H. exists first, labels, l. split; [done|].
  intros [Hc Hv]. pose proof Hc as (Ha & Hn & _).
  rewrite parseInt_print, dec_digits_unique in H by done.
  unfold str_eqb in H. rewrite bool_decide_eq_true_2, orb_false_r in H by done.
  rewrite parseInt_digits in H by done. pose proof (dec_value_nonneg _ Ha).
  destruct (num_of_Z_exact (dec_value l)) as (q & Hq & _); [lia|]. by rewrite Hq in H.
Qed.

Lemma parseInt_letter c w :
  is_lower c || is_upper c = true -> parseInt (c :: w) = NaN.
Proof.
  intros Hc. unfold is_lower, is_upper, between in Hc.
  assert (65 <= c <= 90 \/ 97 <= c <= 122) as Hr by lia.
  assert (is_space c = false) as Hs.
  { unfold is_space, between. repeat (apply orb_false_iff; split); cases_cmp; simpl; lia || done. }
  unfold parseInt. cbn [drop_space]. rewrite Hs.
  destruct (Z.eqb_spec c 45); [lia|]. destruct (Z.eqb_spec c 43); [lia|].
  assert (match c :: w with
          | 48 :: d :: s' => if (d =? 120) || (d =? 88) then (16, s') else (10, c :: w)
          | _ => (10, c :: w) end = (10, c :: w)) as ->.
  { assert (c <> 48) by lia.
    do 7 (destruct c as [|c|c]; try done; try (destruct c; try done)). }
  cbn [take_digits]. unfold digit_of, is_digit, between.
  repeat case_match; simplify_eq; try done; lia.
Qed.

(** A name of that shape whose last label starts with a letter, as every
    top-level domain in use does, is accepted. *)
Theorem isValidOpenAliasAddress_complete (a first l : jsstring) (labels : list jsstring) (c : Z) :
  alias_shape a first (labels ++ [c :: l]) ->
  is_lower c || is_upper c = true ->
  isValidOpenAliasAddress a = true.
Proof.
  intros Hs Hc. unfold isValidOpenAliasAddress.
  assert (test alias_regex a = true) as -> by (apply alias_regex_spec; eauto).
  cbn [negb]. rewrite (alias_last_part _ _ _ _ Hs).
  by rewrite parseInt_letter.
Qed.

(** ** OpenAlias resolution *)

Lemma split_pieces c s : Forall (fun w => c ∉ w) (split c s).
Proof.
  induction s as [|d s IH]; cbn [split]; [constructor; [by apply not_elem_of_nil|constructor]|].
  destruct (Z.eqb_spec d c) as [->|Hd]; [constructor; [by apply not_elem_of_nil|done]|].
  destruct (split c s) as [|w ws]; [constructor; [|constructor]; by intros [->|?%not_elem_of_nil]%elem_of_cons|].
  apply Forall_cons in IH as [Hw Hws]. constructor; [|done]. by intros [->|?]%elem_of_cons.
Qed.

(** The piece before the first separator *)
Definition up_to (c : Z) (s w : jsstring) : Prop := c ∉ w /\ (s = w \/ exists rest, s = w ++ c :: rest).

Lemma split_first c s w : split c s !! 0%nat = Some w <-> up_to c s w.
Proof.
  split.
  - intros Hs. pose proof (split_pieces c s) as Hp. pose proof (join_split c s) as Hj.
    destruct (split c s) as [|w' ws]; [done|]. injection Hs as ->. apply Forall_cons in Hp as [Hw _]. split; [done|].
    rewrite <- Hj. destruct ws as [|w1 ws]; [by left|right]. by eexists.
  - intros [Hw [->|[rest ->]]]; [by rewrite split_no_sep|by rewrite split_app].
Qed.

Lemma split_second c s w a : split c s !! 0%nat = Some w -> (split c s !! 1%nat = Some a <-> exists rest, s = w ++ c :: rest /\ up_to c rest a).
Proof.
  intros [Hw Hs]%split_first. destruct Hs as [->|[rest ->]].
  - rewrite split_no_sep by done. split; [done|]. intros (rest & E & _). exfalso. apply Hw. rewrite E. set_solver.
  - rewrite split_app by done. cbn. setoid_rewrite split_first. split; [by exists rest|].
    intros (rest' & E & Ha). by apply app_inv_head in E as [= ->].
Qed.

(** C39: An answer of the resolver is a flag and an address, parted by a bar. An address is
    handed to the form if and only if the flag, the text up to the first bar, is "true" or "false",
    the address is exactly the text between the first bar and the next one or the end, and the
    wallet manager validated it for the configured network type. The description is filled in,
    with the alias before what was there, only when the flag says that DNSSEC was valid; an address
    that comes without it comes with the warning that it may be spoofed; and when there is neither,
    there is a message. *)
Theorem handleOpenAliasResolution_safe resolveOpenAlias addressValid qsTr nettype address descr :
  let r := handleOpenAliasResolution resolveOpenAlias addressValid qsTr nettype address descr in
  let bar := chr "|" in
  (forall a, r_address r = Some a <->
     addressValid (Some a) nettype = true /\
     exists flag rest, (flag = js "true" \/ flag = js "false") /\ resolveOpenAlias address = flag ++ bar :: rest /\ up_to bar rest a) /\
  (forall d, r_description r = Some d ->
     r_message r = None /\ up_to bar (resolveOpenAlias address) (js "true") /\
     d = address ++ match descr with Some (c :: d0) => js " " ++ c :: d0 | _ => [] end) /\
  (r_address r <> None -> r_description r = None ->
     r_message r = Some (qsTr (js "Address found, but the DNSSEC signatures could not be verified, so this address may be spoofed"))) /\
  (r_address r = None -> r_description r = None -> r_message r <> None).
Proof.
  unfold handleOpenAliasResolution. set (result := resolveOpenAlias address). cbv zeta.
  assert (forall a flag rest, flag = js "true" \/ flag = js "false" -> result = flag ++ chr "|" :: rest -> up_to (chr "|") rest a ->
    split (chr "|") result !! 0%nat = Some flag /\ split (chr "|") result !! 1%nat = Some a) as Hread.
  { intros a flag rest Hflag E Ha. assert (split (chr "|") result !! 0%nat = Some flag) as H0.
    { apply split_first. split; [destruct Hflag as [-> | ->]; by_decide|right; by exists rest]. }
    split; [done|]. apply (split_second _ _ flag); [done|]. by exists rest. }
  case_bool_decide as H0.
  { split_and!; try done. intros a. split; [done|]. intros (_ & flag & rest & _ & E & _). rewrite H0 in E. by destruct flag. }
  assert (forall flag a, flag = js "true" \/ flag = js "false" -> split (chr "|") result !! 0%nat = Some flag -> split (chr "|") result !! 1%nat = Some a ->
    exists flag rest, (flag = js "true" \/ flag = js "false") /\ result = flag ++ chr "|" :: rest /\ up_to (chr "|") rest a) as Hwrite.
  { intros flag a Hflag Hf Ha. apply (split_second _ _ flag) in Ha as (rest & E & Hr); [|done]. by exists flag, rest. }
  case_bool_decide as Ht; [|case_bool_decide as Hf].
  - destruct (addressValid _ _) eqn:Ev; split_and!; try done.
    + intros a. simpl. split; [intros Ha; rewrite Ha in Ev; split; [done|]; by eapply Hwrite; [left|done|]|].
      intros (_ & flag & rest & Hflag & E & Ha). by apply (Hread a flag rest).
    + intros d [= <-]. split; [done|]. split; [by apply split_first|]. destruct descr as [[|c d0]|]; by rewrite ?app_nil_r.
    + intros a. split; [done|]. intros (Hv & flag & rest & Hflag & E & Ha). destruct (Hread a flag rest Hflag E Ha) as [_ Ha']. congruence.
  - destruct (addressValid _ _) eqn:Ev; split_and!; try done.
    + intros a. simpl. split; [intros Ha; rewrite Ha in Ev; split; [done|]; by eapply Hwrite; [right|done|]|].
      intros (_ & flag & rest & Hflag & E & Ha). by apply (Hread a flag rest).
    + intros a. split; [done|]. intros (Hv & flag & rest & Hflag & E & Ha). destruct (Hread a flag rest Hflag E Ha) as [_ Ha']. congruence.
  - split_and!; try done. intros a. split; [done|]. intros (_ & flag & rest & Hflag & E & Ha).
    destruct (Hread a flag rest Hflag E Ha) as [Hr _]. destruct Hflag as [-> | ->]; congruence.
Qed.

(** ** Witnesses *)

Definition demo_amount : jsstring := js "20.000000000000".
Definition demo_address : jsstring := js "9tLGyK277MnYrDc7Vzi6TB1pJvst".

Lemma destinations_roundtrip_witness :
  destinationsToAmount (demo_amount ++ js ": " ++ demo_address) = demo_amount /\
  destinationsToAddress (demo_amount ++ js ": " ++ demo_address) = demo_address.
Proof. apply destinations_roundtrip; by_decide. Defined.

Lemma addressTruncatePretty_spec_witness :
  exists s, addressTruncatePretty (Some demo_address) (Some 2) = Ret s.
Proof.
  eexists. refine (proj1 (addressTruncatePretty_spec demo_address 2 _ _)).
  - by_decide.
  - done.
Defined.

(** A resolver that answers with three fields: the second one is the address. *)
Lemma handleOpenAliasResolution_safe_witness :
  let resolver (_ : jsstring) := js "false|" ++ demo_address ++ js "|more" in
  let r := handleOpenAliasResolution resolver (fun a _ => bool_decide (a = Some demo_address)) (fun s => s) 0 (js "donate.example.com") None in
  r_address r = Some demo_address
  /\ r_message r = Some (js "Address found, but the DNSSEC signatures could not be verified, so this address may be spoofed").
Proof.
  destruct (handleOpenAliasResolution_safe (fun _ => js "false|" ++ demo_address ++ js "|more")
    (fun a _ => bool_decide (a = Some demo_address)) (fun s => s) 0 (js "donate.example.com") None) as (Ha & _ & Hw & _).
  split.
  - apply Ha. split; [by_decide|]. exists (js "false"), (demo_address ++ js "|more"). split; [by right|]. split; [reflexivity|].
    split; [by_decide|]. right. by exists (js "more").
  - apply Hw; by vm_compute.
Defined.

Lemma isValidOpenAliasAddress_sound_witness :
  exists first labels l,
    alias_shape (js "donate@example.com") first (labels ++ [l]) /\
    ~ (canonical_dec l /\ dec_value l < 2 ^ 53).
Proof. apply isValidOpenAliasAddress_sound. by vm_compute. Defined.

Lemma isValidOpenAliasAddress_complete_witness :
  isValidOpenAliasAddress (js "donate.example.com") = true.
Proof.
  apply (isValidOpenAliasAddress_complete _ (js "donate") (js "om") [js "example"] (chr "c")).
  - split_and!; [by vm_compute|done|by_decide|done|].
    by_decide.
  - by vm_compute.
Defined.

Example alias_ip : isValidOpenAliasAddress (js "192.168.0.1") = false.
Proof. vm_compute. reflexivity. Qed.
Example pretty_demo :
  addressTruncatePretty (Some demo_address) (Some 1) = Ret (js "9tLG .. Jvst").
Proof. vm_compute. reflexivity. Qed.
