(* ===== verification/HardForks.v ===== *)
(** * The hard-fork schedules: src/hardforks/hardforks.cpp and hardforks.h

    The three activation tables of hashmonkey-core as data, in the order of the
    source. *)

From S2P Require Import Prelude.

Record hardfork_t := Hardfork {
  hf_version : Z;
  hf_height : Z;
  hf_threshold : Z;
  hf_time : Z }.

Definition mainnet_hard_forks : list hardfork_t :=
  [Hardfork 1 1 0 1747730000; Hardfork 2 2 0 1747730001; Hardfork 3 3 0 1747730002;
   Hardfork 4 4 0 1747730003; Hardfork 5 5 0 1747730004; Hardfork 6 6 0 1747730005;
   Hardfork 7 7 0 1747730006; Hardfork 8 8 0 1747730007; Hardfork 9 9 0 1747730008;
   Hardfork 10 10 0 1747730009; Hardfork 11 11 0 1747730010; Hardfork 12 12 0 1747730011;
   Hardfork 13 13 0 1747730012; Hardfork 14 14 0 1747730013; Hardfork 15 15 0 1747730014;
   Hardfork 16 16 0 1747730015].
Definition mainnet_hard_fork_version_1_till : Z := 0.

Definition testnet_hard_forks : list hardfork_t :=
  [Hardfork 1 1 0 1747730000; Hardfork 2 2 0 1747730001; Hardfork 3 3 0 1747730002;
   Hardfork 4 4 0 1747730003; Hardfork 5 5 0 1747730004; Hardfork 6 6 0 1747730005;
   Hardfork 7 7 0 1747730006; Hardfork 8 8 0 1747730007; Hardfork 9 9 0 1747730008;
   Hardfork 10 10 0 1747730009; Hardfork 11 11 0 1747730010; Hardfork 12 12 0 1747730011;
   Hardfork 13 13 0 1747730012; Hardfork 14 14 0 1747730013; Hardfork 15 15 0 1747730014;
   Hardfork 16 16 0 1747730015].
Definition testnet_hard_fork_version_1_till : Z := 0.

Definition stagenet_hard_forks : list hardfork_t :=
  [Hardfork 1 1 0 1341378000; Hardfork 2 32000 0 1521000000; Hardfork 3 33000 0 1521120000;
   Hardfork 4 34000 0 1521240000; Hardfork 5 35000 0 1521360000; Hardfork 6 36000 0 1521480000;
   Hardfork 7 37000 0 1521600000; Hardfork 8 176456 0 1537821770; Hardfork 9 177176 0 1537821771;
   Hardfork 10 269000 0 1550153694; Hardfork 11 269720 0 1550225678;
   Hardfork 12 454721 0 1571419280; Hardfork 13 675405 0 1598180817;
   Hardfork 14 676125 0 1598180818; Hardfork 15 1151000 0 1656629117;
   Hardfork 16 1151720 0 1656629118].
