(* ===== verification/Wizard.v ===== *)
(** * Wallet wizard helpers of the GUI: hashmonkey-gui/js/Wizard.js

    Wallet paths and names, seed and key checks, the page switcher and the
    estimate of a restore height from a date.  The wallet manager, the wizard's
    pages and the parsing of dates that are not ISO dates are parameters. *)

From Stdlib Require Import QArith Qround.
From S2P Require Import Prelude JsString JsRegex JsNumber HardForks.
#[local] Open Scope Z_scope.

(** ** Restoring from a QR code *)

(** The form fields the handler touches, whether it is still connected to the
    camera, and how often the next-button check ran. *)
Record qr_form := QrForm {
  recoverFromSeedMode : bool;
  spendKeyLine : jsstring;
  viewKeyLine : jsstring;
  restoreHeight : jsstring;
  addressLine : jsstring;
  qr_connected : bool;
  next_checks : nat }.

Record qr_parameters := QrParameters {
  secret_view_key : option jsstring;
  secret_spend_key : option jsstring;
  restore_height : option jsstring }.

Definition updateFromQrCode (address : jsstring) (extra : qr_parameters) (f : qr_form) : qr_form :=
  {| recoverFromSeedMode := false;
     spendKeyLine := default [] (secret_spend_key extra);
     viewKeyLine := default [] (secret_view_key extra);
     restoreHeight := default [] (restore_height extra);
     addressLine := address;
     qr_connected := false;
     next_checks := S (next_checks f) |}.

(** ** The page switcher *)

(** [currentPage], the opacity of each page, the next button, and the calls of
    [onPageOpened] made so far (page, direction), latest first. *)
Record wizard := Wizard {
  currentPage : Z;
  opacity : list Z;
  nextVisible : bool;
  opened : list (Z * bool) }.

(** [pages[i]] *)
Definition page_at (w : wizard) (i : Z) : option Z :=
  if i <? 0 then None else opacity w !! Z.to_nat i.

Section SwitchPage.
(** What page [i]'s [onPageClosed] returns, if it has one, and whether it has an
    [onPageOpened]. *)
Context (onPageClosed : Z -> option bool) (onPageOpened : Z -> bool).

(** The state reached and the error thrown, if any: a throw keeps the
    assignments made before it. *)
Definition switchPage (next : bool) (w : wizard) : wizard * option js_error :=
  let pages_length := Z.of_nat (length (opacity w)) in
  let go :=
    if (0 <? currentPage w) || (currentPage w <? pages_length - 1) then
      match page_at w (currentPage w) with
      | None => (w, Some TypeError)
      | Some _ =>
          let op1 := <[Z.to_nat (currentPage w) := 0]> (opacity w) in
          let cur := currentPage w + (if next then 1 else -1) in
          let w1 := Wizard cur op1 (nextVisible w) (opened w) in
          match page_at w1 cur with
          | None => (w1, Some TypeError)
          | Some _ =>
              let op2 := <[Z.to_nat cur := 1]> op1 in
              let visible := (1 <? cur) && (cur <? pages_length - 1) in
              let log := if onPageOpened cur then (cur, next) :: opened w else opened w in
              (Wizard cur op2 visible log, None)
          end
      end
    else (w, None) in
  if next then
    match page_at w (currentPage w) with
    | None => (w, Some TypeError)
    | Some _ =>
        match onPageClosed (currentPage w) with
        | Some ok => if ok then go else (w, None)
        | None => go
        end
    end
  else go.
End SwitchPage.

(** ** Wallet paths and names *)

Definition createWalletPath (isIOS : bool) (folder_path account_name : jsstring) : jsstring :=
  let folder_path := if isIOS then [] else folder_path in
  folder_path ++ js "/" ++ account_name ++ js "/" ++ account_name.

Section WalletFiles.
Context (walletExists : jsstring -> bool).

(** [None] is an undefined argument. *)
Definition walletPathExists (accountsDir : jsstring) (directory filename : option jsstring)
    (isIOS : bool) : bool :=
  match filename, directory with
  | Some (f :: fs), Some (d :: ds) =>
      let filename := f :: fs in
      let directory := d :: ds in
      let directory :=
        if negb (endsWith directory (chr "/")) && negb (endsWith directory 92)
        then directory ++ js "/" else directory in
      let path :=
        if isIOS then accountsDir ++ filename
        else directory ++ filename ++ js "/" ++ filename in
      if walletExists path then true else false
  | _, _ => false
  end.

(** Candidate [i]: the name itself, then name_1, name_2, ... *)
Definition wallet_candidate (filename : jsstring) (i : Z) : jsstring :=
  filename ++ (if 0 <? i then js "_" ++ dec_digits i else []).

Definition wallet_taken (directory walletName : jsstring) : bool :=
  walletExists (directory ++ js "/" ++ walletName ++ js "/" ++ walletName).

(** The loop with [n] rounds left, at counter [i]. *)
Fixpoint unusedWalletName_loop (directory filename : jsstring) (n : nat) (i : Z) : jsstring :=
  match n with
  | O => filename
  | S n' =>
      let walletName := wallet_candidate filename i in
      if negb (wallet_taken directory walletName) then walletName
      else unusedWalletName_loop directory filename n' (i + 1)
  end.

Definition unusedWalletName (directory filename : jsstring) : jsstring :=
  unusedWalletName_loop directory filename 100 0.
End WalletFiles.

Fixpoint isAscii (str : jsstring) : bool :=
  match str with
  | [] => true
  | c :: str' => if 127 <? c then false else isAscii str'
  end.

(** [qsTr] and the always-empty string that triggers retranslation *)
Definition tr (qsTr : jsstring -> jsstring) (emptyString text : jsstring) : jsstring :=
  qsTr text ++ emptyString.

Definition path_sep (c : Z) : bool := (c =? chr "/") || (c =? 92).
Definition re_dir : regex := RChr (fun c => negb (is_line_terminator c)) ⋆ ⋅ RChr path_sep.
Definition re_keys : regex :=
  RLit (chr ".") ⋅ RLit (chr "k") ⋅ RLit (chr "e") ⋅ RLit (chr "y") ⋅ RLit (chr "s") ⋅ REol.

Definition usefulName (path : jsstring) : jsstring :=
  if str_length path <? 32 then path
  else replace re_keys (fun _ => []) (replace re_dir (fun _ => []) path).

(** ** Seeds and keys *)

Definition checkSeed (seed : jsstring) : bool :=
  let wordsArray := split_re (RChr is_space ⁺) seed in
  bool_decide (length wordsArray = 25%nat) || bool_decide (length wordsArray = 24%nat).

(** [results[0..2]]: address, view key, spend key *)
Definition restoreWalletCheckViewSpendAddress
    (addressValid : jsstring -> Z -> bool) (keyValid : jsstring -> jsstring -> bool -> Z -> bool)
    (nettype : Z) (viewkey spendkey addressline : jsstring) : bool * bool * bool :=
  (addressValid addressline nettype,
   keyValid viewkey addressline true nettype,
   keyValid spendkey addressline false nettype).

(** ** Restore height from a date *)

(** What the comparisons of the argument [_nettype] with the three names tell
    apart; any other text is [OtherNet]. *)
Inductive net := Mainnet | Testnet | Stagenet | OtherNet.
#[global] Instance net_eq_dec : EqDecision net.
Proof. solve_decision. Defined.

Definition net_of_name (nettype : jsstring) : net :=
  if str_eqb nettype (js "Mainnet") then Mainnet
  else if str_eqb nettype (js "Testnet") then Testnet
  else if str_eqb nettype (js "Stagenet") then Stagenet else OtherNet.

Definition moneroBirthTime (n : net) : Z :=
  match n with Mainnet => 1397818193 | Testnet => 1410295020 | _ => 1518932025 end.
Definition forkTime (n : net) : Z :=
  match n with Mainnet => 1458748658 | Testnet => 1448285909 | _ => 1520937818 end.
Definition forkBlock (n : net) : Z :=
  match n with Mainnet => 1009827 | Testnet => 624634 | _ => 32000 end.
Definition rolledBackBlocks (n : net) : Z :=
  match n with Testnet => 342100 | Stagenet => 60000 | _ => 30000 end.

(** The estimate at a time in seconds, which is NaN for an invalid date. *)
Definition height_at (n : net) (requestedTime : num) : num :=
  let birth := num_of_Z (moneroBirthTime n) in
  let fork := num_of_Z (forkTime n) in
  if num_lt requestedTime birth then num_of_Z 0
  else
    let '(approx, secondsPerBlock) :=
      if num_lt birth requestedTime && num_lt requestedTime fork
      then (math_floor (num_div_lit (num_sub requestedTime birth) 60), 60)
      else (math_floor (num_add (num_of_Z (forkBlock n))
                                (num_div_lit (num_sub requestedTime fork) 120)), 120) in
    let approx :=
      match n with
      | Mainnet | OtherNet => approx
      | _ =>
          let rolled := num_of_Z (rolledBackBlocks n) in
          if num_lt rolled approx then num_sub approx rolled else approx
      end in
    let blocksPerMonth := num_div_lit (num_of_Z (60 * 60 * 24 * 30)) secondsPerBlock in
    if num_lt (num_of_Z 0) (num_sub approx blocksPerMonth)
    then num_sub approx blocksPerMonth else num_of_Z 0.

(** Days from 1970-01-01 of a day of the proleptic Gregorian calendar *)
Definition days_from_civil (y mo d : Z) : Z :=
  let y' := if mo <=? 2 then y - 1 else y in
  let era := y' / 400 in
  let yoe := y' - era * 400 in
  let mp := (mo + 9) mod 12 in
  let doy := (153 * mp + 2) / 5 + d - 1 in
  let doe := yoe * 365 + yoe / 4 - yoe / 100 + doy in
  era * 146097 + doe - 719468.

Definition days_in_month (y mo : Z) : Z :=
  if mo =? 2 then if (y mod 4 =? 0) && (negb (y mod 100 =? 0) || (y mod 400 =? 0)) then 29 else 28
  else if (mo =? 4) || (mo =? 6) || (mo =? 9) || (mo =? 11) then 30 else 31.

(** An ISO date "YYYY-MM-DD" in milliseconds since the epoch (UTC) *)
Definition iso_date (s : jsstring) : option Z :=
  match s with
  | [y1; y2; y3; y4; h1; m1; m2; h2; d1; d2] =>
      let ds := [y1; y2; y3; y4; m1; m2; d1; d2] in
      if forallb is_digit ds && (h1 =? chr "-") && (h2 =? chr "-") then
        let y := dec_value [y1; y2; y3; y4] in
        let mo := dec_value [m1; m2] in
        let d := dec_value [d1; d2] in
        if (1 <=? mo) && (mo <=? 12) && (1 <=? d) && (d <=? days_in_month y mo)
        then Some (days_from_civil y mo d * 86400000) else None
      else None
  | _ => None
  end.

Section Dates.
(** What the engine makes of a string that is not an ISO date; [None] is an
    invalid date. *)
Context (legacy_date : jsstring -> option Z).

(** [new Date(s)] as a number of milliseconds *)
Definition date_ms (s : jsstring) : num :=
  match iso_date s with
  | Some ms => num_of_Z ms
  | None => match legacy_date s with Some ms => num_of_Z ms | None => NaN end
  end.

Definition getApproximateBlockchainHeight (date nettype : jsstring) : num :=
  height_at (net_of_name nettype) (math_floor (num_div_lit (date_ms date) 1000)).
End Dates.

Example epoch_2016 : iso_date (js "2016-03-18") = Some 1458259200000.
Proof. vm_compute. reflexivity. Qed.
Example estimate_2025 :
  num_to_string (getApproximateBlockchainHeight (fun _ => None) (js "2025-06-01") (js "Mainnet"))
  = js "3404788".
Proof. vm_compute. reflexivity. Qed.

(** ** The restore-height estimate *)

(** The estimate over the integers *)
Definition estimate (n : net) (r : Z) : Z :=
  if r <? moneroBirthTime n then 0
  else
    let '(h, spb) :=
      if (moneroBirthTime n <? r) && (r <? forkTime n)
      then ((r - moneroBirthTime n) / 60, 60)
      else (forkBlock n + (r - forkTime n) / 120, 120) in
    let h :=
      match n with
      | Mainnet | OtherNet => h
      | _ => if rolledBackBlocks n <? h then h - rolledBackBlocks n else h
      end in
    let month := 2592000 / spb in
    if 0 <? h - month then h - month else 0.

(** Seconds that a Date can represent lie well within this range. *)
Definition date_seconds (r : Z) : Prop := - 2 ^ 43 <= r <= 2 ^ 43.

Lemma height_tail_ok n a h spb :
  num_is a h -> - 2 ^ 45 <= h <= 2 ^ 45 -> spb = 60 \/ spb = 120 ->
  let approx :=
    match n with
    | Mainnet | OtherNet => a
    | _ => if num_lt (num_of_Z (rolledBackBlocks n)) a
           then num_sub a (num_of_Z (rolledBackBlocks n)) else a
    end in
  let h' :=
    match n with
    | Mainnet | OtherNet => h
    | _ => if rolledBackBlocks n <? h then h - rolledBackBlocks n else h
    end in
  let month := num_div_lit (num_of_Z (60 * 60 * 24 * 30)) spb in
  num_is (if num_lt (num_of_Z 0) (num_sub approx month) then num_sub approx month
          else num_of_Z 0)
         (if 0 <? h' - 2592000 / spb then h' - 2592000 / spb else 0).
Proof.
  intros Ha Hh Hs approx h' month.
  assert (0 <= rolledBackBlocks n <= 342100) as Hr by (by destruct n).
  assert (num_is (num_of_Z (rolledBackBlocks n)) (rolledBackBlocks n)) as Hrb
    by (apply num_is_of_Z; unfold safe; lia).
  assert (num_is approx h' /\ - 2 ^ 46 <= h' <= 2 ^ 46) as [Hap Hb].
  { unfold approx, h'. rewrite (num_is_lt _ _ _ _ Hrb Ha).
    destruct n; [split; [done|lia]| | |split; [done|lia]];
      match goal with |- context [?b <? h] => destruct (Z.ltb_spec b h) end;
      (split; [|lia]); try done; apply num_is_sub; try done; unfold safe; lia. }
  assert (num_is month (2592000 / spb)) as Hm.
  { unfold month. apply (num_is_div_exact _ 2592000); [apply num_is_of_Z; unfold safe; lia|..].
    - lia.
    - destruct Hs as [-> | ->]; done.
    - destruct Hs as [-> | ->]; unfold safe; vm_compute; split; discriminate. }
  assert (0 <= 2592000 / spb <= 43200) as Hmb
    by (destruct Hs as [-> | ->]; vm_compute; split; discriminate).
  assert (num_is (num_sub approx month) (h' - 2592000 / spb)) as Hd
    by (apply num_is_sub; [done..|unfold safe; lia]).
  assert (num_is (num_of_Z 0) 0) as H0 by (apply num_is_of_Z; unfold safe; lia).
  rewrite (num_is_lt _ _ _ _ H0 Hd). by case_match.
Qed.

Lemma height_at_ok n x r : num_is x r -> date_seconds r -> num_is (height_at n x) (estimate n r).
Proof.
  intros Hx Hr. unfold date_seconds in Hr.
  assert (0 <= moneroBirthTime n <= 2 ^ 31 /\ 0 <= forkTime n <= 2 ^ 31 /\ 0 <= forkBlock n <= 2 ^ 31)
    as (Bb & Bf & Bk) by (by destruct n).
  assert (num_is (num_of_Z (moneroBirthTime n)) (moneroBirthTime n)) as Hb
    by (apply num_is_of_Z; unfold safe; lia).
  assert (num_is (num_of_Z (forkTime n)) (forkTime n)) as Hf
    by (apply num_is_of_Z; unfold safe; lia).
  assert (num_is (num_of_Z (forkBlock n)) (forkBlock n)) as Hk
    by (apply num_is_of_Z; unfold safe; lia).
  unfold height_at, estimate. cbv zeta.
  rewrite (num_is_lt _ _ _ _ Hx Hb), (num_is_lt _ _ _ _ Hb Hx), (num_is_lt _ _ _ _ Hx Hf).
  destruct (Z.ltb_spec r (moneroBirthTime n)); [apply num_is_of_Z; unfold safe; lia|].
  destruct ((moneroBirthTime n <? r) && (r <? forkTime n)).
  - apply (height_tail_ok n _ _ 60); [|pose proof (Z.div_lt_upper_bound (r - moneroBirthTime n) 60 (2 ^ 43)); pose proof (Z.div_pos (r - moneroBirthTime n) 60); lia|by left].
    pose proof (Z.div_lt_upper_bound (r - moneroBirthTime n) 60 (2 ^ 43)).
    pose proof (Z.div_pos (r - moneroBirthTime n) 60).
    apply (num_is_floor_div _ _ _ 6); [|lia..].
    apply num_is_sub; [done..|unfold safe; lia].
  - pose proof (Z.div_lt_upper_bound (r - forkTime n) 120 (2 ^ 43)).
    pose proof (Z.div_le_lower_bound (r - forkTime n) 120 (- 2 ^ 43)).
    apply (height_tail_ok n _ _ 120); [|lia|by right].
    apply (num_is_floor_add_div _ _ _ _ _ 7); [done| |lia..].
    apply num_is_sub; [done..|unfold safe; lia].
Qed.

(** The time an ISO date stands for, when it lies between the years 0 and 9999,
    is far inside the range of exact integers. *)
Lemma days_from_civil_bound y mo d :
  0 <= y <= 9999 -> 1 <= mo <= 12 -> 1 <= d <= 31 -> - 2 ^ 21 <= days_from_civil y mo d <= 2 ^ 22.
Proof.
  intros Hy Hm Hd. unfold days_from_civil.
  set (y' := if mo <=? 2 then y - 1 else y).
  assert (-1 <= y' <= 9999) as Hy' by (unfold y'; case_match; lia).
  pose proof (Z.div_mod y' 400 ltac:(lia)). pose proof (Z.mod_pos_bound y' 400 ltac:(lia)).
  pose proof (Z.mod_pos_bound (mo + 9) 12 ltac:(lia)) as Hmp.
  set (mp := (mo + 9) mod 12) in *. set (yoe := y' - y' / 400 * 400).
  assert (0 <= yoe < 400) by (unfold yoe; lia).
  pose proof (Z.div_mod (153 * mp + 2) 5 ltac:(lia)). pose proof (Z.mod_pos_bound (153 * mp + 2) 5 ltac:(lia)).
  pose proof (Z.div_mod yoe 4 ltac:(lia)). pose proof (Z.mod_pos_bound yoe 4 ltac:(lia)).
  pose proof (Z.div_mod yoe 100 ltac:(lia)). pose proof (Z.mod_pos_bound yoe 100 ltac:(lia)).
  lia.
Qed.

Lemma iso_date_bound s ms : iso_date s = Some ms -> - 2 ^ 48 <= ms <= 2 ^ 49.
Proof.
  destruct s as [|y1 [|y2 [|y3 [|y4 [|h1 [|m1 [|m2 [|h2 [|d1 [|d2 [|]]]]]]]]]]]; try done.
  cbn [iso_date].
  destruct (forallb is_digit [y1; y2; y3; y4; m1; m2; d1; d2]) eqn:E; [|done]. cbn [andb].
  destruct ((h1 =? chr "-") && (h2 =? chr "-")); [|done].
  set (y := dec_value [y1; y2; y3; y4]). set (mo := dec_value [m1; m2]).
  set (d := dec_value [d1; d2]).
  destruct ((1 <=? mo) && (mo <=? 12) && (1 <=? d) && (d <=? days_in_month y mo)) eqn:E2; [|done].
  intros [= <-]. simpl in E. rewrite !andb_true_iff, !is_digit_range in E.
  rewrite !andb_true_iff, !Z.leb_le in E2.
  assert (0 <= y <= 9999) by (unfold y, dec_value, digits_value; cbn [fmap list_fmap fold_left]; lia).
  assert (days_in_month y mo <= 31) by (unfold days_in_month; repeat case_match; lia).
  pose proof (days_from_civil_bound y mo d). lia.
Qed.

(** C38: for every ISO date (YYYY-MM-DD) the estimate, computed by the code in
    floating point with a division and a rounding at each step, is exactly the
    integer estimate at the start of that day: the roundings never move the
    result by a block. *)
Theorem getApproximateBlockchainHeight_exact legacy_date (s nettype : jsstring) (ms : Z) :
  iso_date s = Some ms ->
  num_is (getApproximateBlockchainHeight legacy_date s nettype)
         (estimate (net_of_name nettype) (ms / 1000)).
Proof.
  intros Hs. pose proof (iso_date_bound s ms Hs) as Hb.
  unfold getApproximateBlockchainHeight, date_ms. rewrite Hs.
  pose proof (Z.div_lt_upper_bound ms 1000 (2 ^ 40)) as Hu.
  pose proof (Z.div_le_lower_bound ms 1000 (- 2 ^ 40)) as Hl.
  apply height_at_ok; [|unfold date_seconds; lia].
  apply (num_is_floor_div _ _ _ 10); [apply num_is_of_Z; unfold safe; lia|lia..].
Qed.

(** A date the engine cannot read gives the estimate 0, not NaN. *)
Theorem getApproximateBlockchainHeight_invalid legacy_date (s nettype : jsstring) :
  iso_date s = None -> legacy_date s = None ->
  num_is (getApproximateBlockchainHeight legacy_date s nettype) 0.
Proof.
  intros H1 H2. unfold getApproximateBlockchainHeight, date_ms. rewrite H1, H2.
  unfold height_at. cbn [num_div_lit math_floor num_lt num_sub num_neg num_add].
  assert (forall a, num_lt a NaN = false) as Hn by by intros [].
  assert (forall a, num_add a NaN = NaN) as Ha by by intros [].
  rewrite !Hn, andb_false_l. cbn [num_div_lit]. rewrite Ha. cbn [math_floor].
  destruct (net_of_name nettype); cbn [num_sub num_add num_neg]; rewrite ?Hn;
    cbn [num_sub num_add num_neg]; rewrite ?Hn; apply num_is_of_Z; unfold safe; lia.
Qed.

(** On Mainnet the estimate never decreases as the date moves forward from
    the birth of the chain, across the change of block time. *)
Theorem estimate_mainnet_monotone (r r' : Z) :
  moneroBirthTime Mainnet < r -> r <= r' -> estimate Mainnet r <= estimate Mainnet r'.
Proof.
  intros H1 H2. unfold estimate. cbn [moneroBirthTime forkTime forkBlock] in *.
  pose proof (Z.div_le_mono (r - 1397818193) (r' - 1397818193) 60).
  pose proof (Z.div_le_mono (r - 1458748658) (r' - 1458748658) 120).
  pose proof (Z.div_lt_upper_bound (r - 1397818193) 60 1015508).
  pose proof (Z.div_pos (r' - 1458748658) 120).
  destruct (Z.ltb_spec r 1397818193); [lia|]. destruct (Z.ltb_spec r' 1397818193); [lia|].
  destruct (Z.ltb_spec 1397818193 r); [|lia]. destruct (Z.ltb_spec 1397818193 r'); [|lia].
  destruct (Z.ltb_spec r 1458748658), (Z.ltb_spec r' 1458748658);
    cbn [andb]; change (2592000 / 60) with 43200; change (2592000 / 120) with 21600;
    cases_cmp; lia.
Qed.

(** The comparisons leave out the birth second itself: there the estimate is
    480473 blocks although it is 0 just before and just after. *)
Theorem estimate_birth_second :
  estimate Mainnet (moneroBirthTime Mainnet) = 480473 /\
  estimate Mainnet (moneroBirthTime Mainnet - 1) = 0 /\
  estimate Mainnet (moneroBirthTime Mainnet + 1) = 0.
Proof. by vm_compute. Qed.

(** When the first block of this chain can have been mined: the time of the
    first entry of the fork table. *)
Definition hmny_launch : Z :=
  match mainnet_hard_forks with f :: _ => hf_time f | [] => 0 end.

(** The constants of the estimate are those of the Monero chain: for every
    time from the launch of this chain on, the Mainnet estimate exceeds by more
    than 3.39 million the number of blocks this chain can have at its target of
    one per 120 seconds, so a restore by date starts beyond the top of the chain. *)
Theorem estimate_beyond_chain (r : Z) :
  hmny_launch <= r -> (r - hmny_launch) / 120 + 3396403 <= estimate Mainnet r.
Proof.
  change hmny_launch with 1747730000. intros Hr. unfold estimate.
  cbn [moneroBirthTime forkTime forkBlock].
  pose proof (Z.div_le_mono (r - 1747730000 + 288981240) (r - 1458748658) 120 ltac:(lia) ltac:(lia)) as Hm.
  replace (r - 1747730000 + 288981240) with (r - 1747730000 + 2408177 * 120) in Hm by lia.
  rewrite Z.div_add in Hm by lia.
  pose proof (Z.div_pos (r - 1747730000) 120).
  destruct (Z.ltb_spec r 1397818193); [lia|]. destruct (Z.ltb_spec 1397818193 r); [|lia].
  destruct (Z.ltb_spec r 1458748658); [lia|]. cbn [andb].
  change (2592000 / 120) with 21600. cases_cmp; lia.
Qed.

(** ** Wallet names *)

Lemma unusedWalletName_loop_spec walletExists directory filename n i :
  let r := unusedWalletName_loop walletExists directory filename n i in
  (exists j, i <= j < i + Z.of_nat n /\ r = wallet_candidate filename j /\
     wallet_taken walletExists directory r = false /\
     forall k, i <= k < j -> wallet_taken walletExists directory (wallet_candidate filename k) = true)
  \/ (r = filename /\
      forall k, i <= k < i + Z.of_nat n ->
        wallet_taken walletExists directory (wallet_candidate filename k) = true).
Proof.
  revert i. induction n as [|n IH]; intros i; cbn [unusedWalletName_loop].
  - right. split; [done|lia].
  - destruct (wallet_taken _ _ (wallet_candidate filename i)) eqn:E; cbn [negb].
    + destruct (IH (i + 1)) as [(j & Hj & Hr & Ht & Hk)|(Hr & Hk)].
      * left. exists j. split_and!; [lia|lia|done|done|].
        intros k Hk'. destruct (decide (k = i)) as [->|]; [done|]. apply Hk. lia.
      * right. split; [done|]. intros k Hk'.
        destruct (decide (k = i)) as [->|]; [done|]. apply Hk. lia.
    + left. exists i. split_and!; [lia|lia|done|done|lia].
Qed.

(** The name proposed for a new wallet is the first of name, name_1, ...,
    name_99 whose file does not exist yet; when all hundred are taken the loop
    still ends, and gives the bare name back. *)
Theorem unusedWalletName_spec walletExists (directory filename : jsstring) :
  let r := unusedWalletName walletExists directory filename in
  (exists j, 0 <= j < 100 /\ r = wallet_candidate filename j /\
     wallet_taken walletExists directory r = false /\
     forall k, 0 <= k < j -> wallet_taken walletExists directory (wallet_candidate filename k) = true)
  \/ (r = filename /\
      forall k, 0 <= k < 100 ->
        wallet_taken walletExists directory (wallet_candidate filename k) = true).
Proof. exact (unusedWalletName_loop_spec walletExists directory filename 100 0). Qed.

Lemma isAscii_spec s : isAscii s = true <-> Forall (fun c => c <= 127) s.
Proof.
  induction s as [|c s IH]; simpl; [by split; [constructor|]|].
  rewrite Forall_cons, <- IH. destruct (Z.ltb_spec 127 c); naive_solver lia.
Qed.

(** ** Display name of a wallet file *)

Lemma backoff_last {A} (f : nat -> option A) n i z :
  (i <= n)%nat -> f i = Some z -> (forall j, (i < j <= n)%nat -> f j = None) ->
  backoff f n = Some z.
Proof.
  intros Hi Hz Hn. induction n as [|n IH].
  - assert (i = 0%nat) as -> by lia. simpl. by rewrite Hz.
  - destruct (decide (i = S n)) as [->|]; [by apply backoff_hit|].
    simpl. rewrite Hn by lia. apply IH; [lia|]. intros. apply Hn. lia.
Qed.

Lemma span_all p s : Forall (fun c => p c = true) s -> span p s = length s.
Proof. induction 1 as [|c s Hc _ IH]; simpl; [done|]. by rewrite Hc, IH. Qed.

(** Everything up to the last separator goes. *)
Lemma replace_dir s sep base :
  Forall (fun c => is_line_terminator c = false) (s ++ sep :: base) ->
  path_sep sep = true -> Forall (fun c => path_sep c = false) base ->
  replace re_dir (fun _ => []) (s ++ sep :: base) = base.
Proof.
  intros Hl Hs Hb. set (p := s ++ sep :: base) in *.
  assert (m re_dir Some (St 0 p None) = Some (St (S (length s)) base None)) as E.
  { unfold re_dir. cbn [m]. fold (m (RChr (fun c => negb (is_line_terminator c)) ⋆)).
    change (repeat_matcher _ _ _ _ _ _ _ _) with
      (m (RChr (fun c => negb (is_line_terminator c)) ⋆)
         (m (RChr path_sep) Some) (St 0 p None)).
    rewrite m_star, span_all.
    - apply (backoff_last _ _ (length s)).
      + unfold p. rewrite length_app. lia.
      + cbn [m rest]. unfold p. rewrite drop_app_length, Hs. simpl. done.
      + intros j Hj. cbn [m rest]. unfold p. rewrite drop_app_ge by lia.
        destruct (j - length s)%nat as [|k] eqn:Ek; [lia|]. simpl.
        destruct (drop k base) as [|c t] eqn:Ed; [done|].
        assert (c ∈ base) as Hc.
        { rewrite <- (take_drop k base), Ed. set_solver. }
        eapply Forall_forall in Hb; [|exact Hc]. simpl in Hb. by rewrite Hb.
    - eapply Forall_impl; [exact Hl|]. simpl. by intros c ->. }
  unfold replace. destruct p as [|c t] eqn:Ep; [by destruct s|].
  cbn [exec_at]. rewrite E. done.
Qed.

Lemma re_keys_at i t :
  m re_keys Some (St i t None) =
  if bool_decide (t = js ".keys") then Some (St (i + 5) [] None) else None.
Proof.
  unfold re_keys, RLit. cbn [m rest pos cap].
  repeat (destruct t as [|? t]; [by case_bool_decide|]; cbn [m rest pos cap];
    match goal with |- context [chr ?x =? ?c] =>
      destruct (Z.eqb_spec (chr x) c) as [<-|?];
      [|case_bool_decide as E; [injection E as; subst; done|done]] end).
  destruct t; [|done]. rewrite bool_decide_eq_true_2 by done. do 2 f_equal. lia.
Qed.

Lemma exec_keys_suffix i b :
  exec_at re_keys i (b ++ js ".keys") = Some ((i + length b)%nat, St (i + length b + 5) [] None).
Proof.
  revert i. induction b as [|c b IH]; intros i; cbn [app].
  - rewrite Nat.add_0_r. change (js ".keys") with (46 :: js "keys") at 1.
    cbn [exec_at]. rewrite re_keys_at. done.
  - cbn [exec_at]. rewrite re_keys_at, bool_decide_eq_false_2.
    + rewrite IH. cbn [length]. do 2 f_equal; [lia|]. f_equal. lia.
    + intros H%(f_equal length). cbn [length] in H. rewrite length_app in H.
      change (length (js ".keys")) with 5%nat in H. lia.
Qed.

Lemma exec_keys_none i t :
  (forall b, t <> b ++ js ".keys") -> exec_at re_keys i t = None.
Proof.
  revert i. induction t as [|c t IH]; intros i H; cbn [exec_at]; rewrite re_keys_at.
  - by rewrite bool_decide_eq_false_2 by done.
  - rewrite bool_decide_eq_false_2 by (apply (H [])).
    apply IH. intros b ->. by apply (H (c :: b)).
Qed.

(** For a one-line path of at least 32 characters the name shown is the text
    after the last slash or backslash, without a final ".keys". *)
Theorem usefulName_spec (dir base : jsstring) (sep : Z) :
  let path := dir ++ sep :: base in
  32 <= str_length path ->
  Forall (fun c => is_line_terminator c = false) path ->
  path_sep sep = true -> Forall (fun c => path_sep c = false) base ->
  (forall b, base = b ++ js ".keys" -> usefulName path = b) /\
  ((forall b, base <> b ++ js ".keys") -> usefulName path = base).
Proof.
  intros path Hl Ht Hs Hb. unfold usefulName.
  destruct (Z.ltb_spec (str_length path) 32); [lia|].
  unfold path. rewrite replace_dir by done. unfold replace. split.
  - intros b ->. rewrite exec_keys_suffix. cbn [rest cap].
    rewrite app_nil_l, app_nil_r, Nat.add_0_l. apply take_app_length.
  - intros Hn. by rewrite exec_keys_none.
Qed.

(** ** Seeds *)

Lemma span_app_stop p sp t :
  Forall (fun c => p c = true) sp -> match t with c :: _ => p c = false | [] => True end ->
  span p (sp ++ t) = length sp.
Proof.
  induction 1 as [|c sp Hc _ IH]; intros Ht; simpl.
  - destruct t as [|c t]; simpl; [done|]. by rewrite Ht.
  - by rewrite Hc, IH.
Qed.

(** A run of white space is one separator. *)
Lemma m_space_run i c sp t :
  Forall (fun c => is_space c = true) (c :: sp) ->
  match t with d :: _ => is_space d = false | [] => True end ->
  m (RChr is_space ⁺) Some (St i ((c :: sp) ++ t) None)
  = Some (St (i + length (c :: sp)) t None).
Proof.
  intros Hs Ht. rewrite m_plus by done. cbn [app].
  rewrite (Forall_inv Hs). pose proof (Forall_inv_tail Hs) as Hs'.
  cbn [fmap option_fmap option_map cut]. rewrite span_app_stop by done.
  apply backoff_hit. rewrite drop_app_length. do 2 f_equal. cbn [length]. lia.
Qed.

Lemma split_word r fuel i cur w t :
  Forall (fun c => is_space c = false) w -> r = RChr is_space ⁺ ->
  split_loop r (length w + fuel) i cur (w ++ t) = split_loop r fuel (i + length w) (rev w ++ cur) t.
Proof.
  intros Hw ->. revert i cur. induction Hw as [|c w Hc _ IH]; intros i cur.
  - cbn [app length]. by rewrite Nat.add_0_r.
  - cbn [app length Nat.add split_loop]. rewrite m_plus, Hc by done.
    rewrite IH. cbn [rev]. rewrite <- app_assoc. f_equal. lia.
Qed.

(** The words of a text: a first word and then separator-word pairs. *)
Fixpoint spaced (ws : list (jsstring * jsstring)) : jsstring :=
  match ws with [] => [] | (sp, w) :: ws' => sp ++ w ++ spaced ws' end.

Definition blank (s : jsstring) : Prop := s <> [] /\ Forall (fun c => is_space c = true) s.
Definition word (s : jsstring) : Prop := s <> [] /\ Forall (fun c => is_space c = false) s.

Lemma split_words fuel i cur w ws :
  Forall (fun c => is_space c = false) w -> Forall (fun p => blank p.1 /\ word p.2) ws ->
  (length (w ++ spaced ws) < fuel)%nat ->
  split_loop (RChr is_space ⁺) fuel i cur (w ++ spaced ws) = (rev cur ++ w) :: ws.*2.
Proof.
  intros Hw Hws. revert fuel i cur w Hw.
  induction Hws as [|[sp v] ws [[Hsn Hs] [Hvn Hv]] _ IH]; intros fuel i cur w Hw Hf.
  - rewrite length_app in Hf. cbn [spaced length] in *.
    replace fuel with (length w + (fuel - length w))%nat by lia.
    rewrite split_word by done. destruct (fuel - length w)%nat eqn:E; [lia|]. cbn [split_loop].
    by rewrite rev_app_distr, rev_involutive.
  - cbn [spaced] in *. cbn [fst snd] in *. rewrite !length_app in Hf.
    replace fuel with (length w + (fuel - length w))%nat by lia.
    rewrite split_word by done. destruct sp as [|c sp]; [done|].
    cbn [length] in Hf. destruct (fuel - length w)%nat as [|f] eqn:E; [lia|].
    assert (m (RChr is_space ⁺) Some (St (i + length w) ((c :: sp) ++ v ++ spaced ws) None)
            = Some (St (i + length w + length (c :: sp)) (v ++ spaced ws) None)) as Em.
    { apply m_space_run; [done|]. destruct v as [|d v]; [done|]. exact (Forall_inv Hv). }
    cbn [app split_loop] in *. rewrite Em. cbn [pos rest].
    rewrite bool_decide_eq_false_2 by (cbn [length]; lia). cbn [andb].
    rewrite rev_app_distr, rev_involutive. f_equal.
    rewrite IH; [done|done|]. rewrite length_app. lia.
Qed.

(** A seed of words separated by any runs of white space, with none before
    the first word or after the last, is accepted exactly when it has 24 or 25
    words. *)
Theorem checkSeed_counts_words (w : jsstring) (ws : list (jsstring * jsstring)) :
  word w -> Forall (fun p => blank p.1 /\ word p.2) ws ->
  checkSeed (w ++ spaced ws) = true <-> (length ws + 1 = 24 \/ length ws + 1 = 25)%nat.
Proof.
  intros [Hn Hw] Hws. unfold checkSeed, split_re.
  destruct (w ++ spaced ws) as [|c t] eqn:E; [by destruct w|]. rewrite <- E.
  rewrite split_words by (done || lia). cbn [rev app length]. rewrite length_fmap.
  rewrite orb_true_iff, !bool_decide_eq_true. lia.
Qed.

(** ** The page switcher *)

(** Exactly the current page is visible. *)
Definition one_visible (w : wizard) : Prop :=
  0 <= currentPage w /\
  forall i, (i < length (opacity w))%nat ->
    opacity w !! i = Some (if Z.of_nat i =? currentPage w then 1 else 0).

(** Switching to a page that exists shows that page and hides the previous
    one; a page whose [onPageClosed] does not return true blocks going forward
    and leaves everything as it was. *)
Theorem switchPage_in_range onPageClosed onPageOpened (next : bool) (w : wizard) :
  let n := Z.of_nat (length (opacity w)) in
  let target := currentPage w + (if next then 1 else -1) in
  one_visible w -> currentPage w < n -> 0 <= target < n ->
  let '(w', err) := switchPage onPageClosed onPageOpened next w in
  err = None /\ one_visible w' /\ length (opacity w') = length (opacity w) /\
  if next && bool_decide (onPageClosed (currentPage w) = Some false)
  then w' = w else currentPage w' = target.
Proof.
  intros n target [H0 Hv] Hc Ht.
  assert (forall i, 0 <= i < n -> exists x, page_at w i = Some x) as Hpage.
  { intros i Hi. unfold page_at. destruct (Z.ltb_spec i 0); [lia|].
    apply lookup_lt_is_Some. lia. }
  destruct (Hpage (currentPage w)) as [x Hx]; [lia|].
  unfold switchPage. fold n. fold target.
  assert ((0 <? currentPage w) || (currentPage w <? n - 1) = true) as ->.
  { apply orb_true_iff. rewrite !Z.ltb_lt. unfold target in Ht. destruct next; lia. }
  rewrite !Hx.
  set (op1 := <[Z.to_nat (currentPage w) := 0]> (opacity w)).
  assert (length op1 = length (opacity w)) as Hl1 by apply length_insert.
  assert (exists y, page_at (Wizard target op1 (nextVisible w) (opened w)) target = Some y) as [y Hy].
  { unfold page_at. destruct (Z.ltb_spec target 0); [lia|]. apply lookup_lt_is_Some. simpl. lia. }
  rewrite Hy.
  set (w' := Wizard target _ _ _).
  assert (one_visible w' /\ length (opacity w') = length (opacity w)) as [Hvis Hlen].
  { split; [split; [simpl; lia|]|simpl; rewrite length_insert; lia].
    intros i Hi. simpl in *. rewrite length_insert in Hi.
    destruct (decide (i = Z.to_nat target)) as [->|Hne].
    - rewrite list_lookup_insert_eq by lia. destruct (Z.eqb_spec (Z.of_nat (Z.to_nat target)) target); [done|lia].
    - rewrite list_lookup_insert_ne by done. unfold op1.
      destruct (Z.eqb_spec (Z.of_nat i) target); [lia|].
      destruct (decide (i = Z.to_nat (currentPage w))) as [->|Hne'].
      + rewrite list_lookup_insert_eq by lia. done.
      + rewrite list_lookup_insert_ne by done. rewrite Hv by lia.
        destruct (Z.eqb_spec (Z.of_nat i) (currentPage w)); [lia|done]. }
  assert (one_visible w) as Hw by (by split).
  destruct next; cbn [andb]; [|done].
  destruct (onPageClosed (currentPage w)) as [[]|]; case_bool_decide; done.
Qed.

(** The guard of the switcher does not look at the direction: going back from
    the first page, or forward from the last, of a wizard with several pages hides
    the page, leaves the page index out of range and then throws. *)
Theorem switchPage_past_end onPageClosed onPageOpened (next : bool) (w : wizard) :
  let n := Z.of_nat (length (opacity w)) in
  one_visible w -> 2 <= n ->
  currentPage w = (if next then n - 1 else 0) ->
  onPageClosed (currentPage w) <> Some false ->
  let '(w', err) := switchPage onPageClosed onPageOpened next w in
  err = Some TypeError /\ currentPage w' = (if next then n else -1) /\
  Forall (fun x => x = 0) (opacity w').
Proof.
  intros n [H0 Hv] Hn Hc Hcl.
  assert (exists x, page_at w (currentPage w) = Some x) as [x Hx].
  { unfold page_at. destruct (Z.ltb_spec (currentPage w) 0); [lia|].
    apply lookup_lt_is_Some. unfold n in *. destruct next; lia. }
  unfold switchPage. fold n.
  assert ((0 <? currentPage w) || (currentPage w <? n - 1) = true) as ->.
  { apply orb_true_iff. rewrite !Z.ltb_lt. destruct next; lia. }
  rewrite !Hx. set (target := currentPage w + (if next then 1 else -1)).
  set (op1 := <[Z.to_nat (currentPage w) := 0]> (opacity w)).
  assert (length op1 = length (opacity w)) as Hl1 by apply length_insert.
  assert (page_at (Wizard target op1 (nextVisible w) (opened w)) target = None) as ->.
  { unfold page_at, target. destruct (Z.ltb_spec (currentPage w + (if next then 1 else -1)) 0); [done|].
    apply lookup_ge_None. simpl. unfold n in *. destruct next; lia. }
  assert (Forall (fun x => x = 0) op1) as Hz.
  { apply Forall_lookup. intros i v Hi. unfold op1 in Hi.
    destruct (decide (i = Z.to_nat (currentPage w))) as [->|Hne].
    - rewrite list_lookup_insert_eq in Hi; [congruence|]. unfold n in *. destruct next; lia.
    - rewrite list_lookup_insert_ne in Hi by done.
      pose proof (lookup_lt_Some _ _ _ Hi) as Hlt. rewrite Hv in Hi by done.
      destruct (Z.eqb_spec (Z.of_nat i) (currentPage w)); [lia|congruence]. }
  assert (target = if next then n else -1) as Ht by (unfold target; destruct next; lia).
  destruct next; [|done].
  destruct (onPageClosed (currentPage w)) as [[]|]; done.
Qed.

(** ** Witnesses *)

Lemma getApproximateBlockchainHeight_exact_witness :
  num_is (getApproximateBlockchainHeight (fun _ => None) (js "2025-06-01") (js "Mainnet")) 3404788.
Proof.
  exact (getApproximateBlockchainHeight_exact (fun _ => None) (js "2025-06-01")
           (js "Mainnet") 1748736000000 eq_refl).
Defined.

Lemma getApproximateBlockchainHeight_invalid_witness :
  num_is (getApproximateBlockchainHeight (fun _ => None) (js "2025-13-01") (js "Testnet")) 0.
Proof. apply getApproximateBlockchainHeight_invalid; reflexivity. Defined.

Lemma estimate_mainnet_monotone_witness :
  estimate Mainnet 1458748657 <= estimate Mainnet 1458748658.
Proof. apply estimate_mainnet_monotone; cbn [moneroBirthTime]; lia. Defined.

Lemma estimate_beyond_chain_witness : 3396403 <= estimate Mainnet 1748736000.
Proof.
  assert (hmny_launch <= 1748736000) as H by (vm_compute; discriminate).
  pose proof (estimate_beyond_chain 1748736000 H) as Hb.
  change hmny_launch with 1747730000 in Hb.
  pose proof (Z.div_pos (1748736000 - 1747730000) 120). lia.
Defined.

Lemma usefulName_spec_witness :
  usefulName (js "/home/monkey/HashmonkeyCoin/wallets/" ++ js "main.keys") = js "main".
Proof.
  refine (proj1 (usefulName_spec (js "/home/monkey/HashmonkeyCoin/wallets") (js "main.keys")
                   (chr "/") _ _ _ _) (js "main") eq_refl).
  - vm_compute. discriminate.
  - by_decide.
  - reflexivity.
  - by_decide.
Defined.

Definition demo_seed_tail : list (jsstring * jsstring) := replicate 24 (js " ", js "abbey").

Lemma checkSeed_counts_words_witness :
  checkSeed (js "abbey" ++ spaced demo_seed_tail) = true.
Proof.
  apply checkSeed_counts_words.
  - split; [discriminate|by_decide].
  - apply Forall_replicate. split; (split; [discriminate|by_decide]).
  - right. reflexivity.
Defined.

Definition demo_wizard (i : Z) : wizard :=
  Wizard i ((fun k => if Z.of_nat k =? i then 1 else 0) <$> seq 0 4) false [].

Lemma demo_wizard_visible i : 0 <= i -> one_visible (demo_wizard i).
Proof.
  intros Hi. split; [done|]. intros k Hk. simpl in Hk.
  do 4 (destruct k as [|k]; [done|]). lia.
Qed.

Lemma switchPage_in_range_witness :
  let '(w', err) := switchPage (fun _ => Some true) (fun _ => true) true (demo_wizard 1) in
  err = None /\ currentPage w' = 2.
Proof.
  pose proof (switchPage_in_range (fun _ => Some true) (fun _ => true) true (demo_wizard 1)
                (demo_wizard_visible 1 ltac:(lia)) ltac:(simpl; lia) ltac:(simpl; lia)) as H.
  destruct (switchPage _ _ _ _) as [w' err]. destruct H as (H1 & _ & _ & H2). split; [exact H1|exact H2].
Defined.

Lemma switchPage_past_end_witness :
  let '(w', err) := switchPage (fun _ => None) (fun _ => true) false (demo_wizard 0) in
  err = Some TypeError /\ currentPage w' = -1.
Proof.
  pose proof (switchPage_past_end (fun _ => None) (fun _ => true) false (demo_wizard 0)
                (demo_wizard_visible 0 ltac:(lia)) ltac:(simpl; lia) eq_refl
                ltac:(discriminate)) as H.
  destruct (switchPage _ _ _ _) as [w' err]. destruct H as (H1 & H2 & _). split; [exact H1|exact H2].
Defined.
