(* ===== verification/PasswordDialog.v ===== *)
(** * The password dialog: hashmonkey-gui/components/PasswordDialog.qml

    The dialog with what it changes in the window around it: the panels and the wizard, which
    it disables, the title bar, and the balance, which it hides. An item of QML that is not
    visible gets no input, so its buttons and keys are used only while it is; who uses
    it says so. A signal is the result of the function that emits it last. *)

From S2P Require Import Prelude JsString.

(** The text fields, the label of the error and the mode *)
Record dialog := Dialog {
  visible : bool;
  password : jsstring;
  confirmation : jsstring;
  walletName : jsstring;
  errorLabel : jsstring;
  passwordDialogMode : bool;
  passphraseDialogMode : bool;
  newPasswordDialogMode : bool }.

(** The panels and the wizard are enabled and disabled together. [in_wizard] is the state of the
    root item, and [hideBalance] the user's setting. *)
Record window := Window {
  passwordDialog : dialog;
  panels_enabled : bool;
  in_wizard : bool;
  titleBar_state : jsstring;
  hideBalanceForced : bool;
  hideBalance : bool;
  balance_shown : bool }.

(** [updateBalance] of main.qml with a wallet open *)
Definition updateBalance (w : window) : window :=
  Window (passwordDialog w) (panels_enabled w) (in_wizard w) (titleBar_state w) (hideBalanceForced w) (hideBalance w)
    (negb (hideBalanceForced w) && negb (hideBalance w)).

Definition with_dialog (w : window) (d : dialog) : window :=
  Window d (panels_enabled w) (in_wizard w) (titleBar_state w) (hideBalanceForced w) (hideBalance w) (balance_shown w).
Definition with_mode (w : window) (pw passphrase new_pw : bool) : window :=
  let d := passwordDialog w in
  with_dialog w (Dialog (visible d) (password d) (confirmation d) (walletName d) (errorLabel d) pw passphrase new_pw).
Definition type_password (w : window) (p : jsstring) : window :=
  let d := passwordDialog w in
  with_dialog w (Dialog (visible d) p (confirmation d) (walletName d) (errorLabel d)
    (passwordDialogMode d) (passphraseDialogMode d) (newPasswordDialogMode d)).
Definition type_confirmation (w : window) (p : jsstring) : window :=
  let d := passwordDialog w in
  with_dialog w (Dialog (visible d) (password d) p (walletName d) (errorLabel d)
    (passwordDialogMode d) (passphraseDialogMode d) (newPasswordDialogMode d)).

(** ** Opening and closing *)

Definition openInit (name errorText : jsstring) (w : window) : window :=
  let d := passwordDialog w in
  updateBalance
    (Window (Dialog true [] [] name errorText (passwordDialogMode d) (passphraseDialogMode d) (newPasswordDialogMode d))
       false (in_wizard w) (js "essentials") true (hideBalance w) (balance_shown w)).

Definition open (name errorText : jsstring) (w : window) : window := openInit name errorText (with_mode w true false false).
Definition openPassphraseDialog (w : window) : window := openInit [] [] (with_mode w false true false).
Definition openNewPasswordDialog (w : window) : window := openInit [] [] (with_mode w false false true).
Definition showError (errorText : jsstring) (w : window) : window := open (walletName (passwordDialog w)) errorText w.

Definition close (w : window) : window :=
  let d := passwordDialog w in
  updateBalance
    (Window (Dialog false (password d) (confirmation d) (walletName d) (errorLabel d)
               (passwordDialogMode d) (passphraseDialogMode d) (newPasswordDialogMode d))
       true (in_wizard w) (if in_wizard w then js "essentials" else js "default") false (hideBalance w) (balance_shown w)).

(** ** The buttons *)

Inductive signal := accepted | acceptedNewPassword | acceptedPassphrase | rejected | rejectedNewPassword | rejectedPassphrase.

Definition onOk (w : window) : window * option signal :=
  let d := passwordDialog w in
  if negb (passwordDialogMode d) && negb (bool_decide (password d = confirmation d)) then (w, None)
  else
    (close w,
     if passwordDialogMode d then Some accepted
     else if newPasswordDialogMode d then Some acceptedNewPassword
     else if passphraseDialogMode d then Some acceptedPassphrase else None).

Definition onCancel (w : window) : window * option signal :=
  let d := passwordDialog w in
  (close w,
   if passwordDialogMode d then Some rejected
   else if newPasswordDialogMode d then Some rejectedNewPassword
   else if passphraseDialogMode d then Some rejectedPassphrase else None).

(** ** Facts *)

(** While the dialog is visible nothing else can be used and the balance is hidden, and only then. *)
Definition screened (w : window) : Prop :=
  let v := visible (passwordDialog w) in
  panels_enabled w = negb v /\ hideBalanceForced w = v /\ balance_shown w = negb v && negb (hideBalance w).

Lemma open_screened name err w : screened (open name err w).
Proof. by repeat split. Qed.
Lemma new_password_screened w : screened (openNewPasswordDialog w).
Proof. by repeat split. Qed.
Lemma close_screened w : screened (close w).
Proof. by repeat split. Qed.
Lemma type_screened w p : screened w -> screened (type_password w p) /\ screened (type_confirmation w p).
Proof. done. Qed.
Lemma ok_screened w : screened w -> screened (onOk w).1.
Proof. intros Hw. unfold onOk. destruct (_ && _); [done|apply close_screened]. Qed.

(** Opening the dialog forgets what was typed before, and it shows the error. *)
Lemma open_fresh name err w : let d := passwordDialog (open name err w) in
  visible d = true /\ password d = [] /\ passwordDialogMode d = true /\ errorLabel d = err.
Proof. done. Qed.
