(* ===== verification/Utils.v ===== *)
(** * General helpers of the wallet GUI: hashmonkey-gui/js/Utils.js and Windows.js

    Formatting, escaping and parsing of the texts the pages show, the seed page
    dialog, the search of QML object trees and the window decoration switch.
    The QML objects the functions touch are records of the fields they use; the
    clock, [qsTr] and [toLocaleString] are parameters. *)

From Stdlib Require Import QArith Qround.
From S2P Require Import Prelude JsString JsRegex JsNumber Wizard PasswordDialog.
#[local] Open Scope Z_scope.

(** ** Dates *)

Definition date_options : list (string * jsstring) :=
  [("weekday", js "short"); ("year", js "numeric"); ("month", js "long");
   ("day", js "numeric"); ("hour", js "2-digit"); ("minute", js "2-digit");
   ("timeZone", js "UTC"); ("timeZoneName", js "short")]%string.

(** One [forEach] over the keys of [o], assigning into [r] *)
Definition assign_all (r : gmap string jsstring) (o : list (string * jsstring))
    : gmap string jsstring :=
  fold_left (fun r kv => <[kv.1 := kv.2]> r) o r.

Definition merged_options (params : list (string * jsstring)) : gmap string jsstring :=
  fold_left assign_all [date_options; params] ∅.

Definition formatDate {Date} (toLocaleString : Date -> gmap string jsstring -> jsstring)
    (date : Date) (params : list (string * jsstring)) : jsstring :=
  toLocaleString date (merged_options params).

Definition isNumeric (n : jsstring) : bool := negb (isNaN (parseFloat n)) && isFinite (to_number n).

(** ** The seed page dialog *)

(** The functions that the main window calls when the dialog is accepted or rejected *)
Inductive accepted_callback := seedPage_accepted | changePassword_accepted.
Inductive rejected_callback := seedPage_rejected.

(** What the functions below read and change: the window with the password dialog, the callbacks,
    the wallet's password and seed language, the page shown and the item selected in the left
    panel, and the popup with a text, which may have a function to call when it is accepted. *)
Record gui := Gui {
  win : window;
  onAcceptedCallback : option accepted_callback;
  onRejectedCallback : option rejected_callback;
  walletPassword : jsstring;
  seedLanguage : jsstring;
  middleState : jsstring;
  selectedItem : jsstring;
  popup : option jsstring;
  popup_reopens_dialog : bool }.

Section SeedPage.
Context (qsTr : jsstring -> jsstring).
(** The wallet's own change of the password; an error has a text. *)
Context (setPassword : jsstring -> option jsstring).

Definition with_win (g : gui) (w : window) : gui :=
  Gui w (onAcceptedCallback g) (onRejectedCallback g) (walletPassword g) (seedLanguage g) (middleState g) (selectedItem g)
    (popup g) (popup_reopens_dialog g).
Definition with_callbacks (g : gui) (a : accepted_callback) (r : option rejected_callback) : gui :=
  Gui (win g) (Some a) r (walletPassword g) (seedLanguage g) (middleState g) (selectedItem g) (popup g) (popup_reopens_dialog g).
Definition with_popup (g : gui) (text : option jsstring) (reopens : bool) : gui :=
  Gui (win g) (onAcceptedCallback g) (onRejectedCallback g) (walletPassword g) (seedLanguage g) (middleState g) (selectedItem g) text reopens.

(** The left panel has no button for other pages: the one that was checked stays checked. *)
Definition left_items : list jsstring :=
  [js "History"; js "Transfer"; js "Receive"; js "AddressBook"; js "Settings"; js "Advanced"; js "Account"].
Definition selectItem (pos : jsstring) (g : gui) : gui :=
  Gui (win g) (onAcceptedCallback g) (onRejectedCallback g) (walletPassword g) (seedLanguage g) (middleState g)
    (if bool_decide (pos ∈ left_items) then pos else selectedItem g) (popup g) (popup_reopens_dialog g).
Definition showPageRequest (page : jsstring) (g : gui) : gui :=
  selectItem page
    (Gui (win g) (onAcceptedCallback g) (onRejectedCallback g) (walletPassword g) (seedLanguage g) page (selectedItem g)
       (popup g) (popup_reopens_dialog g)).
Definition setSeedLanguage (lang : jsstring) (g : gui) : gui :=
  Gui (win g) (onAcceptedCallback g) (onRejectedCallback g) (walletPassword g) lang (middleState g) (selectedItem g)
    (popup g) (popup_reopens_dialog g).

Definition dialog_password (g : gui) : jsstring := password (passwordDialog (win g)).

Definition seedPage_onAccepted (g : gui) : gui :=
  if str_eqb (walletPassword g) (dialog_password g) then
    let g := if str_eqb (seedLanguage g) [] then setSeedLanguage (js "English") g else g in
    showPageRequest (js "Keys") g
  else with_win g (showError (qsTr (js "Wrong password")) (win g)).
Definition seedPage_onRejected (g : gui) : gui := selectItem (middleState g) g.

Definition showSeedPage (g : gui) : gui :=
  let g := with_callbacks g seedPage_accepted (Some seedPage_rejected) in
  with_win g (updateBalance (open [] [] (win g))).

(** The other item of the settings that asks for the password: it is asked for, then a new one *)
Definition changePassword_onAccepted (g : gui) : gui :=
  if str_eqb (walletPassword g) (dialog_password g) then with_win g (openNewPasswordDialog (win g))
  else with_popup g (Some (qsTr (js "Wrong password"))) true.
Definition changePassword (g : gui) : gui :=
  let g := with_callbacks g changePassword_accepted None in with_win g (open [] [] (win g)).
Definition changePassword_new (g : gui) : gui :=
  match setPassword (dialog_password g) with
  | None =>
      with_popup (Gui (win g) (onAcceptedCallback g) (onRejectedCallback g) (dialog_password g) (seedLanguage g) (middleState g)
                    (selectedItem g) (popup g) (popup_reopens_dialog g))
        (Some (qsTr (js "Password changed successfully"))) false
  | Some err => with_popup g (Some (qsTr (js "Error: ") ++ err)) false
  end.

(** The main window's handlers of the signals of the dialog *)
Definition on_signal (s : option signal) (g : gui) : gui :=
  match s with
  | Some accepted =>
      match onAcceptedCallback g with
      | Some seedPage_accepted => seedPage_onAccepted g
      | Some changePassword_accepted => changePassword_onAccepted g
      | None => g
      end
  | Some rejected => match onRejectedCallback g with Some seedPage_rejected => seedPage_onRejected g | None => g end
  | Some acceptedNewPassword => changePassword_new g
  | _ => g
  end.

(** What the user can do with these parts: the items of the settings can be clicked while the panels
    are enabled, the dialog and the popup be used while they are visible. *)
Inductive seed_event :=
  | Show_seed | Change_password
  | Type_password (p : jsstring) | Type_confirmation (p : jsstring) | Ok | Cancel
  | Popup_ok | Popup_close.

Definition seed_step (g : gui) (e : seed_event) : gui :=
  let v := visible (passwordDialog (win g)) in
  match e with
  | Show_seed => if panels_enabled (win g) then showSeedPage g else g
  | Change_password => if panels_enabled (win g) then changePassword g else g
  | Type_password p => if v then with_win g (type_password (win g) p) else g
  | Type_confirmation p => if v && negb (passwordDialogMode (passwordDialog (win g))) then with_win g (type_confirmation (win g) p) else g
  | Ok => if v then let '(w, s) := onOk (win g) in on_signal s (with_win g w) else g
  | Cancel => if v then let '(w, s) := onCancel (win g) in on_signal s (with_win g w) else g
  | Popup_ok =>
      match popup g with
      | None => g
      | Some _ =>
          let g := with_popup g None (popup_reopens_dialog g) in
          if popup_reopens_dialog g then with_win g (open [] [] (win g)) else g
      end
  | Popup_close => with_popup g None (popup_reopens_dialog g)
  end.
End SeedPage.

(** ** Times and networks *)

(** The translated text with its plural count *)
Inductive ago_text := Seconds (n : num) | Minutes (n : num) | Hours (n : num) | Days (n : num).

(** [now_ms] is [new Date().getTime()]. *)
Definition ago (now_ms : Z) (epoch : num) : ago_text :=
  let now := num_div_lit (num_of_Z now_ms) 1000 in
  let delta := math_max (num_sub now epoch) (num_of_Z 0) in
  if num_lt delta (num_of_Z 60) then Seconds (math_floor delta)
  else if num_lt delta (num_of_Z 3600) then Minutes (math_floor (num_div_lit delta 60))
  else if num_lt delta (num_of_Z 86400) then Hours (math_floor (num_div_lit delta 3600))
  else Days (math_floor (num_div_lit delta 86400)).

Definition netTypeToString (qsTr : jsstring -> jsstring) (nettype : Z) : jsstring :=
  if nettype =? 1 then qsTr (js "Testnet")
  else if nettype =? 2 then qsTr (js "Stagenet") else qsTr (js "Mainnet").

Definition epoch (now_ms : Z) : num := math_floor (num_div_lit (num_of_Z now_ms) 1000).

Definition roundDownToNearestThousand (_num : num) : num :=
  num_mul_lit (math_floor (num_div_lit _num 1000)) 1000.

(** ** QML object trees *)

(** An object: an identity, its [objectName], the names of its own properties
    and, when [data] is one of them, its children. *)
Inductive qml := Qml (id : Z) (objectName : string) (props : list string) (data : list qml).

Definition qml_props (q : qml) : list string := let 'Qml _ _ ps _ := q in ps.
Definition qml_name (q : qml) : string := let 'Qml _ n _ _ := q in n.
Definition hasOwnProperty (q : qml) (p : string) : bool := bool_decide (p ∈ qml_props q).

(** The last loop: push once per property, stop at the first one missing. *)
Fixpoint push_matches (item : qml) (properties : list string) (arr : list qml) : list qml :=
  match properties with
  | [] => arr
  | p :: ps => if hasOwnProperty item p then push_matches item ps (arr ++ [item]) else arr
  end.

Definition is_ignored (item : qml) (ignored : list string) : bool :=
  existsb (fun n => bool_decide (qml_name item = n)) ignored.

Fixpoint qmlEach (properties ignoredObjectNames : list string) (item : qml) (arr : list qml)
    : list qml :=
  let 'Qml _ _ props data := item in
  let arr :=
    if bool_decide ("data"%string ∈ props)
    then (fix each (l : list qml) (arr : list qml) : list qml :=
            match l with
            | [] => arr
            | c :: l' => each l' (qmlEach properties ignoredObjectNames c arr)
            end) data arr
    else arr in
  if is_ignored item ignoredObjectNames then arr
  else push_matches item properties arr.

(** ** Texts *)

(** [None] is a value that is not a string; [upper] is [toUpperCase] of one
    character outside ASCII. *)
Definition capitalize (upper : Z -> jsstring) (s : option jsstring) : jsstring :=
  match s with
  | None => []
  | Some s =>
      match charAt0 s with
      | [c] => if is_lower c then [c - 32] else if c <=? 127 then [c] else upper c
      | _ => []
      end ++ slice1 s
  end.

(** /(\.\d*?)0+$/ and /\.$/ *)
Definition re_zeros : regex :=
  RGroup (RLit (chr ".") ⋅ RQuant false 0 None (RChr is_digit)) ⋅ RLit (chr "0") ⁺ ⋅ REol.
Definition re_dot : regex := RLit (chr ".") ⋅ REol.

Definition removeTrailingZeros (value : jsstring) : jsstring :=
  replace re_dot (fun _ => []) (replace re_zeros (default []) value).

Definition parseDateStringOrRestoreHeightAsInteger (qsTr : jsstring -> jsstring)
    (legacy_date : jsstring -> option Z) (nettype : Z) (value : jsstring) : num :=
  if (indexOf (js "-") value =? 4) && (str_length value =? 10) then
    getApproximateBlockchainHeight legacy_date value (netTypeToString qsTr nettype)
  else if num_le (num_of_Z 2014) (parseInt (substring value 0 4))
       && num_le (parseInt (substring value 0 4)) (num_of_Z 2025)
       && (str_length value =? 8) then
    let hyphenated :=
      substring value 0 4 ++ js "-" ++ substring value 4 6 ++ js "-" ++ substring value 6 8 in
    getApproximateBlockchainHeight legacy_date hyphenated (netTypeToString qsTr nettype)
  else parseInt value.

(** [None] is null or undefined. *)
Definition htmlEscape (s : option jsstring) : jsstring :=
  match s with
  | None => []
  | Some s =>
      replace_g (RLit 34) (js "&quot;")
        (replace_g (RLit (chr ">")) (js "&gt;")
          (replace_g (RLit (chr "<")) (js "&lt;")
            (replace_g (RLit (chr "&")) (js "&amp;") s)))
  end.

(** ** Window decorations (Windows.js) *)

Inductive window_flag :=
| FramelessWindowHint | CustomizeWindowHint | WindowSystemMenuHint | Window
| WindowMinimizeButtonHint | WindowCloseButtonHint | WindowTitleHint
| WindowMaximizeButtonHint | WindowFullscreenButtonHint.

Record app_window := AppWindow {
  win_x : Z; win_y : Z;
  win_flags : list window_flag;
  win_shown : bool;
  titleBar_visible : bool;
  customDecorations : bool }.

Definition flagsCustomDecorationsBase : list window_flag :=
  [FramelessWindowHint; CustomizeWindowHint; WindowSystemMenuHint; Window].
Definition flagsCustomDecorations (isWindows : bool) : list window_flag :=
  if isWindows then flagsCustomDecorationsBase ++ [WindowMinimizeButtonHint]
  else flagsCustomDecorationsBase.
Definition flags : list window_flag :=
  [WindowSystemMenuHint; Window; WindowMinimizeButtonHint; WindowCloseButtonHint;
   WindowTitleHint; WindowMaximizeButtonHint; WindowFullscreenButtonHint].

Definition setCustomWindowDecorations (isWindows custom : bool) (w : app_window) : app_window :=
  {| win_x := if win_x w <? 0 then 0 else win_x w;
     win_y := if win_y w <? 0 then 0 else win_y w;
     win_flags := if custom then flagsCustomDecorations isWindows else flags;
     win_shown := true;
     titleBar_visible := custom;
     customDecorations := custom |}.

Example zeros_demo :
  removeTrailingZeros <$> [js "0.500000"; js "1.000"; js "100"; js "7."; js "1.0203"]
  = [js "0.5"; js "1"; js "100"; js "7"; js "1.0203"].
Proof. vm_compute. reflexivity. Qed.

(** ** HTML escaping *)

Definition esc_char (c : Z) : jsstring :=
  if c =? 38 then js "&amp;" else if c =? 60 then js "&lt;"
  else if c =? 62 then js "&gt;" else if c =? 34 then js "&quot;" else [c].

Lemma subst_chr_app p lit s t : subst_chr p lit (s ++ t) = subst_chr p lit s ++ subst_chr p lit t.
Proof. unfold subst_chr. by rewrite fmap_app, concat_app. Qed.

(** The four passes of [htmlEscape] are one pass character by character: what a
    pass inserts is left alone by the later ones. *)
Lemma htmlEscape_chars s : htmlEscape (Some s) = concat (esc_char <$> s).
Proof.
  unfold htmlEscape, RLit. rewrite !replace_g_chr.
  induction s as [|c s IH]; [done|].
  rewrite fmap_cons. cbn [concat]. rewrite <- IH.
  change (c :: s) with ([c] ++ s). rewrite !subst_chr_app. f_equal.
  unfold subst_chr at 4. cbn [fmap list_fmap concat]. unfold esc_char.
  change (chr "&") with 38. change (chr "<") with 60. change (chr ">") with 62.
  rewrite (Z.eqb_sym 38 c).
  destruct (Z.eqb_spec c 38); [by vm_compute|].
  unfold subst_chr at 3. cbn [app fmap list_fmap concat]. rewrite (Z.eqb_sym 60 c).
  destruct (Z.eqb_spec c 60); [by vm_compute|].
  unfold subst_chr at 2. cbn [app fmap list_fmap concat]. rewrite (Z.eqb_sym 62 c).
  destruct (Z.eqb_spec c 62); [by vm_compute|].
  unfold subst_chr. cbn [app fmap list_fmap concat]. rewrite (Z.eqb_sym 34 c).
  by destruct (Z.eqb_spec c 34).
Qed.

(** What a rich-text renderer makes of the text: each entity is one character. *)
Fixpoint html_unescape (s : jsstring) : jsstring :=
  match s with
  | 38 :: 97 :: 109 :: 112 :: 59 :: t => 38 :: html_unescape t
  | 38 :: 108 :: 116 :: 59 :: t => 60 :: html_unescape t
  | 38 :: 103 :: 116 :: 59 :: t => 62 :: html_unescape t
  | 38 :: 113 :: 117 :: 111 :: 116 :: 59 :: t => 34 :: html_unescape t
  | c :: t => c :: html_unescape t
  | [] => []
  end.

(** The characters that open or close markup *)
Definition is_markup (c : Z) : bool := (c =? 60) || (c =? 62) || (c =? 34).

Lemma html_unescape_esc c t : html_unescape (esc_char c ++ t) = c :: html_unescape t.
Proof.
  unfold esc_char.
  destruct (Z.eqb_spec c 38) as [->|]; [done|]. destruct (Z.eqb_spec c 60) as [->|]; [done|].
  destruct (Z.eqb_spec c 62) as [->|]; [done|]. destruct (Z.eqb_spec c 34) as [->|]; [done|].
  cbn [app html_unescape]. destruct c as [|p|]; [done| |done].
  repeat (destruct p as [p|p|]; try done).
Qed.

(** The escaped text has no character that opens or closes a tag or an
    attribute, and reading the entities back gives the original text, whatever
    it is: in particular one that already contains entities. *)
Theorem htmlEscape_safe (s : jsstring) :
  Forall (fun c => is_markup c = false) (htmlEscape (Some s)) /\
  html_unescape (htmlEscape (Some s)) = s.
Proof.
  rewrite htmlEscape_chars. induction s as [|c s [IH1 IH2]]; [split; [constructor|done]|].
  cbn [fmap list_fmap concat]. split.
  - apply Forall_app. split; [|done]. unfold esc_char.
    destruct (Z.eqb_spec c 38); [by apply Forall_forall; vm_compute; set_solver|].
    repeat (case_match; [by repeat constructor|]).
    repeat constructor. unfold is_markup. lia.
  - by rewrite html_unescape_esc, IH2.
Qed.

(** ** Trailing zeros *)

Lemma forth_none {A} (f : nat -> option A) n :
  (forall i, (i <= n)%nat -> f i = None) -> forth f n = None.
Proof.
  revert f. induction n as [|n IH]; intros f H; simpl; rewrite H by lia; [done|].
  apply IH. intros i Hi. apply H. lia.
Qed.

Lemma forth_first {A} (f : nat -> option A) n j z :
  (j <= n)%nat -> f j = Some z -> (forall i, (i < j)%nat -> f i = None) -> forth f n = Some z.
Proof.
  revert f j. induction n as [|n IH]; intros f j Hj Hz Hn.
  - replace j with O in * by lia. simpl. by rewrite Hz.
  - destruct j as [|j]; simpl; [by rewrite Hz|]. rewrite (Hn O) by lia.
    apply (IH _ j); [lia|done|]. intros i Hi. apply Hn. lia.
Qed.

(** The zeros at the end: the rest of the pattern after the group *)
Lemma m_zeros_end i t c :
  m (RLit (chr "0") ⁺) (m REol Some) (St i t c) =
  if bool_decide (t <> [] /\ Forall (eq 48) t) then Some (St (i + length t) [] c) else None.
Proof.
  unfold RLit. change (chr "0") with 48. rewrite m_plus by done.
  destruct t as [|d t]; [done|]. destruct (Z.eqb_spec 48 d) as [<-|Hd].
  2: { rewrite bool_decide_eq_false_2; [done|]. intros [_ H]. by inversion H. }
  cbn [fmap option_fmap option_map cut].
  destruct (decide (Forall (eq 48) t)) as [Hz|Hz].
  - rewrite bool_decide_eq_true_2 by (split; [done|by constructor]).
    apply backoff_hit. rewrite span_all by (eapply Forall_impl; [exact Hz|intros ? <-; done]).
    cbn [m]. rewrite drop_all. simpl. f_equal. f_equal. lia.
  - rewrite bool_decide_eq_false_2 by (intros [_ H]; by inversion H).
    assert (span (Z.eqb 48) t < length t)%nat as Hs.
    { clear -Hz. induction t as [|d t IH]; [by destruct Hz|]. cbn [span length].
      destruct (Z.eqb_spec 48 d) as [<-|]; [|lia].
      apply -> Nat.succ_lt_mono. apply IH. intros H. apply Hz. by constructor. }
    enough (forall n, (n < length t)%nat ->
      backoff (fun j => m REol Some (St (S i + j) (drop j t) c)) n = None) as H by (by apply H).
    assert (forall j, (j < length t)%nat -> m REol Some (St (S i + j) (drop j t) c) = None) as Hj.
    { intros j Hj. cbn [m rest]. destruct (drop j t) eqn:E; [|done].
      apply (f_equal length) in E. rewrite length_drop in E. simpl in E. lia. }
    induction n as [|n IH]; intros Hn; cbn [backoff]; rewrite Hj by lia; [done|].
    apply IH. lia.
Qed.

Lemma re_zeros_at i t :
  all_digits t ->
  m re_zeros Some (St i (chr "." :: t) None) =
  forth (fun n => if bool_decide (drop n t <> [] /\ Forall (eq 48) (drop n t))
                  then Some (St (S i + length t) [] (Some (chr "." :: take n t))) else None)
        (length t).
Proof.
  intros Ha. unfold re_zeros. 
  change (chr ".") with 46.
  change (m (RGroup (RLit 46 ⋅ RQuant false 0 None (RChr is_digit)) ⋅ RLit (chr "0") ⁺ ⋅ REol) Some
            (St i (46 :: t) None))
    with (m (RQuant false 0 None (RChr is_digit))
            (fun s' => m (RLit (chr "0") ⁺) (m REol Some)
               (St (pos s') (rest s') (Some (take (pos s' - i) (46 :: t))))) (St (S i) t None)).
  rewrite m_star_lazy. rewrite span_all by done. apply forth_ext. intros n Hn.
  cbn [pos rest]. rewrite m_zeros_end. rewrite length_drop.
  replace (S i + n - i)%nat with (S n) by lia. cbn [take].
  case_bool_decide; [|done]. do 2 f_equal. lia.
Qed.

Lemma exec_at_skip r i ip t :
  (forall j c u, c <> chr "." -> m r Some (St j (c :: u) None) = None) ->
  chr "." ∉ ip -> exec_at r i (ip ++ t) = exec_at r (i + length ip) t.
Proof.
  intros Hr. revert i. induction ip as [|c ip IH]; intros i Hn; [by rewrite Nat.add_0_r|].
  rewrite not_elem_of_cons in Hn. cbn [app exec_at]. rewrite Hr by naive_solver.
  rewrite IH by naive_solver. f_equal. simpl. lia.
Qed.

Lemma re_zeros_dot j c u : c <> chr "." -> m re_zeros Some (St j (c :: u) None) = None.
Proof.
  intros Hc. unfold re_zeros, RLit. cbn [m rest]. by destruct (Z.eqb_spec (chr ".") c).
Qed.
Lemma re_dot_dot j c u : c <> chr "." -> m re_dot Some (St j (c :: u) None) = None.
Proof.
  intros Hc. unfold re_dot, RLit. cbn [m rest]. by destruct (Z.eqb_spec (chr ".") c).
Qed.

Lemma digits_no_dot f : all_digits f -> chr "." ∉ f.
Proof.
  intros Hf Hin. eapply Forall_forall in Hf; [|exact Hin]. by vm_compute in Hf.
Qed.

Lemma exec_at_no_dot r i t :
  (forall j c u, c <> chr "." -> m r Some (St j (c :: u) None) = None) ->
  (forall j, m r Some (St j [] None) = None) ->
  chr "." ∉ t -> exec_at r i t = None.
Proof.
  intros Hr Hn Ht. rewrite <- (app_nil_r t), exec_at_skip by done. simpl. by rewrite Hn.
Qed.

Lemma replace_re_dot ip f :
  chr "." ∉ ip -> all_digits f ->
  replace re_dot (fun _ => []) (ip ++ chr "." :: f) =
  match f with [] => ip | _ => ip ++ chr "." :: f end.
Proof.
  intros Hi Hf. unfold replace. rewrite exec_at_skip by (done || apply re_dot_dot).
  cbn [exec_at]. destruct f as [|d f].
  - unfold re_dot, RLit. cbn [m rest]. rewrite Z.eqb_refl. cbn [rest cap].
    by rewrite take_app_length', app_nil_r by done.
  - assert (m re_dot Some (St (0 + length ip) (chr "." :: d :: f) None) = None) as -> by done.
    by rewrite exec_at_no_dot by (try apply re_dot_dot; try done; by apply digits_no_dot).
Qed.

Lemma replace_re_zeros ip f k :
  chr "." ∉ ip -> all_digits f -> last f <> Some 48 ->
  replace re_zeros (default []) (ip ++ chr "." :: f ++ replicate k 48) = ip ++ chr "." :: f.
Proof.
  intros Hi Hf Hl. unfold replace. rewrite exec_at_skip by (done || apply re_zeros_dot).
  assert (all_digits (f ++ replicate k 48)) as Ha
    by (apply Forall_app; split; [done|by apply Forall_replicate]).
  assert (forall n, (n < length f)%nat ->
    ~ (drop n (f ++ replicate k 48) <> [] /\ Forall (eq 48) (drop n (f ++ replicate k 48)))) as Hno.
  { intros n Hn [_ H]. rewrite drop_app_le in H by lia. apply Forall_app in H as [H _].
    destruct f as [|c f' _] using rev_ind; [simpl in Hn; lia|].
    rewrite last_snoc in Hl. rewrite length_app in Hn. simpl in Hn.
    rewrite drop_app_le in H by lia. apply Forall_app in H as [_ H]. inversion H. congruence. }
  cbn [exec_at]. rewrite re_zeros_at by done. destruct k as [|k].
  - rewrite app_nil_r in *. rewrite forth_none.
    { by rewrite exec_at_no_dot by (try apply re_zeros_dot; try done; by apply digits_no_dot). }
    intros n Hn. rewrite bool_decide_eq_false_2; [done|].
    destruct (decide (n < length f)%nat); [auto|]. rewrite drop_ge by lia. naive_solver.
  - rewrite (forth_first _ _ (length f) (St (S (0 + length ip) + length (f ++ replicate (S k) 48)) []
               (Some (chr "." :: f)))).
    + cbn [cap rest default]. by rewrite take_app_length', app_nil_r by done.
    + rewrite length_app. lia.
    + rewrite drop_app_length, take_app_length. rewrite bool_decide_eq_true_2; [done|].
      split; [done|]. by apply Forall_replicate.
    + intros n Hn. by rewrite bool_decide_eq_false_2 by auto.
Qed.

(** On an amount with a decimal point exactly the zeros at the end of the
    fraction go, and the point with them when nothing is left of the fraction;
    a text without a decimal point is unchanged, so the zeros of an integer stay. *)
Theorem removeTrailingZeros_spec (ip f : jsstring) (k : nat) :
  chr "." ∉ ip -> all_digits f -> last f <> Some 48 ->
  removeTrailingZeros (ip ++ chr "." :: f ++ replicate k 48)
  = match f with [] => ip | _ => ip ++ chr "." :: f end
  /\ removeTrailingZeros ip = ip.
Proof.
  intros Hi Hf Hl. unfold removeTrailingZeros. split.
  - by rewrite replace_re_zeros, replace_re_dot.
  - unfold replace.
    rewrite (exec_at_no_dot re_zeros) by (done || apply re_zeros_dot).
    by rewrite (exec_at_no_dot re_dot) by (done || apply re_dot_dot).
Qed.

(** ** Elapsed time *)

Lemma unit_of_div_unit k s y c t :
  unit_of k s y -> 0 <= s -> 0 <= t -> 0 < c <= 2 ^ t ->
  unit_of (k / c) (s + t) (Qdiv y (inject_Z c)).
Proof.
  intros [H1 H2] Hs Ht Hc. rewrite grid_int in H1 by done.
  pose proof (Z.div_mod k c ltac:(lia)) as E. pose proof (Z.mod_pos_bound k c ltac:(lia)) as B.
  assert (Qlt (inject_Z 0) (inject_Z c)) as Hc0 by (unfold Qlt; simpl; lia).
  pose proof (pow_pos_nonneg s Hs) as Ps. pose proof (pow_pos_nonneg t Ht) as Pt. split.
  - rewrite grid_int by lia. apply Qle_shift_div_l; [exact Hc0|].
    eapply Qle_trans; [|exact H1]. rewrite <- inject_Z_mult. unfold Qle. simpl. lia.
  - apply Qle_shift_div_r; [exact Hc0|]. eapply Qle_trans; [exact H2|].
    unfold grid, Qle, Qmult, inject_Z. simpl. rewrite Pos.mul_1_r.
    rewrite !Z2Pos.id by (apply pow_pos_nonneg; lia). rewrite Z.pow_add_r by lia. nia.
Qed.

Lemma unit_of_lt k s y c : 0 <= s -> unit_of k s y -> safe c -> num_lt (Fin y) (num_of_Z c) = (k <? c).
Proof.
  intros Hs Hu Hc. destruct (num_is_of_Z c Hc) as (q & -> & Hq). cbn [num_lt].
  apply eq_true_iff_eq. rewrite negb_true_iff, Z.ltb_lt, <- not_true_iff_false, Qle_bool_iff, Hq.
  rewrite <- (unit_of_floor k s y) by done. clear.
  pose proof (Qfloor_le y) as H1. pose proof (Qlt_floor y) as H2. split; intros H.
  - apply Z.lt_nge. intros Hc. apply H. eapply Qle_trans; [|exact H1]. unfold Qle. simpl. lia.
  - intros Hc. apply Qfloor_resp_le in Hc. rewrite Qfloor_Z in Hc. lia.
Qed.

(** The elapsed seconds in the unit of their integer part *)
Lemma ago_delta now e :
  0 <= now <= 2 ^ 42 -> 0 <= e <= 2 ^ 32 ->
  let d := Z.max 0 (now / 1000 - e) in
  exists y, math_max (num_sub (num_div_lit (num_of_Z now) 1000) (num_of_Z e)) (num_of_Z 0) = Fin y
            /\ unit_of d 10 y.
Proof.
  intros Hn He d.
  pose proof (Z.div_lt_upper_bound now 1000 (2 ^ 33) ltac:(lia) ltac:(lia)) as Hu.
  pose proof (Z.div_pos now 1000 ltac:(lia) ltac:(lia)) as Hp.
  destruct (num_is_div_unit (num_of_Z now) now 1000 10) as (y & -> & Hy); try lia.
  { apply num_is_of_Z. unfold safe. lia. }
  destruct (num_is_of_Z e) as (q & -> & Hq); [unfold safe; lia|].
  destruct (num_is_of_Z 0) as (z & Ez & Hz); [unfold safe; lia|].
  cbn [num_sub num_neg num_add].
  destruct (unit_of_fround (now / 1000 - e) 10 (Qplus y (Qopp q))) as (w & -> & Hw); try lia.
  { unfold unit_of. rewrite Hq. rewrite <- inject_Z_opp, (Qplus_comm y).
    replace (now / 1000 - e) with (- e + now / 1000) by lia. by apply unit_of_add. }
  rewrite Ez. unfold math_max. rewrite <- Ez.
  rewrite (unit_of_lt (now / 1000 - e) 10 w 0) by (done || unfold safe; lia).
  unfold d. destruct (Z.ltb_spec (now / 1000 - e) 0).
  - rewrite Z.max_l by lia. exists z. split; [done|]. unfold unit_of. rewrite Hz. by apply unit_of_Z.
  - rewrite Z.max_r by lia. eauto.
Qed.

(** The exact text: whole units of the elapsed seconds *)
Definition ago_exact (t : ago_text) (d : Z) : Prop :=
  match t with
  | Seconds n => d < 60 /\ num_is n d
  | Minutes n => 60 <= d < 3600 /\ num_is n (d / 60)
  | Hours n => 3600 <= d < 86400 /\ num_is n (d / 3600)
  | Days n => 86400 <= d /\ num_is n (d / 86400)
  end.

(** For every clock up to the year 2109 and every past or future epoch, the
    unit and the count [ago] shows are the integer ones of the elapsed whole
    seconds (0 when the epoch is in the future), although it computes them from
    milliseconds in floating point with up to four roundings. *)
Theorem ago_spec (now e : Z) :
  0 <= now <= 2 ^ 42 -> 0 <= e <= 2 ^ 32 ->
  ago_exact (ago now (num_of_Z e)) (Z.max 0 (now / 1000 - e)).
Proof.
  intros Hn He. destruct (ago_delta now e Hn He) as (y & Ey & Hu).
  unfold ago. cbv zeta. rewrite Ey.
  pose proof (Z.div_lt_upper_bound now 1000 (2 ^ 33) ltac:(lia) ltac:(lia)) as Hb.
  set (d := Z.max 0 (now / 1000 - e)) in *. assert (0 <= d <= 2 ^ 33) as Hd by lia. clearbody d.
  assert (forall c t, 0 < c <= 2 ^ t -> 0 <= t <= 18 -> d / c < 2 ^ 25 ->
            num_is (math_floor (num_div_lit (Fin y) c)) (d / c)) as Hdiv.
  { intros c t Hc Ht Hs. pose proof (unit_of_div_unit _ _ _ c t Hu ltac:(lia) ltac:(lia) Hc) as Hq.
    pose proof (Z.div_pos d c ltac:(lia) ltac:(lia)).
    assert (2 ^ (10 + t) <= 2 ^ 28) by (apply Z.pow_le_mono_r; lia).
    pose proof (pow_pos_nonneg (10 + t) ltac:(lia)).
    destruct (unit_of_fround (d / c) (10 + t) _ ltac:(lia) ltac:(nia) ltac:(nia) Hq) as (w & Ew & Hw).
    cbn [num_div_lit]. rewrite Ew. cbn [math_floor]. exists (inject_Z (Qfloor w)); split; [done|].
    by rewrite (unit_of_floor (d / c) (10 + t) w) by (done || lia). }
  rewrite !(unit_of_lt d 10 y) by (done || unfold safe; lia).
  destruct (Z.ltb_spec d 60); cbn [ago_exact].
  { split; [done|]. cbn [math_floor]. exists (inject_Z d). by rewrite (unit_of_floor d 10 y). }
  destruct (Z.ltb_spec d 3600); cbn [ago_exact].
  { split; [done|]. apply (Hdiv 60 6); [lia..|]. apply Z.div_lt_upper_bound; lia. }
  destruct (Z.ltb_spec d 86400); cbn [ago_exact]; (split; [done|]).
  - apply (Hdiv 3600 12); [lia..|]. apply Z.div_lt_upper_bound; lia.
  - apply (Hdiv 86400 17); [lia..|]. apply Z.div_lt_upper_bound; lia.
Qed.

(** The floating-point rounding down to a thousand is the integer one. *)
Theorem roundDown_spec (x : num) (n : Z) :
  num_is x n -> 0 <= n <= 2 ^ 52 ->
  num_is (roundDownToNearestThousand x) (n - n mod 1000).
Proof.
  intros Hx Hn. unfold roundDownToNearestThousand. rewrite Z.mod_eq by lia.
  replace (n - (n - 1000 * (n / 1000))) with (n / 1000 * 1000) by lia.
  pose proof (Z.mul_div_le n 1000 ltac:(lia)). pose proof (Z.div_pos n 1000 ltac:(lia) ltac:(lia)).
  apply num_is_mul_lit; [|unfold safe; lia].
  apply (num_is_floor_div _ _ _ 10); lia || done.
Qed.

(** ** The seed page *)

Section SeedPageFacts.
Context (qsTr : jsstring -> jsstring) (setPassword : jsstring -> option jsstring).
Local Notation step := (seed_step qsTr setPassword).

Definition seed_run (g : gui) (es : list seed_event) : gui := fold_left (seed_step qsTr setPassword) es g.

(** What somebody who does not know the password can do *)
Definition guesses_wrong (wp : jsstring) (e : seed_event) : Prop :=
  match e with Type_password p => p <> wp | _ => True end.

(** Nothing is given away, and the dialog, where it is open, asks for the password and has not got it. *)
Definition locked (g0 g : gui) : Prop :=
  middleState g = middleState g0 /\ seedLanguage g = seedLanguage g0 /\ walletPassword g = walletPassword g0 /\
  (visible (passwordDialog (win g)) = true ->
   passwordDialogMode (passwordDialog (win g)) = true /\ dialog_password g <> walletPassword g0).

Lemma locked_step g0 g e : walletPassword g0 <> [] -> locked g0 g -> guesses_wrong (walletPassword g0) e -> locked g0 (step g e).
Proof.
  intros Hne Hl He. pose proof Hl as (M & L & W & D). destruct e; cbn [seed_step].
  - destruct (panels_enabled _); [|done]. by split_and!.
  - destruct (panels_enabled _); [|done]. by split_and!.
  - destruct (visible _) eqn:V; [|done]. split_and!; [done..|]. intros _. split; [exact (proj1 (D eq_refl))|exact He].
  - destruct (visible _) eqn:V; [|done]. rewrite (proj1 (D eq_refl)). exact Hl.
  - destruct (visible _) eqn:V; [|done]. destruct (D eq_refl) as [Dm Dp]. unfold onOk. rewrite Dm. cbn.
    assert (str_eqb (walletPassword g) (dialog_password g) = false) as Hwrong by (apply bool_decide_eq_false_2; by rewrite W).
    destruct (onAcceptedCallback g) as [[]|]; [| |by split_and!].
    + unfold seedPage_onAccepted. change (walletPassword (with_win g _)) with (walletPassword g).
      change (dialog_password (with_win g (close (win g)))) with (dialog_password g). rewrite Hwrong. by split_and!.
    + unfold changePassword_onAccepted. change (walletPassword (with_win g _)) with (walletPassword g).
      change (dialog_password (with_win g (close (win g)))) with (dialog_password g). rewrite Hwrong. by split_and!.
  - destruct (visible _) eqn:V; [|done]. destruct (D eq_refl) as [Dm Dp]. unfold onCancel. rewrite Dm. cbn.
    destruct (onRejectedCallback g) as [[]|]; by split_and!.
  - destruct (popup g); [|done]. cbn. destruct (popup_reopens_dialog g); by split_and!.
  - done.
Qed.

Lemma locked_run g0 es g : walletPassword g0 <> [] -> locked g0 g -> Forall (guesses_wrong (walletPassword g0)) es -> locked g0 (seed_run g es).
Proof. intros Hne Hg Hes. revert g Hg. induction Hes as [|e es He _ IH]; intros g Hg; [done|]. by apply IH, locked_step. Qed.

(** Whatever happens, an open dialog screens the wallet. *)
Lemma screened_step g e : screened (win g) -> screened (win (step g e)).
Proof.
  intros Hg. assert (forall s g, screened (win g) -> screened (win (on_signal qsTr setPassword s g))) as Hsig.
  { clear. intros [[]|] g Hg; cbn; try done.
    - destruct (onAcceptedCallback g) as [[]|]; [| |done].
      + unfold seedPage_onAccepted. destruct (str_eqb _ _); [|apply open_screened]. by destruct (str_eqb _ _).
      + unfold changePassword_onAccepted. destruct (str_eqb _ _); [apply new_password_screened|done].
    - unfold changePassword_new. by destruct (setPassword _).
    - by destruct (onRejectedCallback g) as [[]|]. }
  destruct e; cbn [seed_step].
  - destruct (panels_enabled _); [|done]. by repeat split.
  - destruct (panels_enabled _); [apply open_screened|done].
  - by destruct (visible _).
  - by destruct (visible _), (passwordDialogMode _).
  - destruct (visible _); [|done]. pose proof (ok_screened _ Hg) as Hok. destruct (onOk (win g)) as [w s]. by apply Hsig.
  - destruct (visible _); [|done]. apply Hsig, close_screened.
  - destruct (popup g); [|done]. cbn. destruct (popup_reopens_dialog g); [apply open_screened|done].
  - done.
Qed.
Lemma screened_run g es : screened (win g) -> screened (win (seed_run g es)).
Proof. revert g. induction es as [|e es IH]; intros g Hg; [done|]. by apply IH, screened_step. Qed.

(** Closing whatever dialog is open leaves the password as it is and the panels enabled. *)
Lemma cancel_closes g : screened (win g) -> panels_enabled (win (step g Cancel)) = true
  /\ walletPassword (step g Cancel) = walletPassword g /\ middleState (step g Cancel) = middleState g.
Proof.
  intros (Hp & _). cbn [seed_step]. destruct (visible _); [|done]. unfold onCancel.
  destruct (passwordDialogMode _); [|destruct (newPasswordDialogMode _); [|destruct (passphraseDialogMode _)]]; cbn; try done.
  by destruct (onRejectedCallback g) as [[]|].
Qed.

Lemma seed_accepted g : str_eqb (walletPassword g) (dialog_password g) = true -> middleState (seedPage_onAccepted qsTr g) = js "Keys".
Proof. intros E. unfold seedPage_onAccepted. rewrite E. by destruct (str_eqb (seedLanguage g) []). Qed.
Lemma password_shows g : panels_enabled (win g) = true -> middleState (seed_run g [Show_seed; Type_password (walletPassword g); Ok]) = js "Keys".
Proof. intros Hp. unfold seed_run. cbn [fold_left seed_step]. rewrite Hp. apply seed_accepted. by apply bool_decide_eq_true_2. Qed.
Lemma empty_shows g : panels_enabled (win g) = true -> walletPassword g = [] -> middleState (seed_run g [Show_seed; Ok]) = js "Keys".
Proof. intros Hp He. unfold seed_run. cbn [fold_left seed_step]. rewrite Hp. apply seed_accepted. by apply bool_decide_eq_true_2. Qed.

Lemma wrong_asks_again g p : panels_enabled (win g) = true -> p <> walletPassword g ->
  let g' := seed_run g [Show_seed; Type_password p; Ok] in let d := passwordDialog (win g') in
  middleState g' = middleState g /\ visible d = true /\ password d = [] /\ errorLabel d = qsTr (js "Wrong password").
Proof.
  intros Hp Hne. set (w := type_password (win (showSeedPage g)) p).
  set (g1 := with_win (with_win (showSeedPage g) w) (close w)).
  assert (seed_run g [Show_seed; Type_password p; Ok] = seedPage_onAccepted qsTr g1) as ->
    by (unfold seed_run; cbn [fold_left seed_step]; by rewrite Hp).
  unfold seedPage_onAccepted, str_eqb. rewrite bool_decide_eq_false_2; [done|]. cbn. congruence.
Qed.

End SeedPageFacts.

(** ** QML object trees *)

(** The objects the search visits, in its order: children first, and only
    through objects that own [data]. *)
Fixpoint qml_nodes (q : qml) : list qml :=
  let 'Qml _ _ props data := q in
  (if bool_decide ("data"%string ∈ props)
   then (fix each (l : list qml) : list qml :=
           match l with [] => [] | c :: l' => qml_nodes c ++ each l' end) data
   else []) ++ [q].

(** How many of the properties, from the first on, the object owns *)
Fixpoint owned_prefix (q : qml) (properties : list string) : nat :=
  match properties with
  | [] => O
  | p :: ps => if hasOwnProperty q p then S (owned_prefix q ps) else O
  end.

Definition contribution (properties ignored : list string) (q : qml) : list qml :=
  if is_ignored q ignored then [] else replicate (owned_prefix q properties) q.

Lemma push_matches_spec item ps arr :
  push_matches item ps arr = arr ++ replicate (owned_prefix item ps) item.
Proof.
  revert arr. induction ps as [|p ps IH]; intros arr; simpl; [by rewrite app_nil_r|].
  destruct (hasOwnProperty item p); simpl; [|by rewrite app_nil_r].
  by rewrite IH, <- app_assoc.
Qed.

(** The search appends to the array, in post-order, each visited object that
    is not ignored, once for every property of the longest prefix of
    [properties] it owns: an object that owns the first two is there twice, and
    one that owns only the first is there although it does not match the list. *)
Theorem qmlEach_spec (properties ignored : list string) (item : qml) (arr : list qml) :
  qmlEach properties ignored item arr
  = arr ++ concat (contribution properties ignored <$> qml_nodes item).
Proof.
  revert item arr. fix IH 1. intros [i n props data] arr. cbn [qmlEach qml_nodes].
  rewrite fmap_app, concat_app. cbn [fmap list_fmap concat]. rewrite app_nil_r, app_assoc.
  set (each := fix each (l : list qml) (arr : list qml) : list qml :=
                 match l with [] => arr | c :: l' => each l' (qmlEach properties ignored c arr) end).
  set (each' := fix each (l : list qml) : list qml :=
                 match l with [] => [] | c :: l' => qml_nodes c ++ each l' end).
  assert (forall l a, each l a = a ++ concat (contribution properties ignored <$> each' l)) as H.
  { fix IHl 1. intros [|c l] a; [by rewrite app_nil_r|]. simpl. rewrite IHl, IH.
    by rewrite fmap_app, concat_app, app_assoc. }
  unfold contribution at 2. rewrite push_matches_spec.
  case_bool_decide; [rewrite H|cbn [fmap list_fmap concat]; rewrite (app_nil_r arr)];
    (destruct (is_ignored _ _); [by rewrite app_nil_r|done]).
Qed.

(** ** Restore heights typed by the user *)

Lemma num_is_le x y a b : num_is x a -> num_is y b -> num_le x y = (a <=? b).
Proof.
  intros (p & -> & Hp) (q & -> & Hq). simpl. apply eq_true_iff_eq.
  rewrite Qle_bool_iff, Z.leb_le, Hp, Hq. unfold Qle. simpl. lia.
Qed.

Definition compact (y1 y2 y3 y4 m1 m2 d1 d2 : Z) : jsstring := [y1; y2; y3; y4; m1; m2; d1; d2].
Definition hyphenated (y1 y2 y3 y4 m1 m2 d1 d2 : Z) : jsstring :=
  [y1; y2; y3; y4; chr "-"; m1; m2; chr "-"; d1; d2].

(** Eight digits are a compact date only when the year they start with is one
    of 2014 to 2025: then the height is the one of the hyphenated date. In every
    other year, 2026 and later included, the very same notation is silently read
    as the block height with those eight digits. *)
Theorem parse_compact_date qsTr legacy_date (nettype y1 y2 y3 y4 m1 m2 d1 d2 : Z) :
  all_digits (compact y1 y2 y3 y4 m1 m2 d1 d2) ->
  let v := parseDateStringOrRestoreHeightAsInteger qsTr legacy_date nettype
             (compact y1 y2 y3 y4 m1 m2 d1 d2) in
  if bool_decide (2014 <= dec_value [y1; y2; y3; y4] <= 2025)
  then v = getApproximateBlockchainHeight legacy_date (hyphenated y1 y2 y3 y4 m1 m2 d1 d2)
             (netTypeToString qsTr nettype)
  else num_is v (dec_value (compact y1 y2 y3 y4 m1 m2 d1 d2)).
Proof.
  intros Ha v. assert (all_digits [y1; y2; y3; y4]) as Hy
    by (unfold compact, all_digits in Ha; by repeat (inversion Ha as [|?? ? Ha']; subst; clear Ha; rename Ha' into Ha; constructor; [done|])).
  pose proof (dec_value_lt _ Hy) as Hyl. pose proof (dec_value_nonneg _ Hy) as Hyn.
  pose proof (dec_value_lt _ Ha) as Hvl. pose proof (dec_value_nonneg _ Ha) as Hvn.
  change (10 ^ Z.of_nat (length _)) with 10000 in Hyl.
  change (10 ^ Z.of_nat (length _)) with 100000000 in Hvl.
  unfold v, parseDateStringOrRestoreHeightAsInteger.
  assert (str_length (compact y1 y2 y3 y4 m1 m2 d1 d2) = 8) as -> by done.
  assert (substring (compact y1 y2 y3 y4 m1 m2 d1 d2) 0 4 = [y1; y2; y3; y4]) as -> by done.
  change (8 =? 10) with false. change (8 =? 8) with true. rewrite andb_false_r, andb_true_r.
  rewrite (parseInt_digits [y1; y2; y3; y4]) by done.
  assert (forall z, 0 <= z <= 100000000 -> num_is (num_of_Z z) z) as Hn
    by (intros; apply num_is_of_Z; unfold safe; lia).
  rewrite (num_is_le _ _ 2014 (dec_value [y1; y2; y3; y4])) by (apply Hn; lia).
  rewrite (num_is_le _ _ (dec_value [y1; y2; y3; y4]) 2025) by (apply Hn; lia).
  destruct (Z.leb_spec 2014 (dec_value [y1; y2; y3; y4])),
    (Z.leb_spec (dec_value [y1; y2; y3; y4]) 2025); cbn [andb];
    case_bool_decide; try lia; try done; rewrite parseInt_digits by done; apply Hn; lia.
Qed.

Lemma iso_date_shape s ms : iso_date s = Some ms -> indexOf (js "-") s = 4 /\ str_length s = 10.
Proof.
  intros Hiso.
  destruct s as [|y1 [|y2 [|y3 [|y4 [|h1 [|m1 [|m2 [|h2 [|d1 [|d2 [|]]]]]]]]]]]; try done.
  cbn [iso_date] in Hiso. destruct (forallb _ _) eqn:E; [|done]. cbn [andb] in Hiso.
  destruct (Z.eqb_spec h1 (chr "-")) as [->|]; [|done]. clear Hiso.
  cbn [forallb] in E. rewrite !andb_true_iff, !is_digit_range in E.
  split; [|done]. change (js "-") with [45]. change (chr "-") with 45. cbn [indexOf strip_prefix].
  repeat match goal with |- context [45 =? ?a] =>
    match a with 45 => fail 1 | _ => destruct (Z.eqb_spec 45 a); [lia|] end end.
  by rewrite Z.eqb_refl.
Qed.

(** A hyphenated date from 2018-03-13 on is the estimate for the network the
    translated name stands for. *)
Lemma parse_iso_date qsTr legacy_date (nettype : Z) (value : jsstring) (ms : Z) :
  iso_date value = Some ms -> forkTime OtherNet <= ms / 1000 ->
  num_is (parseDateStringOrRestoreHeightAsInteger qsTr legacy_date nettype value)
         (estimate (net_of_name (netTypeToString qsTr nettype)) (ms / 1000)).
Proof.
  intros Hiso Hr. unfold parseDateStringOrRestoreHeightAsInteger.
  destruct (iso_date_shape value ms Hiso) as [-> ->]. cbn [Z.eqb Pos.eqb andb].
  pose proof (iso_date_bound value ms Hiso) as Hb.
  unfold getApproximateBlockchainHeight, date_ms. rewrite Hiso.
  pose proof (Z.div_lt_upper_bound ms 1000 (2 ^ 40) ltac:(lia) ltac:(lia)) as Hu.
  apply height_at_ok; [|unfold date_seconds; cbn [forkTime] in Hr; lia].
  apply (num_is_floor_div _ _ _ 10); [apply num_is_of_Z; unfold safe; lia|lia| |cbn [forkTime] in Hr; lia|lia].
  change (2 ^ 10) with 1024. lia.
Qed.

Lemma estimate_other_gap r :
  forkTime OtherNet <= r -> estimate OtherNet r = estimate Mainnet r - 1496070.
Proof.
  intros Hr. unfold estimate. cbn [moneroBirthTime forkTime forkBlock] in *.
  pose proof (Z.div_add (r - 1520937818) 518243 120 ltac:(lia)) as Hd.
  replace (r - 1520937818 + 518243 * 120) with (r - 1458748658) in Hd by lia.
  pose proof (Z.div_pos (r - 1520937818) 120 ltac:(lia) ltac:(lia)).
  change (2592000 / 120) with 21600. change (2592000 / 60) with 43200.
  destruct (Z.ltb_spec r 1397818193), (Z.ltb_spec r 1518932025); try lia.
  destruct (Z.ltb_spec r 1458748658), (Z.ltb_spec r 1520937818); try lia.
  rewrite !andb_false_r. change (2592000 / 120) with 21600. cases_cmp; lia.
Qed.

(** ** Numeric texts *)

Example isNumeric_samples :
  map isNumeric [js "12.5"; js " 12 "; js "-.5e-3"; js "0x1F"; js "1e308"; js "5."; js "+7"]
  = repeat true 7 /\
  map isNumeric [js ""; js " "; js "."; js "1e"; js "12px"; js "1e309"; js "Infinity"; js "1,5"; js "--1"]
  = repeat false 9.
Proof. vm_compute. done. Qed.

Lemma span_digits_all w t :
  all_digits w -> (match t with c :: _ => is_digit c = false | [] => True end) ->
  span_digits (w ++ t) = (w, t).
Proof.
  intros Hw Ht. induction Hw as [|c w Hc Hw IH]; simpl.
  - destruct t as [|c t]; [done|]. simpl. by rewrite Ht.
  - by rewrite Hc, IH.
Qed.

Lemma drop_space_digit c s : is_digit c = true -> drop_space (c :: s) = c :: s.
Proof. intros Hc. simpl. by rewrite is_space_digit. Qed.

Lemma scale10_den m n : 0 <= n -> Qeq (scale10 m (0 - n)) (Qmake m (Z.to_pos (10 ^ n))).
Proof.
  intros Hn. unfold scale10. destruct (Z.ltb_spec (0 - n) 0).
  - by replace (- (0 - n)) with n by lia.
  - replace n with 0 by lia. unfold Qeq. simpl. lia.
Qed.

(** The digits of a numeral [w.f] as one fraction in [0, 2 ^ 53] round to a number. *)
Lemma decimal_finite w f :
  all_digits (w ++ f) -> dec_value w < 2 ^ 53 ->
  exists y, fround (scale10 (dec_value (w ++ f)) (0 - Z.of_nat (length f))) = Fin y.
Proof.
  intros Hd Hw. apply Forall_app in Hd as [Hdw Hdf].
  assert (dec_value (w ++ f) = dec_value w * 10 ^ Z.of_nat (length f) + dec_value f) as ->
    by apply dec_value_concat.
  pose proof (dec_value_nonneg w Hdw) as Hw0. pose proof (dec_value_nonneg f Hdf) as Hf0.
  pose proof (dec_value_lt f Hdf) as Hf1.
  assert (0 < 10 ^ Z.of_nat (length f)) as Hp by (apply Z.pow_pos_nonneg; lia).
  set (n := Z.of_nat (length f)) in *.
  destruct (fround_between (scale10 (dec_value w * 10 ^ n + dec_value f) (0 - n)) 0 0 (2 ^ 53))
    as (y & E & _); [lia..| | |by exists y]; rewrite scale10_den by lia; unfold Qle, grid; cbn [Qnum Qden];
    rewrite Z2Pos.id by done; change (Z.to_pos (2 ^ 0)) with 1%positive; nia.
Qed.

(** A numeral that starts with a digit has no sign and is not "Infinity". *)
Lemma str_decimal_digit c s :
  is_digit c = true ->
  str_decimal (c :: s) =
  let '(w, t) := span_digits (c :: s) in
  let '(f, t) :=
    match t with
    | 46 :: t' => match w, span_digits t' with [], ([], _) => ([], t) | _, r => r end
    | _ => ([], t)
    end in
  match w ++ f with
  | [] => None
  | ds =>
      let '(e, t) := take_exponent t in
      Some (fround (scale10 (dec_value ds) (e - Z.of_nat (length f))), t)
  end.
Proof.
  intros Hc. pose proof Hc as Hr. apply is_digit_range in Hr. unfold str_decimal, take_sign.
  destruct (Z.eqb_spec c 45), (Z.eqb_spec c 43); [lia..|].
  replace (strip_prefix (js "Infinity") (c :: s)) with (None : option jsstring); [done|].
  change (js "Infinity") with (73 :: js "nfinity"). cbn [strip_prefix].
  by destruct (Z.eqb_spec 73 c); [lia|].
Qed.

Lemma str_decimal_plain w :
  w <> [] -> all_digits w -> str_decimal w = Some (fround (scale10 (dec_value w) 0), []).
Proof.
  intros Hne Hw. destruct w as [|c w]; [done|]. rewrite str_decimal_digit by (by inversion Hw).
  rewrite <- (app_nil_r (c :: w)) at 1. rewrite span_digits_all by done. simpl. by rewrite app_nil_r.
Qed.

Lemma str_decimal_point w f :
  w <> [] -> all_digits (w ++ f) ->
  str_decimal (w ++ js "." ++ f) = Some (fround (scale10 (dec_value (w ++ f)) (0 - Z.of_nat (length f))), []).
Proof.
  intros Hne Hd. apply Forall_app in Hd as [Hw Hf]. destruct w as [|c w]; [done|].
  change ((c :: w) ++ js "." ++ f) with (c :: (w ++ 46 :: f)).
  rewrite str_decimal_digit by (by inversion Hw). change (c :: (w ++ 46 :: f)) with ((c :: w) ++ 46 :: f).
  rewrite span_digits_all by done. rewrite <- (app_nil_r f) at 1. rewrite span_digits_all by done. done.
Qed.

(** A text that starts with a digit and ends in no space, and is no numeral with a
    base prefix, is numeric when it is a decimal numeral of a finite value. *)
Lemma isNumeric_intro c s y :
  is_digit c = true -> (forall d s', rev (c :: s) = d :: s' -> is_space d = false) ->
  str_prefixed (c :: s) = None -> str_decimal (c :: s) = Some (Fin y, []) -> isNumeric (c :: s) = true.
Proof.
  intros Hc Hl Hp E. unfold isNumeric, parseFloat, to_number. rewrite !drop_space_digit by done.
  assert (drop_space (rev (c :: s)) = rev (c :: s)) as ->.
  { destruct (rev (c :: s)) as [|d s'] eqn:Er; [done|]. simpl. by rewrite (Hl d s'). }
  by rewrite rev_involutive, Hp, E.
Qed.

Lemma rev_last_in (l : jsstring) d l' : rev l = d :: l' -> d ∈ l.
Proof.
  intros E. apply list_elem_of_In, in_rev. rewrite E. by left.
Qed.

Lemma str_prefixed_other c d s : is_digit d = true \/ d = 46 -> str_prefixed (c :: d :: s) = None.
Proof.
  intros Hd. assert (48 <= d <= 57 \/ d = 46) as Hr by (by rewrite <- is_digit_range).
  assert (forall n, 58 <= n -> (d =? n) = false) as Hn by (intros n Hn; apply Z.eqb_neq; lia).
  unfold str_prefixed. rewrite !Hn by lia. by destruct (c =? 48).
Qed.

(** Every amount in plain decimal notation, with or without a fraction, is numeric
    as long as its whole part is below [2 ^ 53]. *)
Theorem isNumeric_amount (w f : jsstring) :
  w <> [] -> all_digits (w ++ f) -> dec_value w < 2 ^ 53 ->
  isNumeric w = true /\ isNumeric (w ++ js "." ++ f) = true.
Proof.
  intros Hne Hd Hv. pose proof Hd as [Hw Hf]%Forall_app.
  destruct (decimal_finite w [] ltac:(by rewrite app_nil_r) Hv) as [y1 E1].
  destruct (decimal_finite w f Hd Hv) as [y2 E2].
  pose proof (str_decimal_plain w Hne Hw) as D1. pose proof (str_decimal_point w f Hne Hd) as D2.
  rewrite app_nil_r in E1. change (0 - Z.of_nat (length [])) with 0 in E1. rewrite E1 in D1. rewrite E2 in D2.
  assert (forall d, d ∈ w ++ js "." ++ f -> is_digit d = true \/ d = 46) as Hin.
  { intros d. rewrite !elem_of_app. intros [H|[H|H]].
    - left. by eapply Forall_forall in Hw.
    - right. by apply list_elem_of_singleton in H.
    - left. by eapply Forall_forall in Hf. }
  assert (forall d, is_digit d = true \/ d = 46 -> is_space d = false) as Hsp
    by (intros d [H| ->]; [by apply is_space_digit|done]).
  destruct w as [|c w]; [done|]. assert (is_digit c = true) as Hc by (by inversion Hw).
  split; eapply isNumeric_intro; try done.
  - intros d s' E. apply Hsp, Hin. apply rev_last_in in E. set_solver.
  - destruct w as [|d w]; [done|]. apply str_prefixed_other, Hin. set_solver.
  - intros d s' E. apply Hsp, Hin. by apply rev_last_in in E.
  - destruct w as [|d w]; apply str_prefixed_other, Hin; set_solver.
Qed.

(** ** Witnesses *)

Lemma removeTrailingZeros_spec_witness : removeTrailingZeros (js "0.500000") = js "0.5".
Proof.
  refine (proj1 (removeTrailingZeros_spec (js "0") (js "5") 5 _ _ _)).
  - by_decide.
  - by repeat constructor.
  - by vm_compute.
Defined.

Lemma ago_spec_witness : ago_exact (ago 1700000059999 (num_of_Z 1700000000)) 59.
Proof. apply (ago_spec 1700000059999 1700000000); lia. Defined.

Lemma roundDown_spec_witness : num_is (roundDownToNearestThousand (num_of_Z 12345)) 12000.
Proof.
  apply (roundDown_spec (num_of_Z 12345) 12345); [apply num_is_of_Z; unfold safe; lia|lia].
Defined.

Definition demo_gui : gui :=
  Gui (PasswordDialog.Window (Dialog false [] [] [] [] false false false) true false (js "default") false false true)
    None None (js "secret") [] (js "Settings") (js "Settings") None false.


Lemma parse_compact_date_witness :
  num_is (parseDateStringOrRestoreHeightAsInteger id (fun _ => None) 0 (js "20260314")) 20260314.
Proof.
  exact (parse_compact_date id (fun _ => None) 0 50 48 50 54 48 51 49 52
           ltac:(by repeat constructor)).
Defined.

Lemma isNumeric_amount_witness : isNumeric (js "12.5") = true.
Proof. refine (proj2 (isNumeric_amount (js "12") (js "5") _ _ _)); [done|by repeat constructor|by vm_compute]. Defined.
