(* ===== verification/Translations.v ===== *)
(** * Translations of the wallet GUI: hashmonkey-gui/translations/*.ts,
    lang/languages.xml, src/TranslationManager.cpp and the language list of
    components/LanguageSidebar.qml

    The context "Utils" of every translation file, which holds the texts that
    js/Utils.js hands to [qsTr], the languages offered to the user and the way one
    is selected. Texts are UTF-8 in the files and UTF-16 in the program. Qt's
    loading of a compiled file and its lookup of a text are an interface with laws. *)

From S2P Require Import Prelude JsString JsNumber Wizard Utils.

(** ** Texts *)

(** UTF-8 to UTF-16; the files are well-formed, so the other bytes are passed on. *)
Fixpoint utf16 (bytes : list Z) : jsstring :=
  match bytes with
  | [] => []
  | b0 :: bs =>
      if b0 <? 128 then b0 :: utf16 bs
      else if b0 <? 224 then
        match bs with
        | b1 :: bs => (b0 - 192) * 64 + (b1 - 128) :: utf16 bs
        | _ => b0 :: utf16 bs
        end
      else if b0 <? 240 then
        match bs with
        | b1 :: b2 :: bs => (b0 - 224) * 4096 + (b1 - 128) * 64 + (b2 - 128) :: utf16 bs
        | _ => b0 :: utf16 bs
        end
      else
        match bs with
        | b1 :: b2 :: b3 :: bs =>
            let c := (b0 - 240) * 262144 + (b1 - 128) * 4096 + (b2 - 128) * 64 + (b3 - 128) - 65536 in
            55296 + c / 1024 :: 56320 + c mod 1024 :: utf16 bs
        | _ => b0 :: utf16 bs
        end
  end.
Definition text (s : string) : jsstring := utf16 (js s).

(** ** Catalogues *)

(** A [message] element; the [translation] has one form, or one [numerusform] for
    each plural form of the language. *)
Record message := Message {
  msg_source : string;
  msg_comment : option string;
  msg_numerus : bool;
  msg_unfinished : bool;
  msg_forms : list string }.
#[global] Instance message_eq_dec : EqDecision message.
Proof. solve_decision. Defined.
Abbreviation catalogue := (list message).

Definition cat_af : catalogue :=
  [Message "Wrong password" None false false ["Verkeerde wagwoord"];
   Message "%n second(s) ago" (Some "0") true false ["%n sekonde gelede"; "%n sekondes gelede"];
   Message "%n minute(s) ago" (Some "0") true false ["%n minuut gelede"; "%n minute gelede"];
   Message "%n hour(s) ago" (Some "0") true false ["%n uur gelede"; "%n ure gelede"];
   Message "%n day(s) ago" (Some "0") true false ["%n dag gelede"; "%n dae gelede"];
   Message "Testnet" None false false ["Toetsnet"];
   Message "Stagenet" None false false ["Proefnet"];
   Message "Mainnet" None false false ["Hoofnet"]]%string.

Definition cat_ar : catalogue :=
  [Message "Wrong password" None false false ["كلمه السر خاطئه"];
   Message "%n second(s) ago" (Some "0") true true [""; ""; ""; ""; ""; ""];
   Message "%n minute(s) ago" (Some "0") true true [""; ""; ""; ""; ""; ""];
   Message "%n hour(s) ago" (Some "0") true true [""; ""; ""; ""; ""; ""];
   Message "%n day(s) ago" (Some "0") true true [""; ""; ""; ""; ""; ""];
   Message "Testnet" None false false ["شبكه التجارب"];
   Message "Stagenet" None false false ["شبكه تجارب"];
   Message "Mainnet" None false false ["شبكه مونيرو"]]%string.

Definition cat_az : catalogue :=
  [Message "Wrong password" None false true [""];
   Message "%n second(s) ago" (Some "0") true true [""; ""];
   Message "%n minute(s) ago" (Some "0") true true [""; ""];
   Message "%n hour(s) ago" (Some "0") true true [""; ""];
   Message "%n day(s) ago" (Some "0") true true [""; ""];
   Message "Testnet" None false true [""];
   Message "Stagenet" None false true [""];
   Message "Mainnet" None false true [""]]%string.

Definition cat_bg : catalogue :=
  [Message "Wrong password" None false false ["Грешна парола"];
   Message "%n second(s) ago" (Some "0") true true [""; ""];
   Message "%n minute(s) ago" (Some "0") true true [""; ""];
   Message "%n hour(s) ago" (Some "0") true true [""; ""];
   Message "%n day(s) ago" (Some "0") true true [""; ""];
   Message "Testnet" None false false ["Тестова мрежа"];
   Message "Stagenet" None false false ["Стейджнет"];
   Message "Mainnet" None false false ["Главна мрежа"]]%string.

Definition cat_bn : catalogue :=
  [Message "Wrong password" None false true [""];
   Message "%n second(s) ago" (Some "0") true true [""; ""];
   Message "%n minute(s) ago" (Some "0") true true [""; ""];
   Message "%n hour(s) ago" (Some "0") true true [""; ""];
   Message "%n day(s) ago" (Some "0") true true [""; ""];
   Message "Testnet" None false true [""];
   Message "Stagenet" None false true [""];
   Message "Mainnet" None false true [""]]%string.

Definition cat_cat : catalogue :=
  [Message "Wrong password" None false false ["Contrasenya incorrecta"];
   Message "%n second(s) ago" (Some "0") true true [""];
   Message "%n minute(s) ago" (Some "0") true true [""];
   Message "%n hour(s) ago" (Some "0") true true [""];
   Message "%n day(s) ago" (Some "0") true true [""];
   Message "Testnet" None false false ["Xarxa de proves"];
   Message "Stagenet" None false false ["Xarxa de fase"];
   Message "Mainnet" None false false ["Xarxa principal"]]%string.

Definition cat_cs : catalogue :=
  [Message "Wrong password" None false false ["Špatné heslo"];
   Message "%n second(s) ago" (Some "0") true true [""; ""; ""];
   Message "%n minute(s) ago" (Some "0") true true [""; ""; ""];
   Message "%n hour(s) ago" (Some "0") true true [""; ""; ""];
   Message "%n day(s) ago" (Some "0") true true [""; ""; ""];
   Message "Testnet" None false false ["Testovací síť"];
   Message "Stagenet" None false false ["Stagenet"];
   Message "Mainnet" None false false ["Hlavní síť"]]%string.

Definition cat_da : catalogue :=
  [Message "Wrong password" None false false ["Forkert kodeord"];
   Message "%n second(s) ago" (Some "0") true true [""; ""];
   Message "%n minute(s) ago" (Some "0") true true [""; ""];
   Message "%n hour(s) ago" (Some "0") true true [""; ""];
   Message "%n day(s) ago" (Some "0") true true [""; ""];
   Message "Testnet" None false false ["Testnet"];
   Message "Stagenet" None false false ["Stagenet"];
   Message "Mainnet" None false false ["Mainnet"]]%string.

Definition cat_de : catalogue :=
  [Message "Wrong password" None false false ["Falsches Passwort"];
   Message "%n second(s) ago" (Some "0") true false ["%n Sekunde vergangen"; "%n Sekunden vergangen"];
   Message "%n minute(s) ago" (Some "0") true false ["%n Minute vergangen"; "%n Minuten vergangen"];
   Message "%n hour(s) ago" (Some "0") true false ["%n Stunde vergangen"; "%n Stunden vergangen"];
   Message "%n day(s) ago" (Some "0") true false ["%n Tag vergangen"; "%n Tage vergangen"];
   Message "Testnet" None false false ["Testnet"];
   Message "Stagenet" None false false ["Stagenet"];
   Message "Mainnet" None false false ["Mainnet"]]%string.

Definition cat_el : catalogue :=
  [Message "Wrong password" None false false ["Λάθος κωδικός"];
   Message "%n second(s) ago" (Some "0") true false ["%n δευτερόλεπτο πριν"; "%n δευτερόλεπτα πριν"];
   Message "%n minute(s) ago" (Some "0") true false ["%n λεπτό πριν"; "%n λεπτά πριν"];
   Message "%n hour(s) ago" (Some "0") true false ["%n ώρα πριν"; "%n ώρες πριν"];
   Message "%n day(s) ago" (Some "0") true false ["%n μέρα πριν"; "%n μέρες πριν"];
   Message "Testnet" None false false ["Δοκιμαστικό Δίκτυο"];
   Message "Stagenet" None false false ["Δοκιμαστικό Δίκτυο"];
   Message "Mainnet" None false false ["Κύριο Δίκτυο"]]%string.

Definition cat_eo : catalogue :=
  [Message "Wrong password" None false false ["Malĝusta pasvorto"];
   Message "%n second(s) ago" (Some "0") true true [""; ""];
   Message "%n minute(s) ago" (Some "0") true true [""; ""];
   Message "%n hour(s) ago" (Some "0") true true [""; ""];
   Message "%n day(s) ago" (Some "0") true true [""; ""];
   Message "Testnet" None false false ["Testreto"];
   Message "Stagenet" None false false ["Scenejreto"];
   Message "Mainnet" None false false ["Ĉefa reto"]]%string.

Definition cat_es : catalogue :=
  [Message "Wrong password" None false false ["Contraseña incorrecta"];
   Message "%n second(s) ago" (Some "0") true false ["Hace %n segundo"; "Hace %n segundos"];
   Message "%n minute(s) ago" (Some "0") true false ["Hace %n minuto"; "Hace %n minutos"];
   Message "%n hour(s) ago" (Some "0") true false ["Hace %n hora"; "Hace %n horas"];
   Message "%n day(s) ago" (Some "0") true false ["Hace %n día"; "Hace %n días"];
   Message "Testnet" None false false ["Red de pruebas"];
   Message "Stagenet" None false false ["Red de fase"];
   Message "Mainnet" None false false ["Red principal"]]%string.

Definition cat_fa : catalogue :=
  [Message "Wrong password" None false true [""];
   Message "%n second(s) ago" (Some "0") true true [""];
   Message "%n minute(s) ago" (Some "0") true true [""];
   Message "%n hour(s) ago" (Some "0") true true [""];
   Message "%n day(s) ago" (Some "0") true true [""];
   Message "Testnet" None false true [""];
   Message "Stagenet" None false true [""];
   Message "Mainnet" None false true [""]]%string.

Definition cat_fi : catalogue :=
  [Message "Wrong password" None false false ["Väärä salasana"];
   Message "%n second(s) ago" (Some "0") true false ["%n sekunti sitten"; "%n sekuntia sitten"];
   Message "%n minute(s) ago" (Some "0") true false ["%n minutti sitten"; "%n minuuttia sitten"];
   Message "%n hour(s) ago" (Some "0") true false ["%n tunti sitten"; "%n tuntia sitten"];
   Message "%n day(s) ago" (Some "0") true false ["%n päivä sitten"; "%n päivää sitten"];
   Message "Testnet" None false false ["Testiverkko"];
   Message "Stagenet" None false false ["Stageverkko"];
   Message "Mainnet" None false false ["Pääverkko"]]%string.

Definition cat_fr : catalogue :=
  [Message "Wrong password" None false false ["Mot de passe incorrect"];
   Message "%n second(s) ago" (Some "0") true false ["%n seconde"; "%n secondes"];
   Message "%n minute(s) ago" (Some "0") true false ["%n minute"; "%n minutes"];
   Message "%n hour(s) ago" (Some "0") true false ["%n heure"; "%n heures"];
   Message "%n day(s) ago" (Some "0") true false ["Il y a %n jour"; "Il y a %n jours"];
   Message "Testnet" None false false ["Testnet"];
   Message "Stagenet" None false false ["Stagenet"];
   Message "Mainnet" None false false ["Mainnet"]]%string.

Definition cat_ga : catalogue :=
  [Message "Wrong password" None false true [""];
   Message "%n second(s) ago" (Some "0") true true [""; ""; ""];
   Message "%n minute(s) ago" (Some "0") true true [""; ""; ""];
   Message "%n hour(s) ago" (Some "0") true true [""; ""; ""];
   Message "%n day(s) ago" (Some "0") true true [""; ""; ""];
   Message "Testnet" None false true [""];
   Message "Stagenet" None false true [""];
   Message "Mainnet" None false true [""]]%string.

Definition cat_he : catalogue :=
  [Message "Wrong password" None false false ["סיסמה שגויה"];
   Message "%n second(s) ago" (Some "0") true true [""; ""];
   Message "%n minute(s) ago" (Some "0") true true [""; ""];
   Message "%n hour(s) ago" (Some "0") true true [""; ""];
   Message "%n day(s) ago" (Some "0") true true [""; ""];
   Message "Testnet" None false true ["Testnet"];
   Message "Stagenet" None false true ["Stagenet"];
   Message "Mainnet" None false true ["Mainnet"]]%string.

Definition cat_hi : catalogue :=
  [Message "Wrong password" None false false ["गलत पासवर्ड"];
   Message "%n second(s) ago" (Some "0") true false ["%nसेकंड पहले"; "%nसेकंडों पहले"];
   Message "%n minute(s) ago" (Some "0") true false ["%nमिनट पहले"; "%nमिनटों पहले"];
   Message "%n hour(s) ago" (Some "0") true false ["%nघंटा पहले"; "%nघंटे पहले"];
   Message "%n day(s) ago" (Some "0") true false ["%n दिन पहले"; "%n दिनों पहले"];
   Message "Testnet" None false false ["टेस्टनेट"];
   Message "Stagenet" None false false ["स्टेजनेट"];
   Message "Mainnet" None false false ["मुख्य नेट"]]%string.

Definition cat_hr : catalogue :=
  [Message "Wrong password" None false true ["Neispravna zaporka"];
   Message "%n second(s) ago" (Some "0") true true [""; ""; ""];
   Message "%n minute(s) ago" (Some "0") true true [""; ""; ""];
   Message "%n hour(s) ago" (Some "0") true true [""; ""; ""];
   Message "%n day(s) ago" (Some "0") true true [""; ""; ""];
   Message "Testnet" None false true ["Testna mreža"];
   Message "Stagenet" None false true ["Fazna mreža"];
   Message "Mainnet" None false true ["Glavna mreža"]]%string.

Definition cat_hu : catalogue :=
  [Message "Wrong password" None false false ["Hibás jelszó"];
   Message "%n second(s) ago" (Some "0") true false ["%n másodperce"];
   Message "%n minute(s) ago" (Some "0") true false ["%n perce"];
   Message "%n hour(s) ago" (Some "0") true false ["%n órája"];
   Message "%n day(s) ago" (Some "0") true false ["%n napja"];
   Message "Testnet" None false false ["Testnet"];
   Message "Stagenet" None false false ["Stagenet"];
   Message "Mainnet" None false false ["Mainnet"]]%string.

Definition cat_id : catalogue :=
  [Message "Wrong password" None false false ["Kata sandi salah"];
   Message "%n second(s) ago" (Some "0") true false ["%n detik yang lalu"];
   Message "%n minute(s) ago" (Some "0") true false ["%n menit yang lalu"];
   Message "%n hour(s) ago" (Some "0") true false ["%n jam yang lalu"];
   Message "%n day(s) ago" (Some "0") true false ["%n hari yang lalu"];
   Message "Testnet" None false false ["Testnet (jaringan uji)"];
   Message "Stagenet" None false false ["Stagenet"];
   Message "Mainnet" None false false ["Mainnet"]]%string.

Definition cat_is : catalogue :=
  [Message "Wrong password" None false true [""];
   Message "%n second(s) ago" (Some "0") true true [""; ""];
   Message "%n minute(s) ago" (Some "0") true true [""; ""];
   Message "%n hour(s) ago" (Some "0") true true [""; ""];
   Message "%n day(s) ago" (Some "0") true true [""; ""];
   Message "Testnet" None false true [""];
   Message "Stagenet" None false true [""];
   Message "Mainnet" None false true [""]]%string.

Definition cat_it : catalogue :=
  [Message "Wrong password" None false false ["Password errata"];
   Message "%n second(s) ago" (Some "0") true true [""; ""];
   Message "%n minute(s) ago" (Some "0") true true [""; ""];
   Message "%n hour(s) ago" (Some "0") true true [""; ""];
   Message "%n day(s) ago" (Some "0") true true [""; ""];
   Message "Testnet" None false false ["Testnet"];
   Message "Stagenet" None false false ["Stagenet"];
   Message "Mainnet" None false false ["Mainnet"]]%string.

Definition cat_ja : catalogue :=
  [Message "Wrong password" None false false ["パスワードが間違っています"];
   Message "%n second(s) ago" (Some "0") true true ["%s秒前"];
   Message "%n minute(s) ago" (Some "0") true false ["%n 分前"];
   Message "%n hour(s) ago" (Some "0") true false ["%n 時間前"];
   Message "%n day(s) ago" (Some "0") true false ["%n 日前"];
   Message "Testnet" None false false ["テストネット"];
   Message "Stagenet" None false false ["ステージネット"];
   Message "Mainnet" None false false ["メインネット"]]%string.

Definition cat_kmr : catalogue :=
  [Message "Wrong password" None false true [""];
   Message "%n second(s) ago" (Some "0") true true [""];
   Message "%n minute(s) ago" (Some "0") true true [""];
   Message "%n hour(s) ago" (Some "0") true true [""];
   Message "%n day(s) ago" (Some "0") true true [""];
   Message "Testnet" None false true [""];
   Message "Stagenet" None false true [""];
   Message "Mainnet" None false true [""]]%string.

Definition cat_ko : catalogue :=
  [Message "Wrong password" None false true ["잘못된 암호"];
   Message "%n second(s) ago" (Some "0") true true [""];
   Message "%n minute(s) ago" (Some "0") true true [""];
   Message "%n hour(s) ago" (Some "0") true true [""];
   Message "%n day(s) ago" (Some "0") true true [""];
   Message "Testnet" None false true ["테스트넷"];
   Message "Stagenet" None false true [""];
   Message "Mainnet" None false true [""]]%string.

Definition cat_lt : catalogue :=
  [Message "Wrong password" None false false ["Neteisingas slaptažodis"];
   Message "%n second(s) ago" (Some "0") true true [""; ""; ""];
   Message "%n minute(s) ago" (Some "0") true true [""; ""; ""];
   Message "%n hour(s) ago" (Some "0") true true [""; ""; ""];
   Message "%n day(s) ago" (Some "0") true true [""; ""; ""];
   Message "Testnet" None false false ["Testavimo tinklas"];
   Message "Stagenet" None false false ["Tarpinis tinklas"];
   Message "Mainnet" None false false ["Pagrindinis tinklas"]]%string.

Definition cat_nb : catalogue :=
  [Message "Wrong password" None false false ["Feil passord"];
   Message "%n second(s) ago" (Some "0") true true [""; ""];
   Message "%n minute(s) ago" (Some "0") true true [""; ""];
   Message "%n hour(s) ago" (Some "0") true true [""; ""];
   Message "%n day(s) ago" (Some "0") true true [""; ""];
   Message "Testnet" None false false ["Testnet"];
   Message "Stagenet" None false false ["Stagenet"];
   Message "Mainnet" None false false ["Mainnet"]]%string.

Definition cat_ne : catalogue :=
  [Message "Wrong password" None false true [""];
   Message "%n second(s) ago" (Some "0") true true [""; ""];
   Message "%n minute(s) ago" (Some "0") true true [""; ""];
   Message "%n hour(s) ago" (Some "0") true true [""; ""];
   Message "%n day(s) ago" (Some "0") true true [""; ""];
   Message "Testnet" None false true [""];
   Message "Stagenet" None false true [""];
   Message "Mainnet" None false true [""]]%string.

Definition cat_nl : catalogue :=
  [Message "Wrong password" None false false ["Verkeerd wachtwoord"];
   Message "%n second(s) ago" (Some "0") true false [""; ""];
   Message "%n minute(s) ago" (Some "0") true false [""; ""];
   Message "%n hour(s) ago" (Some "0") true false [""; ""];
   Message "%n day(s) ago" (Some "0") true false [""; ""];
   Message "Testnet" None false false ["Testnet"];
   Message "Stagenet" None false false ["Stagenet"];
   Message "Mainnet" None false false ["Hoofdnet"]]%string.

Definition cat_pl : catalogue :=
  [Message "Wrong password" None false false ["Błędne hasło"];
   Message "%n second(s) ago" (Some "0") true false ["%n sekundę temu"; "%n sekundy temu"; "%n sekund temu"];
   Message "%n minute(s) ago" (Some "0") true false ["%n minutę temu"; "%n minuty temu"; "%n minut temu"];
   Message "%n hour(s) ago" (Some "0") true false ["%n godzinę temu"; "%n godziny temu"; "%n godzin temu"];
   Message "%n day(s) ago" (Some "0") true false ["%n dzień temu"; "%n dni temu"; "%n dni temu"];
   Message "Testnet" None false false ["Sieć testowa"];
   Message "Stagenet" None false false ["Sieć stopniowa"];
   Message "Mainnet" None false false ["Sieć główna"]]%string.

Definition cat_pt_br : catalogue :=
  [Message "Wrong password" None false false ["Senha incorreta"];
   Message "%n second(s) ago" (Some "0") true false ["%n segundo atrás"; "%n segundos atrás"];
   Message "%n minute(s) ago" (Some "0") true false ["%n minuto atrás"; "%n minutos atrás"];
   Message "%n hour(s) ago" (Some "0") true false ["%n hora atrás"; "%n horas atrás"];
   Message "%n day(s) ago" (Some "0") true false ["%n dia atrás"; "%n dias atrás"];
   Message "Testnet" None false false ["Testnet"];
   Message "Stagenet" None false false ["Stagenet"];
   Message "Mainnet" None false false ["Mainnet"]]%string.

Definition cat_pt_pt : catalogue :=
  [Message "Wrong password" None false false ["Palavra-chave incorreta"];
   Message "%n second(s) ago" (Some "0") true true [""; ""];
   Message "%n minute(s) ago" (Some "0") true true [""; ""];
   Message "%n hour(s) ago" (Some "0") true true [""; ""];
   Message "%n day(s) ago" (Some "0") true true [""; ""];
   Message "Testnet" None false false ["Testnet"];
   Message "Stagenet" None false false ["Stagenet"];
   Message "Mainnet" None false false ["Mainnet"]]%string.

Definition cat_ro : catalogue :=
  [Message "Wrong password" None false false ["Parolă incorectă"];
   Message "%n second(s) ago" (Some "0") true false ["%n secundă în urmă"; "%n secunde în urmă"; "%n secunde în urmă"];
   Message "%n minute(s) ago" (Some "0") true false ["%n minut în urmă"; "%n minute în urmă"; "%n minute în urmă"];
   Message "%n hour(s) ago" (Some "0") true false ["%n oră în urmă"; "%n ore în urmă"; "%n ore în urmă"];
   Message "%n day(s) ago" (Some "0") true false ["%n zi în urmă"; "%n zile în urmă"; "%n zile în urmă"];
   Message "Testnet" None false false ["Testnet"];
   Message "Stagenet" None false false ["Stagenet"];
   Message "Mainnet" None false false ["Rețea principală"]]%string.

Definition cat_ru : catalogue :=
  [Message "Wrong password" None false false ["Неверный пароль"];
   Message "%n second(s) ago" (Some "0") true false ["%n секунду назад"; "%n секунды назад"; "%n секунд назад"];
   Message "%n minute(s) ago" (Some "0") true false ["%n минуту назад"; "%n минуты назад"; "%n минут назад"];
   Message "%n hour(s) ago" (Some "0") true false ["%n час назад"; "%n часа назад"; "%n часов назад"];
   Message "%n day(s) ago" (Some "0") true false ["%n день назад"; "%n дня назад"; "%n дней назад"];
   Message "Testnet" None false false ["Тестовая сеть (Testnet)"];
   Message "Stagenet" None false false ["Отладочная сеть (Stagenet)"];
   Message "Mainnet" None false false ["Основная сеть (Mainnet)"]]%string.

Definition cat_sk : catalogue :=
  [Message "Wrong password" None false false ["Nesprávne heslo"];
   Message "%n second(s) ago" (Some "0") true false ["Pred %n sekundou"; "Pred %n sekundami"; "Pred %n sekundami"];
   Message "%n minute(s) ago" (Some "0") true false ["Pred %n minútou"; "Pred %n minútami"; "Pred %n minútami"];
   Message "%n hour(s) ago" (Some "0") true false ["Pred %n hodinou"; "Pred %n hodinami"; "Pred %n hodinami"];
   Message "%n day(s) ago" (Some "0") true false ["Pred %n dňom"; "Pred %n dňami"; "Pred %n dňami"];
   Message "Testnet" None false false ["Testnet"];
   Message "Stagenet" None false false ["Stagenet"];
   Message "Mainnet" None false false ["Hlavná sieť"]]%string.

Definition cat_sl : catalogue :=
  [Message "Wrong password" None false false ["Napačno geslo"];
   Message "%n second(s) ago" (Some "0") true true [""; ""; ""; ""];
   Message "%n minute(s) ago" (Some "0") true true [""; ""; ""; ""];
   Message "%n hour(s) ago" (Some "0") true true [""; ""; ""; ""];
   Message "%n day(s) ago" (Some "0") true true [""; ""; ""; ""];
   Message "Testnet" None false false ["Testnet"];
   Message "Stagenet" None false false ["Stagenet"];
   Message "Mainnet" None false false ["Mainnet"]]%string.

Definition cat_sr : catalogue :=
  [Message "Wrong password" None false false ["Pogrešna lozinka"];
   Message "%n second(s) ago" (Some "0") true true [""; ""; ""];
   Message "%n minute(s) ago" (Some "0") true true [""; ""; ""];
   Message "%n hour(s) ago" (Some "0") true true [""; ""; ""];
   Message "%n day(s) ago" (Some "0") true true [""; ""; ""];
   Message "Testnet" None false true [""];
   Message "Stagenet" None false true [""];
   Message "Mainnet" None false false ["Glavna mreža (Mainnet)"]]%string.

Definition cat_sv : catalogue :=
  [Message "Wrong password" None false false ["Fel lösenord"];
   Message "%n second(s) ago" (Some "0") true true [""; ""];
   Message "%n minute(s) ago" (Some "0") true true [""; ""];
   Message "%n hour(s) ago" (Some "0") true true [""; ""];
   Message "%n day(s) ago" (Some "0") true true [""; ""];
   Message "Testnet" None false false ["Testnet"];
   Message "Stagenet" None false false ["Stagenet"];
   Message "Mainnet" None false false ["Mainnet"]]%string.

Definition cat_ta : catalogue :=
  [Message "Wrong password" None false false ["தவறான கடவுச்சொல்"];
   Message "%n second(s) ago" (Some "0") true false ["%n வினாடிக்கு முன்"; "%n வினாடிகளுக்கு முன்"];
   Message "%n minute(s) ago" (Some "0") true false ["%n நிமிடத்திற்கு முன்"; "%n நிமிடங்களுக்கு முன்"];
   Message "%n hour(s) ago" (Some "0") true false ["%n மணி நேரத்திற்கு முன்"; "%n மணி நேரத்திற்கு முன்பு"];
   Message "%n day(s) ago" (Some "0") true false ["%n நாள் முன்பு"; "%n நாட்கள் முன்பு"];
   Message "Testnet" None false false ["சோதனை வலை"];
   Message "Stagenet" None false false ["படி வலை"];
   Message "Mainnet" None false false ["முதன்மை வலை"]]%string.

Definition cat_tr : catalogue :=
  [Message "Wrong password" None false true [""];
   Message "%n second(s) ago" (Some "0") true true [""];
   Message "%n minute(s) ago" (Some "0") true true [""];
   Message "%n hour(s) ago" (Some "0") true true [""];
   Message "%n day(s) ago" (Some "0") true true [""];
   Message "Testnet" None false false ["Testnet"];
   Message "Stagenet" None false false ["Prova ağı (Stagenet)"];
   Message "Mainnet" None false false ["Ana ağ (mainnet)"]]%string.

Definition cat_uk : catalogue :=
  [Message "Wrong password" None false false ["Невірний пароль"];
   Message "%n second(s) ago" (Some "0") true true [""; ""; ""];
   Message "%n minute(s) ago" (Some "0") true true [""; ""; ""];
   Message "%n hour(s) ago" (Some "0") true true [""; ""; ""];
   Message "%n day(s) ago" (Some "0") true true [""; ""; ""];
   Message "Testnet" None false false ["Тестова мережа (Testnet)"];
   Message "Stagenet" None false false ["Тестова мережа (stagenet)"];
   Message "Mainnet" None false false ["Основна мережа (Mainnet)"]]%string.

Definition cat_ur : catalogue :=
  [Message "Wrong password" None false true [""];
   Message "%n second(s) ago" (Some "0") true true [""; ""];
   Message "%n minute(s) ago" (Some "0") true true [""; ""];
   Message "%n hour(s) ago" (Some "0") true true [""; ""];
   Message "%n day(s) ago" (Some "0") true true [""; ""];
   Message "Testnet" None false true [""];
   Message "Stagenet" None false true [""];
   Message "Mainnet" None false true [""]]%string.

Definition cat_vi : catalogue :=
  [Message "Wrong password" None false true [""];
   Message "%n second(s) ago" (Some "0") true true [""];
   Message "%n minute(s) ago" (Some "0") true true [""];
   Message "%n hour(s) ago" (Some "0") true true [""];
   Message "%n day(s) ago" (Some "0") true true [""];
   Message "Testnet" None false true ["Testnet"];
   Message "Stagenet" None false true ["Stagenet"];
   Message "Mainnet" None false true [""]]%string.

Definition cat_zh_cn : catalogue :=
  [Message "Wrong password" None false false ["密码错误"];
   Message "%n second(s) ago" (Some "0") true true [""];
   Message "%n minute(s) ago" (Some "0") true true [""];
   Message "%n hour(s) ago" (Some "0") true true [""];
   Message "%n day(s) ago" (Some "0") true true [""];
   Message "Testnet" None false false ["测试网"];
   Message "Stagenet" None false true [""];
   Message "Mainnet" None false false ["主网"]]%string.

Definition cat_zh_tw : catalogue :=
  [Message "Wrong password" None false false ["密碼錯誤"];
   Message "%n second(s) ago" (Some "0") true false ["%n 秒鐘前"];
   Message "%n minute(s) ago" (Some "0") true false ["%n 分鐘前"];
   Message "%n hour(s) ago" (Some "0") true false ["%n 小時前"];
   Message "%n day(s) ago" (Some "0") true false ["%n 天前"];
   Message "Testnet" None false false ["Testnet"];
   Message "Stagenet" None false false ["Stagenet"];
   Message "Mainnet" None false false ["主網路"]]%string.

Definition cat_zu : catalogue :=
  [Message "Wrong password" None false true [""];
   Message "%n second(s) ago" (Some "0") true true [""; ""];
   Message "%n minute(s) ago" (Some "0") true true [""; ""];
   Message "%n hour(s) ago" (Some "0") true true [""; ""];
   Message "%n day(s) ago" (Some "0") true true [""; ""];
   Message "Testnet" None false true [""];
   Message "Stagenet" None false true [""];
   Message "Mainnet" None false true [""]]%string.

(** The name of every compiled catalogue is the one of its file. *)
Definition catalogues : list (string * catalogue) :=
    [("hmny-core_af", cat_af); ("hmny-core_ar", cat_ar); ("hmny-core_az", cat_az);
   ("hmny-core_bg", cat_bg); ("hmny-core_bn", cat_bn); ("hmny-core_cat", cat_cat);
   ("hmny-core_cs", cat_cs); ("hmny-core_da", cat_da); ("hmny-core_de", cat_de);
   ("hmny-core_el", cat_el); ("hmny-core_eo", cat_eo); ("hmny-core_es", cat_es);
   ("hmny-core_fa", cat_fa); ("hmny-core_fi", cat_fi); ("hmny-core_fr", cat_fr);
   ("hmny-core_ga", cat_ga); ("hmny-core_he", cat_he); ("hmny-core_hi", cat_hi);
   ("hmny-core_hr", cat_hr); ("hmny-core_hu", cat_hu); ("hmny-core_id", cat_id);
   ("hmny-core_is", cat_is); ("hmny-core_it", cat_it); ("hmny-core_ja", cat_ja);
   ("hmny-core_kmr", cat_kmr); ("hmny-core_ko", cat_ko); ("hmny-core_lt", cat_lt);
   ("hmny-core_nb", cat_nb); ("hmny-core_ne", cat_ne); ("hmny-core_nl", cat_nl);
   ("hmny-core_pl", cat_pl); ("hmny-core_pt-br", cat_pt_br); ("hmny-core_pt-pt", cat_pt_pt);
   ("hmny-core_ro", cat_ro); ("hmny-core_ru", cat_ru); ("hmny-core_sk", cat_sk);
   ("hmny-core_sl", cat_sl); ("hmny-core_sr", cat_sr); ("hmny-core_sv", cat_sv);
   ("hmny-core_ta", cat_ta); ("hmny-core_tr", cat_tr); ("hmny-core_uk", cat_uk);
   ("hmny-core_ur", cat_ur); ("hmny-core_vi", cat_vi); ("hmny-core_zh-cn", cat_zh_cn);
   ("hmny-core_zh-tw", cat_zh_tw); ("hmny-core_zu", cat_zu)]%string.

(** ** What Qt does with a catalogue *)

(** The files are compiled without their unfinished messages ([lrelease
    -nounfinished]). *)
Definition released (m : message) : bool := negb (msg_unfinished m).

(** The messages of a compiled catalogue with a source text *)
Definition entries (cat : catalogue) (sourceText : jsstring) : list message :=
  filter (fun m => released m && str_eqb (text (msg_source m)) sourceText) cat.

(** [QTranslator::load] of a file name in a directory and the lookup of a text
    without a number in the catalogue of an installed translator *)
Class Qt := {
  load : jsstring -> jsstring -> option catalogue;
  lookup_text : catalogue -> jsstring -> jsstring }.

(** What the program relies on: the compiled catalogues are embedded under the names
    of their files, no file in [dir], beside the program, overrides them, a text
    with one released message is translated and one with none is left as it is. *)
Class QtLaws `{Qt} (dir : jsstring) := {
  load_override : forall name, load name dir = None;
  load_embedded : forall name cat, (name, cat) ∈ catalogues -> load (text name) (js ":") = Some cat;
  lookup_found : forall cat s m f,
    entries cat s = [m] -> msg_numerus m = false -> msg_forms m = [f] -> lookup_text cat s = text f;
  lookup_missing : forall cat s, entries cat s = [] -> lookup_text cat s = s }.

(** ** The languages offered *)

Record language := Language {
  display_name : string;
  locale : string;
  wallet_language : option string }.
#[global] Instance language_eq_dec : EqDecision language.
Proof. solve_decision. Defined.

Definition languages : list language :=
  [Language "English (US)" "en_US" (Some "English");
   Language "Deutsch" "de_DE" (Some "Deutsch");
   Language "Esperanto" "eo_EO" (Some "Esperanto");
   Language "Español" "es_ES" (Some "Español");
   Language "Français" "fr_FR" (Some "Français");
   Language "Svenska" "sv_SE" (Some "English");
   Language "Hrvatski" "hr_HR" (Some "English");
   Language "Magyar" "hu_HU" (Some "Hungarian");
   Language "हिन्दी" "hi_HI" (Some "English");
   Language "Bahasa Indonesia" "id_ID" (Some "English");
   Language "Italiano" "it_IT" (Some "Italiano");
   Language "日本語" "ja_JP" (Some "日本語");
   Language "Nederlands" "nl_NL" (Some "Nederlands");
   Language "Polski" "pl_PL" (Some "English");
   Language "Português (PT)" "pt-pt_PT" (Some "Português");
   Language "Português (BR)" "pt-br_BR" (Some "Português");
   Language "Русский язык" "ru_RU" (Some "русский язык");
   Language "简体中文 (中国)" "zh-cn_CN" (Some "简体中文 (中国)");
   Language "繁體中文 (台灣)" "zh-tw_CN" (Some "English");
   Language "עברית" "he_HE" (Some "English");
   Language "한국어" "ko_KO" (Some "English");
   Language "Română" "ro_RO" (Some "English");
   Language "Dansk" "da_DK" None;
   Language "Česky" "cs_CZ" (Some "English");
   Language "Slovensky" "sk_SK" (Some "English");
   Language "العربية" "ar_AR" (Some "English");
   Language "Slovenski" "sl_SI" (Some "English");
   Language "Srpski" "rs_RS" (Some "English");
   Language "Català" "cat_ES" (Some "English");
   Language "Türkçe" "tr_TR" (Some "English");
   Language "Українська" "uk_UA" (Some "English");
   Language "Lietuvių" "lt_LT" (Some "English");
   Language "Suomi" "fi_FI" (Some "English");
   Language "Български" "bg_BG" (Some "English");
   Language "Norwegian" "nb_NO" (Some "English");
   Language "Afrikaans" "af_AF" (Some "English");
   Language "Ελληνικά" "el_GR" (Some "English");
   Language "தமிழ்" "ta_IN" (Some "English");
   Language "Tiếng Việt" "vi_VN" (Some "English");
   Language "Íslenska" "is_IS" (Some "English")]%string.

(** ** Selecting a language *)

Section Selection.
Context `{Qt} (dir : jsstring).

(** What the translator holds, whether the application uses it, and how often
    [languageChanged] was emitted; a failed load leaves the translator empty. *)
Record translator := Translator {
  contents : catalogue;
  installed : bool;
  languageChanged : nat }.

Definition lower_ascii (c : Z) : Z := if (65 <=? c) && (c <=? 90) then c + 32 else c.

Definition setLanguage (language : jsstring) (t : translator) : bool * translator :=
  if str_eqb (lower_ascii <$> language) (js "en") then
    (true, Translator (contents t) false (S (languageChanged t)))
  else
    let filename := js "hmny-core_" ++ language in
    match load filename dir with
    | Some cat => (true, Translator cat true (S (languageChanged t)))
    | None =>
        match load filename (js ":") with
        | Some cat => (true, Translator cat true (S (languageChanged t)))
        | None => (false, Translator [] (installed t) (languageChanged t))
        end
    end.

(** The part of the locale before the first underscore *)
Definition language_code (locale : jsstring) : jsstring :=
  match split 95 locale with code :: _ => code | [] => [] end.

(** The translator and the settings [locale], [language], [language_wallet] *)
Definition setSelectedItemAsLanguage (l : language) (t : translator)
    : translator * (jsstring * jsstring * option jsstring) :=
  let '(_, t) := setLanguage (language_code (text (locale l))) t in
  (t, (text (locale l), text (display_name l), text <$> wallet_language l)).

Definition qsTr (t : translator) (sourceText : jsstring) : jsstring :=
  if installed t then lookup_text (contents t) sourceText else sourceText.
End Selection.

(** ** The texts decoded *)

Example text_samples :
  (text "Hlavní síť", text "主网", text "😀")
  = (js "Hlavn" ++ [237] ++ js " s" ++ [237; 357], [20027; 32593], [55357; 56832]).
Proof. vm_compute. reflexivity. Qed.

(** The catalogue of a language offered: none for English *)
Definition catalogue_of (l : language) : option catalogue :=
  let code := language_code (text (locale l)) in
  if str_eqb (lower_ascii <$> code) (js "en") then Some []
  else snd <$> find (fun nc => str_eqb (text (fst nc)) (js "hmny-core_" ++ code)) catalogues.

(** Facts about all entries of a table are evaluated. *)
Lemma check_all {A} (f : A -> bool) (l : list A) :
  forallb f l = true -> forall x, x ∈ l -> f x = true.
Proof. intros Hf x Hx. rewrite forallb_forall in Hf. by apply Hf, list_elem_of_In. Qed.

Lemma no_catalogue l : l ∈ languages -> (catalogue_of l = None <-> locale l = "rs_RS"%string).
Proof.
  intros Hl.
  assert (Bool.eqb (match catalogue_of l with None => true | _ => false end)
            (bool_decide (locale l = "rs_RS"%string)) = true) as Hc
    by (revert l Hl; apply check_all; vm_compute; reflexivity).
  destruct (catalogue_of l); case_bool_decide; done.
Qed.

Lemma offered_catalogue l : l ∈ languages -> locale l <> "rs_RS"%string -> exists cat, catalogue_of l = Some cat.
Proof. intros Hl Hne. destruct (catalogue_of l) eqn:E; [by eexists|]. by apply no_catalogue in E. Qed.

(** How often the marker [%n] of the number occurs in a text *)
Fixpoint count_marker (s : jsstring) : nat :=
  match s with
  | [] => O
  | c :: s' =>
      match s' with
      | d :: _ => if (c =? 37) && (d =? 110) then S (count_marker s') else count_marker s'
      | [] => O
      end
  end.

Definition forms_ok (nc : string * catalogue) : bool :=
  forallb (fun m => negb (released m && msg_numerus m) ||
    forallb (fun form =>
      if bool_decide (fst nc = "hmny-core_nl"%string) then bool_decide (text form = [])
      else bool_decide (count_marker (text form) = 1%nat)) (msg_forms m)) (snd nc).

(** In every catalogue, each plural form of a released text of [ago] shows the
    number exactly once; the exception is Dutch, whose four texts are marked as
    finished but are empty in every form. *)
Theorem ago_forms_show_number (name : string) (cat : catalogue) (m : message) (form : string) :
  (name, cat) ∈ catalogues -> m ∈ cat -> released m = true -> msg_numerus m = true ->
  form ∈ msg_forms m ->
  if bool_decide (name = "hmny-core_nl"%string) then text form = [] else count_marker (text form) = 1%nat.
Proof.
  intros Hc Hm Hr Hn Hf.
  assert (forallb forms_ok catalogues = true) as Hall by (vm_compute; reflexivity).
  pose proof (check_all _ _ (check_all _ _ Hall _ Hc) m Hm) as H1. cbv beta in H1.
  rewrite Hr, Hn in H1. pose proof (check_all _ _ H1 form Hf) as H2. cbv beta in H2. simpl in H2.
  case_bool_decide; by apply bool_decide_eq_true in H2.
Qed.

(** ** A language in use *)

(** The text of a catalogue for a source text: its only released message, if any *)
Definition translation (cat : catalogue) (s : jsstring) : jsstring :=
  match entries cat s with
  | [m] => match msg_forms m with [f] => text f | _ => s end
  | _ => s
  end.

(** At most one released message, which has one form *)
Definition unambiguous (cat : catalogue) (s : jsstring) : bool :=
  match entries cat s with
  | [] => true
  | [m] => negb (msg_numerus m) && bool_decide (length (msg_forms m) = 1%nat)
  | _ => false
  end.

Section InUse.
Context `{Q : Qt} (dir : jsstring) `{L : !QtLaws dir}.

Lemma lookup_translation cat s : unambiguous cat s = true -> lookup_text cat s = translation cat s.
Proof.
  unfold unambiguous, translation. destruct (entries cat s) as [|m [|]] eqn:E; [|intros Hu|done].
  - intros _. by apply lookup_missing.
  - apply andb_true_iff in Hu as [Hn Hf]. apply negb_true_iff in Hn. apply bool_decide_eq_true in Hf.
    destruct (msg_forms m) as [|f [|]] eqn:Ef; try done. by eapply lookup_found.
Qed.

(** Selecting a language with a catalogue: English, or a successful load *)
Lemma select_cases l cat t :
  catalogue_of l = Some cat ->
  let r := setLanguage dir (language_code (text (locale l))) t in
  r = (true, Translator (contents t) false (S (languageChanged t))) /\ cat = [] \/
  r = (true, Translator cat true (S (languageChanged t))).
Proof.
  intros Hc. unfold setLanguage, catalogue_of in *.
  set (code := language_code (text (locale l))) in *. destruct (str_eqb _ (js "en")).
  - left. by injection Hc as <-.
  - right. apply fmap_Some in Hc as ([name c] & Hf & ->). apply find_some in Hf as [Hin Heq].
    apply list_elem_of_In in Hin. apply bool_decide_eq_true in Heq. cbn [fst] in Heq.
    by rewrite load_override, <- Heq, (load_embedded name c Hin).
Qed.

(** After a language with a catalogue is selected, texts come from it. *)
Lemma select_translates l cat t s :
  catalogue_of l = Some cat ->
  qsTr (fst (setSelectedItemAsLanguage dir l t)) s = lookup_text cat s.
Proof.
  intros Hc. unfold setSelectedItemAsLanguage.
  destruct (select_cases l cat t Hc) as [[-> ->]| ->]; [|done]. unfold qsTr. simpl.
  symmetry. by apply lookup_missing.
Qed.
End InUse.

(** Selecting a language offered to the user succeeds, notifies the pages once
    and makes [qsTr] answer from the catalogue of that language, or in English for
    English, whatever was selected before; the one language without a catalogue is
    Serbian, offered as "rs_RS" while its file is named "sr". *)
Theorem selection_installs `{Q : Qt} (dir : jsstring) `{L : !QtLaws dir} (l : language) (t : translator) :
  l ∈ languages ->
  (catalogue_of l = None <-> locale l = "rs_RS"%string) /\
  forall cat, catalogue_of l = Some cat ->
    fst (setLanguage dir (language_code (text (locale l))) t) = true /\
    let t' := fst (setSelectedItemAsLanguage dir l t) in
    languageChanged t' = S (languageChanged t) /\ forall s, qsTr t' s = lookup_text cat s.
Proof.
  intros Hl. split; [by apply no_catalogue|]. intros cat Hc.
  split; [|cbv zeta; split; [|intros s; by apply select_translates]];
    unfold setSelectedItemAsLanguage;
    by destruct (select_cases dir l cat t Hc) as [[-> ->]| ->].
Qed.

(** The languages whose catalogue has another name for the main network *)
Definition mainnet_renamed : list string :=
  ["af_AF"; "ar_AR"; "bg_BG"; "cat_ES"; "cs_CZ"; "el_GR"; "eo_EO"; "es_ES"; "fi_FI"; "hi_HI";
   "ja_JP"; "lt_LT"; "nl_NL"; "pl_PL"; "ro_RO"; "ru_RU"; "sk_SK"; "ta_IN"; "tr_TR"; "uk_UA";
   "zh-cn_CN"; "zh-tw_CN"]%string.

(** What the tables say about the names of the networks, evaluated *)
Definition names_ok (l : language) : bool :=
  match catalogue_of l with
  | None => true
  | Some cat =>
      unambiguous cat (js "Mainnet") && unambiguous cat (js "Testnet") && unambiguous cat (js "Stagenet") &&
      bool_decide (net_of_name (translation cat (js "Mainnet"))
                   = if bool_decide (locale l ∈ mainnet_renamed) then OtherNet else Mainnet) &&
      negb (str_eqb (translation cat (js "Mainnet")) (translation cat (js "Testnet"))) &&
      negb (str_eqb (translation cat (js "Mainnet")) (translation cat (js "Stagenet"))) &&
      Bool.eqb (str_eqb (translation cat (js "Testnet")) (translation cat (js "Stagenet")))
        (bool_decide (locale l = "el_GR"%string))
  end.

Lemma network_names `{Q : Qt} dir `{L : !QtLaws dir} l t :
  l ∈ languages -> locale l <> "rs_RS"%string ->
  let name := netTypeToString (qsTr (fst (setSelectedItemAsLanguage dir l t))) in
  net_of_name (name 0) = (if bool_decide (locale l ∈ mainnet_renamed) then OtherNet else Mainnet) /\
  name 0 <> name 1 /\ name 0 <> name 2 /\ (name 1 = name 2 <-> locale l = "el_GR"%string).
Proof.
  intros Hl Hrs name. destruct (offered_catalogue l Hl Hrs) as [cat Hc].
  assert (names_ok l = true) as Hok
    by (clear Hc Hrs name; revert l Hl; apply check_all; vm_compute; reflexivity).
  unfold names_ok in Hok. rewrite Hc, !andb_true_iff, !negb_true_iff, eqb_true_iff in Hok.
  destruct Hok as [[[[[[Um Ut] Us] Hm] H1] H2] H3].
  unfold name, netTypeToString. cbn [Z.eqb Pos.eqb].
  rewrite !(select_translates dir l cat), !(lookup_translation dir) by done.
  apply bool_decide_eq_true in Hm. apply bool_decide_eq_false in H1, H2.
  split; [done|]. split; [done|]. split; [done|]. unfold str_eqb in H3. split; intros E.
  - rewrite (bool_decide_eq_true_2 _ E) in H3. symmetry in H3. by apply bool_decide_eq_true in H3.
  - rewrite (bool_decide_eq_true_2 _ E) in H3. by apply bool_decide_eq_true in H3.
Qed.

(** The estimate is given the translated name of the network. With any
    language offered that has a catalogue, a Mainnet wallet's hyphenated date from
    2018-03-13 on is the Mainnet estimate in the languages that keep the English
    name, and exactly 1496070 blocks less in the 22 languages that translate it. *)
Theorem parse_translated_mainnet `{Q : Qt} (dir : jsstring) `{L : !QtLaws dir} legacy_date
    (l : language) (t : translator) (value : jsstring) (ms : Z) :
  l ∈ languages -> locale l <> "rs_RS"%string ->
  iso_date value = Some ms -> forkTime OtherNet <= ms / 1000 ->
  let qsTr := qsTr (fst (setSelectedItemAsLanguage dir l t)) in
  num_is (parseDateStringOrRestoreHeightAsInteger qsTr legacy_date 0 value)
         (estimate Mainnet (ms / 1000)
          - if bool_decide (locale l ∈ mainnet_renamed) then 1496070 else 0).
Proof.
  intros Hl Hrs Hiso Hr tr. pose proof (parse_iso_date tr legacy_date 0 value ms Hiso Hr) as H.
  destruct (network_names dir l t Hl Hrs) as [E _]. fold tr in E. rewrite E in H.
  case_bool_decide; [by rewrite <- estimate_other_gap|by rewrite Z.sub_0_r].
Qed.

(** In every language offered that has a catalogue the three networks have
    three different names, except in Greek, where the test network and the stage
    network have the same one. *)
Theorem network_names_distinct `{Q : Qt} (dir : jsstring) `{L : !QtLaws dir}
    (l : language) (t : translator) (n1 n2 : Z) :
  l ∈ languages -> locale l <> "rs_RS"%string -> 0 <= n1 < n2 -> n2 <= 2 ->
  let name := netTypeToString (qsTr (fst (setSelectedItemAsLanguage dir l t))) in
  name n1 = name n2 <-> locale l = "el_GR"%string /\ n1 = 1 /\ n2 = 2.
Proof.
  intros Hl Hrs H1 H2 name. destruct (network_names dir l t Hl Hrs) as (_ & A & B & C).
  fold name in A, B, C.
  assert (n1 = 0 /\ n2 = 1 \/ n1 = 0 /\ n2 = 2 \/ n1 = 1 /\ n2 = 2) as [[-> ->]|[[-> ->]|[-> ->]]] by lia.
  - split; [done|lia].
  - split; [done|lia].
  - rewrite C. intuition.
Qed.

(** ** Witnesses *)

#[global] Instance demo_qt : Qt := {|
  load name dir :=
    if str_eqb dir (js ":") then snd <$> find (fun nc => str_eqb (text (fst nc)) name) catalogues else None;
  lookup_text := translation |}.

#[global] Instance demo_laws : QtLaws [].
Proof.
  split.
  - done.
  - intros name cat Hin.
    apply (check_all (fun nc => bool_decide (load (text (fst nc)) (js ":") = Some (snd nc)))) in Hin;
      [by apply bool_decide_eq_true in Hin|vm_compute; reflexivity].
  - intros cat s m f E _ Ef. simpl. unfold translation. by rewrite E, Ef.
  - intros cat s E. simpl. unfold translation. by rewrite E.
Qed.

Definition demo_language : language := Language "Afrikaans" "af_AF" (Some "English").
Definition demo_translator : translator := Translator [] false 0.

Lemma selection_installs_witness : fst (setLanguage [] (js "af") demo_translator) = true.
Proof.
  exact (proj1 (proj2 (selection_installs [] demo_language demo_translator ltac:(by_decide)) cat_af eq_refl)).
Defined.

Lemma ago_forms_show_number_witness : count_marker (text "%n uur gelede") = 1%nat.
Proof.
  exact (ago_forms_show_number "hmny-core_af" cat_af
           (Message "%n hour(s) ago" (Some "0"%string) true false ["%n uur gelede"; "%n ure gelede"]%string)
           "%n uur gelede" ltac:(left) ltac:(unfold cat_af; do 3 right; left) eq_refl eq_refl ltac:(left)).
Defined.

Lemma parse_translated_mainnet_witness :
  num_is (parseDateStringOrRestoreHeightAsInteger
            (qsTr (fst (setSelectedItemAsLanguage [] demo_language demo_translator)))
            (fun _ => None) 0 (js "2025-06-01"))
         (3404788 - 1496070).
Proof.
  refine (parse_translated_mainnet [] (fun _ => None) demo_language demo_translator
            (js "2025-06-01") 1748736000000 _ _ _ _);
    [by_decide|done|by vm_compute|by cbn [forkTime]; vm_compute].
Defined.

Lemma network_names_distinct_witness :
  netTypeToString (qsTr (fst (setSelectedItemAsLanguage [] demo_language demo_translator))) 1
  <> netTypeToString (qsTr (fst (setSelectedItemAsLanguage [] demo_language demo_translator))) 2.
Proof.
  intros E. apply (network_names_distinct [] demo_language demo_translator 1 2) in E;
    [by destruct E|by_decide|done|lia|lia].
Defined.
