(* ===== verification/Radix.v ===== *)
(** * Numbers and their digits in a base

    Lists of digits, least significant first; bytes of a word in memory order on
    a little-endian machine. Shared by the encoders and the hash comparisons. *)

From S2P Require Import Prelude IntUtil.

Fixpoint le_value (b : Z) (ds : list Z) : Z :=
  match ds with [] => 0 | d :: ds => d + b * le_value b ds end.

Fixpoint le_digits (b : Z) (n : nat) (v : Z) : list Z :=
  match n with O => [] | S n => v mod b :: le_digits b n (v / b) end.

Definition digit_list (b : Z) (ds : list Z) : Prop := Forall (fun d => 0 <= d < b) ds.

Lemma digit_list_app b ds es : digit_list b (ds ++ es) <-> digit_list b ds /\ digit_list b es.
Proof. apply Forall_app. Qed.

Lemma le_digits_length b n v : length (le_digits b n v) = n.
Proof. revert v. induction n as [|n IH]; intros v; simpl; auto. Qed.

Lemma le_digits_list b n v : 0 < b -> digit_list b (le_digits b n v).
Proof.
  intros Hb. revert v. induction n as [|n IH]; intros v; constructor; [|apply IH].
  by apply Z.mod_pos_bound.
Qed.

Lemma le_value_bound b ds :
  0 < b -> digit_list b ds -> 0 <= le_value b ds < b ^ Z.of_nat (length ds).
Proof.
  intros Hb. induction 1 as [|d ds Hd _ IH]; [simpl; lia|].
  cbn [le_value length]. rewrite Nat2Z.inj_succ, Z.pow_succ_r by lia. nia.
Qed.

Lemma le_value_digits b n v :
  0 < b -> 0 <= v -> le_value b (le_digits b n v) = v mod b ^ Z.of_nat n.
Proof.
  intros Hb. revert v. induction n as [|n IH]; intros v Hv.
  - simpl. by rewrite Z.mod_1_r.
  - cbn [le_digits le_value]. rewrite IH by (by apply Z.div_pos).
    rewrite Nat2Z.inj_succ, Z.pow_succ_r by lia.
    rewrite Z.rem_mul_r; [lia|lia|apply Z.pow_pos_nonneg; lia].
Qed.

Lemma le_value_digits_small b n v :
  0 < b -> 0 <= v < b ^ Z.of_nat n -> le_value b (le_digits b n v) = v.
Proof. intros Hb Hv. rewrite le_value_digits by lia. by apply Z.mod_small. Qed.

Lemma le_digits_value b ds :
  0 < b -> digit_list b ds -> le_digits b (length ds) (le_value b ds) = ds.
Proof.
  intros Hb. induction 1 as [|d ds Hd _ IH]; [done|]. cbn [le_digits le_value length].
  rewrite Z.mul_comm, Z_mod_plus_full, Z.mod_small by lia.
  by rewrite Z.div_add, Z.div_small, Z.add_0_l, IH by lia.
Qed.

Lemma le_value_inj b ds es :
  0 < b -> digit_list b ds -> digit_list b es -> length ds = length es ->
  le_value b ds = le_value b es -> ds = es.
Proof.
  intros Hb Hd He Hl Hv. rewrite <- (le_digits_value b ds), <- (le_digits_value b es) by done.
  by rewrite Hl, Hv.
Qed.

Lemma le_value_app b ds es :
  0 < b -> le_value b (ds ++ es) = le_value b ds + b ^ Z.of_nat (length ds) * le_value b es.
Proof.
  intros Hb. induction ds as [|d ds IH]; [simpl; lia|].
  cbn [app le_value length]. rewrite IH, Nat2Z.inj_succ, Z.pow_succ_r by lia. ring.
Qed.

Lemma rev_replicate {A} n (x : A) : rev (replicate n x) = replicate n x.
Proof. rewrite rev_alt. apply reverse_replicate. Qed.

Lemma le_value_zeros b n : le_value b (replicate n 0) = 0.
Proof. induction n as [|n IH]; [done|]. simpl. lia. Qed.

(** Digits of a number split after [n] of them *)
Lemma le_digits_app b n m v :
  0 < b -> 0 <= v ->
  le_digits b (n + m) v = le_digits b n v ++ le_digits b m (v / b ^ Z.of_nat n).
Proof.
  intros Hb. revert v. induction n as [|n IH]; intros v Hv.
  - simpl. by rewrite Z.div_1_r.
  - cbn [plus le_digits app]. rewrite IH by (by apply Z.div_pos). do 2 f_equal.
    rewrite Nat2Z.inj_succ, Z.pow_succ_r, Z.div_div by (try lia; apply Z.pow_pos_nonneg; lia). done.
Qed.

Lemma le_digits_zero b n : 0 < b -> le_digits b n 0 = replicate n 0.
Proof.
  intros Hb. induction n as [|n IH]; [done|]. cbn [le_digits replicate].
  by rewrite Z.mod_0_l, Z.div_0_l, IH by lia.
Qed.

(** ** Bytes of a word *)

Notation bytes_value := (le_value 256) (only parsing).
Definition byte_list (bs : list Z) : Prop := digit_list 256 bs.

Lemma bytes_testbit b bs i :
  0 <= b < 256 -> 0 <= i ->
  Z.testbit (le_value 256 (b :: bs)) i =
  if i <? 8 then Z.testbit b i else Z.testbit (le_value 256 bs) (i - 8).
Proof.
  intros Hb Hi. cbn [le_value].
  replace (b + 256 * le_value 256 bs) with (le_value 256 bs * 2 ^ 8 + b) by lia.
  rewrite <- lor_add_low by lia. rewrite Z.lor_spec, Z.shiftl_spec by done.
  destruct (Z.ltb_spec i 8).
  - by rewrite (Z.testbit_neg_r _ (i - 8)) by lia.
  - replace (Z.testbit b i) with false; [by rewrite orb_false_r|]. symmetry.
    destruct (decide (b = 0)) as [->|]; [apply Z.bits_0|].
    apply Z.bits_above_log2; [lia|]. apply Z.log2_lt_pow2; [lia|].
    assert (2 ^ 8 <= 2 ^ i) by (apply Z.pow_le_mono_r; lia). lia.
Qed.

(** Reversing the order of the bytes: what [SWAP64] does to a word. *)
Definition SWAP64 (x : Z) : Z :=
  let x := u64 x in
  Z.lor (u64 (Z.shiftl (Z.land x 0x00000000000000ff) 56))
 (Z.lor (u64 (Z.shiftl (Z.land x 0x000000000000ff00) 40))
 (Z.lor (u64 (Z.shiftl (Z.land x 0x0000000000ff0000) 24))
 (Z.lor (u64 (Z.shiftl (Z.land x 0x00000000ff000000) 8))
 (Z.lor (Z.shiftr (Z.land x 0x000000ff00000000) 8)
 (Z.lor (Z.shiftr (Z.land x 0x0000ff0000000000) 24)
 (Z.lor (Z.shiftr (Z.land x 0x00ff000000000000) 40)
        (Z.shiftr (Z.land x 0xff00000000000000) 56))))))).

Lemma word_testbit_high w x i : 0 <= w <= i -> Z.testbit (wrap w x) i = false.
Proof. intros. unfold wrap. apply Z.mod_pow2_bits_high. lia. Qed.

(** Bits of a masked and shifted word at a bit position below 64 *)
Lemma masked_left_bit x mask n i :
  0 <= n -> 0 <= i < 64 ->
  Z.testbit (u64 (Z.shiftl (Z.land x mask) n)) i = Z.testbit x (i - n) && Z.testbit mask (i - n).
Proof.
  intros Hn Hi. unfold wrap. rewrite Z.mod_pow2_bits_low by lia.
  rewrite Z.shiftl_spec by lia. apply Z.land_spec.
Qed.
Lemma masked_right_bit x mask n i :
  0 <= n -> 0 <= i -> 
  Z.testbit (Z.shiftr (Z.land x mask) n) i = Z.testbit x (i + n) && Z.testbit mask (i + n).
Proof. intros Hn Hi. rewrite Z.shiftr_spec by lia. apply Z.land_spec. Qed.

Lemma SWAP64_bytes bs :
  byte_list bs -> length bs = 8%nat -> SWAP64 (le_value 256 bs) = le_value 256 (rev bs).
Proof.
  intros Hb Hl.
  pose proof (le_value_bound 256 bs ltac:(lia) Hb) as Hv. rewrite Hl in Hv.
  assert (byte_list (rev bs)) as Hr by (by apply Forall_rev).
  pose proof (le_value_bound 256 (rev bs) ltac:(lia) Hr) as Hvr. rewrite length_rev, Hl in Hvr.
  change (256 ^ Z.of_nat 8) with (2 ^ 64) in *.
  destruct bs as [|b0 [|b1 [|b2 [|b3 [|b4 [|b5 [|b6 [|b7 [|]]]]]]]]]; try done. clear Hl Hr.
  unfold byte_list, digit_list in Hb. rewrite !Forall_cons in Hb.
  destruct Hb as (H0 & H1 & H2 & H3 & H4 & H5 & H6 & H7 & _).
  unfold SWAP64. rewrite (wrap_small 64 (le_value 256 _)) by done. cbn [rev app] in *.
  set (x := le_value 256 [b0; b1; b2; b3; b4; b5; b6; b7]) in *.
  apply Z.bits_inj'. intros i Hi. destruct (Z.lt_ge_cases i 64) as [Hlt|Hge].
  - rewrite !Z.lor_spec, !masked_left_bit, !masked_right_bit by lia.
    assert (exists k : nat, (k < 64)%nat /\ i = Z.of_nat k) as (k & Hk & ->)
      by (exists (Z.to_nat i); lia). clear Hi Hlt.
    do 64 (destruct k as [|k];
      [unfold x;
       repeat match goal with
       | |- context [Z.testbit (Zpos ?m) ?j] =>
           let v := eval vm_compute in (Z.testbit (Zpos m) j) in
           change (Z.testbit (Zpos m) j) with v
       end;
       rewrite ?andb_false_r, ?andb_true_r, ?orb_false_l, ?orb_false_r;
       repeat (rewrite bytes_testbit by (done || lia);
               match goal with |- context [if ?a <? ?b then _ else _] =>
                 let v := eval vm_compute in (a <? b) in change (a <? b) with v; cbv iota end);
       match goal with |- Z.testbit _ ?a = Z.testbit _ ?b =>
         let v := eval vm_compute in a in change a with v;
         let v := eval vm_compute in b in change b with v end; reflexivity|]).
    lia.
  - assert (forall m n, 0 <= n -> Z.testbit (Z.shiftr (Z.land x m) n) i = false) as Hsr.
    { intros m n Hn. rewrite masked_right_bit by lia.
      replace x with (u64 x) by (apply wrap_small; done).
      by rewrite word_testbit_high by lia. }
    rewrite !Z.lor_spec, !word_testbit_high, !Hsr by lia.
    rewrite <- (wrap_small 64 (le_value 256 [b7; b6; b5; b4; b3; b2; b1; b0])) by done.
    by rewrite word_testbit_high by lia.
Qed.
