(* ===== verification/Amount.v ===== *)
(** * Amounts as text: src/cryptonote_basic/cryptonote_format_utils.cpp and
    contrib/epee/include/string_tools_lexical.h

    Amounts are in atomic units; [dp] is the number of digits after the point, the
    variable [default_decimal_point] of the source. Texts are lists of bytes. What
    the code uses of Boost is an interface with laws. *)

From S2P Require Import Prelude JsString JsNumber.

Class Boost := {
  trim : list Z -> list Z;
  lexical_cast_u64 : list Z -> option Z }.

(** [None] of [lexical_cast] is the exception [bad_lexical_cast]. *)
Class BoostLaws `{Boost} := {
  trim_id : forall s,
    (forall c, head s = Some c -> is_space c = false) -> (forall c, last s = Some c -> is_space c = false) ->
    trim s = s;
  lexical_cast_digits : forall s, s <> [] -> all_digits s ->
    lexical_cast_u64 s = if dec_value s <? 2 ^ 64 then Some (dec_value s) else None }.

Inductive amount_error := Invalid_decimal_point | No_significant_digits | Rounding_overflow | Bad_amount.

Definition set_default_decimal_point (decimal_point : Z) : result amount_error Z :=
  if bool_decide (decimal_point ∈ [12; 9; 6; 3; 0]) then Ret decimal_point
  else Throw Invalid_decimal_point.

(** [decimal_point] is [None] for the value [(unsigned int)-1]. *)
Definition get_unit (default_decimal_point : Z) (decimal_point : option Z) : result amount_error string :=
  let dp := default default_decimal_point decimal_point in
  if dp =? 12 then Ret "monero"%string
  else if dp =? 9 then Ret "millinero"%string
  else if dp =? 6 then Ret "micronero"%string
  else if dp =? 3 then Ret "nanonero"%string
  else if dp =? 0 then Ret "piconero"%string
  else Throw Invalid_decimal_point.

Definition insert_money_decimal_point (s : list Z) (dp : nat) : list Z :=
  let s := if bool_decide (length s < dp + 1)%nat then replicate (dp + 1 - length s) 48 ++ s else s in
  if bool_decide (0 < dp)%nat then take (length s - dp) s ++ [46] ++ drop (length s - dp) s else s.

(** Both overloads: [std::to_string] and the stream operator print the digits. *)
Definition print_money (amount : Z) (dp : nat) : list Z :=
  insert_money_decimal_point (dec_digits amount) dp.

(** ** Reading *)

Section Parse.
Context `{Boost}.

Definition get_xtype_from_string (str_id : list Z) : option Z :=
  if negb (forallb is_digit str_id) then None else lexical_cast_u64 str_id.

(** [while (default_decimal_point < fraction_size && '0' == str_amount.back())] *)
Fixpoint drop_zeros (dp fraction_size : nat) (s : list Z) : list Z * nat :=
  match fraction_size with
  | O => (s, O)
  | S k =>
      if bool_decide (dp < S k)%nat && bool_decide (last s = Some 48)
      then drop_zeros dp k (removelast s) else (s, S k)
  end.

(** [find_first_of('.')] *)
Fixpoint find_point (s : list Z) : option nat :=
  match s with
  | [] => None
  | c :: s => if c =? 46 then Some O else S <$> find_point s
  end.

Definition parse_amount (dp : nat) (str_amount_ : list Z) : option Z :=
  let str_amount := trim str_amount_ in
  '(str_amount, fraction_size) ←
    match find_point str_amount with
    | Some point_index =>
        let '(s, fraction_size) := drop_zeros dp (length str_amount - point_index - 1) str_amount in
        if bool_decide (dp < fraction_size)%nat then None
        else Some (take point_index s ++ drop (point_index + 1) s, fraction_size)
    | None => Some (str_amount, O)
    end;
  if bool_decide (str_amount = []) then None
  else
    let str_amount :=
      if bool_decide (fraction_size < dp)%nat
      then str_amount ++ replicate (dp - fraction_size) 48 else str_amount in
    get_xtype_from_string str_amount.

(** ** Rounding up *)

(** The carry loop, on the digits before the point of rounding read backwards: the
    new digits and whether the carry is left over *)
Fixpoint bump_loop (rev_digits : list Z) : list Z * bool :=
  match rev_digits with
  | [] => ([], true)
  | c :: ds =>
      if c =? 57 then let '(ds, bump) := bump_loop ds in (48 :: ds, bump) else (c + 1 :: ds, false)
  end.

(** [buf] after the rounding *)
Definition round_digits (buf : list Z) (significant_digits : nat) : list Z :=
  if bool_decide (significant_digits < length buf)%nat then
    let bump := existsb (fun c => negb (c =? 48)) (drop significant_digits buf) in
    let zeros := (fun c => if negb (c =? 48) then 48 else c) <$> drop significant_digits buf in
    let kept := take significant_digits buf in
    let '(kept, bump) :=
      if bump then let '(ds, b) := bump_loop (rev kept) in (rev ds, b) else (kept, false) in
    (if bump then [49] else []) ++ kept ++ zeros
  else buf.

(** [strtoull] gives the value or, beyond 64 bits, an error. *)
Definition round_money_up (amount : Z) (significant_digits : nat) : result amount_error Z :=
  if negb (bool_decide (0 < significant_digits)%nat) then Throw No_significant_digits
  else
    let v := dec_value (round_digits (dec_digits amount) significant_digits) in
    if negb (v <? 2 ^ 64) then Throw Rounding_overflow
    else if negb (negb (v =? 0) || (amount =? 0)) then Throw Rounding_overflow
    else Ret v.

Definition round_money_up_text (dp : nat) (s : list Z) (significant_digits : nat)
    : result amount_error (list Z) :=
  match parse_amount dp s with
  | None => Throw Bad_amount
  | Some amount =>
      amount ← round_money_up amount significant_digits;
      Ret (print_money amount dp)
  end.
End Parse.

#[global] Instance demo_boost : Boost := {|
  trim s := rev (drop_space (rev (drop_space s)));
  lexical_cast_u64 s :=
    if bool_decide (s = []) || negb (forallb is_digit s) then None
    else if dec_value s <? 2 ^ 64 then Some (dec_value s) else None |}.

Example amount_samples :
  (print_money 1234500000000 12, print_money 5 12, print_money 7 0, parse_amount 12 (js " 1.5 "),
   parse_amount 12 (js "0.00000000000010"), parse_amount 12 (js "0.0000000000001"), parse_amount 12 (js "."),
   parse_amount 12 (js "18446744.073709551616"), parse_amount 3 (js "-1"),
   round_money_up 123456 2, round_money_up 995 2, round_money_up 18446744073709551615 3)
  = (js "1.234500000000", js "0.000000000005", js "7", Some 1500000000000, None, None, None, None, None,
     Ret 130000, Ret 1000, Throw Rounding_overflow).
Proof. vm_compute. reflexivity. Qed.

(** ** Digits *)

Lemma all_digits_app w f : all_digits (w ++ f) <-> all_digits w /\ all_digits f.
Proof. apply Forall_app. Qed.

Lemma all_digits_zeros k : all_digits (replicate k 48).
Proof. by apply Forall_replicate. Qed.

Lemma all_digits_forallb w : all_digits w -> forallb is_digit w = true.
Proof. intros Hw. apply forallb_forall. intros c Hc. eapply Forall_forall in Hw; [exact Hw|by apply list_elem_of_In]. Qed.

Lemma find_point_digits w f : all_digits w -> find_point (w ++ 46 :: f) = Some (length w).
Proof.
  intros Hw. induction Hw as [|c w Hc Hw IH]; [done|]. simpl. apply is_digit_range in Hc.
  destruct (Z.eqb_spec c 46); [lia|]. by rewrite IH.
Qed.

Lemma find_point_none w : all_digits w -> find_point w = None.
Proof.
  intros Hw. induction Hw as [|c w Hc Hw IH]; [done|]. simpl. apply is_digit_range in Hc.
  destruct (Z.eqb_spec c 46); [lia|]. by rewrite IH.
Qed.

(** The zeros dropped are zeros of the fraction; what is left has at most [dp]
    digits or does not end in a zero. *)
Lemma drop_zeros_spec dp p f :
  exists f' k, f = f' ++ replicate k 48 /\
    drop_zeros dp (length f) (p ++ 46 :: f) = (p ++ 46 :: f', length f') /\
    ((length f' <= dp)%nat \/ last f' <> Some 48).
Proof.
  induction f as [|c f IH] using rev_ind.
  - exists [], O. split_and!; [done|done|left; simpl; lia].
  - rewrite length_app, Nat.add_1_r. cbn [drop_zeros].
    assert (p ++ 46 :: (f ++ [c]) = (p ++ 46 :: f) ++ [c]) as -> by (by rewrite <- app_assoc).
    rewrite last_snoc, removelast_last. case_bool_decide as Hd; [case_bool_decide as Hc|]; cbn [andb].
    + injection Hc as ->. destruct IH as (f' & k & -> & E & Hl). exists f', (S k).
      split_and!; [|done|done]. rewrite <- app_assoc. f_equal. by rewrite <- replicate_S_end.
    + exists (f ++ [c]), O. rewrite app_nil_r, length_app, Nat.add_1_r, <- app_assoc.
      split_and!; [done|done|right]. rewrite last_snoc. congruence.
    + exists (f ++ [c]), O. rewrite app_nil_r, length_app, Nat.add_1_r, <- app_assoc.
      split_and!; [done|done|left; lia].
Qed.

Lemma last_digit_zero f : all_digits f -> (dec_value f) mod 10 = 0 -> f <> [] -> last f = Some 48.
Proof.
  destruct f as [|c f _] using rev_ind; [done|]. intros Hd Hm _. rewrite last_snoc.
  apply all_digits_app in Hd as [_ Hc]. apply Forall_singleton, is_digit_range in Hc.
  rewrite dec_value_app, Z.add_comm, Z.mod_add, Z.mod_small in Hm by lia. f_equal. lia.
Qed.

(** ** Reading an amount *)

Section ParseFacts.
Context `{B : Boost} `{L : !BoostLaws}.

Lemma trim_number s : all_digits s \/ (exists w f, w <> [] /\ s = w ++ 46 :: f /\ all_digits (w ++ f)) -> trim s = s.
Proof.
  intros Hs. assert (forall c, c ∈ s -> is_space c = false) as Hc.
  { intros c Hin. assert (is_digit c = true \/ c = 46) as [Hd| ->]; [|by apply is_space_digit|done].
    destruct Hs as [Hs|(w & f & _ & -> & Hs)].
    - left. by eapply Forall_forall in Hs.
    - apply all_digits_app in Hs as [Hw Hf]. rewrite elem_of_app, elem_of_cons in Hin.
      destruct Hin as [Hin|[Hin|Hin]]; [left; by eapply Forall_forall in Hw|by right|left; by eapply Forall_forall in Hf]. }
  apply trim_id; intros c Hh; apply Hc.
  - destruct s; simplify_eq/=. by left.
  - apply last_Some in Hh as [l ->]. set_solver.
Qed.

(** The digits [ds] with [n] zeros after them *)
Lemma read_padded ds n :
  ds <> [] -> all_digits ds ->
  get_xtype_from_string (ds ++ replicate n 48)
  = let v := dec_value ds * 10 ^ Z.of_nat n in if v <? 2 ^ 64 then Some v else None.
Proof.
  intros Hne Hd. assert (all_digits (ds ++ replicate n 48)) as Hall
    by (apply all_digits_app; split; [done|apply all_digits_zeros]).
  unfold get_xtype_from_string. rewrite all_digits_forallb by done. simpl negb. cbn match.
  rewrite lexical_cast_digits; [|by destruct ds|done]. by rewrite dec_value_zeros.
Qed.

Lemma pad_if ds (fs dp : nat) :
  (fs <= dp)%nat ->
  (if bool_decide (fs < dp)%nat then ds ++ replicate (dp - fs) 48 else ds) = ds ++ replicate (dp - fs) 48.
Proof. intros Hle. case_bool_decide; [done|]. replace (dp - fs)%nat with O by lia. by rewrite app_nil_r. Qed.

Lemma parse_whole dp w :
  w <> [] -> all_digits w ->
  parse_amount dp w
  = let v := dec_value w * 10 ^ Z.of_nat dp in if v <? 2 ^ 64 then Some v else None.
Proof.
  intros Hne Hw. unfold parse_amount. rewrite trim_number, find_point_none by (done || by left).
  cbn. rewrite bool_decide_eq_false_2 by done.
  pose proof (pad_if w 0 dp ltac:(lia)) as ->. rewrite Nat.sub_0_r. by apply read_padded.
Qed.

Lemma parse_point dp w f :
  w <> [] -> all_digits (w ++ f) ->
  exists f' k, f = f' ++ replicate k 48 /\
  ((length f' <= dp)%nat /\ parse_amount dp (w ++ 46 :: f)
     = (let v := dec_value (w ++ f') * 10 ^ Z.of_nat (dp - length f') in if v <? 2 ^ 64 then Some v else None)
   \/ (dp < length f')%nat /\ last f' <> Some 48 /\ parse_amount dp (w ++ 46 :: f) = None).
Proof.
  intros Hne Hd. destruct (drop_zeros_spec dp w f) as (f' & k & Ef & E & Hl). exists f', k. split; [done|].
  pose proof Hd as [Hw Hf]%all_digits_app. unfold parse_amount.
  rewrite trim_number by (right; by exists w, f). rewrite find_point_digits by done.
  replace (length (w ++ 46%Z :: f) - length w - 1)%nat with (length f) by (rewrite length_app; simpl; lia).
  rewrite E. case_bool_decide as Hdp.
  - right. split; [done|]. split; [|done]. destruct Hl; [lia|done].
  - left. split; [lia|]. rewrite take_app_length.
    rewrite drop_app_add by done. cbn. rewrite drop_0, bool_decide_eq_false_2 by (by destruct w).
    rewrite pad_if by lia. apply read_padded; [by destruct w|].
    apply all_digits_app. split; [done|]. rewrite Ef in Hf. by apply all_digits_app in Hf as [? _].
Qed.
End ParseFacts.

(** An amount with a point is read as exactly its value in atomic units: the
    result is the number [a] with [a / 10^dp] equal to the decimal fraction, and there
    is none when the fraction is finer than an atomic unit or 64 bits are too few. *)
Theorem parse_amount_exact `{B : Boost} `{L : !BoostLaws} (dp : nat) (w f : list Z) (a : Z) :
  w <> [] -> all_digits (w ++ f) ->
  parse_amount dp (w ++ js "." ++ f) = Some a <->
  a * 10 ^ Z.of_nat (length f) = dec_value (w ++ f) * 10 ^ Z.of_nat dp /\ a < 2 ^ 64.
Proof.
  intros Hne Hd. change (w ++ js "." ++ f) with (w ++ 46 :: f).
  destruct (parse_point dp w f Hne Hd) as (f' & k & -> & Hcase).
  rewrite app_assoc in Hd |- *. rewrite dec_value_zeros, length_app, length_replicate, Nat2Z.inj_add, Z.pow_add_r by lia.
  assert (forall n, 0 < 10 ^ Z.of_nat n) as Hp by (intros n; apply Z.pow_pos_nonneg; lia).
  pose proof (Hp k) as Hk. pose proof (Hp (length f')) as Hf'.
  destruct Hcase as [[Hle ->]|(Hgt & Hl & ->)].
  - pose proof (Hp (dp - length f')%nat) as Hr.
    assert (10 ^ Z.of_nat dp = 10 ^ Z.of_nat (length f') * 10 ^ Z.of_nat (dp - length f')) as ->.
    { rewrite <- Z.pow_add_r by lia. f_equal. lia. }
    set (v := dec_value (w ++ f') * 10 ^ Z.of_nat (dp - length f')). cbv zeta.
    assert (a * (10 ^ Z.of_nat (length f') * 10 ^ Z.of_nat k)
            = dec_value (w ++ f') * 10 ^ Z.of_nat k * (10 ^ Z.of_nat (length f') * 10 ^ Z.of_nat (dp - length f'))
            <-> a = v) as ->.
    { unfold v. split; intros E; [|subst; lia].
      apply (Z.mul_reg_r _ _ (10 ^ Z.of_nat (length f') * 10 ^ Z.of_nat k)); [nia|lia]. }
    destruct (Z.ltb_spec v (2 ^ 64)); split; intros E; simplify_eq; [done| |]; destruct E; [by subst|lia].
  - split; [done|]. intros [E _]. destruct Hl.
    apply all_digits_app in Hd as [Hd _].
    assert (f' <> []) as Hnf by (intros ->; simpl in Hgt; lia).
    assert (last (w ++ f') = Some 48) as El; [|by rewrite last_app in El; destruct (last f') eqn:E1; [done|by apply last_None in E1]].
    apply last_digit_zero; [done| |by destruct w].
    assert (10 ^ Z.of_nat (length f') = 10 ^ Z.of_nat dp * (10 * 10 ^ Z.of_nat (length f' - dp - 1))) as Ed.
    { rewrite <- Z.pow_succ_r, <- Z.pow_add_r by lia. f_equal. lia. }
    assert (dec_value (w ++ f') = a * 10 ^ Z.of_nat (length f' - dp - 1) * 10) as ->; [|by rewrite Z.mod_mul].
    apply (Z.mul_reg_r _ _ (10 ^ Z.of_nat dp * 10 ^ Z.of_nat k)); [pose proof (Hp dp); nia|].
    rewrite Ed in E. lia.
Qed.

(** The digits of an amount, padded to have one before the point *)
Lemma padded_digits a dp :
  0 <= a ->
  let ds := dec_digits a in
  let s := if bool_decide (length ds < dp + 1)%nat then replicate (dp + 1 - length ds) 48 ++ ds else ds in
  all_digits s /\ dec_value s = a /\ (dp + 1 <= length s)%nat.
Proof.
  intros Ha ds s. destruct (dec_digits_spec a Ha) as [Hc Hv]. fold ds in Hc, Hv.
  assert (all_digits ds) as Hd by apply Hc. unfold s. case_bool_decide.
  - split_and!.
    + apply all_digits_app. split; [apply all_digits_zeros|done].
    + rewrite dec_value_concat. pose proof (dec_value_zeros [] (dp + 1 - length ds)) as E. simpl app in E.
      rewrite E. change (dec_value []) with 0. lia.
    + rewrite length_app, length_replicate. lia.
  - split_and!; [done|done|lia].
Qed.

(** What is printed for an amount, with any number of digits after the point, is
    read back as that amount. *)
Theorem amount_roundtrip `{B : Boost} `{L : !BoostLaws} (dp : nat) (a : Z) :
  is_u64 a -> parse_amount dp (print_money a dp) = Some a.
Proof.
  intros Ha. assert (0 <= a < 2 ^ 64) as Hr by exact Ha.
  unfold print_money, insert_money_decimal_point.
  destruct (padded_digits a dp ltac:(lia)) as (Hd & Hv & Hl). cbv zeta in *.
  set (s := if bool_decide (length (dec_digits a) < dp + 1)%nat then _ else _) in *. clearbody s.
  case_bool_decide as Hdp.
  - change ([46] ++ drop (length s - dp) s) with (js "." ++ drop (length s - dp) s).
    assert (take (length s - dp) s <> []) as Hne.
    { intros E. apply (f_equal length) in E. rewrite length_take in E. simpl in E. lia. }
    destruct (parse_point dp (take (length s - dp) s) (drop (length s - dp) s)) as (f' & k & Ef & Hc);
      [done|by rewrite take_drop|].
    assert (length (drop (length s - dp) s) = dp) as Elen by (rewrite length_drop; lia).
    assert (length f' + k = dp)%nat as Ek by (rewrite Ef, length_app, length_replicate in Elen; lia).
    destruct Hc as [[_ E]|[Hgt _]]; [|lia]. change (js "." ++ ?x) with (46 :: x). rewrite E. cbv zeta.
    replace (dp - length f')%nat with k by lia.
    rewrite <- dec_value_zeros, <- app_assoc, <- Ef, take_drop, Hv. by rewrite (proj2 (Z.ltb_lt _ _)) by lia.
  - rewrite parse_whole; [|intros ->; simpl in Hl; lia|done]. replace dp with O by lia.
    cbv zeta. rewrite Hv, Z.mul_1_r. by rewrite (proj2 (Z.ltb_lt _ _)) by lia.
Qed.

(** ** Rounding *)

Lemma bump_loop_value ds :
  let '(ds', bump) := bump_loop ds in
  dec_value ((if bump then [49] else []) ++ rev ds') = dec_value (rev ds) + 1.
Proof.
  induction ds as [|c ds IH]; [done|]. simpl. destruct (Z.eqb_spec c 57) as [->|].
  - destruct (bump_loop ds) as [ds' b]. simpl rev. rewrite app_assoc, !dec_value_app, IH. lia.
  - simpl. rewrite !dec_value_app. lia.
Qed.

Lemma tail_zero ds : all_digits ds -> existsb (fun c => negb (c =? 48)) ds = negb (dec_value ds =? 0).
Proof.
  induction ds as [|c ds IH] using rev_ind; intros Hd; [done|].
  pose proof Hd as [Hd1 Hc]%all_digits_app. apply Forall_singleton, is_digit_range in Hc.
  rewrite existsb_app, IH, dec_value_app by done. pose proof (dec_value_nonneg ds Hd1). simpl.
  destruct (Z.eqb_spec c 48), (Z.eqb_spec (dec_value ds) 0), (Z.eqb_spec (dec_value ds * 10 + (c - 48)) 0);
    simpl; (done || lia).
Qed.

Lemma zeroed ds : (fun c => if negb (c =? 48) then 48 else c) <$> ds = replicate (length ds) 48.
Proof. induction ds as [|c ds IH]; [done|]. rewrite fmap_cons, IH. simpl. by destruct (Z.eqb_spec c 48) as [->|]. Qed.

Lemma round_digits_value ds sd :
  all_digits ds ->
  let m := 10 ^ Z.of_nat (length ds - sd) in
  dec_value (round_digits ds sd) = (dec_value ds + (m - 1)) / m * m.
Proof.
  intros Hd m. unfold round_digits. case_bool_decide as Hlt.
  - rewrite <- (take_drop sd ds) in Hd. apply all_digits_app in Hd as [Hk Ht].
    rewrite tail_zero, zeroed by done.
    assert (length (drop sd ds) = length ds - sd)%nat as El by apply length_drop.
    pose proof (dec_value_nonneg _ Ht) as H0. pose proof (dec_value_lt _ Ht) as H1. rewrite El in H1 |- *. fold m in H1.
    assert (dec_value ds = dec_value (take sd ds) * m + dec_value (drop sd ds)) as ->.
    { rewrite <- (take_drop sd ds) at 1. by rewrite dec_value_concat, El. }
    destruct (Z.eqb_spec (dec_value (drop sd ds)) 0) as [E|E]; simpl.
    + rewrite E, dec_value_zeros. fold m. f_equal. apply (Z.div_unique_pos _ _ _ (m - 1)); lia.
    + pose proof (bump_loop_value (rev (take sd ds))) as Hb. rewrite rev_involutive in Hb.
      destruct (bump_loop _) as [ds' b]. rewrite app_assoc, dec_value_zeros, Hb. fold m. f_equal.
      apply (Z.div_unique_pos _ _ _ (dec_value (drop sd ds) - 1)); lia.
  - unfold m. replace (length ds - sd)%nat with O by lia. change (10 ^ Z.of_nat 0) with 1.
    rewrite Z.div_1_r. lia.
Qed.

Lemma round_money_up_value (a : Z) (significant_digits : nat) :
  is_u64 a -> (0 < significant_digits)%nat ->
  let m := 10 ^ Z.of_nat (length (dec_digits a) - significant_digits) in
  let r := (a + (m - 1)) / m * m in
  a <= r < a + m /\
  round_money_up a significant_digits = if r <? 2 ^ 64 then Ret r else Throw Rounding_overflow.
Proof.
  intros Ha Hsd m r. assert (0 <= a < 2 ^ 64) as Hr by exact Ha.
  assert (0 < m) as Hm by (apply Z.pow_pos_nonneg; lia).
  assert (a <= r < a + m) as Hb.
  { unfold r. pose proof (Z.div_mod (a + (m - 1)) m ltac:(lia)).
    pose proof (Z.mod_pos_bound (a + (m - 1)) m Hm). lia. }
  split; [done|]. destruct (dec_digits_spec a ltac:(lia)) as [[Hd _] Hv].
  pose proof (round_digits_value (dec_digits a) significant_digits Hd) as E. cbv zeta in E.
  rewrite Hv in E. fold m in E. fold r in E.
  unfold round_money_up. rewrite bool_decide_eq_true_2 by done. cbn [negb]. cbv zeta. rewrite E.
  destruct (Z.ltb_spec r (2 ^ 64)); [|done]. cbn [negb].
  by destruct (Z.eqb_spec r 0), (Z.eqb_spec a 0); try lia.
Qed.

(** Two figures at least double an amount at most. *)
Lemma round_money_up_some a sd :
  0 <= a < 2 ^ 62 -> (0 < sd)%nat -> exists r, round_money_up a sd = Ret r /\ a <= r <= 2 * a.
Proof.
  intros Ha Hsd. pose proof (round_money_up_value a sd ltac:(mach) Hsd) as H. cbv zeta in H.
  set (m := 10 ^ Z.of_nat (length (dec_digits a) - sd)) in *.
  set (r := (a + (m - 1)) / m * m) in *. destruct H as [Hr E].
  assert (r <= 2 * a) as Hr2.
  { destruct (dec_digits_spec a ltac:(lia)) as [Hc Hv]. destruct (decide (a = 0)) as [->|Hnz].
    { unfold r, m. change (length (dec_digits 0)) with 1%nat. replace (1 - sd)%nat with O by lia.
      vm_compute. discriminate. }
    apply dec_value_ge in Hc; [|lia]. rewrite Hv in Hc.
    assert (m <= 10 ^ (Z.of_nat (length (dec_digits a)) - 1)); [|lia].
    apply Z.pow_le_mono_r; [lia|].
    destruct (dec_digits a) as [|c w] eqn:Ed; [cbn in Hv; lia|]. cbn [length]. lia. }
  exists r. split; [|lia]. rewrite E. rewrite (proj2 (Z.ltb_lt r (2 ^ 64))) by mach. done.
Qed.

(** The amount is rounded up, whatever the digits dropped are, to the next
    multiple of the power of ten that leaves the requested number of digits; the
    only error is a result beyond 64 bits. *)
Theorem round_money_up_spec (a : Z) (significant_digits : nat) :
  is_u64 a -> (0 < significant_digits)%nat ->
  let m := 10 ^ Z.of_nat (length (dec_digits a) - significant_digits) in
  let r := (a + (m - 1)) / m * m in
  a <= r < a + m /\
  round_money_up a significant_digits = if r <? 2 ^ 64 then Ret r else Throw Rounding_overflow.
Proof. intros ??. by apply round_money_up_value. Qed.

(** ** Witnesses *)

Lemma drop_space_id s : (forall c, head s = Some c -> is_space c = false) -> drop_space s = s.
Proof. destruct s as [|c s]; [done|]. intros Hc. simpl. by rewrite (Hc c). Qed.

#[global] Instance demo_boost_laws : BoostLaws.
Proof.
  split.
  - intros s Hh Hl. cbn [trim demo_boost]. rewrite (drop_space_id s) by done. rewrite drop_space_id, rev_involutive; [done|].
    intros c E. apply Hl. rewrite <- (rev_involutive s). destruct (rev s) as [|d t]; [done|].
    simplify_eq/=. apply last_snoc.
  - intros s Hne Hd. cbn [lexical_cast_u64 demo_boost]. rewrite all_digits_forallb by done.
    by rewrite bool_decide_eq_false_2.
Qed.

Lemma parse_amount_exact_witness : parse_amount 12 (js "1.5") = Some 1500000000000.
Proof.
  apply (parse_amount_exact 12 (js "1") (js "5")); [done|by repeat constructor|by vm_compute].
Defined.

Lemma amount_roundtrip_witness : parse_amount 12 (print_money 42 12) = Some 42.
Proof. apply (amount_roundtrip 12 42). done. Defined.

Lemma round_money_up_spec_witness : round_money_up 123456 2 = Ret 130000.
Proof. exact (proj2 (round_money_up_spec 123456 2 ltac:(done) ltac:(lia))). Defined.
