(* ===== verification/Varint.v ===== *)
(** * Variable-length integers: src/common/varint.h

    The wire format of every integer of a transaction or block: seven bits per
    byte, least significant first, the top bit set on all bytes but the last.
    Bytes are integers below 256; [T] is an unsigned type of [bits] bits. *)

From S2P Require Import Prelude IntUtil.

Definition EVARINT_OVERFLOW : Z := -1.
Definition EVARINT_REPRESENT : Z := -2.

(** The loop of [write_varint]; it shifts [i] right until it is below 0x80. *)
Fixpoint write_varint_loop (fuel : nat) (i : Z) : list Z :=
  match fuel with
  | O => []
  | S fuel =>
      if 0x80 <=? i
      then Z.lor (Z.land (u8 i) 0x7f) 0x80 :: write_varint_loop fuel (Z.shiftr i 7)
      else [u8 i]
  end.

(** The binary length of [i] bounds the number of rounds. *)
Definition write_varint (i : Z) : list Z := write_varint_loop (S (Z.to_nat (Z.log2 i))) i.

Definition get_varint_data (v : Z) : list Z := write_varint v.

(** The loop of [read_varint] from the state [(shift, read, write)]: the code it
    returns, the value left in [write] and the input left unread. *)
Fixpoint read_varint_loop (bits shift read write : Z) (input : list Z) : Z * Z * list Z :=
  match input with
  | [] => (read, write, [])
  | byte :: input' =>
      let read := read + 1 in
      if (bits <=? shift + 7) && (Z.shiftl 1 (bits - shift) <=? byte)
      then (EVARINT_OVERFLOW, write, input')
      else if (byte =? 0) && negb (shift =? 0) then (EVARINT_REPRESENT, write, input')
      else
        let write := Z.lor write (wrap bits (Z.shiftl (Z.land byte 0x7f) shift)) in
        if Z.land byte 0x80 =? 0 then (read, write, input')
        else read_varint_loop bits (shift + 7) read write input'
  end.

Definition read_varint (bits : Z) (input : list Z) : Z * Z * list Z :=
  read_varint_loop bits 0 0 0 input.

Fixpoint varint_byte_size_loop (fuel : nat) (val bytes : Z) : Z :=
  match fuel with
  | O => bytes
  | S fuel =>
      let bytes := bytes + 1 in
      let val := Z.shiftr val 7 in
      if val =? 0 then bytes else varint_byte_size_loop fuel val bytes
  end.
Definition get_varint_byte_size (val : Z) : Z :=
  varint_byte_size_loop (S (Z.to_nat (Z.log2 val))) val 0.

(** ** Writing *)

Definition is_byte (b : Z) : Prop := is_u8 b.

Lemma write_fuel f i :
  (Z.to_nat (Z.log2 i) < f)%nat -> 0 <= i ->
  write_varint_loop f i =
  if 128 <=? i then (i mod 128 + 128) :: write_varint (i / 128) else [i].
Proof.
  revert i. induction f as [f IH] using lt_wf_ind. intros i Hf Hi.
  destruct f as [|f]; [lia|]. cbn [write_varint_loop].
  destruct (Z.leb_spec 128 i).
  - rewrite Z.shiftr_div_pow2 by lia. change (2 ^ 7) with 128. f_equal.
    + change 0x7f with (2 ^ 7 - 1). rewrite land_ones_mod by lia. unfold wrap.
      change (2 ^ 8) with (2 * 128). change (2 ^ 7) with 128.
      assert (i mod (2 * 128) mod 128 = i mod 128) as ->.
      { rewrite (Z.mul_comm 2). rewrite Z.rem_mul_r by lia.
        rewrite Z.mul_comm, Z_mod_plus_full. apply Zmod_mod. }
      rewrite Z.lor_comm. change 128 with (Z.shiftl 1 7).
      rewrite lor_add_low by (try lia; apply Z.mod_pos_bound; done).
      change (2 ^ 7) with 128. change (Z.shiftl 1 7) with 128. lia.
    + pose proof (Z.div_pos i 128 ltac:(lia) ltac:(lia)).
      assert (Z.log2 (i / 128) <= Z.log2 i - 7) as Hl.
      { change 128 with (2 ^ 7). rewrite <- Z.shiftr_div_pow2 by lia.
        rewrite Z.log2_shiftr by lia. pose proof (Z.log2_nonneg i).
        assert (7 <= Z.log2 i) by (apply Z.log2_le_pow2; lia). lia. }
      assert (7 <= Z.log2 i) by (apply Z.log2_le_pow2; lia).
      unfold write_varint. rewrite !IH; try lia. done.
  - rewrite wrap_small; [done|]. mach.
Qed.

Lemma write_varint_eq i :
  0 <= i ->
  write_varint i = if 128 <=? i then (i mod 128 + 128) :: write_varint (i / 128) else [i].
Proof. intros. unfold write_varint at 1. apply write_fuel; lia. Qed.

Lemma write_varint_nonempty i : 0 <= i -> (1 <= length (write_varint i))%nat.
Proof. intros. rewrite write_varint_eq by done. case_match; simpl; lia. Qed.

(** Strong induction on the value, seven bits at a time *)
Lemma seven_bits_ind (P : Z -> Prop) :
  (forall i, 0 <= i < 128 -> P i) ->
  (forall i, 128 <= i -> P (i / 128) -> P i) ->
  forall i, 0 <= i -> P i.
Proof.
  intros Hb Hs i. induction i as [i IH] using (well_founded_induction (Z.lt_wf 0)). intros Hi.
  destruct (Z.lt_ge_cases i 128); [by apply Hb|]. apply Hs; [done|].
  pose proof (Z.div_pos i 128 ltac:(lia) ltac:(lia)).
  pose proof (Z.div_lt i 128 ltac:(lia) ltac:(lia)). apply IH; lia.
Qed.

Lemma write_varint_bytes i : 0 <= i -> Forall is_byte (write_varint i).
Proof.
  revert i. refine (seven_bits_ind _ _ _); intros i Hi.
  - rewrite write_varint_eq by lia. destruct (Z.leb_spec 128 i); [lia|].
    constructor; [unfold is_byte; mach|constructor].
  - intros IH. rewrite write_varint_eq by lia. destruct (Z.leb_spec 128 i); [|lia].
    pose proof (Z.mod_pos_bound i 128). constructor; [unfold is_byte; mach|done].
Qed.

(** ** Reading *)

(** One round of the reader, arithmetically *)
Lemma read_step bits shift read write byte input :
  is_byte byte -> 0 <= shift < bits -> 0 <= write < 2 ^ shift ->
  read_varint_loop bits shift read write (byte :: input) =
  if (bits <=? shift + 7) && (2 ^ (bits - shift) <=? byte)
  then (EVARINT_OVERFLOW, write, input)
  else if (byte =? 0) && negb (shift =? 0) then (EVARINT_REPRESENT, write, input)
  else
    let write' := write + byte mod 128 * 2 ^ shift in
    if byte <? 128 then (read + 1, write', input)
    else read_varint_loop bits (shift + 7) (read + 1) write' input.
Proof.
  intros Hb Hs Hw. cbn [read_varint_loop]. rewrite Z.shiftl_mul_pow2, Z.mul_1_l by lia.
  destruct ((bits <=? shift + 7) && (2 ^ (bits - shift) <=? byte)) eqn:E; [done|].
  destruct ((byte =? 0) && negb (shift =? 0)); [done|].
  change 0x7f with (2 ^ 7 - 1). rewrite land_ones_mod by lia. change (2 ^ 7) with 128.
  pose proof (Z.mod_pos_bound byte 128 ltac:(lia)) as Hm.
  assert (wrap bits (Z.shiftl (byte mod 128) shift) = Z.shiftl (byte mod 128) shift) as ->.
  { apply wrap_small. rewrite Z.shiftl_mul_pow2 by lia.
    assert (2 ^ bits = 2 ^ (bits - shift) * 2 ^ shift) as E2
      by (rewrite <- Z.pow_add_r by lia; f_equal; lia).
    assert (0 < 2 ^ shift) by (apply Z.pow_pos_nonneg; lia).
    enough (byte mod 128 < 2 ^ (bits - shift)) by (split; nia).
    apply andb_false_iff in E as [E%Z.leb_gt|E%Z.leb_gt].
    - assert (2 ^ 7 <= 2 ^ (bits - shift)) by (apply Z.pow_le_mono_r; lia). lia.
    - pose proof (Z.mod_le byte 128). unfold is_byte in *; mach. }
  rewrite Z.lor_comm, lor_add_low by (done || lia).
  assert ((Z.land byte 0x80 =? 0) = (byte <? 128)) as ->.
  { assert (forall b, (b < 256)%nat ->
      (Z.land (Z.of_nat b) 0x80 =? 0) = (Z.of_nat b <? 128)) as H.
    { intros b Hbb. do 256 (destruct b as [|b]; [reflexivity|]). lia. }
    rewrite <- (Z2Nat.id byte) by (unfold is_byte in *; mach). apply H.
    unfold is_byte in *; mach. }
  rewrite (Z.add_comm write). done.
Qed.

Lemma read_write_loop bits i :
  0 <= i -> forall shift read write rest,
  0 <= shift < bits -> (shift <> 0 -> i <> 0) -> 0 <= write < 2 ^ shift -> i * 2 ^ shift < 2 ^ bits ->
  read_varint_loop bits shift read write (write_varint i ++ rest)
  = (read + Z.of_nat (length (write_varint i)), write + i * 2 ^ shift, rest).
Proof.
  revert i. refine (seven_bits_ind _ _ _); intros i Hi.
  - intros shift read write rest Hs Hz Hw Hlt. rewrite write_varint_eq by lia.
    destruct (Z.leb_spec 128 i); [lia|]. cbn [app].
    rewrite read_step by (done || unfold is_byte; mach).
    assert (2 ^ bits = 2 ^ (bits - shift) * 2 ^ shift) as E
      by (rewrite <- Z.pow_add_r by lia; f_equal; lia).
    assert (0 < 2 ^ shift) by (apply Z.pow_pos_nonneg; lia).
    destruct (Z.leb_spec (2 ^ (bits - shift)) i); [nia|]. rewrite andb_false_r.
    destruct (Z.eqb_spec i 0), (Z.eqb_spec shift 0); cbn [andb negb]; try tauto;
      (destruct (Z.ltb_spec i 128); [|lia]); cbv zeta; rewrite Z.mod_small by lia; done.
  - intros IH shift read write rest Hs Hz Hw Hlt. rewrite write_varint_eq by lia.
    destruct (Z.leb_spec 128 i); [|lia]. cbn [app].
    pose proof (Z.mod_pos_bound i 128 ltac:(lia)) as Hm. pose proof (Z.div_mod i 128 ltac:(lia)) as Ed.
    rewrite read_step by (done || unfold is_byte; mach).
    assert (2 ^ (shift + 7) = 2 ^ shift * 128) as E7 by (by rewrite Z.pow_add_r by lia).
    assert (0 < 2 ^ shift) by (apply Z.pow_pos_nonneg; lia).
    assert (shift + 7 < bits) by (apply (Z.pow_lt_mono_r_iff 2); nia).
    destruct (Z.leb_spec bits (shift + 7)); [lia|]. cbn [andb].
    destruct (Z.eqb_spec (i mod 128 + 128) 0); [lia|]. cbn [andb]. cbv zeta.
    destruct (Z.ltb_spec (i mod 128 + 128) 128); [lia|].
    replace (i mod 128 + 128) with (i mod 128 + 1 * 128) by lia.
    rewrite Z_mod_plus_full, Zmod_mod, IH; [|lia|intros; lia|nia|nia].
    f_equal; [f_equal; [simpl; lia|nia]].
Qed.

(** What [write_varint] writes for a value of the type is read back as that
    value, whatever follows it in the stream, and exactly the bytes written are
    consumed. *)
Theorem varint_roundtrip (bits i : Z) (rest : list Z) :
  0 < bits -> in_width bits i ->
  read_varint bits (write_varint i ++ rest) = (Z.of_nat (length (write_varint i)), i, rest).
Proof.
  intros Hb [Hi Hlt]. unfold read_varint. rewrite read_write_loop by (done || lia).
  do 2 f_equal; lia.
Qed.

(** What the reader accepts from the state [(shift, read, write)] *)
Definition accepted (read shift write : Z) (input : list Z) (n v : Z) (rest : list Z) : Prop :=
  exists i, 0 <= i /\ v = write + i * 2 ^ shift /\
    ((input = write_varint i ++ rest /\ n = read + Z.of_nat (length (write_varint i)) /\
      (shift <> 0 -> i <> 0))
     \/ (rest = [] /\ Forall (fun b => 128 <= b) input /\ n = read + Z.of_nat (length input))).

Lemma read_loop_sound bits input : forall shift read write n v rest,
  Forall is_byte input -> 0 <= shift < bits -> 0 <= write < 2 ^ shift -> 0 <= read -> 0 <= n ->
  read_varint_loop bits shift read write input = (n, v, rest) ->
  accepted read shift write input n v rest /\ v < 2 ^ bits.
Proof.
  induction input as [|byte input IH]; intros shift read write n v rest Hin Hs Hw Hr Hn.
  - intros [= <- <- <-]. split; [|apply Z.lt_le_trans with (2 ^ shift); [lia|apply Z.pow_le_mono_r; lia]].
    exists 0. split; [done|]. split; [lia|]. right. split; [done|]. split; [constructor|simpl; lia].
  - apply Forall_cons in Hin as [Hb Hin]. rewrite read_step by done.
    assert (0 < 2 ^ shift) as Hp by (apply Z.pow_pos_nonneg; lia).
    assert (2 ^ bits = 2 ^ (bits - shift) * 2 ^ shift) as E
      by (rewrite <- Z.pow_add_r by lia; f_equal; lia).
    assert (2 ^ (shift + 7) = 2 ^ shift * 128) as E7 by (by rewrite Z.pow_add_r by lia).
    destruct ((bits <=? shift + 7) && (2 ^ (bits - shift) <=? byte)) eqn:Eo; [intros [= <- _ _]; done|].
    destruct ((byte =? 0) && negb (shift =? 0)) eqn:Ez; [intros [= <- _ _]; done|]. cbv zeta.
    destruct (Z.ltb_spec byte 128).
    + rewrite Z.mod_small by (unfold is_byte in *; mach). intros [= <- <- <-]. split.
      * exists byte. split; [unfold is_byte in *; mach|]. split; [done|]. left.
        rewrite write_varint_eq by (unfold is_byte in *; mach).
        destruct (Z.leb_spec 128 byte); [lia|]. split; [done|]. split; [done|].
        intros ? ->. destruct (Z.eqb_spec shift 0); done.
      * apply andb_false_iff in Eo as [Eo%Z.leb_gt|Eo%Z.leb_gt]; [|nia].
        assert (2 ^ (shift + 7) <= 2 ^ bits) by (apply Z.pow_le_mono_r; lia). nia.
    + intros Hl.
      assert (shift + 7 < bits) as Hs7.
      { destruct (Z.leb_spec bits (shift + 7)); [|lia]. cbn [andb] in Eo. apply Z.leb_gt in Eo.
        assert (2 ^ (bits - shift) <= 2 ^ 7) by (apply Z.pow_le_mono_r; lia). lia. }
      pose proof (Z.mod_pos_bound byte 128 ltac:(lia)) as Hm.
      assert (byte = byte mod 128 + 128) as Eb.
      { pose proof (Z.div_mod byte 128 ltac:(lia)).
        assert (byte / 128 = 1) by (symmetry; apply Z.div_unique with (byte - 128); unfold is_byte in *; mach).
        lia. }
      apply IH in Hl as [(j & Hj & -> & Hcase) Hv]; [|done|lia|nia|lia|done]. split; [|done].
      exists (byte mod 128 + j * 128). split; [nia|]. split; [nia|].
      destruct Hcase as [(-> & -> & Hjz)|(-> & Hall & ->)].
      * left. specialize (Hjz ltac:(lia)). rewrite (write_varint_eq (_ + _)) by nia.
        destruct (Z.leb_spec 128 (byte mod 128 + j * 128)); [|nia].
        rewrite Z_mod_plus_full, Zmod_mod, Z.div_add, (Z.div_small (byte mod 128)) by lia.
        rewrite Z.add_0_l, <- Eb. split; [done|]. split; [simpl; lia|nia].
      * right. split; [done|]. split; [by constructor|]. simpl. lia.
Qed.

(** The encoding is canonical: whenever the reader returns a non-negative
    count, the value fits the type and the bytes consumed are exactly the ones
    [write_varint] produces for it, so no value has a second encoding; the one
    other case is an input that ends inside a varint, which the reader does not
    report: it returns the number of bytes there were. *)
Theorem read_varint_canonical (bits : Z) (input : list Z) (n v : Z) (rest : list Z) :
  0 < bits -> Forall is_byte input -> read_varint bits input = (n, v, rest) -> 0 <= n ->
  in_width bits v /\
  ((input = write_varint v ++ rest /\ n = Z.of_nat (length (write_varint v)))
   \/ (rest = [] /\ Forall (fun b => 128 <= b) input /\ n = Z.of_nat (length input))).
Proof.
  intros Hb Hin Hr Hn.
  destruct (read_loop_sound bits input 0 0 0 n v rest) as [(i & Hi & -> & Hcase) Hv]; try done; try lia.
  rewrite Z.mul_1_r, Z.add_0_l in *. split; [split; done|].
  destruct Hcase as [(-> & -> & _)|(-> & Hall & ->)]; [left|right]; split_and?; (done || lia).
Qed.

(** ** Sizes *)

Lemma byte_size_loop_spec i :
  0 <= i -> forall f b, (Z.to_nat (Z.log2 i) < f)%nat ->
  varint_byte_size_loop f i b = b + Z.of_nat (length (write_varint i)).
Proof.
  revert i. refine (seven_bits_ind _ _ _); intros i Hi.
  - intros f b Hf. destruct f as [|f]; [lia|]. cbn [varint_byte_size_loop].
    rewrite write_varint_eq, Z.shiftr_div_pow2 by lia. change (2 ^ 7) with 128.
    rewrite Z.div_small by lia. destruct (Z.leb_spec 128 i); [lia|]. simpl. lia.
  - intros IH f b Hf. destruct f as [|f]; [lia|]. cbn [varint_byte_size_loop].
    rewrite write_varint_eq, Z.shiftr_div_pow2 by lia. change (2 ^ 7) with 128.
    destruct (Z.leb_spec 128 i); [|lia].
    assert (1 <= i / 128) by (apply Z.div_le_lower_bound; lia).
    destruct (Z.eqb_spec (i / 128) 0); [lia|].
    assert (7 <= Z.log2 i) by (apply Z.log2_le_pow2; lia).
    assert (Z.log2 (i / 128) = Z.log2 i - 7) as Hl.
    { change 128 with (2 ^ 7). rewrite <- Z.shiftr_div_pow2 by lia.
      rewrite Z.log2_shiftr by lia. lia. }
    rewrite IH by lia. simpl. lia.
Qed.

Lemma write_varint_length n i :
  0 <= i < 2 ^ (7 * Z.of_nat n) -> (0 < n)%nat -> (length (write_varint i) <= n)%nat.
Proof.
  intros [Hi Hlt] Hn. revert i Hi n Hlt Hn. refine (seven_bits_ind _ _ _); intros i Hi.
  - intros n Hlt Hn. rewrite write_varint_eq by lia. destruct (Z.leb_spec 128 i); [lia|]. simpl. lia.
  - intros IH n Hlt Hn. rewrite write_varint_eq by lia. destruct (Z.leb_spec 128 i); [|lia]. simpl.
    destruct n as [|[|n]]; [lia|simpl in Hlt; lia|].
    apply le_n_S, IH; [|lia]. apply Z.div_lt_upper_bound; [lia|].
    replace (7 * Z.of_nat (S (S n))) with (7 + 7 * Z.of_nat (S n)) in Hlt by lia.
    rewrite Z.pow_add_r in Hlt by lia. lia.
Qed.

(** [get_varint_byte_size] is the length of what [write_varint] writes, and a
    64-bit value takes at most ten bytes. *)
Theorem varint_byte_size (i : Z) :
  is_u64 i ->
  get_varint_byte_size i = Z.of_nat (length (write_varint i)) /\
  1 <= get_varint_byte_size i <= 10.
Proof.
  intros Hi. assert (get_varint_byte_size i = Z.of_nat (length (write_varint i))) as ->.
  { unfold get_varint_byte_size. rewrite byte_size_loop_spec by mach. lia. }
  pose proof (write_varint_nonempty i ltac:(mach)).
  pose proof (write_varint_length 10 i ltac:(split; [mach|change (2 ^ (7 * Z.of_nat 10)) with (2 ^ 70); mach]) ltac:(lia)).
  lia.
Qed.

(** The two examples the comment of the file gives are read otherwise than
    it says: 0x8002 is 0x100 and not 0x200, 0xff02 is 0x17f and not 0x027f. *)
Theorem varint_comment_examples :
  read_varint 64 [0x80; 0x02] = (2, 0x100, []) /\ read_varint 64 [0xff; 0x02] = (2, 0x17f, []).
Proof. by vm_compute. Qed.

(** ** Witnesses *)

Lemma varint_roundtrip_witness :
  read_varint 64 (write_varint UINT64_MAX ++ [7]) = (10, UINT64_MAX, [7]).
Proof. apply (varint_roundtrip 64 UINT64_MAX [7]); by_decide. Defined.

Lemma read_varint_canonical_witness :
  [0xac; 0x02] = write_varint 300 ++ [].
Proof.
  destruct (read_varint_canonical 64 [0xac; 0x02] 2 300 [] eq_refl ltac:(by_decide) eq_refl
              ltac:(by_decide)) as [_ [[H _]|(_ & H & _)]].
  - exact H.
  - exfalso. inversion H as [|? ? _ H']; inversion H' as [|? ? H2 _]. lia.
Defined.

Lemma varint_byte_size_witness : get_varint_byte_size 300 = Z.of_nat (length (write_varint 300)).
Proof. exact (proj1 (varint_byte_size 300 ltac:(by_decide))). Defined.
