(* ===== verification/Base58.v ===== *)
(** * Base58 with fixed-size blocks and checksummed addresses: src/common/base58.cpp

    Strings are lists of bytes. A write outside a buffer is [None]; the
    theorems show that it does not happen. [cn_fast_hash] (Keccak) is a
    parameter of the address functions. *)

From S2P Require Import Prelude IntUtil Radix Varint.

Definition alphabet : list Z :=
  str_bytes "123456789ABCDEFGHJKLMNPQRSTUVWXYZabcdefghijkmnopqrstuvwxyz".
Definition alphabet_size : nat := length alphabet.
Definition encoded_block_sizes : list nat := [0; 2; 3; 5; 6; 7; 9; 10; 11]%nat.
Definition full_block_size : nat := length encoded_block_sizes - 1.
Definition encoded_size (n : nat) : nat := nth n encoded_block_sizes O.
Definition full_encoded_block_size : nat := encoded_size full_block_size.
Definition addr_checksum_size : nat := 4.

Definition letter (d : Z) : Z := nth (Z.to_nat d) alphabet 0.

(** [reverse_alphabet]: the table and the lookup *)
Definition reverse_table : list Z :=
  fold_left (fun m i => <[Z.to_nat (letter (Z.of_nat i) - letter 0) := Z.of_nat i]> m)
    (seq 0 alphabet_size)
    (replicate (Z.to_nat (letter (Z.of_nat alphabet_size - 1) - letter 0 + 1)) (-1)).
Definition reverse_alphabet (c : Z) : Z :=
  let idx := u64 (c - letter 0) in
  if idx <? Z.of_nat (length reverse_table) then nth (Z.to_nat idx) reverse_table (-1) else -1.

(** [decoded_block_sizes]: the table and the lookup *)
Definition decoded_table : list Z :=
  fold_left (fun m i => <[encoded_size i := Z.of_nat i]> m)
    (seq 0 (S full_block_size)) (replicate (S full_encoded_block_size) (-1)).
Definition decoded_block_sizes (n : nat) : Z := nth n decoded_table (-1).

(** The bytes of the word in memory are those of [data], right aligned. *)
Definition uint_8be_to_64 (data : list Z) : Z :=
  SWAP64 (le_value 256 (replicate (8 - length data) 0 ++ data)).
Definition uint_64_to_8be (num : Z) (size : nat) : list Z :=
  drop (8 - size) (le_digits 256 8 (SWAP64 num)).

(** [res[i] = c] *)
Definition store (res : list Z) (i c : Z) : option (list Z) :=
  if (0 <=? i) && (i <? Z.of_nat (length res)) then Some (<[Z.to_nat i := c]> res) else None.

Fixpoint encode_block_loop (fuel : nat) (num i : Z) (res : list Z) : option (list Z) :=
  if 0 <? num then
    match fuel with
    | O => None
    | S fuel =>
        let remainder := num mod Z.of_nat alphabet_size in
        let num := num / Z.of_nat alphabet_size in
        res ← store res i (letter remainder);
        encode_block_loop fuel num (i - 1) res
    end
  else Some res.

(** A 64-bit number has at most 11 digits. *)
Definition encode_block (block : list Z) : option (list Z) :=
  let size := length block in
  let num := uint_8be_to_64 block in
  let i := Z.of_nat (encoded_size size) - 1 in
  encode_block_loop 11 num i (replicate (encoded_size size) (letter 0)).

(** The loop of [decode_block] over the characters from the last to the first *)
Fixpoint decode_block_loop (cs : list Z) (res_num order : Z) : option Z :=
  match cs with
  | [] => Some res_num
  | c :: cs =>
      let digit := reverse_alphabet c in
      if digit <? 0 then None
      else
        let '(lo, product_hi) := mul128 order digit in
        let tmp := u64 (res_num + lo) in
        if (tmp <? res_num) || negb (product_hi =? 0) then None
        else decode_block_loop cs tmp (u64 (order * Z.of_nat alphabet_size))
  end.

Definition decode_block (block : list Z) : option (list Z) :=
  let res_size := decoded_block_sizes (length block) in
  if res_size <=? 0 then None
  else
    res_num ← decode_block_loop (rev block) 0 1;
    if (res_size <? Z.of_nat full_block_size) && (Z.shiftl 1 (8 * res_size) <=? res_num)
    then None
    else Some (uint_64_to_8be res_num (Z.to_nat res_size)).

Fixpoint encode_full_blocks (n : nat) (data : list Z) : option (list Z) :=
  match n with
  | O => Some []
  | S n =>
      b ← encode_block (take full_block_size data);
      r ← encode_full_blocks n (drop full_block_size data);
      Some (b ++ r)
  end.

Definition encode (data : list Z) : option (list Z) :=
  match data with
  | [] => Some []
  | _ =>
      let full_block_count := (length data / full_block_size)%nat in
      let last_block_size := (length data mod full_block_size)%nat in
      full ← encode_full_blocks full_block_count data;
      if bool_decide (0 < last_block_size)%nat
      then last ← encode_block (drop (full_block_count * full_block_size) data); Some (full ++ last)
      else Some full
  end.

Fixpoint decode_full_blocks (n : nat) (enc : list Z) : option (list Z) :=
  match n with
  | O => Some []
  | S n =>
      b ← decode_block (take full_encoded_block_size enc);
      r ← decode_full_blocks n (drop full_encoded_block_size enc);
      Some (b ++ r)
  end.

(** [None] is the result [false]. *)
Definition decode (enc : list Z) : option (list Z) :=
  match enc with
  | [] => Some []
  | _ =>
      let full_block_count := (length enc / full_encoded_block_size)%nat in
      let last_block_size := (length enc mod full_encoded_block_size)%nat in
      if decoded_block_sizes last_block_size <? 0 then None
      else
        full ← decode_full_blocks full_block_count enc;
        if bool_decide (0 < last_block_size)%nat
        then last ← decode_block (drop (full_block_count * full_encoded_block_size) enc);
             Some (full ++ last)
        else Some full
  end.

Section Addresses.
(** The 32 bytes of the hash *)
Context (cn_fast_hash : list Z -> list Z).

Definition encode_addr (tag : Z) (data : list Z) : option (list Z) :=
  let buf := get_varint_data tag ++ data in
  encode (buf ++ take addr_checksum_size (cn_fast_hash buf)).

Definition decode_addr (addr : list Z) : option (Z * list Z) :=
  addr_data ← decode addr;
  if bool_decide (length addr_data <= addr_checksum_size)%nat then None
  else
    let checksum := drop (length addr_data - addr_checksum_size) addr_data in
    let addr_data := take (length addr_data - addr_checksum_size) addr_data in
    let expected_checksum := take addr_checksum_size (cn_fast_hash addr_data) in
    if negb (bool_decide (expected_checksum = checksum)) then None
    else
      let '(read, tag, _) := read_varint 64 addr_data in
      if read <=? 0 then None else Some (tag, drop (Z.to_nat read) addr_data).
End Addresses.

Example encode_demo :
  encode (str_bytes "0123456789") = Some (str_bytes "94XRDHZYFLS5HA").
Proof. vm_compute. reflexivity. Qed.

(** ** The tables *)

Definition is_digit58 (d : Z) : Prop := 0 <= d < 58.

Lemma reverse_letter d : is_digit58 d -> reverse_alphabet (letter d) = d.
Proof.
  intros Hd. unfold is_digit58 in Hd.
  assert (forall k, (k < 58)%nat -> reverse_alphabet (letter (Z.of_nat k)) = Z.of_nat k) as H.
  { intros k Hk. do 58 (destruct k as [|k]; [by vm_compute|]). lia. }
  rewrite <- (Z2Nat.id d) by lia. apply H. lia.
Qed.

(** A byte with a digit is the letter of that digit. *)
Lemma letter_reverse c :
  is_u8 c -> 0 <= reverse_alphabet c ->
  is_digit58 (reverse_alphabet c) /\ letter (reverse_alphabet c) = c.
Proof.
  intros Hc. assert (forall k, (k < 256)%nat ->
    let d := reverse_alphabet (Z.of_nat k) in
    (d <? 0) || ((0 <=? d) && (d <? 58) && (letter d =? Z.of_nat k)) = true) as H.
  { intros k Hk. do 256 (destruct k as [|k]; [by vm_compute|]). lia. }
  specialize (H (Z.to_nat c)). rewrite Z2Nat.id in H by mach. specialize (H ltac:(mach)).
  cbv zeta in H. unfold is_digit58. intros Hr. lia.
Qed.

Lemma letter_byte d : is_digit58 d -> is_u8 (letter d).
Proof.
  intros Hd. unfold is_digit58 in Hd.
  assert (forall k, (k < 58)%nat -> is_u8 (letter (Z.of_nat k))) as H.
  { intros k Hk. do 58 (destruct k as [|k]; [by_decide|]). lia. }
  rewrite <- (Z2Nat.id d) by lia. apply H. lia.
Qed.

(** The lengths of a block and of its encoding, and that the encoding has room. *)
Definition block_sizes (n m : nat) : Prop :=
  (1 <= n <= 8)%nat /\ encoded_size n = m.

Lemma block_sizes_facts n m :
  block_sizes n m ->
  (1 <= m <= 11)%nat /\ decoded_block_sizes m = Z.of_nat n /\
  256 ^ Z.of_nat n <= 58 ^ Z.of_nat m /\ 256 ^ Z.of_nat n <= 2 ^ 64 /\
  2 ^ (8 * Z.of_nat n) = 256 ^ Z.of_nat n.
Proof.
  intros [Hn <-]. do 9 (destruct n as [|n]; [try lia; vm_compute; split_and!; try done; lia|]). lia.
Qed.

Lemma decoded_size_inv m :
  0 < decoded_block_sizes m -> block_sizes (Z.to_nat (decoded_block_sizes m)) m.
Proof.
  do 12 (destruct m as [|m];
    [first [by intros Hm; vm_compute in Hm | intros _; split; [by_decide|by vm_compute]]|]).
  unfold decoded_block_sizes. rewrite nth_overflow by (vm_compute; lia). lia.
Qed.

(** ** One block *)

Lemma be_to_64_value data :
  byte_list data -> (length data <= 8)%nat -> uint_8be_to_64 data = le_value 256 (rev data).
Proof.
  intros Hb Hl. unfold uint_8be_to_64. rewrite SWAP64_bytes.
  - rewrite rev_app_distr, le_value_app by lia.
    rewrite rev_replicate, le_value_zeros. lia.
  - apply digit_list_app. split; [|done]. apply Forall_replicate. lia.
  - rewrite length_app, length_replicate. lia.
Qed.

Lemma to_8be_digits num n :
  0 <= num < 2 ^ 64 -> (n <= 8)%nat -> uint_64_to_8be num n = rev (le_digits 256 n num).
Proof.
  intros Hn Hl. unfold uint_64_to_8be.
  assert (SWAP64 num = le_value 256 (rev (le_digits 256 8 num))) as ->.
  { rewrite <- SWAP64_bytes; [|by apply le_digits_list|by rewrite le_digits_length].
    by rewrite le_value_digits_small by (change (256 ^ Z.of_nat 8) with (2 ^ 64); lia). }
  assert (length (rev (le_digits 256 8 num)) = 8%nat) as E by (by rewrite length_rev, le_digits_length).
  rewrite <- E at 2. rewrite le_digits_value by (try lia; by apply Forall_rev, le_digits_list).
  replace (le_digits 256 8 num) with (le_digits 256 (n + (8 - n)) num) by (f_equal; lia).
  rewrite le_digits_app, rev_app_distr by lia.
  rewrite drop_app_length'; [done|]. by rewrite length_rev, le_digits_length.
Qed.

Lemma encode_loop_spec fuel k num t :
  (k <= fuel)%nat -> 0 <= num < 58 ^ Z.of_nat k ->
  encode_block_loop fuel num (Z.of_nat k - 1) (replicate k (letter 0) ++ t)
  = Some ((letter <$> rev (le_digits 58 k num)) ++ t).
Proof.
  revert k num t. induction fuel as [|fuel IH]; intros k num t Hk Hn.
  - assert (k = O) as -> by lia. simpl in Hn. cbn [encode_block_loop].
    destruct (Z.ltb_spec 0 num); [lia|]. done.
  - cbn [encode_block_loop]. destruct (Z.ltb_spec 0 num).
    + destruct k as [|k]; [simpl in Hn; lia|].
      change (Z.of_nat alphabet_size) with 58. unfold store.
      rewrite length_app, length_replicate.
      destruct (Z.leb_spec 0 (Z.of_nat (S k) - 1)); [|lia].
      destruct (Z.ltb_spec (Z.of_nat (S k) - 1) (Z.of_nat (S k + length t))); [|lia]. cbn [andb mbind option_bind].
      replace (Z.to_nat (Z.of_nat (S k) - 1)) with (k + 0)%nat by lia.
      replace (replicate (S k) (letter 0) ++ t) with (replicate k (letter 0) ++ letter 0 :: t)
        by (rewrite replicate_S_end, <- app_assoc; done).
      rewrite insert_app_r_alt by (rewrite length_replicate; lia).
      rewrite length_replicate. replace (k + 0 - k)%nat with O by lia. cbn [list_insert insert].
      replace (Z.of_nat (S k) - 1 - 1) with (Z.of_nat k - 1) by lia.
      rewrite IH.
      * cbn [le_digits rev]. by rewrite fmap_app, <- app_assoc.
      * lia.
      * rewrite Nat2Z.inj_succ, Z.pow_succ_r in Hn by lia.
        split; [apply Z.div_pos; lia|]. apply Z.div_lt_upper_bound; lia.
    + assert (num = 0) as -> by lia. rewrite le_digits_zero by lia. do 2 f_equal.
      by rewrite rev_replicate, fmap_replicate.
Qed.

Lemma encode_block_spec block m :
  byte_list block -> block_sizes (length block) m ->
  encode_block block = Some (letter <$> rev (le_digits 58 m (le_value 256 (rev block)))).
Proof.
  intros Hb Hs. destruct (block_sizes_facts _ _ Hs) as (Hm & _ & Hle & _). destruct Hs as [Hn <-].
  unfold encode_block. rewrite be_to_64_value by (done || lia).
  pose proof (le_value_bound 256 (rev block) ltac:(lia) ltac:(by apply Forall_rev)) as Hv.
  rewrite length_rev in Hv.
  rewrite <- (app_nil_r (replicate _ _)), encode_loop_spec by lia. by rewrite app_nil_r.
Qed.

(** The digits of a text, from the last character to the first *)
Definition digit_of_letter (c : Z) : option Z :=
  if reverse_alphabet c <? 0 then None else Some (reverse_alphabet c).

Lemma decode_loop_spec cs k res :
  Forall is_u8 cs -> (length cs + k <= 11)%nat -> 0 <= res < 2 ^ 64 ->
  decode_block_loop cs res (u64 (58 ^ Z.of_nat k)) =
  ds ← mapM digit_of_letter cs;
  if res + 58 ^ Z.of_nat k * le_value 58 ds <? 2 ^ 64
  then Some (res + 58 ^ Z.of_nat k * le_value 58 ds) else None.
Proof.
  intros Hcs. revert k res. induction Hcs as [|c cs Hc Hcs IH]; intros k res Hl Hr.
  - cbn. rewrite Z.mul_0_r, Z.add_0_r. destruct (Z.ltb_spec res (2 ^ 64)); [done|lia].
  - cbn [decode_block_loop mapM]. assert (digit_of_letter c =
      if reverse_alphabet c <? 0 then None else Some (reverse_alphabet c)) as -> by done.
    destruct (Z.ltb_spec (reverse_alphabet c) 0) as [|Hd]; [done|].
    destruct (letter_reverse c Hc Hd) as [Hd58 _]. unfold is_digit58 in Hd58.
    set (d := reverse_alphabet c) in *. clearbody d. cbn [length] in Hl.
    assert (58 ^ Z.of_nat k <= 58 ^ 10) by (apply Z.pow_le_mono_r; lia).
    assert (0 < 58 ^ Z.of_nat k) by (apply Z.pow_pos_nonneg; lia).
    assert (58 ^ 10 < 2 ^ 64) by done.
    rewrite (wrap_small 64 (58 ^ Z.of_nat k)) by mach.
    pose proof (mul128_spec (58 ^ Z.of_nat k) d ltac:(mach) ltac:(mach)) as Hm.
    destruct (mul128 (58 ^ Z.of_nat k) d) as [lo hi]. destruct Hm as (Hlo & Hhi & Em).
    pose proof (carry_spec 64 res lo ltac:(lia) ltac:(done) Hlo) as Ec.
    assert (58 ^ Z.of_nat (S k) = 58 * 58 ^ Z.of_nat k) as E58
      by (by rewrite Nat2Z.inj_succ, Z.pow_succ_r by lia).
    assert (u64 (58 ^ Z.of_nat k * Z.of_nat alphabet_size) = u64 (58 ^ Z.of_nat (S k))) as ->
      by (rewrite E58; f_equal; change (Z.of_nat alphabet_size) with 58; lia).
    assert (forall ds, digit_list 58 ds -> 0 <= le_value 58 ds) as Hpos
      by (intros ds Hds; apply (le_value_bound 58 ds); lia || done).
    assert (forall ds, mapM digit_of_letter cs = Some ds -> digit_list 58 ds) as Hds.
    { intros ds Hds. apply mapM_Some in Hds. clear -Hcs Hds.
      induction Hds as [|c' d' cs ds Hcd _ IH]; [constructor|].
      apply Forall_cons in Hcs as [Hc' Hcs]. constructor; [|by apply IH].
      unfold digit_of_letter in Hcd. destruct (Z.ltb_spec (reverse_alphabet c') 0); [done|].
      injection Hcd as <-. by apply letter_reverse. }
    set (tmp := u64 (res + lo)) in *.
    destruct (Z.ltb_spec tmp res).
    { cbn [orb mbind option_bind]. destruct (mapM digit_of_letter cs) as [ds|]; [|done]. cbn.
      specialize (Hpos ds (Hds ds eq_refl)).
      pose proof (wrap_range 64 (res + lo) ltac:(lia)) as Ht. fold tmp in Ht.
      destruct (Z.ltb_spec (res + 58 ^ Z.of_nat k * (d + 58 * le_value 58 ds)) (2 ^ 64)); [|done].
      unfold in_width in *. nia. }
    destruct (Z.eqb_spec hi 0) as [->|]; cbn [orb negb].
    + rewrite IH by (try lia; apply wrap_range; lia).
      assert (tmp = res + 58 ^ Z.of_nat k * d) as -> by lia.
      cbn [mbind option_bind]. destruct (mapM digit_of_letter cs) as [ds|]; [|done]. cbn.
      rewrite E58.
      replace (res + 58 ^ Z.of_nat k * (d + 58 * le_value 58 ds))
        with (res + 58 ^ Z.of_nat k * d + 58 * 58 ^ Z.of_nat k * le_value 58 ds) by ring. done.
    + cbn [mbind option_bind]. destruct (mapM digit_of_letter cs) as [ds|]; [|done]. cbn.
      specialize (Hpos ds (Hds ds eq_refl)).
      destruct (Z.ltb_spec (res + 58 ^ Z.of_nat k * (d + 58 * le_value 58 ds)) (2 ^ 64)); [|done].
      unfold in_width in *. nia.
Qed.

Lemma digits_of_letters ds :
  digit_list 58 ds -> mapM digit_of_letter (letter <$> ds) = Some ds.
Proof.
  induction 1 as [|d ds Hd _ IH]; [done|]. cbn [fmap list_fmap mapM].
  assert (digit_of_letter (letter d) = Some d) as ->.
  { unfold digit_of_letter. rewrite reverse_letter by done. by destruct (Z.ltb_spec d 0); [lia|]. }
  cbn. by rewrite IH.
Qed.

Lemma letters_of_digits cs ds :
  Forall is_u8 cs -> mapM digit_of_letter cs = Some ds -> letter <$> ds = cs /\ digit_list 58 ds.
Proof.
  intros Hcs Hds. apply mapM_Some in Hds. induction Hds as [|c d cs ds Hcd _ IH]; [by repeat constructor|].
  apply Forall_cons in Hcs as [Hc Hcs]. destruct (IH Hcs) as [<- Hd].
  unfold digit_of_letter in Hcd. destruct (Z.ltb_spec (reverse_alphabet c) 0); [done|].
  injection Hcd as <-. destruct (letter_reverse c Hc) as [H1 H2]; [done|].
  cbn [fmap list_fmap]. rewrite H2. split; [done|by constructor].
Qed.

(** [decode_block] on a text of an admissible length *)
Lemma decode_block_spec block n :
  Forall is_u8 block -> block_sizes n (length block) ->
  decode_block block =
  ds ← mapM digit_of_letter (rev block);
  if le_value 58 ds <? 256 ^ Z.of_nat n then Some (rev (le_digits 256 n (le_value 58 ds))) else None.
Proof.
  intros Hb Hs. destruct (block_sizes_facts _ _ Hs) as (Hm & Hd & Hle & H64 & Hpow).
  destruct Hs as [Hn He]. unfold decode_block. rewrite Hd. destruct (Z.leb_spec (Z.of_nat n) 0); [lia|].
  change (decode_block_loop (rev block) 0 1)
    with (decode_block_loop (rev block) 0 (u64 (58 ^ Z.of_nat 0))).
  rewrite decode_loop_spec by (try (by apply Forall_rev); rewrite ?length_rev; lia).
  destruct (mapM digit_of_letter (rev block)) as [ds|] eqn:E; [|done]. cbn [mbind option_bind].
  destruct (letters_of_digits _ _ ltac:(by apply Forall_rev) E) as [_ Hds].
  pose proof (le_value_bound 58 ds ltac:(lia) Hds) as Hv.
  change (58 ^ Z.of_nat 0) with 1. rewrite Z.mul_1_l, Z.add_0_l, Nat2Z.id.
  change (Z.of_nat full_block_size) with 8. rewrite Z.shiftl_mul_pow2, Z.mul_1_l, Hpow by lia.
  destruct (Z.ltb_spec (le_value 58 ds) (256 ^ Z.of_nat n)).
  - destruct (Z.ltb_spec (le_value 58 ds) (2 ^ 64)); [|lia]. cbn [mbind option_bind].
    destruct (Z.leb_spec (256 ^ Z.of_nat n) (le_value 58 ds)); [lia|]. rewrite andb_false_r.
    by rewrite to_8be_digits by lia.
  - destruct (Z.ltb_spec (le_value 58 ds) (2 ^ 64)); [|done]. cbn [mbind option_bind].
    destruct (Z.leb_spec (256 ^ Z.of_nat n) (le_value 58 ds)); [|lia].
    destruct (Z.ltb_spec (Z.of_nat n) 8); [done|]. replace n with 8%nat in * by lia.
    change (256 ^ Z.of_nat 8) with (2 ^ 64) in *. lia.
Qed.

Lemma decode_encode_block b m :
  byte_list b -> block_sizes (length b) m ->
  exists e, encode_block b = Some e /\ length e = m /\ Forall is_u8 e /\ decode_block e = Some b.
Proof.
  intros Hb Hs. destruct (block_sizes_facts _ _ Hs) as (Hm & _ & Hle & _).
  pose proof (le_value_bound 256 (rev b) ltac:(lia) ltac:(by apply Forall_rev)) as Hv.
  rewrite length_rev in Hv. set (v := le_value 256 (rev b)) in *.
  assert (digit_list 58 (le_digits 58 m v)) as Hd by (by apply le_digits_list).
  rewrite (encode_block_spec b m) by done. fold v. eexists. split; [done|].
  set (e := letter <$> rev (le_digits 58 m v)).
  assert (length e = m) as Hl by (unfold e; by rewrite length_fmap, length_rev, le_digits_length).
  assert (Forall is_u8 e) as He.
  { unfold e. apply Forall_fmap, Forall_rev. eapply Forall_impl; [exact Hd|]. apply letter_byte. }
  split; [done|]. split; [done|]. rewrite (decode_block_spec e (length b)) by (by rewrite ?Hl).
  assert (rev e = letter <$> le_digits 58 m v) as ->
    by (unfold e; by rewrite <- map_rev, rev_involutive).
  rewrite digits_of_letters by done. cbn [mbind option_bind].
  rewrite le_value_digits_small by lia. destruct (Z.ltb_spec v (256 ^ Z.of_nat (length b))); [|lia].
  unfold v. rewrite <- (length_rev b), le_digits_value, rev_involutive by (lia || by apply Forall_rev).
  done.
Qed.

Lemma encode_decode_block e d :
  Forall is_u8 e -> decode_block e = Some d ->
  byte_list d /\ block_sizes (length d) (length e) /\ encode_block d = Some e.
Proof.
  intros He Hd.
  assert (0 < decoded_block_sizes (length e)) as Hpos.
  { unfold decode_block in Hd. by destruct (Z.leb_spec (decoded_block_sizes (length e)) 0). }
  pose proof (decoded_size_inv _ Hpos) as Hs.
  set (n := Z.to_nat (decoded_block_sizes (length e))) in *. clearbody n. clear Hpos.
  rewrite (decode_block_spec e n) in Hd by done.
  destruct (mapM digit_of_letter (rev e)) as [ds|] eqn:E; [|done]. cbn [mbind option_bind] in Hd.
  destruct (letters_of_digits _ _ ltac:(by apply Forall_rev) E) as [El Hds].
  pose proof (le_value_bound 58 ds ltac:(lia) Hds) as Hv.
  destruct (Z.ltb_spec (le_value 58 ds) (256 ^ Z.of_nat n)); [|done]. injection Hd as <-.
  assert (byte_list (rev (le_digits 256 n (le_value 58 ds)))) as Hb
    by (by apply Forall_rev, le_digits_list).
  assert (length (rev (le_digits 256 n (le_value 58 ds))) = n) as Hl
    by (by rewrite length_rev, le_digits_length).
  split; [done|]. rewrite Hl. split; [done|].
  rewrite (encode_block_spec _ (length e)) by (by rewrite ?Hl).
  rewrite rev_involutive, le_value_digits_small by lia.
  assert (length e = length ds) as ->
    by (rewrite <- (length_rev e), <- El; apply length_fmap).
  rewrite le_digits_value by (done || lia). f_equal.
  rewrite <- (rev_involutive e), <- El. apply (map_rev letter).
Qed.

(** ** All blocks *)

Lemma full_encode n data :
  byte_list data -> (8 * n <= length data)%nat ->
  exists e, encode_full_blocks n data = Some e /\ length e = (11 * n)%nat /\ Forall is_u8 e /\
            forall t, decode_full_blocks n (e ++ t) = Some (take (8 * n) data).
Proof.
  revert data. induction n as [|n IH]; intros data Hb Hl; [exists []; by repeat constructor|].
  assert (length (take 8 data) = 8%nat) as Hl8 by (rewrite length_take; lia).
  destruct (decode_encode_block (take 8 data) 11) as (b & Eb & Lb & Hbb & Db).
  { by apply Forall_take. } { rewrite Hl8. by split; [lia|]. }
  destruct (IH (drop 8 data)) as (r & Er & Lr & Hr & Dr).
  { by apply Forall_drop. } { rewrite length_drop. lia. }
  exists (b ++ r). cbn [encode_full_blocks]. change full_block_size with 8%nat. rewrite Eb, Er. cbn.
  split; [done|]. split; [rewrite length_app; lia|]. split; [by apply Forall_app|]. intros t.
  change full_encoded_block_size with 11%nat. rewrite <- app_assoc.
  rewrite take_app_length', drop_app_length', Db, Dr by done. cbn [mbind option_bind]. f_equal.
  rewrite take_take_drop. f_equal. lia.
Qed.

Lemma full_decode n enc d :
  Forall is_u8 enc -> (11 * n <= length enc)%nat -> decode_full_blocks n enc = Some d ->
  byte_list d /\ length d = (8 * n)%nat /\
  forall t, encode_full_blocks n (d ++ t) = Some (take (11 * n) enc).
Proof.
  revert enc d. induction n as [|n IH]; intros enc d Hb Hl.
  - intros [= <-]. by repeat constructor.
  - cbn [decode_full_blocks]. change full_encoded_block_size with 11%nat.
    destruct (decode_block (take 11 enc)) as [b|] eqn:Eb; [|done]. cbn [mbind option_bind].
    destruct (decode_full_blocks n (drop 11 enc)) as [r|] eqn:Er; [|done]. intros [= <-].
    destruct (encode_decode_block _ _ ltac:(by apply Forall_take) Eb) as (Hbb & [Hs1 Hs2] & Eeb).
    destruct (IH (drop 11 enc) r) as (Hr & Lr & Er2); [by apply Forall_drop|rewrite length_drop; lia|done|].
    assert (length b = 8%nat) as Lb.
    { rewrite length_take, Nat.min_l in Hs2 by lia. clear -Hs1 Hs2.
      generalize dependent (length b). intros k Hk1 Hk2.
      do 9 (destruct k as [|k]; [vm_compute in Hk2; lia|]). lia. }
    split; [by apply digit_list_app|]. split; [rewrite length_app; lia|]. intros t.
    cbn [encode_full_blocks]. change full_block_size with 8%nat.
    rewrite <- app_assoc, take_app_length', drop_app_length', Eeb, Er2 by done. cbn [mbind option_bind].
    f_equal. rewrite take_take_drop. f_equal. lia.
Qed.

(** ** Whole texts *)

Lemma divmod_blocks k n l :
  (l < k)%nat -> ((k * n + l) / k = n /\ (k * n + l) mod k = l)%nat.
Proof.
  intros Hl. split.
  - symmetry. apply (Nat.div_unique _ _ _ l); lia.
  - symmetry. apply (Nat.mod_unique _ _ n l); lia.
Qed.

Lemma encode_eq n l data :
  length data = (8 * n + l)%nat -> (l < 8)%nat ->
  encode data =
  full ← encode_full_blocks n data;
  if bool_decide (0 < l)%nat then last ← encode_block (drop (8 * n) data); Some (full ++ last)
  else Some full.
Proof.
  intros Hl Hlt. destruct data as [|c data].
  - simpl in Hl. assert (n = O) as -> by lia. by assert (l = O) as -> by lia.
  - unfold encode. change full_block_size with 8%nat.
    rewrite Hl. destruct (divmod_blocks 8 n l Hlt) as [-> ->]. by rewrite (Nat.mul_comm n 8).
Qed.

Lemma decode_eq n l enc :
  length enc = (11 * n + l)%nat -> (l < 11)%nat ->
  decode enc =
  if decoded_block_sizes l <? 0 then None
  else
    full ← decode_full_blocks n enc;
    if bool_decide (0 < l)%nat then last ← decode_block (drop (11 * n) enc); Some (full ++ last)
    else Some full.
Proof.
  intros Hl Hlt. destruct enc as [|c enc].
  - simpl in Hl. assert (n = O) as -> by lia. by assert (l = O) as -> by lia.
  - unfold decode. change full_encoded_block_size with 11%nat.
    rewrite Hl. destruct (divmod_blocks 11 n l Hlt) as [-> ->]. by rewrite (Nat.mul_comm n 11).
Qed.

(** The texts of [n] full blocks and a last one of [l] bytes *)
Lemma encoded_size_lt l : (l < 8)%nat -> (encoded_size l < 11)%nat /\ (0 < l -> 0 < encoded_size l)%nat
  /\ decoded_block_sizes (encoded_size l) = Z.of_nat l.
Proof. intros Hl. do 8 (destruct l as [|l]; [vm_compute; split_and!; try done; lia|]). lia. Qed.

Lemma decode_encode data :
  byte_list data ->
  exists e, encode data = Some e /\ Forall is_u8 e /\ decode e = Some data /\
            length e = (11 * (length data / 8) + encoded_size (length data mod 8))%nat.
Proof.
  intros Hb. set (n := (length data / 8)%nat). set (l := (length data mod 8)%nat).
  assert (length data = (8 * n + l)%nat) as Hl by (apply Nat.div_mod; lia).
  assert (l < 8)%nat as Hlt by (apply Nat.mod_upper_bound; lia). clearbody n l.
  destruct (full_encode n data Hb ltac:(lia)) as (f & Ef & Lf & Hf & Df).
  destruct (encoded_size_lt l Hlt) as (Hs11 & Hs0 & Hsd).
  rewrite (encode_eq n l) by done. rewrite Ef. cbn [mbind option_bind]. case_bool_decide as Hl0.
  - destruct (decode_encode_block (drop (8 * n) data) (encoded_size l)) as (b & Eb & Lb & Hbb & Db).
    { by apply Forall_drop. } { rewrite length_drop. split; [lia|f_equal; lia]. }
    rewrite Eb. cbn [mbind option_bind]. eexists. split; [done|]. split; [by apply Forall_app|].
    rewrite (decode_eq n (encoded_size l)) by (rewrite ?length_app; lia). rewrite Hsd.
    destruct (Z.ltb_spec (Z.of_nat l) 0); [lia|].
    rewrite Df, drop_app_length' by done. cbn [mbind option_bind].
    rewrite bool_decide_eq_true_2 by auto. rewrite Db. cbn [mbind option_bind].
    rewrite take_drop. split; [done|]. rewrite length_app. lia.
  - assert (l = O) as -> by lia. eexists. split; [done|]. split; [done|].
    change (encoded_size 0) with O. rewrite (decode_eq n 0) by lia.
    change (decoded_block_sizes 0 <? 0) with false. cbv iota.
    specialize (Df []). rewrite app_nil_r in Df. rewrite Df. cbn.
    rewrite take_ge by lia. split; [done|lia].
Qed.

Lemma encode_decode e d :
  Forall is_u8 e -> decode e = Some d -> byte_list d /\ encode d = Some e.
Proof.
  intros He. set (n := (length e / 11)%nat). set (l := (length e mod 11)%nat).
  assert (length e = (11 * n + l)%nat) as Hl by (apply Nat.div_mod; lia).
  assert (l < 11)%nat as Hlt by (apply Nat.mod_upper_bound; lia). clearbody n l.
  rewrite (decode_eq n l) by done. destruct (Z.ltb_spec (decoded_block_sizes l) 0); [done|].
  destruct (decode_full_blocks n e) as [f|] eqn:Ef; [|done]. cbn [mbind option_bind].
  destruct (full_decode n e f He ltac:(lia) Ef) as (Hf & Lf & Eff). case_bool_decide as Hl0.
  - destruct (decode_block (drop (11 * n) e)) as [b|] eqn:Eb; [|done]. intros [= <-].
    destruct (encode_decode_block _ _ (Forall_drop _ (11 * n) e He) Eb) as (Hb & [Hs1 Hs2] & Eeb).
    rewrite length_drop in Hs2.
    assert (length b < 8)%nat as Lb.
    { destruct (decide (length b = 8%nat)) as [E|]; [|lia]. rewrite E in Hs2. change (encoded_size 8) with 11%nat in Hs2. lia. }
    split; [by apply digit_list_app|].
    rewrite (encode_eq n (length b)) by (rewrite ?length_app; lia).
    rewrite Eff, drop_app_length' by done. cbn [mbind option_bind].
    rewrite bool_decide_eq_true_2 by lia. rewrite Eeb. cbn [mbind option_bind].
    by rewrite take_drop.
  - assert (l = O) as -> by lia. intros [= <-]. split; [done|].
    rewrite (encode_eq n 0) by lia. specialize (Eff []). rewrite app_nil_r in Eff. rewrite Eff. cbn.
    by rewrite take_ge by lia.
Qed.

(** Every byte string is encoded, without a write outside the buffers, into a
    text of the length the size table says, and decoding that text gives the
    string back. *)
Theorem base58_roundtrip (data : list Z) :
  byte_list data ->
  exists e, encode data = Some e /\ decode e = Some data /\
            length e = (11 * (length data / 8) + encoded_size (length data mod 8))%nat.
Proof. intros Hb. destruct (decode_encode data Hb) as (e & He & _ & Hd & Hl). eauto. Qed.

(** Decoding accepts only what encoding produces: a text that decodes to
    [data] is the encoding of [data], so no two texts have the same meaning; bad
    symbols, bad lengths and overflowing blocks are all refused. *)
Theorem base58_canonical (e data : list Z) :
  Forall is_u8 e -> decode e = Some data -> byte_list data /\ encode data = Some e.
Proof. apply encode_decode. Qed.

Section AddressFacts.
Context (cn_fast_hash : list Z -> list Z).
(** The hash has 32 bytes. *)
Hypothesis hash_bytes : forall m, byte_list (cn_fast_hash m) /\ length (cn_fast_hash m) = 32%nat.

Lemma checksum_length m : length (take addr_checksum_size (cn_fast_hash m)) = 4%nat.
Proof. rewrite length_take. destruct (hash_bytes m) as [_ ->]. done. Qed.

(** An address encoded from a 64-bit tag and data decodes to that tag and that
    data. *)
Lemma decode_encode_addr tag data :
  is_u64 tag -> byte_list data ->
  exists a, encode_addr cn_fast_hash tag data = Some a /\ Forall is_u8 a /\
            decode_addr cn_fast_hash a = Some (tag, data) /\
            let n := (length (write_varint tag) + length data + 4)%nat in
            length a = (11 * (n / 8) + encoded_size (n mod 8))%nat.
Proof.
  intros Ht Hb. unfold encode_addr, get_varint_data. set (buf := write_varint tag ++ data).
  assert (byte_list buf) as Hbuf.
  { apply digit_list_app. split; [|done]. apply write_varint_bytes. mach. }
  destruct (decode_encode (buf ++ take addr_checksum_size (cn_fast_hash buf))) as (a & Ea & Ha & Da & La).
  { apply digit_list_app. split; [done|]. apply Forall_take. apply hash_bytes. }
  exists a. split; [done|]. split; [done|].
  refine ((fun Hlen Hdec => conj Hdec Hlen) _ _).
  { cbv zeta. rewrite La, !length_app, checksum_length. unfold buf. by rewrite !length_app. }
  unfold decode_addr. rewrite Da. cbn [mbind option_bind].
  assert (length (buf ++ take addr_checksum_size (cn_fast_hash buf)) = (length buf + 4)%nat) as Hl
    by (by rewrite length_app, checksum_length).
  pose proof (write_varint_nonempty tag ltac:(mach)) as Hne.
  assert (1 <= length buf)%nat by (unfold buf; rewrite length_app; lia).
  rewrite bool_decide_eq_false_2 by (rewrite Hl; unfold addr_checksum_size; lia).
  rewrite Hl. replace (length buf + 4 - addr_checksum_size)%nat with (length buf)
    by (unfold addr_checksum_size; lia).
  rewrite take_app_length, drop_app_length, bool_decide_eq_true_2 by done. cbn [negb].
  unfold buf at 1. unfold read_varint. rewrite (read_write_loop 64) by (mach || lia).
  rewrite Z.mul_1_r, !Z.add_0_l. destruct (Z.leb_spec (Z.of_nat (length (write_varint tag))) 0); [lia|].
  rewrite Nat2Z.id. unfold buf. by rewrite drop_app_length.
Qed.

(** An address decodes only when its last four bytes are the checksum of the
    rest; it is then the very text [encode_addr] makes of the tag and data
    returned. The one exception is an address without data whose tag is cut off
    in the middle of its varint, which is accepted. *)
Lemma decode_addr_inv a tag data :
  Forall is_u8 a -> decode_addr cn_fast_hash a = Some (tag, data) ->
  is_u64 tag /\ byte_list data /\ (
  encode_addr cn_fast_hash tag data = Some a \/
  (data = [] /\ exists body, body <> [] /\ Forall (fun b => 128 <= b) body /\
     decode a = Some (body ++ take addr_checksum_size (cn_fast_hash body)))).
Proof.
  intros Ha. unfold decode_addr. destruct (decode a) as [ad|] eqn:Ed; [|done]. cbn [mbind option_bind].
  destruct (encode_decode a ad Ha Ed) as [Hb Ee]. case_bool_decide as Hl; [done|].
  set (body := take (length ad - addr_checksum_size) ad).
  assert (byte_list body) as Hbody by (by apply Forall_take).
  case_bool_decide as Hsum; [|done]. cbn [negb].
  destruct (read_varint 64 body) as [[n v] rest] eqn:Er. destruct (Z.leb_spec n 0); [done|].
  intros [= <- <-].
  assert (ad = body ++ take addr_checksum_size (cn_fast_hash body)) as Ead
    by (rewrite Hsum; unfold body; by rewrite take_drop).
  destruct (read_loop_sound 64 body 0 0 0 n v rest) as [(i & Hi & -> & Hcase) Hv]; try done; try lia.
  rewrite Z.mul_1_r, !Z.add_0_l in *. split; [split; done|]. split; [by apply Forall_drop|].
  destruct Hcase as [(Eb & -> & _)|(-> & Hall & ->)].
  - left. rewrite Nat2Z.id. unfold encode_addr, get_varint_data. rewrite Eb.
    rewrite drop_app_length, <- Eb, <- Ead. done.
  - right. rewrite Nat2Z.id, drop_all. split; [done|]. exists body. split_and!; [|done|by f_equal].
    intros E. rewrite E in *. simpl in *. lia.
Qed.
End AddressFacts.

(** ** Witnesses *)

(** A stand-in for the hash: 32 bytes computed from the message *)
Definition demo_hash (m : list Z) : list Z := le_digits 256 32 (le_value 256 (u8 <$> m) + 1).
Lemma demo_hash_bytes m : byte_list (demo_hash m) /\ length (demo_hash m) = 32%nat.
Proof. split; [by apply le_digits_list|apply le_digits_length]. Qed.

Lemma base58_roundtrip_witness :
  exists e, encode [0; 255; 7] = Some e /\ decode e = Some [0; 255; 7] /\ length e = 5%nat.
Proof. exact (base58_roundtrip [0; 255; 7] ltac:(by repeat constructor)). Defined.

Lemma base58_canonical_witness : encode [255; 255] = Some (str_bytes "LUv").
Proof.
  refine (proj2 (base58_canonical (str_bytes "LUv") [255; 255] _ _)); [by_decide|by vm_compute].
Defined.
