(* ===== verification/Hex.v ===== *)
(** * Hexadecimal text: contrib/epee/src/hex.cpp

    Texts and buffers are lists of bytes. *)

From S2P Require Import Prelude IntUtil Radix.

(** [write_hex] *)
Definition hex_digits : list Z := str_bytes "0123456789abcdef".
Fixpoint write_hex (src : list Z) : list Z :=
  match src with
  | [] => []
  | byte :: src =>
      nth (Z.to_nat (Z.shiftr byte 4)) hex_digits 0
      :: nth (Z.to_nat (Z.land byte 0x0F)) hex_digits 0 :: write_hex src
  end.

Definition to_hex_string (src : list Z) : list Z := write_hex src.

(** [out] has [n] characters; [None] is [false]. *)
Definition to_hex_buffer (n : nat) (src : list Z) : option (list Z) :=
  if negb (bool_decide (n mod 2 = 0)%nat) || negb (bool_decide (n / 2 = length src)%nat) then None
  else Some (write_hex src).

Definition to_hex_formatted (src : list Z) : list Z :=
  str_bytes "<" ++ write_hex src ++ str_bytes ">".

(** The table [isx] of parserse_base_utils.h *)
Definition isx : list Z :=
  replicate 48 0xff ++ [0; 1; 2; 3; 4; 5; 6; 7; 8; 9] ++ replicate 7 0xff
  ++ [10; 11; 12; 13; 14; 15] ++ replicate 26 0xff ++ [10; 11; 12; 13; 14; 15]
  ++ replicate 153 0xff.

Fixpoint from_hex_loop (s : list Z) : option (list Z) :=
  match s with
  | [] => Some []
  | [_] => None
  | c1 :: c2 :: s =>
      let tmp := nth (Z.to_nat c1) isx 0xff in
      if tmp =? 0xff then None
      else
        let t2 := nth (Z.to_nat c2) isx 0xff in
        if t2 =? 0xff then None
        else
          r ← from_hex_loop s;
          Some (u8 (Z.lor (Z.shiftl tmp 4) t2) :: r)
  end.

Definition from_hex_to_buffer_unchecked (s : list Z) : option (list Z) :=
  if negb (bool_decide (length s mod 2 = 0)%nat) then None else from_hex_loop s.
Definition from_hex_to_string (src : list Z) : option (list Z) := from_hex_to_buffer_unchecked src.
Definition from_hex_to_buffer (n : nat) (src : list Z) : option (list Z) :=
  if negb (bool_decide (length src / 2 = n)%nat) then None else from_hex_to_buffer_unchecked src.

(** [parse_hexstr_to_binbuff] of string_tools.h *)
Definition parse_hexstr_to_binbuff (s : list Z) : option (list Z) := from_hex_to_string s.

Inductive hex_error := Length_error | Range_error.

(** [std::isspace] and [std::tolower] of the C locale *)
Definition isspace (c : Z) : bool := (c =? 32) || ((9 <=? c) && (c <=? 13)).
Definition tolower (c : Z) : Z := if (65 <=? c) && (c <=? 90) then c + 32 else c.

Definition include (c : Z) : bool := negb (isspace c) && negb (c =? 58).

Definition char_to_int (c : Z) : result hex_error Z :=
  let c := tolower c in
  if (48 <=? c) && (c <=? 57) then Ret (c - 48)
  else if (97 <=? c) && (c <=? 102) then Ret (c - 87) else Throw Range_error.

(** The loop of [to_vector]; past the last character stands the terminating 0. *)
Fixpoint to_vector_loop (data : list Z) : result hex_error (list Z) :=
  match data with
  | [] => Ret []
  | c1 :: rest =>
      if negb (include c1) then to_vector_loop rest
      else
        high ← char_to_int c1;
        match rest with
        | [] => char_to_int 0 ≫= fun _ => Ret []
        | c2 :: rest =>
            low ← char_to_int c2;
            r ← to_vector_loop rest;
            Ret (u8 (Z.lor (Z.shiftl high 4) low) :: r)
        end
  end.

Definition from_hex_locale_to_vector (src : list Z) : result hex_error (list Z) :=
  if negb (bool_decide (length (filter (fun c => include c = true) src) mod 2 = 0)%nat)
  then Throw Length_error else to_vector_loop src.

(** ** Nibbles *)

Lemma nibbles b : is_u8 b -> 0 <= Z.shiftr b 4 < 16 /\ 0 <= Z.land b 0x0F < 16 /\
  Z.lor (Z.shiftl (Z.shiftr b 4) 4) (Z.land b 0x0F) = b.
Proof.
  intros Hb. change 0x0F with (2 ^ 4 - 1). rewrite land_ones_mod, Z.shiftr_div_pow2 by lia.
  change (2 ^ 4) with 16. rewrite lor_add_low by (try apply Z.mod_pos_bound; lia).
  pose proof (Z.div_mod b 16). pose proof (Z.mod_pos_bound b 16).
  pose proof (Z.div_pos b 16). pose proof (Z.div_lt_upper_bound b 16 16). change (2 ^ 4) with 16. mach.
Qed.

Definition nibble (d : Z) : Z := nth (Z.to_nat d) hex_digits 0.

Lemma nibble_facts d :
  0 <= d < 16 ->
  nth (Z.to_nat (nibble d)) isx 0xff = d /\ char_to_int (nibble d) = Ret d /\
  include (nibble d) = true /\ is_u8 (nibble d).
Proof.
  intros Hd. assert (forall k, (k < 16)%nat -> let d := Z.of_nat k in
    nth (Z.to_nat (nibble d)) isx 0xff = d /\ char_to_int (nibble d) = Ret d /\
    include (nibble d) = true /\ is_u8 (nibble d)) as H.
  { intros k Hk. do 16 (destruct k as [|k]; [split_and!; try done; by_decide|]). lia. }
  rewrite <- (Z2Nat.id d) by lia. apply H. lia.
Qed.

(** What the table reads: the two cases of a letter *)
Lemma isx_inv c :
  is_u8 c -> nth (Z.to_nat c) isx 0xff <> 0xff ->
  0 <= nth (Z.to_nat c) isx 0xff < 16 /\ nibble (nth (Z.to_nat c) isx 0xff) = tolower c.
Proof.
  intros Hc. assert (forall k, (k < 256)%nat -> let d := nth k isx 0xff in
    (d =? 0xff) || ((0 <=? d) && (d <? 16) && (nibble d =? tolower (Z.of_nat k))) = true) as H.
  { intros k Hk. do 256 (destruct k as [|k]; [reflexivity|]). lia. }
  specialize (H (Z.to_nat c) ltac:(mach)). cbv zeta in H. rewrite Z2Nat.id in H by mach. lia.
Qed.

Lemma write_hex_length src : length (write_hex src) = (2 * length src)%nat.
Proof. induction src as [|b src IH]; [done|]. cbn [write_hex length]. lia. Qed.

Lemma from_hex_loop_write src : byte_list src -> from_hex_loop (write_hex src) = Some src.
Proof.
  induction 1 as [|b src Hb _ IH]; [done|]. cbn [write_hex from_hex_loop].
  destruct (nibbles b) as (Hh & Hl & E); [mach|].
  destruct (nibble_facts _ Hh) as [Eh _]. destruct (nibble_facts _ Hl) as [El _].
  unfold nibble in *. rewrite Eh, El.
  destruct (Z.eqb_spec (Z.shiftr b 4) 0xff); [lia|].
  destruct (Z.eqb_spec (Z.land b 0x0F) 0xff); [lia|].
  rewrite IH, E, wrap_small by mach. done.
Qed.

Lemma from_hex_loop_inv s : forall bs,
  Forall is_u8 s -> from_hex_loop s = Some bs -> byte_list bs /\ write_hex bs = tolower <$> s.
Proof.
  assert (forall n s, (length s <= n)%nat -> forall bs, Forall is_u8 s -> from_hex_loop s = Some bs ->
    byte_list bs /\ write_hex bs = tolower <$> s) as H; [|intros bs; by apply (H (length s))].
  induction n as [|n IH]; intros [|c1 [|c2 t]] Hl bs Hs; try (simpl in Hl; lia); try done;
    try (intros [= <-]; by repeat constructor).
  rewrite !Forall_cons in Hs. destruct Hs as (H1 & H2 & Hs). cbn [from_hex_loop].
  destruct (Z.eqb_spec (nth (Z.to_nat c1) isx 0xff) 0xff) as [|N1]; [done|].
  destruct (Z.eqb_spec (nth (Z.to_nat c2) isx 0xff) 0xff) as [|N2]; [done|].
  destruct (isx_inv c1 H1 N1) as [B1 E1]. destruct (isx_inv c2 H2 N2) as [B2 E2].
  set (d1 := nth (Z.to_nat c1) isx 0xff) in *. set (d2 := nth (Z.to_nat c2) isx 0xff) in *.
  destruct (from_hex_loop t) as [r|] eqn:Er; [|done]. intros [= <-].
  destruct (IH t ltac:(simpl in Hl; lia) r Hs Er) as [Hr Ew].
  rewrite lor_add_low by lia. change (2 ^ 4) with 16. rewrite wrap_small by mach.
  split; [constructor; [lia|done]|]. cbn [write_hex fmap list_fmap]. rewrite Ew.
  assert (Z.shiftr (d1 * 16 + d2) 4 = d1) as ->.
  { rewrite Z.shiftr_div_pow2 by lia. change (2 ^ 4) with 16. symmetry. apply Z.div_unique with d2; lia. }
  assert (Z.land (d1 * 16 + d2) 0x0F = d2) as ->.
  { change 0x0F with (2 ^ 4 - 1). rewrite land_ones_mod by lia. change (2 ^ 4) with 16.
    symmetry. apply Z.mod_unique with d1; lia. }
  unfold nibble in *. by rewrite E1, E2.
Qed.

Lemma from_hex_loop_even s bs : from_hex_loop s = Some bs -> length s = (2 * length bs)%nat.
Proof.
  assert (forall n s, (length s <= n)%nat -> forall bs, from_hex_loop s = Some bs ->
    length s = (2 * length bs)%nat) as H; [|by apply (H (length s))].
  induction n as [|n IH]; intros [|c1 [|c2 t]] Hl bs'; try (simpl in Hl; lia); try done;
    try (intros [= <-]; done).
  cbn [from_hex_loop]. case_match; [done|]. case_match; [done|].
  destruct (from_hex_loop t) as [r|] eqn:Er; [|done]. intros [= <-].
  simpl in *. rewrite (IH t ltac:(lia) r Er). lia.
Qed.

Lemma from_hex_to_string_spec s bs :
  Forall is_u8 s ->
  from_hex_to_string s = Some bs <-> byte_list bs /\ write_hex bs = tolower <$> s.
Proof.
  intros Hs. unfold from_hex_to_string, from_hex_to_buffer_unchecked. split.
  - case_bool_decide; [|done]. intros Hb. by apply from_hex_loop_inv.
  - intros [Hb Hw]. assert (length s = (2 * length bs)%nat) as Hl
      by (rewrite <- write_hex_length, Hw; symmetry; apply length_fmap).
    rewrite bool_decide_eq_true_2 by (rewrite Hl, Nat.mul_comm; apply Nat.Div0.mod_mul).
    cbn [negb]. rewrite <- (from_hex_loop_write bs Hb), Hw. clear Hw Hl Hb bs.
    assert (forall n s, (length s <= n)%nat -> Forall is_u8 s ->
      from_hex_loop s = from_hex_loop (tolower <$> s)) as H; [|by apply (H (length s))].
    clear s Hs. assert (forall c, is_u8 c ->
      nth (Z.to_nat (tolower c)) isx 0xff = nth (Z.to_nat c) isx 0xff) as Hlow.
    { intros c Hc. assert (forall k, (k < 256)%nat ->
        nth (Z.to_nat (tolower (Z.of_nat k))) isx 0xff = nth k isx 0xff) as Hk.
      { intros k Hk. do 256 (destruct k as [|k]; [reflexivity|]). lia. }
      specialize (Hk (Z.to_nat c) ltac:(mach)). by rewrite Z2Nat.id in Hk by mach. }
    induction n as [|n IH]; intros [|c1 [|c2 t]] Hl Hs; try (simpl in Hl; lia); try done.
    rewrite !Forall_cons in Hs. destruct Hs as (H1 & H2 & Hs).
    cbn [fmap list_fmap from_hex_loop]. rewrite !Hlow by done.
    change (list_fmap Z Z tolower t) with (tolower <$> t). by rewrite <- IH by (done || simpl in Hl; lia).
Qed.

(** Hexadecimal text of a buffer reads back as the buffer; and a text is
    accepted exactly when it is, up to the case of its letters, the text of a
    buffer, which is then the result. *)
Theorem hex_roundtrip (s bs : list Z) :
  Forall is_u8 s ->
  (byte_list bs -> from_hex_to_string (to_hex_string bs) = Some bs) /\
  (from_hex_to_string s = Some bs <-> byte_list bs /\ to_hex_string bs = tolower <$> s).
Proof.
  intros Hs. split; [|by apply from_hex_to_string_spec]. intros Hb.
  unfold from_hex_to_string, from_hex_to_buffer_unchecked, to_hex_string.
  rewrite write_hex_length, bool_decide_eq_true_2 by (rewrite Nat.mul_comm; apply Nat.Div0.mod_mul).
  by apply from_hex_loop_write.
Qed.

Lemma hex_roundtrip_witness :
  from_hex_to_string (to_hex_string [0; 171; 255]) = Some [0; 171; 255] /\
  from_hex_to_string (str_bytes "aBfF") = Some [171; 255].
Proof.
  split.
  - exact (proj1 (hex_roundtrip [] [0; 171; 255] (Forall_nil_2 _)) ltac:(by repeat constructor)).
  - apply (hex_roundtrip (str_bytes "aBfF") [171; 255]); [by_decide|].
    split; [by repeat constructor|by vm_compute].
Defined.
