(* ===== verification/Address.v ===== *)
(** * Account addresses: the address functions of
    src/cryptonote_basic/cryptonote_basic_impl.cpp and the networks of
    src/cryptonote_config.h

    Keys and payment ids are lists of bytes. The hash and the test that a key is
    a point of the curve are parameters. *)

From S2P Require Import Prelude IntUtil Radix Varint Base58 Hex.

Inductive network_type := MAINNET | TESTNET | STAGENET | FAKECHAIN | UNDEFINED.
#[global] Instance network_type_eq_dec : EqDecision network_type.
Proof. solve_decision. Defined.

Record config_t := Config {
  CRYPTONOTE_PUBLIC_ADDRESS_BASE58_PREFIX : Z;
  CRYPTONOTE_PUBLIC_INTEGRATED_ADDRESS_BASE58_PREFIX : Z;
  CRYPTONOTE_PUBLIC_SUBADDRESS_BASE58_PREFIX : Z;
  P2P_DEFAULT_PORT : Z;
  RPC_DEFAULT_PORT : Z;
  ZMQ_RPC_DEFAULT_PORT : Z;
  NETWORK_ID : list Z;
  GENESIS_TX : list Z;
  GENESIS_NONCE : Z }.

Definition genesis_tx : list Z := str_bytes
  "013c01ff0001ffffffffffff0302df5d56da0c7d643ddd1ce61901c7bdc5fb1738bfe39fbe69c28a3a7032729c0f2101168d0c4ca86fb55a4cf6a36d31431be1c53a3bd7411bb24e8832410289fa6f3b".

Definition mainnet : config_t :=
  Config 48 49 50 28080 28081 28082
    [0x48; 0x4d; 0x4e; 0x59; 0x01; 0; 0; 0; 0; 0; 0; 0; 0; 0; 0; 0x01] genesis_tx 424242.
Definition testnet : config_t :=
  Config 53 54 63 48080 48081 48082
    [0x48; 0x4d; 0x4e; 0x59; 0x01; 0; 0; 0; 0; 0; 0; 0; 0; 0; 0; 0x02] genesis_tx 10001.
Definition stagenet : config_t :=
  Config 24 25 36 38080 38081 38082
    [0x12; 0x30; 0xF1; 0x71; 0x61; 0x04; 0x41; 0x61; 0x17; 0x31; 0x00; 0x82; 0x16; 0xA1; 0xA1; 0x12]
    genesis_tx 10002.

Inductive config_error := Invalid_network_type.

Definition get_config (nettype : network_type) : result config_error config_t :=
  match nettype with
  | MAINNET => Ret mainnet
  | TESTNET => Ret testnet
  | STAGENET => Ret stagenet
  | FAKECHAIN => Ret mainnet
  | UNDEFINED => Throw Invalid_network_type
  end.

Record account_public_address := Account {
  m_spend_public_key : list Z;
  m_view_public_key : list Z }.

Record address_parse_info := Info {
  address : account_public_address;
  is_subaddress : bool;
  has_payment_id : bool;
  payment_id : list Z }.

(** The binary form: the fields one after the other *)
Definition address_blob (adr : account_public_address) : list Z :=
  m_spend_public_key adr ++ m_view_public_key adr.

(** [parse_binary]: all the bytes must be there and none left over. *)
Definition parse_address (data : list Z) : option account_public_address :=
  if bool_decide (length data = 64)%nat then Some (Account (take 32 data) (drop 32 data)) else None.
Definition parse_integrated (data : list Z) : option (account_public_address * list Z) :=
  if bool_decide (length data = 72)%nat
  then Some (Account (take 32 data) (take 32 (drop 32 data)), drop 64 data) else None.

(** The legacy blob: version, the two keys, checksum *)
Record public_address_outer_blob := Outer {
  m_ver : Z;
  m_address : account_public_address;
  check_sum : Z }.
Definition outer_blob_size : nat := 66.
Definition CRYPTONOTE_PUBLIC_ADDRESS_TEXTBLOB_VER : Z := 0.

Definition outer_bytes (bl : public_address_outer_blob) : list Z :=
  m_ver bl :: address_blob (m_address bl).

Definition get_account_address_checksum (bl : public_address_outer_blob) : Z :=
  fold_left (fun summ b => u8 (summ + b)) (outer_bytes bl) 0.
Definition get_account_integrated_address_checksum (ver : Z) (adr : account_public_address)
    (payment_id : list Z) : Z :=
  fold_left (fun summ b => u8 (summ + b)) (ver :: address_blob adr ++ payment_id) 0.

Definition outer_of_bytes (buff : list Z) : public_address_outer_blob :=
  Outer (nth 0 buff 0) (Account (take 32 (drop 1 buff)) (take 32 (drop 33 buff))) (nth 65 buff 0).

Section Addresses.
Context (cn_fast_hash : list Z -> list Z) (check_key : list Z -> bool).

(** The inner [None] stands for a write outside a buffer, which does not happen. *)
Definition get_account_address_as_str (nettype : network_type) (subaddress : bool)
    (adr : account_public_address) : result config_error (option (list Z)) :=
  c ← get_config nettype;
  let address_prefix :=
    if subaddress then CRYPTONOTE_PUBLIC_SUBADDRESS_BASE58_PREFIX c
    else CRYPTONOTE_PUBLIC_ADDRESS_BASE58_PREFIX c in
  Ret (encode_addr cn_fast_hash address_prefix (address_blob adr)).

Definition get_account_integrated_address_as_str (nettype : network_type)
    (adr : account_public_address) (payment_id : list Z) : result config_error (option (list Z)) :=
  c ← get_config nettype;
  Ret (encode_addr cn_fast_hash (CRYPTONOTE_PUBLIC_INTEGRATED_ADDRESS_BASE58_PREFIX c)
         (address_blob adr ++ payment_id)).

(** The branch for the base58 form *)
Definition parse_base58_address (c : config_t) (str : list Z) : option address_parse_info :=
  '(prefix, data) ← decode_addr cn_fast_hash str;
  flags ←
    (if CRYPTONOTE_PUBLIC_INTEGRATED_ADDRESS_BASE58_PREFIX c =? prefix then Some (false, true)
     else if CRYPTONOTE_PUBLIC_ADDRESS_BASE58_PREFIX c =? prefix then Some (false, false)
     else if CRYPTONOTE_PUBLIC_SUBADDRESS_BASE58_PREFIX c =? prefix then Some (true, false)
     else None);
  info ←
    (if (flags.2 : bool)
     then '(adr, pid) ← parse_integrated data; Some (Info adr flags.1 flags.2 pid)
     else adr ← parse_address data; Some (Info adr flags.1 flags.2 []));
  if negb (check_key (m_spend_public_key (address info)))
     || negb (check_key (m_view_public_key (address info)))
  then None else Some info.

(** The branch for the old hexadecimal form *)
Definition parse_old_address (str : list Z) : option address_parse_info :=
  buff ← parse_hexstr_to_binbuff str;
  if negb (bool_decide (length buff = outer_blob_size)) then None
  else
    let blob := outer_of_bytes buff in
    if CRYPTONOTE_PUBLIC_ADDRESS_TEXTBLOB_VER <? m_ver blob then None
    else if negb (check_sum blob =? get_account_address_checksum blob) then None
    else Some (Info (m_address blob) false false []).

(** [Ret None] is the result [false]; the payment id is empty when there is none. *)
Definition get_account_address_from_str (nettype : network_type) (str : list Z)
    : result config_error (option address_parse_info) :=
  c ← get_config nettype;
  Ret (if negb (bool_decide (2 * outer_blob_size = length str)%nat)
       then parse_base58_address c str else parse_old_address str).

(** The resolver returns the address found for a name, empty when none. *)
Definition get_account_address_from_str_or_url
    (get_account_address_as_str_from_url : list Z -> list Z)
    (nettype : network_type) (str_or_url : list Z) : result config_error (option address_parse_info) :=
  r ← get_account_address_from_str nettype str_or_url;
  match r with
  | Some info => Ret (Some info)
  | None =>
      let address_str := get_account_address_as_str_from_url str_or_url in
      if bool_decide (address_str = []) then Ret None
      else get_account_address_from_str nettype address_str
  end.
End Addresses.

(** ** Accounts and their texts *)

Definition is_key (k : list Z) : Prop := byte_list k /\ length k = 32%nat.
Definition is_account (adr : account_public_address) : Prop :=
  is_key (m_spend_public_key adr) /\ is_key (m_view_public_key adr).
Definition is_payment_id (pid : list Z) : Prop := byte_list pid /\ length pid = 8%nat.

(** The payload of an address *)
Definition payload (info : address_parse_info) : list Z :=
  address_blob (address info) ++ (if has_payment_id info then payment_id info else []).

(** What an address can say: a payment id never comes with a subaddress. *)
Definition is_info (info : address_parse_info) : Prop :=
  is_account (address info) /\
  if has_payment_id info then is_payment_id (payment_id info) /\ is_subaddress info = false
  else payment_id info = [].

Definition prefix_of (c : config_t) (info : address_parse_info) : Z :=
  if has_payment_id info then CRYPTONOTE_PUBLIC_INTEGRATED_ADDRESS_BASE58_PREFIX c
  else if is_subaddress info then CRYPTONOTE_PUBLIC_SUBADDRESS_BASE58_PREFIX c
  else CRYPTONOTE_PUBLIC_ADDRESS_BASE58_PREFIX c.

Lemma address_blob_length adr : is_account adr -> length (address_blob adr) = 64%nat.
Proof. intros [[_ H1] [_ H2]]. unfold address_blob. rewrite length_app. lia. Qed.

Lemma address_blob_bytes adr : is_account adr -> byte_list (address_blob adr).
Proof. intros [[H1 _] [H2 _]]. by apply digit_list_app. Qed.

Lemma parse_address_blob adr : is_account adr -> parse_address (address_blob adr) = Some adr.
Proof.
  intros Ha. unfold parse_address. rewrite address_blob_length, bool_decide_eq_true_2 by done.
  destruct Ha as [[_ H1] [_ H2]]. destruct adr as [s v]. simpl in *. unfold address_blob. simpl.
  by rewrite take_app_length', drop_app_length' by done.
Qed.

Lemma parse_integrated_blob adr pid :
  is_account adr -> is_payment_id pid -> parse_integrated (address_blob adr ++ pid) = Some (adr, pid).
Proof.
  intros Ha [_ Hp]. unfold parse_integrated.
  rewrite length_app, address_blob_length, Hp, bool_decide_eq_true_2 by done.
  assert (drop 64 (address_blob adr ++ pid) = pid) as ->
    by (apply drop_app_length'; by rewrite address_blob_length).
  destruct Ha as [[_ H1] [_ H2]]. destruct adr as [s v]. simpl in *. unfold address_blob. simpl.
  rewrite <- app_assoc, take_app_length', drop_app_length' by done.
  by rewrite take_app_length' by done.
Qed.

Lemma parse_address_inv data adr :
  byte_list data -> parse_address data = Some adr -> is_account adr /\ address_blob adr = data.
Proof.
  intros Hb. unfold parse_address. case_bool_decide as Hl; [|done]. intros [= <-].
  unfold is_account, is_key, address_blob. cbn [m_spend_public_key m_view_public_key].
  rewrite length_take, length_drop, take_drop.
  split_and!; try done; try lia; [by apply Forall_take|by apply Forall_drop].
Qed.

Lemma parse_integrated_inv data adr pid :
  byte_list data -> parse_integrated data = Some (adr, pid) ->
  is_account adr /\ is_payment_id pid /\ address_blob adr ++ pid = data.
Proof.
  intros Hb. unfold parse_integrated. case_bool_decide as Hl; [|done]. intros [= <- <-].
  unfold is_account, is_key, is_payment_id, address_blob. cbn [m_spend_public_key m_view_public_key].
  rewrite !length_take, !length_drop.
  split_and!; try lia; try (by apply Forall_take); try (by apply Forall_drop);
    try (by apply Forall_take, Forall_drop).
  rewrite take_take_drop. change (32 + 32)%nat with 64%nat. by rewrite take_drop.
Qed.

(** The three prefixes of a network fit one byte and are distinct. *)
Lemma config_prefixes n c :
  get_config n = Ret c ->
  let a := CRYPTONOTE_PUBLIC_ADDRESS_BASE58_PREFIX c in
  let i := CRYPTONOTE_PUBLIC_INTEGRATED_ADDRESS_BASE58_PREFIX c in
  let s := CRYPTONOTE_PUBLIC_SUBADDRESS_BASE58_PREFIX c in
  0 <= a < 128 /\ 0 <= i < 128 /\ 0 <= s < 128 /\ a <> i /\ a <> s /\ i <> s.
Proof. destruct n; intros [= <-]; vm_compute; split_and!; done. Qed.


Lemma prefix_range n c info : get_config n = Ret c -> 0 <= prefix_of c info < 128.
Proof.
  intros Hc. pose proof (config_prefixes n c Hc) as H. cbv zeta in H. unfold prefix_of.
  destruct (has_payment_id info), (is_subaddress info); lia.
Qed.

(** Two networks that do not share a configuration share no prefix. *)
Lemma prefixes_apart n n' c c' info info' :
  get_config n = Ret c -> get_config n' = Ret c' -> c <> c' -> prefix_of c info <> prefix_of c' info'.
Proof.
  intros Hc Hc' Hne. unfold prefix_of.
  destruct n; try discriminate Hc; injection Hc as <-;
    (destruct n'; try discriminate Hc'; injection Hc' as <-; try done;
     repeat case_match; vm_compute; done).
Qed.

Section AddressFacts.
Context (cn_fast_hash : list Z -> list Z) (check_key : list Z -> bool).
Hypothesis hash_bytes : forall m, byte_list (cn_fast_hash m) /\ length (cn_fast_hash m) = 32%nat.

(** The text of an address: by the function for plain and subaddresses or by the
    one for integrated addresses *)
Definition address_text (nettype : network_type) (info : address_parse_info)
    : result config_error (option (list Z)) :=
  if has_payment_id info
  then get_account_integrated_address_as_str cn_fast_hash nettype (address info) (payment_id info)
  else get_account_address_as_str cn_fast_hash nettype (is_subaddress info) (address info).

Definition keys_ok (adr : account_public_address) : Prop :=
  check_key (m_spend_public_key adr) = true /\ check_key (m_view_public_key adr) = true.

Lemma address_text_eq n c info :
  get_config n = Ret c ->
  address_text n info = Ret (encode_addr cn_fast_hash (prefix_of c info) (payload info)).
Proof.
  intros Hc. unfold address_text, get_account_integrated_address_as_str, get_account_address_as_str,
    payload, prefix_of. rewrite Hc. cbn [mbind result_bind].
  destruct (has_payment_id info); [done|]. rewrite app_nil_r. by destruct (is_subaddress info).
Qed.

Lemma payload_bytes info : is_info info -> byte_list (payload info).
Proof.
  intros [Ha Hp]. unfold payload. apply digit_list_app. split; [by apply address_blob_bytes|].
  destruct (has_payment_id info); [apply Hp|constructor].
Qed.

(** The texts have 95 characters, or 106 with a payment id. *)
Lemma text_length info prefix (a : list Z) :
  is_info info -> 0 <= prefix < 128 ->
  (let n := (length (write_varint prefix) + length (payload info) + 4)%nat in
   length a = (11 * (n / 8) + encoded_size (n mod 8))%nat) ->
  length a = if has_payment_id info then 106%nat else 95%nat.
Proof.
  intros [Ha Hp] Hr. rewrite write_varint_eq by lia. destruct (Z.leb_spec 128 prefix); [lia|].
  unfold payload. rewrite length_app, address_blob_length by done.
  destruct (has_payment_id info); [destruct Hp as [[_ ->] _]|]; intros ->; done.
Qed.

Lemma parse_base58_text c n info a :
  get_config n = Ret c -> is_info info -> keys_ok (address info) ->
  decode_addr cn_fast_hash a = Some (prefix_of c info, payload info) ->
  parse_base58_address cn_fast_hash check_key c a = Some info.
Proof.
  intros Hc [Ha Hp] [Hk1 Hk2] Hd. pose proof (config_prefixes n c Hc) as Hne. cbv zeta in Hne.
  unfold parse_base58_address. rewrite Hd. cbn [mbind option_bind].
  destruct info as [adr sub pid p]. cbn [has_payment_id is_subaddress payment_id address] in *.
  unfold prefix_of, payload. cbn [has_payment_id is_subaddress payment_id address].
  destruct pid.
  - destruct Hp as [Hp ->]. rewrite Z.eqb_refl. cbn [mbind option_bind fst snd].
    rewrite parse_integrated_blob by done. cbn [mbind option_bind address]. by rewrite Hk1, Hk2.
  - subst p. rewrite app_nil_r.
    destruct sub; repeat (match goal with |- context [?x =? ?y] => destruct (Z.eqb_spec x y); [lia|] end);
      rewrite Z.eqb_refl; cbn [mbind option_bind fst snd];
      rewrite parse_address_blob by done; cbn [mbind option_bind address]; by rewrite Hk1, Hk2.
Qed.

(** C24: the text made for a plain address, a subaddress or an address with a
    payment id on a network is read back on that network as exactly the same
    address, and on every network with another configuration it is refused. *)
Theorem address_roundtrip (n n' : network_type) (c c' : config_t) (info : address_parse_info) :
  get_config n = Ret c -> get_config n' = Ret c' -> is_info info -> keys_ok (address info) ->
  exists a, address_text n info = Ret (Some a) /\
            get_account_address_from_str cn_fast_hash check_key n a = Ret (Some info) /\
            (c <> c' -> get_account_address_from_str cn_fast_hash check_key n' a = Ret None).
Proof.
  intros Hc Hc' Hi Hk. rewrite (address_text_eq n c) by done.
  pose proof (prefix_range n c info Hc) as Hr.
  destruct (decode_encode_addr cn_fast_hash hash_bytes (prefix_of c info) (payload info))
    as (a & Ea & _ & Da & La); [mach|by apply payload_bytes|].
  apply (text_length info) in La; [|done|lia]. exists a. split; [by rewrite Ea|].
  unfold get_account_address_from_str. rewrite Hc, Hc'. cbn [mbind result_bind].
  rewrite bool_decide_eq_false_2 by (unfold outer_blob_size; rewrite La; case_match; lia). cbn [negb].
  rewrite (parse_base58_text c n info a) by done. split; [done|]. intros Hne.
  unfold parse_base58_address. rewrite Da. cbn [mbind option_bind].
  pose proof (prefixes_apart n n' c c' info (Info (address info) false true []) Hc Hc' Hne).
  pose proof (prefixes_apart n n' c c' info (Info (address info) true false []) Hc Hc' Hne).
  pose proof (prefixes_apart n n' c c' info (Info (address info) false false []) Hc Hc' Hne).
  change (prefix_of c' (Info (address info) false true []))
    with (CRYPTONOTE_PUBLIC_INTEGRATED_ADDRESS_BASE58_PREFIX c') in *.
  change (prefix_of c' (Info (address info) true false []))
    with (CRYPTONOTE_PUBLIC_SUBADDRESS_BASE58_PREFIX c') in *.
  change (prefix_of c' (Info (address info) false false []))
    with (CRYPTONOTE_PUBLIC_ADDRESS_BASE58_PREFIX c') in *.
  repeat (match goal with |- context [?x =? ?y] => destruct (Z.eqb_spec x y); [congruence|] end). done.
Qed.

(** A text other than one of 132 characters is accepted only when it is the
    very text made for the address returned, whose keys pass the check and whose
    parts have the right sizes: no two texts stand for the same address. *)
Theorem address_sound (n : network_type) (s : list Z) (info : address_parse_info) :
  Forall is_u8 s -> length s <> 132%nat ->
  get_account_address_from_str cn_fast_hash check_key n s = Ret (Some info) ->
  is_info info /\ keys_ok (address info) /\ address_text n info = Ret (Some s).
Proof.
  intros Hs Hl. unfold get_account_address_from_str.
  destruct (get_config n) as [c|] eqn:Hc; [|done]. cbn [mbind result_bind].
  rewrite bool_decide_eq_false_2 by (unfold outer_blob_size; lia). cbn [negb].
  unfold parse_base58_address.
  destruct (decode_addr cn_fast_hash s) as [[prefix data]|] eqn:Ed; [|done]. cbn [mbind option_bind].
  destruct (decode_addr_inv cn_fast_hash s prefix data Hs Ed) as (Hp & Hb & Henc).
  intros H. injection H as H.
  assert (exists info', is_info info' /\ payload info' = data /\ prefix_of c info' = prefix /\
    (if negb (check_key (m_spend_public_key (address info')))
        || negb (check_key (m_view_public_key (address info'))) then None else Some info') = Some info)
    as (info' & Hi & <- & <- & Hk).
  { destruct (Z.eqb_spec (CRYPTONOTE_PUBLIC_INTEGRATED_ADDRESS_BASE58_PREFIX c) prefix) as [<-|].
    { cbn [mbind option_bind fst snd] in H. destruct (parse_integrated data) as [[adr pid]|] eqn:E; [|done].
      destruct (parse_integrated_inv data adr pid Hb E) as (Ha & Hpid & Eb).
      exists (Info adr false true pid). by split_and!. }
    destruct (Z.eqb_spec (CRYPTONOTE_PUBLIC_ADDRESS_BASE58_PREFIX c) prefix) as [<-|];
      [|destruct (Z.eqb_spec (CRYPTONOTE_PUBLIC_SUBADDRESS_BASE58_PREFIX c) prefix) as [<-|]; [|done]];
      cbn [mbind option_bind fst snd] in H; (destruct (parse_address data) as [adr|] eqn:E; [|done]);
      destruct (parse_address_inv data adr Hb E) as (Ha & Eb);
      eexists (Info adr _ false []);
      unfold payload; cbn [has_payment_id payment_id address]; rewrite app_nil_r; split_and!; try exact H; done. }
  destruct (check_key (m_spend_public_key (address info'))) eqn:K1; [|done].
  destruct (check_key (m_view_public_key (address info'))) eqn:K2; [|done]. injection Hk as <-.
  split; [done|]. split; [done|]. rewrite (address_text_eq n c) by done. f_equal.
  destruct Henc as [->|[Hnil _]]; [done|]. exfalso.
  apply (f_equal length) in Hnil. unfold payload in Hnil. destruct Hi as [Ha _].
  rewrite length_app, address_blob_length in Hnil by done. cbn [length] in Hnil. lia.
Qed.
End AddressFacts.

(** ** The old form *)

Lemma fold_checksum bs s : fold_left (fun summ b => u8 (summ + b)) bs (u8 s) = u8 (s + fold_right Z.add 0 bs).
Proof.
  revert s. induction bs as [|b bs IH]; intros s; simpl; [by rewrite Z.add_0_r|].
  assert (u8 (u8 s + b) = u8 (s + b)) as -> by (unfold wrap; apply Zplus_mod_idemp_l).
  rewrite IH. f_equal. lia.
Qed.

(** A text of 132 characters is accepted on every network when it is the
    hexadecimal form of version 0, the two keys and the sum of those bytes; the
    keys are not checked to be points, and the text does not say for which
    network it is. *)
Theorem old_address_spec cn_fast_hash check_key (n : network_type) (c : config_t)
    (adr : account_public_address) :
  get_config n = Ret c -> is_account adr ->
  get_account_address_from_str cn_fast_hash check_key n
    (to_hex_string (0 :: address_blob adr ++ [fold_right Z.add 0 (address_blob adr) mod 256]))
  = Ret (Some (Info adr false false [])).
Proof.
  intros Hc Ha. unfold get_account_address_from_str. rewrite Hc. cbn [mbind result_bind].
  set (sum := fold_right Z.add 0 (address_blob adr) mod 256).
  assert (0 <= sum < 256) as Hsum by (apply Z.mod_pos_bound; lia).
  assert (length (0 :: address_blob adr ++ [sum]) = 66%nat) as Hl
    by (cbn [length]; rewrite length_app, address_blob_length by done; done).
  assert (byte_list (0 :: address_blob adr ++ [sum])) as Hb.
  { constructor; [lia|]. apply digit_list_app. split; [by apply address_blob_bytes|].
    constructor; [lia|constructor]. }
  unfold to_hex_string. rewrite bool_decide_eq_true_2 by (unfold outer_blob_size; rewrite write_hex_length; lia).
  cbn [negb]. unfold parse_old_address, parse_hexstr_to_binbuff, from_hex_to_string, from_hex_to_buffer_unchecked.
  rewrite write_hex_length, (bool_decide_eq_true_2 (_ mod _ = _)%nat) by (rewrite Hl; done). cbn [negb].
  rewrite from_hex_loop_write by done. cbn [mbind option_bind].
  rewrite Hl, bool_decide_eq_true_2 by done. cbn [negb].
  assert (outer_of_bytes (0 :: address_blob adr ++ [sum]) = Outer 0 adr sum) as ->.
  { unfold outer_of_bytes. pose proof (address_blob_length adr Ha) as H64.
    destruct Ha as [[_ H1] [_ H2]]. destruct adr as [s v]. unfold address_blob in *.
    cbn [m_spend_public_key m_view_public_key] in *.
    change (nth 65 (0 :: (s ++ v) ++ [sum]) 0) with (nth 64 ((s ++ v) ++ [sum]) 0).
    change (drop 1 (0 :: (s ++ v) ++ [sum])) with ((s ++ v) ++ [sum]).
    change (drop 33 (0 :: (s ++ v) ++ [sum])) with (drop 32 ((s ++ v) ++ [sum])).
    rewrite app_nth2, H64 by lia. rewrite <- app_assoc, take_app_length', drop_app_length' by done.
    by rewrite take_app_length' by done. }
  cbn [m_ver m_address check_sum]. change (CRYPTONOTE_PUBLIC_ADDRESS_TEXTBLOB_VER <? 0) with false.
  assert (get_account_address_checksum (Outer 0 adr sum) = sum) as ->.
  { unfold get_account_address_checksum, outer_bytes. cbn [m_ver m_address].
    change 0 with (u8 0) at 2. by rewrite fold_checksum. }
  by rewrite Z.eqb_refl.
Qed.

(** ** Witnesses *)

Definition demo_account : account_public_address :=
  Account (replicate 32 7) (replicate 31 9 ++ [200]).
Definition demo_info : address_parse_info := Info demo_account false true [1; 2; 3; 4; 5; 6; 7; 8].
Definition demo_check (k : list Z) : bool := bool_decide (length k = 32%nat).

Lemma demo_account_ok : is_account demo_account.
Proof. by repeat constructor. Qed.
Lemma demo_info_ok : is_info demo_info.
Proof. split; [apply demo_account_ok|]. split; [by repeat constructor|done]. Qed.

Lemma address_roundtrip_witness :
  exists a, address_text demo_hash MAINNET demo_info = Ret (Some a) /\
    get_account_address_from_str demo_hash demo_check MAINNET a = Ret (Some demo_info) /\
    (mainnet <> testnet -> get_account_address_from_str demo_hash demo_check TESTNET a = Ret None).
Proof.
  exact (address_roundtrip demo_hash demo_check demo_hash_bytes MAINNET TESTNET mainnet testnet
           demo_info eq_refl eq_refl demo_info_ok (conj eq_refl eq_refl)).
Defined.

Definition demo_text : list Z :=
  match address_text demo_hash MAINNET demo_info with Ret (Some a) => a | _ => [] end.

Lemma address_sound_witness : address_text demo_hash MAINNET demo_info = Ret (Some demo_text).
Proof.
  refine (proj2 (proj2 (address_sound demo_hash demo_check MAINNET demo_text demo_info
           _ _ _))); [by_decide|by_decide|by vm_compute].
Defined.

Lemma old_address_spec_witness :
  get_account_address_from_str demo_hash (fun _ => false) TESTNET
    (to_hex_string (0 :: address_blob demo_account
       ++ [fold_right Z.add 0 (address_blob demo_account) mod 256]))
  = Ret (Some (Info demo_account false false [])).
Proof.
  exact (old_address_spec demo_hash (fun _ => false) TESTNET testnet demo_account eq_refl demo_account_ok).
Defined.
