(* ===== verification/SortedLists.v ===== *)
(** * Sorted lists of integers

    Facts about [std::sort] as stdpp's [merge_sort], shared by the components that
    look at an order statistic of a window: difficulties and medians. *)

From stdpp Require Import sorting.
From S2P Require Import Prelude.

#[export] Instance Zle_total : Total Z.le.
Proof. intros x y. lia. Qed.

Lemma merge_sort_unique l l' : StronglySorted Z.le l -> l' ≡ₚ l -> merge_sort Z.le l' = l.
Proof.
  intros Hl Hp. apply (StronglySorted_unique Z.le); [|done|].
  - apply StronglySorted_merge_sort; apply _.
  - by rewrite merge_sort_Permutation.
Qed.

Lemma sorted_lookup_le l i j x y :
  StronglySorted Z.le l -> (i <= j)%nat -> l !! i = Some x -> l !! j = Some y -> x <= y.
Proof.
  intros Hs. revert i j. induction Hs as [|c l _ IH Hall]; intros i j Hij Hi Hj; [done|].
  destruct j as [|j]; [assert (i = O) as -> by lia; simplify_eq; lia|].
  destruct i as [|i]; [|apply (IH i j); [lia|done..]].
  injection Hi as ->. rewrite Forall_lookup in Hall. by eapply Hall.
Qed.

(** Lists with everything of the first below everything of the second *)
Lemma StronglySorted_app_le l k :
  StronglySorted Z.le l -> StronglySorted Z.le k ->
  (forall x y, x ∈ l -> y ∈ k -> x <= y) -> StronglySorted Z.le (l ++ k).
Proof.
  intros Hl Hk Hlk. induction Hl as [|x l Hl IH Hall]; [done|]. constructor.
  - apply IH. intros a b ??. apply Hlk; [by right|done].
  - apply Forall_app. split; [done|]. apply Forall_forall. intros y Hy. apply Hlk; [by left|done].
Qed.

(** An element with [length A] others below it and the rest above it has rank
    [length A] in sorted order. *)
Lemma merge_sort_rank l A m B :
  l ≡ₚ A ++ m :: B -> (forall a, a ∈ A -> a <= m) -> (forall b, b ∈ B -> m <= b) ->
  merge_sort Z.le l !! length A = Some m.
Proof.
  intros Hp HA HB.
  rewrite (merge_sort_unique (merge_sort Z.le A ++ m :: merge_sort Z.le B)).
  - rewrite list_lookup_middle; [done|]. by rewrite merge_sort_Permutation.
  - apply StronglySorted_app_le; [apply StronglySorted_merge_sort; apply _| |].
    + constructor; [apply StronglySorted_merge_sort; apply _|].
      apply Forall_forall. intros x. rewrite merge_sort_Permutation. apply HB.
    + intros x y. rewrite merge_sort_Permutation, elem_of_cons, merge_sort_Permutation.
      intros Hx [->|Hy]; [by apply HA|]. transitivity m; auto.
  - by rewrite !merge_sort_Permutation.
Qed.
