(* ===== verification/Difficulty.v ===== *)
(** * Proof-of-work difficulty: src/cryptonote_basic/difficulty.cpp

    A hash is its 32 bytes; its 64-bit words are read in little-endian order.
    [difficulty_type] is the 128-bit unsigned type of the multiprecision library,
    whose arithmetic is modulo [2 ^ 128]; its 256- and 512-bit types are wide
    enough for every product formed here. An index outside a vector is [None]. *)

From stdpp Require Import sorting.
From S2P Require Import Prelude IntUtil Radix SortedLists.

Definition DIFFICULTY_TARGET_V2 : Z := 120.
Definition DIFFICULTY_TARGET_V1 : Z := 60.
Definition DIFFICULTY_WINDOW : nat := 720.
Definition DIFFICULTY_LAG : nat := 15.
Definition DIFFICULTY_CUT : nat := 60.
Definition DIFFICULTY_BLOCKS_COUNT : nat := DIFFICULTY_WINDOW + DIFFICULTY_LAG.

(** [mul a b] is [(low, high)]: on x86-64 by [mul128], elsewhere by the portable
    version below. *)
Definition mul (a b : Z) : Z * Z := mul128 a b.

Definition mul_portable (a b : Z) : Z * Z :=
  let aLow := Z.land a 0xFFFFFFFF in
  let aHigh := Z.shiftr a 32 in
  let bLow := Z.land b 0xFFFFFFFF in
  let bHigh := Z.shiftr b 32 in
  let res := u64 (aLow * bLow) in
  let lowRes1 := Z.land res 0xFFFFFFFF in
  let carry := Z.shiftr res 32 in
  let res := u64 (u64 (aHigh * bLow) + carry) in
  let highResHigh1 := Z.shiftr res 32 in
  let highResLow1 := Z.land res 0xFFFFFFFF in
  let res := u64 (aLow * bHigh) in
  let lowRes2 := Z.land res 0xFFFFFFFF in
  let carry := Z.shiftr res 32 in
  let res := u64 (u64 (aHigh * bHigh) + carry) in
  let highResHigh2 := Z.shiftr res 32 in
  let highResLow2 := Z.land res 0xFFFFFFFF in
  let r := u64 (highResLow1 + lowRes2) in
  let carry := Z.shiftr r 32 in
  let low := Z.lor (u64 (Z.shiftl r 32)) lowRes1 in
  let r := u64 (u64 (highResHigh1 + highResLow2) + carry) in
  let d3 := Z.land r 0xFFFFFFFF in
  let carry := Z.shiftr r 32 in
  let r := u64 (highResHigh2 + carry) in
  let high := Z.lor d3 (u64 (Z.shiftl r 32)) in
  (low, high).

Definition cadd (a b : Z) : bool := u64 (a + b) <? a.
Definition cadc (a b : Z) (c : bool) : bool :=
  (u64 (a + b) <? a) || (c && (u64 (a + b) =? UINT64_MAX)).

(** [((const uint64_t * ) &hash)[i]] after [swap64le] *)
Definition hash_word (hash : list Z) (i : nat) : Z := le_value 256 (take 8 (drop (8 * i) hash)).

Definition check_hash_64 (hash : list Z) (difficulty : Z) : bool :=
  let '(top, high) := mul (hash_word hash 3) difficulty in
  if negb (high =? 0) then false
  else
    let '(low, cur) := mul (hash_word hash 0) difficulty in
    let '(low, high) := mul (hash_word hash 1) difficulty in
    let carry := cadd cur low in
    let cur := high in
    let '(low, high) := mul (hash_word hash 2) difficulty in
    let carry := cadc cur low carry in
    let carry := cadc high top carry in
    negb carry.

(** The loop over the words from the highest down *)
Definition hash_val (hash : list Z) : Z :=
  fold_left (fun v i => Z.lor (wrap 512 (Z.shiftl v 64)) (hash_word hash (3 - i))) (seq 0 4) 0.

Definition max64bit : Z := 2 ^ 64 - 1.
Definition max128bit : Z := 2 ^ 128 - 1.
Definition max256bit : Z := 2 ^ 256 - 1.

Definition check_hash_128 (hash : list Z) (difficulty : Z) : bool :=
  wrap 512 (hash_val hash * difficulty) <=? max256bit.

Definition check_hash (hash : list Z) (difficulty : Z) : bool :=
  if difficulty <=? max64bit then check_hash_64 hash (u64 difficulty)
  else check_hash_128 hash difficulty.

(** [(cut_begin, cut_end)] *)
Definition cut (length : nat) : nat * nat :=
  if bool_decide (length <= DIFFICULTY_WINDOW - 2 * DIFFICULTY_CUT)%nat then (0%nat, length)
  else
    let cut_begin := ((length - (DIFFICULTY_WINDOW - 2 * DIFFICULTY_CUT) + 1) / 2)%nat in
    (cut_begin, (cut_begin + (DIFFICULTY_WINDOW - 2 * DIFFICULTY_CUT))%nat).

(** [v.resize(DIFFICULTY_WINDOW)] when the timestamps are too many *)
Definition resize_window {A} (timestamps : list Z) (v : list A) : list A :=
  if bool_decide (DIFFICULTY_WINDOW < length timestamps)%nat then take DIFFICULTY_WINDOW v else v.

Definition next_difficulty_64 (timestamps cumulative_difficulties : list Z) (target_seconds : Z)
    : option Z :=
  let ts := resize_window timestamps timestamps in
  let cd := resize_window timestamps cumulative_difficulties in
  let length := length ts in
  if bool_decide (length <= 1)%nat then Some 1
  else
    let ts := merge_sort Z.le ts in
    let '(cut_begin, cut_end) := cut length in
    t1 ← ts !! (cut_end - 1)%nat;
    t0 ← ts !! cut_begin;
    let time_span := u64 (t1 - t0) in
    let time_span := if time_span =? 0 then 1 else time_span in
    w1 ← cd !! (cut_end - 1)%nat;
    w0 ← cd !! cut_begin;
    let total_work := u64 (w1 - w0) in
    let '(low, high) := mul total_work target_seconds in
    if negb (high =? 0) || (u64 (u64 (low + time_span) - 1) <? low) then Some 0
    else Some (u64 (u64 (low + time_span) - 1) / time_span).

Definition next_difficulty (timestamps cumulative_difficulties : list Z) (target_seconds : Z)
    : option Z :=
  let ts := resize_window timestamps timestamps in
  let cd := resize_window timestamps cumulative_difficulties in
  let length := length ts in
  if bool_decide (length <= 1)%nat then Some 1
  else
    let ts := merge_sort Z.le ts in
    let '(cut_begin, cut_end) := cut length in
    t1 ← ts !! (cut_end - 1)%nat;
    t0 ← ts !! cut_begin;
    let time_span := u64 (t1 - t0) in
    let time_span := if time_span =? 0 then 1 else time_span in
    w1 ← cd !! (cut_end - 1)%nat;
    w0 ← cd !! cut_begin;
    let total_work := u128 (w1 - w0) in
    let res := wrap 256 (total_work * target_seconds + time_span - 1) / time_span in
    if max128bit <? res then Some 0 else Some res.

Definition hex_chars : list Z := str_bytes "0123456789abcdef".
(** The digits pushed by the loop of [hex]; 32 rounds are enough for 128 bits. *)
Fixpoint hex_loop (fuel : nat) (v : Z) : list Z :=
  match fuel with
  | O => []
  | S fuel =>
      if 0 <? v
      then nth (Z.to_nat (Z.land v 0xf)) hex_chars 0 :: hex_loop fuel (Z.shiftr v 4)
      else []
  end.
Definition hex (v : Z) : list Z :=
  let s := hex_loop 32 v in
  let s := match s with [] => str_bytes "0" | _ => s end in
  str_bytes "0x" ++ rev s.

(** ** Products *)

Lemma mul_spec a b :
  is_u64 a -> is_u64 b ->
  let '(low, high) := mul a b in is_u64 low /\ is_u64 high /\ a * b = high * 2 ^ 64 + low.
Proof. apply mul128_spec. Qed.

Lemma wide_unique a b c d :
  is_u64 b -> is_u64 d -> a * 2 ^ 64 + b = c * 2 ^ 64 + d -> a = c /\ b = d.
Proof. width_unfold. lia. Qed.

(** The portable multiplication gives the same two words as the one used on
    x86-64, for every pair of operands. *)
Theorem mul_portable_eq (a b : Z) : is_u64 a -> is_u64 b -> mul_portable a b = mul a b.
Proof.
  intros Ha Hb. pose proof (mul_spec a b Ha Hb) as Hm. destruct (mul a b) as [lo hi].
  destruct Hm as (Hlo & Hhi & Em). unfold mul_portable.
  change (Z.shiftr a 32) with (hi_dword a). change (Z.land a 0xFFFFFFFF) with (lo_dword a).
  change (Z.shiftr b 32) with (hi_dword b). change (Z.land b 0xFFFFFFFF) with (lo_dword b).
  destruct (dwords a Ha) as (Ea & Hah & Hal). destruct (dwords b Hb) as (Eb & Hbh & Hbl).
  set (ah := hi_dword a) in *. set (al := lo_dword a) in *.
  set (bh := hi_dword b) in *. set (bl := lo_dword b) in *. clearbody ah al bh bl.
  change 0xFFFFFFFF with (2 ^ 32 - 1). rewrite !land_ones_mod, !Z.shiftr_div_pow2 by lia.
  assert (forall u v, is_u32 u -> is_u32 v -> 0 <= u * v <= 4294967295 * 4294967295) as Hm
    by (width_unfold; nia).
  pose proof (Hm al bl Hal Hbl) as B1. pose proof (Hm ah bl Hah Hbl) as B2.
  pose proof (Hm al bh Hal Hbh) as B3. pose proof (Hm ah bh Hah Hbh) as B4.
  assert (a * b = (ah * bh) * 2 ^ 64 + (ah * bl + al * bh) * 2 ^ 32 + al * bl) as E
    by (rewrite Ea, Eb; change (2 ^ 64) with (2 ^ 32 * 2 ^ 32); ring).
  rewrite Em in E. clear Em Ea Eb Hah Hal Hbh Hbl Hm Ha Hb a b.
  generalize dependent (al * bl). generalize dependent (ah * bl).
  generalize dependent (al * bh). generalize dependent (ah * bh). clear al ah bl bh.
  intros p4 B4 p3 B3 p2 B2 p1 B1 E.
  rewrite (wrap_small 64 p1), (wrap_small 64 p2), (wrap_small 64 p3), (wrap_small 64 p4) by mach.
  assert (forall v, 0 <= v -> v = v / 2 ^ 32 * 2 ^ 32 + v mod 2 ^ 32 /\ 0 <= v mod 2 ^ 32 < 2 ^ 32
    /\ 0 <= v / 2 ^ 32) as Hd.
  { intros v Hv. pose proof (Z.div_mod v (2 ^ 32) ltac:(lia)).
    pose proof (Z.mod_pos_bound v (2 ^ 32) ltac:(lia)). pose proof (Z.div_pos v (2 ^ 32)). lia. }
  pose proof (Hd p1 ltac:(lia)). set (p1h := p1 / 2 ^ 32) in *. set (p1l := p1 mod 2 ^ 32) in *.
  rewrite (wrap_small 64 (p2 + p1h)) by mach.
  pose proof (Hd (p2 + p1h) ltac:(lia)).
  set (p2h := (p2 + p1h) / 2 ^ 32) in *. set (p2l := (p2 + p1h) mod 2 ^ 32) in *.
  pose proof (Hd p3 ltac:(lia)). set (p3h := p3 / 2 ^ 32) in *. set (p3l := p3 mod 2 ^ 32) in *.
  rewrite (wrap_small 64 (p4 + p3h)) by mach. pose proof (Hd (p4 + p3h) ltac:(lia)).
  set (p4h := (p4 + p3h) / 2 ^ 32) in *. set (p4l := (p4 + p3h) mod 2 ^ 32) in *.
  rewrite (wrap_small 64 (p2l + p3l)) by mach. pose proof (Hd (p2l + p3l) ltac:(lia)).
  set (rh := (p2l + p3l) / 2 ^ 32) in *. set (rl := (p2l + p3l) mod 2 ^ 32) in *.
  rewrite (wrap_small 64 (p2h + p4l)) by mach.
  rewrite (wrap_small 64 (p2h + p4l + rh)) by mach. pose proof (Hd (p2h + p4l + rh) ltac:(lia)).
  set (sh := (p2h + p4l + rh) / 2 ^ 32) in *. set (sl := (p2h + p4l + rh) mod 2 ^ 32) in *.
  rewrite !Z.shiftl_mul_pow2 by lia. 
  assert (u64 ((p2l + p3l) * 2 ^ 32) = Z.shiftl rl 32) as ->.
  { rewrite Z.shiftl_mul_pow2 by lia. unfold wrap. change (2 ^ 64) with (2 ^ 32 * 2 ^ 32).
    by rewrite Z.mul_mod_distr_r by lia. }
  clearbody p1h p1l p2h p2l p3h p3l p4h p4l rh rl sh sl.
  rewrite (wrap_small 64 (p4h + sh)) by mach. rewrite (wrap_small 64 ((p4h + sh) * 2 ^ 32)) by mach.
  rewrite <- (Z.shiftl_mul_pow2 (p4h + sh)) by lia. rewrite (Z.lor_comm sl), !lor_add_low by lia.
  destruct (wide_unique ((p4h + sh) * 2 ^ 32 + sl) (rl * 2 ^ 32 + p1l) hi lo) as [-> ->]; [mach..|done].
Qed.

(** ** Checking a hash *)

Lemma cadd_spec a b : is_u64 a -> is_u64 b -> cadd a b = (2 ^ 64 <=? a + b).
Proof.
  intros Ha Hb. unfold cadd. pose proof (carry_spec 64 a b ltac:(lia) Ha Hb) as E.
  pose proof (wrap_range 64 (a + b) ltac:(lia)) as Hr.
  destruct (Z.ltb_spec (u64 (a + b)) a), (Z.leb_spec (2 ^ 64) (a + b)); mach.
Qed.

Lemma cadc_spec a b (c : bool) :
  is_u64 a -> is_u64 b -> cadc a b c = (2 ^ 64 <=? a + b + (if c then 1 else 0)).
Proof.
  intros Ha Hb. unfold cadc, UINT64_MAX. pose proof (carry_spec 64 a b ltac:(lia) Ha Hb) as E.
  pose proof (wrap_range 64 (a + b) ltac:(lia)) as Hr.
  destruct (Z.ltb_spec (u64 (a + b)) a), (Z.eqb_spec (u64 (a + b)) (2 ^ 64 - 1)), c; cbn [orb andb];
    match goal with |- context [?x <=? ?y] => destruct (Z.leb_spec x y) end; mach.
Qed.

Definition is_hash (hash : list Z) : Prop := byte_list hash /\ length hash = 32%nat.

Lemma hash_word_range hash i : is_hash hash -> is_u64 (hash_word hash i).
Proof.
  intros [Hb Hl]. unfold hash_word.
  assert (byte_list (take 8 (drop (8 * i) hash))) as H by (by apply Forall_take, Forall_drop).
  pose proof (le_value_bound 256 _ ltac:(lia) H) as [H0 H1]. split; [done|].
  eapply Z.lt_le_trans; [exact H1|]. change (2 ^ 64) with (256 ^ 8).
  apply Z.pow_le_mono_r; [lia|]. rewrite length_take. lia.
Qed.

Lemma hash_words hash :
  is_hash hash ->
  le_value 256 hash = hash_word hash 0 + 2 ^ 64 * hash_word hash 1
                      + 2 ^ 128 * hash_word hash 2 + 2 ^ 192 * hash_word hash 3.
Proof.
  intros [Hb Hl]. unfold hash_word.
  assert (forall l : list Z, (8 <= length l)%nat ->
    le_value 256 l = le_value 256 (take 8 l) + 2 ^ 64 * le_value 256 (drop 8 l)) as H.
  { intros l Hl'. rewrite <- (take_drop 8 l) at 1. rewrite le_value_app by lia.
    by rewrite length_take, Nat.min_l. }
  rewrite (H hash), (H (drop 8 hash)), (H (drop 8 (drop 8 hash))) by (rewrite ?length_drop; lia).
  rewrite !drop_drop. change (8 * 0)%nat with 0%nat. rewrite drop_0.
  change (8 * 1)%nat with 8%nat. change (8 * 2)%nat with (8 + 8)%nat.
  rewrite (take_ge (drop (8 * 3) hash)) by (rewrite length_drop; lia).
  change (8 + (8 + 8))%nat with (8 * 3)%nat. change (8 + 8 + 8)%nat with (8 * 3)%nat.
  change (2 ^ 128) with (2 ^ 64 * 2 ^ 64). change (2 ^ 192) with (2 ^ 64 * 2 ^ 64 * 2 ^ 64). ring.
Qed.

Lemma check_hash_64_spec hash d :
  is_hash hash -> is_u64 d -> check_hash_64 hash d = (le_value 256 hash * d <? 2 ^ 256).
Proof.
  intros Hh Hd. rewrite (hash_words hash Hh). unfold check_hash_64.
  pose proof (mul_spec _ d (hash_word_range hash 3 Hh) Hd) as M3.
  pose proof (mul_spec _ d (hash_word_range hash 0 Hh) Hd) as M0.
  pose proof (mul_spec _ d (hash_word_range hash 1 Hh) Hd) as M1.
  pose proof (mul_spec _ d (hash_word_range hash 2 Hh) Hd) as M2.
  destruct (mul (hash_word hash 3) d) as [l3 h3], (mul (hash_word hash 0) d) as [l0 h0],
    (mul (hash_word hash 1) d) as [l1 h1], (mul (hash_word hash 2) d) as [l2 h2].
  destruct M3 as (Hl3 & Hh3 & E3), M0 as (Hl0 & Hh0 & E0), M1 as (Hl1 & Hh1 & E1), M2 as (Hl2 & Hh2 & E2).
  rewrite (cadd_spec h0 l1), (cadc_spec h1 l2), (cadc_spec h2 l3) by done.
  assert ((hash_word hash 0 + 2 ^ 64 * hash_word hash 1 + 2 ^ 128 * hash_word hash 2
           + 2 ^ 192 * hash_word hash 3) * d
          = hash_word hash 0 * d + 2 ^ 64 * (hash_word hash 1 * d) + 2 ^ 128 * (hash_word hash 2 * d)
            + 2 ^ 192 * (hash_word hash 3 * d)) as -> by ring.
  rewrite E0, E1, E2, E3. clear E0 E1 E2 E3.
  change (2 ^ 256) with (2 ^ 64 * 2 ^ 192). change (2 ^ 192) with (2 ^ 64 * 2 ^ 128).
  change (2 ^ 128) with (2 ^ 64 * 2 ^ 64).
  width_unfold.
  destruct (Z.eqb_spec h3 0) as [->|]; cbn [negb].
  - destruct (Z.leb_spec 18446744073709551616 (h0 + l1));
      match goal with |- context [?x <=? h1 + ?y + ?z] => destruct (Z.leb_spec x (h1 + y + z)) end;
      match goal with |- context [?x <=? h2 + ?y + ?z] => destruct (Z.leb_spec x (h2 + y + z)) end; cbn [negb];
      match goal with |- context [?x <? ?y] => destruct (Z.ltb_spec x y) end; lia.
  - match goal with |- context [?x <? ?y] => destruct (Z.ltb_spec x y) end; lia.
Qed.

Lemma hash_val_value hash : is_hash hash -> hash_val hash = le_value 256 hash.
Proof.
  intros Hh. rewrite (hash_words hash Hh). unfold hash_val. cbn [seq fold_left].
  change (3 - 0)%nat with 3%nat. change (3 - 1)%nat with 2%nat. change (3 - 2)%nat with 1%nat.
  change (3 - 3)%nat with 0%nat.
  pose proof (hash_word_range hash 0 Hh). pose proof (hash_word_range hash 1 Hh).
  pose proof (hash_word_range hash 2 Hh). pose proof (hash_word_range hash 3 Hh).
  assert (2 ^ 192 = 2 ^ 64 * 2 ^ 64 * 2 ^ 64) as E192 by done.
  assert (2 ^ 128 = 2 ^ 64 * 2 ^ 64) as E128 by done.
  assert (forall v w, 0 <= v < 2 ^ 192 -> is_u64 w ->
    Z.lor (wrap 512 (Z.shiftl v 64)) w = v * 2 ^ 64 + w) as Hs.
  { intros v w Hv Hw. rewrite wrap_small; [by apply lor_add_low|].
    rewrite Z.shiftl_mul_pow2 by lia. unfold in_width.
    change (2 ^ 512) with (2 ^ 192 * (2 ^ 256 * 2 ^ 64)).
    assert (1 <= 2 ^ 256) by done. nia. }
  rewrite (Hs 0) by (done || split; done).
  rewrite (Hs (0 * _ + _)) by (try done; rewrite E192; width_unfold; lia).
  rewrite (Hs ((0 * _ + _) * _ + _)) by (try done; rewrite E192; width_unfold; lia).
  rewrite Hs by (try done; rewrite E192; width_unfold; lia).
  rewrite E128, E192. ring.
Qed.

(** C1: a hash, read as a little-endian 256-bit number, passes the check for a
    difficulty exactly when hash * difficulty < 2^256, for every 128-bit
    difficulty: the word-wise multiplication with carries used for small
    difficulties and the wide multiplication used for the others agree with it. *)
Theorem check_hash_spec (hash : list Z) (d : Z) :
  is_hash hash -> in_width 128 d -> check_hash hash d = (le_value 256 hash * d <? 2 ^ 256).
Proof.
  intros Hh Hd. unfold check_hash, max64bit. destruct (Z.leb_spec d (2 ^ 64 - 1)).
  - assert (is_u64 d) by (unfold in_width in *; lia). rewrite wrap_small by done.
    by apply check_hash_64_spec.
  - unfold check_hash_128, max256bit. rewrite hash_val_value by done.
    assert (0 <= le_value 256 hash < 2 ^ 256) as Hv.
    { destruct Hh as [Hb Hl]. pose proof (le_value_bound 256 hash ltac:(lia) Hb) as H'.
      rewrite Hl in H'. exact H'. }
    rewrite wrap_small.
    + destruct (Z.leb_spec (le_value 256 hash * d) (2 ^ 256 - 1)),
        (Z.ltb_spec (le_value 256 hash * d) (2 ^ 256)); lia.
    + unfold in_width in *. change (2 ^ 512) with (2 ^ 256 * (2 ^ 128 * 2 ^ 128)). nia.
Qed.

(** ** The next difficulty *)

Lemma cut_bounds n :
  (2 <= n <= 720)%nat ->
  let '(b, e) := cut n in (b + 2 <= e <= n /\ e - b = Nat.min n 600)%nat.
Proof.
  intros Hn. unfold cut. change (DIFFICULTY_WINDOW - 2 * DIFFICULTY_CUT)%nat with 600%nat.
  case_bool_decide; [lia|].
  pose proof (Nat.div_mod (n - 600 + 1) 2 ltac:(lia)).
  pose proof (Nat.mod_upper_bound (n - 600 + 1) 2 ltac:(lia)). lia.
Qed.

(** The timestamps of the window count only as a set: miners cannot change
    the next difficulty by the order in which the same times appear. *)
Theorem next_difficulty_order (ts ts' cds : list Z) (target : Z) :
  ts ≡ₚ ts' -> (length ts <= DIFFICULTY_WINDOW)%nat ->
  next_difficulty ts cds target = next_difficulty ts' cds target.
Proof.
  intros Hp Hl. assert (length ts = length ts') as El by (by apply Permutation_length).
  unfold next_difficulty, resize_window. rewrite <- El.
  rewrite !(bool_decide_eq_false_2 (_ < _)%nat) by lia. rewrite <- El.
  assert (merge_sort Z.le ts = merge_sort Z.le ts') as -> by
    (apply merge_sort_unique; [apply StronglySorted_merge_sort; apply _|by rewrite merge_sort_Permutation]).
  done.
Qed.

(** The [n] terms of an arithmetic progression *)
Definition progression (a d : Z) (n : nat) : list Z := (fun i => a + Z.of_nat i * d) <$> seq 0 n.

Lemma progression_lookup a d n i : (i < n)%nat -> progression a d n !! i = Some (a + Z.of_nat i * d).
Proof.
  intros Hi. unfold progression. by rewrite list_lookup_fmap, lookup_seq_lt.
Qed.

Lemma progression_sorted a d n : 0 <= d -> StronglySorted Z.le (progression a d n).
Proof.
  intros Hd. unfold progression. generalize 0%nat. induction n as [|n IH]; intros s; [constructor|].
  simpl. constructor; [apply IH|]. apply Forall_fmap, Forall_seq. intros j Hj. simpl. nia.
Qed.

Lemma ceil_scale x t k :
  0 <= x -> 0 < t -> 0 < k -> (k * x + k * t - 1) / (k * t) = (x + t - 1) / t.
Proof.
  intros Hx Ht Hk. symmetry. set (q := (x + t - 1) / t).
  pose proof (Z.div_mod (x + t - 1) t ltac:(lia)) as E. fold q in E.
  pose proof (Z.mod_pos_bound (x + t - 1) t ltac:(lia)) as B.
  apply Z.div_unique with (k * x + k * t - 1 - k * t * q); [left; nia|lia].
Qed.

(** When the blocks of the window came every [T] seconds, in whatever order
    the times were recorded, and each added the work [D], the next difficulty is
    D * target / T rounded up; in particular it stays [D] when blocks come at the
    target time. No index is out of range. *)
Theorem next_difficulty_steady (ts : list Z) (n : nat) (t0 T c0 D target : Z) :
  (2 <= n <= DIFFICULTY_WINDOW)%nat -> ts ≡ₚ progression t0 T n ->
  0 <= t0 -> 1 <= T -> t0 + Z.of_nat n * T < 2 ^ 64 ->
  0 <= c0 -> 1 <= D -> c0 + Z.of_nat n * D < 2 ^ 128 -> is_u64 target ->
  (D * target + T - 1) / T < 2 ^ 128 ->
  next_difficulty ts (progression c0 D n) target = Some ((D * target + T - 1) / T).
Proof.
  intros Hn Hp Ht0 HT Htb Hc0 HD Hcb Htg Hres.
  change DIFFICULTY_WINDOW with 720%nat in Hn.
  assert (length ts = n) as Hl
    by (rewrite Hp; unfold progression; by rewrite length_fmap, length_seq).
  unfold next_difficulty, resize_window. rewrite Hl. change DIFFICULTY_WINDOW with 720%nat.
  rewrite !(bool_decide_eq_false_2 (720 < n)%nat) by lia. rewrite Hl.
  rewrite (bool_decide_eq_false_2 (n <= 1)%nat) by lia.
  rewrite (merge_sort_unique (progression t0 T n)) by (done || apply progression_sorted; lia).
  pose proof (cut_bounds n Hn) as Hc. destruct (cut n) as [b e]. destruct Hc as [Hbe _].
  rewrite !progression_lookup by lia. cbn [mbind option_bind].
  set (k := Z.of_nat (e - 1) - Z.of_nat b). assert (1 <= k < Z.of_nat n) as Hk by lia.
  replace (t0 + Z.of_nat (e - 1) * T - (t0 + Z.of_nat b * T)) with (k * T) by (unfold k; ring).
  replace (c0 + Z.of_nat (e - 1) * D - (c0 + Z.of_nat b * D)) with (k * D) by (unfold k; ring).
  assert (1 <= k * T <= Z.of_nat n * T) as HkT by nia.
  assert (1 <= k * D <= Z.of_nat n * D) as HkD by nia.
  clearbody k. unfold in_width in Htg.
  rewrite (wrap_small 64), (wrap_small 128) by (unfold in_width; lia).
  destruct (Z.eqb_spec (k * T) 0); [lia|].
  rewrite wrap_small.
  - replace (k * D * target + k * T - 1) with (k * (D * target) + k * T - 1) by ring.
    rewrite ceil_scale by nia. unfold max128bit.
    destruct (Z.ltb_spec (2 ^ 128 - 1) ((D * target + T - 1) / T)); [lia|done].
  - unfold in_width. change (2 ^ 256) with (2 ^ 128 * (2 ^ 64 * 2 ^ 64)).
    assert (k * D * target <= 2 ^ 128 * 2 ^ 64) by nia. split; [nia|].
    change (2 ^ 128) with (2 ^ 64 * 2 ^ 64) in *. lia.
Qed.

Lemma resize_window_length ts : (length (resize_window ts ts) <= 720)%nat.
Proof.
  unfold resize_window, DIFFICULTY_WINDOW. case_bool_decide; [rewrite length_take|]; lia.
Qed.

(** The cumulative difficulties picked in the window *)
Lemma next_difficulty_total ts ds target :
  length ts = length ds -> is_Some (next_difficulty ts ds target).
Proof.
  intros El. unfold next_difficulty.
  assert (length (resize_window ts ts) = length (resize_window ts ds)) as Er.
  { unfold resize_window. case_bool_decide; rewrite ?length_take; lia. }
  pose proof (resize_window_length ts) as Hr.
  case_bool_decide as Hs; [done|].
  pose proof (cut_bounds (length (resize_window ts ts)) ltac:(lia)) as Hc.
  destruct (cut _) as [b e]. destruct Hc as [Hc _].
  assert (length (merge_sort Z.le (resize_window ts ts)) = length (resize_window ts ts)) as Em
    by (by rewrite merge_sort_Permutation).
  assert (forall (l : list Z) i, (i < length l)%nat -> exists x, l !! i = Some x) as Hl
    by (intros l i Hi; by apply lookup_lt_is_Some_2).
  destruct (Hl (merge_sort Z.le (resize_window ts ts)) (e - 1)%nat) as [t1 ->]; [lia|].
  destruct (Hl (merge_sort Z.le (resize_window ts ts)) b) as [t0 ->]; [lia|].
  destruct (Hl (resize_window ts ds) (e - 1)%nat) as [w1 ->]; [lia|].
  destruct (Hl (resize_window ts ds) b) as [w0 ->]; [lia|]. cbn. by case_match.
Qed.

Lemma window_work ts cds i j w0 w1 :
  Forall is_u64 cds -> StronglySorted Z.le cds -> (i <= j)%nat ->
  resize_window ts cds !! i = Some w0 -> resize_window ts cds !! j = Some w1 ->
  is_u64 w0 /\ is_u64 w1 /\ w0 <= w1.
Proof.
  intros Hcds Hs Hij. assert (forall k w, resize_window ts cds !! k = Some w -> cds !! k = Some w) as Hw.
  { intros k w. unfold resize_window. case_bool_decide; [|done].
    destruct (decide (k < DIFFICULTY_WINDOW)%nat); [by rewrite lookup_take_lt|].
    by rewrite lookup_take_ge by lia. }
  intros H0%Hw H1%Hw. rewrite Forall_lookup in Hcds.
  split; [by eapply Hcds|]. split; [by eapply Hcds|]. by eapply (sorted_lookup_le cds i j).
Qed.

(** Whenever the 64-bit version does not report an overflow (result 0), the
    128-bit version gives the same difficulty on the same blocks. *)
Theorem next_difficulty_64_agrees (ts cds : list Z) (target r : Z) :
  length ts = length cds -> Forall is_u64 ts -> Forall is_u64 cds ->
  StronglySorted Z.le cds -> is_u64 target ->
  next_difficulty_64 ts cds target = Some r -> r <> 0 ->
  next_difficulty ts cds target = Some r.
Proof.
  intros Hl Hts Hcds Hsort Htg. unfold next_difficulty_64, next_difficulty.
  case_bool_decide as Hn; [done|].
  set (wts := resize_window ts ts) in *. set (wcd := resize_window ts cds).
  destruct (cut (length wts)) as [b e] eqn:Ecut.
  destruct (merge_sort Z.le wts !! (e - 1)%nat) as [t1|] eqn:E1; [|done]. cbn [mbind option_bind].
  destruct (merge_sort Z.le wts !! b) as [t0|] eqn:E0; [|done]. cbn [mbind option_bind].
  destruct (wcd !! (e - 1)%nat) as [w1|] eqn:W1; [|done]. cbn [mbind option_bind].
  destruct (wcd !! b) as [w0|] eqn:W0; [|done]. cbn [mbind option_bind].
  set (span := if u64 (t1 - t0) =? 0 then 1 else u64 (t1 - t0)).
  assert (1 <= span < 2 ^ 64) as Hspan.
  { unfold span. pose proof (wrap_range 64 (t1 - t0) ltac:(lia)) as [??].
    destruct (Z.eqb_spec (u64 (t1 - t0)) 0); lia. }
  clearbody span.
  assert (b <= e - 1)%nat as Hbe.
  { pose proof (resize_window_length ts). fold wts in H.
    pose proof (cut_bounds (length wts) ltac:(lia)) as Hc. rewrite Ecut in Hc. lia. }
  destruct (window_work ts cds b (e - 1) w0 w1) as (H0 & H1 & Hle); [done..|].
  rewrite (wrap_small 64 (w1 - w0)), (wrap_small 128 (w1 - w0))
    by (unfold in_width in *; change (2 ^ 128) with (2 ^ 64 * 2 ^ 64); lia).
  pose proof (mul_spec (w1 - w0) target ltac:(unfold in_width in *; lia) Htg) as Hm.
  destruct (mul (w1 - w0) target) as [lo hi]. destruct Hm as (Hlo & Hhi & Em).
  destruct (Z.eqb_spec hi 0) as [->|]; cbn [negb orb]; [|intros [= <-]; done].
  assert ((w1 - w0) * target = lo) as -> by lia.
  destruct (Z.ltb_spec (u64 (u64 (lo + span) - 1)) lo) as [|Hno]; [intros [= <-]; done|].
  assert (lo + span - 1 < 2 ^ 64) as Hfit.
  { unfold wrap in Hno. rewrite Zminus_mod_idemp_l in Hno.
    destruct (Z.lt_ge_cases (lo + span - 1) (2 ^ 64)); [done|].
    assert ((lo + span - 1) mod 2 ^ 64 = lo + span - 1 - 2 ^ 64) as E
      by (symmetry; apply Z.mod_unique with 1; unfold in_width in *; lia).
    lia. }
  intros [= <-] Hr. rewrite (wrap_small 256) by (unfold in_width in *; change (2 ^ 256) with (2 ^ 64 * 2 ^ 192); lia).
  assert (u64 (u64 (lo + span) - 1) = lo + span - 1) as ->
    by (unfold wrap; rewrite Zminus_mod_idemp_l; apply Z.mod_small; unfold in_width in *; lia).
  assert ((lo + span - 1) / span <= lo + span - 1) by (apply Z.div_le_upper_bound; unfold in_width in *; nia).
  unfold max128bit. destruct (Z.ltb_spec (2 ^ 128 - 1) ((lo + span - 1) / span)); [|done].
  change (2 ^ 128) with (2 ^ 64 * 2 ^ 64) in *. lia.
Qed.

(** ** Hexadecimal *)

Definition hex_value (s : list Z) : Z :=
  le_value 16 ((fun c => if c <? 58 then c - 48 else c - 87) <$> rev s).

Lemma hex_loop_value fuel v :
  0 <= v < 16 ^ Z.of_nat fuel -> hex_value (rev (hex_loop fuel v)) = v.
Proof.
  unfold hex_value. rewrite rev_involutive. revert v.
  induction fuel as [|fuel IH]; intros v Hv; [simpl in *; lia|]. cbn [hex_loop].
  destruct (Z.ltb_spec 0 v); [|simpl; lia].
  rewrite Nat2Z.inj_succ, Z.pow_succ_r in Hv by lia.
  change 0xf with (2 ^ 4 - 1). rewrite land_ones_mod, Z.shiftr_div_pow2 by lia. change (2 ^ 4) with 16.
  cbn [fmap list_fmap le_value]. rewrite IH by (split; [apply Z.div_pos; lia|apply Z.div_lt_upper_bound; lia]).
  pose proof (Z.div_mod v 16 ltac:(lia)). pose proof (Z.mod_pos_bound v 16 ltac:(lia)).
  assert (forall k, (k < 16)%nat ->
    (let c := nth k hex_chars 0 in if c <? 58 then c - 48 else c - 87) = Z.of_nat k) as Hk.
  { intros k Hk. do 16 (destruct k as [|k]; [done|]). lia. }
  specialize (Hk (Z.to_nat (v mod 16)) ltac:(lia)). cbv zeta in Hk. rewrite Hk. lia.
Qed.

(** The text of a difficulty is "0x" followed by hexadecimal digits whose
    value is the difficulty. *)
Theorem hex_spec (v : Z) :
  in_width 128 v -> exists s, hex v = str_bytes "0x" ++ s /\ s <> [] /\ hex_value s = v.
Proof.
  intros Hv. unfold hex. pose proof (hex_loop_value 32 v Hv) as H.
  destruct (hex_loop 32 v) as [|c s] eqn:E.
  - exists (str_bytes "0"). split_and!; [done|done|]. rewrite <- H. done.
  - eexists. split_and!; [done| |done]. intros E2. apply (f_equal length) in E2.
    rewrite length_rev in E2. done.
Qed.

(** ** Witnesses *)

Definition demo_pow : list Z := replicate 28 255 ++ [0; 0; 0; 0].

Lemma mul_portable_eq_witness : mul_portable UINT64_MAX UINT64_MAX = mul UINT64_MAX UINT64_MAX.
Proof. apply mul_portable_eq; by_decide. Defined.

Lemma check_hash_spec_witness :
  check_hash demo_pow 4294967296 = true /\ (le_value 256 demo_pow * 4294967296 <? 2 ^ 256) = true.
Proof.
  split; [by vm_compute|]. rewrite <- (check_hash_spec demo_pow 4294967296); [by vm_compute| |by_decide].
  split; [by repeat constructor|done].
Defined.

Lemma next_difficulty_order_witness :
  next_difficulty [120; 0; 240] [5; 10; 15] 120 = next_difficulty [0; 120; 240] [5; 10; 15] 120.
Proof.
  apply next_difficulty_order; [apply (perm_swap 0 120 [240])|by_decide].
Defined.

Lemma next_difficulty_steady_witness :
  next_difficulty [120; 0; 240] (progression 100 1000 3) 120 = Some 1000.
Proof.
  refine (next_difficulty_steady [120; 0; 240] 3 0 120 100 1000 120 _ _ _ _ _ _ _ _ _ _);
    try by_decide.
Defined.

Lemma next_difficulty_64_agrees_witness :
  next_difficulty [0; 60; 180] [5; 10; 15] 120 = Some 7.
Proof.
  refine (next_difficulty_64_agrees [0; 60; 180] [5; 10; 15] 120 7 _ _ _ _ _ _ _);
    [done|by repeat constructor|by repeat constructor|by repeat constructor|by_decide|by vm_compute|done].
Defined.

Lemma hex_spec_witness : exists s, hex 255 = str_bytes "0x" ++ s /\ s <> [] /\ hex_value s = 255.
Proof. exact (hex_spec 255 ltac:(by_decide)). Defined.
