(* ===== verification/DifficultyCache.v ===== *)
(** * The difficulty of the next block: Blockchain::get_difficulty_for_next_block of
    core/src/cryptonote_core/blockchain.cpp

    The node keeps the last answer with the hash of the block it was for, and the last 735
    timestamps and difficulties, which it slides by one block instead of reading them
    again. Other methods mark the lists as stale when the chain may change in another way.
    The state below has these members and the chain; the steps are the methods that touch
    them. *)

From S2P Require Import Prelude IntUtil Difficulty.

Record block_info := { bi_timestamp : Z; bi_cumulative_difficulty : Z }.
#[global] Instance block_info_eq_dec : EqDecision block_info.
Proof. solve_decision. Defined.

Notation COUNT := DIFFICULTY_BLOCKS_COUNT (only parsing).

Section Cache.
(** Hashes of blocks: the hash of the top block of a chain. It stands for the chain. *)
Context {H : Type} `{EqDecision H} (null_hash : H) (block_hash : list block_info -> H).
(** The version of the next block, a function of the chain: what [HardFork] keeps *)
Context (hard_fork_version : list block_info -> Z).

Record state := {
  db : list block_info;
  m_fixed_difficulty : Z;
  m_difficulty_for_next_block_top_hash : H;
  m_difficulty_for_next_block : Z;
  m_timestamps_and_difficulties_height : Z;
  m_reset_timestamps_and_difficulties_height : bool;
  m_timestamps : list Z;
  m_difficulties : list Z;
  (** The chain at the start of the batch of the database, while there is one *)
  batch : option (list block_info) }.

Definition get_difficulty_target (chain : list block_info) : Z :=
  if hard_fork_version chain <? 2 then DIFFICULTY_TARGET_V1 else DIFFICULTY_TARGET_V2.

(** Reads of the database; [None] is the exception for a block that is not there. *)
Definition get_block_timestamp (chain : list block_info) (height : Z) : option Z :=
  bi_timestamp <$> chain !! Z.to_nat height.
Definition get_block_cumulative_difficulty (chain : list block_info) (height : Z) : option Z :=
  bi_cumulative_difficulty <$> chain !! Z.to_nat height.

(** [while (v.size() > DIFFICULTY_BLOCKS_COUNT) v.erase(v.begin())] *)
Fixpoint trim (v : list Z) : list Z :=
  match v with
  | [] => []
  | _ :: w => if bool_decide (COUNT < length v)%nat then trim w else v
  end.

(** [for (; offset < height; offset++)], [n] rounds *)
Fixpoint read_loop (chain : list block_info) (n : nat) (offset : Z) (timestamps difficulties : list Z)
  : option (list Z * list Z) :=
  match n with
  | O => Some (timestamps, difficulties)
  | S n =>
    t ← get_block_timestamp chain offset;
    d ← get_block_cumulative_difficulty chain offset;
    read_loop chain n (offset + 1) (timestamps ++ [t]) (difficulties ++ [d])
  end.

(** The difficulty and the state after *)
Definition get_difficulty_for_next_block (st : state) : option (Z * state) :=
  let height := Z.of_nat (length (db st)) in
  if negb (m_fixed_difficulty st =? 0) then Some ((if height =? 0 then 1 else m_fixed_difficulty st), st)
  else
    let top_hash := block_hash (db st) in
    if bool_decide (top_hash = m_difficulty_for_next_block_top_hash st)
    then Some (m_difficulty_for_next_block st, st)
    else
      let cached_height :=
        if m_reset_timestamps_and_difficulties_height st then 0 else m_timestamps_and_difficulties_height st in
      '(timestamps, difficulties) ←
        (if negb (cached_height =? 0) && (u64 (height - cached_height) =? 1)
            && bool_decide (COUNT <= length (m_timestamps st))%nat
         then
           let index := height - 1 in
           t ← get_block_timestamp (db st) index;
           d ← get_block_cumulative_difficulty (db st) index;
           Some (trim (m_timestamps st ++ [t]), trim (m_difficulties st ++ [d]))
         else
           let offset := height - Z.min height (Z.of_nat COUNT) in
           let offset := if offset =? 0 then offset + 1 else offset in
           read_loop (db st) (Z.to_nat (height - offset)) offset [] []);
      diff ← next_difficulty timestamps difficulties (get_difficulty_target (db st));
      Some (diff,
        {| db := db st; m_fixed_difficulty := m_fixed_difficulty st;
           m_difficulty_for_next_block_top_hash := top_hash; m_difficulty_for_next_block := diff;
           m_timestamps_and_difficulties_height := height;
           m_reset_timestamps_and_difficulties_height := m_reset_timestamps_and_difficulties_height st;
           m_timestamps := timestamps; m_difficulties := difficulties; batch := batch st |}).

(** Changes of the chain and of the marks *)
Definition with_chain (st : state) (chain : list block_info) (height : Z) (reset : bool) : state :=
  {| db := chain; m_fixed_difficulty := m_fixed_difficulty st;
     m_difficulty_for_next_block_top_hash := m_difficulty_for_next_block_top_hash st;
     m_difficulty_for_next_block := m_difficulty_for_next_block st;
     m_timestamps_and_difficulties_height := height; m_reset_timestamps_and_difficulties_height := reset;
     m_timestamps := m_timestamps st; m_difficulties := m_difficulties st; batch := batch st |}.
Definition with_batch (st : state) (b : option (list block_info)) : state :=
  {| db := db st; m_fixed_difficulty := m_fixed_difficulty st;
     m_difficulty_for_next_block_top_hash := m_difficulty_for_next_block_top_hash st;
     m_difficulty_for_next_block := m_difficulty_for_next_block st;
     m_timestamps_and_difficulties_height := m_timestamps_and_difficulties_height st;
     m_reset_timestamps_and_difficulties_height := m_reset_timestamps_and_difficulties_height st;
     m_timestamps := m_timestamps st; m_difficulties := m_difficulties st; batch := b |}.

(** What [pop_block_from_blockchain], [switch_to_alternative_blockchain],
    [rollback_blockchain_switching] and [handle_alternative_block] do first *)
Definition mark_stale (st : state) : state := with_chain st (db st) 0 true.

(** [false] is the exception for the genesis block. *)
Definition pop_block_from_blockchain (st : state) : bool * state :=
  let st := mark_stale st in
  if negb (1 <? Z.of_nat (length (db st))) then (false, st)
  else (true, with_chain st (take (length (db st) - 1) (db st)) (m_timestamps_and_difficulties_height st)
                (m_reset_timestamps_and_difficulties_height st)).

(** The end of [handle_block_to_main_chain]: the block is added with its cumulative
    difficulty, and the difficulty is asked for once more. [limit_updated] is the outcome of
    [update_next_cumulative_weight_limit]. *)
Definition store_new_block (st : state) (current_diffic timestamp : Z) (limit_updated : bool)
  : option (bool * state) :=
  let blockchain_height := Z.of_nat (length (db st)) in
  cumulative_difficulty ←
    (if negb (blockchain_height =? 0)
     then d ← get_block_cumulative_difficulty (db st) (blockchain_height - 1); Some (u128 (current_diffic + d))
     else Some current_diffic);
  let b := {| bi_timestamp := timestamp; bi_cumulative_difficulty := cumulative_difficulty |} in
  let st := with_chain st (db st ++ [b]) (m_timestamps_and_difficulties_height st)
              (m_reset_timestamps_and_difficulties_height st) in
  if negb limit_updated then Some (false, (pop_block_from_blockchain st).2)
  else '(_, st) ← get_difficulty_for_next_block st; Some (true, st).

(** [handle_block_to_main_chain] from the check of the proof of work on; [checks] is the
    outcome of the checks that follow and of the database. *)
Definition handle_block_to_main_chain (st : state) (timestamp : Z) (checks limit_updated : bool)
  : option (bool * state) :=
  '(current_diffic, st) ← get_difficulty_for_next_block st;
  if current_diffic =? 0 then Some (false, st)
  else if negb checks then Some (false, st)
  else store_new_block st current_diffic timestamp limit_updated.

(** [cleanup_handle_incoming_blocks] after a batch that went well, and after one that did
    not *)
Definition batch_done (st : state) : state :=
  with_batch (if m_reset_timestamps_and_difficulties_height st then with_chain st (db st) 0 false else st) None.
Definition batch_abort (st : state) : state :=
  match batch st with
  | Some chain =>
      with_batch (with_chain st chain (m_timestamps_and_difficulties_height st)
                    (m_reset_timestamps_and_difficulties_height st)) None
  | None => st
  end.

Definition initial (genesis : block_info) (fixed : Z) : state :=
  {| db := [genesis]; m_fixed_difficulty := fixed; m_difficulty_for_next_block_top_hash := null_hash;
     m_difficulty_for_next_block := 1; m_timestamps_and_difficulties_height := 0;
     m_reset_timestamps_and_difficulties_height := true; m_timestamps := []; m_difficulties := []; batch := None |}.

Inductive step : state -> state -> Prop :=
  | step_query st d st' : get_difficulty_for_next_block st = Some (d, st') -> step st st'
  | step_add st timestamp checks limit_updated added st' :
      Z.of_nat (length (db st)) < UINT64_MAX ->
      handle_block_to_main_chain st timestamp checks limit_updated = Some (added, st') -> step st st'
  | step_pop st : step st (pop_block_from_blockchain st).2
  | step_stale st : step st (mark_stale st)
  | step_batch_start st : batch st = None -> step st (with_batch st (Some (db st)))
  | step_batch_done st : step st (batch_done st)
  | step_batch_abort st : step st (batch_abort st).

Inductive reachable : state -> Prop :=
  | reachable_initial genesis fixed : reachable (initial genesis fixed)
  | reachable_step st st' : reachable st -> step st st' -> reachable st'.

(** ** What the answer should be *)

(** The last 735 blocks without the genesis block *)
Definition window (chain : list block_info) : list block_info := drop (1 `max` (length chain - COUNT)) chain.

Definition ideal_difficulty (fixed : Z) (chain : list block_info) : option Z :=
  if negb (fixed =? 0) then Some (if Z.of_nat (length chain) =? 0 then 1 else fixed)
  else next_difficulty (bi_timestamp <$> window chain) (bi_cumulative_difficulty <$> window chain)
         (get_difficulty_target chain).

(** ** The two ways to the lists *)

Lemma trim_drop v : trim v = drop (length v - COUNT) v.
Proof.
  induction v as [|x v IH]; [done|]. cbn [trim]. case_bool_decide as Hl.
  - rewrite IH. cbn [length] in *.
    replace (S (length v) - COUNT)%nat with (S (length v - COUNT)) by lia. done.
  - by replace (length (x :: v) - COUNT)%nat with 0%nat by lia.
Qed.

Lemma read_loop_eq chain n k ts ds :
  (k + n = length chain)%nat ->
  read_loop chain n (Z.of_nat k) ts ds =
  Some (ts ++ (bi_timestamp <$> drop k chain), ds ++ (bi_cumulative_difficulty <$> drop k chain)).
Proof.
  revert k ts ds. induction n as [|n IH]; intros k ts ds Hk; cbn [read_loop].
  - rewrite drop_ge by lia. by rewrite !app_nil_r.
  - destruct (lookup_lt_is_Some_2 chain k) as [b Hb]; [lia|].
    unfold get_block_timestamp, get_block_cumulative_difficulty. rewrite Nat2Z.id, Hb. cbn.
    replace (Z.of_nat k + 1) with (Z.of_nat (S k)) by lia. rewrite IH by lia.
    rewrite (drop_S chain b k) by done. cbn. by rewrite <- !app_assoc.
Qed.

Lemma window_lists chain :
  chain <> [] ->
  let height := Z.of_nat (length chain) in
  let offset := height - Z.min height (Z.of_nat COUNT) in
  let offset := if offset =? 0 then offset + 1 else offset in
  read_loop chain (Z.to_nat (height - offset)) offset [] [] =
  Some (bi_timestamp <$> window chain, bi_cumulative_difficulty <$> window chain).
Proof.
  intros Hne height offset offset'. assert (length chain <> 0%nat) by (by destruct chain).
  assert (offset' = Z.of_nat (1 `max` (length chain - COUNT))) as ->.
  { unfold offset', offset, height. case_match eqn:E; lia. }
  rewrite read_loop_eq; [done|]. unfold height. lia.
Qed.

Lemma window_length chain : length (window chain) = Nat.min (length chain - 1) COUNT.
Proof. unfold window. rewrite length_drop. lia. Qed.

(** One more block on a chain whose window is full *)
Lemma window_slide {A} (f : block_info -> A) chain b :
  (COUNT <= length (window chain))%nat ->
  f <$> window (chain ++ [b]) = drop (length ((f <$> window chain) ++ [f b]) - COUNT) ((f <$> window chain) ++ [f b]).
Proof.
  intros Hw. rewrite window_length in Hw.
  rewrite length_app, length_fmap, window_length. cbn [length].
  replace (Nat.min (length chain - 1) COUNT + 1 - COUNT)%nat with 1%nat by lia.
  assert (COUNT = 735%nat) as EC by reflexivity.
  unfold window. rewrite length_app. cbn [length].
  rewrite drop_app_le, fmap_app by lia. rewrite drop_app_le by (rewrite length_fmap, length_drop; lia).
  rewrite !fmap_drop, drop_drop. cbn [fmap list_fmap]. do 2 f_equal. lia.
Qed.

(** ** The invariant *)

(** What the lists of the state hold when the chain they were made for is [c] *)
Record lists_of (st : state) (c : list block_info) : Prop := {
  lists_height : m_timestamps_and_difficulties_height st = Z.of_nat (length c);
  lists_timestamps : m_timestamps st = bi_timestamp <$> window c;
  lists_difficulties : m_difficulties st = bi_cumulative_difficulty <$> window c;
  lists_prefix :
    m_reset_timestamps_and_difficulties_height st = false ->
    (length c <= length (db st))%nat -> take (length c) (db st) = c }.

Record inv (st : state) : Prop := {
  inv_chain : db st <> [] /\ Z.of_nat (length (db st)) <= UINT64_MAX;
  inv_batch c0 : batch st = Some c0 ->
    c0 <> [] /\ Z.of_nat (length c0) <= UINT64_MAX /\
    (m_reset_timestamps_and_difficulties_height st = false -> c0 `prefix_of` db st);
  inv_fixed : m_fixed_difficulty st <> 0 -> m_timestamps_and_difficulties_height st = 0;
  inv_answer :
    m_difficulty_for_next_block_top_hash st = null_hash /\ m_timestamps_and_difficulties_height st = 0 \/
    exists c, c <> [] /\ Z.of_nat (length c) <= UINT64_MAX /\
      m_difficulty_for_next_block_top_hash st = block_hash c /\
      ideal_difficulty 0 c = Some (m_difficulty_for_next_block st) /\
      (m_timestamps_and_difficulties_height st = 0 \/ lists_of st c) }.

Lemma ideal_difficulty_total fixed chain : is_Some (ideal_difficulty fixed chain).
Proof.
  unfold ideal_difficulty. case_match; [done|]. apply next_difficulty_total. by rewrite !length_fmap.
Qed.

(** The lists the method computes are those of the window, whichever branch it takes. *)
Lemma lists_computed st :
  inv st -> m_fixed_difficulty st = 0 ->
  let height := Z.of_nat (length (db st)) in
  let cached_height :=
    if m_reset_timestamps_and_difficulties_height st then 0 else m_timestamps_and_difficulties_height st in
  (if negb (cached_height =? 0) && (u64 (height - cached_height) =? 1)
      && bool_decide (COUNT <= length (m_timestamps st))%nat
   then
     let index := height - 1 in
     t ← get_block_timestamp (db st) index;
     d ← get_block_cumulative_difficulty (db st) index;
     Some (trim (m_timestamps st ++ [t]), trim (m_difficulties st ++ [d]))
   else
     let offset := height - Z.min height (Z.of_nat COUNT) in
     let offset := if offset =? 0 then offset + 1 else offset in
     read_loop (db st) (Z.to_nat (height - offset)) offset [] []) =
  Some (bi_timestamp <$> window (db st), bi_cumulative_difficulty <$> window (db st)).
Proof.
  intros [[Hne Hlen] _ _ Ha] Hf height cached_height.
  case_match eqn:E; [|by apply window_lists].
  apply andb_prop in E as [E Ec%bool_decide_eq_true]. apply andb_prop in E as [Eh Ed%Z.eqb_eq].
  apply negb_true_iff, Z.eqb_neq in Eh. unfold cached_height in *.
  destruct (m_reset_timestamps_and_difficulties_height st) eqn:Er; [done|].
  destruct Ha as [[_ ?]|(c & Hc & Hcl & _ & _ & [?|[Lh Lt Ld Lp]])]; [done|done|].
  assert (length (db st) = S (length c)) as El.
  { rewrite Lh in Ed. unfold height, u64, wrap in Ed. unfold UINT64_MAX in *.
    assert (Z.of_nat (length (db st)) - Z.of_nat (length c) <> 1 ->
            0 <= Z.of_nat (length (db st)) - Z.of_nat (length c) -> False) by (intros ? ?; rewrite Z.mod_small in Ed; lia).
    destruct (decide (Z.of_nat (length (db st)) < Z.of_nat (length c))); [|lia]. exfalso.
    assert (length c <> 0%nat) by (by destruct c). assert (length (db st) <> 0%nat) by (by destruct (db st)).
    rewrite <- (Z.mod_add _ 1) in Ed by done. rewrite Z.mod_small in Ed; lia. }
  destruct (lookup_lt_is_Some_2 (db st) (length c)) as [b Hb]; [lia|].
  assert (db st = c ++ [b]) as Edb.
  { rewrite <- (take_drop (length c) (db st)), Lp by (done || lia).
    by rewrite (drop_S _ b), drop_ge by (done || lia). }
  cbv zeta. unfold get_block_timestamp, get_block_cumulative_difficulty, height.
  replace (Z.to_nat (Z.of_nat (length (db st)) - 1)) with (length c) by lia. rewrite Hb. cbn [fmap option_fmap option_map mbind option_bind].
  rewrite Lt, length_fmap in Ec.
  rewrite Lt, Ld, !trim_drop, Edb, !window_slide by done. done.
Qed.

Context (hash_inj : forall c c', c <> [] -> c' <> [] -> block_hash c = block_hash c' -> c = c').
Context (hash_not_null : forall c, c <> [] -> block_hash c <> null_hash).

(** The answer was for the chain as it is, or the lists are not in use. *)
Definition fresh (st : state) : Prop :=
  m_timestamps_and_difficulties_height st = 0 \/ m_difficulty_for_next_block_top_hash st = block_hash (db st).

Lemma query_spec st :
  inv st ->
  exists d st', get_difficulty_for_next_block st = Some (d, st') /\
    ideal_difficulty (m_fixed_difficulty st) (db st) = Some d /\
    inv st' /\ fresh st' /\ db st' = db st.
Proof.
  intros Hi. pose proof Hi as [[Hne Hlen] Hb Hf Ha].
  unfold get_difficulty_for_next_block. destruct (Z.eqb_spec (m_fixed_difficulty st) 0) as [Ef|Ef]; cbn [negb].
  2: { eexists _, _. split; [done|]. unfold ideal_difficulty. rewrite (proj2 (Z.eqb_neq _ _) Ef).
       split; [done|]. split; [done|]. split; [left; by apply Hf|done]. }
  rewrite Ef. case_bool_decide as Et.
  - destruct Ha as [[E _]|(c & Hc & _ & E & Hid & Hl)].
    { exfalso. apply (hash_not_null (db st) Hne). congruence. }
    assert (c = db st) as -> by (apply hash_inj; congruence).
    eexists _, _. split; [done|]. split; [done|]. split; [done|]. split; [right; done|done].
  - pose proof (lists_computed st Hi Ef) as HL. cbv zeta in HL |- *. rewrite HL. clear HL. cbn [mbind option_bind].
    pose proof (ideal_difficulty_total 0 (db st)) as [d Hd]. pose proof Hd as Hd'.
    unfold ideal_difficulty in Hd. cbn [negb Z.eqb] in Hd. rewrite Hd. cbn [mbind option_bind].
    eexists _, _. split; [done|]. split; [done|]. split; [|split; [right; done|done]].
    constructor; cbn; [done|done|done|]. right. exists (db st).
    split; [done|]. split; [done|]. split; [done|]. split; [done|]. right.
    constructor; cbn; [done..|]. intros _ _. by rewrite take_ge.
Qed.

(** ** The steps keep the invariant *)

Lemma inv_initial genesis fixed : inv (initial genesis fixed).
Proof. constructor; cbn; [done|done|done|by left]. Qed.

(** A chain of any kind may come after the lists are given up. *)
Lemma inv_given_up st chain :
  inv st -> chain <> [] -> Z.of_nat (length chain) <= UINT64_MAX -> inv (with_chain st chain 0 true).
Proof.
  intros [_ Hb Hf Ha] Hne Hlen. constructor; cbn; [done| |done|].
  - intros c0 E. destruct (Hb c0 E) as (? & ? & _). done.
  - destruct Ha as [[? _]|(c & ? & ? & ? & ? & _)]; [by left|]. right. exists c. split_and!; auto.
Qed.

Lemma inv_add st b :
  inv st -> fresh st -> Z.of_nat (length (db st)) < UINT64_MAX ->
  inv (with_chain st (db st ++ [b]) (m_timestamps_and_difficulties_height st)
         (m_reset_timestamps_and_difficulties_height st)).
Proof.
  intros [[Hne Hlen] Hb Hf Ha] Hfr Hlt. constructor; cbn.
  - split; [by destruct (db st)|]. rewrite length_app. cbn. lia.
  - intros c0 E. destruct (Hb c0 E) as (? & ? & Hp). split; [done|]. split; [done|].
    intros Er. destruct (Hp Er) as [k ->]. rewrite <- app_assoc. apply prefix_app_r. done.
  - done.
  - destruct Ha as [?|(c & ? & ? & Et & ? & Hl)]; [by left|]. right. exists c.
    split; [done|]. split; [done|]. split; [done|]. split; [done|].
    destruct Hl as [?|[Lh Lt Ld Lp]]; [by left|]. destruct Hfr as [?|Efr]; [by left|].
    assert (c = db st) as -> by (apply hash_inj; congruence).
    right. constructor; cbn; [done..|]. intros _ _. by rewrite take_app_length.
Qed.

Lemma inv_batch_start st : inv st -> inv (with_batch st (Some (db st))).
Proof.
  intros [[Hne Hlen] Hb Hf Ha]. constructor; cbn; [done| |done|].
  - intros c0 [= <-]. split; [done|]. split; [done|]. intros _. done.
  - destruct Ha as [?|(c & ? & ? & ? & ? & Hl)]; [by left|]. right. exists c.
    do 4 (split; [done|]). destruct Hl as [?|[Lh Lt Ld Lp]]; [by left|]. by right.
Qed.

Lemma inv_batch_done st : inv st -> inv (batch_done st).
Proof.
  intros [Hc Hb Hf Ha]. unfold batch_done.
  destruct (m_reset_timestamps_and_difficulties_height st) eqn:Er; constructor; cbn; try done.
  - destruct Ha as [[? _]|(c & ? & ? & ? & ? & _)]; [by left|]. right. exists c. split_and!; auto.
  - destruct Ha as [?|(c & ? & ? & ? & ? & Hl)]; [by left|]. right. exists c.
    do 4 (split; [done|]). destruct Hl as [?|[Lh Lt Ld Lp]]; [by left|]. by right.
Qed.

(** An aborted batch takes the chain back without a mark. The lists may then be of a
    longer chain, which no height one above theirs can follow before the next question. *)
Lemma inv_batch_abort st : inv st -> inv (batch_abort st).
Proof.
  intros [Hc Hb Hf Ha]. unfold batch_abort. destruct (batch st) as [c0|] eqn:Eb; [|by constructor; try rewrite Eb].
  destruct (Hb c0 eq_refl) as (Hne & Hlen & Hp). constructor; cbn; try done.
  destruct Ha as [?|(c & ? & ? & ? & ? & Hl)]; [by left|]. right. exists c.
  do 4 (split; [done|]). destruct Hl as [?|[Lh Lt Ld Lp]]; [by left|]. right. constructor; cbn; try done.
  intros Er Hl. destruct (Hp Er) as [k Ek]. rewrite <- (Lp Er) at 2 by (rewrite Ek, length_app; lia).
  rewrite Ek. by rewrite take_app_le by lia.
Qed.

Lemma inv_pop st : inv st -> inv (pop_block_from_blockchain st).2.
Proof.
  intros Hi. destruct (inv_chain _ Hi) as [Hne Hlen]. unfold pop_block_from_blockchain, mark_stale.
  cbv zeta. case_match eqn:E; [by apply inv_given_up|]. cbn in *.
  apply (inv_given_up st); [done| |rewrite length_take; lia].
  apply negb_false_iff, Z.ltb_lt in E. intros El%(f_equal length). rewrite length_take in El. cbn in El. lia.
Qed.

Lemma inv_handle_block st timestamp checks limit_updated added st' :
  inv st -> Z.of_nat (length (db st)) < UINT64_MAX ->
  handle_block_to_main_chain st timestamp checks limit_updated = Some (added, st') -> inv st'.
Proof.
  intros Hi Hlt Hq. destruct (query_spec st Hi) as (d' & s' & Hq' & _ & Hi' & Hfr & Edb).
  unfold handle_block_to_main_chain, store_new_block in Hq. rewrite Hq' in Hq. cbn [mbind option_bind] in Hq.
  rewrite <- Edb in Hlt. case_match; [by simplify_eq|]. case_match; [by simplify_eq|].
  apply bind_Some in Hq as (cd & _ & Hq).
  pose proof (inv_add s' {| bi_timestamp := timestamp; bi_cumulative_difficulty := cd |} Hi' Hfr Hlt) as Ha.
  case_match; [simplify_eq; by apply inv_pop|].
  destruct (query_spec _ Ha) as (d2 & s2 & Hq2 & _ & Hi2 & _). rewrite Hq2 in Hq. by simplify_eq/=.
Qed.

Lemma inv_step st st' : inv st -> step st st' -> inv st'.
Proof.
  intros Hi Hs. destruct Hs as [st d st' Hq|st t checks limit_updated added st' Hlt Hq|st|st|st _|st|st].
  - destruct (query_spec st Hi) as (d' & s' & Hq' & _ & ? & _). congruence.
  - by eapply inv_handle_block.
  - by apply inv_pop.
  - destruct (inv_chain _ Hi). by apply inv_given_up.
  - by apply inv_batch_start.
  - by apply inv_batch_done.
  - by apply inv_batch_abort.
Qed.

Lemma reachable_inv st : reachable st -> inv st.
Proof. induction 1 as [genesis fixed|st st' _ IH Hs]; [apply inv_initial|by eapply inv_step]. Qed.

(** C21: However blocks were added and popped, batches ended and the lists were marked as stale, the
    difficulty the node answers from its two caches is the one computed afresh from the chain: from
    the last 735 blocks without the genesis block, or the fixed difficulty. The method always
    answers, and leaves the chain as it is. Blocks have different hashes when their chains differ,
    and no block has the null hash. *)
Theorem cached_difficulty (st : state) :
  reachable st ->
  exists d st', get_difficulty_for_next_block st = Some (d, st') /\
    ideal_difficulty (m_fixed_difficulty st) (db st) = Some d /\ db st' = db st.
Proof.
  intros Hr. destruct (query_spec st (reachable_inv st Hr)) as (d & st' & Hq & Hd & _ & _ & Edb). eauto.
Qed.

End Cache.

(** ** A chain whose blocks have themselves for hashes *)

Definition demo_genesis : block_info := {| bi_timestamp := 0; bi_cumulative_difficulty := 1 |}.
Notation demo_step := (step (id : list block_info -> list block_info) (fun _ => 2)).
Notation demo_handle := (handle_block_to_main_chain (id : list block_info -> list block_info) (fun _ => 2)).
Notation demo_state := (state (H := list block_info)).
Definition demo_initial : demo_state := initial [] demo_genesis 0.
Definition demo_add (st : demo_state) (timestamp : Z) : demo_state :=
  (default (true, st) (demo_handle st timestamp true true)).2.
(** Three blocks, and a fourth in a batch that is aborted *)
Definition demo_three : demo_state := demo_add (demo_add (demo_add demo_initial 100) 200) 320.
Definition demo_aborted : demo_state := batch_abort (demo_add (with_batch demo_three (Some (db demo_three))) 330).

Lemma demo_add_step st timestamp :
  Z.of_nat (length (db st)) < UINT64_MAX -> is_Some (demo_handle st timestamp true true) ->
  demo_step st (demo_add st timestamp).
Proof. intros Hl [[a st'] E]. unfold demo_add. rewrite E. by eapply step_add. Qed.

Lemma cached_difficulty_witness :
  exists d st',
    get_difficulty_for_next_block (id : list block_info -> list block_info) (fun _ => 2) demo_aborted = Some (d, st') /\
    ideal_difficulty (fun _ => 2) (m_fixed_difficulty demo_aborted) (db demo_aborted) = Some d /\
    db st' = db demo_aborted.
Proof.
  apply (cached_difficulty [] id (fun _ => 2)); [by intros|by intros|].
  apply reachable_step with (st := demo_add (with_batch demo_three (Some (db demo_three))) 330); [|apply step_batch_abort].
  apply reachable_step with (st := with_batch demo_three (Some (db demo_three)));
    [|apply demo_add_step; [vm_compute; done|vm_compute; by eexists]].
  apply reachable_step with (st := demo_three); [|apply step_batch_start; vm_compute; done].
  do 3 (eapply reachable_step; [|apply demo_add_step; [vm_compute; done|vm_compute; by eexists]]).
  apply reachable_initial.
Defined.
