(* ===== verification/Emission.v ===== *)
(** * Block rewards: src/cryptonote_basic/cryptonote_basic_impl.cpp and the
    constants of src/cryptonote_config.h

    Amounts are in atomic units, [10 ^ -12] of a coin; [size_t] has 64 bits. *)

From S2P Require Import Prelude IntUtil Difficulty.

Definition CRYPTONOTE_MAX_TX_SIZE : Z := 1000000.
Definition MONEY_SUPPLY : Z := 2 ^ 64 - 1.
Definition EMISSION_SPEED_FACTOR_PER_MINUTE : Z := 20.
Definition FINAL_SUBSIDY_PER_MINUTE : Z := 300000000000.
Definition CRYPTONOTE_BLOCK_GRANTED_FULL_REWARD_ZONE_V1 : Z := 20000.
Definition CRYPTONOTE_BLOCK_GRANTED_FULL_REWARD_ZONE_V2 : Z := 60000.
Definition CRYPTONOTE_BLOCK_GRANTED_FULL_REWARD_ZONE_V5 : Z := 300000.
Definition COIN : Z := 1000000000000.

Definition get_min_block_weight (version : Z) : Z :=
  if version <? 2 then CRYPTONOTE_BLOCK_GRANTED_FULL_REWARD_ZONE_V1
  else if version <? 5 then CRYPTONOTE_BLOCK_GRANTED_FULL_REWARD_ZONE_V2
  else CRYPTONOTE_BLOCK_GRANTED_FULL_REWARD_ZONE_V5.

Definition get_max_tx_size : Z := CRYPTONOTE_MAX_TX_SIZE.

Definition target_minutes (version : Z) : Z :=
  (if version <? 2 then DIFFICULTY_TARGET_V1 else DIFFICULTY_TARGET_V2) / 60.

(** The first part of [get_block_reward] *)
Definition base_reward (already_generated_coins version : Z) : Z :=
  let emission_speed_factor := EMISSION_SPEED_FACTOR_PER_MINUTE - (target_minutes version - 1) in
  let base := Z.shiftr (u64 (MONEY_SUPPLY - already_generated_coins)) emission_speed_factor in
  if base <? FINAL_SUBSIDY_PER_MINUTE * target_minutes version
  then FINAL_SUBSIDY_PER_MINUTE * target_minutes version else base.

(** [Ret None] is the result [false]; a division by zero is a [Throw]. *)
Definition get_block_reward (median_weight current_block_weight already_generated_coins version : Z)
    : result arith_error (option Z) :=
  let base := base_reward already_generated_coins version in
  let full_reward_zone := get_min_block_weight version in
  let median_weight := if median_weight <? full_reward_zone then full_reward_zone else median_weight in
  if current_block_weight <=? median_weight then Ret (Some base)
  else if u64 (2 * median_weight) <? current_block_weight then Ret None
  else
    let multiplicand := u64 (u64 (2 * median_weight) - current_block_weight) in
    let multiplicand := u64 (multiplicand * current_block_weight) in
    let '(product_lo, product_hi) := mul128 base multiplicand in
    q ← div128_64 product_hi product_lo median_weight;
    q ← div128_64 q.1.1 q.1.2 median_weight;
    Ret (Some q.1.2).

(** ** The base reward *)

Lemma target_minutes_range v : target_minutes v = 1 \/ target_minutes v = 2.
Proof. unfold target_minutes. destruct (v <? 2); [by left|by right]. Qed.

(** The reward as a division *)
Lemma base_reward_eq a v :
  is_u64 a ->
  base_reward a v =
  Z.max ((MONEY_SUPPLY - a) / 2 ^ (21 - target_minutes v)) (FINAL_SUBSIDY_PER_MINUTE * target_minutes v).
Proof.
  intros Ha. unfold base_reward, EMISSION_SPEED_FACTOR_PER_MINUTE.
  rewrite wrap_small by (unfold MONEY_SUPPLY; mach).
  rewrite Z.shiftr_div_pow2 by (destruct (target_minutes_range v) as [-> | ->]; lia).
  replace (20 - (target_minutes v - 1)) with (21 - target_minutes v) by lia.
  match goal with |- context [?x <? ?y] => destruct (Z.ltb_spec x y) end; lia.
Qed.

Lemma base_reward_range a v : is_u64 a -> 1 <= base_reward a v < 2 ^ 45.
Proof.
  intros Ha. rewrite base_reward_eq by done. unfold FINAL_SUBSIDY_PER_MINUTE, MONEY_SUPPLY.
  destruct (target_minutes_range v) as [-> | ->].
  - change (21 - 1) with 20.
    pose proof (Z.div_lt_upper_bound (2 ^ 64 - 1 - a) (2 ^ 20) (2 ^ 44) ltac:(lia) ltac:(mach)). lia.
  - change (21 - 2) with 19.
    pose proof (Z.div_lt_upper_bound (2 ^ 64 - 1 - a) (2 ^ 19) (2 ^ 45) ltac:(lia) ltac:(mach)). lia.
Qed.

(** With [a] coins already generated the base reward is the larger of the
    tail subsidy and a fixed fraction of what is left of the supply, per block
    time; it never exceeds what is left unless it is the tail subsidy, and it
    never increases as more coins are generated. *)
Theorem base_reward_spec (a a' v : Z) :
  is_u64 a' -> 0 <= a <= a' ->
  base_reward a' v <= base_reward a v /\
  base_reward a v = Z.max ((MONEY_SUPPLY - a) / 2 ^ (21 - target_minutes v))
                          (FINAL_SUBSIDY_PER_MINUTE * target_minutes v) /\
  (base_reward a v = FINAL_SUBSIDY_PER_MINUTE * target_minutes v \/
   base_reward a v <= MONEY_SUPPLY - a).
Proof.
  intros Ha' Ha. assert (is_u64 a) as Hu by mach. rewrite !base_reward_eq by done.
  unfold FINAL_SUBSIDY_PER_MINUTE, MONEY_SUPPLY.
  destruct (target_minutes_range v) as [-> | ->].
  - change (21 - 1) with 20.
    pose proof (Z.div_le_mono (2 ^ 64 - 1 - a') (2 ^ 64 - 1 - a) (2 ^ 20) ltac:(lia) ltac:(lia)).
    pose proof (Z.div_le_upper_bound (2 ^ 64 - 1 - a) (2 ^ 20) (2 ^ 64 - 1 - a) ltac:(lia) ltac:(mach)). lia.
  - change (21 - 2) with 19.
    pose proof (Z.div_le_mono (2 ^ 64 - 1 - a') (2 ^ 64 - 1 - a) (2 ^ 19) ltac:(lia) ltac:(lia)).
    pose proof (Z.div_le_upper_bound (2 ^ 64 - 1 - a) (2 ^ 19) (2 ^ 64 - 1 - a) ltac:(lia) ltac:(mach)). lia.
Qed.

(** ** The penalty for large blocks *)

Definition effective_median (m v : Z) : Z := Z.max m (get_min_block_weight v).

Lemma min_block_weight_range v : 20000 <= get_min_block_weight v <= 300000.
Proof. unfold get_min_block_weight. repeat case_match; vm_compute; split; discriminate. Qed.

(** The reward as an exact quotient *)
Definition penalised (base M w : Z) : Z := base * ((2 * M - w) * w) / (M * M).

Lemma get_block_reward_eq m w a v :
  0 <= m < 2 ^ 32 -> 0 <= w < 2 ^ 64 -> is_u64 a ->
  let M := effective_median m v in
  get_block_reward m w a v =
  Ret (if w <=? M then Some (base_reward a v)
       else if 2 * M <? w then None else Some (penalised (base_reward a v) M w)).
Proof.
  intros Hm Hw Ha M. unfold get_block_reward. pose proof (min_block_weight_range v) as Hz.
  assert ((if m <? get_min_block_weight v then get_min_block_weight v else m) = M) as ->
    by (unfold M, effective_median; case_match; lia).
  assert (20000 <= M < 2 ^ 32) as HM by (unfold M, effective_median; lia). clearbody M.
  pose proof (base_reward_range a v Ha) as Hb. set (b := base_reward a v) in *. clearbody b.
  rewrite (wrap_small 64 (2 * M)) by mach.
  destruct (Z.leb_spec w M); [done|]. destruct (Z.ltb_spec (2 * M) w); [done|].
  rewrite (wrap_small 64 (2 * M - w)) by mach.
  assert (0 <= (2 * M - w) * w <= M * M) as Hp by nia.
  assert (M * M < 2 ^ 64) as HMM by (change (2 ^ 64) with (2 ^ 32 * 2 ^ 32); nia).
  rewrite wrap_small by (split; lia).
  assert (0 <= b * ((2 * M - w) * w) <= b * (M * M)) as Hbp by nia.
  pose proof (mul128_spec b ((2 * M - w) * w) ltac:(mach) ltac:(split; lia)) as Hmul.
  destruct (mul128 b ((2 * M - w) * w)) as [lo hi]. destruct Hmul as (Hlo & Hhi & E).
  destruct (div128_64_spec hi lo M Hhi Hlo ltac:(mach) ltac:(lia)) as (q1h & q1l & -> & H1h & H1l & E1).
  cbn [mbind result_bind fst snd].
  destruct (div128_64_spec q1h q1l M H1h H1l ltac:(mach) ltac:(lia)) as (q2h & q2l & -> & H2h & H2l & E2).
  cbn [mbind result_bind fst snd]. do 2 f_equal. unfold penalised.
  rewrite <- E in E1. rewrite E1, Z.div_div in E2 by lia.
  assert (b * ((2 * M - w) * w) / (M * M) <= b) as Hle
    by (apply Z.div_le_upper_bound; lia).
  assert (q2h = 0) as -> by (unfold in_width in *; lia). lia.
Qed.

Lemma penalised_bounds b M w :
  0 < M -> 0 <= b -> M <= w <= 2 * M -> 0 <= penalised b M w <= b.
Proof.
  intros HM Hb Hw. unfold penalised. assert (0 <= (2 * M - w) * w <= M * M) as Hp by nia.
  split; [apply Z.div_pos; nia|]. apply Z.div_le_upper_bound; nia.
Qed.

Lemma penalised_mono b M w w' :
  0 < M -> 0 <= b -> M <= w <= w' -> penalised b M w' <= penalised b M w.
Proof.
  intros HM Hb Hw. unfold penalised. apply Z.div_le_mono; [nia|].
  apply Z.mul_le_mono_nonneg_l; [done|]. nia.
Qed.

(** C30: with the median [M] raised to the version's minimum (and below 2^32), the
    reward is the base up to weight [M], exactly floor(base (2M - w) w / M^2)
    from there to [2M], where the 128-bit products and divisions are exact, and
    a heavier block is refused; no division by zero is possible. *)
Theorem get_block_reward_spec (m w a v : Z) :
  0 <= m < 2 ^ 32 -> 0 <= w < 2 ^ 64 -> is_u64 a ->
  let M := effective_median m v in
  get_block_reward m w a v =
  Ret (if w <=? M then Some (base_reward a v)
       else if 2 * M <? w then None
       else Some (base_reward a v * ((2 * M - w) * w) / (M * M))).
Proof. apply get_block_reward_eq. Qed.

(** A heavier block never earns more: among accepted weights the reward is
    between 0 and the base reward and does not increase with the weight. *)
Theorem get_block_reward_monotone (m w w' a v r r' : Z) :
  0 <= m < 2 ^ 32 -> 0 <= w <= w' -> w' < 2 ^ 64 -> is_u64 a ->
  get_block_reward m w a v = Ret (Some r) -> get_block_reward m w' a v = Ret (Some r') ->
  0 <= r' <= r /\ r <= base_reward a v.
Proof.
  intros Hm Hw Hw' Ha. rewrite !get_block_reward_eq by (done || lia).
  pose proof (min_block_weight_range v). set (M := effective_median m v).
  assert (20000 <= M) as HM by (unfold M, effective_median; lia). clearbody M.
  pose proof (base_reward_range a v Ha) as Hb. set (b := base_reward a v) in *. clearbody b.
  destruct (Z.leb_spec w M), (Z.leb_spec w' M); try lia;
    destruct (Z.ltb_spec (2 * M) w), (Z.ltb_spec (2 * M) w'); try done; try lia;
    intros [= <-] [= <-]; try lia.
  - pose proof (penalised_bounds b M w'). lia.
  - pose proof (penalised_bounds b M w'). pose proof (penalised_bounds b M w).
    pose proof (penalised_mono b M w w'). lia.
Qed.

(** With nothing generated yet a version 1 block earns 17.59 coins; only from
    version 2 on, where blocks are twice as far apart, is it 35.18. *)
Theorem first_block_reward :
  get_block_reward 0 0 0 1 = Ret (Some 17592186044415) /\
  get_block_reward 0 0 0 2 = Ret (Some 35184372088831).
Proof. by vm_compute. Qed.

(** ** Witnesses *)

Lemma base_reward_spec_witness :
  base_reward MONEY_SUPPLY 16 <= base_reward 0 16.
Proof. exact (proj1 (base_reward_spec 0 MONEY_SUPPLY 16 ltac:(by_decide) ltac:(by_decide))). Defined.

Lemma get_block_reward_spec_witness :
  get_block_reward 300000 450000 0 16 = Ret (Some (35184372088831 * 3 / 4)).
Proof.
  rewrite (get_block_reward_spec 300000 450000 0 16 ltac:(lia) ltac:(lia) ltac:(by_decide)).
  by vm_compute.
Defined.

Lemma get_block_reward_monotone_witness : 0 <= 26388279066623 <= 35184372088831.
Proof.
  refine (proj1 (get_block_reward_monotone 300000 1000 450000 0 16 35184372088831 26388279066623
                   _ _ _ _ _ _)); try by_decide; by vm_compute.
Defined.
