(* ===== verification/HardFork.v ===== *)
(** * Hard-fork voting: src/cryptonote_basic/hardfork.cpp

    The table of forks, the rolling window of block votes with its counters, the
    index of the active fork, and the functions that add blocks, pop them,
    reorganise and restart. The block database is an interface: a class of
    operations with the laws the code relies on, and an instance by lists. *)

From stdpp Require Import sorting.
From S2P Require Import Prelude HardForks.

Record block := Block { major_version : Z; minor_version : Z }.

(** What [HardFork], [BlockchainDB::add_block] and [BlockchainDB::pop_block] use of the
    database; a block that is not there makes the call throw ([None]). Popping a block leaves
    the version recorded for its height in place. *)
Class BlockchainDB (DB : Type) := {
  db_height : DB -> Z;
  get_block_from_height : DB -> Z -> option block;
  get_hard_fork_version : DB -> Z -> Z;
  set_hard_fork_version : DB -> Z -> Z -> DB;
  push_block : DB -> block -> DB;
  pop_block : DB -> DB }.

Class BlockchainDBLaws (DB : Type) `{BlockchainDB DB} := {
  height_set d h v : db_height (set_hard_fork_version d h v) = db_height d;
  block_set d h v k : get_block_from_height (set_hard_fork_version d h v) k = get_block_from_height d k;
  version_set d h v k :
    get_hard_fork_version (set_hard_fork_version d h v) k
    = if k =? h then v else get_hard_fork_version d k;
  height_push d b : db_height (push_block d b) = db_height d + 1;
  block_push d b k :
    0 <= k <= db_height d ->
    get_block_from_height (push_block d b) k
    = if k =? db_height d then Some b else get_block_from_height d k;
  version_push d b k : get_hard_fork_version (push_block d b) k = get_hard_fork_version d k;
  height_pop d : 1 <= db_height d -> db_height (pop_block d) = db_height d - 1;
  block_pop d k :
    0 <= k < db_height d - 1 -> get_block_from_height (pop_block d) k = get_block_from_height d k;
  version_pop d k : get_hard_fork_version (pop_block d) k = get_hard_fork_version d k;
  height_nonneg d : 0 <= db_height d }.

(** The members of the class [HardFork] *)
Record hardfork := HardForkState {
  forked_time : Z;
  update_time : Z;
  window_size : Z;
  default_threshold_percent : Z;
  original_version : Z;
  original_version_till_height : Z;
  heights : list hardfork_t;
  versions : list Z;
  last_versions : list Z;
  current_fork_index : nat }.

Definition with_heights (hf : hardfork) (hs : list hardfork_t) : hardfork :=
  HardForkState (forked_time hf) (update_time hf) (window_size hf) (default_threshold_percent hf)
    (original_version hf) (original_version_till_height hf) hs (versions hf) (last_versions hf)
    (current_fork_index hf).
Definition with_window (hf : hardfork) (vs lv : list Z) : hardfork :=
  HardForkState (forked_time hf) (update_time hf) (window_size hf) (default_threshold_percent hf)
    (original_version hf) (original_version_till_height hf) (heights hf) vs lv (current_fork_index hf).
Definition with_index (hf : hardfork) (i : nat) : hardfork :=
  HardForkState (forked_time hf) (update_time hf) (window_size hf) (default_threshold_percent hf)
    (original_version hf) (original_version_till_height hf) (heights hf) (versions hf)
    (last_versions hf) i.

Definition get_block_vote (b : block) : Z := if minor_version b =? 0 then 1 else minor_version b.
Definition get_block_version (b : block) : Z := major_version b.

Inductive ctor_error := Window_size_zero | Threshold_too_large.

(** The constructor; the counters and the window start empty. *)
Definition make_hardfork (original_version till forked_time update_time window_size threshold : Z)
    : result ctor_error hardfork :=
  if window_size =? 0 then Throw Window_size_zero
  else if 100 <? threshold then Throw Threshold_too_large
  else Ret (HardForkState forked_time update_time window_size threshold original_version till
              [] [] (replicate 256 0) 0).

(** [heights[i]]; the invariants below keep [i] in range. *)
Definition fork_at (hf : hardfork) (i : nat) : hardfork_t := nth i (heights hf) (Hardfork 0 0 0 0).

Definition add_fork (hf : hardfork) (version height threshold time : Z) : bool * hardfork :=
  if version =? 0 then (false, hf)
  else
    let refused :=
      match last (heights hf) with
      | Some back =>
          (version <=? hf_version back) || (height <=? hf_height back) || (time <=? hf_time back)
      | None => false
      end in
    if refused then (false, hf)
    else if 100 <? threshold then (false, hf)
    else (true, with_heights hf (heights hf ++ [Hardfork version height threshold time])).

Definition add_fork_default (hf : hardfork) (version height time : Z) : bool * hardfork :=
  add_fork hf version height (default_threshold_percent hf) time.

Definition get_effective_version (hf : hardfork) (voting_version : Z) : Z :=
  match last (heights hf) with
  | Some back => if hf_version back <? voting_version then hf_version back else voting_version
  | None => voting_version
  end.

Definition do_check (hf : hardfork) (block_version voting_version : Z) : bool :=
  (block_version =? hf_version (fork_at hf (current_fork_index hf)))
  && (hf_version (fork_at hf (current_fork_index hf)) <=? voting_version).

Definition check (hf : hardfork) (b : block) : bool :=
  do_check hf (get_block_version b) (get_block_vote b).

Definition votes_of (lv : list Z) (v : Z) : Z := nth (Z.to_nat v) lv 0.
Definition count_up (lv : list Z) (v : Z) : list Z := <[Z.to_nat v := u32 (votes_of lv v + 1)]> lv.
Definition count_down (lv : list Z) (v : Z) : list Z := <[Z.to_nat v := u32 (votes_of lv v - 1)]> lv.

Definition fork_threshold (hf : hardfork) (f : hardfork_t) : Z :=
  u32 (u64 (u64 (window_size hf * hf_threshold f) + 99) / 100).

(** The loop of [get_voted_fork_index] over [n - 1], ..., [0] *)
Fixpoint voted_loop (hf : hardfork) (height : Z) (n : nat) (accumulated_votes : Z) : nat :=
  match n with
  | O => current_fork_index hf
  | S n =>
      let f := fork_at hf n in
      let accumulated_votes := u32 (accumulated_votes + votes_of (last_versions hf) (hf_version f)) in
      if (hf_height f <=? height) && (fork_threshold hf f <=? accumulated_votes) then n
      else voted_loop hf height n accumulated_votes
  end.
Definition get_voted_fork_index (hf : hardfork) (height : Z) : nat :=
  voted_loop hf height (length (heights hf)) 0.

Definition do_check_for_height (hf : hardfork) (block_version voting_version height : Z) : bool :=
  let fork_index := get_voted_fork_index hf height in
  (block_version =? hf_version (fork_at hf fork_index))
  && (hf_version (fork_at hf fork_index) <=? voting_version).
Definition check_for_height (hf : hardfork) (b : block) (height : Z) : bool :=
  do_check_for_height hf (get_block_version b) (get_block_vote b) height.

(** [uint8_t voted = ...; if (voted > current_fork_index) ...] *)
Definition raise_index (hf : hardfork) (height : Z) : hardfork :=
  let voted := Z.to_nat (u8 (Z.of_nat (get_voted_fork_index hf height))) in
  if bool_decide (current_fork_index hf < voted)%nat then with_index hf voted else hf.

(** [while (versions.size() >= window_size)]: drop the oldest vote *)
Fixpoint shrink_window (window_size : Z) (vs lv : list Z) : list Z * list Z :=
  match vs with
  | [] => (vs, lv)
  | old_version :: vs' =>
      if window_size <=? Z.of_nat (length vs)
      then shrink_window window_size vs' (count_down lv old_version)
      else (vs, lv)
  end.

Section Database.
Context {DB : Type} `{BlockchainDB DB}.

(** [add]: [None] is the result [false]. *)
Definition add_vote (hf : hardfork) (db : DB) (block_version voting_version height : Z)
    : option (hardfork * DB) :=
  if negb (do_check hf block_version voting_version) then None
  else
    let db := set_hard_fork_version db height (hf_version (fork_at hf (current_fork_index hf))) in
    let voting_version := get_effective_version hf voting_version in
    let '(vs, lv) := shrink_window (window_size hf) (versions hf) (last_versions hf) in
    let lv := count_up lv voting_version in
    let hf := with_window hf (vs ++ [voting_version]) lv in
    Some (raise_index hf (height + 1), db).

Definition add_block (hf : hardfork) (db : DB) (b : block) (height : Z) : option (hardfork * DB) :=
  add_vote hf db (get_block_version b) (get_block_vote b) height.

(** Adds the votes of the blocks from [h] on, [n] of them. *)
Fixpoint scan_blocks (hf : hardfork) (db : DB) (h : Z) (n : nat) : option hardfork :=
  match n with
  | O => Some hf
  | S n =>
      b ← get_block_from_height db h;
      let v := get_effective_version hf (get_block_vote b) in
      scan_blocks (with_window hf (versions hf ++ [v]) (count_up (last_versions hf) v)) db (h + 1) n
  end.

(** [while (i + 1 < heights.size() && heights[i].version != lastv) ++i] *)
Fixpoint find_version (hs : list hardfork_t) (lastv : Z) : nat :=
  match hs with
  | f :: ((_ :: _) as hs') => if hf_version f =? lastv then O else S (find_version hs' lastv)
  | _ => O
  end.

(** [None] is an exception of the database; the boolean is the result. *)
Definition rescan_from_block_height (hf : hardfork) (db : DB) (height : Z) : option (bool * hardfork) :=
  if db_height db <=? height then Some (false, hf)
  else
    hf ← scan_blocks (with_window hf [] (replicate 256 0)) db height (Z.to_nat (db_height db - height));
    let lastv := get_hard_fork_version db (db_height db - 1) in
    let hf := with_index hf (find_version (heights hf) lastv) in
    Some (true, raise_index hf (db_height db)).

Definition rescan_from_chain_height (hf : hardfork) (db : DB) (height : Z) : option (bool * hardfork) :=
  if height =? 0 then Some (false, hf) else rescan_from_block_height hf db (height - 1).

Definition init (hf : hardfork) (db : DB) : option hardfork :=
  let hf :=
    match heights hf with
    | [] => with_heights hf [Hardfork (original_version hf) 0 0 0]
    | _ => hf
    end in
  let hf := with_index (with_window hf [] (replicate 256 0)) 0 in
  let height := db_height db in
  let height := if window_size hf <? height then height - (window_size hf - 1) else 1 in
  r ← rescan_from_chain_height hf db height;
  Some r.2.

Definition block_version_at (hf : hardfork) (db : DB) (height : Z) : option Z :=
  if height <=? original_version_till_height hf then Some (original_version hf)
  else get_block_version <$> get_block_from_height db height.

(** [while (i > 0 && heights[i].version > start_version) --i] *)
Fixpoint lower_index (hf : hardfork) (start_version : Z) (i : nat) : nat :=
  match i with
  | O => O
  | S i' =>
      if start_version <? hf_version (fork_at hf i) then lower_index hf start_version i' else i
  end.

(** The blocks added again above the point of reorganisation; the result of each
    [add] is ignored. *)
Fixpoint readd_blocks (hf : hardfork) (db : DB) (h : Z) (n : nat) : option (hardfork * DB) :=
  match n with
  | O => Some (hf, db)
  | S n =>
      b ← get_block_from_height db h;
      let '(hf, db) := default (hf, db) (add_block hf db b h) in
      readd_blocks hf db (h + 1) n
  end.

Definition reorganize_from_block_height (hf : hardfork) (db : DB) (height : Z)
    : option (bool * (hardfork * DB)) :=
  if db_height db <=? height then Some (false, (hf, db))
  else
    let hf := with_window hf [] (replicate 256 0) in
    let rescan_height := if window_size hf - 1 <=? height then height - (window_size hf - 1) else 0 in
    let start_version :=
      if height =? 0 then original_version hf else get_hard_fork_version db height in
    let hf := with_index hf (lower_index hf start_version (current_fork_index hf)) in
    hf ← scan_blocks hf db rescan_height (Z.to_nat (height - rescan_height + 1));
    let hf := raise_index hf (height + 1) in
    r ← readd_blocks hf db (height + 1) (Z.to_nat (db_height db - (height + 1)));
    Some (true, r).

Definition reorganize_from_chain_height (hf : hardfork) (db : DB) (height : Z)
    : option (bool * (hardfork * DB)) :=
  if height =? 0 then Some (false, (hf, db)) else reorganize_from_block_height hf db (height - 1).

(** The loop of [on_block_popped] over [height], [height - 1], ..., [n] rounds;
    [None] is a pop from an empty window. *)
Fixpoint pop_loop (db : DB) (height : Z) (n : nat) (vs lv : list Z) : option (list Z * list Z) :=
  match n with
  | O => Some (vs, lv)
  | S n =>
      version ← last vs;
      let lv := count_down lv version in
      let vs := removelast vs in
      let version := get_hard_fork_version db height in
      pop_loop db (height - 1) n (version :: vs) (count_up lv version)
  end.

(** [for (i = size - 1; i > 0; --i) if (height >= heights[i].height) break] *)
Fixpoint index_for_height (hf : hardfork) (height : Z) (i : nat) : nat :=
  match i with
  | O => O
  | S i' => if hf_height (fork_at hf i) <=? height then i else index_for_height hf height i'
  end.

(** When the new height is 0 the unsigned comparison [height >= new_chain_height]
    cannot fail: the loop goes on to height [2 ^ 64 - 1], which the database does
    not have. *)
Inductive pop_error := Nblocks_zero | Empty_window | Height_wraps.

Definition on_block_popped (hf : hardfork) (db : DB) (nblocks : Z) : result pop_error hardfork :=
  if negb (0 <? nblocks) then Throw Nblocks_zero
  else
    let new_chain_height := db_height db in
    let old_chain_height := new_chain_height + nblocks in
    match pop_loop db (old_chain_height - 1) (Z.to_nat nblocks) (versions hf) (last_versions hf) with
    | None => Throw Empty_window
    | Some (vs, lv) =>
        if new_chain_height =? 0 then Throw Height_wraps else
        let hf := with_window hf vs lv in
        Ret (with_index hf (index_for_height hf new_chain_height (length (heights hf) - 1)))
    end.

Inductive state := LikelyForked | UpdateNeeded | Ready.

Definition get_state (hf : hardfork) (t : Z) : state :=
  if bool_decide (length (heights hf) <= 1)%nat then Ready
  else
    let t_last_fork := hf_time (fork_at hf (length (heights hf) - 1)) in
    if t_last_fork + forked_time hf <=? t then LikelyForked
    else if t_last_fork + update_time hf <=? t then UpdateNeeded else Ready.

Definition get_current_version (hf : hardfork) : Z := hf_version (fork_at hf (current_fork_index hf)).

Definition get (hf : hardfork) (db : DB) (height : Z) : Z :=
  if db_height db <? height then 255
  else if height =? db_height db then get_current_version hf
  else get_hard_fork_version db height.

Definition get_ideal_version (hf : hardfork) : Z := hf_version (fork_at hf (length (heights hf) - 1)).

Definition get_ideal_version_at (hf : hardfork) (height : Z) : Z :=
  match index_for_height hf height (length (heights hf) - 1) with
  | O => original_version hf
  | i => hf_version (fork_at hf i)
  end.

(** The loop over the forks from the last to the first *)
Fixpoint earliest_loop (rev_heights : list hardfork_t) (version height : Z) : Z :=
  match rev_heights with
  | [] => height
  | f :: fs => if version <=? hf_version f then earliest_loop fs version (hf_height f) else height
  end.
Definition get_earliest_ideal_height_for_version (hf : hardfork) (version : Z) : Z :=
  earliest_loop (rev (heights hf)) version UINT64_MAX.

Fixpoint next_version_loop (rev_heights : list hardfork_t) (prev : option Z) (height orig : Z) : Z :=
  match rev_heights with
  | [] => orig
  | f :: fs =>
      if hf_height f <=? height then default (hf_version f) prev
      else next_version_loop fs (Some (hf_version f)) height orig
  end.
Definition get_next_version (hf : hardfork) (db : DB) : Z :=
  next_version_loop (rev (heights hf)) None (db_height db) (original_version hf).

(** enabled, window, votes, threshold, earliest height, voting *)
Definition get_voting_info (hf : hardfork) (version : Z) : bool * Z * Z * Z * Z * Z :=
  let enabled := version <=? get_current_version hf in
  let window := u32 (Z.of_nat (length (versions hf))) in
  let votes :=
    fold_left (fun s n => u32 (s + nth n (last_versions hf) 0))
      (seq (Z.to_nat version) (256 - Z.to_nat version)) 0 in
  let threshold :=
    u32 (u32 (window * hf_threshold (fork_at hf (current_fork_index hf))) + 99) / 100 in
  (enabled, window, votes, threshold, get_earliest_ideal_height_for_version hf version,
   get_ideal_version hf).
End Database.

(** ** Counters and windows *)

Definition occurrences (vs : list Z) (n : nat) : Z :=
  Z.of_nat (length (filter (fun v => Z.to_nat v = n) vs)).
Definition counts (vs : list Z) : list Z := occurrences vs <$> seq 0 256.

Definition short (vs : list Z) : Prop := Z.of_nat (length vs) < 2 ^ 32.

Lemma counts_nil : counts [] = replicate 256 0.
Proof. by vm_compute. Qed.

Lemma votes_of_counts vs v : is_u8 v -> votes_of (counts vs) v = occurrences vs (Z.to_nat v).
Proof.
  intros Hv. unfold votes_of, counts. apply nth_lookup_Some.
  rewrite list_lookup_fmap, lookup_seq_lt by mach. done.
Qed.

Lemma occurrences_app vs ws n : occurrences (vs ++ ws) n = occurrences vs n + occurrences ws n.
Proof. unfold occurrences. rewrite filter_app, length_app. lia. Qed.

Lemma occurrences_bound vs n : 0 <= occurrences vs n <= Z.of_nat (length vs).
Proof.
  unfold occurrences. pose proof (length_filter (fun v => Z.to_nat v = n) vs). lia.
Qed.

Lemma occurrences_one v n : occurrences [v] n = if decide (Z.to_nat v = n) then 1 else 0.
Proof. unfold occurrences. rewrite filter_cons. by case_decide. Qed.

(** Changing the entry of [v] in the counters *)
Lemma counts_insert vs ws v x :
  is_u8 v -> x = occurrences ws (Z.to_nat v) ->
  (forall n, n <> Z.to_nat v -> occurrences ws n = occurrences vs n) ->
  <[Z.to_nat v := x]> (counts vs) = counts ws.
Proof.
  intros Hv -> Hn. apply list_eq. intros i. unfold counts.
  destruct (decide (i = Z.to_nat v)) as [->|Hne].
  - rewrite list_lookup_insert_eq by (rewrite length_fmap, length_seq; mach).
    rewrite list_lookup_fmap, lookup_seq_lt by mach. done.
  - rewrite list_lookup_insert_ne by done. rewrite !list_lookup_fmap.
    destruct (seq 0 256 !! i) as [k|] eqn:E; [|done]. apply lookup_seq in E as [-> _]. simpl.
    by rewrite Hn.
Qed.

Lemma count_up_counts vs v :
  is_u8 v -> short (vs ++ [v]) -> count_up (counts vs) v = counts (vs ++ [v]).
Proof.
  intros Hv Hs. unfold count_up. rewrite votes_of_counts by done.
  pose proof (occurrences_bound vs (Z.to_nat v)). unfold short in Hs. rewrite length_app in Hs.
  apply counts_insert; [done| |].
  - rewrite occurrences_app, occurrences_one, decide_True by done.
    apply wrap_small. cbn [length] in Hs. mach.
  - intros n Hn. rewrite occurrences_app, occurrences_one, decide_False by done. lia.
Qed.

Lemma count_down_counts vs v :
  is_u8 v -> short (v :: vs) -> count_down (counts (v :: vs)) v = counts vs.
Proof.
  intros Hv Hs. unfold count_down. rewrite votes_of_counts by done.
  pose proof (occurrences_bound vs (Z.to_nat v)). unfold short in Hs. cbn [length] in Hs.
  change (v :: vs) with ([v] ++ vs). apply counts_insert; [done| |].
  - rewrite occurrences_app, occurrences_one, decide_True by done.
    rewrite wrap_small; mach.
  - intros n Hn. rewrite occurrences_app, occurrences_one, decide_False by done. lia.
Qed.

(** The last [k] elements *)
Definition lastn {A} (k : nat) (l : list A) : list A := drop (length l - k) l.

Lemma lastn_length {A} k (l : list A) : length (lastn k l) = Nat.min k (length l).
Proof. unfold lastn. rewrite length_drop. lia. Qed.

Lemma lastn_snoc {A} k (l : list A) x :
  (1 <= k)%nat -> lastn (k - 1) (lastn k l) ++ [x] = lastn k (l ++ [x]).
Proof.
  intros Hk. unfold lastn. rewrite length_drop, drop_drop, length_app. simpl.
  rewrite drop_app_le by lia. do 2 f_equal. lia.
Qed.

Lemma shrink_window_spec k vs :
  (1 <= k)%nat -> Forall is_u8 vs -> short vs ->
  shrink_window (Z.of_nat k) vs (counts vs) = (lastn (k - 1) vs, counts (lastn (k - 1) vs)).
Proof.
  intros Hk. induction vs as [|v vs IH]; intros Hv Hs; [done|]. cbn [shrink_window].
  apply Forall_cons in Hv as [Hv Hvs]. destruct (Z.leb_spec (Z.of_nat k) (Z.of_nat (length (v :: vs)))) as [Hle|Hgt].
  - rewrite count_down_counts, IH by (try done; unfold short in *; cbn [length] in Hs; lia).
    unfold lastn. cbn [length] in *.
    replace (S (length vs) - (k - 1))%nat with (S (length vs - (k - 1))) by lia. done.
  - unfold lastn. replace (length (v :: vs) - (k - 1))%nat with O by lia. done.
Qed.

(** ** The table of forks *)

Definition fork_lt (f g : hardfork_t) : Prop :=
  hf_version f < hf_version g /\ hf_height f < hf_height g /\ hf_time f < hf_time g.
Definition fork_ok (f : hardfork_t) : Prop :=
  0 < hf_version f < 256 /\ 0 <= hf_threshold f <= 100 /\ is_u64 (hf_height f).
Definition table_ok (hs : list hardfork_t) : Prop := StronglySorted fork_lt hs /\ Forall fork_ok hs.

Lemma fork_lt_trans f g h : fork_lt f g -> fork_lt g h -> fork_lt f h.
Proof. unfold fork_lt. lia. Qed.

Lemma StronglySorted_snoc hs f :
  StronglySorted fork_lt hs -> (forall g, last hs = Some g -> fork_lt g f) ->
  StronglySorted fork_lt (hs ++ [f]).
Proof.
  induction 1 as [|h hs Hs IH Hall]; intros Hl; [by repeat constructor|]. cbn [app].
  constructor; [apply IH|].
  - intros g Hg. apply Hl. destruct hs; [done|exact Hg].
  - apply Forall_app. split; [done|]. constructor; [|constructor].
    destruct (last hs) as [g|] eqn:E.
    + apply fork_lt_trans with g; [|apply Hl; destruct hs; [done|exact E]].
      rewrite Forall_forall in Hall. apply Hall. by apply last_Some_elem_of.
    + apply last_None in E as ->. by apply Hl.
Qed.

(** Whatever forks are proposed, the table stays strictly increasing in
    version, height and time with thresholds of at most 100 percent; a fork that
    would break this is refused and changes nothing, any other is appended. *)
Theorem add_fork_sorted (hf : hardfork) (v h th t : Z) :
  table_ok (heights hf) -> is_u8 v -> is_u64 h -> is_u8 th ->
  let '(r, hf') := add_fork hf v h th t in
  table_ok (heights hf') /\
  (if r then heights hf' = heights hf ++ [Hardfork v h th t] else hf' = hf) /\
  (r = true <-> 0 < v /\ th <= 100 /\
     forall g, last (heights hf) = Some g -> fork_lt g (Hardfork v h th t)).
Proof.
  intros [Hs Hf] Hv Hh Hth. unfold add_fork.
  destruct (Z.eqb_spec v 0) as [->|Hv0]; [split_and!; [done|done|split; [done|lia]]|].
  set (refused := match last (heights hf) with Some back => _ | None => false end).
  assert (refused = false <-> forall g, last (heights hf) = Some g -> fork_lt g (Hardfork v h th t)) as Hr.
  { unfold refused, fork_lt. destruct (last (heights hf)) as [g|]; [|naive_solver].
    cbn [hf_version hf_height hf_time]. rewrite !orb_false_iff, !Z.leb_gt. naive_solver. }
  destruct refused.
  - split_and!; [done|done|]. split; [done|]. intros (_ & _ & Hg). apply Hr in Hg. done.
  - destruct (Z.ltb_spec 100 th); [split_and!; [done|done|split; [done|lia]]|].
    cbn [with_heights heights]. split_and!; [|done|].
    + split; [apply StronglySorted_snoc; tauto|]. apply Forall_app. split; [done|].
      constructor; [|constructor]. unfold fork_ok. cbn [hf_version hf_threshold hf_height]. split_and!; mach.
    + split; [|done]. intros _. split; [mach|]. tauto.
Qed.

Lemma sorted_lookup_lt hs i j f g :
  StronglySorted fork_lt hs -> (i < j)%nat -> hs !! i = Some f -> hs !! j = Some g -> fork_lt f g.
Proof.
  intros Hs. revert i j. induction Hs as [|h hs _ IH Hall]; intros i j Hij Hi Hj; [done|].
  destruct j as [|j]; [lia|]. destruct i as [|i]; [|apply (IH i j); [lia|done..]].
  injection Hi as ->. rewrite Forall_lookup in Hall. by eapply Hall.
Qed.

Lemma find_version_sorted hs i f :
  StronglySorted fork_lt hs -> hs !! i = Some f -> find_version hs (hf_version f) = i.
Proof.
  intros Hs. revert i. induction Hs as [|h hs _ IH Hall]; intros i Hl; [done|].
  destruct i as [|i].
  - injection Hl as ->. simpl. destruct hs; [done|]. by rewrite Z.eqb_refl.
  - simpl in Hl. destruct hs as [|h' hs]; [done|]. cbn [find_version].
    destruct (Z.eqb_spec (hf_version h) (hf_version f)) as [E|].
    + rewrite Forall_lookup in Hall. destruct (Hall i f Hl). lia.
    + f_equal. by apply IH.
Qed.

Section Table.
Context (hf : hardfork).
Hypothesis Htable : table_ok (heights hf).

Lemma fork_at_lookup i : (i < length (heights hf))%nat -> heights hf !! i = Some (fork_at hf i).
Proof.
  intros Hi. unfold fork_at.
  destruct (nth_lookup_or_length (heights hf) i (Hardfork 0 0 0 0)); [done|lia].
Qed.

Lemma fork_at_lt i j :
  (i < j)%nat -> (j < length (heights hf))%nat -> fork_lt (fork_at hf i) (fork_at hf j).
Proof.
  intros Hij Hj. apply (sorted_lookup_lt (heights hf) i j); [apply Htable|done|apply fork_at_lookup; lia..].
Qed.

Lemma fork_version_range i : (i < length (heights hf))%nat -> 0 < hf_version (fork_at hf i) < 256.
Proof.
  intros Hi. destruct Htable as [_ Hf]. rewrite Forall_lookup in Hf.
  exact (proj1 (Hf i _ (fork_at_lookup i Hi))).
Qed.

(** The versions grow by at least one, so there are fewer than 256 forks. *)
Lemma table_length : (length (heights hf) < 256)%nat.
Proof.
  assert (forall i, (i < length (heights hf))%nat -> Z.of_nat i < hf_version (fork_at hf i)) as H.
  { induction i as [|i IH]; intros Hi; [pose proof (fork_version_range 0 Hi); lia|].
    pose proof (IH ltac:(lia)). destruct (fork_at_lt i (S i)); lia. }
  destruct (length (heights hf)) as [|n] eqn:E; [lia|].
  pose proof (H n ltac:(lia)). pose proof (fork_version_range n ltac:(lia)). lia.
Qed.

Lemma fork_version_inj i j :
  (i < length (heights hf))%nat -> (j < length (heights hf))%nat ->
  hf_version (fork_at hf i) = hf_version (fork_at hf j) -> i = j.
Proof.
  intros Hi Hj E. destruct (lt_eq_lt_dec i j) as [[Hlt| ->]|Hlt]; [|done|].
  - destruct (fork_at_lt i j Hlt Hj). lia.
  - destruct (fork_at_lt j i Hlt Hi). lia.
Qed.

Lemma effective_version_range v : is_u8 v -> is_u8 (get_effective_version hf v).
Proof.
  intros Hv. unfold get_effective_version. destruct (last (heights hf)) as [g|] eqn:E; [|done].
  destruct Htable as [_ Hf]. apply last_Some_elem_of in E. rewrite Forall_forall in Hf.
  destruct (Hf g E) as [Hg _]. case_match; mach.
Qed.

Lemma voted_loop_range height n acc :
  (n <= length (heights hf))%nat -> (current_fork_index hf < length (heights hf))%nat ->
  (voted_loop hf height n acc < length (heights hf))%nat.
Proof.
  revert acc. induction n as [|n IH]; intros acc Hn Hc; [done|]. cbn [voted_loop].
  case_match; [lia|]. apply IH; [lia|done].
Qed.

(** Raising the index keeps it in the table and never lowers it. *)
Lemma raise_index_eq height :
  (current_fork_index hf < length (heights hf))%nat ->
  raise_index hf height
  = with_index hf (Nat.max (current_fork_index hf) (get_voted_fork_index hf height)).
Proof.
  intros Hc. unfold raise_index.
  pose proof (voted_loop_range height (length (heights hf)) 0 ltac:(lia) Hc) as Hv.
  fold (get_voted_fork_index hf height) in Hv. pose proof table_length.
  rewrite wrap_small by mach. rewrite Nat2Z.id. case_bool_decide.
  - by rewrite Nat.max_r by lia.
  - rewrite Nat.max_l by lia. by destruct hf.
Qed.

(** [find_version] finds the fork of a version of the table. *)
Lemma find_version_spec i :
  (i < length (heights hf))%nat -> find_version (heights hf) (hf_version (fork_at hf i)) = i.
Proof.
  intros Hi. apply find_version_sorted; [apply Htable|by apply fork_at_lookup].
Qed.
End Table.

(** ** The life of a chain

    Starting from an empty database and a table of forks, blocks that pass the check are
    appended, the top block is popped, a reorganisation adds the blocks above a height again,
    and the node is restarted, in any order. *)

Definition block_ok (b : block) : Prop := is_u8 (major_version b) /\ is_u8 (minor_version b).
Definition vote (hf : hardfork) (b : block) : Z := get_effective_version hf (get_block_vote b).

(** A table that no vote decides: every threshold is zero. The tables of the three networks
    are of this kind. *)
Definition scheduled (hf : hardfork) : Prop :=
  Forall (fun f => hf_threshold f = 0) (heights hf) /\ original_version hf = hf_version (fork_at hf 0).

(** The state with the window [vs], otherwise as it is *)
Definition windowed (hf : hardfork) (vs : list Z) : hardfork := with_window hf vs (counts vs).

Lemma index_for_height_same hf hf' h n :
  heights hf = heights hf' -> index_for_height hf h n = index_for_height hf' h n.
Proof.
  intros E. induction n as [|n IH]; [done|]. cbn [index_for_height]. unfold fork_at. by rewrite E, IH.
Qed.

(** Popping one block, when the window is not empty *)
Lemma pop_one {DB} `{BlockchainDB DB} hf (db : DB) vs v :
  versions hf = vs ++ [v] -> last_versions hf = counts (versions hf) -> short (versions hf) ->
  is_u8 v -> is_u8 (get_hard_fork_version db (db_height db)) -> 1 <= db_height db ->
  on_block_popped hf db 1 =
    Ret (with_index (windowed hf (get_hard_fork_version db (db_height db) :: vs))
           (index_for_height hf (db_height db) (length (heights hf) - 1))).
Proof.
  intros Hvs Hl Hs Hv Hw Hd. set (w := get_hard_fork_version db (db_height db)) in *.
  unfold on_block_popped. cbn [negb Z.ltb Z.compare]. change (Z.to_nat 1) with 1%nat. cbn [pop_loop].
  replace (db_height db + 1 - 1) with (db_height db) by lia. fold w.
  rewrite Hvs, last_snoc. cbn [mbind option_bind]. rewrite removelast_last.
  assert (forall a b, Permutation a b -> counts a = counts b) as Hp.
  { intros a b Hab. unfold counts. apply list_fmap_ext. intros i x _. unfold occurrences. by rewrite Hab. }
  assert (count_up (count_down (last_versions hf) v) w = counts (w :: vs)) as ->.
  { rewrite Hl, Hvs, (Hp (vs ++ [v]) (v :: vs)) by (by rewrite Permutation_app_comm).
    unfold short in Hs. rewrite Hvs, length_app in Hs. cbn [length] in Hs.
    rewrite count_down_counts by (done || unfold short; cbn [length]; lia).
    rewrite count_up_counts by (done || unfold short; rewrite length_app; cbn [length]; lia).
    apply Hp. by rewrite Permutation_app_comm. }
  destruct (Z.eqb_spec (db_height db) 0); [lia|]. do 2 f_equal. by apply index_for_height_same.
Qed.

Section Chain.
Context {DB : Type} `{BlockchainDBLaws DB}.

(** The configuration the run starts with, as [init] leaves it *)
Context (hf0 : hardfork).
Hypothesis Htable : table_ok (heights hf0).
Hypothesis Hsome : heights hf0 <> [].
Hypothesis Hwindow : 1 <= window_size hf0 < 2 ^ 31.
Hypothesis Hfresh : versions hf0 = [] /\ last_versions hf0 = replicate 256 0 /\ current_fork_index hf0 = O.

Let ws : nat := Z.to_nat (window_size hf0).
Let top : nat := length (heights hf0) - 1.

(** The last argument counts the votes at the front of the window that stand for popped
    blocks: each pop puts one there, each addition to a full window takes one away, and
    reading the window from the database again leaves none. The genesis block is never popped
    (Blockchain::pop_block_from_blockchain), and the blocks added again by a reorganisation are
    known to pass where no vote decides. *)
Inductive fork_run : hardfork -> DB -> list block -> nat -> Prop :=
| run_start db : db_height db = 0 -> fork_run hf0 db [] 0
| run_add hf db bs lost b hf' db' :
    fork_run hf db bs lost -> block_ok b ->
    add_block hf (push_block db b) b (db_height db) = Some (hf', db') ->
    fork_run hf' db' (bs ++ [b])
      (if bool_decide (Z.to_nat (window_size hf0) <= length bs + lost)%nat then pred lost else lost)
| run_pop hf db bs b lost hf' :
    fork_run hf db (bs ++ [b]) lost -> bs <> [] -> on_block_popped hf (pop_block db) 1 = Ret hf' ->
    fork_run hf' (pop_block db) bs (Nat.min (Z.to_nat (window_size hf0)) (S lost))
| run_reorganize hf db bs lost h r hf' db' :
    fork_run hf db bs lost -> scheduled hf0 -> is_u64 h ->
    reorganize_from_chain_height hf db h = Some (r, (hf', db')) ->
    fork_run hf' db' bs (if r then 0%nat else lost)
| run_restart hf db bs lost hf' :
    fork_run hf db bs lost -> init hf0 db = Some hf' -> fork_run hf' db bs 0.

(** The table and the parameters stay; only the window and the index change. *)
Definition same_config (hf : hardfork) : Prop :=
  hf = HardForkState (forked_time hf0) (update_time hf0) (window_size hf0)
         (default_threshold_percent hf0) (original_version hf0) (original_version_till_height hf0)
         (heights hf0) (versions hf) (last_versions hf) (current_fork_index hf).

Lemma own_config : same_config hf0.
Proof. unfold same_config. by destruct hf0. Qed.

Lemma same_heights hf : same_config hf -> heights hf = heights hf0.
Proof. by intros ->. Qed.

Definition table_version (v : Z) : Prop :=
  exists i, (i < length (heights hf0))%nat /\ v = hf_version (fork_at hf0 i).

Lemma table_length_pos : (0 < length (heights hf0))%nat.
Proof. destruct (heights hf0); [done|simpl; lia]. Qed.

Lemma table_version_u8 v : table_version v -> is_u8 v.
Proof. intros (i & Hi & ->). pose proof (fork_version_range hf0 Htable i Hi). mach. Qed.

Lemma same_config_vote hf b : same_config hf -> vote hf b = vote hf0 b.
Proof. intros E. rewrite E. done. Qed.

Lemma vote_range b : block_ok b -> is_u8 (vote hf0 b).
Proof.
  intros [_ Hb]. unfold vote. apply effective_version_range; [done|].
  unfold get_block_vote. case_match; [mach|done].
Qed.

Lemma votes_u8 bs : Forall block_ok bs -> Forall is_u8 (vote hf0 <$> bs).
Proof. intros Hb. apply Forall_fmap. eapply Forall_impl; [exact Hb|]. apply vote_range. Qed.

Lemma raise_index_config hf h : same_config hf -> same_config (raise_index hf h).
Proof. intros E. unfold raise_index. case_bool_decide; [|done]. rewrite E. done. Qed.

(** *** The database *)

Record db_inv (db : DB) (bs : list block) : Prop := {
  di_height : db_height db = Z.of_nat (length bs);
  di_blocks k : 0 <= k < db_height db -> get_block_from_height db k = bs !! Z.to_nat k;
  di_ok : Forall block_ok bs;
  di_versions k : 0 <= k < db_height db -> table_version (get_hard_fork_version db k) }.

Lemma db_inv_push db bs b v :
  db_inv db bs -> block_ok b -> table_version v ->
  db_inv (set_hard_fork_version (push_block db b) (db_height db) v) (bs ++ [b]).
Proof.
  intros [Ih Ib Io Iv] Hb Hv. split.
  - rewrite height_set, height_push, Ih, length_app. simpl. lia.
  - intros k. rewrite height_set, height_push, block_set, Ih. intros Hk. rewrite block_push by lia.
    destruct (Z.eqb_spec k (db_height db)) as [->|].
    + rewrite lookup_app_r by lia. replace (Z.to_nat (db_height db) - length bs)%nat with O by lia. done.
    + rewrite lookup_app_l by lia. apply Ib. lia.
  - apply Forall_app. split; [done|by constructor].
  - intros k. rewrite height_set, height_push. intros Hk. rewrite version_set, version_push.
    destruct (Z.eqb_spec k (db_height db)); [done|]. apply Iv. lia.
Qed.

Lemma db_inv_set db bs k v : db_inv db bs -> table_version v -> db_inv (set_hard_fork_version db k v) bs.
Proof.
  intros [Ih Ib Io Iv] Hv. split; [by rewrite height_set| |done|].
  - intros j. rewrite height_set, block_set. apply Ib.
  - intros j. rewrite height_set, version_set. intros Hj. destruct (j =? k); [done|by apply Iv].
Qed.

Lemma db_inv_pop db bs b : db_inv db (bs ++ [b]) -> db_inv (pop_block db) bs.
Proof.
  intros [Ih Ib Io Iv]. rewrite length_app in Ih. cbn [length] in Ih.
  assert (db_height (pop_block db) = Z.of_nat (length bs)) as Eh by (rewrite height_pop; lia).
  split; [done| |by apply Forall_app in Io as [? _]|].
  - intros k Hk. rewrite block_pop by lia. rewrite Ib, lookup_app_l by lia. done.
  - intros k Hk. rewrite version_pop. apply Iv. lia.
Qed.

(** *** The window *)

Lemma lastn_S_snoc {A} k (l : list A) x : lastn (S k) (l ++ [x]) = lastn k l ++ [x].
Proof.
  unfold lastn. rewrite length_app. cbn [length].
  replace (length l + 1 - S k)%nat with (length l - k)%nat by lia. by rewrite drop_app_le by lia.
Qed.

(** [fill] stands for the popped blocks. *)
Record window_inv (hf : hardfork) (bs : list block) (lost : nat) (fill : list Z) : Prop := {
  wi_fill : length fill = lost;
  wi_lost : (lost <= ws)%nat;
  wi_table : Forall table_version fill;
  wi_versions : versions hf = fill ++ lastn (ws - lost) (vote hf0 <$> bs);
  wi_length : length (versions hf) = Nat.min ws (length bs + lost);
  wi_counts : last_versions hf = counts (versions hf) }.

Lemma window_u8 hf bs lost fill : Forall block_ok bs -> window_inv hf bs lost fill -> Forall is_u8 (versions hf).
Proof.
  intros Hb [_ _ Ht Ev _ _]. rewrite Ev. apply Forall_app. split.
  - eapply Forall_impl; [exact Ht|]. apply table_version_u8.
  - apply Forall_drop. by apply votes_u8.
Qed.

(** The window that reading the last blocks gives *)
Lemma window_exact hf bs :
  versions hf = lastn ws (vote hf0 <$> bs) -> last_versions hf = counts (versions hf) -> window_inv hf bs 0 [].
Proof.
  intros Ev El. split; [done|lia|done| | |done].
  - by rewrite Nat.sub_0_r.
  - rewrite Ev, lastn_length, length_fmap. lia.
Qed.

(** One more vote *)
Lemma window_snoc hf hf' bs lost fill b :
  window_inv hf bs lost fill ->
  versions hf' = lastn (ws - 1) (versions hf) ++ [vote hf0 b] -> last_versions hf' = counts (versions hf') ->
  exists fill', window_inv hf' (bs ++ [b])
    (if bool_decide (ws <= length bs + lost)%nat then pred lost else lost) fill'.
Proof.
  intros [Ef Hl Ht Ev En _] Ev' Ec. set (V := vote hf0 <$> bs) in *.
  assert (length V = length bs) as EV by (unfold V; by rewrite length_fmap).
  assert (vote hf0 <$> bs ++ [b] = V ++ [vote hf0 b]) as EVb by (unfold V; by rewrite fmap_app).
  case_bool_decide as Hfull.
  - destruct fill as [|x fill]; cbn [length] in Ef; subst lost.
    + exists []. apply window_exact; [|done]. rewrite Ev', Ev, EVb. cbn [app].
      rewrite Nat.sub_0_r, <- lastn_S_snoc. unfold lastn. rewrite !length_app, length_drop, EV. cbn [length].
      rewrite drop_app_le, drop_drop, drop_app_le by (rewrite ?length_drop; lia). do 2 f_equal. lia.
    + exists fill. apply Forall_cons in Ht as [_ Ht].
      assert (lastn (ws - 1) (versions hf) = fill ++ lastn (ws - S (length fill)) V) as E1.
      { unfold lastn at 1. rewrite En, Ev. replace (Nat.min ws _ - (ws - 1))%nat with 1%nat by lia. done. }
      split; [done|cbn; lia|done| | |done].
      * rewrite Ev', E1, EVb, <- app_assoc. cbn [pred]. f_equal.
        replace (ws - length fill)%nat with (S (ws - S (length fill))) by lia. by rewrite lastn_S_snoc.
      * rewrite Ev', E1, !length_app, lastn_length, EV. cbn [length pred]. lia.
  - exists fill.
    assert (lastn (ws - 1) (versions hf) = fill ++ V) as E1.
    { unfold lastn at 1. rewrite En, Ev. replace (Nat.min ws _ - (ws - 1))%nat with 0%nat by lia.
      unfold lastn. replace (length V - (ws - lost))%nat with 0%nat by lia. done. }
    split; [done|done|done| | |done].
    + rewrite Ev', E1, EVb, <- app_assoc. f_equal. unfold lastn. rewrite length_app. cbn [length].
      by replace (length V + 1 - (ws - lost))%nat with 0%nat by lia.
    + rewrite Ev', E1, !length_app, EV. cbn [length]. lia.
Qed.

(** A popped block: its vote leaves at the back, a version comes in at the front. *)
Lemma window_pop hf hf' bs b lost fill w :
  window_inv hf (bs ++ [b]) lost fill -> table_version w ->
  versions hf' = w :: removelast (versions hf) -> last_versions hf' = counts (versions hf') ->
  exists fill', window_inv hf' bs (Nat.min ws (S lost)) fill'.
Proof.
  intros [Ef Hl Ht Ev En _] Hw Ev' Ec. rewrite fmap_app in Ev. cbn [fmap list_fmap] in Ev.
  rewrite length_app in En. cbn [length] in En.
  destruct (decide (lost = ws)) as [->|Hne].
  - rewrite Nat.sub_diag in Ev. unfold lastn in Ev. rewrite Nat.sub_0_r, drop_ge, app_nil_r in Ev by done.
    destruct (exists_last (l := fill)) as (f0 & x & ->); [by intros ->; cbn in Ef; lia|].
    rewrite length_app in Ef. cbn [length] in Ef. apply Forall_app in Ht as [Ht _].
    exists (w :: f0). rewrite Nat.min_l by lia. rewrite Ev, removelast_last in Ev'.
    assert (ws = S (length f0)) as Ews by lia. split; [cbn; lia|done|by constructor| | |done].
    + rewrite Ev', Nat.sub_diag. unfold lastn. rewrite Nat.sub_0_r, drop_ge, app_nil_r by done. done.
    + rewrite Ev'. cbn [length]. lia.
  - exists (w :: fill). rewrite Nat.min_r by lia.
    replace (ws - lost)%nat with (S (ws - S lost)) in Ev by lia.
    rewrite lastn_S_snoc, app_assoc in Ev. rewrite Ev, removelast_last in Ev'.
    split; [cbn; lia|lia|by constructor|done| |done].
    rewrite Ev'. rewrite Ev, !length_app in En. cbn [length] in *. rewrite length_app. lia.
Qed.

(** *** The operations *)

Lemma windowed_config hf vs : same_config hf -> same_config (windowed hf vs).
Proof. intros ->. done. Qed.

Lemma add_block_eq hf db b h :
  same_config hf -> Forall is_u8 (versions hf) -> (length (versions hf) <= ws)%nat ->
  last_versions hf = counts (versions hf) -> block_ok b ->
  add_block hf db b h =
    if check hf b then
      Some (raise_index (windowed hf (lastn (ws - 1) (versions hf) ++ [vote hf0 b])) (h + 1),
            set_hard_fork_version db h (hf_version (fork_at hf (current_fork_index hf))))
    else None.
Proof.
  intros Ic Hv Hl El Hb. unfold add_block, add_vote, check. destruct (do_check _ _ _); [|done]. cbn [negb].
  assert (window_size hf = Z.of_nat ws) as -> by (rewrite Ic; cbn [window_size]; lia).
  rewrite El, shrink_window_spec by (done || unfold short; lia).
  change (get_effective_version hf (get_block_vote b)) with (vote hf b). rewrite (same_config_vote hf b Ic).
  rewrite count_up_counts; [done|by apply vote_range|].
  unfold short. rewrite length_app, lastn_length. cbn [length]. lia.
Qed.

Lemma scan_blocks_spec bs n : forall hf db h,
  same_config hf -> Forall block_ok bs -> 0 <= h -> (Z.to_nat h + n = length bs)%nat ->
  (forall k, h <= k < h + Z.of_nat n -> get_block_from_height db k = bs !! Z.to_nat k) ->
  last_versions hf = counts (versions hf) -> Z.of_nat (length (versions hf) + n) < 2 ^ 32 ->
  scan_blocks hf db h n = Some (windowed hf (versions hf ++ (vote hf0 <$> drop (Z.to_nat h) bs))).
Proof.
  induction n as [|n IH]; intros hf db h Hc Hb Hh Hn Hbl Hl Hs.
  - cbn [scan_blocks]. rewrite drop_ge by lia. cbn [fmap list_fmap]. rewrite app_nil_r. unfold windowed.
    rewrite <- Hl. by destruct hf.
  - cbn [scan_blocks]. rewrite Hbl by lia.
    destruct (lookup_lt_is_Some_2 bs (Z.to_nat h) ltac:(lia)) as [b Eb]. rewrite Eb. cbn [mbind option_bind].
    change (get_effective_version hf (get_block_vote b)) with (vote hf b).
    rewrite (same_config_vote hf b Hc).
    assert (is_u8 (vote hf0 b)) as Hv
      by (apply vote_range; rewrite Forall_lookup in Hb; by eapply Hb).
    rewrite Hl, count_up_counts by (done || unfold short; rewrite length_app; simpl; lia).
    change (with_window hf ?vs (counts ?vs)) with (windowed hf vs).
    rewrite (IH (windowed hf (versions hf ++ [vote hf0 b])) db (h + 1));
      [|by apply windowed_config|done|lia|lia| |done|].
    + unfold windowed. cbn [with_window versions]. rewrite <- app_assoc.
      rewrite (drop_S bs b (Z.to_nat h) Eb). cbn [fmap list_fmap app].
      replace (Z.to_nat (h + 1)) with (S (Z.to_nat h)) by lia. done.
    + intros k Hk. apply Hbl. lia.
    + cbn [windowed with_window versions]. rewrite length_app. simpl. lia.
Qed.

(** Reading the [window_size] blocks up to a height *)
Lemma scan_window hf db bs start :
  same_config hf -> Forall block_ok bs -> 
  (forall k, 0 <= k < Z.of_nat (length bs) -> get_block_from_height db k = bs !! Z.to_nat k) ->
  start = Z.of_nat (length bs - ws) ->
  scan_blocks (with_window hf [] (replicate 256 0)) db start (Z.to_nat (Z.of_nat (length bs) - start))
  = Some (windowed hf (lastn ws (vote hf0 <$> bs))).
Proof.
  intros Hc Hb Hbl ->. rewrite <- counts_nil. change (with_window hf [] (counts [])) with (windowed hf []).
  rewrite (scan_blocks_spec bs); [|by apply windowed_config|done|lia|lia|intros k Hk; apply Hbl; lia|done|cbn; lia].
  unfold windowed. cbn [with_window versions app]. unfold lastn. by rewrite Nat2Z.id, fmap_drop, length_fmap.
Qed.

(** What a restart reads from the database *)
Lemma heights_kept :
  match heights hf0 with [] => with_heights hf0 [Hardfork (original_version hf0) 0 0 0] | _ => hf0 end = hf0.
Proof. by destruct (heights hf0). Qed.

Lemma start_state : with_index (with_window hf0 [] (replicate 256 0)) 0 = hf0.
Proof. destruct Hfresh as (Fv & Fl & Fi). rewrite <- Fv, <- Fl, <- Fi. by destruct hf0. Qed.

Lemma init_empty db : db_height db = 0 -> init hf0 db = Some hf0.
Proof.
  intros Eh. unfold init. rewrite heights_kept, start_state, Eh.
  destruct (Z.ltb_spec (window_size hf0) 0); [lia|].
  unfold rescan_from_chain_height. cbn [Z.eqb]. unfold rescan_from_block_height. by rewrite Eh.
Qed.

Lemma init_reads db bs :
  db_inv db bs -> bs <> [] ->
  exists i, (i < length (heights hf0))%nat /\ get_hard_fork_version db (db_height db - 1) = hf_version (fork_at hf0 i) /\
    init hf0 db = Some (raise_index (with_index (windowed hf0 (lastn ws (vote hf0 <$> bs))) i) (db_height db)).
Proof.
  intros [Ih Ib Io Iv] Hne.
  assert (1 <= db_height db) as Hpos by (rewrite Ih; destruct bs; [done|simpl; lia]).
  destruct (Iv (db_height db - 1)) as (i & Hi & Hver); [lia|]. exists i. split; [done|]. split; [done|].
  unfold init. rewrite heights_kept, start_state. set (start := Z.of_nat (length bs - ws)).
  assert ((if window_size hf0 <? db_height db then db_height db - (window_size hf0 - 1) else 1) = start + 1)
    as -> by (unfold start, ws; destruct (Z.ltb_spec (window_size hf0) (db_height db)); lia).
  unfold rescan_from_chain_height. destruct (Z.eqb_spec (start + 1) 0); [lia|].
  replace (start + 1 - 1) with start by lia. unfold rescan_from_block_height.
  destruct (Z.leb_spec (db_height db) start); [lia|]. rewrite Ih at 1.
  rewrite (scan_window hf0 db bs start); [|exact own_config|done|intros k Hk; apply Ib; lia|done].
  cbn [mbind option_bind]. rewrite Hver. cbn [windowed with_window heights snd].
  by rewrite (find_version_spec hf0 Htable i Hi).
Qed.

(** *** The invariant of any run *)

Record run_inv (hf : hardfork) (db : DB) (bs : list block) (lost : nat) : Prop := {
  ri_config : same_config hf;
  ri_db : db_inv db bs;
  ri_window : exists fill, window_inv hf bs lost fill;
  ri_index : (current_fork_index hf < length (heights hf0))%nat;
  ri_restart : lost = O -> bs <> [] -> init hf0 db = Some hf }.

Lemma raise_index_range hf h :
  same_config hf -> (current_fork_index hf < length (heights hf0))%nat ->
  (current_fork_index hf <= current_fork_index (raise_index hf h) < length (heights hf0))%nat.
Proof.
  intros Ic Hi. assert (table_ok (heights hf)) as Ht by (by rewrite Ic).
  assert (current_fork_index hf < length (heights hf))%nat as Hi' by (by rewrite Ic).
  rewrite (raise_index_eq hf Ht h Hi'). cbn [with_index current_fork_index].
  pose proof (voted_loop_range hf h (length (heights hf)) 0 ltac:(lia) Hi') as Hr.
  fold (get_voted_fork_index hf h) in Hr. rewrite <- (same_heights hf Ic). lia.
Qed.

Lemma raise_index_window hf h :
  versions (raise_index hf h) = versions hf /\ last_versions (raise_index hf h) = last_versions hf.
Proof. unfold raise_index. by case_bool_decide. Qed.

(** Raising depends on the window and the table, and only goes up. *)
Lemma raise_index_same hf i h :
  same_config hf -> raise_index (with_index (windowed hf0 (versions hf)) i) h
  = raise_index (with_index (windowed hf (versions hf)) i) h.
Proof. intros Ic. by rewrite Ic. Qed.

Lemma run_inv_start db : db_height db = 0 -> run_inv hf0 db [] 0.
Proof.
  intros Hd. destruct Hfresh as (Hv & Hl & Hi). split.
  - exact own_config.
  - split; [done|intros k Hk; lia|done|intros k Hk; lia].
  - exists []. apply window_exact; [by rewrite Hv|by rewrite Hl, Hv, counts_nil].
  - rewrite Hi. apply table_length_pos.
  - done.
Qed.

Lemma run_inv_add hf db bs lost b hf' db' :
  run_inv hf db bs lost -> block_ok b ->
  add_block hf (push_block db b) b (db_height db) = Some (hf', db') ->
  run_inv hf' db' (bs ++ [b]) (if bool_decide (ws <= length bs + lost)%nat then pred lost else lost).
Proof.
  intros [Ic Id [fill Iw] Ii _] Hb. rewrite add_block_eq; [|done|eapply window_u8; [apply Id|done]| |apply Iw|done].
  2: { rewrite (wi_length _ _ _ _ Iw). lia. }
  destruct (check hf b); [|done]. intros [= <- <-].
  set (vs := lastn (ws - 1) (versions hf) ++ [vote hf0 b]).
  assert (same_config (windowed hf vs)) as Ic1 by (by apply windowed_config).
  destruct (raise_index_window (windowed hf vs) (db_height db + 1)) as [Ev El].
  destruct (window_snoc hf (raise_index (windowed hf vs) (db_height db + 1)) bs lost fill b Iw)
    as [fill' Iw']; [by rewrite Ev|by rewrite El, Ev|].
  assert (table_version (hf_version (fork_at hf (current_fork_index hf)))) as Htv.
  { exists (current_fork_index hf). split; [done|by rewrite Ic]. }
  pose proof (db_inv_push db bs b _ Id Hb Htv) as Id'. split.
  - by apply raise_index_config.
  - exact Id'.
  - by exists fill'.
  - by apply raise_index_range.
  - intros El0 _. rewrite El0 in Iw'. destruct (init_reads _ _ Id') as (i & Hi & Hver & ->); [by destruct bs|].
    rewrite height_set, height_push in Hver |- *. rewrite version_set in Hver.
    replace (db_height db + 1 - 1) with (db_height db) in Hver by lia. rewrite Z.eqb_refl in Hver.
    assert (fork_at hf (current_fork_index hf) = fork_at hf0 (current_fork_index hf)) as Ef by (by rewrite Ic).
    rewrite Ef in Hver. apply (fork_version_inj hf0 Htable) in Hver; [|done..]. subst i.
    destruct Iw' as [Efl _ _ Ev' _ _]. destruct fill'; [|done]. cbn [app] in Ev'.
    rewrite Nat.sub_0_r, Ev in Ev'. rewrite <- Ev'. cbn [windowed with_window versions].
    do 2 f_equal. unfold windowed. rewrite Ic. by destruct hf.
Qed.

Lemma run_inv_pop hf db bs b lost :
  run_inv hf db (bs ++ [b]) lost -> bs <> [] ->
  exists vs v w, versions hf = vs ++ [v] /\ w = get_hard_fork_version db (db_height db - 1) /\
    on_block_popped hf (pop_block db) 1 =
      Ret (with_index (windowed hf (w :: vs)) (index_for_height hf0 (Z.of_nat (length bs)) top)) /\
    run_inv (with_index (windowed hf (w :: vs)) (index_for_height hf0 (Z.of_nat (length bs)) top))
      (pop_block db) bs (Nat.min ws (S lost)).
Proof.
  intros [Ic Id [fill Iw] Ii _] Hne. pose proof (db_inv_pop _ _ _ Id) as Id'.
  pose proof (di_height _ _ Id) as Eh. pose proof (di_height _ _ Id') as Eh'.
  pose proof (window_u8 _ _ _ _ (di_ok _ _ Id) Iw) as Hu8. pose proof (wi_length _ _ _ _ Iw) as Hlen.
  rewrite length_app in Eh, Hlen. cbn [length] in Eh, Hlen.
  assert (1 <= Z.of_nat (length bs)) as Hpos by (destruct bs; [done|cbn; lia]).
  destruct (exists_last (l := versions hf)) as (vs & v & Evs); [by intros E; rewrite E in Hlen; cbn in Hlen; lia|].
  exists vs, v, (get_hard_fork_version db (db_height db - 1)). split; [done|]. split; [done|].
  set (w := get_hard_fork_version db (db_height db - 1)).
  assert (table_version w) as Hw by (apply (di_versions _ _ Id); lia).
  assert (get_hard_fork_version (pop_block db) (db_height (pop_block db)) = w) as Ew.
  { rewrite version_pop. unfold w. f_equal. lia. }
  rewrite (pop_one hf (pop_block db) vs v); [|done|apply Iw|unfold short; lia| |rewrite Ew; by apply table_version_u8|lia].
  2: { rewrite Evs in Hu8. apply Forall_app in Hu8 as [_ Hu8]. by apply Forall_cons in Hu8 as [? _]. }
  rewrite Ew, Eh'. 
  assert (index_for_height hf (Z.of_nat (length bs)) (length (heights hf) - 1)
          = index_for_height hf0 (Z.of_nat (length bs)) top) as ->.
  { rewrite (same_heights hf Ic). by apply index_for_height_same, same_heights. }
  split; [done|]. set (j := index_for_height _ _ _).
  destruct (window_pop hf (with_index (windowed hf (w :: vs)) j) bs b lost fill w Iw Hw) as [fill' Iw'];
    [cbn; by rewrite Evs, removelast_last|done|].
  split; [by rewrite Ic|done|by exists fill'| |].
  - cbn [with_index current_fork_index]. unfold j. pose proof table_length_pos.
    assert (forall n, (index_for_height hf0 (Z.of_nat (length bs)) n <= n)%nat) as Hb.
    { induction n as [|n IH]; [done|]. cbn [index_for_height]. case_match; lia. }
    pose proof (Hb top). unfold top in *. lia.
  - intros El. lia.
Qed.

Lemma run_inv_restart hf db bs lost hf' :
  run_inv hf db bs lost -> init hf0 db = Some hf' -> run_inv hf' db bs 0.
Proof.
  intros [Ic Id _ _ _] E. destruct (decide (bs = [])) as [->|Hne].
  - pose proof (di_height _ _ Id) as Eh. rewrite init_empty in E by done. injection E as <-. by apply run_inv_start.
  - destruct (init_reads db bs Id Hne) as (i & Hi & Hver & E'). rewrite E' in E. injection E as <-.
    set (hf1 := with_index _ i).
    assert (same_config hf1) as Ic1 by done.
    destruct (raise_index_window hf1 (db_height db)) as [Ev El]. split.
    + by apply raise_index_config.
    + done.
    + exists []. by apply window_exact; rewrite ?El, Ev.
    + by apply raise_index_range.
    + done.
Qed.

(** *** Tables without a vote: every threshold is zero *)

Section Schedule.
Hypothesis Hscheduled : scheduled hf0.

Lemma zero_threshold hf f : same_config hf -> f ∈ heights hf0 -> fork_threshold hf f = 0.
Proof.
  intros Hc Hf. destruct Hscheduled as [Hzero _]. rewrite Forall_forall in Hzero. unfold fork_threshold.
  rewrite Hzero, Z.mul_0_r by done. done.
Qed.

Lemma voted_zero hf h n acc :
  same_config hf -> (S n <= length (heights hf0))%nat ->
  Nat.max (current_fork_index hf) (voted_loop hf h (S n) acc)
  = Nat.max (current_fork_index hf) (index_for_height hf0 h n).
Proof.
  intros Hc. revert acc. induction n as [|n IH]; intros acc Hn.
  - cbn [voted_loop index_for_height]. case_match; lia.
  - assert (fork_at hf (S n) = fork_at hf0 (S n)) as E by (by rewrite Hc).
    assert (fork_threshold hf (fork_at hf0 (S n)) = 0) as Ht.
    { apply zero_threshold; [done|]. apply list_elem_of_lookup_2 with (S n).
      apply fork_at_lookup; [done..|]. exact Hn. }
    remember (S n) as m eqn:Em. cbn [voted_loop]. rewrite E, Ht. subst m. cbn [index_for_height].
    set (acc' := u32 _). assert (0 <= acc') as Ha by (apply wrap_range; lia).
    destruct (Z.leb_spec 0 acc'); [|lia]. rewrite andb_true_r.
    destruct (Z.leb_spec (hf_height (fork_at hf0 (S n))) h); [done|]. apply IH. lia.
Qed.

Lemma index_for_height_le hf h n : (index_for_height hf h n <= n)%nat.
Proof. induction n as [|n IH]; [done|]. cbn [index_for_height]. case_match; lia. Qed.

Lemma index_for_height_mono hf h h' n : h <= h' -> (index_for_height hf h n <= index_for_height hf h' n)%nat.
Proof.
  intros Hh. induction n as [|n IH]; [done|]. cbn [index_for_height].
  destruct (Z.leb_spec (hf_height (fork_at hf (S n))) h),
    (Z.leb_spec (hf_height (fork_at hf (S n))) h'); try lia.
  pose proof (index_for_height_le hf h n). lia.
Qed.

Lemma index_at_genesis n : (n <= top)%nat -> index_for_height hf0 0 n = O.
Proof.
  induction n as [|n IH]; intros Hn; [done|]. cbn [index_for_height].
  assert (S n < length (heights hf0))%nat as Hl by (unfold top in Hn; lia).
  destruct (fork_at_lt hf0 Htable 0 (S n) ltac:(lia) Hl) as (_ & Hh & _).
  destruct Htable as [_ Hf]. rewrite Forall_lookup in Hf.
  destruct (Hf 0%nat (fork_at hf0 0)) as (_ & _ & Hu); [apply fork_at_lookup; lia|].
  destruct (Z.leb_spec (hf_height (fork_at hf0 (S n))) 0); [mach|]. apply IH. lia.
Qed.

(** The fork of a height, and its version *)
Definition fork_of (h : Z) : nat := index_for_height hf0 h top.
Definition version_of (h : Z) : Z := hf_version (fork_at hf0 (fork_of h)).

Lemma fork_of_range h : (fork_of h < length (heights hf0))%nat.
Proof. pose proof (index_for_height_le hf0 h top). pose proof table_length_pos. unfold fork_of, top in *. lia. Qed.

Lemma version_of_ideal h : version_of h = get_ideal_version_at hf0 h.
Proof.
  destruct Hscheduled as [_ Ho]. unfold version_of, get_ideal_version_at, fork_of. fold top.
  destruct (index_for_height hf0 h top); [by rewrite Ho|done].
Qed.

Lemma raise_scheduled hf h h0 :
  same_config hf -> current_fork_index hf = fork_of h0 -> h0 <= h ->
  raise_index hf h = with_index hf (fork_of h).
Proof.
  intros Ic Ei Hh. assert (table_ok (heights hf)) as Ht by (by rewrite Ic).
  pose proof (fork_of_range h0) as Hr. rewrite <- (same_heights hf Ic), <- Ei in Hr. rewrite (raise_index_eq hf Ht h Hr).
  f_equal. unfold get_voted_fork_index.
  assert (length (heights hf) = S top) as -> by (rewrite (same_heights hf Ic); unfold top; pose proof table_length_pos; lia).
  rewrite voted_zero by (try done; unfold top; pose proof table_length_pos; lia).
  rewrite Ei. fold (fork_of h). pose proof (index_for_height_mono hf0 h0 h top Hh). unfold fork_of in *. lia.
Qed.

Lemma lower_index_spec hf j i :
  same_config hf -> (j <= i)%nat -> (i < length (heights hf0))%nat ->
  lower_index hf (hf_version (fork_at hf0 j)) i = j.
Proof.
  intros Ic Hj Hi. assert (forall k, fork_at hf k = fork_at hf0 k) as Ef by (intros k; by rewrite Ic).
  induction i as [|i IH]; [cbn; lia|]. cbn [lower_index]. rewrite Ef.
  destruct (decide (j = S i)) as [->|]; [by rewrite Z.ltb_irrefl|].
  destruct (fork_at_lt hf0 Htable j (S i)) as [Hv _]; [lia|done|].
  rewrite (proj2 (Z.ltb_lt _ _) Hv). apply IH; lia.
Qed.

(** Every block has the version of its height, the database has recorded it, and the active
    fork is the one of the next height. *)
Definition accepted (bs : list block) : Prop :=
  forall k b, bs !! k = Some b ->
    major_version b = version_of (Z.of_nat k) /\ version_of (Z.of_nat k) <= get_block_vote b.
Definition recorded (db : DB) : Prop :=
  forall k, 0 <= k < db_height db -> get_hard_fork_version db k = version_of k.

Record sched_inv (hf : hardfork) (db : DB) (bs : list block) : Prop := {
  si_index : current_fork_index hf = fork_of (Z.of_nat (length bs));
  si_recorded : recorded db;
  si_accepted : accepted bs }.

Lemma check_scheduled hf b n :
  same_config hf -> current_fork_index hf = fork_of n ->
  check hf b = true <-> major_version b = version_of n /\ version_of n <= get_block_vote b.
Proof.
  intros Ic Ei. unfold check, do_check. rewrite andb_true_iff, Z.eqb_eq, Z.leb_le, Ei.
  assert (fork_at hf (fork_of n) = fork_at hf0 (fork_of n)) as -> by (by rewrite Ic). done.
Qed.

Lemma recorded_set db k : recorded db -> recorded (set_hard_fork_version db k (version_of k)).
Proof.
  intros Hr j. rewrite height_set, version_set. intros Hj. destruct (Z.eqb_spec j k) as [->|]; [done|by apply Hr].
Qed.

(** Adding a block whose height is [n], in the database already or the next one *)
Lemma add_scheduled hf db b n :
  same_config hf -> Forall is_u8 (versions hf) -> (length (versions hf) <= ws)%nat ->
  last_versions hf = counts (versions hf) -> block_ok b -> current_fork_index hf = fork_of n ->
  add_block hf db b n =
    if check hf b then
      Some (with_index (windowed hf (lastn (ws - 1) (versions hf) ++ [vote hf0 b])) (fork_of (n + 1)),
            set_hard_fork_version db n (version_of n))
    else None.
Proof.
  intros Ic Hu Hl El Hb Ei. rewrite add_block_eq by done. destruct (check hf b); [|done].
  rewrite (raise_scheduled _ (n + 1) n); [|by apply windowed_config|done|lia].
  rewrite Ei. assert (fork_at hf (fork_of n) = fork_at hf0 (fork_of n)) as -> by (by rewrite Ic). done.
Qed.

Lemma sched_inv_add hf db bs lost b hf' db' :
  run_inv hf db bs lost -> sched_inv hf db bs -> block_ok b ->
  add_block hf (push_block db b) b (db_height db) = Some (hf', db') -> sched_inv hf' db' (bs ++ [b]).
Proof.
  intros [Ic Id [fill Iw] _ _] [Ei Er Ea] Hb. pose proof (di_height _ _ Id) as Eh.
  rewrite add_scheduled; [|done|eapply window_u8; [apply Id|done]| |apply Iw|done|by rewrite Eh].
  2: { rewrite (wi_length _ _ _ _ Iw). lia. }
  destruct (check hf b) eqn:Ec; [|done]. intros [= <- <-].
  apply (check_scheduled hf b (db_height db)) in Ec; [|done|by rewrite Eh]. split.
  - cbn. rewrite Eh, length_app. f_equal. cbn. lia.
  - intros k. rewrite height_set, height_push, version_set, version_push. intros Hk.
    destruct (Z.eqb_spec k (db_height db)) as [->|]; [done|]. apply Er. lia.
  - intros k c Hk. apply lookup_app_Some in Hk as [Hk|[Hl Hk]]; [by apply Ea|].
    apply list_lookup_singleton_Some in Hk as [Hk <-]. by replace (Z.of_nat k) with (db_height db) by lia.
Qed.

Lemma sched_inv_pop hf hf' db bs b :
  db_inv db (bs ++ [b]) -> sched_inv hf db (bs ++ [b]) ->
  current_fork_index hf' = fork_of (Z.of_nat (length bs)) -> sched_inv hf' (pop_block db) bs.
Proof.
  intros Id [_ Er Ea] Ei. pose proof (di_height _ _ Id) as Eh. rewrite length_app in Eh. cbn in Eh. split; [done| |].
  - intros k. rewrite height_pop by lia. intros Hk. rewrite version_pop. apply Er. lia.
  - intros k c Hk. apply Ea. by rewrite lookup_app_l by by eapply lookup_lt_Some.
Qed.

(** A restart finds the fork of the height again. *)
Lemma init_scheduled db bs :
  db_inv db bs -> recorded db -> bs <> [] ->
  init hf0 db = Some (with_index (windowed hf0 (lastn ws (vote hf0 <$> bs))) (fork_of (Z.of_nat (length bs)))).
Proof.
  intros Id Er Hne. destruct (init_reads db bs Id Hne) as (i & Hi & Hver & ->).
  pose proof (di_height _ _ Id) as Eh. assert (1 <= Z.of_nat (length bs)) by (destruct bs; [done|cbn; lia]).
  rewrite Er in Hver by lia. apply (fork_version_inj hf0 Htable) in Hver; [|apply fork_of_range|done]. subst i.
  rewrite (raise_scheduled _ _ (db_height db - 1)); [|done|done|lia].
  by rewrite Eh.
Qed.

Lemma sched_inv_restart hf hf' db bs lost :
  run_inv hf db bs lost -> sched_inv hf db bs -> init hf0 db = Some hf' -> sched_inv hf' db bs.
Proof.
  intros Hr [Ei Er Ea] E. split; [|done..]. destruct (decide (bs = [])) as [->|Hne].
  - cbn. unfold fork_of. rewrite index_at_genesis by done.
    rewrite init_empty in E by by apply Hr. injection E as <-. by destruct Hfresh as (_ & _ & ->).
  - rewrite (init_scheduled db bs) in E by (done || apply Hr). by injection E as <-.
Qed.

(** *** Reorganising *)

Lemma readd_spec bs n : forall hf db k,
  (k + n = length bs)%nat -> same_config hf -> versions hf = lastn ws (vote hf0 <$> take k bs) ->
  last_versions hf = counts (versions hf) -> current_fork_index hf = fork_of (Z.of_nat k) ->
  db_inv db bs -> recorded db -> accepted bs ->
  exists db', readd_blocks hf db (Z.of_nat k) n =
      Some (with_index (windowed hf (lastn ws (vote hf0 <$> bs))) (fork_of (Z.of_nat (length bs))), db') /\
    db_inv db' bs /\ recorded db'.
Proof.
  induction n as [|n IH]; intros hf db k Hn Ic Ev El Ei Id Er Ha; cbn [readd_blocks].
  - rewrite take_ge in Ev by lia. replace (length bs) with k by lia.
    exists db. split; [|done]. rewrite <- Ei, <- Ev. unfold windowed. rewrite <- El. by destruct hf.
  - pose proof (di_height _ _ Id) as Eh. rewrite (di_blocks _ _ Id), Nat2Z.id by lia.
    destruct (lookup_lt_is_Some_2 bs k) as [b Eb]; [lia|]. rewrite Eb. cbn [mbind option_bind].
    assert (block_ok b) as Hb by (pose proof (di_ok _ _ Id) as Ho; rewrite Forall_lookup in Ho; by eapply Ho).
    rewrite add_scheduled; [|done| | |done|done|done].
    2: { rewrite Ev. apply Forall_drop, votes_u8, Forall_take, Id. }
    2: { rewrite Ev, lastn_length. lia. }
    rewrite (proj2 (check_scheduled hf b (Z.of_nat k) Ic Ei)) by by apply Ha. cbn [default from_option id].
    set (hf1 := with_index _ _). replace (Z.of_nat k + 1) with (Z.of_nat (S k)) by lia.
    assert (versions hf1 = lastn ws (vote hf0 <$> take (S k) bs)) as Ev1.
    { unfold hf1. cbn [with_index windowed with_window versions]. rewrite (take_S_r _ _ _ Eb), fmap_app, Ev.
      cbn [fmap list_fmap]. apply lastn_snoc. lia. }
    assert (same_config hf1) as Ic1 by (unfold hf1; by rewrite Ic).
    destruct (IH hf1 (set_hard_fork_version db (Z.of_nat k) (version_of (Z.of_nat k))) (S k))
      as (db' & -> & Id' & Er'); try done; [lia|unfold hf1; cbn; f_equal; lia| |by apply recorded_set|].
    { apply db_inv_set; [done|]. exists (fork_of (Z.of_nat k)). split; [apply fork_of_range|done]. }
    exists db'. split; [|done]. do 2 f_equal.
Qed.

Lemma reorganize_spec hf db bs lost h :
  run_inv hf db bs lost -> sched_inv hf db bs -> 1 <= h <= db_height db ->
  exists db', reorganize_from_chain_height hf db h =
      Some (true, (with_index (windowed hf (lastn ws (vote hf0 <$> bs))) (fork_of (Z.of_nat (length bs))), db')) /\
    db_inv db' bs /\ recorded db'.
Proof.
  intros [Ic Id _ _ _] [Ei Er Ea] Hh. pose proof (di_height _ _ Id) as Eh.
  unfold reorganize_from_chain_height. destruct (Z.eqb_spec h 0); [lia|].
  unfold reorganize_from_block_height. destruct (Z.leb_spec (db_height db) (h - 1)); [lia|].
  set (k := Z.to_nat h). set (start := if window_size _ - 1 <=? h - 1 then _ else _).
  assert (length (take k bs) = k) as Elk by (rewrite length_take; lia).
  assert (start = Z.of_nat (length (take k bs) - ws)) as Estart.
  { unfold start. cbn [with_window window_size]. rewrite Elk, Ic. cbn [window_size].
    destruct (Z.leb_spec (window_size hf0 - 1) (h - 1)); unfold ws, k; lia. }
  assert ((if h - 1 =? 0 then original_version (with_window hf [] (replicate 256 0)) else get_hard_fork_version db (h - 1))
          = version_of (h - 1)) as ->.
  { destruct (Z.eqb_spec (h - 1) 0) as [->|]; [|apply Er; lia].
    destruct Hscheduled as [_ Ho]. cbn. rewrite Ic. cbn. rewrite Ho. unfold version_of, fork_of.
    by rewrite index_at_genesis. }
  cbn [with_window current_fork_index]. unfold version_of at 1.
  rewrite lower_index_spec; [|by rewrite Ic| |rewrite Ei; apply fork_of_range].
  2: { rewrite Ei. apply index_for_height_mono. lia. }
  set (hf1 := with_index hf (fork_of (h - 1))).
  change (with_index (with_window hf [] (replicate 256 0)) (fork_of (h - 1))) with (with_window hf1 [] (replicate 256 0)).
  assert (same_config hf1) as Ic1 by (unfold hf1; by rewrite Ic).
  replace (Z.to_nat (h - 1 - start + 1)) with (Z.to_nat (Z.of_nat (length (take k bs)) - start)) by lia.
  rewrite (scan_window hf1 db (take k bs) start Ic1);
    [|apply Forall_take, Id|intros j Hj; rewrite (di_blocks _ _ Id), lookup_take_lt by lia; done|done].
  cbn [mbind option_bind]. set (vs := lastn ws (vote hf0 <$> take k bs)).
  rewrite (raise_scheduled _ _ (h - 1)); [|by apply windowed_config|done|lia].
  replace (h - 1 + 1) with (Z.of_nat k) by lia.
  destruct (readd_spec bs (Z.to_nat (db_height db - Z.of_nat k)) (with_index (windowed hf1 vs) (fork_of (Z.of_nat k))) db k)
    as (db' & -> & Hdb'); try done; [lia|by rewrite Ic1|].
  exists db'. split; [|done]. done.
Qed.

Lemma reorganize_inv hf db bs lost h r hf' db' :
  run_inv hf db bs lost -> sched_inv hf db bs -> is_u64 h ->
  reorganize_from_chain_height hf db h = Some (r, (hf', db')) ->
  run_inv hf' db' bs (if r then 0%nat else lost) /\ sched_inv hf' db' bs.
Proof.
  intros Hr Hs Hh E. destruct (decide (1 <= h <= db_height db)) as [Hin|Hout].
  - destruct (reorganize_spec hf db bs lost h Hr Hs Hin) as (db1 & E' & Id' & Er'). rewrite E' in E.
    injection E as <- <- <-. split; [|split; [done|done|apply Hs]]. pose proof (ri_config _ _ _ _ Hr) as Ic. split.
    + by rewrite Ic.
    + done.
    + exists []. by apply window_exact.
    + apply fork_of_range.
    + intros _ Hne. rewrite (init_scheduled db1 bs) by done. rewrite Ic. done.
  - unfold reorganize_from_chain_height, reorganize_from_block_height in E.
    destruct (Z.eqb_spec h 0); [by injection E as <- <- <-|].
    destruct (Z.leb_spec (db_height db) (h - 1)); [by injection E as <- <- <-|mach].
Qed.
End Schedule.

Lemma fork_run_inv hf db bs lost :
  fork_run hf db bs lost -> run_inv hf db bs lost /\ (scheduled hf0 -> sched_inv hf db bs).
Proof.
  induction 1 as [db Hd|hf db bs lost b hf' db' _ [IH IS] Hb Ha|hf db bs b lost hf' _ [IH IS] Hne Hp
    |hf db bs lost h r hf' db' _ [IH IS] Hs Hh Ho|hf db bs lost hf' _ [IH IS] Hi].
  - split; [by apply run_inv_start|]. intros Hs. split; [|intros k Hk; lia|by intros k b Hk].
    destruct Hfresh as (_ & _ & ->). symmetry. by apply index_at_genesis.
  - split; [by eapply run_inv_add|]. intros Hs. exact (sched_inv_add Hs hf db bs lost b hf' db' IH (IS Hs) Hb Ha).
  - destruct (run_inv_pop hf db bs b lost IH Hne) as (vs & v & w & _ & _ & E & IH'). rewrite E in Hp.
    injection Hp as <-. split; [done|]. intros Hs. by eapply (sched_inv_pop hf); [apply IH|by apply IS|].
  - destruct (reorganize_inv Hs hf db bs lost h r hf' db' IH (IS Hs) Hh Ho) as [? ?]. done.
  - split; [by eapply run_inv_restart|]. intros Hs. by eapply (sched_inv_restart Hs hf hf' db bs lost IH (IS Hs)).
Qed.

(** C12: Take a fork table in order, as [add_fork] builds it, and a window of 1 to 2^31 - 1 votes.
    However blocks are added and popped and the node is restarted, and, where no vote decides (all
    thresholds of the table are zero, as on the three networks), reorganized: the counters are the
    number of occurrences of each version in the window, the index of the active fork is in the
    table, and the window is made of the votes of the last blocks, capped at the newest known
    version, behind as many fork versions as votes were lost to pops. When none is lost, as always
    before a pop and after reading the window again, it holds exactly the votes of the last
    [window_size] blocks; every addition to a full window replaces one lost vote. Adding a block
    never lowers the active fork, and a pop above the first block always succeeds. *)
Theorem voting_window (hf : hardfork) (db : DB) (bs : list block) (lost : nat) :
  fork_run hf db bs lost ->
  (exists fill, length fill = lost /\ Forall (fun v => exists f, f ∈ heights hf0 /\ v = hf_version f) fill /\
     versions hf = fill ++ lastn (Z.to_nat (window_size hf0) - lost) (vote hf0 <$> bs)) /\
  last_versions hf = counts (versions hf) /\
  (current_fork_index hf < length (heights hf))%nat /\
  (forall b hf' db', block_ok b -> add_block hf (push_block db b) b (db_height db) = Some (hf', db') ->
     (current_fork_index hf <= current_fork_index hf')%nat) /\
  ((1 < length bs)%nat -> exists hf', on_block_popped hf (pop_block db) 1 = Ret hf').
Proof.
  intros Hr. destruct (fork_run_inv hf db bs lost Hr) as [Hi _]. pose proof Hi as [Ic Id [fill Iw] Ii _]. split_and!.
  - exists fill. split; [apply Iw|]. split; [|apply Iw]. eapply Forall_impl; [apply Iw|].
    intros v (i & Hii & ->). exists (fork_at hf0 i). split; [|done].
    by eapply list_elem_of_lookup_2, fork_at_lookup.
  - apply Iw.
  - by rewrite Ic.
  - intros b hf' db' Hb Ha. rewrite add_block_eq in Ha; [|done|eapply window_u8; [apply Id|done]| |apply Iw|done].
    2: { rewrite (wi_length _ _ _ _ Iw). lia. }
    destruct (check hf b); [|done]. injection Ha as <- _.
    eapply (raise_index_range (windowed hf _)); [by apply windowed_config|done].
  - intros Hl. destruct (exists_last (l := bs)) as (bs0 & b & ->); [by intros ->; cbn in Hl; lia|].
    destruct (run_inv_pop hf db bs0 b lost Hi) as (vs & v & w & _ & _ & E & _); [|by eexists].
    intros ->. cbn in Hl. lia.
Qed.

(** C33: With a fork table in order and a window of 1 to 2^31 - 1 votes, whatever was added, popped
    and reorganized before: a restart always succeeds and reads the votes of the last [window_size]
    blocks from the database. When the window was exact, because no block was popped or all the
    votes lost to pops have been replaced, it rebuilds exactly the state the node had, also the
    active fork; and where no vote decides it changes nothing but the window, also after pops and
    reorganizations. *)
Theorem restart_state (hf : hardfork) (db : DB) (bs : list block) (lost : nat) :
  fork_run hf db bs lost -> bs <> [] ->
  exists hf', init hf0 db = Some hf' /\
    versions hf' = lastn (Z.to_nat (window_size hf0)) (vote hf0 <$> bs) /\
    last_versions hf' = counts (versions hf') /\
    (lost = 0%nat -> hf' = hf) /\
    (scheduled hf0 -> hf' = with_window hf (versions hf') (last_versions hf')).
Proof.
  intros Hr Hne. destruct (fork_run_inv hf db bs lost Hr) as [Hi Hs].
  destruct (init_reads db bs (ri_db _ _ _ _ Hi) Hne) as (i & _ & _ & E). rewrite E. eexists. split; [done|].
  set (hf1 := with_index _ i). destruct (raise_index_window hf1 (db_height db)) as [Ev El]. rewrite El, Ev. split_and!; try done.
  - intros Hl. pose proof (ri_restart _ _ _ _ Hi Hl Hne) as E'. rewrite E in E'. by injection E'.
  - intros Hsch. pose proof (init_scheduled Hsch db bs (ri_db _ _ _ _ Hi) (si_recorded _ _ _ (Hs Hsch)) Hne) as E'.
    rewrite E in E'. injection E' as E'. change (raise_index _ _) with (raise_index hf1 (db_height db)) in E'.
    rewrite <- Ev, <- El, E', <- (si_index _ _ _ (Hs Hsch)), (ri_config _ _ _ _ Hi). done.
Qed.

(** With a table of zero thresholds the votes decide nothing: every block of the chain
    has exactly the major version the table gives for its height, and the
    version expected of the next block is the table's too. *)
Theorem schedule_followed (hf : hardfork) (db : DB) (bs : list block) (lost : nat) :
  fork_run hf db bs lost -> scheduled hf0 ->
  get_current_version hf = get_ideal_version_at hf0 (Z.of_nat (length bs)) /\
  (forall k b, bs !! k = Some b -> major_version b = get_ideal_version_at hf0 (Z.of_nat k)).
Proof.
  intros Hr Hs. destruct (fork_run_inv hf db bs lost Hr) as [Hi Hsi]. destruct (Hsi Hs) as [Ei _ Ea]. split.
  - rewrite <- (version_of_ideal Hs). unfold get_current_version, version_of. rewrite Ei.
    by rewrite (ri_config _ _ _ _ Hi).
  - intros k b Hk. rewrite <- (version_of_ideal Hs). by apply Ea.
Qed.
End Chain.

(** ** A database of lists *)

Record list_db := ListDb { ldb_blocks : list block; ldb_versions : gmap Z Z }.

#[export] Instance list_blockchain : BlockchainDB list_db := {
  db_height d := Z.of_nat (length (ldb_blocks d));
  get_block_from_height d h := if h <? 0 then None else ldb_blocks d !! Z.to_nat h;
  get_hard_fork_version d h := default 0 (ldb_versions d !! h);
  set_hard_fork_version d h v := ListDb (ldb_blocks d) (<[h := v]> (ldb_versions d));
  push_block d b := ListDb (ldb_blocks d ++ [b]) (ldb_versions d);
  pop_block d := ListDb (take (length (ldb_blocks d) - 1) (ldb_blocks d)) (ldb_versions d) }.

#[export] Instance list_blockchain_laws : BlockchainDBLaws list_db.
Proof.
  split; simpl; intros; try done.
  - destruct (Z.eqb_spec k h) as [->|]; [by rewrite lookup_insert_eq|by rewrite lookup_insert_ne].
  - rewrite length_app. simpl. lia.
  - destruct (Z.ltb_spec k 0); [lia|].
    destruct (Z.eqb_spec k (Z.of_nat (length (ldb_blocks d)))) as [->|].
    + by rewrite Nat2Z.id, lookup_app_r, Nat.sub_diag by lia.
    + by rewrite lookup_app_l by lia.
  - rewrite length_take. lia.
  - destruct (Z.ltb_spec k 0); [lia|]. by rewrite lookup_take_lt by lia.
  - lia.
Qed.

(** ** The networks *)

Definition configured (hs : list hardfork_t) : hardfork :=
  HardForkState 31557600 15778800 10080 80 1 0 hs [] (replicate 256 0) 0.
Definition mainnet_start : hardfork := configured mainnet_hard_forks.

Lemma mainnet_table : table_ok mainnet_hard_forks.
Proof.
  split.
  - repeat (constructor; [|repeat (constructor; [repeat split; reflexivity|]); constructor]). constructor.
  - repeat (constructor; [repeat split; discriminate|]). constructor.
Qed.

Lemma mainnet_ideal h :
  0 <= h -> get_ideal_version_at mainnet_start h = Z.min 16 (Z.max 1 h).
Proof.
  intros Hh. cbv -[Z.leb Z.min Z.max].
  repeat match goal with |- context [?a <=? h] => destruct (Z.leb_spec a h); [lia|] end. lia.
Qed.

Lemma mainnet_scheduled : scheduled mainnet_start.
Proof. split; [by repeat constructor|done]. Qed.
Lemma testnet_scheduled : scheduled (configured testnet_hard_forks).
Proof. split; [by repeat constructor|done]. Qed.
Lemma stagenet_scheduled : scheduled (configured stagenet_hard_forks).
Proof. split; [by repeat constructor|done]. Qed.

(** On the main network block [k] of any chain has major version [k], at least 1 and at
    most 16, whatever was popped and reorganized: the sixteen forks take effect one per
    block. *)
Theorem mainnet_versions {DB} `{BlockchainDBLaws DB} (hf : hardfork) (db : DB) (bs : list block)
    (lost k : nat) (b : block) :
  fork_run mainnet_start hf db bs lost -> bs !! k = Some b ->
  major_version b = Z.min 16 (Z.max 1 (Z.of_nat k)).
Proof.
  intros Hc Hk. rewrite <- mainnet_ideal by lia.
  eapply (schedule_followed mainnet_start mainnet_table); try done. apply mainnet_scheduled.
Qed.

(** Popping a block does not undo its addition: the vote dropped from the back
    of the window is replaced by one at the front, the version of the popped
    block itself, so the window never shrinks, even when it then is longer than
    the chain. *)
Theorem pop_refills_window {DB} `{BlockchainDBLaws DB} (hf : hardfork) (db : DB) (vs : list Z) (v : Z) :
  versions hf = vs ++ [v] -> last_versions hf = counts (versions hf) ->
  is_u8 v -> is_u8 (get_hard_fork_version db (db_height db)) -> short (versions hf) ->
  1 <= db_height db ->
  exists hf', on_block_popped hf db 1 = Ret hf' /\
    versions hf' = get_hard_fork_version db (db_height db) :: vs /\
    last_versions hf' = counts (versions hf').
Proof.
  intros Hvs Hl Hv Hw Hs Hd. rewrite (pop_one hf db vs v) by done. eexists. split; [done|]. done.
Qed.

(** Where votes do decide, a pop does not look at them: with a fork at height 2 that asks for 80
    percent of the votes, and none of them given, the node expects version 1 after three blocks,
    and version 2 once the top block was popped. *)
Definition voted_table : hardfork :=
  HardForkState 31557600 15778800 4 80 1 0 [Hardfork 1 0 0 1; Hardfork 2 2 80 2] [] (replicate 256 0) 0.
Example pop_ignores_votes :
  let push (s : hardfork * list_db) :=
    default s (add_block s.1 (push_block s.2 (Block 1 1)) (Block 1 1) (db_height s.2)) in
  let '(hf, db) := push (push (push (voted_table, ListDb [] ∅))) in
  db_height db = 3 /\ get_current_version hf = 1 /\
  get_current_version <$> on_block_popped hf (pop_block db) 1 = Ret 2.
Proof. split_and!; by vm_compute. Qed.

(** ** Witnesses *)

Lemma add_fork_sorted_witness :
  table_ok (heights (add_fork mainnet_start 17 20 0 1800000000).2).
Proof.
  exact (proj1 (add_fork_sorted mainnet_start 17 20 0 1800000000 mainnet_table
    ltac:(by_decide) ltac:(by_decide) ltac:(by_decide))).
Defined.

Definition demo_block (v : Z) : block := Block v v.
Definition demo_db0 : list_db := ListDb [] ∅.
Definition demo_add (s : hardfork * list_db) (b : block) : hardfork * list_db :=
  default s (add_block s.1 (push_block s.2 b) b (db_height s.2)).
Definition demo_run3 : hardfork * list_db :=
  demo_add (demo_add (demo_add (mainnet_start, demo_db0) (demo_block 1)) (demo_block 1)) (demo_block 2).

Lemma demo_add_run s bs lost b :
  fork_run mainnet_start s.1 s.2 bs lost -> block_ok b ->
  is_Some (add_block s.1 (push_block s.2 b) b (db_height s.2)) ->
  fork_run mainnet_start (demo_add s b).1 (demo_add s b).2 (bs ++ [b])
    (if bool_decide (Z.to_nat 10080 <= length bs + lost)%nat then pred lost else lost).
Proof.
  intros Hr Hb [[hf' db'] E]. unfold demo_add. rewrite E. by eapply (run_add mainnet_start).
Qed.

Lemma demo_chain :
  fork_run mainnet_start demo_run3.1 demo_run3.2 [demo_block 1; demo_block 1; demo_block 2] 0.
Proof.
  apply (demo_add_run _ [demo_block 1; demo_block 1] 0 (demo_block 2)); [|split; by_decide|vm_compute; by eexists].
  apply (demo_add_run _ [demo_block 1] 0 (demo_block 1)); [|split; by_decide|vm_compute; by eexists].
  apply (demo_add_run (mainnet_start, demo_db0) [] 0 (demo_block 1)); [|split; by_decide|vm_compute; by eexists].
  by apply run_start.
Qed.

(** The same chain after its top was popped *)
Definition demo_popped : hardfork :=
  match on_block_popped demo_run3.1 (pop_block demo_run3.2) 1 with Ret hf => hf | Throw _ => demo_run3.1 end.

Lemma demo_pop_chain :
  fork_run mainnet_start demo_popped (pop_block demo_run3.2) [demo_block 1; demo_block 1] 1.
Proof.
  apply (run_pop mainnet_start demo_run3.1 demo_run3.2 [demo_block 1; demo_block 1] (demo_block 2) 0);
    [exact demo_chain|done|by vm_compute].
Qed.

Lemma voting_window_witness :
  exists fill, length fill = 1%nat /\ versions demo_popped = fill ++ [1; 1].
Proof.
  destruct (voting_window mainnet_start mainnet_table ltac:(done) ltac:(by_decide) ltac:(done) demo_popped
    (pop_block demo_run3.2) [demo_block 1; demo_block 1] 1 demo_pop_chain) as ((fill & Hl & _ & Hv) & _).
  exists fill. split; [exact Hl|exact Hv].
Defined.

Lemma restart_state_witness : init mainnet_start demo_run3.2 = Some demo_run3.1.
Proof.
  destruct (restart_state mainnet_start mainnet_table ltac:(done) ltac:(by_decide) ltac:(done) demo_run3.1 demo_run3.2
    [demo_block 1; demo_block 1; demo_block 2] 0 demo_chain ltac:(done)) as (hf' & E & _ & _ & Hs & _).
  rewrite E. f_equal. by apply Hs.
Defined.

Lemma schedule_followed_witness : get_current_version demo_popped = 2.
Proof.
  exact (proj1 (schedule_followed mainnet_start mainnet_table ltac:(done) ltac:(by_decide) ltac:(done) demo_popped
    (pop_block demo_run3.2) [demo_block 1; demo_block 1] 1 demo_pop_chain mainnet_scheduled)).
Defined.

Lemma mainnet_versions_witness : major_version (demo_block 2) = Z.min 16 (Z.max 1 2).
Proof.
  exact (mainnet_versions demo_run3.1 demo_run3.2 [demo_block 1; demo_block 1; demo_block 2] 0 2
    (demo_block 2) demo_chain eq_refl).
Defined.

Lemma pop_refills_window_witness :
  exists hf', on_block_popped demo_run3.1 (pop_block demo_run3.2) 1
              = Ret hf' /\ versions hf' = [2; 1; 1] /\ last_versions hf' = counts (versions hf').
Proof.
  destruct (pop_refills_window demo_run3.1 (pop_block demo_run3.2) [1; 1] 2) as (hf' & H1 & H2 & H3);
    [by vm_compute|by vm_compute|by_decide|by_decide|by_decide|by_decide|].
  exists hf'. split_and!; [exact H1|rewrite H2; by vm_compute|exact H3].
Defined.
