(* ===== verification/Pruning.v ===== *)
(** * Blockchain pruning stripes: src/common/pruning.cpp and pruning.h

    A node that prunes keeps one stripe of blocks out of [2 ^ log_stripes], by
    runs of [STRIPE_SIZE] blocks, and all blocks near the tip. *)

From S2P Require Import Prelude IntUtil.

Definition CRYPTONOTE_MAX_BLOCK_NUMBER : Z := 500000000.
Definition CRYPTONOTE_PRUNING_STRIPE_SIZE : Z := 4096.
Definition CRYPTONOTE_PRUNING_LOG_STRIPES : Z := 3.
Definition CRYPTONOTE_PRUNING_TIP_BLOCKS : Z := 5500.

Definition PRUNING_SEED_LOG_STRIPES_SHIFT : Z := 7.
Definition PRUNING_SEED_LOG_STRIPES_MASK : Z := 0x7.
Definition PRUNING_SEED_STRIPE_SHIFT : Z := 0.
Definition PRUNING_SEED_STRIPE_MASK : Z := 0x7f.

Definition get_pruning_log_stripes (pruning_seed : Z) : Z :=
  Z.land (Z.shiftr pruning_seed PRUNING_SEED_LOG_STRIPES_SHIFT) PRUNING_SEED_LOG_STRIPES_MASK.

(** The overload on a seed *)
Definition seed_stripe (pruning_seed : Z) : Z :=
  if pruning_seed =? 0 then 0
  else u32 (1 + Z.land (Z.shiftr pruning_seed PRUNING_SEED_STRIPE_SHIFT) PRUNING_SEED_STRIPE_MASK).

Inductive pruning_error := Log_stripes_out_of_range | Stripe_out_of_range.

Definition make_pruning_seed (stripe log_stripes : Z) : result pruning_error Z :=
  if negb (log_stripes <=? PRUNING_SEED_LOG_STRIPES_MASK) then Throw Log_stripes_out_of_range
  else if negb ((0 <? stripe) && (stripe <=? Z.shiftl 1 log_stripes)) then Throw Stripe_out_of_range
  else Ret (Z.lor (u32 (Z.shiftl log_stripes PRUNING_SEED_LOG_STRIPES_SHIFT))
                  (u32 (Z.shiftl (u32 (stripe - 1)) PRUNING_SEED_STRIPE_SHIFT))).

(** The overload on heights *)
Definition get_pruning_stripe (block_height blockchain_height log_stripes : Z) : Z :=
  if blockchain_height <=? u64 (block_height + CRYPTONOTE_PRUNING_TIP_BLOCKS) then 0
  else
    u32 (Z.land (block_height / CRYPTONOTE_PRUNING_STRIPE_SIZE) (u64 (Z.shiftl 1 log_stripes - 1)) + 1).

Definition has_unpruned_block (block_height blockchain_height pruning_seed : Z) : bool :=
  let stripe := seed_stripe pruning_seed in
  if stripe =? 0 then true
  else
    let log_stripes := get_pruning_log_stripes pruning_seed in
    let block_stripe := get_pruning_stripe block_height blockchain_height log_stripes in
    (block_stripe =? 0) || (block_stripe =? stripe).

Definition get_pruning_seed (block_height blockchain_height log_stripes : Z) : result pruning_error Z :=
  let stripe := get_pruning_stripe block_height blockchain_height log_stripes in
  if stripe =? 0 then Ret 0 else make_pruning_seed stripe log_stripes.

(** [log_stripes] of the seed, or the default *)
Definition stripes_of_seed (pruning_seed : Z) : Z :=
  let seed_log_stripes := get_pruning_log_stripes pruning_seed in
  if seed_log_stripes =? 0 then CRYPTONOTE_PRUNING_LOG_STRIPES else seed_log_stripes.

(** A failed check logs an error and returns [block_height]. *)
Definition get_next_unpruned_block_height (block_height blockchain_height pruning_seed : Z) : Z :=
  if negb (block_height <=? CRYPTONOTE_MAX_BLOCK_NUMBER + 1) then block_height
  else if negb (blockchain_height <=? CRYPTONOTE_MAX_BLOCK_NUMBER + 1) then block_height
  else
    let stripe := seed_stripe pruning_seed in
    if stripe =? 0 then block_height
    else if blockchain_height <=? u64 (block_height + CRYPTONOTE_PRUNING_TIP_BLOCKS) then block_height
    else
      let log_stripes := stripes_of_seed pruning_seed in
      let mask := u64 (Z.shiftl 1 log_stripes - 1) in
      let block_pruning_stripe :=
        u32 (Z.land (block_height / CRYPTONOTE_PRUNING_STRIPE_SIZE) mask + 1) in
      if block_pruning_stripe =? stripe then block_height
      else
        let cycles := Z.shiftr (block_height / CRYPTONOTE_PRUNING_STRIPE_SIZE) log_stripes in
        let cycle_start := u64 (cycles + (if block_pruning_stripe <? stripe then 0 else 1)) in
        let h :=
          u64 (u64 (cycle_start * Z.shiftl CRYPTONOTE_PRUNING_STRIPE_SIZE log_stripes)
               + u32 (u32 (stripe - 1) * CRYPTONOTE_PRUNING_STRIPE_SIZE)) in
        if blockchain_height <? u64 (h + CRYPTONOTE_PRUNING_TIP_BLOCKS) then
          if blockchain_height <? CRYPTONOTE_PRUNING_TIP_BLOCKS then 0
          else u64 (blockchain_height - CRYPTONOTE_PRUNING_TIP_BLOCKS)
        else if negb (block_height <=? h) then block_height
        else h.

Definition get_next_pruned_block_height (block_height blockchain_height pruning_seed : Z)
    : result pruning_error Z :=
  let stripe := seed_stripe pruning_seed in
  if stripe =? 0 then Ret blockchain_height
  else if blockchain_height <=? u64 (block_height + CRYPTONOTE_PRUNING_TIP_BLOCKS)
  then Ret blockchain_height
  else
    let log_stripes := stripes_of_seed pruning_seed in
    let mask := u64 (Z.shiftl 1 log_stripes - 1) in
    let block_pruning_seed :=
      u32 (Z.land (block_height / CRYPTONOTE_PRUNING_STRIPE_SIZE) mask + 1) in
    if negb (block_pruning_seed =? stripe) then Ret block_height
    else
      let next_stripe := u32 (1 + Z.land block_pruning_seed mask) in
      seed ← make_pruning_seed next_stripe log_stripes;
      Ret (get_next_unpruned_block_height block_height blockchain_height seed).

(** [rand] is a random byte. *)
Definition get_random_stripe (rand : Z) : Z :=
  1 + rand mod Z.shiftl 1 CRYPTONOTE_PRUNING_LOG_STRIPES.

(** ** Seeds *)

(** The seeds nodes announce: a stripe out of [2 ^ log] with [log] from 1 to 7 *)
Definition seed_ok (stripe log : Z) : Prop := 1 <= log <= 7 /\ 1 <= stripe <= 2 ^ log.

Lemma pow_log log : 1 <= log <= 7 -> 2 <= 2 ^ log <= 128.
Proof.
  intros Hl. change 2 with (2 ^ 1) at 1. change 128 with (2 ^ 7).
  split; apply Z.pow_le_mono_r; lia.
Qed.

Lemma make_seed_eq stripe log :
  seed_ok stripe log ->
  make_pruning_seed stripe log = Ret (log * 128 + (stripe - 1)) /\
  seed_stripe (log * 128 + (stripe - 1)) = stripe /\
  get_pruning_log_stripes (log * 128 + (stripe - 1)) = log.
Proof.
  intros [Hl Hs]. pose proof (pow_log log Hl) as Hp. unfold make_pruning_seed, seed_stripe,
    get_pruning_log_stripes, PRUNING_SEED_LOG_STRIPES_MASK, PRUNING_SEED_STRIPE_MASK,
    PRUNING_SEED_LOG_STRIPES_SHIFT, PRUNING_SEED_STRIPE_SHIFT.
  destruct (Z.leb_spec log 7); [|lia]. cbn [negb]. rewrite Z.shiftl_mul_pow2, Z.mul_1_l by lia.
  destruct (Z.ltb_spec 0 stripe); [|lia]. destruct (Z.leb_spec stripe (2 ^ log)); [|lia]. cbn [negb andb].
  rewrite Z.shiftl_0_r, Z.shiftr_0_r, !(wrap_small 32 (stripe - 1)) by mach.
  assert (u32 (Z.shiftl log 7) = Z.shiftl log 7) as ->
    by (apply wrap_small; rewrite Z.shiftl_mul_pow2 by lia; change (2 ^ 7) with 128; mach).
  rewrite lor_add_low by lia. change (2 ^ 7) with 128. split; [done|].
  change 0x7f with (2 ^ 7 - 1). rewrite !land_ones_mod, Z.shiftr_div_pow2 by lia.
  change (2 ^ 7) with 128.
  destruct (Z.eqb_spec (log * 128 + (stripe - 1)) 0); [lia|]. split.
  - rewrite (Z.add_comm (log * 128)), Z_mod_plus_full, Z.mod_small by lia. rewrite wrap_small by mach. lia.
  - rewrite (Z.add_comm (log * 128)), Z.div_add, Z.div_small, Z.add_0_l by lia.
    change (Z.land log 7) with (Z.land log (2 ^ 3 - 1)). rewrite land_ones_mod by lia.
    apply Z.mod_small. change (2 ^ 3) with 8. lia.
Qed.

(** For every stripe of 2 to 128 stripes the seed made of it gives back the
    stripe and the number of stripes; any other request throws. *)
Theorem pruning_seed_roundtrip (stripe log : Z) :
  1 <= log -> 0 <= stripe ->
  (seed_ok stripe log -> exists seed, make_pruning_seed stripe log = Ret seed /\
     seed_stripe seed = stripe /\ get_pruning_log_stripes seed = log) /\
  (~ seed_ok stripe log -> exists e, make_pruning_seed stripe log = Throw e).
Proof.
  intros Hl Hs. split.
  - intros Hok. destruct (make_seed_eq stripe log Hok) as (H1 & H2 & H3). eauto.
  - intros Hno. unfold make_pruning_seed, PRUNING_SEED_LOG_STRIPES_MASK.
    destruct (Z.leb_spec log 7); [|by eexists]. cbn [negb].
    rewrite Z.shiftl_mul_pow2, Z.mul_1_l by lia.
    destruct (Z.ltb_spec 0 stripe), (Z.leb_spec stripe (2 ^ log)); cbn [andb negb]; try by eexists.
    exfalso. apply Hno. split; lia.
Qed.

(** ** Stripes *)

(** The stripe of a height among [2 ^ log], from 1 *)
Definition stripe_of (log h : Z) : Z := (h / 4096) mod 2 ^ log + 1.

(** Kept by a node of the given stripe on a chain of height [n] *)
Definition kept (stripe log n h : Z) : Prop := n <= h + 5500 \/ stripe_of log h = stripe.

Definition height_ok (h : Z) : Prop := 0 <= h <= CRYPTONOTE_MAX_BLOCK_NUMBER + 1.

Lemma masked_stripe log h :
  1 <= log <= 7 -> 0 <= h ->
  u32 (Z.land (h / CRYPTONOTE_PRUNING_STRIPE_SIZE) (u64 (Z.shiftl 1 log - 1)) + 1) = stripe_of log h.
Proof.
  intros Hl Hh. pose proof (pow_log log Hl) as Hp. rewrite Z.shiftl_mul_pow2, Z.mul_1_l by lia.
  rewrite (wrap_small 64) by mach. rewrite land_ones_mod by lia. unfold CRYPTONOTE_PRUNING_STRIPE_SIZE, stripe_of.
  pose proof (Z.mod_pos_bound (h / 4096) (2 ^ log) ltac:(lia)). apply wrap_small. mach.
Qed.

(** A peer has the full block at a height exactly when the height is within
    5500 of the top or its run of 4096 blocks belongs to the peer's stripe. *)
Theorem has_unpruned_block_spec (stripe log seed h n : Z) :
  seed_ok stripe log -> make_pruning_seed stripe log = Ret seed -> height_ok h -> height_ok n ->
  has_unpruned_block h n seed = true <-> kept stripe log n h.
Proof.
  intros Hok Hm Hh Hn. destruct (make_seed_eq stripe log Hok) as (E & Es & El).
  rewrite E in Hm. injection Hm as <-. destruct Hok as [Hl Hs]. pose proof (pow_log log Hl).
  unfold height_ok, CRYPTONOTE_MAX_BLOCK_NUMBER in *.
  unfold has_unpruned_block. rewrite Es, El. unfold get_pruning_stripe, CRYPTONOTE_PRUNING_TIP_BLOCKS.
  destruct (Z.eqb_spec stripe 0); [lia|]. rewrite masked_stripe by lia. rewrite (wrap_small 64) by mach.
  unfold kept. destruct (Z.leb_spec n (h + 5500)); [split; [by left|done]|].
  assert (1 <= stripe_of log h) by (unfold stripe_of; pose proof (Z.mod_pos_bound (h / 4096) (2 ^ log)); lia).
  destruct (Z.eqb_spec (stripe_of log h) 0); [lia|]. cbn [orb]. rewrite Z.eqb_eq. lia.
Qed.

(** ** The next height that is kept *)

(** The first index from [b] on, other than [b], with a given residue *)
Lemma next_residue P b t :
  0 < P -> 0 <= b -> 0 <= t < P -> b mod P <> t ->
  let k := (b / P + (if b mod P <? t then 0 else 1)) * P + t in
  b < k /\ k mod P = t /\ forall j, b <= j < k -> j mod P <> t.
Proof.
  intros HP Hb Ht Hne k. pose proof (Z.div_mod b P ltac:(lia)) as E.
  pose proof (Z.mod_pos_bound b P HP) as B. pose proof (Z.div_pos b P Hb HP).
  set (b1 := b / P) in *. set (b0 := b mod P) in *. clearbody b1 b0.
  assert (k mod P = t) as Hk.
  { unfold k. rewrite Z.add_comm, Z_mod_plus_full. by apply Z.mod_small. }
  split; [unfold k; destruct (Z.ltb_spec b0 t); nia|]. split; [done|].
  intros j Hj Hjt. pose proof (Z.div_mod j P ltac:(lia)) as Ej. rewrite Hjt in Ej.
  set (q := j / P) in *. clearbody q. unfold k in Hj.
  destruct (Z.ltb_spec b0 t).
  - assert (q < b1) by nia. assert (P * q <= P * (b1 - 1)) by nia. nia.
  - assert (q < b1 + 1) by nia. assert (P * q <= P * b1) by nia. nia.
Qed.

(** The start of the next run of the stripe, as the code computes it *)
Lemma next_run stripe log h :
  seed_ok stripe log -> height_ok h -> stripe_of log h <> stripe ->
  let H := (h / 4096 / 2 ^ log + (if stripe_of log h <? stripe then 0 else 1)) * (4096 * 2 ^ log)
           + (stripe - 1) * 4096 in
  h < H < 2 ^ 33 /\ stripe_of log H = stripe /\ forall x, h <= x < H -> stripe_of log x <> stripe.
Proof.
  intros [Hl Hs] Hh Hne H. pose proof (pow_log log Hl) as Hp. unfold height_ok, CRYPTONOTE_MAX_BLOCK_NUMBER in Hh.
  unfold stripe_of in *. set (P := 2 ^ log) in *. set (b := h / 4096) in *.
  assert (0 <= b) as Hb by (apply Z.div_pos; lia).
  destruct (next_residue P b (stripe - 1) ltac:(lia) Hb ltac:(lia) ltac:(lia)) as (H1 & H2 & H3).
  assert (b mod P + 1 <? stripe = (b mod P <? stripe - 1)) as E
    by (destruct (Z.ltb_spec (b mod P + 1) stripe), (Z.ltb_spec (b mod P) (stripe - 1)); lia).
  unfold H. rewrite E. clear E H.
  set (k := (b / P + (if b mod P <? stripe - 1 then 0 else 1)) * P + (stripe - 1)) in *.
  replace ((b / P + (if b mod P <? stripe - 1 then 0 else 1)) * (4096 * P) + (stripe - 1) * 4096)
    with (k * 4096) by (unfold k; ring).
  pose proof (Z.div_mod h 4096 ltac:(lia)) as Eh. pose proof (Z.mod_pos_bound h 4096 ltac:(lia)).
  fold b in Eh. split; [split|split].
  - lia.
  - assert (k <= b + 2 * P) as Hk.
    { unfold k. pose proof (Z.div_mod b P ltac:(lia)). pose proof (Z.mod_pos_bound b P ltac:(lia)).
      case_match; nia. }
    lia.
  - rewrite Z.div_mul by lia. lia.
  - intros x Hx. assert (x / 4096 mod P <> stripe - 1); [|lia]. apply H3. split.
    + apply Z.div_le_mono; lia.
    + apply Z.div_lt_upper_bound; lia.
Qed.

(** The height returned is the first one from [block_height] on that a peer
    with the seed has unpruned: it is not below the start, the peer has it, and
    it has no block in between. *)
Theorem next_unpruned_minimal (stripe log seed h n : Z) :
  seed_ok stripe log -> make_pruning_seed stripe log = Ret seed -> height_ok h -> height_ok n ->
  let r := get_next_unpruned_block_height h n seed in
  h <= r /\ kept stripe log n r /\ forall x, h <= x < r -> ~ kept stripe log n x.
Proof.
  intros Hok Hm Hh Hn. destruct (make_seed_eq stripe log Hok) as (E & Es & El).
  rewrite E in Hm. injection Hm as <-. pose proof Hok as [Hl Hs]. pose proof (pow_log log Hl) as Hp.
  pose proof (next_run stripe log h Hok Hh) as Hrun. cbv zeta in Hrun.
  unfold height_ok, CRYPTONOTE_MAX_BLOCK_NUMBER in *.
  unfold get_next_unpruned_block_height, CRYPTONOTE_MAX_BLOCK_NUMBER. rewrite Es.
  destruct (Z.leb_spec h (500000000 + 1)); [|lia]. destruct (Z.leb_spec n (500000000 + 1)); [|lia].
  cbn [negb]. destruct (Z.eqb_spec stripe 0); [lia|].
  unfold CRYPTONOTE_PRUNING_TIP_BLOCKS. rewrite (wrap_small 64 (h + 5500)) by mach. cbv zeta.
  destruct (Z.leb_spec n (h + 5500)); [split_and!; [lia|by left|lia]|].
  unfold stripes_of_seed. rewrite El. destruct (Z.eqb_spec log 0); [lia|].
  rewrite masked_stripe by lia. destruct (Z.eqb_spec (stripe_of log h) stripe) as [Heq|Hne];
    [split_and!; [lia|by right|lia]|].
  specialize (Hrun Hne). unfold CRYPTONOTE_PRUNING_STRIPE_SIZE.
  rewrite Z.shiftl_mul_pow2, Z.shiftr_div_pow2 by lia.
  set (c := if stripe_of log h <? stripe then 0 else 1) in *. assert (0 <= c <= 1) by (unfold c; case_match; lia).
  set (H3 := (h / 4096 / 2 ^ log + c) * (4096 * 2 ^ log) + (stripe - 1) * 4096) in *.
  assert (0 <= h / 4096 / 2 ^ log <= h) as Hq.
  { split; [apply Z.div_pos; [apply Z.div_pos; lia|lia]|].
    rewrite Z.div_div by lia. apply Z.div_le_upper_bound; nia. }
  assert (u64 (u64 (u64 (h / 4096 / 2 ^ log + c) * (4096 * 2 ^ log)) + u32 (u32 (stripe - 1) * 4096)) = H3) as ->.
  { rewrite (wrap_small 64 (_ + c)), (wrap_small 32 (stripe - 1)), (wrap_small 32 (_ * 4096)) by mach.
    assert (0 <= (h / 4096 / 2 ^ log + c) * (4096 * 2 ^ log) <= H3) by (unfold H3; nia).
    rewrite (wrap_small 64 (_ * _)) by mach. apply wrap_small. fold H3. mach. }
  clearbody H3. destruct Hrun as (Hr1 & Hr2 & Hr3). rewrite (wrap_small 64 (H3 + 5500)) by mach.
  destruct (Z.ltb_spec n (H3 + 5500)).
  - destruct (Z.ltb_spec n 5500); [lia|]. rewrite wrap_small by mach.
    split_and!; [lia|left; lia|]. intros x Hx [Hk|Hk]; [lia|]. by apply (Hr3 x); [lia|].
  - destruct (Z.leb_spec h H3); [|lia]. cbn [negb]. split_and!; [lia|by right|].
    intros x Hx [Hk|Hk]; [lia|]. by apply (Hr3 x).
Qed.

(** ** Witnesses *)

Lemma pruning_seed_roundtrip_witness :
  exists seed, make_pruning_seed 5 3 = Ret seed /\ seed_stripe seed = 5 /\ get_pruning_log_stripes seed = 3.
Proof.
  apply (proj1 (pruning_seed_roundtrip 5 3 ltac:(lia) ltac:(lia))). split; [lia|by_decide].
Defined.

Lemma demo_seed_ok : seed_ok 5 3.
Proof. split; [lia|by_decide]. Qed.

Lemma has_unpruned_block_spec_witness : has_unpruned_block 16384 1000000 388 = true.
Proof.
  apply (has_unpruned_block_spec 5 3 388 16384 1000000 demo_seed_ok eq_refl);
    [split; by_decide|split; by_decide|right; by vm_compute].
Defined.

Lemma next_unpruned_minimal_witness :
  100 <= get_next_unpruned_block_height 100 1000000 388 /\
  kept 5 3 1000000 (get_next_unpruned_block_height 100 1000000 388).
Proof.
  destruct (next_unpruned_minimal 5 3 388 100 1000000 demo_seed_ok eq_refl) as (H1 & H2 & _);
    [split; by_decide..|].
  split; [exact H1|exact H2].
Defined.
