(* ===== verification/TreeHash.v ===== *)
(** * Merkle trees of transaction hashes: src/crypto/tree-hash.c

    The root, the path and the branch of a leaf and their verification. A hash is
    an element of [H]; [node] is [cn_fast_hash] of two hashes side by side and
    [zero] the contents of freshly allocated memory. Arrays are lists that are
    updated in place, as the loops of the source do. *)

From S2P Require Import Prelude IntUtil.

(** [while (pow < count) pow <<= 1]; the source requires [count <= 2 ^ 28], so 28
    rounds are enough. *)
Fixpoint pow_loop (fuel pow count : nat) : nat :=
  match fuel with
  | O => pow
  | S fuel => if bool_decide (pow < count)%nat then pow_loop fuel (2 * pow) count else pow
  end.
Definition tree_hash_cnt (count : nat) : nat := pow_loop 28 2 count / 2.

Section Tree.
Context {H : Type} `{EqDecision H} (node : H -> H -> H) (zero : H).

Definition at_ (l : list H) (i : nat) : H := nth i l zero.

(** ** The root *)

(** [for (i = ..., j = ...; j < cnt; i += 2, ++j)] on the leaves, [n] rounds *)
Fixpoint leaf_loop (hashes : list H) (n i j : nat) (ints : list H) : list H :=
  match n with
  | O => ints
  | S n =>
      leaf_loop hashes n (i + 2) (S j) (<[j := node (at_ hashes i) (at_ hashes (i + 1))]> ints)
  end.

(** The same loop from 0 on [ints] itself *)
Fixpoint level_loop (n i j : nat) (ints : list H) : list H :=
  match n with
  | O => ints
  | S n => level_loop n (i + 2) (S j) (<[j := node (at_ ints i) (at_ ints (i + 1))]> ints)
  end.

(** [while (cnt > 2)]: [cnt] is halved in every round. *)
Fixpoint levels (fuel cnt : nat) (ints : list H) : list H :=
  match fuel with
  | O => ints
  | S fuel =>
      if bool_decide (2 < cnt)%nat then levels fuel (cnt / 2) (level_loop (cnt / 2) 0 0 ints) else ints
  end.

(** [None] is the failed assertion [count > 0]. *)
Definition tree_hash (hashes : list H) : option H :=
  match hashes with
  | [] => None
  | [h] => Some h
  | [h1; h2] => Some (node h1 h2)
  | _ =>
      let count := length hashes in
      let cnt := tree_hash_cnt count in
      let ints := take (2 * cnt - count) hashes ++ replicate (cnt - (2 * cnt - count)) zero in
      let ints := leaf_loop hashes (cnt - (2 * cnt - count)) (2 * cnt - count) (2 * cnt - count) ints in
      let ints := levels cnt cnt ints in
      Some (node (at_ ints 0) (at_ ints 1))
  end.

(** ** The path of a leaf *)

(** [if (idx == i || idx == i+1) { path = (path << 1) | ...; idx = j; }] *)
Definition path_step (i j : nat) (s : nat * Z) : nat * Z :=
  let '(idx, path) := s in
  if bool_decide (idx = i \/ idx = i + 1)%nat
  then (j, Z.lor (u32 (Z.shiftl path 1)) (if bool_decide (idx = i) then 0 else 1))
  else s.

Fixpoint path_loop (n i j : nat) (s : nat * Z) : nat * Z :=
  match n with
  | O => s
  | S n => path_loop n (i + 2) (S j) (path_step i j s)
  end.

Fixpoint path_levels (fuel cnt : nat) (s : nat * Z) : nat * Z :=
  match fuel with
  | O => s
  | S fuel =>
      if bool_decide (2 < cnt)%nat then path_levels fuel (cnt / 2) (path_loop (cnt / 2) 0 0 s) else s
  end.

(** The last step: [if (idx == 0 || idx == 1)] *)
Definition path_top (s : nat * Z) : nat * Z :=
  let '(idx, path) := s in
  if bool_decide (idx = 0 \/ idx = 1)%nat
  then (O, Z.lor (u32 (Z.shiftl path 1)) (if bool_decide (idx = 0)%nat then 0 else 1))
  else s.

Definition tree_path (count idx : nat) : option Z :=
  match count with
  | O => None
  | 1%nat => Some 0
  | 2%nat => Some (if bool_decide (idx = 0)%nat then 0 else 1)
  | _ =>
      let cnt := tree_hash_cnt count in
      let s := path_loop (cnt - (2 * cnt - count)) (2 * cnt - count) (2 * cnt - count) (idx, 0) in
      Some (path_top (path_levels cnt cnt s)).2
  end.

(** ** The branch of a leaf *)

(** [idx], [path], the branch found so far (its length is [depth]) and [ints] *)
Record bstate := BState { b_idx : nat; b_path : Z; b_branch : list H; b_ints : list H }.

Definition branch_step (src : list H) (i j : nat) (s : bstate) : bstate :=
  let s' :=
    if bool_decide (b_idx s = i \/ b_idx s = i + 1)%nat then
      BState j (Z.lor (u32 (Z.shiftl (b_path s) 1)) (if bool_decide (b_idx s = i) then 0 else 1))
        (b_branch s ++ [at_ src (if bool_decide (b_idx s = i) then i + 1 else i)%nat]) (b_ints s)
    else s in
  BState (b_idx s') (b_path s') (b_branch s')
    (<[j := node (at_ src i) (at_ src (i + 1))]> (b_ints s')).

Fixpoint branch_leaf_loop (hashes : list H) (n i j : nat) (s : bstate) : bstate :=
  match n with
  | O => s
  | S n => branch_leaf_loop hashes n (i + 2) (S j) (branch_step hashes i j s)
  end.
Fixpoint branch_level_loop (n i j : nat) (s : bstate) : bstate :=
  match n with
  | O => s
  | S n => branch_level_loop n (i + 2) (S j) (branch_step (b_ints s) i j s)
  end.
Fixpoint branch_levels (fuel cnt : nat) (s : bstate) : bstate :=
  match fuel with
  | O => s
  | S fuel =>
      if bool_decide (2 < cnt)%nat
      then branch_levels fuel (cnt / 2) (branch_level_loop (cnt / 2) 0 0 s) else s
  end.
Definition branch_top (s : bstate) : bstate :=
  if bool_decide (b_idx s = 0 \/ b_idx s = 1)%nat then
    BState 0 (Z.lor (u32 (Z.shiftl (b_path s) 1)) (if bool_decide (b_idx s = 0)%nat then 0 else 1))
      (b_branch s ++ [at_ (b_ints s) (if bool_decide (b_idx s = 0)%nat then 1 else 0)%nat]) (b_ints s)
  else s.

(** [for (idx = 0; idx < count; ++idx) if (!memcmp(...)) break;] *)
Fixpoint find_hash (hash : H) (hashes : list H) : option nat :=
  match hashes with
  | [] => None
  | h :: hs => if decide (hash = h) then Some O else S <$> find_hash hash hs
  end.

(** The branch and the path; [None] is [false]. *)
Definition tree_branch (hashes : list H) (hash : H) : option (list H * Z) :=
  idx ← find_hash hash hashes;
  match hashes with
  | [] => None
  | [_] => Some ([], 0)
  | [_; _] =>
      Some ([at_ hashes (if bool_decide (idx = 0)%nat then 1 else 0)%nat],
            if bool_decide (idx = 0)%nat then 0 else 1)
  | _ =>
      let count := length hashes in
      let cnt := tree_hash_cnt count in
      let ints := take (2 * cnt - count) hashes ++ replicate (cnt - (2 * cnt - count)) zero in
      let s := BState idx 0 [] ints in
      let s := branch_leaf_loop hashes (cnt - (2 * cnt - count)) (2 * cnt - count) (2 * cnt - count) s in
      let s := branch_top (branch_levels cnt cnt s) in
      Some (b_branch s, b_path s)
  end.

(** [for (d = 0; d < depth; ++d)]: the rest of the branch from [d] on *)
Fixpoint branch_hash_loop (branch : list H) (depth d path : Z) (partial : H) : H :=
  match branch with
  | [] => partial
  | b :: branch =>
      let partial :=
        if negb (Z.land (Z.shiftr path (depth - d - 1)) 1 =? 0) then node b partial
        else node partial b in
      branch_hash_loop branch depth (d + 1) path partial
  end.
Definition tree_branch_hash (hash : H) (branch : list H) (path : Z) : H :=
  branch_hash_loop branch (Z.of_nat (length branch)) 0 path hash.

Definition is_branch_in_tree (hash root : H) (branch : list H) (path : Z) : bool :=
  bool_decide (tree_branch_hash hash branch path = root).
End Tree.

Example tree_demo :
  let node := fun a b => 10 * a + b + 1 in
  (tree_hash node 0 [1; 2; 3; 4; 5], tree_branch node 0 [1; 2; 3; 4; 5] 4, tree_path 5 3,
   tree_branch_hash node 4 [5; 3; 13] 3)
  = (Some 208, Some ([5; 3; 13], 3), Some 3, 208).
Proof. vm_compute. reflexivity. Qed.

(** ** The power of two *)

Lemma pow_loop_spec fuel k count :
  (2 ^ k < 2 * count)%nat -> (count <= 2 ^ (k + fuel))%nat ->
  exists m, pow_loop fuel (2 ^ k) count = (2 ^ m)%nat /\ (k <= m)%nat /\
            (2 ^ m < 2 * count)%nat /\ (count <= 2 ^ m)%nat.
Proof.
  revert k. induction fuel as [|fuel IH]; intros k H1 H2; cbn [pow_loop].
  - exists k. rewrite Nat.add_0_r in H2. done.
  - case_bool_decide as Hlt.
    + destruct (IH (S k)) as (m & E & Hm & Hr); [simpl; lia|by rewrite Nat.add_succ_r in H2|].
      exists m. split; [by simpl in E|]. split; [lia|done].
    + exists k. split; [done|]. lia.
Qed.

Definition count_ok (count : nat) : Prop := (3 <= count)%nat /\ Z.of_nat count <= 2 ^ 28.

Lemma tree_hash_cnt_spec count :
  count_ok count ->
  exists k, tree_hash_cnt count = (2 ^ k)%nat /\ (1 <= k <= 28)%nat /\
            (2 ^ k < count <= 2 * 2 ^ k)%nat.
Proof.
  intros [H3 Hu].
  assert (count <= 2 ^ 28)%nat as Hn.
  { apply Nat2Z.inj_le. rewrite Nat2Z.inj_pow. exact Hu. }
  assert (2 ^ 28 <= 2 ^ (1 + 28))%nat as Hm by (apply Nat.pow_le_mono_r; lia).
  destruct (pow_loop_spec 28 1 count) as (m & E & Hk & Hlt & Hle);
    [change (2 ^ 1)%nat with 2%nat; lia|exact (Nat.le_trans _ _ _ Hn Hm)|].
  unfold tree_hash_cnt. change (2 ^ 1)%nat with 2%nat in E. rewrite E.
  destruct m as [|[|m]]; [lia|change (2 ^ 1)%nat with 2%nat in *; lia|].
  rewrite (Nat.pow_succ_r' 2 (S m)) in Hlt, Hle |- *. rewrite Nat.mul_comm, Nat.div_mul by lia.
  exists (S m). split; [done|]. split; [|lia].
  assert (2 ^ S m < 2 ^ 28)%nat as H.
  { apply (Nat.lt_le_trans _ count); [clear - Hlt; lia|exact Hn]. }
  apply Nat.pow_lt_mono_r_iff in H; [lia|lia].
Qed.

(** For a power of two the number of inner nodes of the first level is half
    the count, not the count itself as the comment's 1 << floor(log2(count)). *)
Theorem tree_hash_cnt_power (k : nat) :
  (2 <= k <= 28)%nat -> tree_hash_cnt (2 ^ k) = (2 ^ (k - 1))%nat.
Proof.
  intros Hk.
  assert (2 ^ 2 <= 2 ^ k)%nat as H4 by (apply Nat.pow_le_mono_r; lia). change (2 ^ 2)%nat with 4%nat in H4.
  destruct (tree_hash_cnt_spec (2 ^ k)) as (j & -> & Hj & Hlt & Hle).
  { split; [lia|]. rewrite Nat2Z.inj_pow. apply Z.pow_le_mono_r; lia. }
  apply Nat.pow_lt_mono_r_iff in Hlt; [|lia]. rewrite <- Nat.pow_succ_r' in Hle.
  apply Nat.pow_le_mono_r_iff in Hle; [|lia]. f_equal. lia.
Qed.

Section TreeFacts.
Context {H : Type} `{EqDecision H} (node : H -> H -> H) (zero : H).
Notation at_ := (at_ zero).
Notation leaf_loop := (leaf_loop node zero).
Notation level_loop := (level_loop node zero).
Notation levels := (levels node zero).
Notation branch_step := (branch_step node zero).
Notation branch_leaf_loop := (branch_leaf_loop node zero).
Notation branch_level_loop := (branch_level_loop node zero).
Notation branch_levels := (branch_levels node zero).
Notation branch_top := (branch_top zero).

Lemma at_insert l j x i :
  (j < length l)%nat -> at_ (<[j := x]> l) i = if bool_decide (i = j) then x else at_ l i.
Proof.
  intros Hj. unfold TreeHash.at_. rewrite !nth_lookup. case_bool_decide as E.
  - subst. by rewrite list_lookup_insert_eq.
  - by rewrite list_lookup_insert_ne by congruence.
Qed.

(** ** One level *)

(** The array of the next level: [a] entries kept, then pairs of the others *)
Definition next_level (a : nat) (o : list H) (j : nat) : H :=
  if bool_decide (j < a)%nat then at_ o j
  else node (at_ o (a + 2 * (j - a))) (at_ o (a + 2 * (j - a) + 1)).

Lemma leaf_loop_spec o a n k ints :
  (a + k + n <= length ints)%nat -> (forall j, (j < a + k)%nat -> at_ ints j = next_level a o j) ->
  let r := leaf_loop o n (a + 2 * k) (a + k) ints in
  length r = length ints /\ forall j, (j < a + k + n)%nat -> at_ r j = next_level a o j.
Proof.
  revert k ints. induction n as [|n IH]; intros k ints Hl Hj.
  - cbn. split; [done|]. intros j Hlt. apply Hj. lia.
  - cbn [TreeHash.leaf_loop].
    replace (a + 2 * k + 2)%nat with (a + 2 * S k)%nat by lia.
    replace (S (a + k)) with (a + S k)%nat by lia.
    destruct (IH (S k) (<[(a + k)%nat := node (at_ o (a + 2 * k)) (at_ o (a + 2 * k + 1))]> ints)) as [E1 E2].
    + rewrite length_insert. lia.
    + intros j Hlt. rewrite at_insert by lia. case_bool_decide as E.
      * subst j. unfold next_level. rewrite bool_decide_eq_false_2 by lia.
        by replace (a + k - a)%nat with k by lia.
      * apply Hj. lia.
    + rewrite length_insert in E1. split; [done|]. intros j Hlt. apply E2. lia.
Qed.

(** In place: the entries read have not been overwritten yet. *)
Lemma level_loop_leaf o n k ints :
  (k + n <= length ints)%nat -> (forall i, (2 * k <= i)%nat -> at_ ints i = at_ o i) ->
  level_loop n (2 * k) k ints = leaf_loop o n (2 * k) k ints.
Proof.
  revert k ints. induction n as [|n IH]; intros k ints Hl Hi; [done|].
  cbn [TreeHash.level_loop TreeHash.leaf_loop]. rewrite !Hi by lia.
  replace (2 * k + 2)%nat with (2 * S k)%nat by lia. apply IH; [rewrite length_insert; lia|].
  intros i Hlt. rewrite at_insert by lia. rewrite bool_decide_eq_false_2 by lia. apply Hi. lia.
Qed.

(** The branch loops compute the same arrays. *)
Lemma branch_leaf_ints o n i j s :
  b_ints (branch_leaf_loop o n i j s) = leaf_loop o n i j (b_ints s).
Proof.
  revert i j s. induction n as [|n IH]; intros i j s; [done|].
  cbn [TreeHash.branch_leaf_loop TreeHash.leaf_loop]. rewrite IH. unfold TreeHash.branch_step. simpl.
  by case_bool_decide.
Qed.

Lemma branch_step_src src o i j s :
  at_ src i = at_ o i -> at_ src (i + 1) = at_ o (i + 1) -> branch_step src i j s = branch_step o i j s.
Proof.
  intros E1 E2. unfold TreeHash.branch_step. rewrite E1, E2.
  case_bool_decide; [|done]. case_bool_decide; by rewrite ?E1, ?E2.
Qed.

Lemma branch_step_ints src i j s :
  b_ints (branch_step src i j s) = <[j := node (at_ src i) (at_ src (i + 1))]> (b_ints s).
Proof. unfold TreeHash.branch_step. simpl. by case_bool_decide. Qed.

Lemma branch_level_leaf o n k s :
  (k + n <= length (b_ints s))%nat -> (forall i, (2 * k <= i)%nat -> at_ (b_ints s) i = at_ o i) ->
  branch_level_loop n (2 * k) k s = branch_leaf_loop o n (2 * k) k s.
Proof.
  revert k s. induction n as [|n IH]; intros k s Hl Hi; [done|].
  cbn [TreeHash.branch_level_loop TreeHash.branch_leaf_loop].
  rewrite (branch_step_src (b_ints s) o) by (apply Hi; lia).
  replace (2 * k + 2)%nat with (2 * S k)%nat by lia.
  apply IH; rewrite branch_step_ints; [rewrite length_insert; lia|].
  intros i Hlt. rewrite at_insert by lia. rewrite bool_decide_eq_false_2 by lia. apply Hi. lia.
Qed.

(** ** The position of the leaf *)

(** The way the position, the path and the branch change in one level that pairs
    the entries from [a] on *)
Definition climb (a : nat) (o : list H) (s : bstate) : nat * Z * list H :=
  let right := Nat.odd (b_idx s - a) in
  ((a + (b_idx s - a) / 2)%nat,
   Z.lor (u32 (Z.shiftl (b_path s) 1)) (if right then 1 else 0),
   b_branch s ++ [at_ o (if right then b_idx s - 1 else b_idx s + 1)%nat]).

Definition position (s : @bstate H) : nat * Z * list H := (b_idx s, b_path s, b_branch s).

Lemma position_inv s i p b :
  position s = (i, p, b) -> b_idx s = i /\ b_path s = p /\ b_branch s = b.
Proof. unfold position. intros E. by simplify_eq. Qed.

Lemma branch_step_other src i j s :
  (b_idx s < i \/ i + 1 < b_idx s)%nat -> position (branch_step src i j s) = position s.
Proof. intros Hi. unfold TreeHash.branch_step. rewrite bool_decide_eq_false_2 by lia. done. Qed.

Lemma branch_step_climb src a k s :
  (a + 2 * k <= b_idx s < a + 2 * k + 2)%nat ->
  position (branch_step src (a + 2 * k) (a + k) s) = climb a src s.
Proof.
  intros Hi. unfold TreeHash.branch_step, climb, position. rewrite bool_decide_eq_true_2 by lia.
  cbn [b_idx b_path b_branch b_ints]. case_bool_decide as E.
  - rewrite E. replace (a + 2 * k - a)%nat with (2 * k)%nat by lia.
    rewrite Nat.odd_even, Nat.mul_comm, Nat.div_mul by lia. simpl. done.
  - replace (b_idx s) with (a + 2 * k + 1)%nat by lia.
    replace (a + 2 * k + 1 - a)%nat with (2 * k + 1)%nat by lia. rewrite Nat.odd_odd.
    replace ((2 * k + 1) / 2)%nat with k; [|apply (Nat.div_unique _ 2 _ 1); lia]. simpl.
    do 4 f_equal. f_equal. lia.
Qed.

Lemma branch_leaf_other o a n k s :
  (b_idx s < a + 2 * k \/ a + 2 * (k + n) <= b_idx s)%nat ->
  position (branch_leaf_loop o n (a + 2 * k) (a + k) s) = position s.
Proof.
  revert k s. induction n as [|n IH]; intros k s Hi; [done|]. cbn [TreeHash.branch_leaf_loop].
  pose proof (branch_step_other o (a + 2 * k) (a + k) s ltac:(lia)) as E.
  replace (a + 2 * k + 2)%nat with (a + 2 * S k)%nat by lia.
  replace (S (a + k)) with (a + S k)%nat by lia.
  rewrite IH; [done|]. apply position_inv in E as (-> & _). lia.
Qed.

Lemma branch_leaf_climb o a n k s :
  (a + 2 * k <= b_idx s < a + 2 * (k + n))%nat ->
  position (branch_leaf_loop o n (a + 2 * k) (a + k) s) = climb a o s.
Proof.
  revert k s. induction n as [|n IH]; intros k s Hi; [lia|]. cbn [TreeHash.branch_leaf_loop].
  replace (a + 2 * k + 2)%nat with (a + 2 * S k)%nat by lia.
  replace (S (a + k)) with (a + S k)%nat by lia.
  destruct (decide (b_idx s < a + 2 * k + 2)%nat) as [Hlt|Hge].
  - pose proof (branch_step_climb o a k s ltac:(lia)) as E. rewrite branch_leaf_other; [done|].
    apply position_inv in E as (-> & _).
    pose proof (Nat.div_lt_upper_bound (b_idx s - a) 2 (S k)). lia.
  - pose proof (branch_step_other o (a + 2 * k) (a + k) s ltac:(lia)) as E.
    apply position_inv in E as (Ei & Ep & Eb).
    rewrite IH by lia. unfold climb. by rewrite Ei, Ep, Eb.
Qed.

(** ** The check of a branch *)

Lemma branch_hash_shift br depth d p (b : bool) x :
  d + Z.of_nat (length br) <= depth ->
  branch_hash_loop node br (depth + 1) d (2 * p + Z.b2z b) x = branch_hash_loop node br depth d p x.
Proof.
  revert d x. induction br as [|y br IH]; intros d x Hd; [done|].
  cbn [length branch_hash_loop] in Hd |- *.
  replace (depth + 1 - d - 1) with (1 + (depth - d - 1)) by lia.
  rewrite <- Z.shiftr_shiftr by lia.
  replace (Z.shiftr (2 * p + Z.b2z b) 1) with p; [apply IH; lia|].
  rewrite Z.shiftr_div_pow2 by lia. apply (Z.div_unique_pos _ _ _ (Z.b2z b)); destruct b; simpl Z.b2z; lia.
Qed.

Lemma branch_hash_app br br' depth d p x :
  branch_hash_loop node (br ++ br') depth d p x
  = branch_hash_loop node br' depth (d + Z.of_nat (length br)) p (branch_hash_loop node br depth d p x).
Proof.
  revert d x. induction br as [|y br IH]; intros d x; simpl; [by rewrite Z.add_0_r|].
  rewrite IH. f_equal. lia.
Qed.

Lemma tree_branch_hash_snoc h br b p (right : bool) :
  tree_branch_hash node h (br ++ [b]) (2 * p + Z.b2z right)
  = if right then node b (tree_branch_hash node h br p) else node (tree_branch_hash node h br p) b.
Proof.
  unfold tree_branch_hash. rewrite branch_hash_app, length_app, Nat2Z.inj_add.
  change (Z.of_nat (length [b])) with 1. rewrite (branch_hash_shift br) by lia.
  cbn [branch_hash_loop]. rewrite Z.add_0_l.
  replace (Z.of_nat (length br) + 1 - Z.of_nat (length br) - 1) with 0 by lia.
  rewrite Z.shiftr_0_r. pose proof (land_ones_mod (2 * p + Z.b2z right) 1 ltac:(lia)) as E.
  change (2 ^ 1 - 1) with 1 in E. rewrite E.
  replace ((2 * p + Z.b2z right) mod 2 ^ 1) with (Z.b2z right); [by destruct right|].
  apply (Z.mod_unique_pos _ _ p); destruct right; simpl Z.b2z; lia.
Qed.

Lemma path_shift p n (right : bool) :
  0 <= p < 2 ^ Z.of_nat n -> (n < 32)%nat ->
  Z.lor (u32 (Z.shiftl p 1)) (if right then 1 else 0) = 2 * p + Z.b2z right /\
  0 <= 2 * p + Z.b2z right < 2 ^ Z.of_nat (S n).
Proof.
  intros Hp Hn. assert (2 ^ Z.of_nat (S n) <= 2 ^ 32) by (apply Z.pow_le_mono_r; lia).
  rewrite Nat2Z.inj_succ, Z.pow_succ_r in * by lia.
  split; [|destruct right; cbn [Z.b2z]; lia].
  rewrite Z.shiftl_mul_pow2 by lia. change (2 ^ 1) with 2.
  replace (u32 (p * 2)) with (2 * p) by (unfold wrap; rewrite Z.mod_small; lia).
  destruct right; cbn [Z.b2z]; [|rewrite Z.lor_0_r; lia].
  destruct p; [reflexivity|reflexivity|lia].
Qed.

(** ** One level and the whole tree *)

(** The leaf [h] and the branch found so far give the entry at the position. *)
Definition on_path (h : H) (ints : list H) (cnt : nat) (s : nat * Z * list H) : Prop :=
  let '(idx, path, branch) := s in
  (idx < cnt)%nat /\ 0 <= path < 2 ^ Z.of_nat (length branch) /\
  tree_branch_hash node h branch path = at_ ints idx.

Lemma climb_on_path h o a n r s :
  on_path h o (a + 2 * n) (position s) -> (a <= b_idx s)%nat -> (length (b_branch s) < 32)%nat ->
  (forall j, (j < a + n)%nat -> at_ r j = next_level a o j) ->
  on_path h r (a + n) (climb a o s).
Proof.
  intros (Hi & Hp & Ht) Ha Hl Hr. unfold climb, on_path.
  set (d := (b_idx s - a)%nat) in *.
  pose proof (Nat.div_mod_eq d 2) as Hd. pose proof (Nat.mod_upper_bound d 2 ltac:(lia)) as Hm.
  assert (d mod 2 = if Nat.odd d then 1 else 0)%nat as Eo.
  { pose proof (Nat.bit0_mod d) as E. rewrite Nat.bit0_odd in E. rewrite <- E. by destruct (Nat.odd d). }
  destruct (path_shift _ _ (Nat.odd d) Hp Hl) as [-> Hb].
  split; [lia|]. split; [by rewrite length_app, Nat.add_1_r|].
  rewrite tree_branch_hash_snoc, Ht, Hr by lia. unfold next_level.
  rewrite bool_decide_eq_false_2 by lia. replace (a + d / 2 - a)%nat with (d / 2)%nat by lia.
  destruct (Nat.odd d); f_equal; f_equal; lia.
Qed.

(** The first level: [a] leaves stay, the others are paired. *)
Lemma leaf_level h o a n s :
  (a + n <= length (b_ints s))%nat -> (forall j, (j < a)%nat -> at_ (b_ints s) j = at_ o j) ->
  on_path h o (a + 2 * n) (position s) -> (length (b_branch s) < 32)%nat ->
  let s' := branch_leaf_loop o n a a s in
  on_path h (b_ints s') (a + n) (position s') /\ length (b_ints s') = length (b_ints s) /\
  (length (b_branch s') <= S (length (b_branch s)))%nat.
Proof.
  intros Hl Ho Hp Hb s'. pose proof (branch_leaf_ints o n a a s) as Ei. fold s' in Ei.
  destruct (leaf_loop_spec o a n 0 (b_ints s)) as [E1 E2]; [lia| |].
  { intros j Hj. unfold next_level. rewrite bool_decide_eq_true_2 by lia. apply Ho. lia. }
  rewrite Nat.mul_0_r, !Nat.add_0_r in E1, E2. rewrite <- Ei in E1, E2.
  destruct (decide (b_idx s < a)%nat) as [Hlt|Hge].
  - pose proof (branch_leaf_other o a n 0 s ltac:(lia)) as E.
    rewrite Nat.mul_0_r, !Nat.add_0_r in E. fold s' in E.
    rewrite E. apply position_inv in E as (_ & _ & ->). split_and!; [|done|lia].
    destruct Hp as (_ & Hp & Ht). split_and!; [lia|by apply Hp|by apply Hp|].
    rewrite Ht, E2 by lia. unfold next_level. by rewrite bool_decide_eq_true_2.
  - pose proof (branch_leaf_climb o a n 0 s) as E.
    rewrite Nat.mul_0_r, !Nat.add_0_r in E. fold s' in E.
    rewrite E by (destruct Hp; lia). split_and!; [|done|].
    + by eapply climb_on_path; [..|lia| |].
    + rewrite (proj2 (proj2 (position_inv _ _ _ _ (E ltac:(destruct Hp; lia))))), length_app. simpl. lia.
Qed.

Lemma inner_level h n s :
  (n <= length (b_ints s))%nat -> on_path h (b_ints s) (2 * n) (position s) ->
  (length (b_branch s) < 32)%nat ->
  let s' := branch_level_loop n 0 0 s in
  b_ints s' = level_loop n 0 0 (b_ints s) /\ on_path h (b_ints s') n (position s') /\
  length (b_ints s') = length (b_ints s) /\ (length (b_branch s') <= S (length (b_branch s)))%nat.
Proof.
  intros Hl Hp Hb s'.
  assert (s' = branch_leaf_loop (b_ints s) n 0 0 s) as E by (by apply (branch_level_leaf _ n 0)).
  rewrite E. split; [|by apply (leaf_level h (b_ints s) 0 n)].
  rewrite branch_leaf_ints. symmetry. by apply (level_loop_leaf _ n 0).
Qed.

Lemma levels_on_path h k fuel s :
  (k <= fuel)%nat -> (2 ^ S k <= length (b_ints s))%nat ->
  on_path h (b_ints s) (2 ^ S k) (position s) -> (length (b_branch s) + k < 32)%nat ->
  let s' := branch_levels fuel (2 ^ S k) s in
  b_ints s' = levels fuel (2 ^ S k) (b_ints s) /\ on_path h (b_ints s') 2 (position s') /\
  (2 <= length (b_ints s'))%nat /\ (length (b_branch s') < 32)%nat.
Proof.
  revert fuel s. induction k as [|k IH]; intros fuel s Hf Hl Hp Hb.
  - change (2 ^ 1)%nat with 2%nat in *. destruct fuel; (split; [done|]); (split; [exact Hp|]); simpl; lia.
  - destruct fuel as [|fuel]; [lia|]. cbn [TreeHash.branch_levels TreeHash.levels].
    assert (2 < 2 ^ S (S k))%nat as H2.
    { apply (Nat.pow_lt_mono_r 2 1 (S (S k))); lia. }
    rewrite bool_decide_eq_true_2 by done. rewrite (Nat.pow_succ_r' 2 (S k)) in *.
    rewrite (Nat.mul_comm 2), Nat.div_mul by lia.
    destruct (inner_level h (2 ^ S k) s) as (Ei & Hp' & Hl' & Hb'); [lia|done|lia|].
    rewrite <- Ei. apply IH; [lia|lia|done|lia].
Qed.

Lemma top_on_path h s :
  on_path h (b_ints s) 2 (position s) -> (length (b_branch s) < 32)%nat ->
  tree_branch_hash node h (b_branch (branch_top s)) (b_path (branch_top s))
  = node (at_ (b_ints s) 0) (at_ (b_ints s) 1).
Proof.
  intros (Hi & Hp & Ht) Hb. unfold TreeHash.branch_top. rewrite bool_decide_eq_true_2 by lia.
  cbn [b_branch b_path].
  destruct (path_shift _ _ true Hp Hb) as [E1 _]. destruct (path_shift _ _ false Hp Hb) as [E0 _].
  case_bool_decide as E; [rewrite E0|rewrite E1]; rewrite tree_branch_hash_snoc, Ht; repeat f_equal; lia.
Qed.

(** ** The path is the one of [tree_path] *)

Lemma branch_step_path src i j s :
  (position (branch_step src i j s)).1 = path_step i j (position s).1.
Proof. unfold TreeHash.branch_step, path_step, position. simpl. by case_bool_decide. Qed.

Lemma branch_leaf_path o n i j s :
  (position (branch_leaf_loop o n i j s)).1 = path_loop n i j (position s).1.
Proof.
  revert i j s. induction n as [|n IH]; intros i j s; [done|]. cbn [TreeHash.branch_leaf_loop path_loop].
  by rewrite IH, branch_step_path.
Qed.

Lemma branch_level_path n i j s :
  (position (branch_level_loop n i j s)).1 = path_loop n i j (position s).1.
Proof.
  revert i j s. induction n as [|n IH]; intros i j s; [done|]. cbn [TreeHash.branch_level_loop path_loop].
  by rewrite IH, branch_step_path.
Qed.

Lemma branch_levels_path fuel cnt s :
  (position (branch_levels fuel cnt s)).1 = path_levels fuel cnt (position s).1.
Proof.
  revert cnt s. induction fuel as [|fuel IH]; intros cnt s; [done|].
  cbn [TreeHash.branch_levels path_levels]. case_bool_decide; [|done]. by rewrite IH, branch_level_path.
Qed.

Lemma branch_top_path s : (position (branch_top s)).1 = path_top (position s).1.
Proof. unfold TreeHash.branch_top, path_top, position. simpl. by case_bool_decide. Qed.

Lemma find_hash_some (h : H) hashes idx : find_hash h hashes = Some idx -> hashes !! idx = Some h.
Proof.
  revert idx. induction hashes as [|x hs IH]; intros idx E; [done|]. simpl in E.
  case_decide; simplify_eq; [done|]. apply fmap_Some in E as (i & E & ->). by apply IH.
Qed.

Lemma find_hash_in (h : H) hashes : h ∈ hashes -> exists idx, find_hash h hashes = Some idx.
Proof.
  induction hashes as [|x hs IH]; intros Hin; [by apply elem_of_nil in Hin|]. simpl.
  case_decide; [by eexists|]. apply elem_of_cons in Hin as [->|Hin]; [done|].
  destruct (IH Hin) as [i ->]. by eexists.
Qed.

(** A tree of three leaves or more, with the position of the leaf found *)
Lemma big_tree hashes h idx :
  count_ok (length hashes) -> hashes !! idx = Some h ->
  let cnt := tree_hash_cnt (length hashes) in
  let a := (2 * cnt - length hashes)%nat in
  let ints := take a hashes ++ replicate (cnt - a) zero in
  let s := branch_levels cnt cnt (branch_leaf_loop hashes (cnt - a) a a (BState idx 0 [] ints)) in
  b_ints s = levels cnt cnt (leaf_loop hashes (cnt - a) a a ints) /\
  on_path h (b_ints s) 2 (position s) /\ (length (b_branch s) < 32)%nat.
Proof.
  intros Hc Hh cnt a ints s. destruct (tree_hash_cnt_spec _ Hc) as (k & Ek & Hk & Hlo & Hhi).
  fold cnt in Ek. rewrite <- Ek in Hlo, Hhi. pose proof (lookup_lt_Some _ _ _ Hh) as Hidx.
  assert (a + length hashes = 2 * cnt)%nat as Ha by (unfold a; lia).
  assert (length ints = cnt) as Hli.
  { unfold ints. rewrite length_app, length_take, length_replicate. lia. }
  destruct (leaf_level h hashes a (cnt - a) (BState idx 0 [] ints)) as (Hp & Hl & Hb);
    cbn [b_ints b_branch position b_idx b_path]; [lia| |split; [simpl; lia|]|simpl; lia|].
  - intros j Hj. unfold TreeHash.at_, ints. rewrite !nth_lookup, lookup_app_l, lookup_take_lt; [done|lia|].
    rewrite length_take. lia.
  - split; [simpl; lia|]. unfold TreeHash.at_. simpl. by rewrite nth_lookup, Hh.
  - cbn [b_ints b_branch] in Hl, Hb. replace (a + (cnt - a))%nat with cnt in Hp by lia.
    destruct k as [|k]; [lia|].
    assert (k < 2 ^ k)%nat by (apply Nat.pow_gt_lin_r; lia).
    assert (2 ^ S k = 2 * 2 ^ k)%nat as E2 by apply Nat.pow_succ_r'.
    destruct (levels_on_path h k cnt (branch_leaf_loop hashes (cnt - a) a a (BState idx 0 [] ints)))
      as (E & Hp' & _ & Hb'); rewrite <- ?Ek; [lia|lia|done|simpl in Hb; lia|].
    rewrite <- ?Ek in *. split; [|done]. unfold s. rewrite E, branch_leaf_ints. done.
Qed.
End TreeFacts.

(** ** The root binds the leaves *)

Section Binding.
Context {H : Type} `{EqDecision H} (node : H -> H -> H) (zero : H).
Notation at_ := (at_ zero).

(** What tells a hash from other values, its size for instance *)
Context (good : H -> Prop) (good_node : forall a b, good (node a b)) (good_zero : good zero).

(** Two different pairs of hashes with one node above *)
Definition collision : Prop :=
  exists a b c d, (good a /\ good b /\ good c /\ good d) /\ (a, b) <> (c, d) /\ node a b = node c d.

Lemma node_binds a b c d :
  good a -> good b -> good c -> good d -> node a b = node c d -> a = c /\ b = d \/ collision.
Proof.
  intros Ha Hb Hc Hd E. destruct (decide ((a, b) = (c, d))) as [[= -> ->]|Hne]; [by left|right]. by exists a, b, c, d.
Qed.

Lemma good_at l i : Forall good l -> good (at_ l i).
Proof.
  intros Hl. unfold TreeHash.at_. rewrite nth_lookup. destruct (l !! i) eqn:E; [|done]. by eapply Forall_lookup_1.
Qed.

Lemma leaf_loop_good hs n i j ints : Forall good ints -> Forall good (leaf_loop node zero hs n i j ints).
Proof. revert i j ints. induction n; intros i j ints Hi; [done|]. cbn. apply IHn. by apply Forall_insert. Qed.

Lemma level_loop_good n i j ints : Forall good ints -> Forall good (level_loop node zero n i j ints).
Proof. revert i j ints. induction n; intros i j ints Hi; [done|]. cbn. apply IHn. by apply Forall_insert. Qed.

Lemma levels_good fuel cnt ints : Forall good ints -> Forall good (levels node zero fuel cnt ints).
Proof.
  revert cnt ints. induction fuel; intros cnt ints Hi; [done|]. cbn. case_bool_decide; [|done].
  by apply IHfuel, level_loop_good.
Qed.

(** Equal entries of the next level come from equal entries. *)
Lemma next_level_binds a n o1 o2 :
  Forall good o1 -> Forall good o2 ->
  (forall j, (j < a + n)%nat -> next_level node zero a o1 j = next_level node zero a o2 j) ->
  (forall i, (i < a + 2 * n)%nat -> at_ o1 i = at_ o2 i) \/ collision.
Proof.
  intros Ho1 Ho2. induction n as [|n IH]; intros E.
  - left. intros i Hi. specialize (E i ltac:(lia)). unfold next_level in E. by rewrite bool_decide_eq_true_2 in E by lia.
  - destruct IH as [IH|]; [intros j Hj; apply E; lia| |by right].
    specialize (E (a + n)%nat ltac:(lia)). unfold next_level in E. rewrite bool_decide_eq_false_2 in E by lia.
    replace (a + n - a)%nat with n in E by lia. apply node_binds in E as [[E1 E2]|]; [left|by right|by apply good_at..].
    intros i Hi. destruct (decide (i < a + 2 * n)%nat) as [|Hge]; [by apply IH|].
    destruct (decide (i = a + 2 * n)%nat) as [->|]; [done|]. by replace i with (a + 2 * n + 1)%nat by lia.
Qed.

Lemma levels_bind k fuel ints1 ints2 :
  Forall good ints1 -> Forall good ints2 -> (k < fuel)%nat -> (2 ^ S k <= length ints1)%nat -> (2 ^ S k <= length ints2)%nat ->
  (forall j, (j < 2)%nat -> at_ (levels node zero fuel (2 ^ S k) ints1) j
                           = at_ (levels node zero fuel (2 ^ S k) ints2) j) ->
  (forall i, (i < 2 ^ S k)%nat -> at_ ints1 i = at_ ints2 i) \/ collision.
Proof.
  revert fuel ints1 ints2. induction k as [|k IH]; intros [|fuel] ints1 ints2 Hg1 Hg2 Hf Hl1 Hl2 E; [lia| |lia|].
  { left. cbn in E. exact E. }
  assert (Hk : (2 ^ S (S k) = 2 * 2 ^ S k)%nat) by apply Nat.pow_succ_r'.
  assert (Hk1 : (2 ^ S k = 2 * 2 ^ k)%nat) by apply Nat.pow_succ_r'.
  assert (Hpos : (0 < 2 ^ k)%nat) by (by apply Nat.neq_0_lt_0, Nat.pow_nonzero).
  assert (Hlev : forall ints, (2 ^ S (S k) <= length ints)%nat ->
    length (level_loop node zero (2 ^ S k) 0 0 ints) = length ints /\
    forall j, (j < 2 ^ S k)%nat -> at_ (level_loop node zero (2 ^ S k) 0 0 ints) j = next_level node zero 0 ints j).
  { intros ints Hl. pose proof (level_loop_leaf node zero ints (2 ^ S k) 0 ints) as L. rewrite Nat.mul_0_r in L.
    rewrite L by (done || lia). clear L.
    destruct (leaf_loop_spec node zero ints 0 (2 ^ S k) 0 ints) as [H1 H2]; [lia|lia|]. by split. }
  cbn [levels] in E. rewrite bool_decide_eq_true_2 in E by lia.
  replace (2 ^ S (S k) / 2)%nat with (2 ^ S k)%nat in E by (rewrite Hk, Nat.mul_comm, Nat.div_mul; lia).
  destruct (Hlev ints1 Hl1) as [L1 N1], (Hlev ints2 Hl2) as [L2 N2].
  destruct (IH fuel _ _ (level_loop_good _ _ _ _ Hg1) (level_loop_good _ _ _ _ Hg2) ltac:(lia) ltac:(rewrite L1; lia) ltac:(rewrite L2; lia) E) as [E'|]; [|by right].
  destruct (next_level_binds 0 (2 ^ S k) ints1 ints2 Hg1 Hg2) as [E2|]; [|left|by right].
  - intros j Hj. rewrite <- N1, <- N2 by lia. apply E'. lia.
  - intros i Hi. apply E2. lia.
Qed.

(** Lists of one length with one root are the same, or there is a collision. *)
Lemma tree_hash_binds hs1 hs2 root :
  Forall good hs1 -> Forall good hs2 -> length hs1 = length hs2 -> Z.of_nat (length hs1) <= 2 ^ 28 ->
  tree_hash node zero hs1 = Some root -> tree_hash node zero hs2 = Some root -> hs1 = hs2 \/ collision.
Proof.
  intros Hg1 Hg2 Hl Hmax E1 E2.
  destruct hs1 as [|x1 [|y1 [|z1 l1]]], hs2 as [|x2 [|y2 [|z2 l2]]]; try done.
  { cbn in E1, E2. left. congruence. }
  { cbn in E1, E2. injection E1 as <-. injection E2 as E2.
    do 2 (apply Forall_cons in Hg1 as [? Hg1]; apply Forall_cons in Hg2 as [? Hg2]).
    apply node_binds in E2 as [[-> ->]|]; [by left|by right|done..]. }
  set (hs1 := x1 :: y1 :: z1 :: l1) in *. set (hs2 := x2 :: y2 :: z2 :: l2) in *.
  assert (Hc : count_ok (length hs1)) by (split; [cbn; lia|done]).
  destruct (tree_hash_cnt_spec _ Hc) as (k & Ek & Hk & Hlo & Hhi).
  set (cnt := tree_hash_cnt (length hs1)) in *. set (a := (2 * cnt - length hs1)%nat).
  set (ints := fun hs : list H => leaf_loop node zero hs (cnt - a) a a (take a hs ++ replicate (cnt - a) zero)).
  assert (Hspec : forall hs, length hs = length hs1 ->
    length (ints hs) = cnt /\ forall j, (j < cnt)%nat -> at_ (ints hs) j = next_level node zero a hs j).
  { intros hs Hs. assert (Hli : length (take a hs ++ replicate (cnt - a) zero) = cnt)
      by (rewrite length_app, length_take, length_replicate; unfold a; lia).
    pose proof (leaf_loop_spec node zero hs a (cnt - a) 0 (take a hs ++ replicate (cnt - a) zero)) as Hloop.
    rewrite !Nat.mul_0_r, !Nat.add_0_r, Hli in Hloop.
    destruct Hloop as [H1 H2]; [unfold a; lia| |by split; [|intros j Hj; apply H2; unfold a; lia]].
    intros j Hj. unfold next_level, TreeHash.at_. rewrite bool_decide_eq_true_2 by lia.
    by rewrite !nth_lookup, lookup_app_l, lookup_take_lt by (rewrite ?length_take; lia). }
  destruct (Hspec hs1 eq_refl) as [L1 N1], (Hspec hs2 (eq_sym Hl)) as [L2 N2].
  assert (Hroot : forall hs, length hs = length hs1 -> (3 <= length hs)%nat ->
    tree_hash node zero hs = Some (node (at_ (levels node zero cnt cnt (ints hs)) 0) (at_ (levels node zero cnt cnt (ints hs)) 1))).
  { intros [|? [|? [|? ?]]] Hs H3; cbn [length] in H3; try lia. unfold tree_hash. by rewrite Hs. }
  rewrite Hroot in E1, E2 by (cbn; done || cbn; lia). injection E1 as E1. injection E2 as E2.
  assert (Hgi : forall hs, Forall good hs -> Forall good (ints hs)).
  { intros hs Hg. apply leaf_loop_good, Forall_app_2; [by apply Forall_take|by apply Forall_replicate]. }
  rewrite <- E1 in E2. apply node_binds in E2 as [[E20 E21]|]; [|by right|by apply good_at, levels_good, Hgi..].
  destruct k as [|k]; [lia|]. pose proof (Nat.pow_gt_lin_r 2 (S k) ltac:(lia)).
  destruct (levels_bind k cnt (ints hs1) (ints hs2)) as [E|]; [by apply Hgi..|lia|lia|lia| | |by right].
  { intros [|[|j]] Hj; [by rewrite <- Ek|by rewrite <- Ek|lia]. }
  rewrite <- Ek in E. destruct (next_level_binds a (cnt - a) hs1 hs2 Hg1 Hg2) as [En|]; [|left|by right].
  - intros j Hj. rewrite <- N1, <- N2 by (unfold a in *; lia). apply E. unfold a in *; lia.
  - apply (nth_ext _ _ zero zero Hl). intros i Hi. apply (En i). unfold a. lia.
Qed.
End Binding.

Section TreeTheorems.
Context {H : Type} `{EqDecision H} (node : H -> H -> H) (zero : H).

(** C28: the branch of every hash of a tree exists, its path is the one [tree_path]
    gives for the hash's position, and checking the branch gives the root
    [tree_hash] computes, for every number of hashes up to 2^28. *)
Theorem tree_branch_verifies (hashes : list H) (h : H) :
  h ∈ hashes -> Z.of_nat (length hashes) <= 2 ^ 28 ->
  exists br path idx root,
    tree_branch node zero hashes h = Some (br, path) /\ hashes !! idx = Some h /\
    tree_path (length hashes) idx = Some path /\ tree_hash node zero hashes = Some root /\
    is_branch_in_tree node h root br path = true.
Proof.
  intros Hin Hlen. destruct (find_hash_in _ _ Hin) as [idx E].
  pose proof (find_hash_some _ _ _ E) as Hh. pose proof (lookup_lt_Some _ _ _ Hh) as Hlt.
  unfold tree_branch. rewrite E. destruct hashes as [|x [|y [|z l]]]; [done|..].
  - destruct idx; [|simpl in Hlt; lia]. injection Hh as ->. exists [], 0, O, h.
    unfold is_branch_in_tree. simpl. by rewrite bool_decide_eq_true_2.
  - simpl. exists [at_ zero [x; y] (if bool_decide (idx = 0)%nat then 1 else 0)%nat],
      (if bool_decide (idx = 0)%nat then 0 else 1), idx, (node x y).
    split_and!; [done..|]. unfold is_branch_in_tree.
    destruct idx as [|[|]]; simpl in Hlt, Hh; simplify_eq; by apply bool_decide_eq_true_2.
  - set (hs := x :: y :: z :: l) in *.
    destruct (big_tree node zero hs h idx) as (Ei & Hp & Hb); [|done|].
    { split; [unfold hs; simpl; lia|done]. }
    eexists _, _, idx, _. split; [reflexivity|]. split; [done|]. split; [|split; [reflexivity|]].
    + unfold hs at 1. cbn [length tree_path]. fold hs. f_equal.
      change (b_path ?s) with (position s).1.2. by rewrite branch_top_path, branch_levels_path, branch_leaf_path.
    + unfold is_branch_in_tree. apply bool_decide_eq_true_2. rewrite <- Ei. by apply top_on_path.
Qed.

(** A branch binds the leaf: two branches of one depth and path with the same
    root have the same leaf and the same siblings, or two different pairs of
    hashes with the same node hash are in hand. *)
Theorem branch_binding (h1 h2 root : H) (br1 br2 : list H) (path : Z) :
  length br1 = length br2 ->
  is_branch_in_tree node h1 root br1 path = true -> is_branch_in_tree node h2 root br2 path = true ->
  (h1 = h2 /\ br1 = br2) \/
  (exists a b c d, (a, b) <> (c, d) /\ node a b = node c d).
Proof.
  unfold is_branch_in_tree, tree_branch_hash. rewrite !bool_decide_eq_true. intros Hl <- E.
  rewrite <- Hl in E. revert E. generalize (Z.of_nat (length br1)) at 1 2 as depth, 0 as d.
  intros depth. revert br2 Hl h1 h2. induction br1 as [|x br1 IH]; intros [|y br2] Hl h1 h2 d E;
    simpl in Hl, E; [by left|done..|].
  apply IH in E; [|lia]. destruct E as [[E <-]|E]; [|by right].
  destruct (negb _).
  - destruct (decide ((y, h2) = (x, h1))) as [Eq|Ne]; [left; by simplify_eq|right; by eauto 8].
  - destruct (decide ((h2, y) = (h1, x))) as [Eq|Ne]; [left; by simplify_eq|right; by eauto 8].
Qed.
End TreeTheorems.

Lemma tree_hash_cnt_power_witness : tree_hash_cnt (2 ^ 3) = 4%nat.
Proof. apply (tree_hash_cnt_power 3). lia. Defined.

Lemma tree_branch_verifies_witness :
  exists br path idx root,
    tree_branch (fun a b => 10 * a + b + 1) 0 [1; 2; 3; 4; 5] 4 = Some (br, path) /\
    [1; 2; 3; 4; 5] !! idx = Some 4 /\ tree_path 5 idx = Some path /\
    tree_hash (fun a b => 10 * a + b + 1) 0 [1; 2; 3; 4; 5] = Some root /\
    is_branch_in_tree (fun a b => 10 * a + b + 1) 4 root br path = true.
Proof. apply (tree_branch_verifies (fun a b => 10 * a + b + 1) 0 [1; 2; 3; 4; 5] 4); [set_solver|simpl; lia]. Defined.

Lemma branch_binding_witness :
  (4 = 4 /\ [5; 3; 13] = [5; 3; 13]) \/
  (exists a b c d : Z, (a, b) <> (c, d) /\ 10 * a + b + 1 = 10 * c + d + 1).
Proof.
  apply (branch_binding (fun a b => 10 * a + b + 1) 4 4 208 [5; 3; 13] [5; 3; 13] 3);
    vm_compute; reflexivity.
Defined.
