(* ===== verification/MergeMining.v ===== *)
(** * Merge mining: src/cryptonote_basic/merge_mining.cpp

    The slot of an auxiliary chain in the tree of all of them, the path to it, and
    the number that carries the size of the tree and the nonce. SHA-256 is a
    parameter; words are little-endian. *)

From S2P Require Import Prelude IntUtil Radix TreeHash.

Definition HASH_KEY_MM_SLOT : Z := 109.

Inductive mm_error := N_aux_chains_zero | N_aux_chains_too_large | Slot_out_of_range | No_path.

Definition get_aux_slot (sha256sum : list Z -> list Z) (id : list Z) (nonce n_aux_chains : Z)
    : result mm_error Z :=
  if negb (0 <? n_aux_chains) then Throw N_aux_chains_zero
  else
    let buf := id ++ le_digits 256 4 nonce ++ [HASH_KEY_MM_SLOT] in
    let v := le_value 256 (take 4 (sha256sum buf)) in
    Ret (v mod n_aux_chains).

Definition get_path_from_aux_slot (slot n_aux_chains : Z) : result mm_error Z :=
  if negb (0 <? n_aux_chains) then Throw N_aux_chains_zero
  else if negb (slot <? n_aux_chains) then Throw Slot_out_of_range
  else
    match tree_path (Z.to_nat n_aux_chains) (Z.to_nat slot) with
    | Some path => Ret path
    | None => Throw No_path
    end.

(** [while ((1u << n_bits) < n_aux_chains) ++n_bits]; at most 256 chains need 8 bits. *)
Fixpoint bits_loop (fuel : nat) (n_bits n_aux_chains : Z) : Z :=
  match fuel with
  | O => n_bits
  | S fuel =>
      if u32 (Z.shiftl 1 n_bits) <? n_aux_chains then bits_loop fuel (n_bits + 1) n_aux_chains else n_bits
  end.

Definition encode_mm_depth (n_aux_chains nonce : Z) : result mm_error Z :=
  if negb (0 <? n_aux_chains) then Throw N_aux_chains_zero
  else if negb (n_aux_chains <=? 256) then Throw N_aux_chains_too_large
  else
    let n_bits := bits_loop 7 1 n_aux_chains in
    Ret (Z.lor (Z.lor (n_bits - 1) (u32 (Z.shiftl (n_aux_chains - 1) 3)))
           (u64 (Z.shiftl nonce (3 + n_bits)))).

(** [(n_aux_chains, nonce)] *)
Definition decode_mm_depth (depth : Z) : Z * Z :=
  let n_bits := 1 + Z.land depth 7 in
  (1 + Z.land (Z.shiftr depth 3) (Z.shiftl 1 n_bits - 1), u32 (Z.shiftr depth (3 + n_bits))).

Example mm_samples :
  (encode_mm_depth 1 0, encode_mm_depth 256 0xFFFFFFFF, encode_mm_depth 257 0,
   decode_mm_depth 0x7FFFFFFFFFF, get_path_from_aux_slot 3 5)
  = (Ret 0, Ret 0x7FFFFFFFFFF, Throw N_aux_chains_too_large, (256, 0xFFFFFFFF), Ret 3).
Proof. vm_compute. reflexivity. Qed.

(** The number of bits is the least one that holds [n - 1], and at least 1. *)
Lemma bits_loop_spec fuel b n :
  1 <= b -> b + Z.of_nat fuel <= 31 -> n <= 2 ^ (b + Z.of_nat fuel) ->
  let r := bits_loop fuel b n in b <= r <= b + Z.of_nat fuel /\ n <= 2 ^ r.
Proof.
  revert b. induction fuel as [|fuel IH]; intros b Hb Hf Hn; cbn [bits_loop]; [rewrite Z.add_0_r in Hn; lia|].
  rewrite Z.shiftl_1_l. unfold wrap.
  assert (2 ^ b < 2 ^ 32) by (apply Z.pow_lt_mono_r; lia). pose proof (Z.pow_pos_nonneg 2 b).
  rewrite Z.mod_small by lia. destruct (Z.ltb_spec (2 ^ b) n); [|split; lia].
  destruct (IH (b + 1)) as [Hr1 Hr2]; [lia|lia| |split; [lia|done]].
  by replace (b + 1 + Z.of_nat fuel) with (b + Z.of_nat (S fuel)) by lia.
Qed.

(** The three fields side by side *)
Lemma depth_fields n nonce :
  1 <= n <= 256 -> is_u32 nonce ->
  exists b, 1 <= b <= 8 /\ n <= 2 ^ b /\
    encode_mm_depth n nonce = Ret ((b - 1) + 8 * ((n - 1) + 2 ^ b * nonce)).
Proof.
  intros Hn Hnonce. assert (0 <= nonce < 2 ^ 32) as Hr by exact Hnonce.
  unfold encode_mm_depth. rewrite (proj2 (Z.ltb_lt 0 n)), (proj2 (Z.leb_le n 256)) by lia. cbn [negb].
  destruct (bits_loop_spec 7 1 n ltac:(lia) ltac:(lia) ltac:(change (2 ^ (1 + Z.of_nat 7)) with 256; lia))
    as [Hb1 Hb2].
  set (b := bits_loop 7 1 n) in *. exists b. split; [lia|]. split; [done|]. f_equal.
  pose proof (Z.pow_pos_nonneg 2 b ltac:(lia) ltac:(lia)) as Hp.
  assert (2 ^ b <= 2 ^ 8) as Hp8 by (apply Z.pow_le_mono_r; lia). change (2 ^ 8) with 256 in Hp8.
  assert (2 ^ (3 + b) = 8 * 2 ^ b) as E3 by (rewrite Z.pow_add_r by lia; done).
  assert (Z.shiftl (n - 1) 3 = (n - 1) * 8) as S1 by (by rewrite Z.shiftl_mul_pow2 by lia).
  assert (Z.shiftl nonce (3 + b) = nonce * (8 * 2 ^ b)) as S2 by (rewrite Z.shiftl_mul_pow2, E3 by lia; done).
  assert (u32 (Z.shiftl (n - 1) 3) = Z.shiftl (n - 1) 3) as -> by (unfold wrap; apply Z.mod_small; lia).
  assert (u64 (Z.shiftl nonce (3 + b)) = Z.shiftl nonce (3 + b)) as -> by (unfold wrap; apply Z.mod_small; nia).
  rewrite (Z.lor_comm (b - 1)), lor_add_low by (simpl; lia). change (2 ^ 3) with 8.
  rewrite Z.lor_comm, lor_add_low by lia. rewrite E3. lia.
Qed.

(** The size of the tree and the nonce are read back from the encoded depth, for
    every size from 1 to 256 and every nonce, and the number fits 64 bits; other
    sizes are refused. *)
Theorem mm_depth_roundtrip (n nonce : Z) :
  is_u32 n -> is_u32 nonce ->
  if (1 <=? n) && (n <=? 256) then
    exists depth, encode_mm_depth n nonce = Ret depth /\ is_u64 depth /\ decode_mm_depth depth = (n, nonce)
  else exists e, encode_mm_depth n nonce = Throw e.
Proof.
  intros Hn Hnonce. assert (0 <= nonce < 2 ^ 32) as Hr by exact Hnonce. assert (0 <= n) by apply Hn.
  destruct (Z.leb_spec 1 n), (Z.leb_spec n 256); cbn [andb]; unfold encode_mm_depth at 1.
  - destruct (depth_fields n nonce ltac:(lia) Hnonce) as (b & Hb & Hnb & E).
    exists ((b - 1) + 8 * ((n - 1) + 2 ^ b * nonce)). split; [exact E|].
    pose proof (Z.pow_pos_nonneg 2 b ltac:(lia) ltac:(lia)) as Hp.
    assert (2 ^ b <= 2 ^ 8) as Hp8 by (apply Z.pow_le_mono_r; lia). change (2 ^ 8) with 256 in Hp8.
    split; [unfold in_width; nia|]. unfold decode_mm_depth.
    change 7 with (2 ^ 3 - 1) at 1. change 7 with (2 ^ 3 - 1).
    rewrite land_ones_mod by lia. change (2 ^ 3) with 8.
    replace ((b - 1 + 8 * (n - 1 + 2 ^ b * nonce)) mod 8) with (b - 1)
      by (apply (Z.mod_unique_pos _ _ ((n - 1) + 2 ^ b * nonce)); lia).
    replace (1 + (b - 1)) with b by lia.
    rewrite Z.shiftl_1_l, land_ones_mod, !Z.shiftr_div_pow2, Z.pow_add_r by lia. change (2 ^ 3) with 8.
    rewrite <- Z.div_div by lia.
    replace ((b - 1 + 8 * (n - 1 + 2 ^ b * nonce)) / 8) with (n - 1 + 2 ^ b * nonce)
      by (apply (Z.div_unique_pos _ _ _ (b - 1)); lia).
    replace ((n - 1 + 2 ^ b * nonce) mod 2 ^ b) with (n - 1)
      by (apply (Z.mod_unique_pos _ _ nonce); lia).
    replace ((n - 1 + 2 ^ b * nonce) / 2 ^ b) with nonce
      by (apply (Z.div_unique_pos _ _ _ (n - 1)); lia).
    unfold wrap. rewrite Z.mod_small by lia. f_equal. lia.
  - exists N_aux_chains_too_large.
    by rewrite (proj2 (Z.ltb_lt 0 n)), (proj2 (Z.leb_gt n 256)) by lia.
  - exists N_aux_chains_zero. by rewrite (proj2 (Z.ltb_ge 0 n)) by lia.
  - exists N_aux_chains_zero. by rewrite (proj2 (Z.ltb_ge 0 n)) by lia.
Qed.

Lemma mm_depth_roundtrip_witness :
  exists depth, encode_mm_depth 5 77 = Ret depth /\ is_u64 depth /\ decode_mm_depth depth = (5, 77).
Proof. exact (mm_depth_roundtrip 5 77 ltac:(done) ltac:(done)). Defined.
