(* ===== verification/Checkpoints.v ===== *)
(** * Checkpoints: src/checkpoints/checkpoints.cpp

    The hashes blocks must have at given heights, compiled in or loaded at run time.
    [std::map] is a finite map; what the code does with its order (the greatest key,
    the greatest key up to a bound) is a search over the keys. The reading of a
    difficulty, the JSON file and the DNS resolver are parameters. *)

From S2P Require Import Prelude Hex Address JsNumber.

(** ** Keys in order *)

(** The greatest key of the map that satisfies [P] *)
Definition greatest {A} (P : Z -> bool) (m : gmap Z A) : option Z :=
  map_fold (fun k _ acc =>
    if P k then Some (match acc with Some b => Z.max b k | None => k end) else acc) None m.

(** ** The container *)

Abbreviation hash := (list Z).
Record checkpoints := Checkpoints {
  m_points : gmap Z hash;
  m_difficulty_points : gmap Z Z }.
Definition no_checkpoints : checkpoints := Checkpoints ∅ ∅.

Section Operations.
Context (difficulty_of_string : list Z -> option Z).

(** The result and the container; a failed test of the hash leaves it as it was, a
    failed test of the difficulty comes after the hash is stored. *)
Definition add_checkpoint (c : checkpoints) (height : Z) (hash_str difficulty_str : list Z)
    : bool * checkpoints :=
  match from_hex_to_buffer 32 hash_str with
  | None => (false, c)
  | Some h =>
      if match m_points c !! height with Some h' => negb (bool_decide (h = h')) | None => false end
      then (false, c)
      else
        let c := Checkpoints (<[height := h]> (m_points c)) (m_difficulty_points c) in
        if bool_decide (difficulty_str = []) then (true, c)
        else
          match difficulty_of_string difficulty_str with
          | None => (false, c)
          | Some difficulty =>
              if match m_difficulty_points c !! height with
                 | Some d => negb (bool_decide (difficulty = d))
                 | None => false
                 end
              then (false, c)
              else (true, Checkpoints (m_points c) (<[height := difficulty]> (m_difficulty_points c)))
          end
  end.

Definition is_in_checkpoint_zone (c : checkpoints) (height : Z) : bool :=
  match greatest (fun _ => true) (m_points c) with Some k => height <=? k | None => false end.

(** The result and [is_a_checkpoint] *)
Definition check_block (c : checkpoints) (height : Z) (h : hash) : bool * bool :=
  match m_points c !! height with
  | None => (true, false)
  | Some h' => (bool_decide (h' = h), true)
  end.

(** [upper_bound(blockchain_height)], then one step back *)
Definition is_alternative_block_allowed (c : checkpoints) (blockchain_height block_height : Z) : bool :=
  if block_height =? 0 then false
  else
    match greatest (fun k => k <=? blockchain_height) (m_points c) with
    | None => true
    | Some checkpoint_height => checkpoint_height <? block_height
    end.

Definition get_max_height (c : checkpoints) : Z := default 0 (greatest (fun _ => true) (m_points c)).

Definition get_nearest_checkpoint_height (c : checkpoints) (block_height : Z) : Z :=
  default 0 (greatest (fun k => k <=? block_height) (m_points c)).

Definition check_for_conflicts (c other : checkpoints) : bool :=
  bool_decide (map_Forall (fun k h => default h (m_points c !! k) = h) (m_points other)).

(** [ADD_CHECKPOINT] and [ADD_CHECKPOINT2] return [false] at the first failure. *)
Fixpoint add_all (c : checkpoints) (points : list (Z * list Z * list Z)) : bool * checkpoints :=
  match points with
  | [] => (true, c)
  | (height, hash_str, difficulty_str) :: points =>
      let '(ok, c) := add_checkpoint c height hash_str difficulty_str in
      if ok then add_all c points else (false, c)
  end.

Definition default_points (nettype : network_type) : list (Z * list Z * list Z) :=
  match nettype with
  | TESTNET =>
      [(0, str_bytes "48ca7cd3c8de5b6a4d53d2861fbdaedca141553559f9be9520068053cda8430b", str_bytes "0x1");
       (1000000, str_bytes "46b690b710a07ea051bc4a6b6842ac37be691089c0f7758cfeec4d5fc0b4a258", str_bytes "0x7aaad7153");
       (1058600, str_bytes "12904f6b4d9e60fd875674e07147d2c83d6716253f046af7b894c3e81da7e1bd", str_bytes "0x971efd119");
       (1450000, str_bytes "87562ca6786f41556b8d5b48067303a57dc5ca77155b35199aedaeca1550f5a0", str_bytes "0xa639e2930e")]
  | STAGENET =>
      [(0, str_bytes "76ee3cc98646292206cd3e86f74d88b4dcc1d937088645e9b0cbca84b7ce74eb", str_bytes "0x1");
       (10000, str_bytes "1f8b0ce313f8b9ba9a46108bfd285c45ad7c2176871fd41c3a690d4830ce2fd5", str_bytes "0x1d73ba");
       (550000, str_bytes "409f68cddd8e74b37469b41c1e61250d81c5776b42264f416d5d27c4626383ed", str_bytes "0x5f3d4d03e")]
  | _ =>
      [(0, str_bytes "d338b3caa6c110978eb2200eb4de398ada9f50bfa01c0c120c36817b22eabf15", str_bytes "0x1")]
  end.
Definition init_default_checkpoints (c : checkpoints) (nettype : network_type) : bool * checkpoints :=
  add_all c (default_points nettype).

(** ** Loading *)

(** [hashlines] is what the file holds: [None] when there is no file, [Some None] when
    it cannot be read. *)
Definition load_checkpoints_from_json (c : checkpoints) (file : option (option (list (Z * list Z))))
    : bool * checkpoints :=
  match file with
  | None => (true, c)
  | Some None => (false, c)
  | Some (Some hashlines) =>
      let prev_max_height := get_max_height c in
      add_all c ((fun p => (p.1, p.2, [])) <$> filter (fun p => (p.1 <=? prev_max_height) = false) hashlines)
  end.

Fixpoint skip_space (s : list Z) : list Z :=
  match s with c :: s' => if isspace c then skip_space s' else s | [] => [] end.

(** [ss >> height] for an unsigned 64-bit number: white space, an optional sign, the
    digits; no digits or a number beyond 64 bits is a failure. *)
Definition read_u64 (s : list Z) : option Z :=
  let '(neg, s) := take_sign (skip_space s) in
  match span_digits s with
  | ([], _) => None
  | (ds, _) =>
      let v := dec_value ds in
      if v <? 2 ^ 64 then Some (if neg then u64 (- v) else v) else None
  end.

(** The text before and after the first colon *)
Fixpoint split_colon (s : list Z) : option (list Z * list Z) :=
  match s with
  | [] => None
  | c :: s => if c =? 58 then Some ([], s) else (fun p => (c :: p.1, p.2)) <$> split_colon s
  end.

(** The height and the hash of a DNS record, or [None] to move on to the next one *)
Definition parse_record (record : list Z) : option (Z * list Z) :=
  '(before, hashStr) ← split_colon record;
  height ← read_u64 before;
  _ ← from_hex_to_buffer 32 hashStr;
  Some (height, hashStr).

(** [records] is [None] when the resolver fails. *)
Definition load_checkpoints_from_dns (c : checkpoints) (records : option (list (list Z)))
    : bool * checkpoints :=
  match records with
  | None => (true, c)
  | Some records => add_all c ((fun p => (p.1, p.2, [])) <$> omap parse_record records)
  end.

Definition load_new_checkpoints (c : checkpoints) (file : option (option (list (Z * list Z))))
    (dns : bool) (records : option (list (list Z))) : bool * checkpoints :=
  let '(result, c) := load_checkpoints_from_json c file in
  if dns then let '(r, c) := load_checkpoints_from_dns c records in (result && r, c) else (result, c).
End Operations.

(** ** Keys in order *)

Lemma greatest_spec {A} (P : Z -> bool) (m : gmap Z A) :
  match greatest P m with
  | Some k => P k = true /\ is_Some (m !! k) /\ forall j, is_Some (m !! j) -> P j = true -> j <= k
  | None => forall j, is_Some (m !! j) -> P j = false
  end.
Proof.
  unfold greatest. apply (map_fold_weak_ind (fun r m =>
    match r with
    | Some k => P k = true /\ is_Some (m !! k) /\ forall j, is_Some (m !! j) -> P j = true -> j <= k
    | None => forall j, is_Some (m !! j) -> P j = false
    end)).
  - intros j [x Hx]. by rewrite lookup_empty in Hx.
  - intros i x m' r Hi IH.
    assert (forall j, is_Some (<[i:=x]> m' !! j) <-> j = i \/ is_Some (m' !! j)) as Hins.
    { intros j. rewrite lookup_insert_is_Some'. naive_solver. }
    destruct (P i) eqn:HP; [destruct r as [k|]|destruct r as [k|]].
    + destruct IH as (H1 & H2 & H3). split_and!.
      * by destruct (Z.max_spec k i) as [[_ ->]|[_ ->]].
      * rewrite Hins. destruct (Z.max_spec k i) as [[_ ->]|[_ ->]]; auto.
      * intros j [->|Hj]%Hins Pj; [lia|]. specialize (H3 j Hj Pj). lia.
    + split_and!; [done|apply Hins; by left|]. intros j [->|Hj]%Hins Pj; [done|]. by rewrite IH in Pj.
    + destruct IH as (H1 & H2 & H3). split_and!; [done|apply Hins; by right|].
      intros j [->|Hj]%Hins Pj; [congruence|by apply H3].
    + intros j [->|Hj]%Hins; [done|by apply IH].
Qed.

(** Below the tip, an alternative block is allowed exactly when it is not the
    genesis block and there is no checkpoint from its height up to the height of the
    chain: no reorganisation reaches a checkpoint already passed. *)
Theorem alternative_block_spec (c : checkpoints) (blockchain_height block_height : Z) :
  is_alternative_block_allowed c blockchain_height block_height = true <->
  block_height <> 0 /\
  forall k, is_Some (m_points c !! k) -> k <= blockchain_height -> k < block_height.
Proof.
  unfold is_alternative_block_allowed. destruct (Z.eqb_spec block_height 0); [split; [done|by intros []]|].
  pose proof (greatest_spec (fun k => k <=? blockchain_height) (m_points c)) as Hg.
  destruct (greatest _ _) as [g|].
  - destruct Hg as (Hg1 & Hg2 & Hg3). apply Z.leb_le in Hg1. rewrite Z.ltb_lt. split.
    + intros Hlt. split; [done|]. intros k Hk Hle. specialize (Hg3 k Hk ltac:(by apply Z.leb_le)). lia.
    + intros [_ Hk]. by apply Hk.
  - split; [|done]. intros _. split; [done|]. intros k Hk Hle.
    specialize (Hg k Hk). cbv beta in Hg. apply Z.leb_gt in Hg. lia.
Qed.

(** ** The container only grows *)

Definition extends (c c' : checkpoints) : Prop :=
  m_points c ⊆ m_points c' /\ m_difficulty_points c ⊆ m_difficulty_points c'.
#[global] Instance extends_preorder : PreOrder extends.
Proof. split; [by split|]. intros c1 c2 c3 [A1 A2] [B1 B2]. split; by etrans. Qed.

Lemma insert_agrees {A} `{EqDecision A} (m : gmap Z A) k x :
  match m !! k with Some y => negb (bool_decide (x = y)) | None => false end = false -> m ⊆ <[k := x]> m.
Proof.
  intros Hk. destruct (m !! k) as [y|] eqn:E; [|by apply insert_subseteq].
  apply negb_false_iff, bool_decide_eq_true in Hk as ->. by rewrite insert_id.
Qed.

Section Growth.
Context (difficulty_of_string : list Z -> option Z).
Notation add_checkpoint := (add_checkpoint difficulty_of_string).
Notation add_all := (add_all difficulty_of_string).

Lemma add_checkpoint_extends c height hash_str difficulty_str :
  extends c (add_checkpoint c height hash_str difficulty_str).2.
Proof.
  unfold Checkpoints.add_checkpoint. destruct (from_hex_to_buffer 32 hash_str) as [h|]; [|done].
  destruct (match m_points c !! height with Some _ => _ | None => _ end) eqn:Hp; [done|].
  pose proof (insert_agrees _ _ _ Hp) as Hi.
  case_bool_decide; [by split|]. destruct (difficulty_of_string _) as [d|]; [|by split]. simpl.
  destruct (match m_difficulty_points c !! height with Some _ => _ | None => _ end) eqn:Hd; [by split|].
  split; [done|]. by apply insert_agrees.
Qed.

Lemma add_checkpoint_stores c height hash_str difficulty_str h :
  from_hex_to_buffer 32 hash_str = Some h -> (add_checkpoint c height hash_str difficulty_str).1 = true ->
  m_points (add_checkpoint c height hash_str difficulty_str).2 !! height = Some h.
Proof.
  unfold Checkpoints.add_checkpoint. intros ->.
  destruct (match m_points c !! height with Some _ => _ | None => _ end); [done|].
  case_bool_decide; simpl; [by rewrite lookup_insert_eq|]. destruct (difficulty_of_string _); [|done].
  destruct (match _ !! _ with Some _ => _ | None => _ end); [done|]. simpl. by rewrite lookup_insert_eq.
Qed.

Lemma add_all_extends c points : extends c (add_all c points).2.
Proof.
  revert c. induction points as [|[[height hs] ds] points IH]; intros c; [done|]. simpl.
  pose proof (add_checkpoint_extends c height hs ds) as H1.
  destruct (Checkpoints.add_checkpoint _ c height hs ds) as [[] c1]; [|done]. simpl in H1. etrans; [done|apply IH].
Qed.

Lemma add_all_stores c points height hs ds h :
  (add_all c points).1 = true -> (height, hs, ds) ∈ points -> from_hex_to_buffer 32 hs = Some h ->
  m_points (add_all c points).2 !! height = Some h.
Proof.
  revert c. induction points as [|[[height' hs'] ds'] points IH]; intros c Hok Hin Hh; [by apply elem_of_nil in Hin|].
  simpl in Hok |- *. pose proof (add_checkpoint_stores c height' hs' ds') as Hs.
  destruct (Checkpoints.add_checkpoint _ c height' hs' ds') as [[] c1]; [|done]. simpl in Hs.
  apply elem_of_cons in Hin as [Hin|Hin]; [|by apply IH]. simplify_eq.
  eapply lookup_weaken; [by apply Hs|]. apply (add_all_extends c1 points).
Qed.
End Growth.

(** Loading checkpoints at run time, from whatever file and DNS records, keeps
    every checkpoint and every difficulty there is; a block that was refused stays
    refused. *)
Theorem loading_keeps_checkpoints difficulty_of_string (c : checkpoints) file dns records :
  let c' := (load_new_checkpoints difficulty_of_string c file dns records).2 in
  extends c c' /\
  forall height h, check_block c height h = (false, true) -> check_block c' height h = (false, true).
Proof.
  intros c'. assert (extends c c') as He.
  { unfold c', load_new_checkpoints, load_checkpoints_from_json, load_checkpoints_from_dns.
    destruct file as [[lines|]|], dns, records as [records|]; try done;
      repeat match goal with |- context [add_all ?d ?c0 ?ps] =>
        let H := fresh "H" in pose proof (add_all_extends d c0 ps) as H;
        destruct (add_all d c0 ps) as [? ?]; simpl in H end; simpl; try done; by etrans. }
  split; [done|]. intros height h. unfold check_block.
  destruct (m_points c !! height) as [h'|] eqn:E; [|done].
  by rewrite (lookup_weaken _ _ _ _ E (proj1 He)).
Qed.

(** After a successful load from DNS every well-formed record is enforced: at its
    height only a block with its hash passes the check. *)
Theorem dns_records_enforced difficulty_of_string (c : checkpoints) (records : list (list Z))
    (record : list Z) (height : Z) (hashStr : list Z) (h : hash) :
  (load_checkpoints_from_dns difficulty_of_string c (Some records)).1 = true ->
  record ∈ records -> parse_record record = Some (height, hashStr) ->
  from_hex_to_buffer 32 hashStr = Some h ->
  forall h', check_block (load_checkpoints_from_dns difficulty_of_string c (Some records)).2 height h'
             = (bool_decide (h = h'), true).
Proof.
  intros Hok Hin Hp Hh h'. unfold check_block. simpl in *.
  rewrite (add_all_stores _ _ _ height hashStr [] h Hok); [done| |done].
  apply list_elem_of_fmap. exists (height, hashStr). split; [done|]. apply list_elem_of_omap. eauto.
Qed.

(** On the main network the only compiled checkpoint is the genesis block. *)
Lemma mainnet_default_checkpoints difficulty_of_string :
  difficulty_of_string (str_bytes "0x1") = Some 1 ->
  let r := init_default_checkpoints difficulty_of_string no_checkpoints MAINNET in
  r.1 = true /\ forall k, is_Some (m_points r.2 !! k) <-> k = 0.
Proof.
  intros Hd r. unfold r, init_default_checkpoints, default_points, add_all, add_checkpoint.
  replace (from_hex_to_buffer 32 _) with
    (Some [211; 56; 179; 202; 166; 193; 16; 151; 142; 178; 32; 14; 180; 222; 57; 138; 218; 159; 80; 191; 160; 28;
           12; 18; 12; 54; 129; 123; 34; 234; 191; 21]) by (vm_compute; reflexivity).
  rewrite Hd. cbn [m_points m_difficulty_points no_checkpoints]. rewrite !lookup_empty.
  rewrite bool_decide_eq_false_2 by done. cbn [fst snd m_points].
  split; [done|]. intros k. rewrite lookup_insert_is_Some', lookup_empty.
  split; [intros [<-|[? ?]]; done|by left].
Qed.

(** ** Witnesses *)

Definition demo_hash_text : list Z :=
  str_bytes "d338b3caa6c110978eb2200eb4de398ada9f50bfa01c0c120c36817b22eabf15".
Definition demo_record : list Z := str_bytes "100:" ++ demo_hash_text.

Lemma dns_records_enforced_witness :
  check_block (load_checkpoints_from_dns (fun _ => None) no_checkpoints (Some [demo_record])).2 100 []
  = (false, true).
Proof.
  refine (dns_records_enforced (fun _ => None) no_checkpoints [demo_record] demo_record 100
            demo_hash_text (default [] (from_hex_to_buffer 32 demo_hash_text)) _ _ _ _ []);
    [by vm_compute|by left|by vm_compute|by vm_compute].
Defined.
