(* ===== verification/BlockQueue.v ===== *)
(** * The queue of blocks to download: core/src/cryptonote_protocol/block_queue.cpp

    While it catches up a node asks its peers for spans of blocks. The queue keeps the
    spans that were asked for and those that arrived, ordered by height, with the hashes
    that were asked for and the hashes of the blocks it holds. [std::set<span>] is a list
    sorted by the key of [operator<], the height of the first block, in which an insertion
    does nothing when the key is there. The entries of blocks, addresses, rates and times
    are passed through and are arguments; the averages of rates are left out. *)

From stdpp Require Import sorting.
From S2P Require Import Prelude Pruning.

Section Queue.
Context {hash : Type} `{Countable hash} (null_hash : hash).
Context {uuid : Type} `{EqDecision uuid}.
Context {block_complete_entry network_address rate ptime : Type}.
Context (zero_rate : rate) (min_date_time : ptime).

Record span := {
  start_block_height : Z;
  hashes : list hash;
  sp_blocks : list block_complete_entry;
  connection_id : uuid;
  nblocks : Z;
  sp_rate : rate;
  sp_size : Z;
  sp_time : ptime;
  origin : network_address }.

Definition filled_span (height : Z) (bcel : list block_complete_entry) (conn : uuid)
    (addr : network_address) (r : rate) (size : Z) : span :=
  {| start_block_height := height; hashes := []; sp_blocks := bcel; connection_id := conn;
     nblocks := Z.of_nat (length bcel); sp_rate := r; sp_size := size; sp_time := min_date_time; origin := addr |}.
Definition scheduled_span (height n : Z) (conn : uuid) (addr : network_address) (t : ptime) : span :=
  {| start_block_height := height; hashes := []; sp_blocks := []; connection_id := conn; nblocks := n;
     sp_rate := zero_rate; sp_size := 0; sp_time := t; origin := addr |}.

Definition with_hashes (s : span) (hs : list hash) : span :=
  {| start_block_height := start_block_height s; hashes := hs; sp_blocks := sp_blocks s;
     connection_id := connection_id s; nblocks := nblocks s; sp_rate := sp_rate s; sp_size := sp_size s;
     sp_time := sp_time s; origin := origin s |}.
Definition with_time (s : span) (t : ptime) : span :=
  {| start_block_height := start_block_height s; hashes := hashes s; sp_blocks := sp_blocks s;
     connection_id := connection_id s; nblocks := nblocks s; sp_rate := sp_rate s; sp_size := sp_size s;
     sp_time := t; origin := origin s |}.

(** [blocks.empty()] of a span *)
Definition is_scheduled (s : span) : bool := match sp_blocks s with [] => true | _ => false end.

Record block_queue := {
  blocks : list span;
  requested_hashes : gset hash;
  have_blocks : gmap hash Z }.

Definition empty_queue : block_queue := {| blocks := []; requested_hashes := ∅; have_blocks := ∅ |}.

Definition with_blocks (q : block_queue) (l : list span) : block_queue :=
  {| blocks := l; requested_hashes := requested_hashes q; have_blocks := have_blocks q |}.

(** [std::set<span>::insert] *)
Fixpoint set_insert (s : span) (l : list span) : list span :=
  match l with
  | [] => [s]
  | t :: l' =>
      if start_block_height s <? start_block_height t then s :: l
      else if start_block_height t <? start_block_height s then t :: set_insert s l'
      else l
  end.

Fixpoint forget (hs : list hash) (q : block_queue) : block_queue :=
  match hs with
  | [] => q
  | h :: hs =>
      forget hs {| blocks := blocks q; requested_hashes := requested_hashes q ∖ {[h]};
                   have_blocks := delete h (have_blocks q) |}
  end.

(** [j] is the iterator on the span that is given. *)
Definition erase_block (j : span) (q : block_queue) : block_queue :=
  let q := forget (hashes j) q in
  with_blocks q (filter (fun s => start_block_height s <> start_block_height j) (blocks q)).

(** The loops that walk over the set and erase some spans *)
Fixpoint erase_loop (cond : span -> bool) (rest : list span) (q : block_queue) : block_queue :=
  match rest with
  | [] => q
  | j :: rest => erase_loop cond rest (if cond j then erase_block j q else q)
  end.

Definition flush_spans (conn : uuid) (all : bool) (q : block_queue) : block_queue :=
  erase_loop (fun j => bool_decide (connection_id j = conn) && (all || is_scheduled j)) (blocks q) q.

Definition flush_stale_spans (live_connections : list uuid) (q : block_queue) : block_queue :=
  erase_loop (fun j => is_scheduled j && negb (bool_decide (connection_id j ∈ live_connections))) (blocks q) q.

Definition remove_spans (conn : uuid) (height : Z) (q : block_queue) : block_queue :=
  erase_loop (fun j => bool_decide (connection_id j = conn) && (start_block_height j <=? height)) (blocks q) q.

(** The hashes of the span that was removed, [None] when there was none *)
Definition remove_span (height : Z) (q : block_queue) : option (list hash) * block_queue :=
  match List.find (fun i => start_block_height i =? height) (blocks q) with
  | Some i => (Some (hashes i), erase_block i q)
  | None => (None, q)
  end.

Fixpoint insert_requested (hs : list hash) (q : block_queue) : block_queue :=
  match hs with
  | [] => q
  | h :: hs =>
      insert_requested hs {| blocks := blocks q; requested_hashes := {[h]} ∪ requested_hashes q;
                             have_blocks := have_blocks q |}
  end.

Definition set_span_hashes (start_height : Z) (conn : uuid) (hs : list hash) (q : block_queue) : block_queue :=
  match List.find (fun i => (start_block_height i =? start_height) && bool_decide (connection_id i = conn)) (blocks q) with
  | Some i =>
      let s := with_hashes i hs in
      let q := insert_requested hs (erase_block i q) in
      with_blocks q (set_insert s (blocks q))
  | None => q
  end.

(** [std::unordered_map::emplace] keeps what is there. *)
Definition emplace (h : hash) (v : Z) (m : gmap hash Z) : gmap hash Z :=
  match m !! h with Some _ => m | None => <[h := v]> m end.

(** The loop of [add_blocks] from hash number [i] on *)
Fixpoint note_hashes (height : Z) (i : nat) (hs : list hash) (q : block_queue) : block_queue :=
  match hs with
  | [] => q
  | h :: hs =>
      note_hashes height (S i) hs
        {| blocks := blocks q; requested_hashes := {[h]} ∪ requested_hashes q;
           have_blocks := emplace h (u64 (height + Z.of_nat i)) (have_blocks q) |}
  end.

(** The overload for blocks that arrived *)
Definition add_blocks (height : Z) (bcel : list block_complete_entry) (conn : uuid) (addr : network_address)
    (r : rate) (size : Z) (q : block_queue) : block_queue :=
  let '(hs, q) := remove_span height q in
  let q := with_blocks q (set_insert (filled_span height bcel conn addr r size) (blocks q)) in
  match hs with
  | Some hs => set_span_hashes height conn hs (note_hashes height 0 hs q)
  | None => q
  end.

(** The overload for blocks that are asked for; [None] is the exception for no blocks. *)
Definition add_blocks_scheduled (height n : Z) (conn : uuid) (addr : network_address) (t : ptime)
    (q : block_queue) : option block_queue :=
  if negb (0 <? n) then None
  else Some (with_blocks q (set_insert (scheduled_span height n conn addr t) (blocks q))).

Definition get_max_block_height (q : block_queue) : Z :=
  foldl (fun height s =>
           let h := u64 (u64 (start_block_height s + nblocks s) - 1) in
           if height <? h then h else height) 0 (blocks q).

Fixpoint needed_loop (blockchain_height covered_until : Z) (l : list span) : Z :=
  match l with
  | [] => covered_until
  | s :: l =>
      let span_end := u64 (u64 (start_block_height s + nblocks s) - 1) in
      if span_end <? blockchain_height then needed_loop blockchain_height covered_until l
      else if covered_until <? start_block_height s then covered_until
      else
        needed_loop blockchain_height
          (if start_block_height s <=? covered_until
           then Z.max covered_until (u64 (start_block_height s + nblocks s)) else covered_until) l
  end.

Definition get_next_needed_height (blockchain_height : Z) (q : block_queue) : Z :=
  match blocks q with
  | [] => blockchain_height
  | l => needed_loop blockchain_height blockchain_height l
  end.

Definition requested (h : hash) (q : block_queue) : bool := bool_decide (h ∈ requested_hashes q).
Definition have (h : hash) (q : block_queue) : bool := bool_decide (is_Some (have_blocks q !! h)).
Definition have_height (h : hash) (q : block_queue) : Z := default UINT64_MAX (have_blocks q !! h).

(** The loops of [reserve_span] that skip what was asked for: what is left, and
    the height of its first block *)
Fixpoint skip_requested (q : block_queue) (i : list (hash * Z)) (span_start_height : Z) : list (hash * Z) * Z :=
  match i with
  | [] => (i, span_start_height)
  | x :: i' => if requested x.1 q then skip_requested q i' (u64 (span_start_height + 1)) else (i, span_start_height)
  end.

(** The last loop of [reserve_span]: the hashes taken *)
Fixpoint take_hashes (sync_pruned_blocks first_is_pruned : bool) (local_pruning_seed pruning_seed blockchain_height
    max_blocks span_start_height : Z) (i : list (hash * Z)) (span_length : Z) (hs : list hash) : Z * list hash :=
  match i with
  | [] => (span_length, hs)
  | x :: i =>
      let height := u64 (span_start_height + span_length) in
      if (span_length <? max_blocks)
         && (sync_pruned_blocks || has_unpruned_block height blockchain_height pruning_seed)
      then
        if sync_pruned_blocks && eqb first_is_pruned (has_unpruned_block height blockchain_height local_pruning_seed)
        then (span_length, hs)
        else take_hashes sync_pruned_blocks first_is_pruned local_pruning_seed pruning_seed blockchain_height
               max_blocks span_start_height i (u64 (span_length + 1)) (hs ++ [x.1])
      else (span_length, hs)
  end.

(** The start is moved to the part of the chain that the peer keeps, when that comes next. *)
Definition start_for_peer (sync_pruned_blocks : bool) (pruning_seed blockchain_height span_start_height : Z) : Z :=
  if negb sync_pruned_blocks then
    let next_unpruned_height :=
      u32 (get_next_unpruned_block_height span_start_height blockchain_height pruning_seed) in
    if (span_start_height <? next_unpruned_height)
       && (next_unpruned_height <? u64 (span_start_height + CRYPTONOTE_PRUNING_STRIPE_SIZE))
    then next_unpruned_height else span_start_height
  else span_start_height.

Definition nothing (q : block_queue) : option (Z * Z * block_queue) := Some (0, 0, q).

Definition reserve_span (first_block_height last_block_height max_blocks : Z) (conn : uuid) (addr : network_address)
    (sync_pruned_blocks : bool) (local_pruning_seed pruning_seed blockchain_height : Z)
    (block_hashes : list (hash * Z)) (time : ptime) (q : block_queue) : option (Z * Z * block_queue) :=
  if (last_block_height <? first_block_height) || (max_blocks =? 0) then nothing q
  else
    let size := Z.of_nat (length block_hashes) in
    if last_block_height <? size then nothing q
    else
      let block_hashes_start_height := u64 (u64 (last_block_height - size) + 1) in
      let '(_, span_start_height) := skip_requested q block_hashes block_hashes_start_height in
      let span_start_height := start_for_peer sync_pruned_blocks pruning_seed blockchain_height span_start_height in
      if u64 (size + block_hashes_start_height) <=? span_start_height then nothing q
      else
        let i := drop (Z.to_nat (span_start_height - block_hashes_start_height)) block_hashes in
        let '(i, span_start_height) := skip_requested q i span_start_height in
        let first_is_pruned :=
          sync_pruned_blocks && negb (has_unpruned_block span_start_height blockchain_height local_pruning_seed) in
        let '(span_length, hs) :=
          take_hashes sync_pruned_blocks first_is_pruned local_pruning_seed pruning_seed blockchain_height
            max_blocks span_start_height i 0 [] in
        if span_length =? 0 then nothing q
        else
          q ← add_blocks_scheduled span_start_height span_length conn addr time q;
          Some (span_start_height, span_length, set_span_hashes span_start_height conn hs q).

(** ** What the front of the queue says *)

(** Start, length, hashes, connection and time; [None] stands for the pair of zeros. *)
Definition get_next_span_if_scheduled (q : block_queue) : option (Z * Z * list hash * uuid * ptime) :=
  match blocks q with
  | i :: _ => if negb (is_scheduled i) then None
              else Some (start_block_height i, nblocks i, hashes i, connection_id i, sp_time i)
  | [] => None
  end.

Definition reset_next_span_time (t : ptime) (q : block_queue) : block_queue :=
  match blocks q with
  | i :: l => if is_scheduled i then with_blocks q (with_time i t :: l) else q
  | [] => q
  end.

Fixpoint next_span_loop (filled : bool) (l : list span)
  : option (Z * list block_complete_entry * uuid * network_address) :=
  match l with
  | [] => None
  | i :: l => if negb filled || negb (is_scheduled i)
              then Some (start_block_height i, sp_blocks i, connection_id i, origin i)
              else next_span_loop filled l
  end.
Definition get_next_span (filled : bool) (q : block_queue) := next_span_loop filled (blocks q).

Definition has_next_span_of (conn : uuid) (q : block_queue) : option (bool * ptime) :=
  match blocks q with
  | i :: _ => if negb (bool_decide (connection_id i = conn)) then None else Some (negb (is_scheduled i), sp_time i)
  | [] => None
  end.

Definition has_next_span (height : Z) (q : block_queue) : option (bool * ptime * uuid) :=
  match blocks q with
  | i :: _ => if height <? start_block_height i then None
              else Some (negb (is_scheduled i), sp_time i, connection_id i)
  | [] => None
  end.

Definition get_data_size (q : block_queue) : Z := foldl (fun size s => u64 (size + sp_size s)) 0 (blocks q).

Fixpoint filled_prefix (l : list span) (size : Z) : Z :=
  match l with
  | [] => size
  | i :: l => if negb (is_scheduled i) then filled_prefix l (u64 (size + 1)) else size
  end.
Definition get_num_filled_spans_prefix (q : block_queue) : Z := filled_prefix (blocks q) 0.
Definition get_num_filled_spans (q : block_queue) : Z :=
  foldl (fun size s => if negb (is_scheduled s) then u64 (size + 1) else size) 0 (blocks q).

(** [None] is the read of [back()] of an empty vector. *)
Fixpoint last_known_loop (conn : uuid) (l : list span) (h0 : hash) (highest_height : Z) : option hash :=
  match l with
  | [] => Some h0
  | s :: l =>
      if negb (bool_decide (connection_id s = conn)) then last_known_loop conn l h0 highest_height
      else
        let h := u64 (u64 (start_block_height s + nblocks s) - 1) in
        if (highest_height <? h) && (Z.of_nat (length (hashes s)) =? nblocks s)
        then b ← last (hashes s); last_known_loop conn l b h
        else last_known_loop conn l h0 highest_height
  end.
Definition get_last_known_hash (conn : uuid) (q : block_queue) : option hash :=
  last_known_loop conn (blocks q) null_hash 0.

Definition has_spans (conn : uuid) (q : block_queue) : bool :=
  existsb (fun s => bool_decide (connection_id s = conn)) (blocks q).

(** ** The set of spans *)

Definition before (s t : span) : Prop := start_block_height s < start_block_height t.
Notation sorted := (StronglySorted before).

(** No span of the list starts at this height. *)
Definition free (l : list span) (height : Z) : Prop := forall t, t ∈ l -> start_block_height t <> height.

Lemma sorted_unique l s t :
  sorted l -> s ∈ l -> t ∈ l -> start_block_height s = start_block_height t -> s = t.
Proof.
  induction 1 as [|u l _ IH Hu]; [set_solver|]. rewrite !elem_of_cons. unfold before in Hu. rewrite Forall_forall in Hu.
  intros [->|Hs] [->|Ht] E; [done| | |by apply IH].
  - specialize (Hu _ Ht). lia.
  - specialize (Hu _ Hs). lia.
Qed.

Lemma set_insert_old s l t : t ∈ l -> t ∈ set_insert s l.
Proof. induction l as [|u l IH]; cbn [set_insert]; [set_solver|]. repeat case_match; set_solver. Qed.

Lemma set_insert_elem s l t : t ∈ set_insert s l -> t ∈ l \/ t = s.
Proof. induction l as [|u l IH]; cbn [set_insert]; [set_solver|]. repeat case_match; set_solver. Qed.

Lemma set_insert_new s l : free l (start_block_height s) -> s ∈ set_insert s l.
Proof.
  induction l as [|u l IH]; cbn [set_insert]; intros Hf; [set_solver|].
  cases_cmp; [set_solver| |].
  - right. apply IH. intros t Ht. apply Hf. by right.
  - exfalso. apply (Hf u); [by left|lia].
Qed.

Lemma set_insert_taken s l t :
  sorted l -> t ∈ l -> start_block_height t = start_block_height s -> set_insert s l = l.
Proof.
  induction 1 as [|u l _ IH Hu]; [set_solver|]. cbn [set_insert]. rewrite elem_of_cons.
  unfold before in Hu. rewrite Forall_forall in Hu. intros [->|Ht] E; cases_cmp; try lia; try done.
  - specialize (Hu _ Ht). lia.
  - by rewrite IH.
Qed.

Lemma set_insert_sorted s l : sorted l -> sorted (set_insert s l).
Proof.
  induction 1 as [|u l Hl IH Hu]; cbn [set_insert]; [by repeat constructor|].
  pose proof Hu as Hu'. rewrite Forall_forall in Hu'. unfold before in Hu'. cases_cmp.
  - repeat constructor; [done..|]. apply Forall_forall. intros t Ht. specialize (Hu' _ Ht). unfold before. lia.
  - constructor; [done|]. apply Forall_forall. intros t [Ht| ->]%set_insert_elem; [by apply Hu'|done].
  - by constructor.
Qed.

Lemma sorted_filter (P : span -> Prop) `{forall x, Decision (P x)} l : sorted l -> sorted (filter P l).
Proof.
  induction 1 as [|u l _ IH Hu]; [by constructor|].
  destruct (decide (P u)); [rewrite filter_cons_True by done; constructor; [done|by apply Forall_filter]|].
  by rewrite filter_cons_False.
Qed.

(** ** The elementary operations *)

Lemma forget_blocks hs q : blocks (forget hs q) = blocks q.
Proof. revert q. induction hs as [|h hs IH]; intros q; [done|]. cbn. by rewrite IH. Qed.

Lemma forget_requested hs q h : h ∈ requested_hashes (forget hs q) <-> h ∈ requested_hashes q /\ h ∉ hs.
Proof. revert q. induction hs as [|x hs IH]; intros q; cbn; [set_solver|]. rewrite IH. cbn. set_solver. Qed.

Lemma forget_have hs q h : h ∉ hs -> have_blocks (forget hs q) !! h = have_blocks q !! h.
Proof.
  revert q. induction hs as [|x hs IH]; intros q Hh; cbn; [done|].
  rewrite IH by set_solver. cbn. apply lookup_delete_ne. set_solver.
Qed.

Lemma forget_have_gone hs q h k : have_blocks (forget hs q) !! h = Some k -> have_blocks q !! h = Some k /\ h ∉ hs.
Proof.
  revert q. induction hs as [|x hs IH]; intros q Hh; cbn in *; [set_solver|].
  apply IH in Hh as [Hh Hn]. cbn in Hh. apply lookup_delete_Some in Hh. set_solver.
Qed.

Lemma erase_block_elem j q t :
  t ∈ blocks (erase_block j q) <-> t ∈ blocks q /\ start_block_height t <> start_block_height j.
Proof. unfold erase_block. cbn. rewrite forget_blocks, list_elem_of_filter. tauto. Qed.

Lemma insert_requested_blocks hs q : blocks (insert_requested hs q) = blocks q.
Proof. revert q. induction hs as [|h hs IH]; intros q; [done|]. cbn. by rewrite IH. Qed.
Lemma insert_requested_have hs q : have_blocks (insert_requested hs q) = have_blocks q.
Proof. revert q. induction hs as [|h hs IH]; intros q; [done|]. cbn. by rewrite IH. Qed.
Lemma insert_requested_elem hs q h :
  h ∈ requested_hashes (insert_requested hs q) <-> h ∈ hs \/ h ∈ requested_hashes q.
Proof. revert q. induction hs as [|x hs IH]; intros q; cbn; [set_solver|]. rewrite IH. cbn. set_solver. Qed.

Lemma note_hashes_blocks height i hs q : blocks (note_hashes height i hs q) = blocks q.
Proof. revert i q. induction hs as [|h hs IH]; intros i q; [done|]. cbn. by rewrite IH. Qed.

(** ** The invariant *)

(** [E] are hashes that are noted before the span at [height] has them. *)
Record wf_upto (E : list hash) (height : Z) (q : block_queue) : Prop := {
  wf_sorted : sorted (blocks q);
  wf_requested h : h ∈ requested_hashes q -> h ∈ E \/ exists s, s ∈ blocks q /\ h ∈ hashes s;
  wf_have h k : have_blocks q !! h = Some k ->
    (exists i, E !! i = Some h /\ k = u64 (height + Z.of_nat i)) \/
    exists s i, s ∈ blocks q /\ is_scheduled s = false /\ hashes s !! i = Some h /\
                k = u64 (start_block_height s + Z.of_nat i);
  wf_span s : s ∈ blocks q -> is_u64 (start_block_height s) /\ 0 < nblocks s }.
Notation wf := (wf_upto [] 0).

Lemma wf_weaken E height q : wf q -> wf_upto E height q.
Proof.
  intros [Hs Hr Hh Hp]. constructor; [done| |..|done].
  - intros h Hq. destruct (Hr h Hq) as [?|?]; [set_solver|by right].
  - intros h k Hq. destruct (Hh h k Hq) as [(i & ? & _)|?]; [done|by right].
Qed.

Lemma empty_wf : wf empty_queue.
Proof. constructor; cbn; [constructor|set_solver..]. Qed.

Lemma erase_block_wf j q : wf q -> j ∈ blocks q -> wf (erase_block j q).
Proof.
  intros [Hs Hr Hh Hp] Hj.
  assert (forall s h, s ∈ blocks q -> h ∈ hashes s -> h ∉ hashes j -> s ∈ blocks (erase_block j q)) as Hk.
  { intros s h Hsq Hin Hnot. apply erase_block_elem. split; [done|]. intros E.
    apply Hnot. by rewrite <- (sorted_unique (blocks q) s j). }
  constructor.
  - unfold erase_block. cbn. rewrite forget_blocks. by apply sorted_filter.
  - intros h Hq. unfold erase_block in Hq. cbn in Hq. apply forget_requested in Hq as [Hq Hn].
    destruct (Hr h Hq) as [?|(s & ? & ?)]; [set_solver|]. right. exists s. eauto.
  - intros h k Hq. unfold erase_block in Hq. cbn in Hq. apply forget_have_gone in Hq as [Hq Hn].
    destruct (Hh h k Hq) as [(i & ? & _)|(s & i & ? & ? & Hl & ?)]; [done|]. right. exists s, i.
    split_and!; try done. eapply Hk; [done| |done]. by eapply list_elem_of_lookup_2.
  - intros s [Hsq _]%erase_block_elem. by apply Hp.
Qed.

Lemma insert_wf s q :
  wf q -> is_u64 (start_block_height s) -> 0 < nblocks s -> wf (with_blocks q (set_insert s (blocks q))).
Proof.
  intros [Hs Hr Hh Hp] Hu Hn. constructor; cbn.
  - by apply set_insert_sorted.
  - intros h Hq. destruct (Hr h Hq) as [?|(t & ? & ?)]; [by left|]. right. exists t. eauto using set_insert_old.
  - intros h k Hq. destruct (Hh h k Hq) as [?|(t & i & ? & ?)]; [by left|]. right. exists t, i. eauto using set_insert_old.
  - intros t [Ht| ->]%set_insert_elem; [by apply Hp|done].
Qed.

Lemma note_hashes_wf E height i hs q :
  (forall n h, hs !! n = Some h -> E !! (i + n)%nat = Some h) ->
  wf_upto E height q -> wf_upto E height (note_hashes height i hs q).
Proof.
  revert i q. induction hs as [|x hs IH]; intros i q HE Hq; [done|]. cbn [note_hashes]. apply IH.
  { intros n h Hl. specialize (HE (S n) h Hl). by rewrite Nat.add_succ_r in HE. }
  pose proof (HE 0%nat x eq_refl) as Hx. rewrite Nat.add_0_r in Hx.
  destruct Hq as [Hs Hr Hh Hp]. constructor; cbn; [done| |..|done].
  - intros h [->%elem_of_singleton|Hq]%elem_of_union; [|by apply Hr]. left. by eapply list_elem_of_lookup_2.
  - intros h k Hq. unfold emplace in Hq. case_match; [by apply Hh|].
    apply lookup_insert_Some in Hq as [[-> <-]|[_ Hq]]; [|by apply Hh]. left. by exists i.
Qed.

(** ** Setting the hashes of a span *)

Lemma find_span_Some l height conn i :
  List.find (fun i => (start_block_height i =? height) && bool_decide (connection_id i = conn)) l = Some i ->
  i ∈ l /\ start_block_height i = height /\ connection_id i = conn.
Proof.
  intros [Hi Hp]%List.find_some. apply andb_prop in Hp as [?%Z.eqb_eq ?%bool_decide_eq_true].
  split; [by apply list_elem_of_In|done].
Qed.

Lemma find_span_at l s :
  sorted l -> s ∈ l ->
  List.find (fun i => (start_block_height i =? start_block_height s) && bool_decide (connection_id i = connection_id s)) l
  = Some s.
Proof.
  intros Hs Hin. destruct (List.find _ _) as [i|] eqn:E.
  - apply find_span_Some in E as (? & ? & _). f_equal. by apply (sorted_unique l).
  - apply list_elem_of_In in Hin. eapply List.find_none in E; [|done]. cbn in E.
    rewrite Z.eqb_refl, bool_decide_eq_true_2 in E; done.
Qed.

Lemma find_span_none l height conn :
  (forall t, t ∈ l -> start_block_height t = height -> connection_id t <> conn) ->
  List.find (fun i => (start_block_height i =? height) && bool_decide (connection_id i = conn)) l = None.
Proof.
  intros Hn. destruct (List.find _ _) as [i|] eqn:E; [|done]. apply find_span_Some in E as (? & ? & ?).
  exfalso. by eapply Hn.
Qed.

Lemma set_span_wf E height conn hs q :
  wf_upto E height q ->
  E = [] \/ E = hs /\ (exists i, i ∈ blocks q /\ start_block_height i = height /\ connection_id i = conn /\
                                is_scheduled i = false /\ hashes i = []) ->
  wf (set_span_hashes height conn hs q).
Proof.
  intros Hw HE. unfold set_span_hashes.
  destruct (List.find _ _) as [i|] eqn:Ei.
  2: { destruct HE as [->|(-> & i & Hi & Es & Ec & _)].
       - destruct Hw as [Hs Hr Hh Hp]. constructor; [done|done| |done]. intros h k Hq.
         destruct (Hh h k Hq) as [(? & ? & _)|?]; [done|by right].
       - exfalso. subst. rewrite (find_span_at (blocks q) i) in Ei; [done|apply Hw|done]. }
  apply find_span_Some in Ei as (Hi & Es & Ec). destruct Hw as [Hs Hr Hh Hp].
  set (q' := with_blocks _ _).
  assert (with_hashes i hs ∈ blocks q') as Hnew.
  { apply set_insert_new. rewrite insert_requested_blocks. intros t [_ Ht]%erase_block_elem. done. }
  assert (forall s h, s ∈ blocks q -> h ∈ hashes s -> h ∉ hashes i -> s ∈ blocks q') as Hk.
  { intros s h Hsq Hin Hnot. apply set_insert_old. rewrite insert_requested_blocks. apply erase_block_elem.
    split; [done|]. intros E'. apply Hnot. by rewrite <- (sorted_unique (blocks q) s i). }
  constructor.
  - apply set_insert_sorted. rewrite insert_requested_blocks. unfold erase_block. cbn. rewrite forget_blocks.
    by apply sorted_filter.
  - intros h Hq. right. apply insert_requested_elem in Hq as [Hq|Hq]; [by exists (with_hashes i hs)|].
    unfold erase_block in Hq. cbn in Hq. apply forget_requested in Hq as [Hq Hn].
    destruct (Hr h Hq) as [He|(s & ? & ?)]; [|exists s; eauto].
    exists (with_hashes i hs). split; [done|]. destruct HE as [->|[-> _]]; [set_solver|done].
  - intros h k Hq. right. unfold q' in Hq. cbn in Hq. rewrite insert_requested_have in Hq. unfold erase_block in Hq. cbn in Hq.
    apply forget_have_gone in Hq as [Hq Hn]. destruct (Hh h k Hq) as [(n & Hl & ->)|(s & n & ? & ? & Hl & ->)].
    + destruct HE as [->|(-> & i' & Hi' & Es' & _ & Hf & _)]; [done|].
      assert (i' = i) as -> by (apply (sorted_unique (blocks q)); congruence).
      exists (with_hashes i hs), n. cbn. by rewrite Es.
    + exists s, n. split_and!; try done. eapply Hk; [done| |done]. by eapply list_elem_of_lookup_2.
  - intros s [Hsq|Hsq]%set_insert_elem.
    + rewrite insert_requested_blocks in Hsq. apply erase_block_elem in Hsq as [? _]. by apply Hp.
    + subst s. cbn. by apply Hp.
Qed.

Lemma remove_span_wf height q :
  wf q -> wf (remove_span height q).2 /\ free (blocks (remove_span height q).2) height.
Proof.
  intros Hq. unfold remove_span. destruct (List.find _ _) as [i|] eqn:E; cbn.
  - apply List.find_some in E as [Hi Es%Z.eqb_eq]. apply list_elem_of_In in Hi. split; [by apply erase_block_wf|].
    intros t [_ Ht]%erase_block_elem. congruence.
  - split; [done|]. intros t Ht. apply list_elem_of_In in Ht. apply (List.find_none _ _ E) in Ht. lia.
Qed.

Lemma add_blocks_wf height bcel conn addr r size q :
  wf q -> is_u64 height -> bcel <> [] -> wf (add_blocks height bcel conn addr r size q).
Proof.
  intros Hq Hu Hb. unfold add_blocks. destruct (remove_span_wf height q Hq) as [Hq1 Hf].
  destruct (remove_span height q) as [hs q1]. cbn in Hq1, Hf.
  assert (0 < nblocks (filled_span height bcel conn addr r size)) as Hn by (destruct bcel; cbn; [done|lia]).
  pose proof (insert_wf (filled_span height bcel conn addr r size) q1 Hq1 Hu Hn) as Hq2.
  destruct hs as [hs|]; [|done]. apply (set_span_wf hs).
  - apply note_hashes_wf; [done|]. by apply wf_weaken.
  - right. split; [done|]. exists (filled_span height bcel conn addr r size).
    rewrite note_hashes_blocks. split_and!; try done; [by apply set_insert_new|]. by destruct bcel.
Qed.

(** What the loops that erase leave *)
Lemma erase_loop_elem cond rest q t :
  t ∈ blocks (erase_loop cond rest q) <->
  t ∈ blocks q /\ (forall j, j ∈ rest -> cond j = true -> start_block_height t <> start_block_height j).
Proof.
  revert q. induction rest as [|j rest IH]; intros q; cbn [erase_loop]; [set_solver|]. rewrite IH.
  destruct (cond j) eqn:E; [rewrite erase_block_elem|]; split.
  - intros [[? Hj] Hr]. split; [done|]. intros u [->|?]%elem_of_cons; eauto.
  - intros [? Hr]. split; [split; [done|]|]; intros; apply Hr; set_solver.
  - intros [? Hr]. split; [done|]. intros u [->|?]%elem_of_cons; [congruence|eauto].
  - intros [? Hr]. split; [done|]. set_solver.
Qed.

Lemma erase_loop_requested cond rest q h :
  h ∈ requested_hashes (erase_loop cond rest q) <->
  h ∈ requested_hashes q /\ (forall j, j ∈ rest -> cond j = true -> h ∉ hashes j).
Proof.
  revert q. induction rest as [|j rest IH]; intros q; cbn [erase_loop]; [set_solver|]. rewrite IH.
  destruct (cond j) eqn:E; [unfold erase_block; cbn; rewrite forget_requested|]; split.
  - intros [[? Hj] Hr]. split; [done|]. intros u [->|?]%elem_of_cons; eauto.
  - intros [? Hr]. split; [split; [done|]|]; intros; apply Hr; set_solver.
  - intros [? Hr]. split; [done|]. intros u [->|?]%elem_of_cons; [congruence|eauto].
  - intros [? Hr]. split; [done|]. set_solver.
Qed.

Lemma erase_loop_wf cond rest q :
  sorted rest -> (forall j, j ∈ rest -> j ∈ blocks q) -> wf q -> wf (erase_loop cond rest q).
Proof.
  intros Hs. revert q. induction Hs as [|j rest _ IH Hj]; intros q Hin Hq; [done|]. cbn [erase_loop].
  rewrite Forall_forall in Hj. unfold before in Hj. destruct (cond j); apply IH.
  - intros u Hu. apply erase_block_elem. split; [apply Hin; by right|]. specialize (Hj _ Hu). lia.
  - apply erase_block_wf; [done|]. apply Hin. by left.
  - intros u Hu. apply Hin. by right.
  - done.
Qed.

Lemma erase_all_wf cond q : wf q -> wf (erase_loop cond (blocks q) q).
Proof. intros Hq. apply erase_loop_wf; [apply Hq|done|done]. Qed.

Lemma reset_time_wf t q : wf q -> wf (reset_next_span_time t q).
Proof.
  intros Hq. unfold reset_next_span_time. destruct (blocks q) as [|i l] eqn:Eb; [done|].
  destruct (is_scheduled i) eqn:Ei; [|done]. destruct Hq as [Hs Hr Hh Hp]. rewrite Eb in *.
  constructor; cbn.
  - apply StronglySorted_inv in Hs as [? ?]. by constructor.
  - intros h Hq. destruct (Hr h Hq) as [?|(s & [->|Hs']%elem_of_cons & ?)]; [by left|..]; right.
    + exists (with_time i t). set_solver.
    + exists s. set_solver.
  - intros h k Hq. destruct (Hh h k Hq) as [?|(s & n & [->|Hs']%elem_of_cons & Hf & ?)]; [by left|congruence|]; right.
    exists s, n. split; [by right|done].
  - intros s [->|Hin]%elem_of_cons; cbn; [apply (Hp i); by left|apply Hp; by right].
Qed.

(** ** Reservations *)

Lemma skip_requested_spec q i s :
  0 <= s -> s + Z.of_nat (length i) < 2 ^ 64 ->
  exists n, (n <= length i)%nat /\ skip_requested q i s = (drop n i, s + Z.of_nat n) /\
    (forall k x, (k < n)%nat -> i !! k = Some x -> requested x.1 q = true) /\
    (forall x, i !! n = Some x -> requested x.1 q = false).
Proof.
  revert s. induction i as [|x i IH]; intros s Hs Hl; cbn [skip_requested].
  { exists 0%nat. split_and!; [lia|f_equal; lia|intros; lia|done]. }
  cbn [length] in Hl. destruct (requested x.1 q) eqn:E.
  - destruct (IH (s + 1)) as (n & Hn & Hsk & Hr & Hf); [lia|lia|]. exists (S n).
    rewrite wrap_small by mach. rewrite Hsk. split_and!; [cbn; lia|cbn [drop]; f_equal; lia| |done].
    intros [|k] y Hk Hy; [by simplify_eq/=|]. apply (Hr k); [lia|done].
  - exists 0%nat. split_and!; [lia|cbn [drop]; f_equal; lia|intros; lia|]. intros y Hy. by simplify_eq/=.
Qed.

(** The peer can be asked for this height in the same request as the first one. *)
Definition wanted (sync_pruned_blocks first_is_pruned : bool) (local_pruning_seed pruning_seed blockchain_height : Z)
    (height : Z) : bool :=
  (sync_pruned_blocks || has_unpruned_block height blockchain_height pruning_seed) &&
  negb (sync_pruned_blocks && eqb first_is_pruned (has_unpruned_block height blockchain_height local_pruning_seed)).

Lemma take_hashes_spec sync first lseed seed bh max start i len hs :
  0 <= start -> 0 <= len <= max -> start + len + Z.of_nat (length i) < 2 ^ 64 ->
  exists n, (n <= length i)%nat /\ len + Z.of_nat n <= max /\
    take_hashes sync first lseed seed bh max start i len hs = (len + Z.of_nat n, hs ++ (take n i).*1) /\
    (forall h, start + len <= h < start + len + Z.of_nat n -> wanted sync first lseed seed bh h = true) /\
    ((n < length i)%nat -> len + Z.of_nat n < max ->
     wanted sync first lseed seed bh (start + len + Z.of_nat n) = false).
Proof.
  revert len hs. induction i as [|x i IH]; intros len hs Hs Hlen Hl; cbn [take_hashes].
  { exists 0%nat. cbn. rewrite app_nil_r. split_and!; [lia|lia|f_equal; lia|intros; lia|intros; lia]. }
  cbn [length] in Hl. rewrite (wrap_small 64 (start + len)) by mach.
  assert (exists n, (n <= length (x :: i))%nat /\ len + Z.of_nat n <= max /\
    (len, hs) = (len + Z.of_nat n, hs ++ (take n (x :: i)).*1) /\ n = 0%nat) as (n & Hn & Hm & E & ->).
  { exists 0%nat. cbn. rewrite app_nil_r. split_and!; [lia|lia|f_equal; lia|done]. }
  destruct (Z.ltb_spec len max) as [Hlt|Hge]; cbn [andb].
  2: { exists 0%nat. split_and!; [done|done|done|intros; lia|intros; lia]. }
  destruct (wanted sync first lseed seed bh (start + len)) eqn:W; pose proof W as W'; unfold wanted in W'.
  - apply andb_prop in W' as [-> ->%negb_true_iff].
    rewrite (wrap_small 64 (len + 1)) by mach.
    destruct (IH (len + 1) (hs ++ [x.1])) as (m & Hm1 & Hm2 & -> & Hw & Hst); [lia|lia|lia|]. exists (S m).
    split_and!; [cbn; lia|lia|cbn; rewrite <- app_assoc; f_equal; lia| |].
    + intros h Hh. destruct (decide (h = start + len)) as [->|]; [done|]. apply Hw. lia.
    + intros ? ?. rewrite <- Hst by (cbn in *; lia). f_equal. lia.
  - exists 0%nat. apply andb_false_iff in W' as [-> | ->%negb_false_iff].
    + split_and!; [done|done|done|intros; lia|]. intros _ _. by rewrite Z.add_0_r.
    + case_match; (split_and!; [done|done|done|intros; lia|]; intros _ _; by rewrite Z.add_0_r).
Qed.

(** What a reservation does to the queue *)
Lemma scheduled_hashes q s n conn addr t hs :
  wf q ->
  let q1 := with_blocks q (set_insert (scheduled_span s n conn addr t) (blocks q)) in
  let q' := set_span_hashes s conn hs q1 in
  (free (blocks q) s ->
     with_hashes (scheduled_span s n conn addr t) hs ∈ blocks q' /\ (forall u, u ∈ blocks q -> u ∈ blocks q') /\
     (forall h, h ∈ hs -> requested h q' = true)) /\
  (forall u, u ∈ blocks q -> start_block_height u = s -> connection_id u <> conn -> q' = q).
Proof.
  intros Hq q1 q'. split.
  - intros Hf. assert (scheduled_span s n conn addr t ∈ blocks q1) as Hin by (by apply set_insert_new).
    unfold q', set_span_hashes.
    pose proof (find_span_at (blocks q1) (scheduled_span s n conn addr t)) as Efind. cbn [start_block_height connection_id scheduled_span] in Efind.
    rewrite Efind by (done || (apply set_insert_sorted, Hq)). split_and!; cbn.
    + apply set_insert_new. rewrite insert_requested_blocks. intros u [_ Hu]%erase_block_elem. done.
    + intros u Hu. apply set_insert_old. rewrite insert_requested_blocks. apply erase_block_elem.
      split; [by apply set_insert_old|]. by apply Hf.
    + intros h Hh. apply bool_decide_eq_true. cbn. apply insert_requested_elem. by left.
  - intros u Hu Es Ec. assert (q1 = q) as E1.
    { unfold q1. rewrite (set_insert_taken _ (blocks q) u); [by destruct q|apply Hq|done..]. }
    unfold q'. rewrite E1. unfold set_span_hashes. rewrite find_span_none; [done|].
    intros v Hv Ev. rewrite (sorted_unique (blocks q) v u); [done|apply Hq|done|done|congruence].
Qed.

Lemma start_for_peer_ge sync seed bh s : s <= start_for_peer sync seed bh s.
Proof. unfold start_for_peer. destruct sync; cbn [negb]; [lia|]. cbv zeta. cases_cmp; cbn [andb]; lia. Qed.

(** The height of the first of the hashes a peer sent *)
Definition hashes_start (last_block_height : Z) (block_hashes : list (hash * Z)) : Z :=
  last_block_height - Z.of_nat (length block_hashes) + 1.

Lemma reserve_outcome first last max conn addr sync lseed seed bh bhs t q :
  0 <= last < UINT64_MAX -> 0 < max -> first <= last -> Z.of_nat (length bhs) <= last ->
  let base := hashes_start last bhs in
  let reserve := reserve_span first last max conn addr sync lseed seed bh bhs t q in
  exists k0, (k0 <= length bhs)%nat /\
    (forall k x, (k < k0)%nat -> bhs !! k = Some x -> requested x.1 q = true) /\
    (forall x, bhs !! k0 = Some x -> requested x.1 q = false) /\
    let s := start_for_peer sync seed bh (base + Z.of_nat k0) in
    (last < s /\ reserve = nothing q \/
     s <= last /\ exists k n, s <= base + Z.of_nat k /\ (k + n <= length bhs)%nat /\ Z.of_nat n <= max /\
       (forall x, bhs !! k = Some x -> requested x.1 q = false) /\
       (forall j x, s <= base + Z.of_nat j -> (j < k)%nat -> bhs !! j = Some x -> requested x.1 q = true) /\
       let wanted := wanted sync (sync && negb (has_unpruned_block (base + Z.of_nat k) bh lseed)) lseed seed bh in
       (forall h, base + Z.of_nat k <= h < base + Z.of_nat (k + n) -> wanted h = true) /\
       ((k + n < length bhs)%nat -> Z.of_nat n < max -> wanted (base + Z.of_nat (k + n)) = false) /\
       reserve =
         if decide (n = 0%nat) then nothing q
         else Some (base + Z.of_nat k, Z.of_nat n,
                set_span_hashes (base + Z.of_nat k) conn (take n (drop k bhs)).*1
                  (with_blocks q (set_insert (scheduled_span (base + Z.of_nat k) (Z.of_nat n) conn addr t) (blocks q))))).
Proof.
  intros Hl Hm Hf Hsz base reserve. unfold UINT64_MAX in Hl.
  assert (u64 (u64 (last - Z.of_nat (length bhs)) + 1) = base) as Eb
    by (rewrite (wrap_small 64 (last - _)) by mach; rewrite wrap_small by (width_unfold; lia); unfold base, hashes_start; lia).
  assert (0 < base /\ base + Z.of_nat (length bhs) = last + 1) as [Hb Hbl] by (unfold base, hashes_start; lia).
  assert (u64 (Z.of_nat (length bhs) + base) = last + 1) as Ebl by (rewrite wrap_small by mach; lia).
  destruct (skip_requested_spec q bhs base) as (k0 & Hk0 & Esk & Hr0 & Hn0); [lia|lia|].
  exists k0. split; [done|]. split; [done|]. split; [done|]. cbv zeta.
  unfold reserve, reserve_span. rewrite (proj2 (Z.ltb_ge last first)) by lia.
  rewrite (proj2 (Z.eqb_neq max 0)) by lia. cbn [orb]. rewrite (proj2 (Z.ltb_ge last _)) by lia.
  rewrite Eb, Esk, Ebl. pose proof (start_for_peer_ge sync seed bh (base + Z.of_nat k0)) as Hge.
  set (s := start_for_peer _ _ _ _) in *. destruct (Z.leb_spec (last + 1) s) as [Hs|Hs]; [left; split; [lia|done]|].
  right. split; [lia|]. set (d := Z.to_nat (s - base)).
  assert (length (drop d bhs) = (length bhs - d)%nat) as Eld by apply length_drop.
  destruct (skip_requested_spec q (drop d bhs) s) as (m & Hmd & Esk2 & Hr & Hn); [lia|lia|].
  rewrite Esk2. rewrite drop_drop. assert (s + Z.of_nat m = base + Z.of_nat (d + m)) as Esm by lia. rewrite Esm.
  assert (length (drop (d + m) bhs) = (length bhs - (d + m))%nat) as Elm by apply length_drop.
  destruct (take_hashes_spec sync (sync && negb (has_unpruned_block (base + Z.of_nat (d + m)) bh lseed))
    lseed seed bh max (base + Z.of_nat (d + m)) (drop (d + m) bhs) 0 []) as (n & Hnl & Hnm & Et & Hw & Hst); [lia|lia|lia|].
  exists (d + m)%nat, n. rewrite Et. cbn [app]. split_and!; [lia|lia|lia| | |intros h Hh; apply Hw; lia| |].
  - intros x Hx. apply Hn. by rewrite lookup_drop.
  - intros j x Hj1 Hj2 Hx. apply (Hr (j - d)%nat); [lia|]. rewrite lookup_drop. replace (d + (j - d))%nat with j by lia. done.
  - intros ? ?. rewrite <- Hst by lia. f_equal. lia.
  - rewrite Z.add_0_l. unfold add_blocks_scheduled. case_decide as Hd; [by subst n|].
    rewrite (proj2 (Z.eqb_neq (Z.of_nat n) 0)) by lia. rewrite (proj2 (Z.ltb_lt 0 (Z.of_nat n))) by lia. done.
Qed.

Lemma reserve_span_wf first last max conn addr sync lseed seed bh bhs t q s n q' :
  wf q -> 0 <= last < UINT64_MAX -> 0 <= max ->
  reserve_span first last max conn addr sync lseed seed bh bhs t q = Some (s, n, q') -> wf q'.
Proof.
  intros Hq Hl Hm E.
  destruct (decide (0 < max /\ first <= last /\ Z.of_nat (length bhs) <= last)) as [(Hm' & Hf & Hsz)|Hno].
  - destruct (reserve_outcome first last max conn addr sync lseed seed bh bhs t q Hl Hm' Hf Hsz)
      as (k0 & _ & _ & _ & [[_ Er]|(_ & k & m & _ & Hkm & _ & _ & _ & _ & _ & Er)]); rewrite Er in E.
    { by injection E as <- <- <-. }
    case_decide; [by injection E as <- <- <-|]. simplify_eq. unfold hashes_start, UINT64_MAX in *. apply (set_span_wf []).
    + apply wf_weaken, insert_wf; cbn [start_block_height nblocks scheduled_span]; [done|mach|lia].
    + by left.
  - unfold reserve_span in E. destruct (Z.ltb_spec last first); [by injection E as <- <- <-|].
    destruct (Z.eqb_spec max 0); [by injection E as <- <- <-|]. cbn [orb] in E. rewrite (proj2 (Z.ltb_lt last _)) in E by lia. by injection E as <- <- <-.
Qed.

(** ** The life of a queue *)

(** The calls of the protocol handler: it drops a peer that answers without blocks. *)
Inductive step : block_queue -> block_queue -> Prop :=
  | step_arrived q height bcel conn addr r size :
      is_u64 height -> bcel <> [] -> step q (add_blocks height bcel conn addr r size q)
  | step_reserve q first last max conn addr sync lseed seed bh bhs t s n q' :
      0 <= last < UINT64_MAX -> 0 <= max ->
      reserve_span first last max conn addr sync lseed seed bh bhs t q = Some (s, n, q') -> step q q'
  | step_flush q conn all : step q (flush_spans conn all q)
  | step_flush_stale q live : step q (flush_stale_spans live q)
  | step_remove q conn height : step q (remove_spans conn height q)
  | step_remove_one q height : step q (remove_span height q).2
  | step_reset_time q t : step q (reset_next_span_time t q).

Inductive reachable : block_queue -> Prop :=
  | reachable_empty : reachable empty_queue
  | reachable_step q q' : reachable q -> step q q' -> reachable q'.

Lemma reachable_wf q : reachable q -> wf q.
Proof.
  induction 1 as [|q q' _ IH Hs]; [apply empty_wf|]. destruct Hs.
  - by apply add_blocks_wf.
  - by eapply reserve_span_wf.
  - by apply erase_all_wf.
  - by apply erase_all_wf.
  - by apply erase_all_wf.
  - by apply remove_span_wf.
  - by apply reset_time_wf.
Qed.

Lemma last_known_total conn l h0 k :
  (forall s, s ∈ l -> 0 < nblocks s) -> is_Some (last_known_loop conn l h0 k).
Proof.
  revert h0 k. induction l as [|s l IH]; intros h0 k Hp; [done|]. cbn [last_known_loop].
  assert (forall u, u ∈ l -> 0 < nblocks u) as Hp' by (intros; apply Hp; by right).
  case_match; [by apply IH|]. case_match eqn:E; [|by apply IH]. apply andb_prop in E as [_ E%Z.eqb_eq].
  destruct (last (hashes s)) eqn:El; [by apply IH|]. exfalso.
  apply last_None in El. rewrite El in E. specialize (Hp s ltac:(by left)). cbn in E. lia.
Qed.

(** C29: Whatever the peers send and in whatever order spans are reserved, filled, flushed and
    removed, the three containers of the queue agree: spans start at different heights and are in
    order; a hash counts as requested only while a span of the queue lists it; a block counts as
    present only while a span with its blocks lists it, and the height reported for it is its place
    in that span; and the last known hash of a peer is never read from an empty list. *)
Theorem queue_consistent (q : block_queue) :
  reachable q ->
  StronglySorted (fun s t => start_block_height s < start_block_height t) (blocks q) /\
  (forall h, requested h q = true -> exists s, s ∈ blocks q /\ h ∈ hashes s) /\
  (forall h, have h q = true ->
     exists s i, s ∈ blocks q /\ is_scheduled s = false /\ hashes s !! i = Some h /\
       have_height h q = u64 (start_block_height s + Z.of_nat i)) /\
  (forall conn, is_Some (get_last_known_hash conn q)).
Proof.
  intros [Hs Hr Hh Hp]%reachable_wf. split_and!; [done|..].
  - intros h Hq%bool_decide_eq_true. destruct (Hr h Hq) as [?|?]; [set_solver|done].
  - intros h [k Hk]%bool_decide_eq_true. unfold have_height. rewrite Hk. cbn.
    destruct (Hh h k Hk) as [(? & ? & _)|?]; [done|done].
  - intros conn. apply last_known_total. intros s ?. by apply Hp.
Qed.

(** ** The next height to ask for *)

Definition covers (s : span) (h : Z) : Prop := start_block_height s <= h < start_block_height s + nblocks s.

Lemma needed_loop_spec bh l covered :
  StronglySorted before l -> 0 <= bh <= covered ->
  (forall s, s ∈ l -> 0 <= start_block_height s /\ 0 < nblocks s /\ start_block_height s + nblocks s < 2 ^ 64) ->
  let r := needed_loop bh covered l in
  covered <= r /\ (forall h, covered <= h < r -> exists s, s ∈ l /\ covers s h) /\ (forall s, s ∈ l -> ~ covers s r).
Proof.
  intros Hs. revert covered. induction Hs as [|s l _ IH Hlt]; intros covered Hc Hp; cbn [needed_loop].
  { split_and!; [lia|intros; lia|set_solver]. }
  assert (forall u, u ∈ l -> 0 <= start_block_height u /\ 0 < nblocks u /\ start_block_height u + nblocks u < 2 ^ 64)
    as Hp' by (intros; apply Hp; by right).
  destruct (Hp s) as (Hs0 & Hs1 & Hs2); [by left|].
  rewrite (wrap_small 64 (_ + _)) by mach. rewrite (wrap_small 64) by mach. cbv zeta. unfold covers.
  destruct (Z.ltb_spec (start_block_height s + nblocks s - 1) bh).
  { destruct (IH covered Hc Hp') as (Hle & Hcov & Hn). split_and!; [done| |].
    - intros h Hh. destruct (Hcov h Hh) as (u & ? & ?). exists u. set_solver.
    - intros u [->|Hu]%elem_of_cons; [lia|by apply Hn]. }
  destruct (Z.ltb_spec covered (start_block_height s)) as [Hgap|Hgap].
  { split_and!; [lia|intros; lia|]. intros u [->|Hu]%elem_of_cons; [lia|].
    rewrite Forall_forall in Hlt. specialize (Hlt _ Hu). unfold before in Hlt. lia. }
  rewrite (proj2 (Z.leb_le _ _)) by lia.
  destruct (IH (Z.max covered (start_block_height s + nblocks s)) ltac:(lia) Hp') as (Hle & Hcov & Hn). split_and!; [lia| |].
  - intros h Hh. destruct (decide (h < start_block_height s + nblocks s)); [exists s; split; [by left|lia]|].
    destruct (Hcov h ltac:(lia)) as (u & ? & ?). exists u. set_solver.
  - intros u [->|Hu]%elem_of_cons; [lia|by apply Hn].
Qed.

(** The next needed height is the first one, from the height of the chain on, that no span of the
    queue covers, whether its blocks have arrived or not. *)
Theorem next_needed_first (bh : Z) (q : block_queue) :
  reachable q -> 0 <= bh -> (forall s, s ∈ blocks q -> start_block_height s + nblocks s < 2 ^ 64) ->
  let r := get_next_needed_height bh q in
  bh <= r /\ (forall h, bh <= h < r -> exists s, s ∈ blocks q /\ covers s h) /\
  (forall s, s ∈ blocks q -> ~ covers s r).
Proof.
  intros [Hs _ _ Hp]%reachable_wf Hb Hf. unfold get_next_needed_height.
  assert (needed_loop bh bh (blocks q) = match blocks q with [] => bh | l => needed_loop bh bh l end) as <-
    by (by destruct (blocks q)).
  apply needed_loop_spec; [done|lia|]. intros s Hin. destruct (Hp s Hin) as [[? _] ?]. auto.
Qed.

(** A reservation never fails with an exception, and either reserves nothing and leaves the queue as
    it is, or takes a run of the hashes that the peer sent: at most as many as allowed, at their
    heights, the first of them not requested before, each of them a block that the peer keeps in
    full, or, when pruned blocks are wanted, each of the same kind as the first. When no span starts
    at that height the span is in the queue afterwards with these hashes, which now count as
    requested, and all the other spans are kept. When a span of another peer starts there, nothing
    at all is recorded, though the span is returned to the caller. *)
Theorem reserve_span_spec (first last max : Z) (conn : uuid) (addr : network_address) (sync : bool)
    (lseed seed bh : Z) (bhs : list (hash * Z)) (t : ptime) (q : block_queue) :
  reachable q -> 0 <= last < UINT64_MAX -> 0 <= max ->
  exists s n q', reserve_span first last max conn addr sync lseed seed bh bhs t q = Some (s, n, q') /\
    (s = 0 /\ n = 0 /\ q' = q \/
     exists k hs, 0 < n <= max /\ n = Z.of_nat (length hs) /\ hs = (take (length hs) (drop k bhs)).*1 /\
       s = last - Z.of_nat (length bhs) + 1 + Z.of_nat k /\ s + n - 1 <= last /\
       (forall x, bhs !! k = Some x -> requested x.1 q = false) /\
       (forall h, s <= h < s + n ->
          if sync then has_unpruned_block h bh lseed = has_unpruned_block s bh lseed
          else has_unpruned_block h bh seed = true) /\
       ((forall u, u ∈ blocks q -> start_block_height u <> s) ->
          with_hashes (scheduled_span s n conn addr t) hs ∈ blocks q' /\
          (forall u, u ∈ blocks q -> u ∈ blocks q') /\ (forall h, h ∈ hs -> requested h q' = true)) /\
       (forall u, u ∈ blocks q -> start_block_height u = s -> connection_id u <> conn -> q' = q)).
Proof.
  intros Hq%reachable_wf Hl Hm.
  destruct (decide (0 < max /\ first <= last /\ Z.of_nat (length bhs) <= last)) as [(Hm' & Hf & Hsz)|Hno].
  2: { exists 0, 0, q. split; [|by left]. unfold reserve_span. destruct (Z.ltb_spec last first); [done|].
       destruct (Z.eqb_spec max 0); [done|]. cbn [orb]. by rewrite (proj2 (Z.ltb_lt last _)) by lia. }
  destruct (reserve_outcome first last max conn addr sync lseed seed bh bhs t q Hl Hm' Hf Hsz)
    as (k0 & _ & _ & _ & [[_ Er]|(_ & k & n & _ & Hkn & Hnm & Hfr & _ & Hw & _ & Er)]).
  { rewrite Er. exists 0, 0, q. split; [done|by left]. }
  rewrite Er. case_decide as Hn; [exists 0, 0, q; split; [done|by left]|].
  eexists _, _, _. split; [done|]. right. exists k, (take n (drop k bhs)).*1.
  assert (length (take n (drop k bhs)).*1 = n) as El by (rewrite length_fmap, length_take, length_drop; lia).
  rewrite El. unfold hashes_start in *. split_and!; [lia|lia|done|done|lia|lia|done| |apply scheduled_hashes; done..].
  intros h Hh. specialize (Hw h ltac:(lia)). unfold wanted in Hw. destruct sync; cbn in Hw; [|by rewrite andb_true_r in Hw].
  by destruct (has_unpruned_block h bh lseed), (has_unpruned_block _ bh lseed).
Qed.

(** ** Progress *)

Lemma start_for_full_peer sync seed bh s : 0 <= s -> sync = true \/ seed = 0 -> start_for_peer sync seed bh s = s.
Proof.
  intros Hs [->| ->]; [done|]. unfold start_for_peer. destruct sync; cbn [negb]; [done|].
  assert (get_next_unpruned_block_height s bh 0 = s) as ->.
  { unfold get_next_unpruned_block_height. change (seed_stripe 0) with 0. by repeat case_match. }
  assert (u32 s <= s) by (apply Z.mod_le; lia). cbv zeta. by rewrite (proj2 (Z.ltb_ge _ _)) by lia.
Qed.

Lemma first_wanted sync lseed seed bh h :
  sync = true \/ seed = 0 ->
  wanted sync (sync && negb (has_unpruned_block h bh lseed)) lseed seed bh h = true.
Proof. intros [->| ->]; unfold wanted; [by destruct (has_unpruned_block h bh lseed)|]. by destruct sync, (has_unpruned_block h bh lseed). Qed.

(** C34: A peer that can serve every block is given work as long as there is any: when one of the
    hashes it sent has not been requested, a reservation takes at least one block, and starts with
    the first such hash. *)
Theorem reserve_progress (first last max : Z) (conn : uuid) (addr : network_address) (sync : bool)
    (lseed seed bh : Z) (bhs : list (hash * Z)) (t : ptime) (q : block_queue) :
  0 <= last < UINT64_MAX -> 0 < max -> first <= last -> Z.of_nat (length bhs) <= last ->
  sync = true \/ seed = 0 ->
  (exists x, x ∈ bhs /\ requested x.1 q = false) ->
  exists k x n q', bhs !! k = Some x /\ requested x.1 q = false /\
    (forall j y, (j < k)%nat -> bhs !! j = Some y -> requested y.1 q = true) /\ 0 < n /\
    reserve_span first last max conn addr sync lseed seed bh bhs t q =
      Some (last - Z.of_nat (length bhs) + 1 + Z.of_nat k, n, q').
Proof.
  intros Hl Hm Hf Hsz Hfull (x & [i Hi]%list_elem_of_lookup & Hx).
  destruct (reserve_outcome first last max conn addr sync lseed seed bh bhs t q Hl Hm Hf Hsz)
    as (k0 & Hk0 & Hr0 & Hn0 & Hout). unfold hashes_start in *. cbv zeta in Hout.
  rewrite start_for_full_peer in Hout by (done || lia). pose proof (lookup_lt_Some _ _ _ Hi).
  assert (k0 <= i)%nat as Hki.
  { destruct (decide (i < k0)%nat) as [Hlt|]; [|lia]. rewrite (Hr0 i x Hlt Hi) in Hx. done. }
  destruct (lookup_lt_is_Some_2 bhs k0) as [y Hy]; [lia|].
  destruct Hout as [[? _]|(_ & k & n & Hs & Hkn & Hnm & Hfr & Hr & Hw & Hst & Er)]; [lia|].
  assert (k = k0) as ->.
  { destruct (decide (k0 < k)%nat) as [Hlt|]; [|lia]. specialize (Hn0 y Hy). by rewrite (Hr k0 y) in Hn0 by (done || lia). }
  assert (n <> 0%nat) as Hn.
  { intros ->. rewrite Nat.add_0_r in Hst. rewrite first_wanted in Hst by done. specialize (Hst ltac:(lia) ltac:(lia)). done. }
  rewrite decide_False in Er by done. exists k0, y, (Z.of_nat n). eexists. split_and!; [done|by apply Hn0|done|lia|exact Er].
Qed.

(** A peer that leaves does not hold up the others: when its spans are flushed none of them stays,
    the spans of the other peers do, and no hash that was listed by its spans counts as requested
    any more, so that another peer can be asked. *)
Theorem flush_spans_spec (conn : uuid) (q : block_queue) :
  reachable q ->
  let q' := flush_spans conn true q in
  (forall s, s ∈ blocks q' <-> s ∈ blocks q /\ connection_id s <> conn) /\
  (forall h, requested h q' = true <->
     requested h q = true /\ forall s, s ∈ blocks q -> connection_id s = conn -> h ∉ hashes s).
Proof.
  intros [Hs _ _ _]%reachable_wf q'. unfold q', flush_spans, requested. split.
  - intros s. rewrite erase_loop_elem. split.
    + intros [Hin Hno]. split; [done|]. intros E. apply (Hno s Hin); [|done]. by rewrite bool_decide_eq_true_2.
    + intros [Hin Hne]. split; [done|]. intros j Hj Hc E. apply Hne. rewrite orb_true_l, andb_true_r in Hc.
      rewrite (sorted_unique (blocks q) s j) by done. by apply bool_decide_eq_true in Hc.
  - intros h. rewrite !bool_decide_eq_true, erase_loop_requested. split; intros [Hin Hno]; (split; [done|]).
    + intros s Hsq E. apply (Hno s Hsq). by rewrite bool_decide_eq_true_2.
    + intros j Hj Hc. rewrite orb_true_l, andb_true_r in Hc. apply bool_decide_eq_true in Hc. by apply Hno.
Qed.

End Queue.

(** ** A queue with two spans, of which one has arrived *)

Notation demo_queue := (block_queue (hash := Z) (uuid := Z) (block_complete_entry := Z)
  (network_address := unit) (rate := unit) (ptime := Z)).
Definition demo_hashes : list (Z * Z) := (fun h => (h + 1000, h)) <$> seqZ 1 8.
Definition demo_reserve (max : Z) (conn : Z) (q : demo_queue) : Z * Z * demo_queue :=
  default (0, 0, q) (reserve_span tt 1 8 max conn tt false 0 0 9 demo_hashes 0 q).
Definition demo_one : demo_queue := (demo_reserve 3 77 empty_queue).2.
Definition demo_two : demo_queue := (demo_reserve 3 88 demo_one).2.
Definition demo_filled : demo_queue := add_blocks 0 4 [10; 11; 12] 88 tt tt 300 demo_two.

Notation demo_reachable := (reachable (hash := Z) (uuid := Z) (block_complete_entry := Z)
  (network_address := unit) (rate := unit) (ptime := Z) tt 0).

Lemma demo_filled_reachable : demo_reachable demo_filled.
Proof.
  apply reachable_step with (q := demo_two).
  - apply reachable_step with (q := demo_one).
    + apply reachable_step with (q := empty_queue); [constructor|].
      eapply (step_reserve _ _ _ 1 8 3 77 tt false 0 0 9 demo_hashes 0); [done|done|vm_compute; reflexivity].
    + eapply (step_reserve _ _ _ 1 8 3 88 tt false 0 0 9 demo_hashes 0); [done|done|vm_compute; reflexivity].
  - apply step_arrived; [done|done].
Qed.

Lemma queue_consistent_witness :
  exists s i, s ∈ blocks demo_filled /\ is_scheduled s = false /\ hashes s !! i = Some 1005 /\
    have_height 1005 demo_filled = u64 (start_block_height s + Z.of_nat i).
Proof.
  apply (proj1 (proj2 (proj2 (queue_consistent 0 tt 0 demo_filled demo_filled_reachable)))). vm_compute. done.
Defined.

Lemma next_needed_first_witness :
  get_next_needed_height 1 demo_filled = 7 /\ (forall s, s ∈ blocks demo_filled -> ~ covers s 7).
Proof.
  split; [by vm_compute|].
  apply (proj2 (proj2 (next_needed_first tt 0 1 demo_filled demo_filled_reachable ltac:(lia)
    ltac:(apply Forall_forall; by_decide)))).
Defined.

Lemma reserve_span_spec_witness :
  exists s n q', reserve_span tt 1 8 5 99 tt false 0 0 9 demo_hashes 0 demo_filled = Some (s, n, q') /\ s + n - 1 <= 8.
Proof.
  destruct (reserve_span_spec tt 0 1 8 5 99 tt false 0 0 9 demo_hashes 0 demo_filled demo_filled_reachable
    ltac:(done) ltac:(lia)) as (s & n & q' & E & [(-> & -> & _)|(k & hs & _ & _ & _ & _ & Hs & _)]); eauto 6 with lia.
Defined.

Lemma reserve_progress_witness :
  exists k x n q', demo_hashes !! k = Some x /\ requested x.1 demo_filled = false /\
    (forall j y, (j < k)%nat -> demo_hashes !! j = Some y -> requested y.1 demo_filled = true) /\ 0 < n /\
    reserve_span tt 1 8 5 99 tt false 0 0 9 demo_hashes 0 demo_filled = Some (8 - 8 + 1 + Z.of_nat k, n, q').
Proof.
  apply (reserve_progress tt 1 8 5 99 tt false 0 0 9 demo_hashes 0 demo_filled); [done|lia|lia|by vm_compute|by right|].
  exists (1007, 7). split; [by_decide|by vm_compute].
Defined.

Lemma flush_spans_spec_witness : forall s, s ∈ blocks (flush_spans 88 true demo_filled) -> connection_id s <> 88.
Proof.
  intros s Hs. by apply (proj1 (flush_spans_spec tt 0 88 demo_filled demo_filled_reachable) s) in Hs as [_ ?].
Defined.
