(* ===== verification/I18n.v ===== *)
(** * Translations of the command-line tools: src/common/i18n.cpp

    The choice of the language from the environment, the reader of compiled
    catalogues (QM files) and the lookup of a text. Texts and files are lists of
    bytes. Every read of the file's buffer is checked: a read outside of it is
    [Out_of_bounds]. The environment, the file system and the embedded files are
    parameters. *)

From S2P Require Import Prelude IntUtil JsString Translations.

(** ** The language *)

Definition MAX_LANGUAGE_SIZE : nat := 16.

(** [s.substr(0, s.find(c))] *)
Fixpoint cut_at (c : Z) (s : list Z) : list Z :=
  match s with [] => [] | d :: s => if d =? c then [] else d :: cut_at c s end.

Definition language_chars : list Z :=
  str_bytes "abcdefghijklmnopqrstuvwxyzABCDEFGHIJKLMNOPQRSTUVWXYZ_-.@".

Definition to_lower (c : Z) : Z := if (65 <=? c) && (c <=? 90) then c + 32 else c.

(** [getenv] gives [None] for a variable that is not set. *)
Definition i18n_get_language (getenv : list Z -> option (list Z)) : list Z :=
  let set v := match v with Some (c :: s) => Some (c :: s) | _ => None end in
  let e :=
    match set (getenv (str_bytes "LANG")) with
    | Some e => e
    | None => match set (getenv (str_bytes "LC_ALL")) with Some e => e | None => str_bytes "en" end
    end in
  let language := cut_at 64 (cut_at 46 e) in
  if negb (forallb (fun c => bool_decide (c ∈ language_chars)) language) then str_bytes "en"
  else
    let language := to_lower <$> language in
    if bool_decide (MAX_LANGUAGE_SIZE < length language)%nat then str_bytes "en" else language.

(** ** Texts *)

(** The code point at the start of big-endian UTF-16 data, and the rest *)
Definition take_code (b0 b1 : Z) (data : list Z) : Z * list Z :=
  let code := Z.lor (Z.shiftl b0 8) b1 in
  match data with
  | b2 :: b3 :: data' =>
      let next := Z.lor (Z.shiftl b2 8) b3 in
      if (0xd800 <=? code) && (code <=? 0xdbfff) && (0xdc00 <=? next) && (next <=? 0xdfff)
      then (u32 (u32 (Z.shiftl code 10) + next - 0x35dfc00), data')
      else (code, data)
  | _ => (code, data)
  end.

Definition utf8_of_code (code : Z) : list Z :=
  if code <=? 0x7f then [code]
  else if code <=? 0x7ff then
    [u8 (Z.lor 0xc0 (Z.shiftr code 6)); u8 (Z.lor 0x80 (Z.land code 0x3f))]
  else if code <=? 0xffff then
    [u8 (Z.lor 0xe0 (Z.shiftr code 12)); u8 (Z.lor 0x80 (Z.land (Z.shiftr code 6) 0x3f));
     u8 (Z.lor 0x80 (Z.land code 0x3f))]
  else
    [u8 (Z.lor 0xf0 (Z.shiftr code 18)); u8 (Z.lor 0x80 (Z.land (Z.shiftr code 12) 0x3f));
     u8 (Z.lor 0x80 (Z.land (Z.shiftr code 6) 0x3f)); u8 (Z.lor 0x80 (Z.land code 0x3f))].

(** [utf16] of the source; every round takes two bytes at least. *)
Fixpoint utf16_loop (fuel : nat) (data : list Z) : list Z :=
  match fuel, data with
  | S fuel, b0 :: b1 :: data =>
      let '(code, data) := take_code b0 b1 data in
      utf8_of_code code ++ utf16_loop fuel data
  | _, _ => []
  end.
Definition utf16_to_utf8 (data : list Z) : list Z := utf16_loop (length data) data.

(** ** The reader *)

Definition qm_magic : list Z :=
  [0x3c; 0xb8; 0x64; 0x18; 0xca; 0xef; 0x9c; 0x95; 0xcd; 0x21; 0x1c; 0xbf; 0x60; 0xa1; 0xbd; 0xdd].

Inductive qm_error := Out_of_bounds | Out_of_fuel.

(** The bytes of the buffer from [idx] on, [len] of them *)
Definition slice (data : list Z) (idx len : Z) : result qm_error (list Z) :=
  if (0 <=? idx) && (0 <=? len) && (idx + len <=? Z.of_nat (length data))
  then Ret (take (Z.to_nat len) (drop (Z.to_nat idx) data)) else Throw Out_of_bounds.

Definition byte_at (data : list Z) (idx : Z) : result qm_error Z :=
  s ← slice data idx 1;
  Ret (nth 0 s 0).

Definition be32 (data : list Z) (idx : Z) : result qm_error Z :=
  s ← slice data idx 4;
  Ret (u32 (Z.lor (Z.lor (Z.lor (Z.shiftl (nth 0 s 0) 24) (Z.shiftl (nth 1 s 0) 16))
                         (Z.shiftl (nth 2 s 0) 8)) (nth 3 s 0))).

Abbreviation entries_t := (gmap (list Z) (list Z)).

(** The list of chunks: [num_messages], [offsets_idx] and [messages_idx], or [None]
    for the result -1 *)
Fixpoint chunk_loop (fuel : nat) (data : list Z) (idx num offsets messages : Z)
    : result qm_error (option (Z * Z * Z)) :=
  let datalen := Z.of_nat (length data) in
  if negb (idx <? datalen) then Ret (Some (num, offsets, messages))
  else
    match fuel with
    | O => Throw Out_of_fuel
    | S fuel =>
        if datalen <? idx + 5 then Ret None
        else
          chunk_type ← byte_at data idx;
          chunk_size ← be32 data (idx + 1);
          let idx := idx + 5 in
          if (datalen <=? chunk_size) || (datalen - chunk_size <? idx) then Ret None
          else
            let '(num, offsets, messages) :=
              if chunk_type =? 0x42 then (chunk_size / 8, u32 idx, messages)
              else if chunk_type =? 0x69 then (num, offsets, u32 idx)
              else (num, offsets, messages) in
            chunk_loop fuel data (idx + chunk_size) num offsets messages
    end.

(** [translation], [source], [context] and the entries *)
Record qm_state := QmState {
  qm_translation : list Z;
  qm_source : list Z;
  qm_context : list Z;
  qm_entries : entries_t }.

(** One message; the boolean is [false] for the result -1. *)
Fixpoint message_loop (fuel : nat) (data : list Z) (idx : Z) (s : qm_state)
    : result qm_error (bool * qm_state) :=
  match fuel with
  | O => Throw Out_of_fuel
  | S fuel =>
      let datalen := Z.of_nat (length data) in
      if datalen <? idx + 5 then Ret (false, s)
      else
        chunk_type ← byte_at data idx;
        if chunk_type =? 0x01 then
          Ret (true, QmState [] [] []
                       (<[qm_context s ++ [0] ++ qm_source s := qm_translation s]> (qm_entries s)))
        else
          chunk_size ← be32 data (idx + 1);
          let idx := idx + 5 in
          if (datalen <=? chunk_size) || (datalen - chunk_size <? idx) then Ret (false, s)
          else
            text ← slice data idx chunk_size;
            let s :=
              if chunk_type =? 0x03 then
                QmState (utf16_to_utf8 text) (qm_source s) (qm_context s) (qm_entries s)
              else if chunk_type =? 0x06 then
                QmState (qm_translation s) text (qm_context s) (qm_entries s)
              else if chunk_type =? 0x07 then
                QmState (qm_translation s) (qm_source s) text (qm_entries s)
              else s in
            message_loop fuel data (idx + chunk_size) s
  end.

(** [for (m = ...; m < num_messages; ++m)], [n] messages to go *)
Fixpoint messages_loop (n : nat) (data : list Z) (m offsets messages : Z) (s : qm_state)
    : result qm_error (bool * qm_state) :=
  match n with
  | O => Ret (true, s)
  | S n =>
      _ ← be32 data (offsets + m * 8);
      idx ← be32 data (offsets + m * 8 + 4);
      let idx := idx + messages in
      let datalen := Z.of_nat (length data) in
      if (datalen <? idx) || (datalen <? idx + 1) then Ret (false, s)
      else
        r ← message_loop (S (length data)) data idx s;
        if (r.1 : bool) then messages_loop n data (m + 1) offsets messages r.2 else Ret r
  end.

(** The result, 0 or -1, and the entries *)
Definition read_qm (data : list Z) (entries : entries_t) : result qm_error (Z * entries_t) :=
  if bool_decide (length data < length qm_magic)%nat
     || negb (bool_decide (take (length qm_magic) data = qm_magic))
  then Ret (-1, entries)
  else
    c ← chunk_loop (length data) data (Z.of_nat (length qm_magic)) (2 ^ 32 - 1) (2 ^ 32 - 1) (2 ^ 32 - 1);
    match c with
    | None => Ret (-1, entries)
    | Some (num_messages, offsets_idx, messages_idx) =>
        if offsets_idx =? 2 ^ 32 - 1 then Ret (-1, entries)
        else if messages_idx =? 2 ^ 32 - 1 then Ret (-1, entries)
        else
          r ← messages_loop (Z.to_nat num_messages) data 0 offsets_idx messages_idx (QmState [] [] [] entries);
          Ret (if (r.1 : bool) then 0 else -1, qm_entries r.2)
    end.

(** ** Finding the file *)

Section Files.
(** Whether a file exists, its contents (or a failure) and the embedded files *)
Context (exists_ : list Z -> bool) (load_file : list Z -> option (list Z))
        (find_embedded_file : list Z -> option (list Z)) (getenv : list Z -> option (list Z)).

Definition qm_name (base language : list Z) : list Z := base ++ [95] ++ language ++ str_bytes ".qm".

(** A file of the directory, if it exists, else an embedded one: [Some None] is a
    file that cannot be read, [None] no file at all. *)
Definition find_contents (directory base language : list Z) : option (option (list Z)) :=
  let filename := directory ++ [47] ++ qm_name base language in
  if exists_ filename then Some (load_file filename)
  else Some <$> find_embedded_file (qm_name base language).

Definition i18n_set_language (directory base : option (list Z)) (language : list Z)
    (entries : entries_t) : result qm_error (Z * entries_t) :=
  match directory, base with
  | Some directory, Some base =>
      let language := match language with [] => i18n_get_language getenv | _ => language end in
      let contents :=
        match find_contents directory base language with
        | Some c => c
        | None =>
            if bool_decide (95 ∈ language)
            then default None (find_contents directory base (cut_at 95 language))
            else None
        end in
      match contents with
      | None => Ret (-1, entries)
      | Some data => read_qm data entries
      end
  | _, _ => Ret (-1, entries)
  end.
End Files.

(** [c_str()] ends at the first zero byte. *)
Definition i18n_translate (entries : entries_t) (s context : list Z) : list Z :=
  match entries !! (context ++ [0] ++ s) with
  | None => s
  | Some t => cut_at 0 t
  end.

(** ** The language has no path in it *)

Lemma cut_at_absent c s d : d ∈ cut_at c s -> d <> c /\ d ∈ s.
Proof.
  induction s as [|x s IH]; simpl; [by intros Hd%elem_of_nil|]. destruct (Z.eqb_spec x c); [by intros Hd%elem_of_nil|].
  rewrite !elem_of_cons. intros [->|Hd]; [by split; [|left]|]. destruct (IH Hd). auto.
Qed.

Definition is_language_char (c : Z) : Prop := 97 <= c <= 122 \/ c = 95 \/ c = 45.

(** Whatever the environment holds, the language is at most 16 characters long
    and has only lower-case letters, underscores and hyphens: no dot and no slash
    gets into the name of the file that is opened. *)
Theorem get_language_safe (getenv : list Z -> option (list Z)) :
  (length (i18n_get_language getenv) <= 16)%nat /\
  Forall is_language_char (i18n_get_language getenv).
Proof.
  unfold i18n_get_language. set (e := match _ with Some e => e | None => _ end). clearbody e.
  assert (Forall is_language_char (str_bytes "en")) as Hen
    by (unfold is_language_char; change (str_bytes "en") with [101; 110]; repeat (apply Forall_cons; split; [lia|]); constructor).
  destruct (forallb _ _) eqn:Hf; simpl negb; cbn match; [|split; [simpl; lia|done]].
  case_bool_decide as Hl; [split; [simpl; lia|done]|]. unfold MAX_LANGUAGE_SIZE in Hl. split; [lia|].
  rewrite forallb_forall in Hf. apply Forall_fmap, Forall_forall. intros c Hc.
  pose proof (Hf c ltac:(by apply list_elem_of_In)) as Hin. apply bool_decide_eq_true in Hin.
  apply cut_at_absent in Hc as [H64 Hc]. apply cut_at_absent in Hc as [H46 _].
  assert (forallb (fun c => (c =? 64) || (c =? 46) || (97 <=? to_lower c) && (to_lower c <=? 122)
                            || (to_lower c =? 95) || (to_lower c =? 45)) language_chars = true) as Hall
    by (vm_compute; reflexivity).
  pose proof (check_all _ _ Hall c Hin) as H. cbv beta in H. unfold is_language_char. simpl. lia.
Qed.

(** ** The reader stays inside the file *)

Lemma slice_ok data idx len :
  0 <= idx -> 0 <= len -> idx + len <= Z.of_nat (length data) ->
  slice data idx len = Ret (take (Z.to_nat len) (drop (Z.to_nat idx) data)).
Proof. intros H1 H2 H3. unfold slice. by rewrite !(proj2 (Z.leb_le _ _)) by done. Qed.

Lemma byte_at_ok data idx :
  0 <= idx -> idx + 1 <= Z.of_nat (length data) -> exists b, byte_at data idx = Ret b.
Proof. intros H1 H2. unfold byte_at. rewrite slice_ok by lia. by eexists. Qed.

Lemma be32_ok data idx :
  0 <= idx -> idx + 4 <= Z.of_nat (length data) -> exists v, be32 data idx = Ret v /\ 0 <= v < 2 ^ 32.
Proof. intros H1 H2. unfold be32. rewrite slice_ok by lia. eexists. split; [reflexivity|]. apply wrap_range. lia. Qed.

(** Where the offsets are, if there are any *)
Definition chunks_ok (datalen num offsets messages : Z) : Prop :=
  0 <= num /\ 0 <= messages /\ (offsets = 2 ^ 32 - 1 \/ 0 <= offsets /\ offsets + 8 * num <= datalen).

Lemma chunk_loop_ok fuel data idx num offsets messages :
  let datalen := Z.of_nat (length data) in
  datalen < 2 ^ 32 -> 0 <= idx -> datalen <= idx + Z.of_nat fuel -> chunks_ok datalen num offsets messages ->
  exists r, chunk_loop fuel data idx num offsets messages = Ret r /\
    match r with None => True | Some (n, o, m) => chunks_ok datalen n o m end.
Proof.
  intros datalen Hd. revert idx num offsets messages.
  induction fuel as [|fuel IH]; intros idx num offsets messages Hi Hf Hc; cbn [chunk_loop]; fold datalen;
    (destruct (Z.ltb_spec idx datalen) as [Hlt|Hge]; cbn [negb]; [|by eexists]); [lia|].
  destruct (Z.ltb_spec datalen (idx + 5)) as [H5|H5]; [by exists None|].
  destruct (byte_at_ok data idx) as [b ->]; [lia..|]. destruct (be32_ok data (idx + 1)) as (v & -> & Hv); [lia..|].
  cbn [mbind result_bind].
  destruct (Z.leb_spec datalen v), (Z.ltb_spec (datalen - v) (idx + 5)); cbn [orb]; try by exists None.
  assert (u32 (idx + 5) = idx + 5) as E by (apply wrap_small; unfold in_width; lia). rewrite E.
  assert (0 <= v / 8 /\ 8 * (v / 8) <= v) as Hv8 by (split; [apply Z.div_pos; lia|apply Z.mul_div_le; lia]).
  destruct Hc as (Hn & Hm & Ho).
  destruct (Z.eqb_spec b 0x42); [|destruct (Z.eqb_spec b 0x69)];
    (apply IH; [lia|lia|unfold chunks_ok; lia]).
Qed.

Lemma message_loop_ok fuel data idx s :
  0 <= idx -> Z.max 0 (Z.of_nat (length data) - idx) < Z.of_nat fuel ->
  exists r, message_loop fuel data idx s = Ret r.
Proof.
  revert idx s. induction fuel as [|fuel IH]; intros idx s Hi Hf; cbn [message_loop]; [lia|].
  remember (Z.of_nat (length data)) as datalen eqn:Hdl.
  destruct (Z.ltb_spec datalen (idx + 5)) as [H5|H5]; [by eexists|].
  destruct (byte_at_ok data idx) as [b ->]; [lia..|]. cbn [mbind result_bind].
  destruct (b =? 1); [by eexists|]. destruct (be32_ok data (idx + 1)) as (v & -> & Hv); [lia..|].
  cbn [mbind result_bind].
  destruct (Z.leb_spec datalen v), (Z.ltb_spec (datalen - v) (idx + 5)); cbn [orb]; try by eexists.
  rewrite slice_ok by lia. cbn [mbind result_bind]. apply IH; lia.
Qed.

Lemma messages_loop_ok n data m offsets messages s :
  0 <= m -> 0 <= offsets -> 0 <= messages -> offsets + 8 * (m + Z.of_nat n) <= Z.of_nat (length data) ->
  exists r, messages_loop n data m offsets messages s = Ret r.
Proof.
  revert m s. induction n as [|n IH]; intros m s Hm Ho Hg Hb; cbn [messages_loop]; [by eexists|].
  destruct (be32_ok data (offsets + m * 8)) as (v0 & -> & _); [lia..|].
  destruct (be32_ok data (offsets + m * 8 + 4)) as (v & -> & Hv); [lia..|]. cbn [mbind result_bind].
  destruct (_ || _); [by eexists|].
  destruct (message_loop_ok (S (length data)) data (v + messages) s) as [r ->]; [lia..|]. cbn [mbind result_bind].
  destruct r.1; [apply IH; lia|by eexists].
Qed.

Lemma read_qm_ok data entries :
  Z.of_nat (length data) < 2 ^ 32 ->
  exists code entries', read_qm data entries = Ret (code, entries') /\ (code = 0 \/ code = -1).
Proof.
  intros Hd. unfold read_qm. destruct (_ || _); [by eauto|].
  destruct (chunk_loop_ok (length data) data 16 (2 ^ 32 - 1) (2 ^ 32 - 1) (2 ^ 32 - 1)) as (r & E & Hr);
    [done|lia|lia|unfold chunks_ok; lia|].
  change (Z.of_nat (length qm_magic)) with 16. rewrite E. cbn [mbind result_bind].
  destruct r as [[[n o] m]|]; [|by eauto]. destruct (Z.eqb_spec o (2 ^ 32 - 1)); [by eauto|].
  destruct (m =? 2 ^ 32 - 1); [by eauto|]. destruct Hr as (Hn & Hm & [Ho|Ho]); [done|].
  destruct (messages_loop_ok (Z.to_nat n) data 0 o m (QmState [] [] [] entries)) as [r ->]; [lia..|].
  cbn [mbind result_bind]. destruct r.1; eauto.
Qed.

(** C37: whatever the translation file contains, reading it ends, with 0 or -1, and
    never reads outside of the file's buffer (for files below 4 GiB). *)
Theorem set_language_memory_safe (exists_ : list Z -> bool)
    (load_file find_embedded_file getenv : list Z -> option (list Z))
    (directory base : option (list Z)) (language : list Z) (entries : entries_t) :
  (forall f d, load_file f = Some d \/ find_embedded_file f = Some d -> Z.of_nat (length d) < 2 ^ 32) ->
  exists code entries',
    i18n_set_language exists_ load_file find_embedded_file getenv directory base language entries
    = Ret (code, entries') /\ (code = 0 \/ code = -1).
Proof.
  intros Hfiles. unfold i18n_set_language.
  destruct directory as [dir|], base as [b|]; try by eauto. set (lang := match language with [] => _ | _ => _ end).
  assert (forall l d, find_contents exists_ load_file find_embedded_file dir b l = Some (Some d) ->
            Z.of_nat (length d) < 2 ^ 32) as Hc.
  { intros l d. unfold find_contents. destruct (exists_ _); [intros [= E]; by eapply Hfiles; left|].
    intros E. apply fmap_Some in E as (x & E & [= <-]). eapply Hfiles. by right. }
  set (c := match find_contents _ _ _ dir b lang with Some c => c | None => _ end).
  assert (match c with Some d => Z.of_nat (length d) < 2 ^ 32 | None => True end) as H.
  { unfold c. destruct (find_contents _ _ _ dir b lang) as [[d|]|] eqn:E; [by eapply Hc|done|].
    case_bool_decide; [|done]. destruct (find_contents _ _ _ dir b (cut_at 95 lang)) as [[d|]|] eqn:E2; [by eapply Hc|done|done]. }
  destruct c as [d|]; [by apply read_qm_ok|by eauto].
Qed.

(** ** Texts *)

(** The code points of Unicode text *)
Definition is_scalar (c : Z) : Prop := 0 <= c < 0xd800 \/ 0xe000 <= c < 0x110000.

(** UTF-16 units of a code point and their bytes, most significant first *)
Definition units_of (c : Z) : list Z :=
  if c <? 65536 then [c] else [55296 + (c - 65536) / 1024; 56320 + (c - 65536) mod 1024].
Definition be_bytes (units : list Z) : list Z := units ≫= (fun u => [u / 256; u mod 256]).

Lemma unit_of_bytes u : 0 <= u < 65536 -> Z.lor (Z.shiftl (u / 256) 8) (u mod 256) = u.
Proof.
  intros Hu. rewrite lor_add_low; [|lia|by apply Z.mod_pos_bound].
  change (2 ^ 8) with 256. pose proof (Z.div_mod u 256). lia.
Qed.

(** The first unit of a text is no low surrogate. *)
Lemma head_unit cs : Forall is_scalar cs ->
  match cs ≫= units_of with [] => True | u :: _ => 0 <= u < 65536 /\ ~ 0xdc00 <= u <= 0xdfff end.
Proof.
  intros Hcs. destruct Hcs as [|c cs Hc _]; [done|]. simpl. unfold units_of, is_scalar in *.
  destruct (Z.ltb_spec c 65536); simpl; [lia|].
  pose proof (Z.div_le_lower_bound (c - 65536) 1024 0). pose proof (Z.div_lt_upper_bound (c - 65536) 1024 1024). lia.
Qed.

(** The constant subtracted is 0x35dfc00; 0x35fdc00 would give the code point. *)
Definition code_read (c : Z) : Z := if c <? 65536 then c else c + 0x1e000.

Lemma take_code_scalar c cs :
  is_scalar c -> Forall is_scalar cs ->
  exists b0 b1 data, be_bytes (units_of c ++ (cs ≫= units_of)) = b0 :: b1 :: data /\
    take_code b0 b1 data = (code_read c, be_bytes (cs ≫= units_of)).
Proof.
  intros Hc Hcs. unfold units_of at 1, code_read. unfold is_scalar in Hc. destruct (Z.ltb_spec c 65536) as [Hlt|Hge].
  - eexists _, _, _. split; [reflexivity|]. pose proof (head_unit cs Hcs) as Hh.
    unfold take_code. rewrite unit_of_bytes by lia. simpl be_bytes.
    destruct (cs ≫= units_of) as [|u us]; [done|]. simpl. destruct Hh as [Hu Hn]. rewrite unit_of_bytes by done.
    destruct ((0xd800 <=? c) && (c <=? 0xdbfff) && (0xdc00 <=? u) && (u <=? 0xdfff)) eqn:E; [lia|done].
  - set (q := (c - 65536) / 1024). set (r := (c - 65536) mod 1024).
    assert (c - 65536 = 1024 * q + r /\ 0 <= r < 1024 /\ 0 <= q < 1024) as (E & Hr & Hq).
    { unfold q, r. pose proof (Z.div_mod (c - 65536) 1024). pose proof (Z.mod_pos_bound (c - 65536) 1024).
      pose proof (Z.div_le_lower_bound (c - 65536) 1024 0). pose proof (Z.div_lt_upper_bound (c - 65536) 1024 1024). lia. }
    eexists _, _, _. split; [reflexivity|]. unfold take_code. cbn [app be_bytes mbind list_bind].
    rewrite !unit_of_bytes by lia.
    rewrite !(proj2 (Z.leb_le _ _)) by lia. cbn [andb].
    rewrite Z.shiftl_mul_pow2 by lia. change (2 ^ 10) with 1024.
    rewrite (wrap_small 32 ((55296 + q) * 1024)) by (unfold in_width; lia).
    rewrite wrap_small by (unfold in_width; lia). f_equal. lia.
Qed.

(** The UTF-8 form of a code point, by division *)
Lemma utf8_of_code_eq c :
  is_scalar c ->
  utf8_of_code c =
  if c <=? 0x7f then [c]
  else if c <=? 0x7ff then [192 + c / 64; 128 + c mod 64]
  else if c <=? 0xffff then [224 + c / 4096; 128 + c / 64 mod 64; 128 + c mod 64]
  else [240 + c / 262144; 128 + c / 4096 mod 64; 128 + c / 64 mod 64; 128 + c mod 64].
Proof.
  intros Hc. unfold is_scalar in Hc. unfold utf8_of_code.
  assert (forall x, Z.land x 0x3f = x mod 64) as Hl by (intros x; exact (land_ones_mod x 6 ltac:(lia))).
  assert (forall x, 0 <= x mod 64 < 64) as Hm by (intros x; by apply Z.mod_pos_bound).
  assert (forall x, u8 (Z.lor 0x80 (x mod 64)) = 128 + x mod 64) as H80.
  { intros x. change 0x80 with (Z.shiftl 2 6) at 1. rewrite lor_add_low by (done || lia). apply wrap_small.
    change (2 ^ 6) with 64. unfold in_width. specialize (Hm x). lia. }
  rewrite !Hl, !H80, !Z.shiftr_div_pow2 by lia.
  change (2 ^ 6) with 64. change (2 ^ 12) with 4096. change (2 ^ 18) with 262144.
  destruct (Z.leb_spec c 0x7f); [done|]. destruct (Z.leb_spec c 0x7ff); [|destruct (Z.leb_spec c 0xffff)]; f_equal.
  - pose proof (Z.div_pos c 64). pose proof (Z.div_lt_upper_bound c 64 32).
    change 0xc0 with (Z.shiftl 3 6) at 1. rewrite lor_add_low by (simpl; lia). change (2 ^ 6) with 64. apply wrap_small. unfold in_width. lia.
  - pose proof (Z.div_pos c 4096). pose proof (Z.div_lt_upper_bound c 4096 16).
    change 0xe0 with (Z.shiftl 7 5) at 1. rewrite lor_add_low by (simpl; lia). change (2 ^ 5) with 32. apply wrap_small. unfold in_width. lia.
  - pose proof (Z.div_pos c 262144). pose proof (Z.div_lt_upper_bound c 262144 5).
    change 0xf0 with (Z.shiftl 15 4) at 1. rewrite lor_add_low by (simpl; lia). change (2 ^ 4) with 16. apply wrap_small. unfold in_width. lia.
Qed.

Lemma utf16_loop_scalars cs fuel :
  Forall is_scalar cs -> (length cs <= fuel)%nat ->
  utf16_loop fuel (be_bytes (cs ≫= units_of)) = cs ≫= (fun c => utf8_of_code (code_read c)).
Proof.
  intros Hcs. revert fuel. induction Hcs as [|c cs Hc Hcs IH]; intros fuel Hf; [by destruct fuel|].
  destruct fuel as [|fuel]; [simpl in Hf; lia|]. rewrite !bind_cons.
  destruct (take_code_scalar c cs Hc Hcs) as (b0 & b1 & data & -> & E). cbn [utf16_loop]. rewrite E.
  f_equal. apply IH. simpl in Hf. lia.
Qed.

Lemma be_bytes_length us : length (be_bytes us) = (2 * length us)%nat.
Proof. unfold be_bytes. induction us as [|u us IH]; [done|]. rewrite bind_cons, length_app, IH. simpl. lia. Qed.

Lemma units_length cs : (length cs <= length (cs ≫= units_of))%nat.
Proof.
  induction cs as [|c cs IH]; [done|]. rewrite bind_cons, length_app. simpl. unfold units_of at 1.
  destruct (c <? 65536); simpl; lia.
Qed.

(** Reading UTF-8 the way [Translations] does gives the units back. *)
Lemma utf16_of_utf8 c rest :
  is_scalar c -> Translations.utf16 (utf8_of_code c ++ rest) = units_of c ++ Translations.utf16 rest.
Proof.
  intros Hc. rewrite utf8_of_code_eq by done. unfold is_scalar, units_of in *.
  pose proof (Z.div_mod c 64) as D1. pose proof (Z.mod_pos_bound c 64) as M1.
  pose proof (Z.div_mod (c / 64) 64) as D2. pose proof (Z.mod_pos_bound (c / 64) 64) as M2.
  pose proof (Z.div_mod (c / 4096) 64) as D3. pose proof (Z.mod_pos_bound (c / 4096) 64) as M3.
  assert (c / 64 / 64 = c / 4096) as Q2 by (by rewrite Z.div_div). rewrite Q2 in D2.
  assert (c / 4096 / 64 = c / 262144) as Q3 by (by rewrite Z.div_div). rewrite Q3 in D3.
  pose proof (Z.div_pos c 64) as P1. pose proof (Z.div_pos c 4096) as P2. pose proof (Z.div_pos c 262144) as P3.
  destruct (Z.leb_spec c 0x7f).
  - cbn [app Translations.utf16]. by rewrite !(proj2 (Z.ltb_lt _ _)) by lia.
  - destruct (Z.leb_spec c 0x7ff); [|destruct (Z.leb_spec c 0xffff)]; cbn [app Translations.utf16].
    + rewrite (proj2 (Z.ltb_ge (192 + c / 64) 128)), (proj2 (Z.ltb_lt (192 + c / 64) 224)), (proj2 (Z.ltb_lt c 65536)) by lia.
      simpl. f_equal. lia.
    + rewrite (proj2 (Z.ltb_ge (224 + c / 4096) 128)), (proj2 (Z.ltb_ge (224 + c / 4096) 224)),
        (proj2 (Z.ltb_lt (224 + c / 4096) 240)), (proj2 (Z.ltb_lt c 65536)) by lia. simpl. f_equal. lia.
    + rewrite (proj2 (Z.ltb_ge (240 + c / 262144) 128)), (proj2 (Z.ltb_ge (240 + c / 262144) 224)),
        (proj2 (Z.ltb_ge (240 + c / 262144) 240)), (proj2 (Z.ltb_ge c 65536)) by lia. cbv zeta.
      replace ((240 + c / 262144 - 240) * 262144 + (128 + c / 4096 mod 64 - 128) * 4096
               + (128 + c / 64 mod 64 - 128) * 64 + (128 + c mod 64 - 128) - 65536) with (c - 65536) by lia.
      done.
Qed.

(** A translation within the Basic Multilingual Plane becomes its UTF-8 form,
    which reads back as the same UTF-16 text; a code point beyond it, such as an
    emoji, becomes the one 0x1e000 higher, another character. *)
Theorem utf16_spec (cs : list Z) :
  Forall is_scalar cs ->
  utf16_to_utf8 (be_bytes (cs ≫= units_of)) = cs ≫= (fun c => utf8_of_code (code_read c)) /\
  (Forall (fun c => c < 65536) cs ->
   Translations.utf16 (utf16_to_utf8 (be_bytes (cs ≫= units_of))) = cs ≫= units_of).
Proof.
  intros Hcs. unfold utf16_to_utf8. rewrite utf16_loop_scalars; [|done|].
  - split; [done|]. intros Hb. induction Hcs as [|c cs Hc Hcs IH]; [done|].
    apply Forall_cons in Hb as [Hlt Hb]. rewrite !bind_cons.
    unfold code_read at 1. rewrite (proj2 (Z.ltb_lt c 65536)) by done. rewrite utf16_of_utf8 by done.
    f_equal. by apply IH.
  - rewrite be_bytes_length. pose proof (units_length cs). lia.
Qed.

(** ** A well-formed file *)

(** What the compiler of catalogues writes: a length in four bytes, a field of a
    message, a message (context, source text and translation, the last in UTF-16), the
    table of offsets and the two chunks. *)
Definition be4 (v : Z) : list Z := [v / 2 ^ 24; v / 2 ^ 16 mod 256; v / 2 ^ 8 mod 256; v mod 256].
Definition field (t : Z) (s : list Z) : list Z := t :: be4 (Z.of_nat (length s)) ++ s.
Definition qm_message : Type := list Z * list Z * list Z.
Definition body (m : qm_message) : list Z :=
  let '(context, source, translation) := m in
  field 0x07 context ++ field 0x06 source ++ field 0x03 translation ++ [0x01].
Definition bodies (ms : list qm_message) : list Z := ms ≫= body.
Definition offset (ms : list qm_message) (i : nat) : Z := Z.of_nat (length (bodies (take i ms))).
Definition offsets_table (ms : list qm_message) : list Z :=
  seq 0 (length ms) ≫= (fun i => be4 0 ++ be4 (offset ms i)).
Definition qm_file (ms : list qm_message) : list Z :=
  qm_magic ++ field 0x69 (bodies ms) ++ field 0x42 (offsets_table ms).

Definition store_message (entries : entries_t) (m : qm_message) : entries_t :=
  let '(context, source, translation) := m in
  <[context ++ [0] ++ source := utf16_to_utf8 translation]> entries.

Lemma slice_mid pre mid post :
  slice (pre ++ mid ++ post) (Z.of_nat (length pre)) (Z.of_nat (length mid)) = Ret mid.
Proof.
  rewrite slice_ok by (rewrite ?length_app; lia). rewrite !Nat2Z.id, drop_app_length, take_app_length. done.
Qed.

Lemma byte_at_mid pre b post : byte_at (pre ++ b :: post) (Z.of_nat (length pre)) = Ret b.
Proof. unfold byte_at. pose proof (slice_mid pre [b] post) as E. simpl in E. change (Z.of_nat 1) with 1 in E. by rewrite E. Qed.

Lemma be32_mid pre v post :
  0 <= v < 2 ^ 32 -> be32 (pre ++ be4 v ++ post) (Z.of_nat (length pre)) = Ret v.
Proof.
  intros Hv. unfold be32. change 4 with (Z.of_nat (length (be4 v))). rewrite slice_mid. cbn [mbind result_bind].
  f_equal. unfold be4. cbn [nth].
  set (b0 := v / 2 ^ 24). set (b1 := v / 2 ^ 16 mod 256). set (b2 := v / 2 ^ 8 mod 256). set (b3 := v mod 256).
  assert (0 <= b0 < 256 /\ 0 <= b1 < 256 /\ 0 <= b2 < 256 /\ 0 <= b3 < 256 /\
          v = b0 * 2 ^ 24 + b1 * 2 ^ 16 + b2 * 2 ^ 8 + b3) as (H0 & H1 & H2 & H3 & E).
  { unfold b0, b1, b2, b3. change (2 ^ 24) with (256 * 256 * 256). change (2 ^ 16) with (256 * 256).
    change (2 ^ 8) with 256. rewrite <- !Z.div_div by lia.
    pose proof (Z.div_mod v 256). pose proof (Z.div_mod (v / 256) 256). pose proof (Z.div_mod (v / 256 / 256) 256).
    pose proof (Z.mod_pos_bound v 256). pose proof (Z.mod_pos_bound (v / 256) 256).
    pose proof (Z.mod_pos_bound (v / 256 / 256) 256).
    split_and!; try lia. }
  clearbody b0 b1 b2 b3.
  assert (forall a n, 0 <= n -> Z.shiftl a n = a * 2 ^ n) as Hs by (intros; by apply Z.shiftl_mul_pow2).
  rewrite lor_add_low by (rewrite ?Hs; lia). rewrite (Hs b1) by lia.
  replace (b0 * 2 ^ 24 + b1 * 2 ^ 16) with (Z.shiftl (b0 * 256 + b1) 16) by (rewrite Hs; lia).
  rewrite lor_add_low by (rewrite ?Hs; lia). rewrite (Hs b2) by lia.
  replace ((b0 * 256 + b1) * 2 ^ 16 + b2 * 2 ^ 8) with (Z.shiftl ((b0 * 256 + b1) * 256 + b2) 8) by (rewrite Hs; lia).
  rewrite lor_add_low by lia. rewrite wrap_small by (unfold in_width; lia). lia.
Qed.

Lemma field_length t s : length (field t s) = (5 + length s)%nat.
Proof. done. Qed.

(** A field: its type, its size and its bytes are read back. *)
Lemma read_field data pre t s post :
  data = pre ++ field t s ++ post -> Z.of_nat (length data) < 2 ^ 32 ->
  byte_at data (Z.of_nat (length pre)) = Ret t /\
  be32 data (Z.of_nat (length pre) + 1) = Ret (Z.of_nat (length s)) /\
  slice data (Z.of_nat (length pre) + 5) (Z.of_nat (length s)) = Ret s.
Proof.
  intros -> Hl. rewrite !length_app, field_length in Hl. unfold field. split_and!.
  - apply byte_at_mid.
  - replace (Z.of_nat (length pre) + 1) with (Z.of_nat (length (pre ++ [t]))) by (rewrite length_app; simpl; lia).
    replace (pre ++ (t :: be4 (Z.of_nat (length s)) ++ s) ++ post)
      with ((pre ++ [t]) ++ be4 (Z.of_nat (length s)) ++ (s ++ post)) by (by rewrite <- !app_assoc).
    apply be32_mid. lia.
  - replace (Z.of_nat (length pre) + 5) with (Z.of_nat (length (pre ++ t :: be4 (Z.of_nat (length s)))))
      by (rewrite length_app; simpl; lia).
    replace (pre ++ (t :: be4 (Z.of_nat (length s)) ++ s) ++ post)
      with ((pre ++ t :: be4 (Z.of_nat (length s))) ++ s ++ post) by (by rewrite <- !app_assoc).
    apply slice_mid.
Qed.

(** One field of a message *)
Lemma message_field fuel data pre t s post st :
  data = pre ++ field t s ++ post -> Z.of_nat (length data) < 2 ^ 32 -> t <> 1 ->
  message_loop (S fuel) data (Z.of_nat (length pre)) st =
  message_loop fuel data (Z.of_nat (length (pre ++ field t s)))
    (if t =? 0x03 then QmState (utf16_to_utf8 s) (qm_source st) (qm_context st) (qm_entries st)
     else if t =? 0x06 then QmState (qm_translation st) s (qm_context st) (qm_entries st)
     else if t =? 0x07 then QmState (qm_translation st) (qm_source st) s (qm_entries st) else st).
Proof.
  intros E Hl Ht. destruct (read_field data pre t s post E Hl) as (E1 & E2 & E3).
  assert (length data = length pre + (5 + length s) + length post)%nat as Hlen
    by (rewrite E, !length_app, field_length; lia).
  cbn [message_loop]. rewrite E1. cbn [mbind result_bind].
  rewrite (proj2 (Z.ltb_ge _ _)), (proj2 (Z.eqb_neq t 1)) by (done || lia). rewrite E2. cbn [mbind result_bind].
  rewrite (proj2 (Z.leb_gt _ _)), (proj2 (Z.ltb_ge _ _)) by lia. cbn [orb]. rewrite E3. cbn [mbind result_bind].
  f_equal. rewrite length_app, field_length. lia.
Qed.

Lemma message_body fuel data pre m post entries :
  data = pre ++ body m ++ post -> Z.of_nat (length data) < 2 ^ 32 -> (4 <= length post)%nat ->
  message_loop (4 + fuel) data (Z.of_nat (length pre)) (QmState [] [] [] entries)
  = Ret (true, QmState [] [] [] (store_message entries m)).
Proof.
  destruct m as [[ctx src] tr]. unfold body. intros E Hl Hp. rewrite <- !app_assoc in E. cbn [plus].
  rewrite (message_field _ _ _ _ _ _ _ E) by done. rewrite app_assoc in E.
  rewrite (message_field _ _ _ _ _ _ _ E) by done. rewrite app_assoc in E.
  rewrite (message_field _ _ _ _ _ _ _ E) by done. rewrite app_assoc in E. cbn [Z.eqb Pos.eqb].
  set (pre' := ((pre ++ field 7 ctx) ++ field 6 src) ++ field 3 tr) in *.
  assert (length data = length pre' + 1 + length post)%nat as Hlen by (rewrite E, !length_app; simpl; lia).
  cbn [message_loop]. rewrite (proj2 (Z.ltb_ge _ _)) by lia.
  assert (byte_at data (Z.of_nat (length pre')) = Ret 1) as -> by (rewrite E; apply byte_at_mid). done.
Qed.

Lemma bodies_split ms i m :
  ms !! i = Some m -> bodies ms = bodies (take i ms) ++ body m ++ bodies (drop (S i) ms).
Proof.
  intros Hm. unfold bodies. rewrite <- (take_drop_middle ms i m Hm) at 1. by rewrite bind_app, bind_cons.
Qed.

Lemma table_rows (f : nat -> Z) k n : length (seq k n ≫= (fun i => be4 0 ++ be4 (f i))) = (8 * n)%nat.
Proof.
  revert k. induction n as [|n IH]; intros k; [done|]. cbn [seq]. rewrite bind_cons, length_app, IH.
  change (length (be4 0 ++ be4 (f k))) with 8%nat. lia.
Qed.

(** The entry of message [i] in the table of offsets *)
Lemma table_split ms i :
  (i < length ms)%nat ->
  exists pre post, offsets_table ms = pre ++ be4 0 ++ be4 (offset ms i) ++ post /\ length pre = (8 * i)%nat.
Proof.
  intros Hi. unfold offsets_table.
  replace (length ms) with (i + S (length ms - i - 1))%nat by lia. rewrite seq_app. cbn [seq].
  rewrite bind_app, bind_cons, Nat.add_0_l. rewrite <- app_assoc. eexists _, _. split; [reflexivity|].
  apply table_rows.
Qed.

Lemma offsets_table_length ms : length (offsets_table ms) = (8 * length ms)%nat.
Proof.
  apply table_rows.
Qed.

(** All messages from the [i]-th on *)
Lemma messages_read data A C B ms n i entries :
  data = A ++ bodies ms ++ B -> data = C ++ offsets_table ms -> (4 <= length B)%nat ->
  Z.of_nat (length data) < 2 ^ 32 -> (i + n = length ms)%nat ->
  messages_loop n data (Z.of_nat i) (Z.of_nat (length C)) (Z.of_nat (length A)) (QmState [] [] [] entries)
  = Ret (true, QmState [] [] [] (fold_left store_message (drop i ms) entries)).
Proof.
  intros EA EC HB Hl. revert i entries. induction n as [|n IH]; intros i entries Hn.
  - by rewrite drop_ge by lia.
  - destruct (lookup_lt_is_Some_2 ms i) as [m Hm]; [lia|].
    destruct (table_split ms i) as (pre & post & ET & Hp); [lia|].
    assert (length data = length A + length (bodies ms) + length B)%nat as HlA
      by (rewrite EA, !length_app; lia).
    assert (offset ms i + Z.of_nat (length (body m)) <= Z.of_nat (length (bodies ms))) as Ho
      by (unfold offset; rewrite (bodies_split ms i m Hm), !length_app; lia).
    assert (0 <= offset ms i) by (unfold offset; lia).
    cbn [messages_loop].
    assert (data = (C ++ pre) ++ be4 0 ++ (be4 (offset ms i) ++ post)) as D1
      by (rewrite EC, ET, <- !app_assoc; done).
    assert (data = (C ++ pre ++ be4 0) ++ be4 (offset ms i) ++ post) as D2
      by (rewrite EC, ET, <- !app_assoc; done).
    pose proof (be32_mid (C ++ pre) 0 (be4 (offset ms i) ++ post) ltac:(lia)) as R1.
    pose proof (be32_mid (C ++ pre ++ be4 0) (offset ms i) post ltac:(lia)) as R2.
    rewrite <- D1 in R1. rewrite <- D2 in R2. rewrite length_app, Hp in R1. rewrite !length_app, Hp in R2.
    replace (Z.of_nat (length C) + Z.of_nat i * 8) with (Z.of_nat (length C + 8 * i)) by lia.
    replace (Z.of_nat (length C + 8 * i) + 4) with (Z.of_nat (length C + (8 * i + length (be4 0)))) by (simpl; lia).
    rewrite R1, R2. cbn [mbind result_bind].
    assert (offset ms i + Z.of_nat (length A) = Z.of_nat (length (A ++ bodies (take i ms)))) as ->
      by (unfold offset; rewrite length_app; lia).
    rewrite length_app. rewrite !(proj2 (Z.ltb_ge _ _)) by (unfold offset in *; lia). cbn [orb]. rewrite <- length_app.
    assert (data = (A ++ bodies (take i ms)) ++ body m ++ (bodies (drop (S i) ms) ++ B)) as Ed
      by (rewrite EA, (bodies_split ms i m Hm), <- !app_assoc; done).
    assert (exists fuel, S (length data) = 4 + fuel)%nat as [fuel ->] by (exists (length data - 3)%nat; lia).
    rewrite (message_body fuel data _ m _ entries Ed Hl) by (rewrite length_app; lia). cbn [mbind result_bind fst snd].
    replace (Z.of_nat i + 1) with (Z.of_nat (S i)) by lia. rewrite IH by lia.
    by rewrite (drop_S _ _ _ Hm).
Qed.

(** One chunk of the file *)
Lemma chunk_field fuel data pre t s post num offsets messages :
  data = pre ++ field t s ++ post -> Z.of_nat (length data) < 2 ^ 32 ->
  chunk_loop (S fuel) data (Z.of_nat (length pre)) num offsets messages =
  let here := Z.of_nat (length pre) + 5 in
  let '(num, offsets, messages) :=
    if t =? 0x42 then (Z.of_nat (length s) / 8, here, messages)
    else if t =? 0x69 then (num, offsets, here) else (num, offsets, messages) in
  chunk_loop fuel data (Z.of_nat (length (pre ++ field t s))) num offsets messages.
Proof.
  intros E Hl. destruct (read_field data pre t s post E Hl) as (E1 & E2 & _).
  assert (length data = length pre + (5 + length s) + length post)%nat as Hlen
    by (rewrite E, !length_app, field_length; lia).
  cbn [chunk_loop]. rewrite (proj2 (Z.ltb_lt _ _)) by lia. cbn [negb].
  rewrite (proj2 (Z.ltb_ge _ _)) by lia. rewrite E1, E2. cbn [mbind result_bind].
  rewrite (proj2 (Z.leb_gt _ _)), (proj2 (Z.ltb_ge _ _)) by lia. cbn [orb].
  rewrite wrap_small by (unfold in_width; lia). cbv zeta.
  replace (Z.of_nat (length pre) + 5 + Z.of_nat (length s)) with (Z.of_nat (length (pre ++ field t s)))
    by (rewrite length_app, field_length; lia).
  done.
Qed.

Lemma read_qm_file ms entries :
  Z.of_nat (length (qm_file ms)) < 2 ^ 32 - 1 ->
  read_qm (qm_file ms) entries = Ret (0, fold_left store_message ms entries).
Proof.
  intros Hl'. set (data := qm_file ms) in *. assert (Z.of_nat (length data) < 2 ^ 32) as Hl by lia.
  assert (data = qm_magic ++ field 0x69 (bodies ms) ++ field 0x42 (offsets_table ms)) as E1 by done.
  assert (data = (qm_magic ++ field 0x69 (bodies ms)) ++ field 0x42 (offsets_table ms) ++ []) as E2
    by (rewrite app_nil_r, <- app_assoc; done).
  assert (length data = 26 + length (bodies ms) + 8 * length ms)%nat as Hlen.
  { rewrite E1, !length_app, !field_length, offsets_table_length. simpl. lia. }
  unfold read_qm. rewrite bool_decide_eq_false_2 by (simpl; lia).
  rewrite bool_decide_eq_true_2 by (rewrite E1; apply take_app_length). cbn [orb negb].
  assert (exists fuel, length data = S (S fuel)) as [fuel Ef] by (exists (length data - 2)%nat; lia). rewrite Ef.
  rewrite (chunk_field _ _ _ _ _ _ _ _ _ E1 Hl). cbn [Z.eqb Pos.eqb]. cbv zeta.
  rewrite (chunk_field _ _ _ _ _ _ _ _ _ E2 Hl). cbn [Z.eqb Pos.eqb]. cbv zeta.
  rewrite app_nil_r in E2. rewrite <- E2.
  assert (forall f a b c, chunk_loop f data (Z.of_nat (length data)) a b c = Ret (Some (a, b, c))) as ->
    by (intros [|f] a b c; cbn [chunk_loop]; by rewrite Z.ltb_irrefl).
  cbn [mbind result_bind]. rewrite !length_app, field_length. rewrite offsets_table_length.
  replace (Z.of_nat (8 * length ms) / 8) with (Z.of_nat (length ms))
    by (rewrite Nat2Z.inj_mul; change (Z.of_nat 8) with 8; rewrite Z.mul_comm, Z.div_mul by lia; done).
  assert (length qm_magic = 16)%nat as H16 by done. rewrite H16.
  destruct (Z.eqb_spec (Z.of_nat (16 + (5 + length (bodies ms))) + 5) (2 ^ 32 - 1)); [lia|].
  destruct (Z.eqb_spec (Z.of_nat 16 + 5) (2 ^ 32 - 1)); [lia|]. rewrite Nat2Z.id.
  set (A := qm_magic ++ 0x69 :: be4 (Z.of_nat (length (bodies ms)))).
  set (C := A ++ bodies ms ++ 0x42 :: be4 (Z.of_nat (length (offsets_table ms)))).
  replace (Z.of_nat (16 + (5 + length (bodies ms))) + 5) with (Z.of_nat (length C))
    by (unfold C, A; rewrite !length_app; simpl; lia).
  replace (Z.of_nat 16 + 5) with (Z.of_nat (length A)) by (unfold A; rewrite length_app; simpl; lia).
  pose proof (messages_read data A C (field 0x42 (offsets_table ms)) ms (length ms) 0 entries) as R.
  change (Z.of_nat 0) with 0 in R. rewrite R; [done| | |rewrite field_length; lia|done|lia].
  - rewrite E1. unfold A, field at 1. by rewrite <- !app_assoc.
  - rewrite E1. unfold C, A, field. by rewrite <- !app_assoc.
Qed.

Lemma store_lookup ms entries m :
  NoDup ((fun m : qm_message => m.1.1 ++ [0] ++ m.1.2) <$> ms) -> m ∈ ms ->
  fold_left store_message ms entries !! (m.1.1 ++ [0] ++ m.1.2) = Some (utf16_to_utf8 m.2).
Proof.
  revert entries. induction ms as [|x ms IH] using rev_ind; intros entries Hnd Hm; [by apply elem_of_nil in Hm|].
  rewrite fold_left_app. cbn [fold_left]. destruct x as [[c s] t]. cbn [store_message].
  rewrite fmap_app in Hnd. apply NoDup_app in Hnd as (Hnd & Hx & _).
  apply elem_of_app in Hm as [Hm|Hm].
  - rewrite lookup_insert_ne; [by apply IH|]. intros Eq.
    apply (Hx (m.1.1 ++ [0] ++ m.1.2)); [by apply list_elem_of_fmap; exists m|].
    rewrite <- Eq. by left.
  - apply list_elem_of_singleton in Hm as ->. by rewrite lookup_insert_eq.
Qed.

(** A well-formed catalogue is read completely: the result is 0 and each of its
    texts is then translated, in its context, by the UTF-8 form of its translation. *)
Theorem catalogue_translates (ms : list qm_message) (entries : entries_t) :
  Z.of_nat (length (qm_file ms)) < 2 ^ 32 - 1 ->
  NoDup ((fun m : qm_message => m.1.1 ++ [0] ++ m.1.2) <$> ms) ->
  exists entries', read_qm (qm_file ms) entries = Ret (0, entries') /\
    forall context source translation, (context, source, translation) ∈ ms ->
      i18n_translate entries' source context = cut_at 0 (utf16_to_utf8 translation).
Proof.
  intros Hl Hnd. exists (fold_left store_message ms entries). split; [by apply read_qm_file|].
  intros c s t Hm. unfold i18n_translate. pose proof (store_lookup ms entries _ Hnd Hm) as E. cbn [fst snd] in E.
  by rewrite E.
Qed.

(** ** Witnesses *)

Lemma set_language_memory_safe_witness :
  exists code entries',
    i18n_set_language (fun _ => true) (fun _ => Some (qm_magic ++ [0x42; 255; 255])) (fun _ => None)
      (fun _ => None) (Some (str_bytes "dir")) (Some (str_bytes "monero")) [] ∅
    = Ret (code, entries') /\ (code = 0 \/ code = -1).
Proof.
  apply (set_language_memory_safe (fun _ => true) (fun _ => Some (qm_magic ++ [0x42; 255; 255])) (fun _ => None)).
  intros f d [[= <-]|[=]]. simpl. lia.
Defined.

Lemma utf16_spec_witness : utf16_to_utf8 (be_bytes ([0x1f600] ≫= units_of)) = utf8_of_code 0x3d600.
Proof. exact (proj1 (utf16_spec [0x1f600] ltac:(constructor; [unfold is_scalar; lia|constructor]))). Defined.

Definition demo_messages : list qm_message :=
  [(str_bytes "Main", str_bytes "Yes", [0; 74; 0; 97]); (str_bytes "Main", str_bytes "No", [0; 78; 0; 101; 0; 105; 0; 110])].

Lemma catalogue_translates_witness :
  exists entries', read_qm (qm_file demo_messages) ∅ = Ret (0, entries') /\
    i18n_translate entries' (str_bytes "No") (str_bytes "Main") = str_bytes "Nein".
Proof.
  destruct (catalogue_translates demo_messages ∅) as (entries' & E & H); [by vm_compute|by_decide|].
  exists entries'. split; [exact E|]. rewrite (H (str_bytes "Main") (str_bytes "No") [0; 78; 0; 101; 0; 105; 0; 110]);
    [vm_compute; reflexivity|right; left].
Defined.
