(* ===== verification/RollingMedian.v ===== *)
(** * Rolling median: epee's rolling_median.h and the median of misc_language.h

    [rolling_median_t] keeps the last [N] items of a stream in a circular queue
    [data] and, over it, two heaps that share the root [heap[0]]: a min-heap at the
    positive positions and a max-heap at the negative ones; [pos] is the inverse of
    [heap]. The three arrays are lists; [heap] points to the middle of its storage,
    so position [i] is cell [i + N / 2]. An access outside an array, an [int] that
    overflows and a loop out of fuel are [None], so that a result shows that none of
    them happens. *)

From stdpp Require Import sorting.
From S2P Require Import Prelude SortedLists.

(** ** The median of a vector: misc_language.h *)

Definition get_mid (a b : Z) : Z :=
  u64 (a / 2 + b / 2 + u64 (a - 2 * (a / 2) + (b - 2 * (b / 2))) / 2).

(** The value and the vector, which is sorted in place *)
Definition median (v : list Z) : option (Z * list Z) :=
  match v with
  | [] => Some (0, v)
  | [x] => Some (x, v)
  | _ =>
    let n := (length v / 2)%nat in
    let v := merge_sort Z.le v in
    if bool_decide (length v mod 2 ≠ 0)%nat then
      x ← v !! n; Some (x, v)
    else
      a ← v !! (n - 1)%nat; b ← v !! n; Some (get_mid a b, v)
  end.

(** ** Arrays and [int] arithmetic *)

(** Cell [i] of an array whose pointer is [off] cells after its storage *)
Definition rd (off : Z) (l : list Z) (i : Z) : option Z :=
  if 0 <=? off + i then l !! Z.to_nat (off + i) else None.

Definition wr (off : Z) (l : list Z) (i x : Z) : option (list Z) :=
  if (0 <=? off + i) && (off + i <? Z.of_nat (length l))
  then Some (<[Z.to_nat (off + i) := x]> l) else None.

Definition INT_MAX : Z := 2 ^ 31 - 1.

(** An [int] result; overflow is undefined *)
Definition int_ok (z : Z) : option Z :=
  if (- INT_MAX - 1 <=? z) && (z <=? INT_MAX) then Some z else None.

(** ** The structure *)

Record rolling_median_t := {
  data : list Z;
  pos : list Z;
  heap : list Z;
  N : Z;
  idx : Z;
  minCt : Z;
  maxCt : Z;
  sz : Z }.

Definition set_data (m : rolling_median_t) l : rolling_median_t :=
  {| data := l; pos := pos m; heap := heap m; N := N m; idx := idx m;
     minCt := minCt m; maxCt := maxCt m; sz := sz m |}.
Definition set_arrays (m : rolling_median_t) p h : rolling_median_t :=
  {| data := data m; pos := p; heap := h; N := N m; idx := idx m;
     minCt := minCt m; maxCt := maxCt m; sz := sz m |}.
Definition set_counts (m : rolling_median_t) i mn mx s : rolling_median_t :=
  {| data := data m; pos := pos m; heap := heap m; N := N m; idx := i;
     minCt := mn; maxCt := mx; sz := s |}.

(** Where [heap] points in its storage *)
Definition heap_off (m : rolling_median_t) : Z := N m ÷ 2.
Definition rd_heap m i : option Z := rd (heap_off m) (heap m) i.
Definition rd_data m i : option Z := rd 0 (data m) i.
Definition rd_pos m i : option Z := rd 0 (pos m) i.

Definition mmless (m : rolling_median_t) (i j : Z) : option bool :=
  hi ← rd_heap m i; a ← rd_data m hi;
  hj ← rd_heap m j; b ← rd_data m hj;
  Some (a <? b).

Definition mmexchange (m : rolling_median_t) (i j : Z) : option rolling_median_t :=
  t ← rd_heap m i;
  hj ← rd_heap m j;
  heap1 ← wr (heap_off m) (heap m) i hj;
  heap2 ← wr (heap_off m) heap1 j t;
  ki ← rd (heap_off m) heap2 i; pos1 ← wr 0 (pos m) ki i;
  kj ← rd (heap_off m) heap2 j; pos2 ← wr 0 pos1 kj j;
  Some (set_arrays m pos2 heap2).

Definition mmCmpExch (m : rolling_median_t) (i j : Z) : option (bool * rolling_median_t) :=
  b ← mmless m i j;
  if (b : bool) then m' ← mmexchange m i j; Some (true, m') else Some (false, m).

(** The loop of [minSortDown], from the test of its condition *)
Fixpoint minSortDown_loop (fuel : nat) (m : rolling_median_t) (i : Z) : option rolling_median_t :=
  match fuel with
  | O => None
  | S fuel =>
    if i <=? minCt m then
      i ← (if i <? minCt m then b ← mmless m (i + 1) i; Some (if (b : bool) then i + 1 else i)
           else Some i);
      '(b, m) ← mmCmpExch m i (i ÷ 2);
      if (b : bool) then i ← int_ok (i * 2); minSortDown_loop fuel m i else Some m
    else Some m
  end.

Definition minSortDown (m : rolling_median_t) (i : Z) : option rolling_median_t :=
  i ← int_ok (i * 2); minSortDown_loop (S (Z.to_nat (minCt m))) m i.

Fixpoint maxSortDown_loop (fuel : nat) (m : rolling_median_t) (i : Z) : option rolling_median_t :=
  match fuel with
  | O => None
  | S fuel =>
    if - maxCt m <=? i then
      i ← (if - maxCt m <? i then b ← mmless m i (i - 1); Some (if (b : bool) then i - 1 else i)
           else Some i);
      '(b, m) ← mmCmpExch m (i ÷ 2) i;
      if (b : bool) then i ← int_ok (i * 2); maxSortDown_loop fuel m i else Some m
    else Some m
  end.

Definition maxSortDown (m : rolling_median_t) (i : Z) : option rolling_median_t :=
  i ← int_ok (i * 2); maxSortDown_loop (S (Z.to_nat (maxCt m))) m i.

(** The value returned is that of the final test [i == 0]. *)
Fixpoint minSortUp_loop (fuel : nat) (m : rolling_median_t) (i : Z)
  : option (bool * rolling_median_t) :=
  match fuel with
  | O => None
  | S fuel =>
    if 0 <? i then
      '(b, m) ← mmCmpExch m i (i ÷ 2);
      if (b : bool) then minSortUp_loop fuel m (i ÷ 2) else Some (i =? 0, m)
    else Some (i =? 0, m)
  end.

Definition minSortUp (m : rolling_median_t) (i : Z) : option (bool * rolling_median_t) :=
  minSortUp_loop (S (Z.to_nat i)) m i.

Fixpoint maxSortUp_loop (fuel : nat) (m : rolling_median_t) (i : Z)
  : option (bool * rolling_median_t) :=
  match fuel with
  | O => None
  | S fuel =>
    if i <? 0 then
      '(b, m) ← mmCmpExch m (i ÷ 2) i;
      if (b : bool) then maxSortUp_loop fuel m (i ÷ 2) else Some (i =? 0, m)
    else Some (i =? 0, m)
  end.

Definition maxSortUp (m : rolling_median_t) (i : Z) : option (bool * rolling_median_t) :=
  maxSortUp_loop (S (Z.to_nat (- i))) m i.

(** The position of item [k] in the initial fill pattern: median, max, min, max ... *)
Definition fill_pos (k : Z) : Z := ((k + 1) ÷ 2) * (if Z.land k 1 =? 0 then 1 else -1).

(** The loop [while (nItems--)] of [clear] *)
Fixpoint clear_loop (nItems : nat) (m : rolling_median_t) : option rolling_median_t :=
  match nItems with
  | O => Some m
  | S k =>
    pos' ← wr 0 (pos m) (Z.of_nat k) (fill_pos (Z.of_nat k));
    p ← rd 0 pos' (Z.of_nat k);
    heap' ← wr (heap_off m) (heap m) p (Z.of_nat k);
    clear_loop k (set_arrays m pos' heap')
  end.

Definition clear (m : rolling_median_t) : option rolling_median_t :=
  clear_loop (Z.to_nat (N m)) (set_counts m 0 0 0 0).

(** The constructor: [ws] are the contents of the memory [malloc] returns, as [n]
    items, [n] positions and [n] heap cells; a size that does not fit an [int] is
    refused. *)
Definition make (n : Z) (wd wp wh : list Z) : option rolling_median_t :=
  _ ← int_ok (n * (8 + 4 * 2));
  clear {| data := wd; pos := wp; heap := wh; N := n; idx := 0; minCt := 0; maxCt := 0; sz := 0 |}.

Definition size (m : rolling_median_t) : Z := sz m.

Definition insert (m : rolling_median_t) (v : Z) : option rolling_median_t :=
  p ← rd_pos m (idx m);
  old ← rd_data m (idx m);
  data' ← wr 0 (data m) (idx m) v;
  let m := set_counts (set_data m data') ((idx m + 1) `rem` N m) (minCt m) (maxCt m)
                      (Z.min (sz m + 1) (N m)) in
  if 0 <? p then
    if negb (minCt m <? (N m - 1) ÷ 2) && (old <? v) then minSortDown m p
    else
      let m := if minCt m <? (N m - 1) ÷ 2
               then set_counts m (idx m) (minCt m + 1) (maxCt m) (sz m) else m in
      '(b, m) ← minSortUp m p;
      if (b : bool) then
        '(b, m) ← mmCmpExch m 0 (-1);
        if (b : bool) then maxSortDown m (-1) else Some m
      else Some m
  else if p <? 0 then
    if negb (maxCt m <? N m ÷ 2) && (v <? old) then maxSortDown m p
    else
      let m := if maxCt m <? N m ÷ 2
               then set_counts m (idx m) (minCt m) (maxCt m + 1) (sz m) else m in
      '(b, m) ← maxSortUp m p;
      if (b : bool) && negb (minCt m =? 0) then
        '(b, m) ← mmCmpExch m 1 0;
        if (b : bool) then minSortDown m 1 else Some m
      else Some m
  else
    m ← (if maxCt m =? 0 then Some m else
           '(b, m) ← maxSortUp m (-1);
           if (b : bool) then maxSortDown m (-1) else Some m);
    if minCt m =? 0 then Some m else
      '(b, m) ← minSortUp m 1;
      if (b : bool) then minSortDown m 1 else Some m.

(** [median] of the structure *)
Definition rm_median (m : rolling_median_t) : option Z :=
  h0 ← rd_heap m 0; v ← rd_data m h0;
  if minCt m <? maxCt m then
    h1 ← rd_heap m (-1); w ← rd_data m h1; Some (get_mid v w)
  else Some v.

(** Inserts a sequence of items, oldest first. *)
Definition insert_all (m : rolling_median_t) (l : list Z) : option rolling_median_t :=
  foldl (fun acc v => m ← acc; insert m v) (Some m) l.

Example rolling_median_example :
  (m ← make 5 (replicate 5 77) (replicate 5 99) (replicate 5 99);
   m ← insert_all m [4; 8; 15; 16; 23; 42; 1; 7]; rm_median m) = Some 16
  /\ (fst <$> median [16; 23; 42; 1; 7]) = Some 16.
Proof. split; vm_compute; reflexivity. Qed.

#[local] Ltac Zify.zify_post_hook ::= Z.to_euclidean_division_equations.

(** ** The midpoint *)

(** [get_mid] is the rounded-down average of two 64-bit values: no
    intermediate sum overflows, whatever the operands. *)
Theorem get_mid_spec (a b : Z) :
  is_u64 a -> is_u64 b -> get_mid a b = (a + b) / 2 /\ is_u64 (get_mid a b).
Proof.
  intros Ha Hb. unfold get_mid.
  assert (Hin : u64 (a - 2 * (a / 2) + (b - 2 * (b / 2))) = a - 2 * (a / 2) + (b - 2 * (b / 2))).
  { apply wrap_small. mach. }
  rewrite Hin, wrap_small; mach.
Qed.

Lemma get_mid_spec_witness :
  is_u64 UINT64_MAX /\ get_mid UINT64_MAX UINT64_MAX = UINT64_MAX.
Proof.
  assert (H : is_u64 UINT64_MAX) by (split; vm_compute; congruence).
  split; [exact H|]. rewrite (proj1 (get_mid_spec UINT64_MAX UINT64_MAX H H)). reflexivity.
Defined.

(** ** Accesses *)

Lemma rd_total off l i :
  0 <= off + i < Z.of_nat (length l) -> rd off l i = Some (default 0 (rd off l i)).
Proof.
  intros H. unfold rd. rewrite (proj2 (Z.leb_le _ _)) by lia.
  destruct (l !! Z.to_nat (off + i)) eqn:E; [done|].
  apply lookup_ge_None in E. lia.
Qed.

Lemma wr_spec off l i x :
  0 <= off + i < Z.of_nat (length l) ->
  exists l', wr off l i x = Some l' /\ length l' = length l
    /\ forall j, rd off l' j = if j =? i then Some x else rd off l j.
Proof.
  intros H. unfold wr. rewrite (proj2 (Z.leb_le _ _)), (proj2 (Z.ltb_lt _ _)) by lia.
  eexists. split; [done|]. split; [by rewrite length_insert|]. intros j. unfold rd.
  destruct (Z.eqb_spec j i) as [->|Hne].
  - rewrite (proj2 (Z.leb_le _ _)) by lia. apply list_lookup_insert_eq. lia.
  - destruct (Z.leb_spec 0 (off + j)); [|done]. apply list_lookup_insert_ne. lia.
Qed.

(** Total views of the arrays, for statements *)
Definition H_at m i : Z := default 0 (rd_heap m i).
Definition P_at m k : Z := default 0 (rd_pos m k).
Definition D_at m k : Z := default 0 (rd_data m k).
(** The item at a heap position *)
Definition item m i : Z := D_at m (H_at m i).

Definition in_heap m i : Prop := - (N m / 2) <= i <= (N m - 1) / 2.
Definition in_queue m k : Prop := 0 <= k < N m.

(** The arrays have their sizes, and [heap] and [pos] are inverse bijections. *)
Record wf (m : rolling_median_t) : Prop := {
  wf_N : 1 <= N m <= INT_MAX / 16;
  wf_data : Z.of_nat (length (data m)) = N m;
  wf_pos : Z.of_nat (length (pos m)) = N m;
  wf_heap : Z.of_nat (length (heap m)) = N m;
  wf_HP i : in_heap m i -> in_queue m (H_at m i) /\ P_at m (H_at m i) = i;
  wf_PH k : in_queue m k -> in_heap m (P_at m k) /\ H_at m (P_at m k) = k }.

Lemma heap_bounds m i : wf m -> in_heap m i -> 0 <= heap_off m + i < Z.of_nat (length (heap m)).
Proof.
  intros Hw Hi. destruct Hw as [HN _ _ Hh _ _]. rewrite Hh.
  unfold heap_off, in_heap in *. lia.
Qed.

Lemma rd_heap_ok m i : wf m -> in_heap m i -> rd_heap m i = Some (H_at m i).
Proof. intros Hw Hi. apply rd_total, heap_bounds; done. Qed.

Lemma rd_data_ok m k : wf m -> in_queue m k -> rd_data m k = Some (D_at m k).
Proof. intros Hw Hk. apply rd_total. rewrite (wf_data m Hw). unfold in_queue in Hk. lia. Qed.

Lemma rd_pos_ok m k : wf m -> in_queue m k -> rd_pos m k = Some (P_at m k).
Proof. intros Hw Hk. apply rd_total. rewrite (wf_pos m Hw). unfold in_queue in Hk. lia. Qed.

Lemma rd_item_ok m i :
  wf m -> in_heap m i -> (h ← rd_heap m i; rd_data m h) = Some (item m i).
Proof.
  intros Hw Hi. rewrite (rd_heap_ok m i Hw Hi). cbn [mbind option_bind].
  apply rd_data_ok; [done|]. by apply (wf_HP m Hw).
Qed.

Lemma mmless_ok m i j :
  wf m -> in_heap m i -> in_heap m j -> mmless m i j = Some (item m i <? item m j).
Proof.
  intros Hw Hi Hj. unfold mmless.
  pose proof (rd_item_ok m i Hw Hi) as Ei. pose proof (rd_item_ok m j Hw Hj) as Ej.
  rewrite (rd_heap_ok m i Hw Hi), (rd_heap_ok m j Hw Hj) in *. cbn [mbind option_bind] in *.
  rewrite Ei. cbn [mbind option_bind]. by rewrite Ej.
Qed.

(** ** Exchanges *)

(** [m'] is [m] with the heap positions from [lo] to [hi] permuted. *)
Record moved (lo hi : Z) (m m' : rolling_median_t) : Prop := {
  mv_data : data m' = data m;
  mv_N : N m' = N m;
  mv_idx : idx m' = idx m;
  mv_minCt : minCt m' = minCt m;
  mv_maxCt : maxCt m' = maxCt m;
  mv_sz : sz m' = sz m;
  mv_wf : wf m';
  mv_out i : in_heap m i -> ~ lo <= i <= hi -> H_at m' i = H_at m i;
  mv_in i : in_heap m i -> lo <= i <= hi ->
            exists j, in_heap m j /\ lo <= j <= hi /\ H_at m' i = H_at m j }.

Lemma moved_refl lo hi m : wf m -> moved lo hi m m.
Proof. intros. constructor; eauto. Qed.

Lemma moved_in_heap lo hi m m' i : moved lo hi m m' -> in_heap m' i <-> in_heap m i.
Proof. intros [_ HN _ _ _ _ _ _ _]. unfold in_heap. by rewrite HN. Qed.

Lemma moved_trans lo hi m1 m2 m3 : moved lo hi m1 m2 -> moved lo hi m2 m3 -> moved lo hi m1 m3.
Proof.
  intros H1 H2. pose proof (fun i => moved_in_heap _ _ _ _ i H1) as Hh.
  destruct H1, H2. constructor; try congruence.
  - intros i Hi Ho. rewrite mv_out1 by (done || by apply Hh). by apply mv_out0.
  - intros i Hi Hr. destruct (mv_in1 i) as (j & Hj & Hjr & ->); [by apply Hh|done|].
    apply mv_in0; [by apply Hh|done].
Qed.

Lemma moved_weaken lo hi lo' hi' m m' :
  moved lo hi m m' -> lo' <= lo -> hi <= hi' -> moved lo' hi' m m'.
Proof.
  intros H ??. destruct H. constructor; try done.
  - intros i Hi Ho. apply mv_out0; [done|lia].
  - intros i Hi Hr. destruct (decide (lo <= i <= hi)) as [Hin|Hout].
    + destruct (mv_in0 i Hi Hin) as (j & ? & ? & ?). exists j. split; [done|]. split; [lia|done].
    + exists i. split; [done|]. split; [done|]. by apply mv_out0.
Qed.

Lemma moved_item lo hi m m' i :
  moved lo hi m m' -> in_heap m i -> ~ lo <= i <= hi -> item m' i = item m i.
Proof.
  intros Hm Hi Ho. unfold item, D_at, rd_data. rewrite (mv_data _ _ _ _ Hm).
  by rewrite (mv_out _ _ _ _ Hm i Hi Ho).
Qed.

Lemma H_inj m i j : wf m -> in_heap m i -> in_heap m j -> H_at m i = H_at m j -> i = j.
Proof.
  intros Hw Hi Hj E. rewrite <- (proj2 (wf_HP m Hw i Hi)), <- (proj2 (wf_HP m Hw j Hj)).
  by rewrite E.
Qed.

(** The transposition of two positions *)
Definition transp (i j k : Z) : Z := if k =? i then j else if k =? j then i else k.

Lemma transp_invol i j k : transp i j (transp i j k) = k.
Proof.
  unfold transp. destruct (Z.eqb_spec k i) as [->|]; [|destruct (Z.eqb_spec k j) as [->|]];
    cases_cmp; lia.
Qed.

(** Transposing [heap] and [pos] alike keeps them inverse. *)
Lemma transp_moved m m' i j :
  wf m -> in_heap m i -> in_heap m j ->
  data m' = data m -> N m' = N m -> idx m' = idx m -> minCt m' = minCt m ->
  maxCt m' = maxCt m -> sz m' = sz m ->
  length (pos m') = length (pos m) -> length (heap m') = length (heap m) ->
  (forall k, in_heap m k -> H_at m' k = H_at m (transp i j k)) ->
  (forall k, in_queue m k -> P_at m' k = transp i j (P_at m k)) ->
  moved (Z.min i j) (Z.max i j) m m'.
Proof.
  intros Hw Hi Hj Ed EN Ei Emn Emx Es Lp Lh HH HP.
  assert (Ht : forall k, in_heap m k -> in_heap m (transp i j k)).
  { intros k Hk. unfold transp. cases_cmp; done. }
  assert (Eh : forall k, in_heap m' k <-> in_heap m k) by (intros k; unfold in_heap; by rewrite EN).
  assert (Eq : forall k, in_queue m' k <-> in_queue m k) by (intros k; unfold in_queue; by rewrite EN).
  constructor; try done.
  - destruct Hw as [w1 w2 w3 w4 w5 w6]. constructor; rewrite ?EN, ?Ed, ?Lp, ?Lh; try done.
    + intros k Hk%Eh. rewrite Eq, HH by done. destruct (w5 _ (Ht k Hk)) as [Hq Hp].
      split; [done|]. rewrite HP by done. rewrite Hp. apply transp_invol.
    + intros k Hk%Eq. rewrite Eh, HP by done. destruct (w6 k Hk) as [Hq Hp].
      split; [by apply Ht|]. rewrite HH by (by apply Ht). by rewrite transp_invol.
  - intros k Hk Ho. rewrite HH by done. unfold transp. cases_cmp; f_equal; lia.
  - intros k Hk Hr. exists (transp i j k). split; [by apply Ht|]. split; [|by apply HH].
    unfold transp. cases_cmp; lia.
Qed.

Lemma mmexchange_ok m i j :
  wf m -> in_heap m i -> in_heap m j ->
  exists m', mmexchange m i j = Some m' /\ moved (Z.min i j) (Z.max i j) m m'
    /\ forall k, in_heap m k -> H_at m' k = H_at m (transp i j k).
Proof.
  intros Hw Hi Hj. unfold mmexchange.
  pose proof (heap_bounds m i Hw Hi) as Bi. pose proof (heap_bounds m j Hw Hj) as Bj.
  destruct (wf_HP m Hw i Hi) as [Qi Pi]. destruct (wf_HP m Hw j Hj) as [Qj Pj].
  rewrite (rd_heap_ok m i Hw Hi), (rd_heap_ok m j Hw Hj). cbn [mbind option_bind].
  destruct (wr_spec (heap_off m) (heap m) i (H_at m j) Bi) as (h1 & -> & L1 & R1).
  cbn [mbind option_bind].
  destruct (wr_spec (heap_off m) h1 j (H_at m i)) as (h2 & -> & L2 & R2); [by rewrite L1|].
  cbn [mbind option_bind].
  assert (R : forall k, in_heap m k -> rd (heap_off m) h2 k = Some (H_at m (transp i j k))).
  { intros k Hk. rewrite R2, R1. unfold transp.
    destruct (Z.eqb_spec k j) as [Ekj|], (Z.eqb_spec k i) as [Eki|]; try congruence.
    by apply rd_heap_ok. }
  rewrite (R i Hi). unfold transp at 1. rewrite Z.eqb_refl. cbn [mbind option_bind].
  destruct (wr_spec 0 (pos m) (H_at m j) i) as (p1 & -> & LP1 & RP1);
    [rewrite (wf_pos m Hw); unfold in_queue in *; lia|].
  cbn [mbind option_bind]. rewrite (R j Hj). cbn [mbind option_bind].
  assert (transp i j j = i) as -> by (unfold transp; cases_cmp; lia).
  destruct (wr_spec 0 p1 (H_at m i) j) as (p2 & -> & LP2 & RP2);
    [rewrite LP1, (wf_pos m Hw); unfold in_queue in *; lia|].
  cbn [mbind option_bind]. eexists. split; [done|].
  assert (HH : forall k, in_heap m k -> H_at (set_arrays m p2 h2) k = H_at m (transp i j k)).
  { intros k Hk. unfold H_at at 1, rd_heap. cbn [heap set_arrays].
    change (heap_off (set_arrays m p2 h2)) with (heap_off m). by rewrite R. }
  split; [|done]. apply transp_moved; cbn [set_arrays data pos heap]; try done; try congruence.
  intros k Hk. unfold P_at at 1, rd_pos. cbn [pos set_arrays]. rewrite RP2, RP1.
  destruct (wf_PH m Hw k Hk) as [Hp Ek]. unfold transp.
  destruct (Z.eqb_spec k (H_at m i)) as [->|Hni];
    [rewrite Pi, Z.eqb_refl; done|].
  destruct (Z.eqb_spec k (H_at m j)) as [->|Hnj].
  { rewrite Pj, Z.eqb_refl. destruct (Z.eqb_spec j i) as [->|]; done. }
  destruct (Z.eqb_spec (P_at m k) i) as [<-|]; [by rewrite Ek in Hni|].
  destruct (Z.eqb_spec (P_at m k) j) as [<-|]; [by rewrite Ek in Hnj|]. done.
Qed.

Lemma mmCmpExch_ok m i j :
  wf m -> in_heap m i -> in_heap m j ->
  exists m', mmCmpExch m i j = Some (item m i <? item m j, m')
    /\ moved (Z.min i j) (Z.max i j) m m'
    /\ forall k, in_heap m k ->
         item m' k = item m (if item m i <? item m j then transp i j k else k).
Proof.
  intros Hw Hi Hj. unfold mmCmpExch. rewrite mmless_ok by done. cbn [mbind option_bind].
  destruct (item m i <? item m j); [|by exists m; split; [|split; [apply moved_refl|]]].
  destruct (mmexchange_ok m i j Hw Hi Hj) as (m' & -> & Hm & HH).
  exists m'. split; [done|]. split; [done|]. intros k Hk. unfold item, D_at, rd_data.
  rewrite (mv_data _ _ _ _ Hm). by rewrite HH.
Qed.

(** ** Heap order with a hole

    [w k] is the key at position [k] of a heap with root [0] and last position
    [ct]; position [1] is the only child of the root. [weak_up h] and [weak_down h]
    allow a violation between [h] and its parent, and between [h] and its children;
    both keep the children of [h] above its parent. *)

Section Order.
Variable ct : Z.
Implicit Type w : Z -> Z.

Definition ordered w : Prop := forall k, 1 <= k <= ct -> w (k / 2) <= w k.

Definition grand w h : Prop :=
  1 <= h -> forall k, 1 <= k <= ct -> k / 2 = h -> w (h / 2) <= w k.
Definition weak_up w h : Prop := (forall k, 1 <= k <= ct -> k <> h -> w (k / 2) <= w k) /\ grand w h.
Definition weak_down w h : Prop :=
  (forall k, 1 <= k <= ct -> k / 2 <> h -> w (k / 2) <= w k) /\ grand w h.

(** [w'] is [w] with the keys at [a] and [b] exchanged. *)
Definition swapped a b w w' : Prop :=
  forall k, 0 <= k <= ct -> w' k = w (transp a b k).

Lemma swapped_cases a b w w' :
  swapped a b w w' -> 0 <= a <= ct -> 0 <= b <= ct ->
  w' a = w b /\ w' b = w a /\ forall k, 0 <= k <= ct -> k <> a -> k <> b -> w' k = w k.
Proof.
  intros Hs Ha Hb. rewrite (Hs a), (Hs b) by done. unfold transp.
  split; [by rewrite Z.eqb_refl|]. split; [cases_cmp; congruence|].
  intros k Hk ??. rewrite Hs by done. unfold transp. cases_cmp; congruence.
Qed.

Lemma weak_up_stop w h : weak_up w h -> (1 <= h <= ct -> w (h / 2) <= w h) -> ordered w.
Proof. intros [Hw _] Hh k Hk. destruct (decide (k = h)) as [->|]; auto. Qed.

Lemma weak_up_step w w' h :
  1 <= h <= ct -> weak_up w h -> w h < w (h / 2) -> swapped h (h / 2) w w' -> weak_up w' (h / 2).
Proof.
  intros Hh [Hw Hg] Hlt Hs.
  destruct (swapped_cases _ _ _ _ Hs) as (E1 & E2 & E3); [lia..|].
  split.
  - intros k Hk Hne. destruct (decide (k = h)) as [->|Hkh]; [lia|].
    rewrite (E3 k) by lia. destruct (decide (k / 2 = h)) as [E|].
    { rewrite E, E1. apply Hg; [lia|done..]. }
    destruct (decide (k / 2 = h / 2)) as [E|].
    + rewrite E, E2. specialize (Hw k Hk Hkh). rewrite E in Hw. lia.
    + rewrite E3 by lia. by apply Hw.
  - intros Hh2 k Hk E. rewrite (E3 (h / 2 / 2)) by lia.
    assert (w (h / 2 / 2) <= w (h / 2)) by (apply Hw; lia).
    destruct (decide (k = h)) as [->|Hkh]; [lia|]. rewrite E3 by lia.
    specialize (Hw k Hk Hkh). rewrite E in Hw. lia.
Qed.

Lemma weak_down_stop w h :
  weak_down w h -> (forall k, 1 <= k <= ct -> k / 2 = h -> w h <= w k) -> ordered w.
Proof.
  intros [Hw _] Hh k Hk. destruct (decide (k / 2 = h)) as [E|]; [rewrite E|]; auto.
Qed.

(** [c] is a child of [h] with the least key. *)
Lemma weak_down_step w w' h c :
  1 <= h <= ct -> 1 <= c <= ct -> c / 2 = h ->
  (forall k, 1 <= k <= ct -> k / 2 = h -> w c <= w k) ->
  weak_down w h -> w c < w h -> swapped c h w w' -> weak_down w' c.
Proof.
  intros Hh Hc Ec Hmin [Hw Hg] Hlt Hs.
  destruct (swapped_cases _ _ _ _ Hs) as (E1 & E2 & E3); [lia..|].
  split.
  - intros k Hk Hne. destruct (decide (k = c)) as [->|Hkc]; [rewrite Ec; lia|].
    destruct (decide (k = h)) as [->|Hkh].
    { rewrite E2, E3 by lia. apply Hg; [lia|done|done]. }
    rewrite (E3 k) by lia. destruct (decide (k / 2 = h)) as [E|]; [rewrite E, E2; by apply Hmin|].
    rewrite E3 by lia. by apply Hw.
  - intros _ k Hk E. rewrite Ec, E2, E3 by lia. rewrite <- E. apply Hw; [lia|]. lia.
Qed.

End Order.

Lemma ordered_root ct w k : ordered ct w -> 0 <= k <= ct -> w 0 <= w k.
Proof.
  intros Ho [Hk0 Hk]. revert Hk. pattern k. apply Zlt_0_ind; [|done]. clear k Hk0.
  intros k IH Hk Hc. destruct (decide (k = 0)) as [->|]; [lia|].
  transitivity (w (k / 2)); [apply IH; lia|apply Ho; lia].
Qed.


(** ** The two sides

    The min-heap ([s = true]) and the max-heap ([s = false]) are the same algorithm:
    position [k] of a side is heap position [k] or [-k], and its key is the item or
    its opposite. *)

Definition side (s : bool) (k : Z) : Z := if s then k else - k.
Definition key (s : bool) m (k : Z) : Z := if s then item m k else - item m (- k).
Definition ct (s : bool) m : Z := if s then minCt m else maxCt m.

Definition side_less (s : bool) m a b : option bool :=
  if s then mmless m a b else mmless m (- b) (- a).
Definition side_exch (s : bool) m a b : option (bool * rolling_median_t) :=
  if s then mmCmpExch m a b else mmCmpExch m (- b) (- a).

Fixpoint sort_up (s : bool) (fuel : nat) m (i : Z) : option (bool * rolling_median_t) :=
  match fuel with
  | O => None
  | S fuel =>
    if 0 <? i then
      '(b, m) ← side_exch s m i (i ÷ 2);
      if (b : bool) then sort_up s fuel m (i ÷ 2) else Some (i =? 0, m)
    else Some (i =? 0, m)
  end.

Fixpoint sort_down (s : bool) (fuel : nat) m (i : Z) : option rolling_median_t :=
  match fuel with
  | O => None
  | S fuel =>
    if i <=? ct s m then
      i ← (if i <? ct s m then b ← side_less s m (i + 1) i; Some (if (b : bool) then i + 1 else i)
           else Some i);
      '(b, m) ← side_exch s m i (i ÷ 2);
      if (b : bool) then _ ← int_ok (side s (i * 2)); sort_down s fuel m (i * 2) else Some m
    else Some m
  end.

Lemma minSortUp_loop_side fuel m i : minSortUp_loop fuel m i = sort_up true fuel m i.
Proof.
  revert m i. induction fuel as [|fuel IH]; intros m i; [done|]. cbn.
  destruct (0 <? i); [|done]. destruct (mmCmpExch m i (i ÷ 2)) as [[[] m']|]; cbn; auto.
Qed.

Lemma maxSortUp_loop_side fuel m i : maxSortUp_loop fuel m (- i) = sort_up false fuel m i.
Proof.
  revert m i. induction fuel as [|fuel IH]; intros m i; [done|]. cbn.
  rewrite Z.quot_opp_l by done.
  assert ((- i <? 0) = (0 <? i)) as -> by (cases_cmp; lia).
  assert ((- i =? 0) = (i =? 0)) as -> by (cases_cmp; lia).
  destruct (0 <? i); [|done].
  destruct (mmCmpExch m (- (i ÷ 2)) (- i)) as [[[] m']|]; cbn; auto.
Qed.

Lemma minSortDown_loop_side fuel m i : minSortDown_loop fuel m i = sort_down true fuel m i.
Proof.
  revert m i. induction fuel as [|fuel IH]; intros m i; [done|]. cbn.
  destruct (i <=? minCt m); [|done].
  destruct (if i <? minCt m then _ else _) as [j|]; cbn; [|done].
  destruct (mmCmpExch m j (j ÷ 2)) as [[[] m']|]; cbn; [|done..].
  unfold int_ok. destruct (_ && _); cbn; auto.
Qed.

Lemma maxSortDown_loop_side fuel m i : maxSortDown_loop fuel m (- i) = sort_down false fuel m i.
Proof.
  revert m i. induction fuel as [|fuel IH]; intros m i; [done|]. cbn.
  assert ((- maxCt m <=? - i) = (i <=? maxCt m)) as -> by (cases_cmp; lia).
  assert ((- maxCt m <? - i) = (i <? maxCt m)) as -> by (cases_cmp; lia).
  destruct (i <=? maxCt m); [|done].
  replace (- i - 1) with (- (i + 1)) by lia.
  assert (E : (if i <? maxCt m then b ← mmless m (- i) (- (i + 1));
                 Some (if (b : bool) then - (i + 1) else - i) else Some (- i))
          = Z.opp <$> (if i <? maxCt m then b ← mmless m (- i) (- (i + 1));
                 Some (if (b : bool) then i + 1 else i) else Some i)).
  { destruct (i <? maxCt m); [|done]. by destruct (mmless m (- i) (- (i + 1))) as [[]|]. }
  rewrite E. clear E.
  destruct (if i <? maxCt m then _ else _) as [j|]; cbn; [|done].
  rewrite Z.quot_opp_l by done.
  destruct (mmCmpExch m (- (j ÷ 2)) (- j)) as [[[] m']|]; cbn; [|done..].
  replace (- j * 2) with (- (j * 2)) by lia.
  unfold int_ok. destruct (_ && _); cbn; auto.
Qed.

(** The positions from [a] to [b] of a side are permuted. *)
Definition side_moved (s : bool) a b m m' : Prop :=
  moved (if s then a else - b) (if s then b else - a) m m'.

Lemma side_moved_trans s a b c d m1 m2 m3 :
  side_moved s a b m1 m2 -> side_moved s c d m2 m3 ->
  side_moved s (Z.min a c) (Z.max b d) m1 m3.
Proof.
  unfold side_moved. intros H1 H2.
  eapply moved_trans; eapply moved_weaken; try eassumption; destruct s; lia.
Qed.

Lemma side_moved_weaken s a b c d m m' :
  side_moved s a b m m' -> c <= a -> b <= d -> side_moved s c d m m'.
Proof. unfold side_moved. intros H ??. eapply moved_weaken; [done|destruct s; lia..]. Qed.

Lemma side_moved_key s a b m m' k :
  side_moved s a b m m' -> in_heap m (side s k) -> ~ a <= k <= b -> key s m' k = key s m k.
Proof.
  unfold side_moved, key, side. intros Hm Hk Ho.
  destruct s; [|f_equal]; (eapply moved_item; [done|done|lia]).
Qed.

(** All filled positions of a side exist. *)
Definition side_ok (s : bool) m : Prop := ct s m <= (if s then (N m - 1) / 2 else N m / 2).

Lemma side_in_heap s m k : wf m -> side_ok s m -> 0 <= k <= ct s m -> in_heap m (side s k).
Proof.
  intros Hw Hs Hk. pose proof (wf_N m Hw) as HN. unfold side_ok, in_heap, side in *.
  destruct s; lia.
Qed.

Lemma side_moved_ct s a b m m' : side_moved s a b m m' -> ct s m' = ct s m.
Proof. intros Hm. destruct Hm. unfold ct. destruct s; done. Qed.

Lemma side_moved_ok s a b m m' t : side_moved s a b m m' -> side_ok t m -> side_ok t m'.
Proof.
  intros Hm. destruct Hm. unfold side_ok, ct. rewrite mv_N0. destruct t; lia.
Qed.

Lemma side_less_ok s m a b :
  wf m -> in_heap m (side s a) -> in_heap m (side s b) ->
  side_less s m a b = Some (key s m a <? key s m b).
Proof.
  unfold side, side_less, key. intros Hw Ha Hb. destruct s; rewrite mmless_ok by done; [done|].
  f_equal. cases_cmp; lia.
Qed.

Lemma side_exch_ok s m a b :
  wf m -> in_heap m (side s a) -> in_heap m (side s b) -> b <= a ->
  exists m', side_exch s m a b = Some (key s m a <? key s m b, m')
    /\ side_moved s b a m m'
    /\ forall k, in_heap m (side s k) ->
         key s m' k = key s m (if key s m a <? key s m b then transp a b k else k).
Proof.
  unfold side, side_exch, key, side_moved. intros Hw Ha Hb Hab. destruct s.
  - destruct (mmCmpExch_ok m a b) as (m' & -> & Hm & HI); [done..|].
    exists m'. rewrite Z.min_r, Z.max_l in Hm by lia. auto.
  - destruct (mmCmpExch_ok m (- b) (- a)) as (m' & -> & Hm & HI); [done..|].
    rewrite Z.min_r, Z.max_l in Hm by lia.
    assert ((- item m (- a) <? - item m (- b)) = (item m (- b) <? item m (- a))) as ->
      by (cases_cmp; lia).
    exists m'. split; [done|]. split; [done|]. intros k Hk. rewrite HI by done. do 2 f_equal.
    destruct (item m (- b) <? item m (- a)); [|done].
    unfold transp. cases_cmp; lia.
Qed.

Lemma sort_up_ok s fuel m h :
  wf m -> side_ok s m -> 0 <= h <= ct s m -> weak_up (ct s m) (key s m) h -> h < Z.of_nat fuel ->
  exists b m', sort_up s fuel m h = Some (b, m') /\ side_moved s 0 h m m'
    /\ ordered (ct s m) (key s m')
    /\ ((h = 0 /\ b = true /\ m' = m)
        \/ (1 <= h /\ b = false /\ key s m' 0 = key s m 0)
        \/ (1 <= h /\ b = true /\ key s m' 1 = key s m 0 /\ key s m' 0 = key s m h
            /\ key s m h < key s m 0)).
Proof.
  revert m h. induction fuel as [|fuel IH]; intros m h Hw Hs Hh Hweak Hf; [lia|].
  cbn [sort_up]. destruct (Z.ltb_spec 0 h) as [Hpos|Hz].
  2:{ assert (h = 0) as -> by lia. exists true, m. split; [done|].
      split; [by apply moved_refl|]. split; [|auto].
      eapply weak_up_stop; [done|lia]. }
  replace (h ÷ 2) with (h / 2) by lia.
  destruct (side_exch_ok s m h (h / 2)) as (m1 & -> & Hm1 & HK);
    [done|apply side_in_heap; [done|done|lia]..|lia|]. cbn [mbind option_bind].
  pose proof (side_moved_ct _ _ _ _ _ Hm1) as Ec.
  destruct (Z.ltb_spec (key s m h) (key s m (h / 2))) as [Hlt|Hge].
  - assert (Hsw : swapped (ct s m) h (h / 2) (key s m) (key s m1)).
    { intros k Hk. apply HK. by apply side_in_heap. }
    destruct (swapped_cases _ _ _ _ _ Hsw) as (E1 & E2 & E3); [lia..|].
    destruct (IH m1 (h / 2)) as (b & m2 & -> & Hm2 & Ho & Hres);
      [apply Hm1|by eapply side_moved_ok|rewrite Ec; lia| |lia|].
    { rewrite Ec. eapply weak_up_step; [|exact Hweak|exact Hlt|exact Hsw]. lia. }
    exists b, m2. split; [done|]. split.
    { eapply side_moved_weaken; [exact (side_moved_trans _ _ _ _ _ _ _ _ Hm1 Hm2)|lia..]. }
    split; [by rewrite <- Ec|]. right.
    destruct Hres as [(Hz & -> & ->)|[(Hp & -> & E)|(Hp & -> & F1 & F2 & F3)]].
    + right. assert (h = 1) as -> by lia. rewrite Hz in *. repeat split; (done || lia).
    + left. rewrite E, E3 by lia. repeat split; lia.
    + right. rewrite E2, (E3 0) in * by lia. repeat split; lia.
  - exists false, m1. split; [do 2 f_equal; apply Z.eqb_neq; lia|].
    split; [eapply side_moved_weaken; [exact Hm1|lia..]|].
    split; [|right; left; split; [lia|]; split; [done|]; apply HK; apply side_in_heap; [done|done|lia]].
    apply (weak_up_stop _ _ h); [|].
    + split; [intros k Hk Hne; rewrite !HK by (apply side_in_heap; [done|done|lia]); by apply Hweak|].
      intros _ k Hk E. rewrite !HK by (apply side_in_heap; [done|done|lia]). apply Hweak; [lia|done..].
    + intros _. rewrite !HK by (apply side_in_heap; [done|done|lia]). done.
Qed.

(** Doubling a filled position does not overflow. *)
Lemma int_ok_side s m k :
  wf m -> side_ok s m -> 1 <= k <= ct s m -> int_ok (side s (k * 2)) = Some (side s (k * 2)).
Proof.
  intros Hw Hs Hk. pose proof (wf_N m Hw) as HN. unfold side_ok in Hs.
  unfold int_ok. change INT_MAX with 2147483647 in *.
  rewrite (proj2 (Z.leb_le _ _)), (proj2 (Z.leb_le _ _)); [done|destruct s; cbn [side] in *; lia..].
Qed.

Lemma sort_down_ok s fuel m h :
  wf m -> side_ok s m -> 1 <= h <= ct s m -> weak_down (ct s m) (key s m) h ->
  Z.max 0 (ct s m - 2 * h + 1) < Z.of_nat fuel ->
  exists m', sort_down s fuel m (h * 2) = Some m' /\ side_moved s h (ct s m) m m'
    /\ ordered (ct s m) (key s m').
Proof.
  revert m h. induction fuel as [|fuel IH]; intros m h Hw Hs Hh Hweak Hf; [lia|].
  cbn [sort_down]. destruct (Z.leb_spec (h * 2) (ct s m)) as [Hle|Hgt].
  2:{ exists m. split; [done|]. split; [by apply moved_refl|].
      eapply weak_down_stop; [done|]. intros k Hk E. lia. }
  pose proof (fun k => side_in_heap s m k Hw Hs) as Hin.
  assert (exists c, (if h * 2 <? ct s m then b ← side_less s m (h * 2 + 1) (h * 2);
                       Some (if (b : bool) then h * 2 + 1 else h * 2) else Some (h * 2)) = Some c
            /\ 1 <= c <= ct s m /\ c / 2 = h
            /\ forall k, 1 <= k <= ct s m -> k / 2 = h -> key s m c <= key s m k)
    as (c & -> & Hc & Ec & Hmin).
  { destruct (Z.ltb_spec (h * 2) (ct s m)).
    - rewrite side_less_ok by (done || apply Hin; lia). cbn [mbind option_bind].
      destruct (Z.ltb_spec (key s m (h * 2 + 1)) (key s m (h * 2))); eexists; (split; [done|]);
        (split; [lia|]); (split; [lia|]); intros k Hk E;
        (assert (k = h * 2 \/ k = h * 2 + 1) as [->| ->] by lia); lia.
    - exists (h * 2). split; [done|]. split; [lia|]. split; [lia|]. intros k Hk E.
      assert (k = h * 2) as -> by lia. lia. }
  cbn [mbind option_bind]. replace (c ÷ 2) with h by lia.
  destruct (side_exch_ok s m c h) as (m1 & -> & Hm1 & HK); [done|apply Hin; lia..|lia|].
  cbn [mbind option_bind]. pose proof (side_moved_ct _ _ _ _ _ Hm1) as Ect.
  destruct (Z.ltb_spec (key s m c) (key s m h)) as [Hlt|Hge].
  - assert (Hint : int_ok (side s (c * 2)) = Some (side s (c * 2))).
    { apply (int_ok_side s m); [done|done|lia]. }
    rewrite Hint. cbn [mbind option_bind].
    destruct (IH m1 c) as (m2 & -> & Hm2 & Ho);
      [apply Hm1|by eapply side_moved_ok|by rewrite Ect| |rewrite Ect; lia|].
    { rewrite Ect. eapply weak_down_step; [|exact Hc|exact Ec|exact Hmin|exact Hweak|exact Hlt|]; [lia|].
      intros k Hk. apply HK, Hin, Hk. }
    exists m2. split; [done|]. rewrite Ect in *. split; [|done].
    eapply side_moved_weaken; [exact (side_moved_trans _ _ _ _ _ _ _ _ Hm1 Hm2)|lia..].
  - exists m1. split; [done|]. split; [eapply side_moved_weaken; [exact Hm1|lia..]|].
    intros k Hk. rewrite !HK by (apply Hin; lia).
    eapply (weak_down_stop _ _ _ Hweak); [|done]. intros j Hj E. specialize (Hmin j Hj E). lia.
Qed.

(** The four loops of the source *)
Lemma minSortUp_ok m h :
  minSortUp m h = sort_up true (S (Z.to_nat h)) m h.
Proof. apply minSortUp_loop_side. Qed.

Lemma maxSortUp_ok m h : maxSortUp m (- h) = sort_up false (S (Z.to_nat h)) m h.
Proof. unfold maxSortUp. rewrite Z.opp_involutive. apply maxSortUp_loop_side. Qed.

Definition side_down (s : bool) m h : option rolling_median_t :=
  if s then minSortDown m h else maxSortDown m (- h).
Definition side_up (s : bool) m h : option (bool * rolling_median_t) :=
  if s then minSortUp m h else maxSortUp m (- h).

Lemma side_up_ok s m h :
  wf m -> side_ok s m -> 1 <= h <= ct s m -> weak_up (ct s m) (key s m) h ->
  exists b m', side_up s m h = Some (b, m') /\ side_moved s 0 h m m'
    /\ ordered (ct s m) (key s m')
    /\ if (b : bool)
       then key s m' 1 = key s m 0 /\ key s m' 0 = key s m h /\ key s m h < key s m 0
       else key s m' 0 = key s m 0.
Proof.
  intros Hw Hs Hh Hweak.
  destruct (sort_up_ok s (S (Z.to_nat h)) m h) as (b & m' & E & Hm & Ho & Hr);
    [done|done|lia|done|lia|].
  exists b, m'. split.
  { unfold side_up. destruct s; [by rewrite minSortUp_ok|by rewrite maxSortUp_ok]. }
  split; [done|]. split; [done|].
  destruct Hr as [(? & _)|[(_ & -> & ?)|(_ & -> & ?)]]; [lia|done|done].
Qed.

Lemma side_down_ok s m h :
  wf m -> side_ok s m -> 1 <= h <= ct s m -> weak_down (ct s m) (key s m) h ->
  exists m', side_down s m h = Some m' /\ side_moved s h (ct s m) m m'
    /\ ordered (ct s m) (key s m').
Proof.
  intros Hw Hs Hh Hweak.
  destruct (sort_down_ok s (S (Z.to_nat (ct s m))) m h) as (m' & E & Hm & Ho);
    [done|done|done|done|lia|].
  exists m'. split; [|done].
  assert (Hint : int_ok (side s h * 2) = Some (side s h * 2)).
  { replace (side s h * 2) with (side s (h * 2)) by (unfold side; destruct s; lia).
    by apply (int_ok_side s m). }
  unfold side_down, minSortDown, maxSortDown. unfold side in Hint.
  destruct s; rewrite Hint; cbn [mbind option_bind].
  - by rewrite minSortDown_loop_side.
  - replace (- h * 2) with (- (h * 2)) by lia. by rewrite maxSortDown_loop_side.
Qed.

(** ** Repairing the root of a side *)

Definition root_fix (s : bool) m : option rolling_median_t :=
  '(b, m) ← side_exch s m 1 0;
  if (b : bool) then side_down s m 1 else Some m.

Lemma root_fix_ok s m :
  wf m -> side_ok s m -> 1 <= ct s m ->
  (forall k, 2 <= k <= ct s m -> key s m (k / 2) <= key s m k) ->
  exists m', root_fix s m = Some m' /\ side_moved s 0 (ct s m) m m'
    /\ ordered (ct s m) (key s m')
    /\ key s m' 0 = Z.min (key s m 0) (key s m 1) /\ key s m 1 <= key s m' 1.
Proof.
  intros Hw Hs Hc Ho. unfold root_fix.
  pose proof (fun k => side_in_heap s m k Hw Hs) as Hin.
  destruct (side_exch_ok s m 1 0) as (m1 & -> & Hm1 & HK); [done|apply Hin; lia..|lia|].
  cbn [mbind option_bind]. pose proof (side_moved_ct _ _ _ _ _ Hm1) as Ect.
  destruct (Z.ltb_spec (key s m 1) (key s m 0)) as [Hlt|Hge].
  - assert (Hsw : swapped (ct s m) 1 0 (key s m) (key s m1)).
    { intros k Hk. apply HK, Hin, Hk. }
    destruct (swapped_cases _ _ _ _ _ Hsw) as (E1 & E2 & E3); [lia..|].
    destruct (side_down_ok s m1 1) as (m2 & -> & Hm2 & Ho2);
      [apply Hm1|by eapply side_moved_ok|lia| |].
    { rewrite Ect. split.
      - intros k Hk Hne. destruct (decide (k = 1)) as [->|]; [change (1 / 2) with 0; lia|].
        rewrite !E3 by lia. apply Ho. lia.
      - intros _ k Hk E. change (1 / 2) with 0. rewrite E2, E3 by lia. rewrite <- E.
        apply Ho. lia. }
    rewrite Ect in *. exists m2. split; [done|]. split.
    { eapply side_moved_weaken; [exact (side_moved_trans _ _ _ _ _ _ _ _ Hm1 Hm2)|lia..]. }
    split; [done|]. assert (E0 : key s m2 0 = key s m1 0).
    { eapply side_moved_key; [exact Hm2| |lia]. apply (moved_in_heap _ _ _ _ _ Hm1), Hin. lia. }
    assert (key s m2 0 <= key s m2 1) by (apply (Ho2 1); lia). split; lia.
  - exists m1. split; [done|]. split; [eapply side_moved_weaken; [exact Hm1|lia..]|].
    rewrite !HK by (apply Hin; lia). split; [|lia].
    intros k Hk. rewrite !HK by (apply Hin; lia).
    destruct (decide (k = 1)) as [->|]; [done|]. apply Ho. lia.
Qed.

(** The keys of a side are the opposites of those of the other one at the root,
    and do not change when only the other side's positions move. *)
Lemma key_root s m : key (negb s) m 0 = - key s m 0.
Proof. unfold key. change (- 0) with 0. destruct s; cbn [negb]; lia. Qed.

Lemma side_moved_other s a b m m' k :
  side_moved s a b m m' -> 0 <= a -> wf m -> side_ok (negb s) m -> 1 <= k <= ct (negb s) m ->
  key (negb s) m' k = key (negb s) m k.
Proof.
  intros Hm Ha Hw Hs Hk. assert (Hin : in_heap m (side (negb s) k)) by (apply side_in_heap; [done|done|lia]).
  unfold side_moved, key, side in *.
  destruct s; cbn [negb] in *; [f_equal|]; (eapply moved_item; [done|done|lia]).
Qed.

(** Both heaps are ordered; every filled position of the one is at most, and every
    one of the other at least, the root. *)
Definition balanced m : Prop :=
  ordered (minCt m) (key true m) /\ ordered (maxCt m) (key false m).

(** Everything between the two last positions may have moved. *)
Definition shuffled m m' : Prop := moved (- maxCt m) (minCt m) m m'.

Lemma side_moved_shuffled s a b m m' :
  side_moved s a b m m' -> 0 <= a -> b <= ct s m -> 0 <= ct true m -> 0 <= ct false m ->
  shuffled m m'.
Proof.
  unfold side_moved, shuffled, ct. intros Hm ????.
  eapply moved_weaken; [exact Hm|destruct s; lia..].
Qed.

Lemma shuffled_trans m1 m2 m3 : shuffled m1 m2 -> shuffled m2 m3 -> shuffled m1 m3.
Proof.
  unfold shuffled. intros H1 H2. rewrite (mv_maxCt _ _ _ _ H1), (mv_minCt _ _ _ _ H1) in H2.
  by eapply moved_trans.
Qed.

Lemma balanced_sides s m :
  balanced m <-> ordered (ct s m) (key s m) /\ ordered (ct (negb s) m) (key (negb s) m).
Proof. unfold balanced, ct. destruct s; cbn [negb]; tauto. Qed.

Lemma side_moved_ordered_other s a b m m' :
  side_moved s a b m m' -> 0 <= a -> wf m -> side_ok (negb s) m ->
  ordered (ct (negb s) m) (key (negb s) m) ->
  (1 <= ct (negb s) m -> key (negb s) m' 0 <= key (negb s) m 1) ->
  ordered (ct (negb s) m) (key (negb s) m').
Proof.
  intros Hm Ha Hw Hs Ho H0 k Hk.
  rewrite (side_moved_other s a b m m' k) by done.
  destruct (decide (k = 1)) as [->|]; [apply H0; lia|].
  rewrite (side_moved_other s a b m m' (k / 2)) by (done || lia). apply Ho. lia.
Qed.

(** An item that came in at a position of one side: it rises, and when it becomes
    the root the other side is repaired. *)
Definition side_settle (s : bool) m h : option rolling_median_t :=
  '(b, m) ← side_up s m h;
  if (b : bool) && negb (ct (negb s) m =? 0) then root_fix (negb s) m else Some m.

Lemma side_settle_ok s m h :
  wf m -> side_ok s m -> side_ok (negb s) m -> 0 <= ct (negb s) m -> 1 <= h <= ct s m ->
  weak_up (ct s m) (key s m) h -> ordered (ct (negb s) m) (key (negb s) m) ->
  exists m', side_settle s m h = Some m' /\ shuffled m m' /\ balanced m'.
Proof.
  intros Hw Hs Ht Hct Hh Hweak Hot. unfold side_settle.
  assert (0 <= ct true m /\ 0 <= ct false m) as [Hc1 Hc2] by (destruct s; cbn [negb] in Hct; lia).
  destruct (side_up_ok s m h Hw Hs Hh Hweak) as (b & m1 & -> & Hm1 & Ho1 & Hb).
  cbn [mbind option_bind]. pose proof (mv_wf _ _ _ _ Hm1) as Hw1.
  assert (Ecs : forall t, ct t m1 = ct t m) by (intros t; unfold ct; destruct Hm1, t; done).
  pose proof (fun t => side_moved_ok _ _ _ _ _ t Hm1) as Hok1.
  assert (Hsh1 : shuffled m m1) by (eapply side_moved_shuffled; [exact Hm1|lia..]).
  rewrite Ecs. destruct b; cbn [andb].
  2:{ exists m1. split; [done|]. split; [done|]. apply (balanced_sides s). rewrite !Ecs.
      split; [done|]. eapply side_moved_ordered_other; [exact Hm1|lia|done|done|done|].
      intros H1. rewrite key_root, Hb, <- key_root. apply (Hot 1). lia. }
  destruct Hb as (E1 & E0 & Hlt).
  destruct (Z.eqb_spec (ct (negb s) m) 0) as [Hz|Hnz]; cbn [negb].
  { exists m1. split; [done|]. split; [done|]. apply (balanced_sides s). rewrite !Ecs.
    split; [done|]. intros k Hk. lia. }
  destruct (root_fix_ok (negb s) m1) as (m2 & -> & Hm2 & Ho2 & R0 & _);
    [done|by apply Hok1|rewrite Ecs; lia| |].
  { intros k Hk. rewrite Ecs in Hk.
    rewrite !(side_moved_other s 0 h m m1) by (done || lia). apply Hot. lia. }
  rewrite Ecs in *. exists m2. split; [done|]. split.
  { eapply shuffled_trans; [exact Hsh1|].
    eapply side_moved_shuffled; [exact Hm2|rewrite ?Ecs; lia..]. }
  apply (balanced_sides s).
  assert (Ec2 : forall t, ct t m2 = ct t m) by (intros t; rewrite <- Ecs; unfold ct; destruct Hm2, t; done).
  rewrite !Ec2. split; [|done].
  pose proof (side_moved_ordered_other (negb s) 0 (ct (negb s) m) m1 m2) as Hother.
  rewrite negb_involutive, Ecs in Hother. apply Hother; [done|lia|done|by apply Hok1|done|].
  intros _. rewrite <- (negb_involutive s) at 1. rewrite key_root, R0, E1.
  rewrite key_root, E0, (side_moved_other s 0 h m m1) by (done || lia).
  assert (key (negb s) m 0 <= key (negb s) m 1) as H01 by (apply (Hot 1); lia).
  rewrite key_root in H01. lia.
Qed.

(** A new item at the root: the max side is repaired, then the min side. *)
Definition root_settle m : option rolling_median_t :=
  m ← (if maxCt m =? 0 then Some m else root_fix false m);
  if minCt m =? 0 then Some m else root_fix true m.

Lemma root_settle_ok m :
  wf m -> side_ok true m -> side_ok false m -> 0 <= minCt m -> 0 <= maxCt m ->
  (forall s k, 2 <= k <= ct s m -> key s m (k / 2) <= key s m k) ->
  (1 <= maxCt m -> 1 <= minCt m -> item m (-1) <= item m 1) ->
  exists m', root_settle m = Some m' /\ shuffled m m' /\ balanced m'.
Proof.
  intros Hw Hs Ht Hmn Hmx Ho Hx. unfold root_settle.
  assert (exists m1, (if maxCt m =? 0 then Some m else root_fix false m) = Some m1
            /\ side_moved false 0 (maxCt m) m m1 /\ ordered (maxCt m) (key false m1)
            /\ (1 <= maxCt m -> key false m 1 <= key false m1 1)) as (m1 & -> & Hm1 & Ho1 & Hk1).
  { destruct (Z.eqb_spec (maxCt m) 0) as [Hz|Hnz].
    - exists m. split; [done|]. split; [by apply moved_refl|]. split; [intros k Hk; lia|done].
    - destruct (root_fix_ok false m Hw Ht) as (m1 & -> & ? & ? & ? & ?);
        [cbn [ct]; lia|apply Ho|]. by exists m1. }
  cbn [mbind option_bind]. pose proof (mv_wf _ _ _ _ Hm1) as Hw1.
  assert (Ecs : forall t, ct t m1 = ct t m) by (intros t; unfold ct; destruct Hm1, t; done).
  assert (Hsh1 : shuffled m m1) by (eapply side_moved_shuffled; [exact Hm1|cbn [ct]; lia..]).
  pose proof (fun t => side_moved_ok _ _ _ _ _ t Hm1) as Hok1.
  pose proof (Ecs true) as Emn. pose proof (Ecs false) as Emx. cbn [ct] in Emn, Emx.
  rewrite Emn. destruct (Z.eqb_spec (minCt m) 0) as [Hz|Hnz].
  { exists m1. split; [done|]. split; [done|]. split; [intros k Hk; lia|by rewrite Emx]. }
  assert (Hpos : forall k, 1 <= k <= minCt m -> key true m1 k = key true m k).
  { intros k Hk. apply (side_moved_other false 0 (maxCt m)); [done|lia|done|done|done]. }
  destruct (root_fix_ok true m1 Hw1) as (m2 & -> & Hm2 & Ho2 & R0 & _);
    [by apply Hok1|cbn [ct]; lia| |].
  { cbn [ct]. rewrite Emn. intros k Hk. rewrite !Hpos by lia. by apply (Ho true). }
  cbn [ct] in *. rewrite Emn in *. exists m2. split; [done|]. split.
  { eapply shuffled_trans; [exact Hsh1|]. eapply side_moved_shuffled; [exact Hm2|cbn [ct]; lia..]. }
  split; [by rewrite (mv_minCt _ _ _ _ Hm2), Emn|]. rewrite (mv_maxCt _ _ _ _ Hm2), Emx.
  rewrite <- Emx at 1.
  apply (side_moved_ordered_other true 0 (minCt m)); [done|lia|done|by apply Hok1|cbn [ct negb]; by rewrite Emx|].
  cbn [ct negb]. rewrite Emx. intros H1.
  change (key false m2 0) with (key (negb true) m2 0). rewrite key_root, R0, (Hpos 1) by lia.
  assert (H01 : key false m1 0 <= key false m1 1) by (apply (Ho1 1); lia).
  specialize (Hk1 H1). specialize (Hx H1 ltac:(lia)).
  change (key false m1 0) with (key (negb true) m1 0) in H01. rewrite key_root in H01.
  unfold key in *. change (Z.opp 1) with (-1) in *. lia.
Qed.

(** ** The invariant of the structure *)

Record inv m : Prop := {
  inv_wf : wf m;
  inv_sz : 0 <= sz m <= N m;
  inv_min : minCt m = (sz m - 1) ÷ 2;
  inv_max : maxCt m = sz m / 2;
  inv_idx : 0 <= idx m < N m;
  inv_queue : sz m < N m -> idx m = sz m;
  inv_fill k : sz m <= k < N m -> P_at m k = fill_pos k;
  inv_balanced : balanced m }.

Lemma fill_pos_cases k :
  0 <= k -> (exists j, k = 2 * j /\ fill_pos k = j) \/ (exists j, k = 2 * j + 1 /\ fill_pos k = - j - 1).
Proof.
  intros Hk. unfold fill_pos.
  assert (E : Z.land k 1 = k mod 2) by (apply (Z.land_ones k 1); lia).
  rewrite E. pose proof (Z.mod_pos_bound k 2). destruct (Z.eqb_spec (k mod 2) 0).
  - left. exists (k / 2). lia.
  - right. exists (k / 2). lia.
Qed.

(** The filled heap positions hold exactly the filled cells of the queue. *)
Lemma inv_filled m i :
  inv m -> in_heap m i -> (- maxCt m <= i <= minCt m /\ 0 < sz m) <-> H_at m i < sz m.
Proof.
  intros [Hw Hsz Hmn Hmx _ _ Hfill _] Hi. destruct (wf_HP m Hw i Hi) as [Hq Hp].
  unfold in_queue in Hq. split.
  - intros [Hr Hz]. destruct (Z.ltb_spec (H_at m i) (sz m)); [done|].
    rewrite Hfill in Hp by lia.
    destruct (fill_pos_cases (H_at m i)) as [(j & E & F)|(j & E & F)]; lia.
  - intros Hlt. split; [|lia].
    destruct (decide (- maxCt m <= i <= minCt m)) as [?|Hout]; [done|exfalso].
    set (k := if 0 <? i then 2 * i else - 2 * i - 1).
    unfold in_heap in Hi.
    assert (sz m <= k < N m /\ fill_pos k = i) as [Hk Fk].
    { assert (0 <= k) as Hk0 by (unfold k; cases_cmp; lia).
      destruct (fill_pos_cases k Hk0) as [(j & E & F)|(j & E & F)]; rewrite F; unfold k in *;
        revert E; cases_cmp; intros; lia. }
    assert (Hk' : in_queue m k) by (unfold in_queue; lia).
    pose proof (proj2 (wf_PH m Hw k Hk')) as E. rewrite Hfill, Fk in E by lia. lia.
Qed.

(** ** Insertion *)

(** The state after [data[idx] = v] and the updates of the counters *)
Definition stored m l i mn mx s : rolling_median_t := set_counts (set_data m l) i mn mx s.

Lemma stored_wf m l i mn mx s : wf m -> length l = length (data m) -> wf (stored m l i mn mx s).
Proof. intros [] Hl. constructor; cbn; try done. by rewrite Hl. Qed.

Lemma stored_item m v l i mn mx s j :
  wf m -> in_queue m (idx m) -> in_heap m j ->
  (forall k, rd 0 l k = if k =? idx m then Some v else rd 0 (data m) k) ->
  item (stored m l i mn mx s) j = if j =? P_at m (idx m) then v else item m j.
Proof.
  intros Hw Hq Hj Hl. unfold item, D_at, rd_data.
  change (H_at (stored m l i mn mx s) j) with (H_at m j).
  change (data (stored m l i mn mx s)) with l. rewrite Hl.
  destruct (wf_HP m Hw j Hj) as [_ Ej]. destruct (wf_PH m Hw (idx m) Hq) as [_ Eq].
  destruct (Z.eqb_spec (H_at m j) (idx m)) as [E|E], (Z.eqb_spec j (P_at m (idx m))) as [F|F];
    try done; exfalso; congruence.
Qed.

(** After the heaps are settled the invariant holds again. *)
Lemma settled_inv m1 m' :
  wf m1 -> 0 <= sz m1 <= N m1 -> minCt m1 = (sz m1 - 1) ÷ 2 -> maxCt m1 = sz m1 / 2 ->
  0 <= idx m1 < N m1 -> (sz m1 < N m1 -> idx m1 = sz m1) ->
  (forall k, sz m1 <= k < N m1 -> P_at m1 k = fill_pos k) -> 0 < sz m1 ->
  shuffled m1 m' -> balanced m' -> inv m'.
Proof.
  intros Hw Hsz Hmn Hmx Hi Hq Hfill Hpos Hsh Hb.
  pose proof (mv_wf _ _ _ _ Hsh) as Hw'. pose proof (mv_out _ _ _ _ Hsh) as Ho.
  pose proof (fun i => moved_in_heap _ _ _ _ i Hsh) as Hh.
  destruct Hsh as [_ EN Ei Emn Emx Es _ _ _].
  constructor; rewrite ?EN, ?Ei, ?Emn, ?Emx, ?Es; try done.
  intros k Hk. assert (Hkq : in_queue m1 k) by (unfold in_queue; lia).
  destruct (wf_PH m1 Hw k Hkq) as [Hp Ek].
  assert (Hout : ~ - maxCt m1 <= P_at m1 k <= minCt m1).
  { rewrite Hfill by done. destruct (fill_pos_cases k) as [(j & ? & F)|(j & ? & F)]; lia. }
  rewrite <- (Hfill k Hk). pose proof (Ho _ Hp Hout) as E. rewrite Ek in E.
  rewrite <- E at 1. by apply (wf_HP m' Hw'), Hh.
Qed.

Lemma settle_min m h :
  wf m -> side_ok true m -> 1 <= h <= minCt m -> weak_up (minCt m) (key true m) h -> 1 <= maxCt m ->
  ('(b, m) ← minSortUp m h;
   if (b : bool) then
     '(b, m) ← mmCmpExch m 0 (-1); if (b : bool) then maxSortDown m (-1) else Some m
   else Some m) = side_settle true m h.
Proof.
  intros Hw Hs Hh Hweak Hc.
  destruct (side_up_ok true m h Hw Hs Hh Hweak) as (b & m1 & E & Hm & _).
  unfold side_settle. unfold side_up in *. rewrite E. cbn [mbind option_bind].
  cbn [negb ct]. rewrite (mv_maxCt _ _ _ _ Hm).
  rewrite (proj2 (Z.eqb_neq (maxCt m) 0)) by lia. by destruct b.
Qed.

Lemma settle_max m h :
  ('(b, m) ← maxSortUp m (- h);
   if (b : bool) && negb (minCt m =? 0) then
     '(b, m) ← mmCmpExch m 1 0; if (b : bool) then minSortDown m 1 else Some m
   else Some m) = side_settle false m h.
Proof. reflexivity. Qed.

Lemma settle_root m :
  (m ← (if maxCt m =? 0 then Some m else
          '(b, m) ← maxSortUp m (-1); if (b : bool) then maxSortDown m (-1) else Some m);
   if minCt m =? 0 then Some m else
     '(b, m) ← minSortUp m 1; if (b : bool) then minSortDown m 1 else Some m) = root_settle m.
Proof.
  assert (E1 : forall m, maxSortUp m (-1) = mmCmpExch m 0 (-1)).
  { intros m'. change (maxSortUp m' (-1)) with
      ('(b, m) ← mmCmpExch m' 0 (-1); if (b : bool) then Some (true, m) else Some (false, m)).
    by destruct (mmCmpExch m' 0 (-1)) as [[[] ?]|]. }
  assert (E2 : forall m, minSortUp m 1 = mmCmpExch m 1 0).
  { intros m'. change (minSortUp m' 1) with
      ('(b, m) ← mmCmpExch m' 1 0; if (b : bool) then Some (true, m) else Some (false, m)).
    by destruct (mmCmpExch m' 1 0) as [[[] ?]|]. }
  unfold root_settle, root_fix, side_exch, side_down.
  change (- 0) with 0. change (Z.opp 1) with (-1). rewrite E1.
  destruct (maxCt m =? 0); cbn [mbind option_bind].
  - by rewrite E2.
  - destruct (mmCmpExch m 0 (-1)) as [[[] m1]|]; cbn [mbind option_bind]; [|by rewrite E2|done].
    destruct (maxSortDown m1 (-1)); cbn [mbind option_bind]; [by rewrite E2|done].
Qed.

(** Changing the key at one position of a side *)
Lemma key_change_up c (w w' : Z -> Z) h :
  ordered c w -> (forall k, 0 <= k <= c -> k <> h -> w' k = w k) -> 1 <= h <= c -> w' h <= w h ->
  weak_up c w' h.
Proof.
  intros Ho Hw Hh Hle. split.
  - intros k Hk Hne. rewrite (Hw k) by lia. destruct (decide (k / 2 = h)) as [E|].
    + specialize (Ho k Hk). rewrite E in *. lia.
    + rewrite Hw by lia. by apply Ho.
  - intros _ k Hk E. rewrite !Hw by lia.
    pose proof (Ho k Hk) as H1. pose proof (Ho h Hh) as H2. rewrite E in H1. lia.
Qed.

Lemma key_change_down c (w w' : Z -> Z) h :
  ordered c w -> (forall k, 0 <= k <= c -> k <> h -> w' k = w k) -> 1 <= h <= c -> w h <= w' h ->
  weak_down c w' h.
Proof.
  intros Ho Hw Hh Hle. split.
  - intros k Hk Hne. rewrite (Hw (k / 2)) by lia. destruct (decide (k = h)) as [->|].
    + specialize (Ho h Hk). lia.
    + rewrite Hw by lia. by apply Ho.
  - intros _ k Hk E. rewrite !Hw by lia.
    pose proof (Ho k Hk) as H1. pose proof (Ho h Hh) as H2. rewrite E in H1. lia.
Qed.

(** A new last position *)
Lemma key_append c (w w' : Z -> Z) :
  ordered (c - 1) w -> (forall k, 0 <= k <= c - 1 -> w' k = w k) -> 1 <= c -> weak_up c w' c.
Proof.
  intros Ho Hw Hc. split.
  - intros k Hk Hne. rewrite !Hw by lia. apply Ho. lia.
  - intros _ k Hk E. lia.
Qed.

Section Insert.
Context (m : rolling_median_t) (v : Z) (l : list Z).
Hypothesis Hinv : inv m.
Hypothesis Hlen : length l = length (data m).
Hypothesis Hl : forall k, rd 0 l k = if k =? idx m then Some v else rd 0 (data m) k.

Let sz1 : Z := Z.min (sz m + 1) (N m).
Let m1 : rolling_median_t :=
  stored m l ((idx m + 1) `rem` N m) ((sz1 - 1) ÷ 2) (sz1 / 2) sz1.
Let p : Z := P_at m (idx m).

Local Lemma m1_wf : wf m1.
Proof. apply stored_wf; [apply Hinv|done]. Qed.

Local Lemma m1_ok s : side_ok s m1.
Proof.
  pose proof (wf_N m (inv_wf m Hinv)). pose proof (inv_sz m Hinv).
  unfold side_ok, ct, m1, stored. cbn [minCt maxCt N set_counts set_data]. destruct s; lia.
Qed.

Local Lemma m1_ct s : 0 <= ct s m1.
Proof.
  pose proof (wf_N m (inv_wf m Hinv)). pose proof (inv_sz m Hinv).
  unfold ct, m1, stored. cbn [minCt maxCt set_counts set_data]. destruct s; lia.
Qed.

Local Lemma m1_item i : in_heap m i -> item m1 i = if i =? p then v else item m i.
Proof.
  intros Hi. apply stored_item; [apply Hinv| |done|done]. apply (inv_idx m Hinv).
Qed.

Local Lemma m1_key s k : in_heap m (side s k) -> side s k <> p -> key s m1 k = key s m k.
Proof.
  unfold side, key. intros Hk Hne.
  destruct s; rewrite m1_item by done; rewrite (proj2 (Z.eqb_neq _ _)) by done; done.
Qed.

(** What is known of the state before the heaps are settled *)
Local Lemma m1_finish m' : shuffled m1 m' -> balanced m' -> inv m'.
Proof.
  pose proof (wf_N m (inv_wf m Hinv)) as HN. pose proof (inv_sz m Hinv) as Hs.
  pose proof (inv_idx m Hinv) as Hi. pose proof (inv_queue m Hinv) as Hq.
  apply settled_inv; try apply m1_wf; unfold m1, stored; cbn [sz N minCt maxCt idx set_counts set_data];
    try lia.
  - intros Hlt. assert (idx m = sz m) as -> by (apply Hq; lia). rewrite Z.rem_small by lia. lia.
  - intros k Hk. apply (inv_fill m Hinv). lia.
Qed.

(** The two situations: a full window, or a position that is filled for the first time *)
Local Lemma p_cases :
  (sz m = N m /\ minCt m1 = minCt m /\ maxCt m1 = maxCt m
   /\ minCt m = (N m - 1) / 2 /\ maxCt m = N m / 2 /\ in_heap m p)
  \/ (sz m < N m /\ p = fill_pos (sz m)
      /\ ((0 < p /\ minCt m1 = p /\ minCt m = p - 1 /\ maxCt m1 = maxCt m /\ 1 <= maxCt m)
          \/ (p < 0 /\ maxCt m1 = - p /\ maxCt m = - p - 1 /\ minCt m1 = minCt m)
          \/ (p = 0 /\ minCt m1 = 0 /\ maxCt m1 = 0 /\ sz m = 0))).
Proof.
  destruct Hinv as [Hw Hs Hmn Hmx Hi Hq Hf _]. pose proof (wf_N m Hw) as HN.
  change (minCt m1) with ((sz1 - 1) ÷ 2). change (maxCt m1) with (sz1 / 2). unfold sz1.
  destruct (decide (sz m = N m)) as [E|Hlt].
  - left. repeat (split; [lia|]). apply (wf_PH m Hw). unfold in_queue. lia.
  - right. split; [lia|]. assert (E : p = fill_pos (sz m)).
    { unfold p. rewrite Hq by lia. apply Hf. lia. }
    split; [done|]. destruct HN as [HN _]. rewrite Z.min_l by lia.
    destruct (fill_pos_cases (sz m)) as [(j & E1 & E2)|(j & E1 & E2)]; [lia|..].
    + destruct (decide (j = 0)) as [->|]; [right; right|left]; repeat split; lia.
    + right; left. repeat split; lia.
Qed.

Local Lemma m1_other s h :
  p = side s h -> 1 <= h -> ct (negb s) m1 = ct (negb s) m ->
  ordered (ct (negb s) m1) (key (negb s) m1).
Proof.
  intros Hp Hh Ec. pose proof (m1_ok (negb s)) as Hok. pose proof m1_wf as Hw.
  assert (Hk : forall k, 0 <= k <= ct (negb s) m1 -> key (negb s) m1 k = key (negb s) m k).
  { intros k Hk. apply m1_key; [apply (side_in_heap (negb s) m1 k Hw Hok Hk)|].
    rewrite Hp. unfold side. destruct s; cbn [negb]; lia. }
  intros k Hk1. rewrite !Hk by lia.
  pose proof (proj1 (balanced_sides s m) (inv_balanced m Hinv)) as [_ Ho]. apply Ho. lia.
Qed.

Local Lemma m1_same s h :
  p = side s h -> 1 <= h <= ct s m1 ->
  forall k, 0 <= k <= ct s m1 -> k <> h -> key s m1 k = key s m k.
Proof.
  intros Hp Hh k Hk Hne. apply m1_key; [apply (side_in_heap s m1 k m1_wf (m1_ok s) Hk)|].
  rewrite Hp. unfold side. destruct s; lia.
Qed.

(** The new item rises. *)
Lemma insert_up s h :
  p = side s h -> 1 <= h <= ct s m1 -> ct (negb s) m1 = ct (negb s) m ->
  (ct s m = ct s m1 /\ key s m1 h <= key s m h) \/ (ct s m = ct s m1 - 1 /\ h = ct s m1) ->
  weak_up (ct s m1) (key s m1) h
  /\ exists m', side_settle s m1 h = Some m' /\ shuffled m1 m' /\ inv m'.
Proof.
  intros Hp Hh Ec Hcase.
  pose proof (proj1 (balanced_sides s m) (inv_balanced m Hinv)) as [Ho _].
  pose proof (m1_same s h Hp Hh) as Hsame.
  assert (Hweak : weak_up (ct s m1) (key s m1) h).
  { destruct Hcase as [[E Hle]|[E ->]].
    - apply (key_change_up _ (key s m)); [by rewrite <- E|done|done|done].
    - apply (key_append _ (key s m)); [by rewrite <- E| |lia].
      intros k Hk. apply Hsame; lia. }
  split; [done|].
  destruct (side_settle_ok s m1 h m1_wf (m1_ok s) (m1_ok (negb s)) (m1_ct (negb s)) Hh Hweak
              (m1_other s h Hp ltac:(lia) Ec)) as (m' & E & Hsh & Hb).
  exists m'. split; [done|]. split; [done|]. by apply m1_finish.
Qed.

(** The new item sinks. *)
Lemma insert_down s h :
  p = side s h -> 1 <= h <= ct s m1 -> ct (negb s) m1 = ct (negb s) m -> ct s m = ct s m1 ->
  key s m h <= key s m1 h ->
  exists m', side_down s m1 h = Some m' /\ shuffled m1 m' /\ inv m'.
Proof.
  intros Hp Hh Ec E Hle.
  pose proof (proj1 (balanced_sides s m) (inv_balanced m Hinv)) as [Ho _].
  pose proof (m1_same s h Hp Hh) as Hsame.
  destruct (side_down_ok s m1 h m1_wf (m1_ok s) Hh) as (m' & Em & Hm & Hord).
  { apply (key_change_down _ (key s m)); [by rewrite <- E|done|done|done]. }
  exists m'. split; [done|].
  assert (Hsh : shuffled m1 m') by
    (eapply side_moved_shuffled; [exact Hm|lia|lia|apply m1_ct..]).
  split; [done|]. apply m1_finish; [done|]. apply (balanced_sides s).
  assert (Ecs : forall t, ct t m' = ct t m1) by (intros t; unfold ct; destruct Hsh, t; done).
  rewrite !Ecs. split; [done|]. pose proof (m1_other s h Hp ltac:(lia) Ec) as Hother.
  eapply side_moved_ordered_other; [exact Hm|lia|apply m1_wf|apply m1_ok|done|].
  intros H1. rewrite key_root. rewrite (side_moved_key s h (ct s m1) m1 m' 0);
    [|exact Hm|apply (side_in_heap s m1 0 m1_wf (m1_ok s)); lia|lia].
  rewrite <- key_root. apply (Hother 1). lia.
Qed.

Lemma insert_root :
  p = 0 -> minCt m1 = minCt m -> maxCt m1 = maxCt m ->
  exists m', root_settle m1 = Some m' /\ shuffled m1 m' /\ inv m'.
Proof.
  intros Hp Emn Emx. pose proof (inv_balanced m Hinv) as [Ho1 Ho2].
  assert (Hk : forall s k, 1 <= k <= ct s m1 -> key s m1 k = key s m k).
  { intros s k Hk. apply m1_key; [apply (side_in_heap s m1 k m1_wf (m1_ok s)); lia|].
    rewrite Hp. unfold side. destruct s; lia. }
  pose proof (m1_ct true) as C1. pose proof (m1_ct false) as C2. cbn [ct] in C1, C2.
  destruct (root_settle_ok m1 m1_wf (m1_ok true) (m1_ok false)) as (m' & E & Hsh & Hb);
    [done|done| | |].
  - intros s k Hk2. rewrite !Hk by lia.
    destruct s; cbn [ct] in Hk2; [apply Ho1|apply Ho2]; lia.
  - intros H1 H2. pose proof (Hk true 1 ltac:(cbn [ct]; lia)) as K1.
    pose proof (Hk false 1 ltac:(cbn [ct]; lia)) as K2. unfold key in K1, K2.
    change (Z.opp 1) with (-1) in K2.
    assert (key true m 0 <= key true m 1) as A by (apply (Ho1 1); lia).
    assert (key false m 0 <= key false m 1) as B by (apply (Ho2 1); lia).
    unfold key in A, B. change (Z.opp 1) with (-1) in B. change (Z.opp 0) with 0 in B. lia.
  - exists m'. split; [done|]. split; [done|]. by apply m1_finish.
Qed.

Hypothesis Hwr : wr 0 (data m) (idx m) v = Some l.

Lemma insert_settled : exists m', insert m v = Some m' /\ shuffled m1 m' /\ inv m'.
Proof.
  pose proof (inv_wf m Hinv) as Hw. pose proof (wf_N m Hw) as [HN _].
  assert (Hq : in_queue m (idx m)) by apply (inv_idx m Hinv).
  pose proof (inv_sz m Hinv) as Hsz. pose proof (inv_min m Hinv) as Emn.
  pose proof (inv_max m Hinv) as Emx.
  destruct (wf_PH m Hw _ Hq) as [Hp Eidx]. fold p in Hp, Eidx.
  unfold insert. rewrite (rd_pos_ok m _ Hw Hq), (rd_data_ok m _ Hw Hq), Hwr. fold p.
  assert (Eold : D_at m (idx m) = item m p) by (unfold item; by rewrite Eidx).
  rewrite Eold. cbn [mbind option_bind].
  change (N (set_counts _ _ _ _ _)) with (N m).
  cbn [minCt maxCt idx sz set_counts set_data]. fold sz1.
  assert (Hv : forall s h, p = side s h -> key s m1 h = if s then v else - v).
  { intros s h E. unfold key. unfold side in E. destruct s; rewrite m1_item by (by rewrite <- E);
      rewrite (proj2 (Z.eqb_eq _ _)) by done; done. }
  assert (Hm1 : forall mn mx, mn = minCt m1 -> mx = maxCt m1 ->
     set_counts (set_data m l) ((idx m + 1) `rem` N m) mn mx sz1 = m1) by (by intros ? ? -> ->).
  assert (Hm1' : forall mn mx mn' mx', mn' = minCt m1 -> mx' = maxCt m1 ->
     set_counts (set_counts (set_data m l) ((idx m + 1) `rem` N m) mn mx sz1)
       ((idx m + 1) `rem` N m) mn' mx' sz1 = m1) by (by intros ? ? ? ? -> ->).
  pose proof p_cases as Hcases.
  destruct (Z.ltb_spec 0 p) as [Hpos|Hnpos]; [|destruct (Z.ltb_spec p 0) as [Hneg|Hz]].
  - destruct Hcases as [(Efull & C1 & C2 & C3 & C4 & _)|
      (Hlt & _ & [(_ & C1 & C2 & C3 & C4)|[(? & _)|(? & _)]])]; [|..|lia|lia].
    + assert (Hh : 1 <= p <= ct true m1) by (unfold in_heap in Hp; cbn [ct]; lia).
      rewrite (proj2 (Z.ltb_ge (minCt m) _)) by lia. cbn [negb andb].
      destruct (Z.ltb_spec (item m p) v) as [Hov|Hov]; rewrite Hm1 by done.
      * apply (insert_down true p); [done|done|done|done|].
        rewrite (Hv true p) by done. unfold key. lia.
      * destruct (insert_up true p) as [Hweak Hres]; [done|done|done|left; split; [done|]|].
        { rewrite (Hv true p) by done. unfold key. lia. }
        rewrite settle_min; [done|apply m1_wf|apply m1_ok|done|done|].
        rewrite C2, C4. unfold in_heap in Hp. lia.
    + rewrite (proj2 (Z.ltb_lt (minCt m) _)) by (pose proof (inv_fill m Hinv (sz m)); unfold in_heap in Hp; lia).
      cbn [negb andb]. rewrite Hm1' by (done || lia).
      destruct (insert_up true p) as [Hweak Hres]; [done|cbn [ct]; lia|done|right; cbn [ct]; lia|].
      rewrite settle_min; [done|apply m1_wf|apply m1_ok|lia|done|lia].
  - assert (Ep : p = side false (- p)) by (unfold side; lia).
    destruct Hcases as [(Efull & C1 & C2 & C3 & C4 & _)|
      (Hlt & _ & [(? & _)|[(_ & C1 & C2 & C3)|(? & _)]])]; [|lia|..|lia].
    + assert (Hh : 1 <= - p <= ct false m1) by (unfold in_heap in Hp; cbn [ct]; lia).
      rewrite (proj2 (Z.ltb_ge (maxCt m) _)) by lia. cbn [negb andb].
      destruct (Z.ltb_spec v (item m p)) as [Hov|Hov]; rewrite Hm1 by done.
      * replace (maxSortDown m1 p) with (side_down false m1 (- p))
          by (unfold side_down; by rewrite Z.opp_involutive).
        apply insert_down; [done|done|done|done|].
        rewrite (Hv false (- p)) by done. unfold key. rewrite Z.opp_involutive. lia.
      * destruct (insert_up false (- p)) as [_ Hres]; [done|done|done|left; split; [done|]|].
        { rewrite (Hv false (- p)) by done. unfold key. rewrite Z.opp_involutive. lia. }
        rewrite <- settle_max, Z.opp_involutive in Hres. exact Hres.
    + rewrite (proj2 (Z.ltb_lt (maxCt m) _)) by (unfold in_heap in Hp; lia).
      cbn [negb andb]. rewrite Hm1' by (done || lia).
      destruct (insert_up false (- p)) as [_ Hres]; [done|cbn [ct]; lia|done|right; cbn [ct]; lia|].
      rewrite <- settle_max, Z.opp_involutive in Hres. exact Hres.
  - assert (p = 0) as Hp0 by lia.
    assert (minCt m1 = minCt m /\ maxCt m1 = maxCt m) as [C1 C2].
    { destruct Hcases as [(_ & ? & ? & _)|(_ & _ & [?|[?|(_ & ? & ? & ?)]])]; lia. }
    rewrite Hm1 by done.
    change (maxCt (set_counts _ _ _ _ _)) with (maxCt m). rewrite <- C2.
    rewrite settle_root. by apply insert_root.
Qed.

End Insert.

Lemma wr_insert l i x l' : wr 0 l i x = Some l' -> l' = <[Z.to_nat i := x]> l.
Proof. unfold wr. cbn [Z.add]. destruct (_ && _); [|done]. by intros [= <-]. Qed.

Lemma insert_inv m v :
  inv m ->
  exists m', insert m v = Some m' /\ inv m' /\ N m' = N m
    /\ idx m' = (idx m + 1) `rem` N m /\ sz m' = Z.min (sz m + 1) (N m)
    /\ data m' = <[Z.to_nat (idx m) := v]> (data m).
Proof.
  intros Hinv. pose proof (inv_idx m Hinv) as Hi.
  destruct (wr_spec 0 (data m) (idx m) v) as (l & Hwr & Hlen & Hl);
    [rewrite (wf_data m (inv_wf m Hinv)); lia|].
  destruct (insert_settled m v l Hinv Hlen Hl Hwr) as (m' & E & Hsh & Hinv').
  exists m'. split; [done|]. split; [done|]. destruct Hsh as [Ed EN Ei _ _ Es _ _ _].
  rewrite Ed, EN, Ei, Es. cbn. by rewrite <- (wr_insert _ _ _ _ Hwr).
Qed.

(** ** Clearing *)

Lemma fill_pos_inj i j : 0 <= i -> 0 <= j -> fill_pos i = fill_pos j -> i = j.
Proof.
  intros Hi Hj.
  destruct (fill_pos_cases i Hi) as [(a & ? & ->)|(a & ? & ->)];
    destruct (fill_pos_cases j Hj) as [(b & ? & ->)|(b & ? & ->)]; lia.
Qed.

Lemma fill_pos_in_heap m k : 0 <= k < N m -> in_heap m (fill_pos k).
Proof.
  intros Hk. unfold in_heap. destruct (fill_pos_cases k) as [(a & ? & ->)|(a & ? & ->)]; lia.
Qed.

(** The arrays have their sizes. *)
Record sized m : Prop := {
  sd_N : 1 <= N m <= INT_MAX / 16;
  sd_data : Z.of_nat (length (data m)) = N m;
  sd_pos : Z.of_nat (length (pos m)) = N m;
  sd_heap : Z.of_nat (length (heap m)) = N m }.

Lemma clear_loop_ok k m :
  sized m -> Z.of_nat k <= N m ->
  (forall j, Z.of_nat k <= j < N m -> P_at m j = fill_pos j /\ H_at m (fill_pos j) = j) ->
  exists p h, clear_loop k m = Some (set_arrays m p h) /\ sized (set_arrays m p h)
    /\ forall j, 0 <= j < N m -> P_at (set_arrays m p h) j = fill_pos j
                                 /\ H_at (set_arrays m p h) (fill_pos j) = j.
Proof.
  revert m. induction k as [|k IH]; intros m Hs Hk Hdone.
  { exists (pos m), (heap m). destruct m. auto. }
  cbn [clear_loop]. pose proof Hs as [HN Hd Hp Hh].
  set (kz := Z.of_nat k) in *. assert (0 <= kz < N m) as Hkz by lia.
  destruct (wr_spec 0 (pos m) kz (fill_pos kz)) as (p1 & -> & Lp & Rp); [lia|].
  cbn [mbind option_bind]. rewrite Rp, Z.eqb_refl. cbn [mbind option_bind].
  pose proof (fill_pos_in_heap m kz Hkz) as Hin.
  destruct (wr_spec (heap_off m) (heap m) (fill_pos kz) kz) as (h1 & -> & Lh & Rh).
  { unfold heap_off, in_heap in *. lia. }
  cbn [mbind option_bind].
  destruct (IH (set_arrays m p1 h1)) as (p & h & E & Hs' & Hall).
  - constructor; cbn; lia.
  - cbn. lia.
  - cbn [N set_arrays]. intros j Hj.
    unfold P_at, H_at, rd_pos, rd_heap. cbn [pos heap set_arrays].
    change (heap_off (set_arrays m p1 h1)) with (heap_off m). rewrite Rp, Rh.
    destruct (Z.eqb_spec j kz) as [->|Hne]; [by rewrite Z.eqb_refl|].
    destruct (Z.eqb_spec (fill_pos j) (fill_pos kz)) as [E|_];
      [apply fill_pos_inj in E; lia|]. apply Hdone. lia.
  - exists p, h. auto.
Qed.

Lemma clear_inv m :
  sized m -> exists m', clear m = Some m' /\ inv m' /\ N m' = N m /\ sz m' = 0.
Proof.
  intros Hs. pose proof Hs as [HN Hd Hp Hh].
  destruct (clear_loop_ok (Z.to_nat (N m)) (set_counts m 0 0 0 0)) as (p & h & E & Hs' & Hall).
  { by destruct Hs. } { cbn. lia. } { cbn. intros j Hj. lia. }
  unfold clear. rewrite E. eexists. split; [done|]. split; [|done].
  set (m' := set_arrays (set_counts m 0 0 0 0) p h) in *. cbn in Hall.
  assert (Hw : wf m').
  { destruct Hs' as [w1 w2 w3 w4]. constructor; try done.
    - intros i Hi. set (k := if 0 <? i then 2 * i else if i =? 0 then 0 else - 2 * i - 1).
      assert (0 <= k < N m /\ fill_pos k = i) as [Hk Fk].
      { unfold in_heap in Hi. cbn in Hi. assert (0 <= k) as Hk0 by (unfold k; cases_cmp; lia).
        destruct (fill_pos_cases k Hk0) as [(j & E1 & F)|(j & E1 & F)]; rewrite F; unfold k in *;
          revert E1; cases_cmp; intros; lia. }
      destruct (Hall k Hk) as [A B]. rewrite Fk in *. rewrite B. split; [apply Hk|done].
    - intros k Hk. destruct (Hall k Hk) as [-> B]. split; [by apply fill_pos_in_heap|done]. }
  constructor; cbn; try done; try lia.
  - intros k Hk. by apply Hall.
  - split; intros k Hk; cbn in Hk; lia.
Qed.

(** ** What the structure promises

    The specification keeps the last [n] items in order; [size] is their number and
    [median] the median of misc_language.h. *)

Definition push (n : Z) (q : list Z) (v : Z) : list Z :=
  (if Z.of_nat (length q) <? n then q else tail q) ++ [v].

(** The items the structure holds, oldest first *)
Definition items m : list Z :=
  if sz m <? N m then take (Z.to_nat (sz m)) (data m)
  else drop (Z.to_nat (idx m)) (data m) ++ take (Z.to_nat (idx m)) (data m).

Lemma items_length m : inv m -> Z.of_nat (length (items m)) = sz m.
Proof.
  intros Hinv. pose proof (wf_data m (inv_wf m Hinv)). pose proof (inv_sz m Hinv).
  pose proof (inv_idx m Hinv). unfold items. destruct (Z.ltb_spec (sz m) (N m)).
  - rewrite length_take. lia.
  - rewrite length_app, length_take, length_drop. lia.
Qed.

Lemma take_insert_last (l : list Z) k x :
  (k < length l)%nat -> take (S k) (<[k := x]> l) = take k l ++ [x].
Proof.
  intros Hk. rewrite (take_S_r _ _ x) by (apply list_lookup_insert_eq; lia).
  by rewrite take_insert_ge.
Qed.

Lemma insert_items m v m' :
  inv m -> N m' = N m -> idx m' = (idx m + 1) `rem` N m -> sz m' = Z.min (sz m + 1) (N m) ->
  data m' = <[Z.to_nat (idx m) := v]> (data m) -> items m' = push (N m) (items m) v.
Proof.
  intros Hinv EN Ei Es Ed. pose proof (items_length m Hinv) as Hlen.
  pose proof (wf_data m (inv_wf m Hinv)) as Hd. pose proof (inv_sz m Hinv) as Hs.
  pose proof (inv_idx m Hinv) as Hi. pose proof (inv_queue m Hinv) as Hq.
  unfold push. rewrite Hlen. unfold items. rewrite EN, Ei, Es, Ed. clear Hlen.
  set (k := Z.to_nat (idx m)) in *.
  destruct (Z.ltb_spec (sz m) (N m)) as [Hlt|Hfull].
  - assert (Z.to_nat (sz m) = k) as -> by (unfold k; rewrite Hq; done).
    rewrite <- take_insert_last by lia. destruct (Z.ltb_spec (Z.min (sz m + 1) (N m)) (N m)).
    + f_equal. lia.
    + replace (idx m + 1) with (N m) by (rewrite Hq; lia). rewrite Z.rem_same by lia.
      change (Z.to_nat 0) with O. rewrite drop_0, take_0, app_nil_r. symmetry. apply take_ge. rewrite length_insert. lia.
  - rewrite (proj2 (Z.ltb_ge _ _)) by lia.
    destruct (lookup_lt_is_Some_2 (data m) k) as [x Hx]; [lia|].
    rewrite (drop_S _ _ _ Hx). cbn [tail app]. rewrite <- app_assoc, <- take_insert_last by lia.
    destruct (decide (idx m + 1 = N m)) as [E|Hne].
    + rewrite E, Z.rem_same by lia. change (Z.to_nat 0) with O.
      rewrite drop_0, take_0, app_nil_r, (drop_ge (data m)), take_ge by (rewrite ?length_insert; lia). done.
    + rewrite Z.rem_small by lia.
      replace (Z.to_nat (idx m + 1)) with (S k) by lia.
      by rewrite drop_insert_lt by lia.
Qed.

(** ** The median *)

Lemma ordered_first c w k : ordered c w -> 1 <= k <= c -> w 1 <= w k.
Proof.
  intros Ho Hk. assert (0 <= k) as H0 by lia. revert Hk. pattern k. apply Zlt_0_ind; [|done].
  clear k H0. intros k IH Hk0 Hk. destruct (decide (k = 1)) as [->|]; [lia|].
  transitivity (w (k / 2)); [apply IH; lia|apply Ho; lia].
Qed.

(** The items at the filled heap positions are those of the queue. *)
Lemma heap_items m : inv m -> 0 < sz m -> (item m <$> seqZ (- maxCt m) (sz m)) ≡ₚ items m.
Proof.
  intros Hinv Hpos. pose proof (inv_wf m Hinv) as Hw. pose proof (wf_N m Hw) as HN.
  pose proof (inv_sz m Hinv) as Hs. pose proof (inv_min m Hinv) as Emn.
  pose proof (inv_max m Hinv) as Emx. pose proof (wf_data m Hw) as Hd.
  assert (Hin : forall i, i ∈ seqZ (- maxCt m) (sz m) <-> - maxCt m <= i <= minCt m).
  { intros i. rewrite elem_of_seqZ. lia. }
  assert (Hheap : forall i, - maxCt m <= i <= minCt m -> in_heap m i) by (unfold in_heap; intros; lia).
  assert (Hidx : (H_at m <$> seqZ (- maxCt m) (sz m)) ≡ₚ seqZ 0 (sz m)).
  { apply NoDup_Permutation; [|apply NoDup_seqZ|].
    - apply NoDup_fmap_2_strong; [|apply NoDup_seqZ].
      intros i j Hi%Hin%Hheap Hj%Hin%Hheap. by apply H_inj.
    - intros k. rewrite list_elem_of_fmap, elem_of_seqZ. split.
      + intros (i & -> & Hi%Hin). pose proof (wf_HP m Hw i (Hheap i Hi)) as [Hq _].
        unfold in_queue in Hq. pose proof (proj1 (inv_filled m i Hinv (Hheap i Hi))). lia.
      + intros Hk. assert (Hkq : in_queue m k) by (unfold in_queue; lia).
        destruct (wf_PH m Hw k Hkq) as [Hp Ek]. exists (P_at m k). split; [done|].
        apply Hin, (inv_filled m (P_at m k) Hinv Hp). lia. }
  assert (Hdata : (D_at m <$> seqZ 0 (sz m)) = take (Z.to_nat (sz m)) (data m)).
  { apply list_eq. intros k. rewrite list_lookup_fmap.
    destruct (decide (k < Z.to_nat (sz m))%nat) as [Hk|Hk].
    - rewrite lookup_seqZ_lt by lia. rewrite lookup_take_lt by done. cbn.
      unfold D_at, rd_data, rd. rewrite (proj2 (Z.leb_le _ _)) by lia.
      replace (Z.to_nat (0 + (0 + Z.of_nat k))) with k by lia.
      destruct (lookup_lt_is_Some_2 (data m) k) as [x ->]; [lia|done].
    - rewrite lookup_seqZ_ge, lookup_take_ge by lia. done. }
  assert ((item m <$> seqZ (- maxCt m) (sz m)) = D_at m <$> (H_at m <$> seqZ (- maxCt m) (sz m)))
    as -> by (by rewrite <- list_fmap_compose).
  rewrite Hidx, Hdata. unfold items. destruct (Z.ltb_spec (sz m) (N m)); [done|].
  rewrite take_ge by lia. rewrite Permutation_app_comm. by rewrite take_drop.
Qed.

Lemma get_mid_comm a b : get_mid a b = get_mid b a.
Proof. unfold get_mid. do 2 f_equal; [lia|]. f_equal. f_equal. lia. Qed.

(** The positions of a side in heap order are those of [seqZ]. *)
Lemma heap_split m :
  inv m -> 0 < sz m ->
  (item m <$> seqZ (- maxCt m) (sz m))
  = (item m <$> seqZ (- maxCt m) (maxCt m)) ++ item m 0 :: (item m <$> seqZ 1 (minCt m)).
Proof.
  intros Hinv Hpos. pose proof (inv_min m Hinv). pose proof (inv_max m Hinv).
  replace (sz m) with (maxCt m + (1 + minCt m)) by lia.
  rewrite seqZ_app by lia. rewrite fmap_app. f_equal.
  replace (- maxCt m + maxCt m) with 0 by lia. by rewrite seqZ_app by lia.
Qed.

Lemma root_bounds m i :
  inv m -> (- maxCt m <= i <= 0 -> item m i <= item m 0) /\ (0 <= i <= minCt m -> item m 0 <= item m i).
Proof.
  intros Hinv. destruct (inv_balanced m Hinv) as [H1 H2]. split; intros Hi.
  - pose proof (ordered_root _ _ (- i) H2) as H. unfold key in H.
    rewrite Z.opp_involutive in H. change (- 0) with 0 in H. lia.
  - apply (ordered_root _ _ i H1 Hi).
Qed.

(** The root has [maxCt] items below it. *)
Lemma rank_root m :
  inv m -> 0 < sz m -> merge_sort Z.le (items m) !! Z.to_nat (sz m / 2) = Some (item m 0).
Proof.
  intros Hinv Hpos. pose proof (inv_max m Hinv) as Emx. pose proof (inv_min m Hinv).
  pose proof (heap_items m Hinv Hpos) as Hp. rewrite heap_split in Hp by done.
  replace (Z.to_nat (sz m / 2)) with (length (item m <$> seqZ (- maxCt m) (maxCt m)))
    by (rewrite length_fmap, length_seqZ; lia).
  apply (merge_sort_rank _ _ _ (item m <$> seqZ 1 (minCt m))); [by rewrite Hp| |].
  - intros x (i & -> & Hi%elem_of_seqZ)%list_elem_of_fmap. apply (root_bounds m i Hinv). lia.
  - intros x (i & -> & Hi%elem_of_seqZ)%list_elem_of_fmap. apply (root_bounds m i Hinv). lia.
Qed.

(** The first position of the max side is the item before it in sorted order. *)
Lemma rank_below m :
  inv m -> 1 <= maxCt m ->
  merge_sort Z.le (items m) !! Z.to_nat (sz m / 2 - 1) = Some (item m (-1)).
Proof.
  intros Hinv Hc. pose proof (inv_max m Hinv) as Emx. pose proof (inv_min m Hinv).
  destruct (inv_balanced m Hinv) as [_ H2].
  assert (0 < sz m) as Hpos by lia.
  pose proof (heap_items m Hinv Hpos) as Hp. rewrite heap_split in Hp by done.
  replace (seqZ (- maxCt m) (maxCt m)) with (seqZ (- maxCt m) (maxCt m - 1) ++ [-1]) in Hp.
  2:{ replace (maxCt m) with (maxCt m - 1 + 1) at 4 by lia. rewrite seqZ_app by lia.
      f_equal. replace (- maxCt m + (maxCt m - 1)) with (-1) by lia. reflexivity. }
  rewrite fmap_app in Hp. cbn [fmap list_fmap] in Hp. rewrite <- app_assoc in Hp. cbn [app] in Hp.
  replace (Z.to_nat (sz m / 2 - 1)) with (length (item m <$> seqZ (- maxCt m) (maxCt m - 1)))
    by (rewrite length_fmap, length_seqZ; lia).
  eapply merge_sort_rank; [by rewrite Hp| |].
  - intros x (i & -> & Hi%elem_of_seqZ)%list_elem_of_fmap.
    pose proof (ordered_first _ _ (- i) H2) as H'. unfold key in H'.
    rewrite Z.opp_involutive in H'. change (Z.opp 1) with (-1) in H'. lia.
  - intros x. rewrite elem_of_cons. pose proof (proj1 (root_bounds m (-1) Hinv)).
    intros [->|(i & -> & Hi%elem_of_seqZ)%list_elem_of_fmap]; [lia|].
    pose proof (proj2 (root_bounds m i Hinv)). lia.
Qed.

Lemma rm_median_ok m : inv m -> 0 < sz m -> rm_median m = fst <$> median (items m).
Proof.
  intros Hinv Hpos. pose proof (inv_wf m Hinv) as Hw. pose proof (wf_N m Hw) as HN.
  pose proof (inv_max m Hinv) as Emx. pose proof (inv_min m Hinv) as Emn.
  pose proof (inv_sz m Hinv) as Hs. pose proof (items_length m Hinv) as Hlen.
  assert (Hin : forall i, - maxCt m <= i <= minCt m -> in_heap m i) by (unfold in_heap; intros; lia).
  assert (Hrd : forall i, - maxCt m <= i <= minCt m ->
            exists h, rd_heap m i = Some h /\ rd_data m h = Some (item m i)).
  { intros i Hi. exists (H_at m i). split; [by apply rd_heap_ok, Hin|].
    apply rd_data_ok; [done|]. by apply wf_HP, Hin. }
  unfold rm_median. destruct (Hrd 0) as (h0 & -> & E0); [lia|]. cbn [mbind option_bind].
  rewrite E0. cbn [mbind option_bind].
  pose proof (rank_root m Hinv Hpos) as R0. pose proof (rank_below m Hinv) as R1.
  pose proof (merge_sort_Permutation Z.le (items m)) as Hperm. apply Permutation_length in Hperm.
  assert (Hdiv : (length (items m) / 2)%nat = Z.to_nat (sz m / 2)).
  { rewrite <- Hlen. rewrite <- (Nat2Z.id (length (items m) / 2)). f_equal.
    by rewrite Nat2Z.inj_div. }
  assert (Hmod : Z.of_nat (length (items m) mod 2) = sz m mod 2).
  { rewrite Nat2Z.inj_mod. by rewrite Hlen. }
  unfold median. destruct (items m) as [|x [|y q]] eqn:Eq.
  - cbn in Hlen. lia.
  - cbn in Hlen. rewrite (proj2 (Z.ltb_ge _ _)) by lia.
    replace (sz m / 2) with 0 in R0 by lia. cbn in R0. by injection R0 as <-.
  - rewrite Hperm, Hdiv, R0. case_bool_decide as Hodd.
    + rewrite (proj2 (Z.ltb_ge _ _)) by lia. done.
    + rewrite (proj2 (Z.ltb_lt _ _)) by lia.
      destruct (Hrd (-1)) as (h1 & -> & E1); [lia|]. cbn [mbind option_bind].
      rewrite E1. cbn [mbind option_bind].
      replace (Z.to_nat (sz m / 2) - 1)%nat with (Z.to_nat (sz m / 2 - 1)) by lia.
      rewrite R1 by lia. cbn. by rewrite get_mid_comm.
Qed.

(** ** Refinement *)

Inductive op := Clear | Insert (v : Z).

Definition step (m : rolling_median_t) (o : op) : option rolling_median_t :=
  match o with Clear => clear m | Insert v => insert m v end.
Definition run (m : rolling_median_t) (os : list op) : option rolling_median_t :=
  foldl (fun acc o => m ← acc; step m o) (Some m) os.

Definition spec_step (n : Z) (q : list Z) (o : op) : list Z :=
  match o with Clear => [] | Insert v => push n q v end.
Definition spec_run (n : Z) (os : list op) : list Z := foldl (spec_step n) [] os.

Lemma inv_sized m : inv m -> sized m.
Proof. intros [[] _ _ _ _ _ _ _]. by constructor. Qed.

Lemma items_nil m : sz m = 0 -> 1 <= N m -> items m = [].
Proof. intros E HN. unfold items. rewrite E, (proj2 (Z.ltb_lt _ _)) by lia. done. Qed.

(** One operation of the structure is one operation of the specification. *)
Lemma step_refines m o :
  inv m -> exists m', step m o = Some m' /\ inv m' /\ N m' = N m
    /\ items m' = spec_step (N m) (items m) o.
Proof.
  intros Hinv. destruct o as [|v]; cbn [step spec_step].
  - destruct (clear_inv m (inv_sized m Hinv)) as (m' & E & Hi & HN & Hs).
    exists m'. split; [done|]. split; [done|]. split; [done|].
    apply items_nil; [done|]. pose proof (wf_N m' (inv_wf m' Hi)). lia.
  - destruct (insert_inv m v Hinv) as (m' & E & Hi & HN & Hidx & Hs & Hd).
    exists m'. repeat (split; [done|]). by apply insert_items.
Qed.

Lemma run_refines os m :
  inv m -> exists m', run m os = Some m' /\ inv m' /\ N m' = N m
    /\ items m' = foldl (spec_step (N m)) (items m) os.
Proof.
  unfold run. revert m. induction os as [|o os IH]; intros m Hinv.
  { by exists m. }
  destruct (step_refines m o Hinv) as (m1 & E & Hi & HN & Hq).
  cbn [foldl mbind option_bind]. rewrite E.
  destruct (IH m1 Hi) as (m' & E' & Hi' & HN' & Hq'). exists m'.
  rewrite HN, Hq in *. split; [done|]. split; [done|]. by rewrite HN'.
Qed.

Lemma make_ok n wd wp wh :
  1 <= n <= INT_MAX / 16 ->
  Z.of_nat (length wd) = n -> Z.of_nat (length wp) = n -> Z.of_nat (length wh) = n ->
  exists m, make n wd wp wh = Some m /\ inv m /\ N m = n /\ items m = [].
Proof.
  intros Hn Hd Hp Hh. unfold make.
  assert (int_ok (n * (8 + 4 * 2)) = Some (n * 16)) as ->.
  { unfold int_ok. change INT_MAX with 2147483647 in *.
    rewrite (proj2 (Z.leb_le _ _)), (proj2 (Z.leb_le _ _)) by lia. done. }
  cbn [mbind option_bind].
  destruct (clear_inv {| data := wd; pos := wp; heap := wh; N := n; idx := 0; minCt := 0;
    maxCt := 0; sz := 0 |}) as (m & E & Hi & HN & Hs); [by constructor|].
  exists m. repeat (split; [done|]). apply items_nil; [done|]. rewrite HN. cbn. lia.
Qed.

(** C31: [rolling_median_t] refines a bounded queue. Whatever the memory holds when the
    structure is built, and after any sequence of [clear] and [insert], every access
    was inside the arrays, no [int] overflowed and every loop ended; [size] is the
    number of items of the queue and [median], which takes constant time, is the
    median a full sort of the items computes. *)
Theorem rolling_median_refines (n : Z) (wd wp wh : list Z) (os : list op) :
  1 <= n <= INT_MAX / 16 ->
  Z.of_nat (length wd) = n -> Z.of_nat (length wp) = n -> Z.of_nat (length wh) = n ->
  exists m, (m ← make n wd wp wh; run m os) = Some m
    /\ size m = Z.of_nat (length (spec_run n os))
    /\ (spec_run n os <> [] -> rm_median m = fst <$> median (spec_run n os)).
Proof.
  intros Hn Hd Hp Hh. destruct (make_ok n wd wp wh) as (m0 & -> & Hi & HN & Hq); [done..|].
  destruct (run_refines os m0 Hi) as (m & E & Hi' & HN' & Hq'). rewrite HN, Hq in Hq'.
  exists m. unfold spec_run. rewrite <- Hq'. split; [done|].
  pose proof (items_length m Hi') as Hlen. split; [by rewrite Hlen|].
  intros Hne. apply rm_median_ok; [done|]. destruct (items m); [done|]. cbn in Hlen. lia.
Qed.

Lemma rolling_median_refines_witness :
  exists m, (m ← make 3 [9; 9; 9] [9; 9; 9] [9; 9; 9];
             run m [Insert 5; Clear; Insert 10; Insert 40; Insert 20; Insert 30]) = Some m
    /\ size m = 3 /\ rm_median m = Some 30.
Proof.
  destruct (rolling_median_refines 3 [9; 9; 9] [9; 9; 9] [9; 9; 9]
              [Insert 5; Clear; Insert 10; Insert 40; Insert 20; Insert 30])
    as (m & E & Hs & Hm); [by_decide|reflexivity|reflexivity|reflexivity|].
  exists m. split; [exact E|]. split; [exact Hs|]. rewrite Hm; [reflexivity|discriminate].
Defined.

(** Inserting a list keeps its last [n] items. *)
Lemma push_all n q l :
  1 <= n -> Z.of_nat (length q) <= n ->
  foldl (push n) q l = drop (length q + length l - Z.to_nat n) (q ++ l).
Proof.
  intros Hn. revert q. induction l as [|v l IH]; intros q Hq.
  { cbn. rewrite app_nil_r. replace (length q + 0 - Z.to_nat n)%nat with O by lia. done. }
  cbn [foldl]. rewrite IH; unfold push.
  - destruct (Z.ltb_spec (Z.of_nat (length q)) n) as [Hlt|Hge].
    + rewrite <- app_assoc. f_equal. rewrite length_app. cbn. lia.
    + destruct q as [|x q]; cbn [length] in *; [lia|]. cbn [tail]. rewrite <- app_assoc.
      cbn [app length]. rewrite length_app. cbn [length].
      replace (S (length q) + S (length l) - Z.to_nat n)%nat
        with (S (length q + 1 + length l - Z.to_nat n)) by lia. done.
  - destruct (Z.ltb_spec (Z.of_nat (length q)) n); rewrite length_app; cbn [length]; [lia|].
    destruct q; cbn [tail length] in *; lia.
Qed.
