(* ===== verification/Weights.v ===== *)
(** * Block weights: the weight part of src/cryptonote_core/blockchain.cpp

    A block may be as heavy as twice a median of recent weights. Since fork 10 the
    long-term median over [m_long_term_block_weights_window] blocks bounds it; it is
    kept in a [rolling_median_t] that the class updates incrementally and recognises
    by the hash of the last block it covers.

    The database is the table [block_info] of LMDB, a list by height. A read of a
    block that is not there and a failed check are [None]. Hashes are integers. *)

From stdpp Require Import sorting.
From S2P Require Import Prelude IntUtil SortedLists Emission HardForks HardFork RollingMedian.

Definition CRYPTONOTE_REWARD_BLOCKS_WINDOW : Z := 100.
Definition CRYPTONOTE_LONG_TERM_BLOCK_WEIGHT_WINDOW_SIZE : Z := 100000.
Definition CRYPTONOTE_SHORT_TERM_BLOCK_WEIGHT_SURGE_FACTOR : Z := 50.
Definition HF_VERSION_LONG_TERM_BLOCK_WEIGHT : Z := 10.
Definition HF_VERSION_2021_SCALING : Z := 15.
Definition null_hash : Z := 0.

(** ** The table of blocks *)

Record mdb_block_info := {
  bi_height : Z;
  bi_timestamp : Z;
  bi_coins : Z;
  bi_weight : Z;
  bi_diff_lo : Z;
  bi_diff_hi : Z;
  bi_hash : Z;
  bi_cum_rct : Z;
  bi_long_term_block_weight : Z }.

Definition height (db : list mdb_block_info) : Z := Z.of_nat (length db).

Definition block_info (db : list mdb_block_info) (h : Z) : option mdb_block_info :=
  if 0 <=? h then db !! Z.to_nat h else None.

(** At most [count] values of a field from [start_height] on *)
Definition get_block_info_64bit_fields (db : list mdb_block_info) (field : mdb_block_info -> Z)
    (start_height count : Z) : option (list Z) :=
  if height db <=? start_height then None
  else Some (field <$> take (Z.to_nat count) (drop (Z.to_nat start_height) db)).

Definition get_block_weights db := get_block_info_64bit_fields db bi_weight.
Definition get_long_term_block_weights db :=
  get_block_info_64bit_fields db bi_long_term_block_weight.
Definition get_block_hash_from_height db h : option Z := bi_hash <$> block_info db h.
Definition get_block_long_term_weight db h : option Z :=
  bi_long_term_block_weight <$> block_info db h.

(** ** The members of the class *)

Record Blockchain := {
  m_db : list mdb_block_info;
  m_hardfork : hardfork;
  m_current_block_cumul_weight_limit : Z;
  m_current_block_cumul_weight_median : Z;
  m_long_term_block_weights_window : Z;
  m_long_term_effective_median_block_weight : Z;
  m_long_term_block_weights_cache_tip_hash : Z;
  m_long_term_block_weights_cache_rolling_median : rolling_median_t }.

Definition set_cache (bc : Blockchain) (tip : Z) (rm : rolling_median_t) : Blockchain :=
  {| m_db := m_db bc; m_hardfork := m_hardfork bc;
     m_current_block_cumul_weight_limit := m_current_block_cumul_weight_limit bc;
     m_current_block_cumul_weight_median := m_current_block_cumul_weight_median bc;
     m_long_term_block_weights_window := m_long_term_block_weights_window bc;
     m_long_term_effective_median_block_weight := m_long_term_effective_median_block_weight bc;
     m_long_term_block_weights_cache_tip_hash := tip;
     m_long_term_block_weights_cache_rolling_median := rm |}.

Definition set_limits (bc : Blockchain) (limit med lt : Z) : Blockchain :=
  {| m_db := m_db bc; m_hardfork := m_hardfork bc;
     m_current_block_cumul_weight_limit := limit;
     m_current_block_cumul_weight_median := med;
     m_long_term_block_weights_window := m_long_term_block_weights_window bc;
     m_long_term_effective_median_block_weight := lt;
     m_long_term_block_weights_cache_tip_hash := m_long_term_block_weights_cache_tip_hash bc;
     m_long_term_block_weights_cache_rolling_median :=
       m_long_term_block_weights_cache_rolling_median bc |}.

Definition get_current_hard_fork_version (bc : Blockchain) : Z := get_current_version (m_hardfork bc).

(** ** Medians of recent blocks *)

(** The vector is left alone when there is no block. *)
Definition get_last_n_blocks_weights (db : list mdb_block_info) (weights : list Z) (count : Z)
  : option (list Z) :=
  let h := height db in
  if h =? 0 then Some weights
  else get_block_weights db (h - Z.min h count) count.

Definition median_value (v : list Z) : option Z := fst <$> median v.

Definition get_long_term_block_weight_median (bc : Blockchain) (start_height count : Z)
  : option (Z * Blockchain) :=
  if negb (0 <? count) then None
  else
    let db := m_db bc in
    let rm := m_long_term_block_weights_cache_rolling_median bc in
    let cache_tip := m_long_term_block_weights_cache_tip_hash bc in
    let blockchain_height := height db in
    let tip_height := u64 (start_height + count - 1) in
    tip_hash ← (if tip_height <? blockchain_height then get_block_hash_from_height db tip_height
                else Some null_hash);
    let cached := (tip_height <? blockchain_height) && (count =? size rm) && (tip_hash =? cache_tip) in
    if cached then
      v ← rm_median rm; Some (v, bc)
    else
      let rmsize := size rm in
      old_tip_hash ←
        (if (0 <? tip_height) && (tip_height <? blockchain_height)
            && ((count =? rmsize)
                || ((count =? rmsize + 1) && (rmsize <? CRYPTONOTE_LONG_TERM_BLOCK_WEIGHT_WINDOW_SIZE)))
         then Some <$> get_block_hash_from_height db (tip_height - 1)
         else Some None);
      if bool_decide (old_tip_hash = Some cache_tip) then
        w ← get_block_long_term_weight db tip_height;
        rm ← insert rm w;
        v ← rm_median rm;
        Some (v, set_cache bc tip_hash rm)
      else
        weights ← get_long_term_block_weights db start_height count;
        rm ← clear rm;
        rm ← insert_all rm weights;
        v ← rm_median rm;
        Some (v, set_cache bc tip_hash rm).

Definition get_next_long_term_block_weight (bc : Blockchain) (block_weight : Z)
  : option (Z * Blockchain) :=
  let db_height := height (m_db bc) in
  let nblocks := Z.min (m_long_term_block_weights_window bc) db_height in
  let hf_version := get_current_hard_fork_version bc in
  if hf_version <? HF_VERSION_LONG_TERM_BLOCK_WEIGHT then Some (block_weight, bc)
  else
    '(long_term_median, bc) ← get_long_term_block_weight_median bc (db_height - nblocks) nblocks;
    let eff := Z.max CRYPTONOTE_BLOCK_GRANTED_FULL_REWARD_ZONE_V5 long_term_median in
    if HF_VERSION_2021_SCALING <=? hf_version then
      let block_weight := Z.max block_weight (u64 (eff * 10) / 17) in
      let short_term_constraint := u64 (eff + u64 (eff * 7) / 10) in
      Some (Z.min block_weight short_term_constraint, bc)
    else
      let short_term_constraint := u64 (eff + u64 (eff * 2) / 5) in
      Some (Z.min block_weight short_term_constraint, bc).

Definition update_next_cumulative_weight_limit (bc : Blockchain) : option Blockchain :=
  let db_height := height (m_db bc) in
  let hf_version := get_current_hard_fork_version bc in
  let full_reward_zone := get_min_block_weight hf_version in
  '(med, lt, bc) ←
    (if hf_version <? HF_VERSION_LONG_TERM_BLOCK_WEIGHT then
       weights ← get_last_n_blocks_weights (m_db bc) [] CRYPTONOTE_REWARD_BLOCKS_WINDOW;
       m ← median_value weights;
       Some (m, m_long_term_effective_median_block_weight bc, bc)
     else
       let nblocks := Z.min (m_long_term_block_weights_window bc) db_height in
       '(long_term_median, bc) ← get_long_term_block_weight_median bc (db_height - nblocks) nblocks;
       let lt := Z.max CRYPTONOTE_BLOCK_GRANTED_FULL_REWARD_ZONE_V5 long_term_median in
       weights ← get_last_n_blocks_weights (m_db bc) [] CRYPTONOTE_REWARD_BLOCKS_WINDOW;
       short_term_median ← median_value weights;
       let surge := u64 (CRYPTONOTE_SHORT_TERM_BLOCK_WEIGHT_SURGE_FACTOR * lt) in
       let effective_median_block_weight :=
         if HF_VERSION_2021_SCALING <=? hf_version
         then Z.min (Z.max lt short_term_median) surge
         else Z.min (Z.max CRYPTONOTE_BLOCK_GRANTED_FULL_REWARD_ZONE_V5 short_term_median) surge in
       Some (effective_median_block_weight, lt, bc));
  let med := if med <=? full_reward_zone then full_reward_zone else med in
  Some (set_limits bc (u64 (med * 2)) med lt).

(** ** Adding and removing blocks *)

Definition with_chain (bc : Blockchain) (db : list mdb_block_info) (hf : hardfork) : Blockchain :=
  {| m_db := db; m_hardfork := hf;
     m_current_block_cumul_weight_limit := m_current_block_cumul_weight_limit bc;
     m_current_block_cumul_weight_median := m_current_block_cumul_weight_median bc;
     m_long_term_block_weights_window := m_long_term_block_weights_window bc;
     m_long_term_effective_median_block_weight := m_long_term_effective_median_block_weight bc;
     m_long_term_block_weights_cache_tip_hash := m_long_term_block_weights_cache_tip_hash bc;
     m_long_term_block_weights_cache_rolling_median :=
       m_long_term_block_weights_cache_rolling_median bc |}.

Definition with_long_term_weight (b : mdb_block_info) (w : Z) : mdb_block_info :=
  {| bi_height := bi_height b; bi_timestamp := bi_timestamp b; bi_coins := bi_coins b;
     bi_weight := bi_weight b; bi_diff_lo := bi_diff_lo b; bi_diff_hi := bi_diff_hi b;
     bi_hash := bi_hash b; bi_cum_rct := bi_cum_rct b; bi_long_term_block_weight := w |}.

(** The end of [handle_block_to_main_chain]: the record of the new block gets its
    long-term weight, the database adds it ([hf] is the fork state after that), and
    the limit is updated. *)
Definition store_block (bc : Blockchain) (b : mdb_block_info) (hf : hardfork) : option Blockchain :=
  '(long_term_block_weight, bc) ← get_next_long_term_block_weight bc (bi_weight b);
  update_next_cumulative_weight_limit
    (with_chain bc (m_db bc ++ [with_long_term_weight b long_term_block_weight]) hf).

(** The weight part of [pop_blocks] and of the switch to another chain: blocks are
    removed down to [n] of them, never the first one, and the limit is updated. *)
Definition pop_to (bc : Blockchain) (n : nat) (hf : hardfork) : option Blockchain :=
  if bool_decide (n = 0)%nat then None
  else update_next_cumulative_weight_limit (with_chain bc (take n (m_db bc)) hf).

(** ** The rolling cache *)

Lemma median_total v : exists x, median_value v = Some x.
Proof.
  unfold median_value, median. destruct v as [|a [|b v]]; [by eexists|by eexists|].
  set (l := a :: b :: v). assert (length l = S (S (length v))) as Hl by done.
  assert (length (merge_sort Z.le l) = length l) as Hm by (by rewrite merge_sort_Permutation).
  assert (forall k, (k < length l)%nat -> exists x, merge_sort Z.le l !! k = Some x) as Hk.
  { intros k Hk. apply lookup_lt_is_Some_2. by rewrite Hm. }
  pose proof (Nat.div_lt (length l) 2 ltac:(lia) ltac:(lia)).
  destruct (Hk (length l / 2)%nat) as [x Hx]; [lia|].
  destruct (Hk (length l / 2 - 1)%nat) as [y Hy]; [lia|].
  rewrite Hm, Hx, Hy. case_bool_decide; by eexists.
Qed.

(** The last [n] elements *)
Definition last_n (n : Z) (l : list Z) : list Z := drop (length l - Z.to_nat n) l.

Lemma last_n_length n l : 0 <= n -> Z.of_nat (length (last_n n l)) = Z.min n (Z.of_nat (length l)).
Proof. intros Hn. unfold last_n. rewrite length_drop. lia. Qed.

Lemma last_n_push n l w : 1 <= n -> push n (last_n n l) w = last_n n (l ++ [w]).
Proof.
  intros Hn. unfold push. rewrite last_n_length by lia. unfold last_n. rewrite length_app. cbn [length].
  destruct (Z.ltb_spec (Z.min n (Z.of_nat (length l))) n) as [Hlt|Hge].
  - replace (length l - Z.to_nat n)%nat with O by lia.
    replace (length l + 1 - Z.to_nat n)%nat with O by lia. done.
  - rewrite drop_app_le by lia. f_equal.
    replace (length l + 1 - Z.to_nat n)%nat with (S (length l - Z.to_nat n)) by lia.
    destruct (lookup_lt_is_Some_2 l (length l - Z.to_nat n)) as [x Hx]; [lia|].
    by rewrite (drop_S _ _ _ Hx).
Qed.

Lemma last_n_all n l : Z.of_nat (length l) <= n -> last_n n l = l.
Proof. intros Hl. unfold last_n. replace (length l - Z.to_nat n)%nat with O by lia. done. Qed.

Lemma insert_all_ok m l :
  inv m -> exists m', insert_all m l = Some m' /\ inv m' /\ N m' = N m
    /\ items m' = foldl (push (N m)) (items m) l.
Proof.
  unfold insert_all. revert m. induction l as [|v l IH]; intros m Hm; [by exists m|].
  destruct (step_refines m (Insert v) Hm) as (m1 & E & Hi & HN & Hq). cbn [step spec_step] in *.
  cbn [foldl mbind option_bind]. rewrite E.
  destruct (IH m1 Hi) as (m' & E' & Hi' & HN' & Hq'). exists m'. rewrite HN, Hq in *.
  split; [done|]. split; [done|]. by rewrite HN'.
Qed.

(** Clearing and refilling with at most [N] items holds exactly these. *)
Lemma refill_ok m l :
  inv m -> Z.of_nat (length l) <= N m ->
  exists m1 m', clear m = Some m1 /\ insert_all m1 l = Some m' /\ inv m' /\ N m' = N m /\ items m' = l.
Proof.
  intros Hm Hl. destruct (step_refines m Clear Hm) as (m1 & E & Hi & HN & Hq).
  cbn [step spec_step] in *. destruct (insert_all_ok m1 l Hi) as (m' & E' & Hi' & HN' & Hq').
  exists m1, m'. split; [done|]. split; [done|]. split; [done|]. split; [by rewrite HN'|].
  pose proof (wf_N m (inv_wf m Hm)). rewrite Hq', HN, Hq, push_all by (cbn; lia). cbn [app length].
  replace (0 + length l - Z.to_nat (N m))%nat with O by lia. done.
Qed.

Lemma median_items m : inv m -> items m <> [] -> rm_median m = median_value (items m).
Proof.
  intros Hm Hne. apply rm_median_ok; [done|]. pose proof (items_length m Hm).
  destruct (items m); [done|]. cbn in *. lia.
Qed.

Section Cache.
(** The long-term weights of a block's ancestors and itself. A block's hash commits
    to its ancestors, and so to their weights. *)
Context (weights_of : Z -> list Z).

Definition commits (db : list mdb_block_info) : Prop :=
  forall h b, db !! h = Some b ->
    bi_hash b <> null_hash /\ weights_of (bi_hash b) = bi_long_term_block_weight <$> take (S h) db.

(** The rolling median holds the last weights up to the block its hash names. *)
Record cache_ok (bc : Blockchain) : Prop := {
  co_inv : inv (m_long_term_block_weights_cache_rolling_median bc);
  co_N : N (m_long_term_block_weights_cache_rolling_median bc) = m_long_term_block_weights_window bc;
  co_items : m_long_term_block_weights_cache_tip_hash bc <> null_hash ->
    items (m_long_term_block_weights_cache_rolling_median bc)
    = last_n (m_long_term_block_weights_window bc)
             (weights_of (m_long_term_block_weights_cache_tip_hash bc)) }.

Definition lt_weights (db : list mdb_block_info) : list Z := bi_long_term_block_weight <$> db.

Lemma commits_tip db b :
  commits db -> last db = Some b -> bi_hash b <> null_hash /\ weights_of (bi_hash b) = lt_weights db.
Proof.
  intros Hc Hl. rewrite last_lookup in Hl. destruct (Hc _ _ Hl) as [Hn Hw]. split; [done|].
  rewrite Hw. unfold lt_weights. f_equal. apply take_ge. lia.
Qed.

(** What the three ways to the median have in common *)
Lemma cache_answer bc b rm :
  cache_ok bc -> commits (m_db bc) -> last (m_db bc) = Some b ->
  inv rm -> N rm = m_long_term_block_weights_window bc ->
  items rm = last_n (m_long_term_block_weights_window bc) (lt_weights (m_db bc)) ->
  rm_median rm = median_value (last_n (m_long_term_block_weights_window bc) (lt_weights (m_db bc)))
  /\ cache_ok (set_cache bc (bi_hash b) rm).
Proof.
  intros Hok Hc Hb Hi HN Hq. split.
  - rewrite <- Hq. apply median_items; [done|]. rewrite Hq. intros E.
    apply (f_equal (fun l => Z.of_nat (length l))) in E. pose proof (wf_N rm (inv_wf rm Hi)).
    rewrite last_n_length in E by lia. unfold lt_weights in E. rewrite length_fmap in E.
    destruct (m_db bc); [done|]. cbn in E. lia.
  - constructor; cbn; [done|done|]. intros _. rewrite Hq. f_equal. symmetry.
    by apply commits_tip.
Qed.

Lemma tip_info bc start count b :
  last (m_db bc) = Some b -> start + count = height (m_db bc) -> height (m_db bc) < 2 ^ 64 ->
  u64 (start + count - 1) = height (m_db bc) - 1
  /\ block_info (m_db bc) (height (m_db bc) - 1) = Some b /\ 1 <= height (m_db bc).
Proof.
  intros Hb E Hh. rewrite last_lookup in Hb. pose proof (lookup_lt_Some _ _ _ Hb) as Hlt.
  unfold height in *. rewrite wrap_small by (unfold in_width; lia). split; [lia|].
  unfold block_info. rewrite (proj2 (Z.leb_le _ _)) by lia. split; [|lia].
  rewrite <- Hb. f_equal. lia.
Qed.

(** The block before the tip *)
Lemma previous_info db h b :
  commits db -> block_info db (height db - 2) = Some b -> 2 <= height db -> last db = Some h ->
  lt_weights db = weights_of (bi_hash b) ++ [bi_long_term_block_weight h] /\ bi_hash b <> null_hash.
Proof.
  intros Hc Hb Hh Hl. unfold block_info, height in *.
  destruct (Z.leb_spec 0 (Z.of_nat (length db) - 2)); [|done].
  destruct (Hc _ _ Hb) as [Hn ->]. split; [|done].
  rewrite last_lookup in Hl. unfold lt_weights.
  rewrite <- (take_drop (S (Z.to_nat (Z.of_nat (length db) - 2))) db) at 1. rewrite fmap_app. f_equal.
  replace (S (Z.to_nat (Z.of_nat (length db) - 2))) with (pred (length db)) by lia.
  rewrite (drop_S _ _ _ Hl), drop_ge by lia. done.
Qed.

Lemma set_cache_id bc :
  set_cache bc (m_long_term_block_weights_cache_tip_hash bc)
    (m_long_term_block_weights_cache_rolling_median bc) = bc.
Proof. by destruct bc. Qed.

(** The window read from the database *)
Lemma window_read db W n :
  0 < height db -> 1 <= W -> n = Z.min W (height db) ->
  get_long_term_block_weights db (height db - n) n = Some (last_n W (lt_weights db)).
Proof.
  intros Hh HW Hn. unfold get_long_term_block_weights, get_block_info_64bit_fields, last_n, lt_weights.
  unfold height in *. rewrite (proj2 (Z.leb_gt _ _)) by lia. f_equal.
  rewrite length_fmap, take_ge by (rewrite length_drop; lia). rewrite <- fmap_drop. f_equal. f_equal. lia.
Qed.

(** Recomputing the window *)
Lemma recompute_ok bc b n :
  cache_ok bc -> commits (m_db bc) -> last (m_db bc) = Some b -> 0 < height (m_db bc) ->
  n = Z.min (m_long_term_block_weights_window bc) (height (m_db bc)) ->
  exists v rm,
    (weights ← get_long_term_block_weights (m_db bc) (height (m_db bc) - n) n;
     rm ← clear (m_long_term_block_weights_cache_rolling_median bc);
     rm ← insert_all rm weights;
     v ← rm_median rm;
     Some (v, set_cache bc (bi_hash b) rm)) = Some (v, set_cache bc (bi_hash b) rm)
    /\ Some v = median_value (last_n (m_long_term_block_weights_window bc) (lt_weights (m_db bc)))
    /\ cache_ok (set_cache bc (bi_hash b) rm).
Proof.
  intros Hok Hc Hb Hh Hn. pose proof (co_N bc Hok) as HN.
  pose proof (wf_N _ (inv_wf _ (co_inv bc Hok))) as Hw.
  set (W := m_long_term_block_weights_window bc) in *.
  rewrite (window_read (m_db bc) W n) by (done || lia).
  destruct (refill_ok _ (last_n W (lt_weights (m_db bc))) (co_inv bc Hok)) as
    (rm1 & rm & E1 & E2 & Hi & HN' & Hq); [rewrite last_n_length; lia|].
  cbn [mbind option_bind]. rewrite E1. cbn [mbind option_bind]. rewrite E2. cbn [mbind option_bind].
  destruct (cache_answer bc b rm) as [Hm Hok']; [done|done|done|done|by rewrite HN'|done|].
  destruct (median_total (last_n W (lt_weights (m_db bc)))) as [v Hv]. fold W in Hm.
  rewrite Hm, Hv. exists v, rm. by cbn.
Qed.

(** Adding the weight of the tip to a window that ends one block before it *)
Lemma incremental_ok bc b b' :
  cache_ok bc -> commits (m_db bc) -> last (m_db bc) = Some b -> 2 <= height (m_db bc) ->
  block_info (m_db bc) (height (m_db bc) - 2) = Some b' ->
  bi_hash b' = m_long_term_block_weights_cache_tip_hash bc ->
  exists v rm,
    (rm ← insert (m_long_term_block_weights_cache_rolling_median bc) (bi_long_term_block_weight b);
     v ← rm_median rm;
     Some (v, set_cache bc (bi_hash b) rm)) = Some (v, set_cache bc (bi_hash b) rm)
    /\ Some v = median_value (last_n (m_long_term_block_weights_window bc) (lt_weights (m_db bc)))
    /\ cache_ok (set_cache bc (bi_hash b) rm).
Proof.
  intros Hok Hc Hb Hh Hb' Etip. pose proof (co_N bc Hok) as HN.
  pose proof (wf_N _ (inv_wf _ (co_inv bc Hok))) as Hw.
  destruct (previous_info _ b b' Hc Hb' Hh Hb) as [Hlt Hn'].
  destruct (step_refines _ (Insert (bi_long_term_block_weight b)) (co_inv bc Hok)) as (rm & E & Hi & HN' & Hq).
  cbn [step spec_step] in *. rewrite E. cbn [mbind option_bind].
  rewrite HN, (co_items bc Hok), last_n_push, <- Etip, <- Hlt in Hq by (lia || congruence).
  destruct (cache_answer bc b rm) as [Hm Hok']; [done|done|done|done|by rewrite HN'|done|].
  destruct (median_total (last_n (m_long_term_block_weights_window bc) (lt_weights (m_db bc)))) as [v Hv].
  rewrite Hm, Hv. exists v, rm. by cbn.
Qed.

(** The cached long-term median is the median. When the cache names a block by
    its hash, whatever reorganisation happened since, [get_long_term_block_weight_median]
    over the window ending at the tip returns the median of the long-term weights of
    the last blocks, by whichever of its three ways, and leaves the cache right. *)
Theorem long_term_median_correct (bc : Blockchain) :
  commits (m_db bc) -> cache_ok bc -> 0 < height (m_db bc) < 2 ^ 64 ->
  let n := Z.min (m_long_term_block_weights_window bc) (height (m_db bc)) in
  exists v rm tip,
    get_long_term_block_weight_median bc (height (m_db bc) - n) n = Some (v, set_cache bc tip rm)
    /\ Some v = median_value (last_n (m_long_term_block_weights_window bc) (lt_weights (m_db bc)))
    /\ cache_ok (set_cache bc tip rm).
Proof.
  intros Hc Hok Hh. cbv zeta.
  pose proof (co_N bc Hok) as HN. pose proof (wf_N _ (inv_wf _ (co_inv bc Hok))) as Hw.
  set (n := Z.min (m_long_term_block_weights_window bc) (height (m_db bc))).
  destruct (last (m_db bc)) as [b|] eqn:Hb;
    [|apply last_None in Hb; rewrite Hb in Hh; unfold height in Hh; cbn [length] in Hh; lia].
  destruct (tip_info bc (height (m_db bc) - n) n b) as (Et & Ei & Hh1); [done|lia|lia|].
  destruct (commits_tip (m_db bc) b Hc Hb) as [Hbn Hbw].
  assert (Eh : get_block_hash_from_height (m_db bc) (height (m_db bc) - 1) = Some (bi_hash b))
    by (unfold get_block_hash_from_height; by rewrite Ei).
  assert (Ew : get_block_long_term_weight (m_db bc) (height (m_db bc) - 1)
               = Some (bi_long_term_block_weight b))
    by (unfold get_block_long_term_weight; by rewrite Ei).
  unfold get_long_term_block_weight_median. cbv zeta. rewrite Et.
  rewrite (proj2 (Z.ltb_lt 0 n)), (proj2 (Z.ltb_lt (height (m_db bc) - 1) _)) by lia.
  cbn [negb]. rewrite Eh, Ew. cbn [mbind option_bind andb].
  destruct (recompute_ok bc b n) as (v & rm & Erec & Hv & Hok'); [done..|lia|done|].
  destruct ((n =? _) && (bi_hash b =? _)) eqn:Ecached.
  - apply andb_true_iff in Ecached as [_ Etip%Z.eqb_eq].
    destruct (cache_answer bc b (m_long_term_block_weights_cache_rolling_median bc)) as [Hm _];
      [done|done|done|apply Hok|done| |].
    { rewrite (co_items bc Hok) by congruence. by rewrite <- Etip, Hbw. }
    exists v, (m_long_term_block_weights_cache_rolling_median bc),
      (m_long_term_block_weights_cache_tip_hash bc).
    rewrite set_cache_id, Hm, <- Hv. done.
  - match goal with |- context [if ?c then Some <$> _ else _] => destruct c eqn:Econd end.
    2:{ cbn [mbind option_bind]. rewrite bool_decide_eq_false_2 by done. by exists v, rm, (bi_hash b). }
    assert (2 <= height (m_db bc)) as Hh2.
    { rewrite !andb_true_iff in Econd. destruct Econd as [[E _] _]. apply Z.ltb_lt in E. lia. }
    unfold get_block_hash_from_height at 1. replace (height (m_db bc) - 1 - 1) with (height (m_db bc) - 2) by lia.
    destruct (block_info (m_db bc) (height (m_db bc) - 2)) as [b'|] eqn:Eb'.
    2:{ unfold block_info, height in *. rewrite (proj2 (Z.leb_le _ _)) in Eb' by lia.
        apply lookup_ge_None in Eb'. lia. }
    cbn [fmap option_fmap option_map mbind option_bind].
    case_bool_decide as Eold; [|by exists v, rm, (bi_hash b)].
    injection Eold as Eold.
    destruct (incremental_ok bc b b') as (v2 & rm2 & E2 & ?); [done..|].
    by exists v2, rm2, (bi_hash b).
Qed.

(** ** The limits as a function of the chain *)

Definition short_weights (db : list mdb_block_info) : list Z :=
  last_n CRYPTONOTE_REWARD_BLOCKS_WINDOW (bi_weight <$> db).

(** The effective median and the long-term one that the rules ask for, of the chain
    [db] at version [v], with no cache; [lt] is kept before fork 10. *)
Definition ideal_limits (W : Z) (db : list mdb_block_info) (v lt : Z) : option (Z * Z) :=
  short ← median_value (short_weights db);
  long ← median_value (last_n W (lt_weights db));
  let L := Z.max CRYPTONOTE_BLOCK_GRANTED_FULL_REWARD_ZONE_V5 long in
  let surge := u64 (CRYPTONOTE_SHORT_TERM_BLOCK_WEIGHT_SURGE_FACTOR * L) in
  let med :=
    if v <? HF_VERSION_LONG_TERM_BLOCK_WEIGHT then short
    else if HF_VERSION_2021_SCALING <=? v then Z.min (Z.max L short) surge
    else Z.min (Z.max CRYPTONOTE_BLOCK_GRANTED_FULL_REWARD_ZONE_V5 short) surge in
  Some (Z.max med (get_min_block_weight v), if v <? HF_VERSION_LONG_TERM_BLOCK_WEIGHT then lt else L).

(** The members agree with the chain. *)
Definition limits_ok (bc : Blockchain) (lt : Z) : Prop :=
  ideal_limits (m_long_term_block_weights_window bc) (m_db bc) (get_current_hard_fork_version bc) lt
  = Some (m_current_block_cumul_weight_median bc, m_long_term_effective_median_block_weight bc)
  /\ m_current_block_cumul_weight_limit bc = u64 (m_current_block_cumul_weight_median bc * 2).

Lemma short_read db :
  0 < height db ->
  get_last_n_blocks_weights db [] CRYPTONOTE_REWARD_BLOCKS_WINDOW = Some (short_weights db).
Proof.
  intros Hh. unfold get_last_n_blocks_weights, get_block_weights, get_block_info_64bit_fields,
    short_weights, last_n, height in *. change CRYPTONOTE_REWARD_BLOCKS_WINDOW with 100.
  rewrite (proj2 (Z.eqb_neq _ _)), (proj2 (Z.leb_gt _ _)) by lia. f_equal.
  rewrite length_fmap, take_ge by (rewrite length_drop; lia). rewrite <- fmap_drop.
  f_equal. f_equal. lia.
Qed.

Lemma cache_ok_set_limits bc a b c : cache_ok (set_limits bc a b c) <-> cache_ok bc.
Proof. split; intros [? ? ?]; by constructor. Qed.

(** What an update leaves alone *)
Definition same_chain (bc bc' : Blockchain) : Prop :=
  m_db bc' = m_db bc /\ m_hardfork bc' = m_hardfork bc
  /\ m_long_term_block_weights_window bc' = m_long_term_block_weights_window bc.

Lemma update_limits_ok bc :
  commits (m_db bc) -> cache_ok bc -> 0 < height (m_db bc) < 2 ^ 64 ->
  exists bc', update_next_cumulative_weight_limit bc = Some bc' /\ cache_ok bc' /\ same_chain bc bc'
    /\ limits_ok bc' (m_long_term_effective_median_block_weight bc).
Proof.
  intros Hc Hok Hh. unfold update_next_cumulative_weight_limit. cbv zeta.
  rewrite (short_read (m_db bc)) by lia.
  destruct (median_total (short_weights (m_db bc))) as [S HS].
  destruct (long_term_median_correct bc Hc Hok Hh) as (L & rm & tip & EL & HL & Hok').
  assert (Hmax : forall a z : Z, (if a <=? z then z else a) = Z.max a z) by (intros; cases_cmp; lia).
  unfold limits_ok, ideal_limits, get_current_hard_fork_version.
  destruct (get_current_version (m_hardfork bc) <? HF_VERSION_LONG_TERM_BLOCK_WEIGHT) eqn:Ev.
  - cbn [mbind option_bind]. rewrite HS. cbn [mbind option_bind]. eexists. split; [done|].
    split; [by apply cache_ok_set_limits|]. split; [done|]. cbn [m_db m_hardfork set_limits
      m_current_block_cumul_weight_median m_current_block_cumul_weight_limit
      m_long_term_effective_median_block_weight m_long_term_block_weights_window].
    rewrite HS, <- HL, Ev, Hmax. cbn [mbind option_bind]. done.
  - rewrite EL. cbn [mbind option_bind]. change (m_db (set_cache bc tip rm)) with (m_db bc).
    rewrite (short_read (m_db bc)) by lia. cbn [mbind option_bind]. rewrite HS. cbn [mbind option_bind].
    eexists. split; [done|]. split; [by apply cache_ok_set_limits|]. split; [done|].
    cbn [m_db m_hardfork set_limits set_cache m_current_block_cumul_weight_median
      m_current_block_cumul_weight_limit m_long_term_effective_median_block_weight
      m_long_term_block_weights_window].
    rewrite HS, <- HL, Ev, Hmax. cbn [mbind option_bind]. done.
Qed.

(** The long-term weight of the next block, with no cache *)
Definition ideal_long_term_weight (W : Z) (db : list mdb_block_info) (v w : Z) : option Z :=
  if v <? HF_VERSION_LONG_TERM_BLOCK_WEIGHT then Some w
  else
    long ← median_value (last_n W (lt_weights db));
    let L := Z.max CRYPTONOTE_BLOCK_GRANTED_FULL_REWARD_ZONE_V5 long in
    Some (if HF_VERSION_2021_SCALING <=? v
          then Z.min (Z.max w (u64 (L * 10) / 17)) (u64 (L + u64 (L * 7) / 10))
          else Z.min w (u64 (L + u64 (L * 2) / 5))).

Lemma next_long_term_ok bc w :
  commits (m_db bc) -> cache_ok bc -> 0 < height (m_db bc) < 2 ^ 64 ->
  exists lt bc', get_next_long_term_block_weight bc w = Some (lt, bc') /\ cache_ok bc'
    /\ same_chain bc bc'
    /\ m_long_term_effective_median_block_weight bc' = m_long_term_effective_median_block_weight bc
    /\ ideal_long_term_weight (m_long_term_block_weights_window bc) (m_db bc)
         (get_current_hard_fork_version bc) w = Some lt.
Proof.
  intros Hc Hok Hh. unfold get_next_long_term_block_weight, ideal_long_term_weight. cbv zeta.
  destruct (get_current_hard_fork_version bc <? HF_VERSION_LONG_TERM_BLOCK_WEIGHT) eqn:Ev.
  { by exists w, bc. }
  destruct (long_term_median_correct bc Hc Hok Hh) as (L & rm & tip & EL & HL & Hok').
  rewrite EL, <- HL. cbn [mbind option_bind].
  destruct (HF_VERSION_2021_SCALING <=? get_current_hard_fork_version bc);
    (eexists _, (set_cache bc tip rm); done).
Qed.

(** A block with a new hash joins the chain, or blocks leave it. *)
Inductive weight_step : Blockchain -> Blockchain -> Prop :=
  | step_store bc b hf lt bc' :
      ideal_long_term_weight (m_long_term_block_weights_window bc) (m_db bc)
        (get_current_hard_fork_version bc) (bi_weight b) = Some lt ->
      commits (m_db bc ++ [with_long_term_weight b lt]) ->
      height (m_db bc) + 1 < 2 ^ 64 ->
      store_block bc b hf = Some bc' -> weight_step bc bc'
  | step_pop bc n hf bc' : pop_to bc n hf = Some bc' -> weight_step bc bc'.

Record weights_inv (bc : Blockchain) : Prop := {
  wi_commits : commits (m_db bc);
  wi_cache : cache_ok bc;
  wi_height : 0 < height (m_db bc) < 2 ^ 64;
  wi_limits : exists lt, limits_ok bc lt }.

Lemma commits_take db n : commits db -> commits (take n db).
Proof.
  intros Hc h b Hb. apply lookup_take_Some in Hb as [Hb Hn].
  destruct (Hc h b Hb) as [? ->]. split; [done|]. rewrite take_take. do 2 f_equal. lia.
Qed.

Lemma cache_ok_with_chain bc db hf : cache_ok (with_chain bc db hf) <-> cache_ok bc.
Proof. split; intros [? ? ?]; by constructor. Qed.

(** An update on a chain and a cache that are right *)
Lemma update_weights_inv bc db hf :
  commits db -> cache_ok bc -> 0 < height db < 2 ^ 64 ->
  exists bc', update_next_cumulative_weight_limit (with_chain bc db hf) = Some bc' /\ weights_inv bc'
    /\ m_db bc' = db /\ m_hardfork bc' = hf.
Proof.
  intros Hc Hok Hh.
  destruct (update_limits_ok (with_chain bc db hf)) as (bc' & E & Hok' & (Ed & Eh & EW) & Hl);
    [done|by apply cache_ok_with_chain|done|].
  exists bc'. split; [done|]. split; [|done]. constructor; [by rewrite Ed|done|by rewrite Ed|eauto].
Qed.

(** Storing never fails, and keeps everything right. *)
Lemma store_block_ok bc b hf lt :
  weights_inv bc ->
  ideal_long_term_weight (m_long_term_block_weights_window bc) (m_db bc)
    (get_current_hard_fork_version bc) (bi_weight b) = Some lt ->
  commits (m_db bc ++ [with_long_term_weight b lt]) -> height (m_db bc) + 1 < 2 ^ 64 ->
  exists bc', store_block bc b hf = Some bc' /\ weights_inv bc'
    /\ m_db bc' = m_db bc ++ [with_long_term_weight b lt].
Proof.
  intros [Hc Hok Hh _] Elt Hc' Hh'.
  destruct (next_long_term_ok bc (bi_weight b) Hc Hok Hh) as (lt' & bc1 & E & Hok1 & (Ed & _) & _ & Elt').
  rewrite Elt in Elt'. injection Elt' as <-.
  unfold store_block. rewrite E. cbn [mbind option_bind]. rewrite Ed.
  destruct (update_weights_inv bc1 (m_db bc ++ [with_long_term_weight b lt]) hf Hc' Hok1) as
    (bc' & E' & Hi & Ed' & _).
  - unfold height in *. rewrite length_app. cbn [length]. lia.
  - by exists bc'.
Qed.

Lemma pop_to_ok bc n hf :
  weights_inv bc -> n <> O ->
  exists bc', pop_to bc n hf = Some bc' /\ weights_inv bc' /\ m_db bc' = take n (m_db bc).
Proof.
  intros [Hc Hok Hh _] Hn. unfold pop_to. rewrite bool_decide_eq_false_2 by done.
  destruct (update_weights_inv bc (take n (m_db bc)) hf) as (bc' & E & Hi & Ed & _);
    [by apply commits_take|done| |by exists bc'].
  unfold height in *. rewrite length_take. lia.
Qed.

Lemma weight_step_inv bc bc' : weights_inv bc -> weight_step bc bc' -> weights_inv bc'.
Proof.
  intros Hi Hs. destruct Hs as [bc b hf lt bc' Elt Hc Hh E|bc n hf bc' E].
  - destruct (store_block_ok bc b hf lt Hi Elt Hc Hh) as (bc1 & E1 & Hi1 & _). congruence.
  - destruct (decide (n = O)) as [->|Hn]; [done|].
    destruct (pop_to_ok bc n hf Hi Hn) as (bc1 & E1 & Hi1 & _). congruence.
Qed.

(** C18: The weight limit is a function of the chain. Whatever blocks were stored and
    removed since the node started, and whatever its cache has seen, the median and
    the limit that bound the next block are those the rules compute from the blocks
    now in the database, so nodes on the same chain and fork version agree. *)
Theorem weight_limit_of_chain (bc0 bc : Blockchain) :
  weights_inv bc0 -> rtc weight_step bc0 bc ->
  exists lt,
    ideal_limits (m_long_term_block_weights_window bc) (m_db bc) (get_current_hard_fork_version bc) lt
    = Some (m_current_block_cumul_weight_median bc, m_long_term_effective_median_block_weight bc)
    /\ m_current_block_cumul_weight_limit bc = u64 (m_current_block_cumul_weight_median bc * 2).
Proof.
  intros Hi Hr. induction Hr as [bc|bc bc1 bc2 Hs _ IH].
  - apply (wi_limits bc Hi).
  - apply IH. by apply (weight_step_inv bc).
Qed.
End Cache.

(** ** Bounds *)

Lemma median_bounds l lo hi m :
  median_value l = Some m -> l <> [] -> 0 <= lo -> hi < 2 ^ 64 ->
  Forall (fun x => lo <= x <= hi) l -> lo <= m <= hi.
Proof.
  intros Hm Hne Hlo Hhi Hl. unfold median_value, median in Hm.
  destruct l as [|a [|b l]]; [done|cbn in Hm; inversion Hl; by simplify_eq|].
  assert (Hs : forall k x, merge_sort Z.le (a :: b :: l) !! k = Some x -> lo <= x <= hi).
  { intros k x Hx. rewrite Forall_forall in Hl. apply Hl.
    apply list_elem_of_lookup_2 in Hx. by rewrite merge_sort_Permutation in Hx. }
  case_bool_decide.
  - destruct (merge_sort _ _ !! _) as [x|] eqn:Ex; [|done]. cbn in Hm. simplify_eq. by eapply Hs.
  - destruct (merge_sort _ _ !! (_ - 1)%nat) as [x|] eqn:Ex; [|done].
    destruct (merge_sort _ _ !! (length _ / 2)%nat) as [y|] eqn:Ey; [|done]. cbn in Hm. simplify_eq.
    apply Hs in Ex, Ey. rewrite (proj1 (get_mid_spec x y ltac:(mach) ltac:(mach))).
    split; [apply Z.div_le_lower_bound|apply Z.div_le_upper_bound]; lia.
Qed.

(** Weights far above what any block reaches *)
Definition weights_small (db : list mdb_block_info) : Prop :=
  Forall (fun b => 0 <= bi_weight b < 2 ^ 56 /\ 0 <= bi_long_term_block_weight b < 2 ^ 56) db.

Lemma last_n_Forall (P : Z -> Prop) n l : Forall P l -> Forall P (last_n n l).
Proof. apply Forall_drop. Qed.

Lemma last_n_nonempty n l : 1 <= n -> l <> [] -> last_n n l <> [].
Proof.
  intros Hn Hl E. apply (f_equal (fun l => Z.of_nat (length l))) in E.
  rewrite last_n_length in E by lia. destruct l; [done|]. cbn in E. lia.
Qed.

Lemma windows_bounded W db s l :
  1 <= W -> db <> [] -> weights_small db ->
  median_value (short_weights db) = Some s -> median_value (last_n W (lt_weights db)) = Some l ->
  0 <= s < 2 ^ 56 /\ 0 <= l < 2 ^ 56.
Proof.
  intros HW Hdb Hsm Hs Hl.
  assert (forall a, 0 <= a <= 2 ^ 56 - 1 -> 0 <= a < 2 ^ 56) as Hle by lia.
  split; apply Hle; eapply median_bounds; try eassumption; try lia.
  - apply last_n_nonempty; [done|]. by destruct db.
  - apply last_n_Forall, Forall_fmap. eapply Forall_impl; [exact Hsm|]. cbn. lia.
  - apply last_n_nonempty; [done|]. by destruct db.
  - apply last_n_Forall, Forall_fmap. eapply Forall_impl; [exact Hsm|]. cbn. lia.
Qed.

(** From fork 15 on the free block weight is clamped: it lies between the
    long-term median (at least 300000) and fifty times it; the weight that enters the
    long-term window for a block of weight [w] lies between 10/17 and 17/10 of that
    median and is [w] itself when [w] does; and no 64-bit operation overflows. *)
Theorem weight_limits_clamped (W : Z) (db : list mdb_block_info) (v lt w : Z) :
  1 <= W -> db <> [] -> weights_small db -> 15 <= v -> 0 <= w < 2 ^ 56 ->
  exists L med next,
    ideal_limits W db v lt = Some (med, L) /\ ideal_long_term_weight W db v w = Some next
    /\ 300000 <= L /\ L <= med <= 50 * L /\ is_u64 (2 * med)
    /\ L * 10 / 17 <= next <= L + L * 7 / 10
    /\ (L * 10 / 17 <= w <= L + L * 7 / 10 -> next = w).
Proof.
  intros HW Hdb Hsm Hv Hw. unfold ideal_limits, ideal_long_term_weight.
  destruct (median_total (short_weights db)) as [s Hs].
  destruct (median_total (last_n W (lt_weights db))) as [l Hl].
  destruct (windows_bounded W db s l HW Hdb Hsm Hs Hl) as [Bs Bl].
  rewrite Hs, Hl. cbn [mbind option_bind].
  change HF_VERSION_LONG_TERM_BLOCK_WEIGHT with 10. change HF_VERSION_2021_SCALING with 15.
  change CRYPTONOTE_SHORT_TERM_BLOCK_WEIGHT_SURGE_FACTOR with 50.
  change CRYPTONOTE_BLOCK_GRANTED_FULL_REWARD_ZONE_V5 with 300000.
  rewrite (proj2 (Z.ltb_ge v 10)), (proj2 (Z.leb_le 15 v)) by lia.
  set (L := Z.max 300000 l). assert (300000 <= L < 2 ^ 56) as BL by lia.
  pose proof (min_block_weight_range v).
  pose proof (Z.div_mod (L * 10) 17 ltac:(lia)) as D1. pose proof (Z.mod_pos_bound (L * 10) 17 ltac:(lia)).
  pose proof (Z.div_mod (L * 7) 10 ltac:(lia)) as D2. pose proof (Z.mod_pos_bound (L * 7) 10 ltac:(lia)).
  rewrite (wrap_small 64 (50 * L)), (wrap_small 64 (L * 10)), (wrap_small 64 (L * 7)) by mach.
  rewrite (wrap_small 64 (L + _)) by mach.
  eexists L, _, _. split; [done|]. split; [done|]. clearbody L. repeat split; try mach.
Qed.

(** ** Witnesses *)

(** Three blocks, of which the last one belongs to another branch *)
Definition sample_block (hash w lt : Z) : mdb_block_info :=
  {| bi_height := 0; bi_timestamp := 0; bi_coins := 0; bi_weight := w; bi_diff_lo := 1;
     bi_diff_hi := 0; bi_hash := hash; bi_cum_rct := 0; bi_long_term_block_weight := lt |}.

Definition sample_weights_of (hash : Z) : list Z :=
  match hash with
  | 1 => [400000]
  | 2 => [400000; 500000]
  | 3 => [400000; 500000; 264705]
  | _ => []
  end.

Definition sample_db : list mdb_block_info := [sample_block 1 400000 400000; sample_block 2 500000 500000].

Definition sample_fork : hardfork := configured [Hardfork 16 1 0 1].

Definition sample_chain (rm : rolling_median_t) : Blockchain :=
  {| m_db := sample_db; m_hardfork := sample_fork;
     m_current_block_cumul_weight_limit := 0; m_current_block_cumul_weight_median := 0;
     m_long_term_block_weights_window := 2; m_long_term_effective_median_block_weight := 0;
     m_long_term_block_weights_cache_tip_hash := null_hash;
     m_long_term_block_weights_cache_rolling_median := rm |}.

Lemma sample_start :
  exists bc, weights_inv sample_weights_of bc /\ m_db bc = sample_db /\ m_hardfork bc = sample_fork
    /\ m_long_term_block_weights_window bc = 2.
Proof.
  destruct (make_ok 2 [0; 0] [0; 0] [0; 0]) as (rm & _ & Hi & HN & _); [by_decide|done..|].
  destruct (update_limits_ok sample_weights_of (sample_chain rm)) as (bc & _ & Hok & (Ed & Eh & EW) & Hl).
  - intros h b Hb. destruct h as [|[|h]]; cbn in Hb; simplify_eq; done.
  - by constructor.
  - by_decide.
  - change (m_db (sample_chain rm)) with sample_db in Ed. exists bc. split; [|done].
    constructor; [|done|rewrite Ed; by_decide|by eexists].
    rewrite Ed. intros h b Hb. destruct h as [|[|h]]; cbn in Hb; simplify_eq; done.
Qed.

Lemma weight_limit_of_chain_witness :
  exists bc0 bc, weights_inv sample_weights_of bc0 /\ rtc (weight_step sample_weights_of) bc0 bc
    /\ m_db bc = [sample_block 1 400000 400000]
    /\ exists lt,
        ideal_limits (m_long_term_block_weights_window bc) (m_db bc) (get_current_hard_fork_version bc) lt
        = Some (m_current_block_cumul_weight_median bc, m_long_term_effective_median_block_weight bc)
        /\ m_current_block_cumul_weight_limit bc = u64 (m_current_block_cumul_weight_median bc * 2).
Proof.
  destruct sample_start as (bc0 & Hi & Ed & Eh & EW).
  assert (Elt : ideal_long_term_weight (m_long_term_block_weights_window bc0) (m_db bc0)
            (get_current_hard_fork_version bc0) 100000 = Some 264705)
    by (unfold get_current_hard_fork_version; rewrite Ed, Eh, EW; vm_compute; reflexivity).
  assert (Hc : commits sample_weights_of (m_db bc0 ++ [with_long_term_weight (sample_block 3 100000 0) 264705])).
  { rewrite Ed. intros h b Hb. destruct h as [|[|[|h]]]; cbn in Hb; simplify_eq; done. }
  assert (Hh : height (m_db bc0) + 1 < 2 ^ 64) by (rewrite Ed; reflexivity).
  destruct (store_block_ok sample_weights_of bc0 (sample_block 3 100000 0) sample_fork 264705 Hi Elt Hc Hh)
    as (bc1 & E1 & Hi1 & Ed1).
  destruct (pop_to_ok sample_weights_of bc1 1 sample_fork Hi1 ltac:(discriminate)) as (bc2 & E2 & _ & Ed2).
  assert (Hr : rtc (weight_step sample_weights_of) bc0 bc2).
  { eapply rtc_l; [exact (step_store _ bc0 (sample_block 3 100000 0) sample_fork 264705 bc1 Elt Hc Hh E1)|].
    eapply rtc_l; [exact (step_pop _ bc1 1 sample_fork bc2 E2)|apply rtc_refl]. }
  exists bc0, bc2. split; [exact Hi|]. split; [exact Hr|].
  split; [rewrite Ed2, Ed1, Ed; reflexivity|].
  exact (weight_limit_of_chain sample_weights_of bc0 bc2 Hi Hr).
Defined.

Lemma weight_limits_clamped_witness :
  exists L med next,
    ideal_limits 2 sample_db 16 0 = Some (med, L)
    /\ ideal_long_term_weight 2 sample_db 16 100000 = Some next /\ L <= med <= 50 * L.
Proof.
  assert (Hs : weights_small sample_db) by (repeat constructor; vm_compute; discriminate).
  destruct (weight_limits_clamped 2 sample_db 16 0 100000) as (L & med & next & E1 & E2 & _ & H & _);
    [by_decide|discriminate|exact Hs|by_decide|by_decide|].
  exists L, med, next. split; [exact E1|]. split; [exact E2|exact H].
Defined.
