(* ===== verification/Fees.v ===== *)
(** * Transaction fees: the fee part of src/cryptonote_core/blockchain.cpp

    The node asks for a fee per byte that follows the block reward and the free block
    weight; wallets ask it for four estimates and pay a multiple of the quantization
    step. A failed assertion, a division by zero and a rounding error are [None]. *)

From S2P Require Import Prelude IntUtil Emission HardForks HardFork RollingMedian Weights Amount.

Definition CRYPTONOTE_DISPLAY_DECIMAL_POINT : Z := 12.
Definition PER_KB_FEE_QUANTIZATION_DECIMALS : Z := 8.
Definition CRYPTONOTE_SCALING_2021_FEE_ROUNDING_PLACES : nat := 2.
Definition DYNAMIC_FEE_REFERENCE_TRANSACTION_WEIGHT : Z := 3000.
Definition BLOCK_REWARD_OVERESTIMATE : Z := 10 * 1000000000000.

Definition ret_some {E A} (r : result E A) : option A :=
  match r with Ret a => Some a | Throw _ => None end.

(** [PowerOf<10, 12 - 8>] *)
Definition get_fee_quantization_mask : Z :=
  10 ^ (CRYPTONOTE_DISPLAY_DECIMAL_POINT - PER_KB_FEE_QUANTIZATION_DECIMALS).

Definition get_dynamic_base_fee (block_reward median_block_weight : Z) : option Z :=
  let min_block_weight := CRYPTONOTE_BLOCK_GRANTED_FULL_REWARD_ZONE_V5 in
  let median_block_weight :=
    if median_block_weight <? min_block_weight then min_block_weight else median_block_weight in
  let '(lo, hi) := mul128 block_reward DYNAMIC_FEE_REFERENCE_TRANSACTION_WEIGHT in
  q ← ret_some (div128_64 hi lo median_block_weight);
  let '(hi, lo) := q.1 in
  q ← ret_some (div128_64 hi lo median_block_weight);
  let '(hi, lo) := q.1 in
  if negb (hi =? 0) then None
  else
    let lo := u64 (lo - lo / 20) in
    Some (if lo =? 0 then 1 else lo).

Definition quantize (fee mask : Z) : Z := u64 (u64 (u64 (fee + mask) - 1) / mask * mask).

(** The coins generated up to the tip *)
Definition already_generated_coins (db : list mdb_block_info) : option Z :=
  let h := height db in
  if h =? 0 then Some 0 else bi_coins <$> block_info db (h - 1).

Definition check_fee (bc : Blockchain) (tx_weight fee : Z) : option bool :=
  let version := get_current_hard_fork_version bc in
  let median := m_current_block_cumul_weight_limit bc / 2 in
  coins ← already_generated_coins (m_db bc);
  reward ← ret_some (get_block_reward median 1 coins version);
  match reward with
  | None => Some false
  | Some base_reward =>
    fee_per_byte ← get_dynamic_base_fee base_reward
                     (Z.min median (m_long_term_effective_median_block_weight bc));
    let needed_fee := u64 (tx_weight * fee_per_byte) in
    let needed_fee := quantize needed_fee get_fee_quantization_mask in
    if fee <? u64 (needed_fee - needed_fee / 50) then Some false else Some true
  end.

(** The four estimates from the short- and the long-term median *)
Definition get_dynamic_base_fee_estimate_2021_scaling (base_reward Mnw Mlw : Z) : option (list Z) :=
  let ref := DYNAMIC_FEE_REFERENCE_TRANSACTION_WEIGHT in
  let zone := CRYPTONOTE_BLOCK_GRANTED_FULL_REWARD_ZONE_V5 in
  let div a b := if b =? 0 then None else Some (a / b) in
  let Mfw := Z.min Mnw Mlw in
  Fl ← div (u64 (base_reward * ref)) (u64 (Mfw * Mfw));
  Fn ← div (u64 (u64 (4 * base_reward) * ref)) (u64 (Mfw * Mfw));
  Fm ← div (u64 (u64 (16 * base_reward) * ref)) (u64 (zone * Mfw));
  Fh' ← div (u64 (u64 (4 * Fm) * Mfw)) (u64 (u64 (32 * ref) * Mnw) / zone);
  let Fh := Z.max (u64 (4 * Fm)) Fh' in
  let places := CRYPTONOTE_SCALING_2021_FEE_ROUNDING_PLACES in
  f0 ← ret_some (round_money_up Fl places);
  f1 ← ret_some (round_money_up Fn places);
  f2 ← ret_some (round_money_up Fm places);
  f3 ← ret_some (round_money_up Fh places);
  Some [f0; f1; f2; f3].

(** The estimates of a node: its rolling median is copied, [grace_blocks] zeros enter
    it and the window of the last weights. *)
Definition fee_estimate_2021_scaling (bc : Blockchain) (grace_blocks : Z) : option (list Z) :=
  let version := get_current_hard_fork_version bc in
  if negb (grace_blocks <=? CRYPTONOTE_REWARD_BLOCKS_WINDOW) then None
  else
    rm ← insert_all (m_long_term_block_weights_cache_rolling_median bc)
           (replicate (Z.to_nat grace_blocks) 0);
    long ← (if size rm =? 0 then Some 0 else rm_median rm);
    let Mlw := Z.max long CRYPTONOTE_BLOCK_GRANTED_FULL_REWARD_ZONE_V5 in
    weights ← get_last_n_blocks_weights (m_db bc) [] (u64 (100 - grace_blocks));
    short ← median_value (weights ++ replicate (Z.to_nat grace_blocks) 0);
    let Msw := Z.max short Mlw in
    let Mnw := Z.min Msw (u64 (50 * Mlw)) in
    coins ← already_generated_coins (m_db bc);
    reward ← ret_some (get_block_reward (m_current_block_cumul_weight_limit bc / 2) 1 coins version);
    get_dynamic_base_fee_estimate_2021_scaling (default BLOCK_REWARD_OVERESTIMATE reward) Mnw Mlw.

(** What a wallet pays for a transaction of a weight: wallet2.cpp *)
Definition calculate_fee_from_weight (base_fee weight fee_quantization_mask : Z) : Z :=
  quantize (u64 (weight * base_fee)) fee_quantization_mask.

Example fee_sample :
  get_dynamic_base_fee 600000000000 300000 = Some 19000
  /\ get_dynamic_base_fee_estimate_2021_scaling 600000000000 300000 300000
     = Some [20000; 80000; 320000; 4000000].
Proof. split; vm_compute; reflexivity. Qed.

(** ** The base fee *)

(** The base fee that the rules ask for *)
Definition ideal_base_fee (R M : Z) : Z :=
  let q := R * 3000 / (M * M) in Z.max 1 (q - q / 20).

Lemma base_fee_eq R m :
  is_u64 R -> is_u64 m -> get_dynamic_base_fee R m = Some (ideal_base_fee R (Z.max m 300000)).
Proof.
  intros HR Hm. unfold get_dynamic_base_fee, ideal_base_fee, DYNAMIC_FEE_REFERENCE_TRANSACTION_WEIGHT,
    CRYPTONOTE_BLOCK_GRANTED_FULL_REWARD_ZONE_V5.
  assert ((if m <? 300000 then 300000 else m) = Z.max m 300000) as -> by (cases_cmp; lia).
  set (M := Z.max m 300000). assert (300000 <= M < 2 ^ 64) as HM by (unfold M; mach). clearbody M.
  assert (is_u64 3000) as H3 by by_decide. pose proof (mul128_spec R 3000 HR H3) as Hmul.
  destruct (mul128 R 3000) as [lo hi]. destruct Hmul as (Hlo & Hhi & Emul).
  destruct (div128_64_spec hi lo M Hhi Hlo) as (h1 & l1 & -> & Hh1 & Hl1 & E1); [mach|lia|].
  cbn [ret_some mbind option_bind fst snd]. rewrite <- Emul in E1.
  destruct (div128_64_spec h1 l1 M Hh1 Hl1) as (h2 & l2 & -> & Hh2 & Hl2 & E2); [mach|lia|].
  cbn [ret_some mbind option_bind fst snd]. rewrite E1, Z.div_div in E2 by lia.
  assert (0 <= R * 3000 / (M * M) < 2 ^ 64) as Hq.
  { split; [apply Z.div_pos; unfold in_width in HR; nia|].
    apply Z.div_lt_upper_bound; unfold in_width in HR; nia. }
  assert (h2 = 0) as -> by mach. cbn [Z.eqb negb].
  rewrite Z.mul_0_l, Z.add_0_l in E2. rewrite <- E2 in *. clear E2.
  pose proof (Z.div_pos l2 20 ltac:(lia) ltac:(lia)). pose proof (Z.mul_div_le l2 20 ltac:(lia)).
  rewrite wrap_small by mach. f_equal. cases_cmp; lia.
Qed.

Lemma ideal_base_fee_antitone R M M' : 0 <= R -> 0 < M <= M' -> ideal_base_fee R M' <= ideal_base_fee R M.
Proof.
  intros HR HM. unfold ideal_base_fee.
  assert (R * 3000 / (M' * M') <= R * 3000 / (M * M)) as Hq by (apply Z.div_le_compat_l; nia).
  set (q := R * 3000 / (M * M)) in *. set (q' := R * 3000 / (M' * M')) in *. clearbody q q'.
  pose proof (Z.div_mod q 20 ltac:(lia)). pose proof (Z.mod_pos_bound q 20 ltac:(lia)).
  pose proof (Z.div_mod q' 20 ltac:(lia)). pose proof (Z.mod_pos_bound q' 20 ltac:(lia)). lia.
Qed.

(** ** Quantization *)

Lemma quantize_eq fee mask :
  0 <= fee -> 0 < mask -> fee + mask < 2 ^ 64 -> quantize fee mask = (fee + mask - 1) / mask * mask.
Proof.
  intros Hf Hm Hs. unfold quantize. rewrite (wrap_small 64 (fee + mask)) by mach.
  rewrite (wrap_small 64 (fee + mask - 1)) by mach. apply wrap_small.
  pose proof (Z.mul_div_le (fee + mask - 1) mask Hm). pose proof (Z.div_pos (fee + mask - 1) mask).
  unfold in_width. nia.
Qed.

Lemma quantize_mono fee fee' mask :
  0 <= fee <= fee' -> 0 < mask -> fee' + mask < 2 ^ 64 -> quantize fee mask <= quantize fee' mask.
Proof.
  intros Hf Hm Hs. rewrite !quantize_eq by lia. apply Z.mul_le_mono_nonneg_r; [lia|].
  apply Z.div_le_mono; lia.
Qed.

Lemma quantize_range fee mask :
  0 <= fee -> 0 < mask -> fee + mask < 2 ^ 64 -> fee <= quantize fee mask < fee + mask.
Proof.
  intros Hf Hm Hs. rewrite quantize_eq by lia.
  pose proof (Z.div_mod (fee + mask - 1) mask ltac:(lia)).
  pose proof (Z.mod_pos_bound (fee + mask - 1) mask Hm). lia.
Qed.

(** ** The check of the node *)

Lemma reward_of_one_byte m c v :
  get_block_reward m 1 c v = Ret (Some (base_reward c v)).
Proof.
  unfold get_block_reward. pose proof (min_block_weight_range v).
  match goal with |- context [1 <=? ?x] => assert (1 <= x) by (cases_cmp; lia) end.
  by rewrite (proj2 (Z.leb_le _ _)).
Qed.

(** The free weight [check_fee] uses *)
Definition fee_median (bc : Blockchain) : Z :=
  Z.min (m_current_block_cumul_weight_limit bc / 2) (m_long_term_effective_median_block_weight bc).

Lemma check_fee_eq bc w fee c :
  already_generated_coins (m_db bc) = Some c -> is_u64 c -> is_u64 (fee_median bc) ->
  let needed := quantize (u64 (w * ideal_base_fee (base_reward c (get_current_hard_fork_version bc))
                                     (Z.max (fee_median bc) 300000))) 10000 in
  check_fee bc w fee = Some (negb (fee <? u64 (needed - needed / 50))).
Proof.
  intros Ec Hc Hm. cbv zeta. unfold check_fee. rewrite Ec. cbn [mbind option_bind].
  rewrite reward_of_one_byte. cbn [ret_some mbind option_bind].
  pose proof (base_reward_range c (get_current_hard_fork_version bc) Hc).
  fold (fee_median bc). rewrite base_fee_eq by (done || mach). cbn [mbind option_bind].
  change get_fee_quantization_mask with 10000. by case_match.
Qed.

(** A transaction passes the node's fee check exactly when its fee is at least 98
    percent of what the rules ask: its weight times the base fee, rounded up to
    a multiple of the quantization step. The base fee is the 128-bit quotient computed
    exactly, reduced by a twentieth and never 0. *)
Theorem check_fee_spec (bc : Blockchain) (w fee c : Z) :
  already_generated_coins (m_db bc) = Some c -> is_u64 c -> is_u64 (fee_median bc) -> 0 <= w ->
  let R := base_reward c (get_current_hard_fork_version bc) in
  let asked := w * ideal_base_fee R (Z.max (fee_median bc) 300000) in
  asked + 10000 < 2 ^ 64 ->
  let needed := (asked + 9999) / 10000 * 10000 in
  check_fee bc w fee = Some true <-> needed - needed / 50 <= fee.
Proof.
  intros Ec Hc Hm Hw. cbv zeta. intros Ha.
  rewrite (check_fee_eq bc w fee c Ec Hc Hm). cbv zeta.
  set (asked := w * _) in *.
  assert (0 <= asked) as H0 by (unfold asked, ideal_base_fee; nia).
  rewrite (wrap_small 64 asked) by mach. rewrite quantize_eq by lia.
  replace (asked + 10000 - 1) with (asked + 9999) by lia.
  pose proof (quantize_range asked 10000 H0 ltac:(lia) Ha) as Hr. rewrite quantize_eq in Hr by lia.
  replace (asked + 10000 - 1) with (asked + 9999) in Hr by lia.
  set (needed := (asked + 9999) / 10000 * 10000) in *. clearbody needed.
  pose proof (Z.div_pos needed 50 ltac:(lia) ltac:(lia)). pose proof (Z.mul_div_le needed 50 ltac:(lia)).
  rewrite wrap_small by mach. destruct (Z.ltb_spec fee (needed - needed / 50)); cbn [negb]; split; intros;
    (done || congruence || lia).
Qed.

(** ** The estimates *)

(** The four estimates exist, none is below the quotient the base fee starts from,
    and they do not decrease. *)
Lemma estimates_ok R Mnw Mlw :
  0 <= R < 2 ^ 45 -> 300000 <= Mnw < 2 ^ 31 -> 300000 <= Mlw < 2 ^ 31 ->
  exists f0 f1 f2 f3,
    get_dynamic_base_fee_estimate_2021_scaling R Mnw Mlw = Some [f0; f1; f2; f3]
    /\ let q := R * 3000 / (Z.min Mnw Mlw * Z.min Mnw Mlw) in
       q <= f0 /\ q <= f1 /\ q <= f2 /\ q <= f3 /\ f3 < 2 ^ 63.
Proof.
  intros HR Hn Hl. unfold get_dynamic_base_fee_estimate_2021_scaling,
    DYNAMIC_FEE_REFERENCE_TRANSACTION_WEIGHT, CRYPTONOTE_BLOCK_GRANTED_FULL_REWARD_ZONE_V5.
  cbv zeta. set (M := Z.min Mnw Mlw). assert (300000 <= M < 2 ^ 31) as HM by (unfold M; lia).
  assert (M <= Mnw) as HMn by (unfold M; lia). clearbody M.
  assert (0 < M * M < 2 ^ 62) as HMM by nia.
  rewrite (wrap_small 64 (R * 3000)), (wrap_small 64 (M * M)), (wrap_small 64 (4 * R)) by mach.
  rewrite (wrap_small 64 (4 * R * 3000)), (wrap_small 64 (16 * R)), (wrap_small 64 (300000 * M)) by mach.
  rewrite (wrap_small 64 (16 * R * 3000)), (wrap_small 64 (32 * 3000)) by mach.
  rewrite (wrap_small 64 (32 * 3000 * Mnw)) by mach.
  set (d := 32 * 3000 * Mnw / 300000).
  assert (96000 <= d) as Hd by (apply Z.div_le_lower_bound; lia). clearbody d.
  rewrite !(proj2 (Z.eqb_neq _ 0)) by lia. cbn [mbind option_bind].
  set (q := R * 3000 / (M * M)). set (Fn := 4 * R * 3000 / (M * M)).
  set (Fm := 16 * R * 3000 / (300000 * M)).
  assert (0 <= q) as H0 by (apply Z.div_pos; lia).
  assert (q <= Fn) as H1 by (apply Z.div_le_mono; lia).
  assert (q <= Fm) as H2.
  { transitivity (16 * R * 3000 / (M * M)); [apply Z.div_le_mono; lia|].
    apply Z.div_le_compat_l; nia. }
  assert (Fn < 2 ^ 23) as B1 by (apply Z.div_lt_upper_bound; nia).
  assert (Fm < 2 ^ 25) as B2 by (apply Z.div_lt_upper_bound; nia). clearbody q Fn Fm.
  rewrite (wrap_small 64 (4 * Fm)) by mach. rewrite (wrap_small 64 (4 * Fm * M)) by (unfold in_width; nia).
  set (Fh' := 4 * Fm * M / d).
  assert (0 <= Fh' < 2 ^ 61) as B3.
  { split; [apply Z.div_pos; nia|]. apply Z.div_lt_upper_bound; nia. }
  clearbody Fh'. set (Fh := Z.max (4 * Fm) Fh'). assert (Fm <= Fh < 2 ^ 61) as H3 by (unfold Fh; lia).
  clearbody Fh.
  assert (Hround : forall a, 0 <= a < 2 ^ 61 -> exists r,
            ret_some (round_money_up a CRYPTONOTE_SCALING_2021_FEE_ROUNDING_PLACES) = Some r /\ a <= r <= 2 * a).
  { intros a Ha. destruct (round_money_up_some a CRYPTONOTE_SCALING_2021_FEE_ROUNDING_PLACES)
      as (r & -> & Hr); [lia|unfold CRYPTONOTE_SCALING_2021_FEE_ROUNDING_PLACES; lia|]. by exists r. }
  destruct (Hround q) as (f0 & -> & G0); [lia|]. destruct (Hround Fn) as (f1 & -> & G1); [lia|].
  destruct (Hround Fm) as (f2 & -> & G2); [lia|]. destruct (Hround Fh) as (f3 & -> & G3); [lia|].
  cbn [mbind option_bind]. exists f0, f1, f2, f3. split; [done|]. lia.
Qed.

(** What the wallet pays is what the node takes. A wallet that multiplies any of
    the node's four estimates by the weight of its transaction and rounds up to the
    quantization step passes the check of a node whose free weight is not smaller
    than the one the estimates were made for, with the block reward unchanged and not
    so small that a byte costs less than one atomic unit. *)
Theorem estimated_fee_accepted (bc : Blockchain) (w c Mnw Mlw : Z) :
  already_generated_coins (m_db bc) = Some c -> is_u64 c -> is_u64 (fee_median bc) -> 0 <= w ->
  300000 <= Mnw < 2 ^ 31 -> 300000 <= Mlw < 2 ^ 31 -> Z.min Mnw Mlw <= fee_median bc ->
  let R := base_reward c (get_current_hard_fork_version bc) in
  Z.min Mnw Mlw * Z.min Mnw Mlw <= R * 3000 ->
  exists fees, get_dynamic_base_fee_estimate_2021_scaling R Mnw Mlw = Some fees
    /\ length fees = 4%nat
    /\ forall f, f ∈ fees -> w * f + 10000 < 2 ^ 64 ->
        check_fee bc w (calculate_fee_from_weight f w get_fee_quantization_mask) = Some true.
Proof.
  intros Ec Hc Hm Hw Hn Hl Hmed. cbv zeta. intros HR.
  set (R := base_reward c (get_current_hard_fork_version bc)) in *.
  pose proof (base_reward_range c (get_current_hard_fork_version bc) Hc) as BR. fold R in BR.
  destruct (estimates_ok R Mnw Mlw) as (f0 & f1 & f2 & f3 & E & Hq); [lia|done|done|].
  exists [f0; f1; f2; f3]. split; [done|]. split; [done|]. intros f' Hf Hwf. cbv zeta in Hq.
  rewrite (check_fee_eq bc w _ c Ec Hc Hm). cbv zeta. fold R. f_equal.
  set (M := Z.min Mnw Mlw) in *. set (q := R * 3000 / (M * M)) in *.
  assert (1 <= q) as Hq1 by (apply Z.div_le_lower_bound; nia).
  assert (q <= f') as Hqf by (rewrite !elem_of_cons, elem_of_nil in Hf; destruct Hf as [->|[->|[->|[->|[]]]]]; lia).
  assert (1 <= ideal_base_fee R (Z.max (fee_median bc) 300000) <= f') as Hb.
  { split; [unfold ideal_base_fee; lia|].
    transitivity (ideal_base_fee R M); [apply ideal_base_fee_antitone; lia|].
    unfold ideal_base_fee. fold q. pose proof (Z.div_pos q 20). lia. }
  set (b := ideal_base_fee R (Z.max (fee_median bc) 300000)) in *. clearbody b.
  unfold calculate_fee_from_weight. change get_fee_quantization_mask with 10000.
  assert (0 <= w * b <= w * f') as Hwb by nia.
  rewrite (wrap_small 64 (w * b)), (wrap_small 64 (w * f')) by mach.
  pose proof (quantize_mono (w * b) (w * f') 10000) as Hmono.
  pose proof (quantize_range (w * b) 10000) as Hr. set (needed := quantize (w * b) 10000) in *.
  pose proof (Z.div_pos needed 50 ltac:(lia) ltac:(lia)). pose proof (Z.mul_div_le needed 50 ltac:(lia)).
  rewrite wrap_small by mach. apply negb_true_iff, Z.ltb_ge. lia.
Qed.

(** ** The estimate for a hundred blocks ahead *)

(** Estimates for up to 99 future blocks read a non-empty window of weights, but the
    largest value the function lets pass, 100, asks the database for the blocks after
    the tip: it always fails. *)
Theorem fee_estimate_100_fails (bc : Blockchain) :
  0 < height (m_db bc) -> fee_estimate_2021_scaling bc 100 = None.
Proof.
  intros Hh. unfold fee_estimate_2021_scaling. cbn [Z.leb negb Z.compare].
  change (negb (100 <=? CRYPTONOTE_REWARD_BLOCKS_WINDOW)) with false. cbv iota.
  assert (get_last_n_blocks_weights (m_db bc) [] (u64 (100 - 100)) = None) as ->.
  { unfold get_last_n_blocks_weights, get_block_weights, get_block_info_64bit_fields.
    change (u64 (100 - 100)) with 0. rewrite (proj2 (Z.eqb_neq _ _)) by lia.
    rewrite (proj2 (Z.leb_le _ _)) by lia. done. }
  destruct (insert_all _ _) as [rm|]; cbn [mbind option_bind]; [|done].
  destruct (if size rm =? 0 then _ else _); done.
Qed.

(** ** Witnesses *)

(** A chain of one block with half of the coins out, at version 16 *)
Definition sample_node (rm : rolling_median_t) : Blockchain :=
  {| m_db := [{| bi_height := 0; bi_timestamp := 0; bi_coins := 2 ^ 63; bi_weight := 1000;
                 bi_diff_lo := 1; bi_diff_hi := 0; bi_hash := 1; bi_cum_rct := 0;
                 bi_long_term_block_weight := 176470 |}];
     m_hardfork := sample_fork;
     m_current_block_cumul_weight_limit := 600000; m_current_block_cumul_weight_median := 300000;
     m_long_term_block_weights_window := 2; m_long_term_effective_median_block_weight := 300000;
     m_long_term_block_weights_cache_tip_hash := 1;
     m_long_term_block_weights_cache_rolling_median := rm |}.

Definition no_cache : rolling_median_t :=
  {| data := [0]; pos := [0]; heap := [0]; N := 1; idx := 0; minCt := 0; maxCt := 0; sz := 0 |}.

Lemma check_fee_spec_witness :
  check_fee (sample_node no_cache) 2000 1092300000 = Some true
  /\ check_fee (sample_node no_cache) 2000 1 <> Some true.
Proof.
  pose proof (fun fee => check_fee_spec (sample_node no_cache) 2000 fee (2 ^ 63) eq_refl
    ltac:(by_decide) ltac:(by_decide) ltac:(lia) ltac:(vm_compute; reflexivity)) as H.
  split; [apply H; vm_compute; discriminate|]. intros E. apply H in E. revert E. vm_compute.
  intros E. by destruct E.
Defined.

Lemma estimated_fee_accepted_witness :
  exists fees, get_dynamic_base_fee_estimate_2021_scaling 17592186044416 300000 300000 = Some fees
    /\ length fees = 4%nat
    /\ forall f, f ∈ fees -> 2000 * f + 10000 < 2 ^ 64 ->
        check_fee (sample_node no_cache) 2000 (calculate_fee_from_weight f 2000 get_fee_quantization_mask)
        = Some true.
Proof.
  exact (estimated_fee_accepted (sample_node no_cache) 2000 (2 ^ 63) 300000 300000 eq_refl
    ltac:(by_decide) ltac:(by_decide) ltac:(lia) ltac:(by_decide) ltac:(by_decide) ltac:(by_decide)
    ltac:(by_decide)).
Defined.

Lemma fee_estimate_100_fails_witness : fee_estimate_2021_scaling (sample_node no_cache) 100 = None.
Proof. exact (fee_estimate_100_fails (sample_node no_cache) eq_refl). Defined.
