(* ===== verification/BlockChecks.v ===== *)
(** * Checks of blocks and transactions: parts of src/cryptonote_core/blockchain.cpp
    and src/cryptonote_basic/cryptonote_format_utils.cpp

    The miner transaction and the coins it creates, timestamps, unlock times and the
    rules on outputs per fork version. A read of a block that is not in the database
    and a failed assertion that throws are [None]. The clock and the hash of a
    transaction are arguments. *)

From stdpp Require Import sorting.
From S2P Require Import Prelude IntUtil SortedLists Difficulty Emission HardForks HardFork RollingMedian Weights.

Definition CRYPTONOTE_MAX_BLOCK_NUMBER : Z := 500000000.
Definition CRYPTONOTE_MINED_MONEY_UNLOCK_WINDOW : Z := 60.
Definition CRYPTONOTE_BLOCK_FUTURE_TIME_LIMIT : Z := 60 * 60 * 2.
Definition BLOCKCHAIN_TIMESTAMP_CHECK_WINDOW : Z := 60.
Definition CRYPTONOTE_LOCKED_TX_ALLOWED_DELTA_BLOCKS : Z := 1.
Definition CRYPTONOTE_LOCKED_TX_ALLOWED_DELTA_SECONDS_V1 : Z :=
  DIFFICULTY_TARGET_V1 * CRYPTONOTE_LOCKED_TX_ALLOWED_DELTA_BLOCKS.
Definition CRYPTONOTE_LOCKED_TX_ALLOWED_DELTA_SECONDS_V2 : Z :=
  DIFFICULTY_TARGET_V2 * CRYPTONOTE_LOCKED_TX_ALLOWED_DELTA_BLOCKS.
Definition HF_VERSION_SMALLER_BP : Z := 10.
Definition HF_VERSION_MIN_V2_COINBASE_TX : Z := 12.
Definition HF_VERSION_REJECT_SIGS_IN_COINBASE : Z := 12.
Definition HF_VERSION_EFFECTIVE_SHORT_TERM_MEDIAN_IN_PENALTY : Z := 12.
Definition HF_VERSION_EXACT_COINBASE : Z := 13.
Definition HF_VERSION_CLSAG : Z := 13.
Definition HF_VERSION_DETERMINISTIC_UNLOCK_TIME : Z := 13.
Definition HF_VERSION_BULLETPROOF_PLUS : Z := 15.
Definition HF_VERSION_VIEW_TAGS : Z := 15.

(** ** Transactions: cryptonote_basic.h and ringct/rctTypes.h *)

(** The alternatives of [txin_v] and [txout_target_v] with the fields the checks read *)
Inductive txin_v :=
  | txin_gen (height : Z)
  | txin_to_script
  | txin_to_scripthash
  | txin_to_key (amount : Z) (key_offsets : list Z) (k_image : Z).

Inductive txout_target_v := txout_to_script | txout_to_scripthash | txout_to_key | txout_to_tagged_key.

#[global] Instance txout_target_eq_dec : EqDecision txout_target_v.
Proof. solve_decision. Defined.

Record tx_out := { amount : Z; target : txout_target_v }.

Definition RCTTypeNull : Z := 0.
Definition RCTTypeFull : Z := 1.
Definition RCTTypeSimple : Z := 2.
Definition RCTTypeBulletproof : Z := 3.
Definition RCTTypeBulletproof2 : Z := 4.
Definition RCTTypeCLSAG : Z := 5.
Definition RCTTypeBulletproofPlus : Z := 6.

Record transaction := {
  version : Z;
  unlock_time : Z;
  vin : list txin_v;
  vout : list tx_out;
  rct_type : Z;
  bulletproofs : list (list Z);
  bulletproofs_plus : list (list Z) }.

Definition is_rct_bulletproof (type : Z) : bool :=
  (type =? RCTTypeBulletproof) || (type =? RCTTypeBulletproof2) || (type =? RCTTypeCLSAG).
Definition is_rct_bulletproof_plus (type : Z) : bool := type =? RCTTypeBulletproofPlus.
Definition is_rct_borromean (type : Z) : bool := (type =? RCTTypeSimple) || (type =? RCTTypeFull).

(** ** Amounts: cryptonote_format_utils.cpp *)

Fixpoint check_outs_overflow_loop (money : Z) (outs : list tx_out) : bool :=
  match outs with
  | [] => true
  | o :: outs =>
    if u64 (amount o + money) <? money then false
    else check_outs_overflow_loop (u64 (money + amount o)) outs
  end.
Definition check_outs_overflow (tx : transaction) : bool := check_outs_overflow_loop 0 (vout tx).

Fixpoint check_inputs_overflow_loop (money : Z) (ins : list txin_v) : bool :=
  match ins with
  | [] => true
  | txin_to_key a _ _ :: ins =>
    if u64 (a + money) <? money then false else check_inputs_overflow_loop (u64 (money + a)) ins
  | _ :: _ => false
  end.
Definition check_inputs_overflow (tx : transaction) : bool := check_inputs_overflow_loop 0 (vin tx).

Definition check_money_overflow (tx : transaction) : bool :=
  check_inputs_overflow tx && check_outs_overflow tx.

Definition get_outs_money_amount (tx : transaction) : Z :=
  fold_left (fun acc o => u64 (acc + amount o)) (vout tx) 0.

(** The loop of [is_valid_decomposed_amount]; a nonzero amount has at most 20 digits. *)
Fixpoint strip_zeros (fuel : nat) (amount : Z) : option Z :=
  match fuel with
  | O => None
  | S fuel => if amount mod 10 =? 0 then strip_zeros fuel (amount / 10) else Some amount
  end.

Definition is_valid_decomposed_amount (amount : Z) : option bool :=
  if amount =? 0 then Some false
  else a ← strip_zeros 21 amount; Some (a <? 10).

Definition check_output_types (tx : transaction) (hf_version : Z) : bool :=
  forallb (fun o =>
    if HF_VERSION_VIEW_TAGS <? hf_version then bool_decide (target o = txout_to_tagged_key)
    else if hf_version <? HF_VERSION_VIEW_TAGS then bool_decide (target o = txout_to_key)
    else
      (bool_decide (target o = txout_to_key) || bool_decide (target o = txout_to_tagged_key))
      && bool_decide (Some (target o) = target <$> head (vout tx))) (vout tx).

(** ** The miner transaction *)

Definition prevalidate_miner_transaction (miner_tx : transaction) (height hf_version : Z) : bool :=
  match vin miner_tx with
  | [txin_gen h] =>
    if negb ((1 <? version miner_tx) || (hf_version <? HF_VERSION_MIN_V2_COINBASE_TX)) then false
    else if (HF_VERSION_REJECT_SIGS_IN_COINBASE <=? hf_version) && (2 <=? version miner_tx)
            && negb (rct_type miner_tx =? RCTTypeNull) then false
    else if negb (h =? height) then false
    else if negb (unlock_time miner_tx =? u64 (height + CRYPTONOTE_MINED_MONEY_UNLOCK_WINDOW)) then false
    else if negb (check_outs_overflow miner_tx) then false
    else check_output_types miner_tx hf_version
  | _ => false
  end.

(** All amounts are decomposed, in order, up to the first that is not. *)
Fixpoint all_decomposed (outs : list tx_out) : option bool :=
  match outs with
  | [] => Some true
  | o :: outs =>
    b ← is_valid_decomposed_amount (amount o);
    if (b : bool) then all_decomposed outs else Some false
  end.

(** The median the reward is penalised against *)
Definition penalty_median (bc : Blockchain) (v : Z) : option Z :=
  if HF_VERSION_EFFECTIVE_SHORT_TERM_MEDIAN_IN_PENALTY <=? v
  then Some (m_current_block_cumul_weight_median bc)
  else
    ws ← get_last_n_blocks_weights (m_db bc) [] CRYPTONOTE_REWARD_BLOCKS_WINDOW;
    median_value ws.

(** The result, the reward it leaves in [base_reward] and [partial_block_reward] *)
Definition validate_miner_transaction (bc : Blockchain) (miner_tx : transaction)
    (cumulative_block_weight fee base_reward already_generated_coins v : Z)
  : option (bool * Z * bool) :=
  let money_in_use := get_outs_money_amount miner_tx in
  decomposed ← (if v =? 3 then all_decomposed (vout miner_tx) else Some true);
  if negb decomposed then Some (false, base_reward, false)
  else
    median_weight ← penalty_median bc v;
    match get_block_reward median_weight cumulative_block_weight already_generated_coins v with
    | Throw _ => None
    | Ret None => Some (false, base_reward, false)
    | Ret (Some base_reward) =>
      if u64 (base_reward + fee) <? money_in_use then Some (false, base_reward, false)
      else if (v <? 2) || (HF_VERSION_EXACT_COINBASE <=? v) then
        Some (u64 (base_reward + fee) =? money_in_use, base_reward, false)
      else if negb (u64 (money_in_use - fee) <=? base_reward) then Some (false, base_reward, false)
      else
        Some (true, u64 (money_in_use - fee), negb (u64 (base_reward + fee) =? money_in_use))
    end.

(** The coins recorded with the new block *)
Definition next_generated_coins (already_generated_coins base_reward : Z) : Z :=
  if base_reward <? MONEY_SUPPLY - already_generated_coins
  then already_generated_coins + base_reward else MONEY_SUPPLY.

(** ** Timestamps *)

Definition get_block_timestamp (db : list mdb_block_info) (h : Z) : option Z :=
  bi_timestamp <$> block_info db h.

(** The timestamps at the heights from [offset] to [height - 1] *)
Definition timestamps_from (db : list mdb_block_info) (offset height : Z) : option (list Z) :=
  mapM (get_block_timestamp db) (seqZ offset (height - offset)).

(** The test against a window, and the median it stores *)
Definition check_block_timestamp_window (timestamps : list Z) (timestamp : Z) : option (bool * Z) :=
  median_ts ← median_value timestamps;
  Some (negb (timestamp <? median_ts), median_ts).

Definition check_block_timestamp (db : list mdb_block_info) (now timestamp : Z) : option bool :=
  if u64 (now + CRYPTONOTE_BLOCK_FUTURE_TIME_LIMIT) <? timestamp then Some false
  else
    let h := height db in
    if h <? BLOCKCHAIN_TIMESTAMP_CHECK_WINDOW then Some true
    else
      ts ← timestamps_from db (h - BLOCKCHAIN_TIMESTAMP_CHECK_WINDOW) h;
      fst <$> check_block_timestamp_window ts timestamp.

Definition get_adjusted_time (db : list mdb_block_info) (now height : Z) : option Z :=
  if height <? BLOCKCHAIN_TIMESTAMP_CHECK_WINDOW then Some now
  else
    ts ← timestamps_from db (height - BLOCKCHAIN_TIMESTAMP_CHECK_WINDOW) height;
    median_ts ← median_value ts;
    back ← last ts;
    let median_ts := u64 (median_ts + (BLOCKCHAIN_TIMESTAMP_CHECK_WINDOW + 1) * DIFFICULTY_TARGET_V2 / 2) in
    let adjusted_current_block_ts := u64 (back + DIFFICULTY_TARGET_V2) in
    Some (if adjusted_current_block_ts <? median_ts then adjusted_current_block_ts else median_ts).

Definition is_tx_spendtime_unlocked (bc : Blockchain) (now unlock_time hf_version : Z) : option bool :=
  if unlock_time <? CRYPTONOTE_MAX_BLOCK_NUMBER then
    Some (unlock_time <=? u64 (u64 (height (m_db bc) - 1) + CRYPTONOTE_LOCKED_TX_ALLOWED_DELTA_BLOCKS))
  else
    current_time ← (if HF_VERSION_DETERMINISTIC_UNLOCK_TIME <=? hf_version
                    then get_adjusted_time (m_db bc) now (height (m_db bc)) else Some now);
    Some (unlock_time <=? u64 (current_time +
      (if get_current_hard_fork_version bc <? 2 then CRYPTONOTE_LOCKED_TX_ALLOWED_DELTA_SECONDS_V1
       else CRYPTONOTE_LOCKED_TX_ALLOWED_DELTA_SECONDS_V2))).

(** The timestamps of the main chain below a fork: the loop runs [n] times, from
    [start_top_height] down. *)
Fixpoint complete_loop (db : list mdb_block_info) (n : nat) (start_top_height : Z) (timestamps : list Z)
  : option (list Z) :=
  match n with
  | O => Some timestamps
  | S n =>
    t ← get_block_timestamp db start_top_height;
    complete_loop db n (start_top_height - 1) (timestamps ++ [t])
  end.

Definition complete_timestamps_vector (db : list mdb_block_info) (start_top_height : Z)
    (timestamps : list Z) : option (bool * list Z) :=
  if BLOCKCHAIN_TIMESTAMP_CHECK_WINDOW <=? Z.of_nat (length timestamps) then Some (true, timestamps)
  else
    let need_elements := BLOCKCHAIN_TIMESTAMP_CHECK_WINDOW - Z.of_nat (length timestamps) in
    if negb (start_top_height <? height db) then Some (false, timestamps)
    else
      let stop_offset :=
        if need_elements <? start_top_height then start_top_height - need_elements else 0 in
      ts ← complete_loop db (Z.to_nat (start_top_height - stop_offset)) start_top_height timestamps;
      Some (true, ts).

(** ** The outputs of a transaction *)

(** The hashes let through, as the numbers their texts spell *)
Definition grandfathered : list Z :=
  [0xc5151944f0583097ba0c88cd0f43e7fabb3881278aa2f73b3b0a007c5d34e910;
   0x6f2f117cde6fbcf8d4a6ef8974fcac744726574ac38cf25d3322c996b21edd4c].

(** The checks in their order; [None] for a loop that did not end *)
Definition check_tx_outputs (get_transaction_hash : transaction -> Z) (tx : transaction) (hf_version : Z)
  : option bool :=
  let v2 := 2 <=? version tx in
  let type := rct_type tx in
  decomposed ← (if (2 <=? hf_version) && (version tx =? 1) then all_decomposed (vout tx) else Some true);
  Some
    (if negb decomposed then false
     else if (3 <=? hf_version) && v2 && negb (forallb (fun o => amount o =? 0) (vout tx)) then false
     else if (hf_version <? 8) && v2
             && (is_rct_bulletproof type || negb (bool_decide (bulletproofs tx = []))) then false
     else if (8 <? hf_version) && v2 && is_rct_borromean type then false
     else if (hf_version <? HF_VERSION_SMALLER_BP) && v2 && (type =? RCTTypeBulletproof2) then false
     else if (HF_VERSION_SMALLER_BP <? hf_version) && v2 && (type =? RCTTypeBulletproof) then false
     else if (hf_version <? HF_VERSION_CLSAG) && v2 && (type =? RCTTypeCLSAG) then false
     else if (HF_VERSION_CLSAG <? hf_version) && v2 && (type <=? RCTTypeBulletproof2)
             && negb (bool_decide (get_transaction_hash tx ∈ grandfathered)) then false
     else if (hf_version <? HF_VERSION_BULLETPROOF_PLUS) && v2
             && (is_rct_bulletproof_plus type || negb (bool_decide (bulletproofs_plus tx = []))) then false
     else if (HF_VERSION_BULLETPROOF_PLUS <? hf_version) && v2 && is_rct_bulletproof type then false
     else check_output_types tx hf_version).

(** ** Sums of amounts *)

Fixpoint total (outs : list tx_out) : Z :=
  match outs with [] => 0 | o :: outs => amount o + total outs end.
Definition amounts_ok (outs : list tx_out) : Prop := Forall (fun o => is_u64 (amount o)) outs.

Lemma total_nonneg outs : amounts_ok outs -> 0 <= total outs.
Proof. induction 1 as [|o outs Ho _ IH]; cbn [total]; [lia|]. unfold in_width in Ho. lia. Qed.

(** The loop finds an overflow exactly when there is one. *)
Lemma outs_overflow_loop money outs :
  is_u64 money -> amounts_ok outs ->
  check_outs_overflow_loop money outs = true <-> money + total outs < 2 ^ 64.
Proof.
  intros Hm Ho. revert money Hm. induction Ho as [|o outs Ho Houts IH]; intros money Hm; cbn [check_outs_overflow_loop total].
  { unfold in_width in Hm. split; [lia|done]. }
  pose proof (total_nonneg outs Houts).
  destruct (decide (amount o + money < 2 ^ 64)) as [Hlt|Hge].
  - rewrite (wrap_small 64 (amount o + money)) by mach. rewrite (proj2 (Z.ltb_ge _ _)) by mach.
    rewrite wrap_small by mach. rewrite IH by mach. lia.
  - assert (u64 (amount o + money) = amount o + money - 2 ^ 64) as ->.
    { unfold wrap. symmetry. apply (Z.mod_unique_pos _ _ 1); mach. }
    rewrite (proj2 (Z.ltb_lt _ _)) by mach. split; [done|lia].
Qed.

Lemma outs_money_exact outs acc :
  0 <= acc -> amounts_ok outs -> acc + total outs < 2 ^ 64 ->
  fold_left (fun acc o => u64 (acc + amount o)) outs acc = acc + total outs.
Proof.
  intros Ha Ho. revert acc Ha. induction Ho as [|o outs Ho Houts IH]; intros acc Ha Hs; cbn [fold_left total] in *; [lia|].
  pose proof (total_nonneg outs Houts).
  rewrite wrap_small by mach. rewrite IH by mach. lia.
Qed.

(** A prevalidated miner transaction: its amounts do not overflow. *)
Lemma prevalidated_total tx h v :
  prevalidate_miner_transaction tx h v = true -> amounts_ok (vout tx) ->
  0 <= total (vout tx) < 2 ^ 64 /\ get_outs_money_amount tx = total (vout tx).
Proof.
  intros Hp Ha. unfold prevalidate_miner_transaction in Hp.
  repeat case_match; try done.
  match goal with H : negb (check_outs_overflow tx) = false |- _ =>
    apply negb_false_iff, outs_overflow_loop in H; [|by_decide|done] end.
  pose proof (total_nonneg _ Ha). split; [lia|].
  unfold get_outs_money_amount. rewrite outs_money_exact by (done || lia). done.
Qed.

(** ** The reward *)

(** C32: A miner creates exactly the coins it may. Of a prevalidated miner transaction in
    a block whose penalised reward is [R], with [fee] paid by the block's other
    transactions: since fork 13 it is accepted if and only if its outputs add up to
    [R + fee], the true sum of integers; in forks 4 to 12, if and only if they add up to
    at least [fee] and at most [R + fee], and the reward recorded is what was taken. The
    coins recorded next grow by the reward, up to the money supply. *)
Theorem miner_reward_exact (bc : Blockchain) (tx : transaction) (h w fee r0 coins v m R : Z) :
  prevalidate_miner_transaction tx h v = true -> amounts_ok (vout tx) ->
  penalty_median bc v = Some m -> get_block_reward m w coins v = Ret (Some R) ->
  0 <= R -> 0 <= fee -> R + fee < 2 ^ 64 -> is_u64 coins -> 4 <= v ->
  let S := total (vout tx) in
  exists b r p, validate_miner_transaction bc tx w fee r0 coins v = Some (b, r, p)
    /\ (b = true <-> if 13 <=? v then S = R + fee else fee <= S <= R + fee)
    /\ (b = true -> r = S - fee /\ p = bool_decide (S < R + fee)
        /\ next_generated_coins coins r = Z.min (coins + (S - fee)) MONEY_SUPPLY).
Proof.
  intros Hp Ha Hm HR H0 Hf Hs Hc Hv. cbv zeta.
  destruct (prevalidated_total tx h v Hp Ha) as [Ht Et].
  unfold validate_miner_transaction. rewrite Et, Hm.
  rewrite (proj2 (Z.eqb_neq v 3)) by lia. cbn [mbind option_bind negb]. rewrite HR.
  set (S := total (vout tx)) in *. clearbody S.
  assert (Hcoins : forall r, 0 <= r -> next_generated_coins coins r = Z.min (coins + r) MONEY_SUPPLY).
  { intros r Hr. unfold next_generated_coins. cases_cmp; lia. }
  rewrite (wrap_small 64 (R + fee)) by mach. change HF_VERSION_EXACT_COINBASE with 13.
  rewrite (proj2 (Z.ltb_ge v 2)) by lia. cbn [orb].
  destruct (Z.ltb_spec (R + fee) S) as [Hgt|Hle].
  { exists false, R, false. split; [done|]. destruct (13 <=? v); split; (done || split; (done || lia)). }
  destruct (Z.leb_spec 13 v) as [H13|H13].
  { exists (R + fee =? S), R, false. split; [done|]. rewrite Z.eqb_eq. split; [lia|]. intros E.
    split; [lia|]. rewrite bool_decide_eq_false_2 by lia. split; [done|]. rewrite Hcoins by lia. f_equal. lia. }
  destruct (Z.leb_spec fee S) as [Hfs|Hfs].
  - rewrite (wrap_small 64 (S - fee)) by mach. rewrite (proj2 (Z.leb_le (S - fee) R)) by lia. cbn [negb].
    exists true, (S - fee), (negb (R + fee =? S)). split; [done|]. split; [lia|]. intros _. split; [done|].
    split; [|apply Hcoins; lia]. destruct (Z.eqb_spec (R + fee) S); symmetry;
      [apply bool_decide_eq_false_2|apply bool_decide_eq_true_2]; lia.
  - assert (u64 (S - fee) = S - fee + 2 ^ 64) as ->.
    { unfold wrap. symmetry. apply (Z.mod_unique_pos _ _ (-1)); lia. }
    rewrite (proj2 (Z.leb_gt _ _)) by lia. cbn [negb]. exists false, R, false.
    split; [done|]. split; [split; [done|lia]|done].
Qed.

(** The outputs a transaction may have since fork 16: a ring-confidential transaction
    that is not one of the two let through is accepted exactly when all its amounts are
    hidden, all its outputs carry view tags, and its type is none of those before
    Bulletproof+. *)
Theorem outputs_since_16 (get_transaction_hash : transaction -> Z) (tx : transaction) (v : Z) :
  16 <= v -> 2 <= version tx -> 0 <= rct_type tx <= 255 -> get_transaction_hash tx ∉ grandfathered ->
  check_tx_outputs get_transaction_hash tx v = Some true <->
  RCTTypeBulletproofPlus <= rct_type tx
  /\ Forall (fun o => amount o = 0 /\ target o = txout_to_tagged_key) (vout tx).
Proof.
  intros Hv Hv2 Ht Hg. unfold check_tx_outputs, check_output_types.
  rewrite (bool_decide_eq_false_2 _ Hg).
  change HF_VERSION_SMALLER_BP with 10. change HF_VERSION_CLSAG with 13.
  change HF_VERSION_BULLETPROOF_PLUS with 15. change HF_VERSION_VIEW_TAGS with 15.
  rewrite (proj2 (Z.leb_le 2 v)), (proj2 (Z.eqb_neq (version tx) 1)), (proj2 (Z.leb_le 3 v)),
    (proj2 (Z.leb_le 2 (version tx))), (proj2 (Z.ltb_ge v 8)), (proj2 (Z.ltb_lt 8 v)),
    (proj2 (Z.ltb_ge v 10)), (proj2 (Z.ltb_lt 10 v)), (proj2 (Z.ltb_ge v 13)), (proj2 (Z.ltb_lt 13 v)),
    (proj2 (Z.ltb_ge v 15)), (proj2 (Z.ltb_lt 15 v)) by lia.
  cbn [andb mbind option_bind negb].
  unfold is_rct_bulletproof, is_rct_borromean, RCTTypeBulletproof, RCTTypeBulletproof2, RCTTypeCLSAG,
    RCTTypeSimple, RCTTypeFull, RCTTypeBulletproofPlus.
  rewrite andb_true_r.
  assert (Hf : (if negb (forallb (fun o => amount o =? 0) (vout tx)) then false
     else forallb (fun o => bool_decide (target o = txout_to_tagged_key)) (vout tx)) = true
     <-> Forall (fun o => amount o = 0 /\ target o = txout_to_tagged_key) (vout tx)).
  { induction (vout tx) as [|o l IH]; [split; intros; [constructor|done]|].
    cbn [forallb]. rewrite Forall_cons, <- IH.
    destruct (Z.eqb_spec (amount o) 0), (decide (target o = txout_to_tagged_key)) as [E|E];
      rewrite ?(bool_decide_eq_true_2 _ E), ?(bool_decide_eq_false_2 _ E); cbn [andb negb];
      destruct (forallb (fun o => amount o =? 0) l); cbn [negb]; intuition congruence. }
  destruct (Z.leb_spec 6 (rct_type tx)) as [H6|H6].
  - assert (Hne : forall k, k < 6 -> (rct_type tx =? k) = false) by (intros k Hk; apply Z.eqb_neq; lia).
    rewrite !Hne by lia. rewrite (proj2 (Z.leb_gt _ 4)) by lia. cbn [orb andb negb].
    rewrite <- Hf. destruct (negb (forallb _ _)); intuition congruence.
  - assert (rct_type tx = 0 \/ rct_type tx = 1 \/ rct_type tx = 2 \/ rct_type tx = 3 \/ rct_type tx = 4
            \/ rct_type tx = 5) as Hcase by lia.
    split; [|lia]. intros [= H]. exfalso. revert H.
    destruct (negb (forallb _ _)); [done|].
    destruct Hcase as [->|[->|[->|[->|[->| ->]]]]]; done.
Qed.

(** ** Timestamps *)

Lemma block_timestamp_at db h :
  0 <= h < height db ->
  exists b, db !! Z.to_nat h = Some b /\ get_block_timestamp db h = Some (bi_timestamp b).
Proof.
  intros Hh. unfold height in Hh. destruct (lookup_lt_is_Some_2 db (Z.to_nat h)) as [b Hb]; [lia|].
  exists b. split; [done|]. unfold get_block_timestamp, block_info.
  rewrite (proj2 (Z.leb_le _ _)) by lia. by rewrite Hb.
Qed.

Lemma timestamps_read db offset n :
  0 <= offset -> offset + Z.of_nat n <= height db ->
  mapM (get_block_timestamp db) (seqZ offset (Z.of_nat n))
  = Some (bi_timestamp <$> take n (drop (Z.to_nat offset) db)).
Proof.
  revert offset. induction n as [|n IH]; intros offset Ho Hn; [by rewrite seqZ_nil by lia|].
  rewrite seqZ_cons by lia. cbn [mapM].
  destruct (block_timestamp_at db offset) as (b & Hb & Eb); [lia|]. rewrite Eb. cbn [mbind option_bind].
  replace (Z.pred (Z.of_nat (S n))) with (Z.of_nat n) by lia. rewrite IH by lia.
  rewrite (drop_S _ _ _ Hb). replace (Z.to_nat (Z.succ offset)) with (S (Z.to_nat offset)) by lia. done.
Qed.

(** The timestamps of the last [n] blocks *)
Definition last_timestamps (n : Z) (db : list mdb_block_info) : list Z := last_n n (bi_timestamp <$> db).

Lemma window_timestamps db :
  60 <= height db ->
  timestamps_from db (height db - BLOCKCHAIN_TIMESTAMP_CHECK_WINDOW) (height db)
  = Some (last_timestamps 60 db).
Proof.
  intros Hh. unfold timestamps_from. change BLOCKCHAIN_TIMESTAMP_CHECK_WINDOW with 60.
  replace (height db - (height db - 60)) with (Z.of_nat 60) by lia.
  rewrite timestamps_read by lia. f_equal. unfold last_timestamps, last_n. rewrite length_fmap.
  unfold height in *. rewrite take_ge by (rewrite length_drop; lia). rewrite <- fmap_drop.
  f_equal. f_equal. lia.
Qed.

(** A block's timestamp is accepted exactly when it is at most two hours ahead of the
    clock and, once the chain has 60 blocks, at least the median of the last 60. *)
Theorem block_timestamp_spec (db : list mdb_block_info) (now ts : Z) :
  0 <= now < 2 ^ 63 ->
  exists b, check_block_timestamp db now ts = Some b
    /\ (b = true <-> ts <= now + 7200
                     /\ (60 <= height db ->
                         exists m, median_value (last_timestamps 60 db) = Some m /\ m <= ts)).
Proof.
  intros Hn. unfold check_block_timestamp. change CRYPTONOTE_BLOCK_FUTURE_TIME_LIMIT with 7200.
  rewrite wrap_small by mach. destruct (Z.ltb_spec (now + 7200) ts) as [Hf|Hf].
  { exists false. split; [done|]. split; [done|lia]. }
  change (height db <? BLOCKCHAIN_TIMESTAMP_CHECK_WINDOW) with (height db <? 60).
  destruct (Z.ltb_spec (height db) 60) as [Hs|Hs].
  { exists true. split; [done|]. split; [|done]. intros _. split; [done|lia]. }
  rewrite window_timestamps by done. cbn [mbind option_bind].
  unfold check_block_timestamp_window. destruct (median_total (last_timestamps 60 db)) as [m Hm].
  rewrite Hm. cbn. exists (negb (ts <? m)). split; [done|].
  rewrite negb_true_iff, Z.ltb_ge. split.
  - intros Hle. split; [done|]. intros _. by exists m.
  - intros [_ H]. destruct (H Hs) as (m' & [= ->] & ?). done.
Qed.

(** Unlocking since fork 13 depends on the chain alone. An output locked to a height
    below 500000000 is spendable from that height on; one locked to a time is spendable
    when that time is at most two minutes after the chain's time, which is the same for
    every node however its clock is set: the smaller of the last timestamp plus two
    minutes and of the median of the last 60 projected to the tip. *)
Theorem unlock_spec (bc : Blockchain) (now unlock v : Z) :
  13 <= v -> 2 <= get_current_hard_fork_version bc -> 60 <= height (m_db bc) < 2 ^ 64 ->
  Forall (fun b => 0 <= bi_timestamp b < 2 ^ 63) (m_db bc) ->
  exists m t, median_value (last_timestamps 60 (m_db bc)) = Some m
    /\ last (bi_timestamp <$> m_db bc) = Some t
    /\ is_tx_spendtime_unlocked bc now unlock v
       = Some (if unlock <? 500000000 then unlock <=? height (m_db bc)
               else unlock <=? Z.min (t + 120) (m + 3660) + 120).
Proof.
  intros Hv Hv2 Hh Ht. unfold is_tx_spendtime_unlocked, CRYPTONOTE_MAX_BLOCK_NUMBER.
  destruct (median_total (last_timestamps 60 (m_db bc))) as [m Hm].
  set (ts := last_timestamps 60 (m_db bc)) in *.
  assert (Hts : Forall (fun x => 0 <= x <= 2 ^ 63 - 1) ts).
  { apply last_n_Forall, Forall_fmap. eapply Forall_impl; [exact Ht|]. cbn. lia. }
  assert (Hne : ts <> []).
  { apply last_n_nonempty; [lia|]. unfold height in Hh. destruct (m_db bc); [cbn in Hh; lia|done]. }
  pose proof (median_bounds ts 0 (2 ^ 63 - 1) m Hm Hne ltac:(lia) ltac:(lia) Hts) as Bm.
  destruct (last ts) as [t|] eqn:El; [|by apply last_None in El].
  assert (Bt : 0 <= t <= 2 ^ 63 - 1).
  { rewrite Forall_forall in Hts. apply Hts. apply last_Some_elem_of in El. done. }
  exists m, t. split; [done|]. split.
  { rewrite <- El. unfold ts, last_timestamps, last_n. rewrite !last_lookup, lookup_drop.
    f_equal. rewrite length_drop, length_fmap. unfold height in Hh. lia. }
  destruct (unlock <? 500000000).
  { f_equal. rewrite (wrap_small 64 (height _ - 1)) by mach. unfold CRYPTONOTE_LOCKED_TX_ALLOWED_DELTA_BLOCKS.
    rewrite wrap_small by mach. f_equal. lia. }
  change HF_VERSION_DETERMINISTIC_UNLOCK_TIME with 13. rewrite (proj2 (Z.leb_le 13 v)) by lia.
  unfold get_adjusted_time. change (height (m_db bc) <? BLOCKCHAIN_TIMESTAMP_CHECK_WINDOW) with (height (m_db bc) <? 60).
  rewrite (proj2 (Z.ltb_ge _ 60)) by lia. rewrite window_timestamps by lia. fold ts.
  cbn [mbind option_bind]. rewrite Hm. cbn [mbind option_bind]. rewrite El. cbn [mbind option_bind].
  rewrite (proj2 (Z.ltb_ge _ 2)) by lia.
  change ((BLOCKCHAIN_TIMESTAMP_CHECK_WINDOW + 1) * DIFFICULTY_TARGET_V2 / 2) with 3660.
  change DIFFICULTY_TARGET_V2 with 120. change CRYPTONOTE_LOCKED_TX_ALLOWED_DELTA_SECONDS_V2 with 120.
  rewrite (wrap_small 64 (m + 3660)), (wrap_small 64 (t + 120)) by mach.
  destruct (Z.ltb_spec (t + 120) (m + 3660)).
  - rewrite Z.min_l by lia. by rewrite wrap_small by mach.
  - rewrite Z.min_r by lia. by rewrite wrap_small by mach.
Qed.

(** ** Completing a window below a fork *)

Lemma complete_loop_spec db n start ts :
  Z.of_nat n <= start + 1 -> start < height db ->
  complete_loop db n start ts
  = Some (ts ++ reverse (bi_timestamp <$> take n (drop (Z.to_nat (start + 1 - Z.of_nat n)) db))).
Proof.
  revert start ts. induction n as [|n IH]; intros start ts Hn Hs; cbn [complete_loop].
  { by rewrite take_0, app_nil_r. }
  destruct (block_timestamp_at db start) as (b & Hb & Eb); [lia|]. rewrite Eb. cbn [mbind option_bind].
  rewrite IH by lia. f_equal.
  replace (start - 1 + 1 - Z.of_nat n) with (start + 1 - Z.of_nat (S n)) by lia.
  rewrite (take_S_r _ n b).
  - rewrite fmap_app, reverse_app. cbn. by rewrite <- app_assoc.
  - rewrite lookup_drop. rewrite <- Hb. f_equal. lia.
Qed.

(** Below a fork the window is completed with the main chain's timestamps from the
    fork point down, newest first: as many as are missing, but never that of the first
    block, even when the window is short of it. *)
Theorem complete_timestamps_spec (db : list mdb_block_info) (top : Z) (ts : list Z) :
  0 <= top < height db -> (length ts < 60)%nat ->
  let n := Z.to_nat (Z.min top (60 - Z.of_nat (length ts))) in
  complete_timestamps_vector db top ts
  = Some (true, ts ++ reverse (bi_timestamp <$> take n (drop (Z.to_nat (top + 1) - n) db))).
Proof.
  intros Ht Hl. cbv zeta. unfold complete_timestamps_vector. change BLOCKCHAIN_TIMESTAMP_CHECK_WINDOW with 60.
  rewrite (proj2 (Z.leb_gt _ _)) by lia. rewrite (proj2 (Z.ltb_lt top _)) by lia. cbn [negb].
  set (need := 60 - Z.of_nat (length ts)).
  assert (top - (if need <? top then top - need else 0) = Z.min top need) as -> by (cases_cmp; lia).
  rewrite complete_loop_spec by lia. cbn [mbind option_bind].
  set (n := Z.to_nat (Z.min top need)).
  by replace (Z.to_nat (top + 1 - Z.of_nat n)) with (Z.to_nat (top + 1) - n)%nat by lia.
Qed.

(** ** Supply *)

(** The coins recorded after a chain of rewards are their sum, or the supply. *)
Lemma generated_coins_sum rewards coins :
  Forall (fun r => 0 <= r) rewards -> 0 <= coins <= MONEY_SUPPLY ->
  fold_left next_generated_coins rewards coins
  = Z.min (coins + foldr Z.add 0 rewards) MONEY_SUPPLY.
Proof.
  intros Hr. revert coins. induction Hr as [|r rs H0 Hr IH]; intros coins Hc; cbn [fold_left foldr]; [lia|].
  assert (0 <= foldr Z.add 0 rs) by (clear IH; induction Hr; cbn; lia).
  unfold next_generated_coins at 2. destruct (Z.ltb_spec r (MONEY_SUPPLY - coins)); rewrite IH; lia.
Qed.

(** ** Witnesses *)

Definition sample_miner_tx : transaction :=
  {| version := 2; unlock_time := 67; vin := [txin_gen 7];
     vout := [{| amount := 600000001000; target := txout_to_tagged_key |}];
     rct_type := 0; bulletproofs := []; bulletproofs_plus := [] |}.

Definition sample_state : Blockchain :=
  {| m_db := []; m_hardfork := sample_fork;
     m_current_block_cumul_weight_limit := 600000; m_current_block_cumul_weight_median := 300000;
     m_long_term_block_weights_window := 2; m_long_term_effective_median_block_weight := 300000;
     m_long_term_block_weights_cache_tip_hash := 0;
     m_long_term_block_weights_cache_rolling_median :=
       {| data := [0]; pos := [0]; heap := [0]; N := 1; idx := 0; minCt := 0; maxCt := 0; sz := 0 |} |}.

Lemma miner_reward_exact_witness :
  exists b r p, validate_miner_transaction sample_state sample_miner_tx 2000 1000 0 (2 ^ 64 - 1) 16 = Some (b, r, p)
    /\ b = true /\ r = 600000000000.
Proof.
  destruct (miner_reward_exact sample_state sample_miner_tx 7 2000 1000 0 (2 ^ 64 - 1) 16 300000 600000000000)
    as (b & r & p & E & Hb & Hr); try reflexivity; try by_decide.
  exists b, r, p. split; [exact E|]. assert (b = true) as Eb by (apply Hb; reflexivity).
  split; [exact Eb|]. rewrite (proj1 (Hr Eb)). reflexivity.
Defined.

Lemma outputs_since_16_witness :
  check_tx_outputs (fun _ => 0)
    {| version := 2; unlock_time := 0; vin := []; vout := [{| amount := 0; target := txout_to_tagged_key |}];
       rct_type := 6; bulletproofs := []; bulletproofs_plus := [[1]] |} 16 = Some true.
Proof.
  apply (outputs_since_16 (fun _ => 0)); [lia|by_decide|by_decide|by_decide|].
  split; [by_decide|]. repeat constructor.
Defined.

Definition sample_blocks (n : nat) : list mdb_block_info :=
  (fun k => {| bi_height := Z.of_nat k; bi_timestamp := 1000 + 120 * Z.of_nat k; bi_coins := 0;
               bi_weight := 0; bi_diff_lo := 1; bi_diff_hi := 0; bi_hash := 1 + Z.of_nat k;
               bi_cum_rct := 0; bi_long_term_block_weight := 0 |}) <$> seq 0 n.

Lemma block_timestamp_spec_witness :
  exists b, check_block_timestamp (sample_blocks 61) 9000 5000 = Some b /\ b = true.
Proof.
  destruct (block_timestamp_spec (sample_blocks 61) 9000 5000) as (b & E & Hb); [by_decide|].
  exists b. split; [exact E|]. apply Hb. split; [lia|]. intros _. exists 4660.
  split; [vm_compute; reflexivity|lia].
Defined.

Definition sample_long_chain : Blockchain :=
  {| m_db := sample_blocks 61; m_hardfork := sample_fork;
     m_current_block_cumul_weight_limit := 600000; m_current_block_cumul_weight_median := 300000;
     m_long_term_block_weights_window := 2; m_long_term_effective_median_block_weight := 300000;
     m_long_term_block_weights_cache_tip_hash := 0;
     m_long_term_block_weights_cache_rolling_median :=
       m_long_term_block_weights_cache_rolling_median sample_state |}.

Lemma unlock_spec_witness :
  is_tx_spendtime_unlocked sample_long_chain 0 1000000000 16 = Some false
  /\ is_tx_spendtime_unlocked sample_long_chain 0 61 16 = Some true.
Proof.
  assert (H : forall u, exists m t, _) by (intros u;
    exact (unlock_spec sample_long_chain 0 u 16 ltac:(lia) ltac:(by_decide) ltac:(by_decide)
      ltac:(apply Forall_fmap, Forall_forall; intros k Hk%elem_of_seq; cbn; lia))).
  split.
  - destruct (H 1000000000) as (m & t & Em & Et & ->). vm_compute in Em, Et. injection Em as <-.
    injection Et as <-. reflexivity.
  - destruct (H 61) as (m & t & _ & _ & ->). reflexivity.
Defined.

Lemma complete_timestamps_spec_witness :
  complete_timestamps_vector (sample_blocks 5) 3 [7] = Some (true, [7; 1360; 1240; 1120]).
Proof. rewrite (complete_timestamps_spec (sample_blocks 5) 3 [7]); [reflexivity|by_decide|cbn; lia]. Defined.
