(* ===== verification/AltChains.v ===== *)
(** * Alternative chains: core/src/cryptonote_core/blockchain.cpp

    Blocks that do not follow the top of the main chain are kept aside. When such a block
    ends a chain with more work than the main chain, the main chain is cut at the fork and
    the alternative blocks are put in their place; when one of them is refused the old
    blocks are put back. A block whose transactions have wrong inputs is remembered and refused
    at once from then on. What is read of a block, its hashes and proof of work, and the
    checks of transactions are arguments. The verdict on a block for the main chain is a
    function of the chain and the block: that the pool, into which the transactions of popped
    blocks go back, and the clock do not change it is assumed here. [None] is an exception. *)

From stdpp Require Import sorting.
From S2P Require Import Prelude SortedLists Difficulty Emission Weights BlockChecks Checkpoints DifficultyCache.

Abbreviation hash := (list Z).

(** What comes of the checks of a block for the main chain *)
Inductive verdict := Passed | Refused | Wrong_inputs.

Section AltChains.
Context {block : Type}.
Context (get_block_hash prev_id : block -> hash) (timestamp get_block_height major_version : block -> Z).
Context (get_outs_money_amount : block -> Z).
(** [get_altblock_longhash] and [get_block_longhash] *)
Context (get_altblock_longhash : block -> hash -> hash) (get_block_longhash : block -> Z -> hash).
(** [HardFork::get_ideal_version(height)] and [check_for_height] *)
Context (get_ideal_version : Z -> Z) (check_for_height : block -> Z -> bool).
(** The rest of [prevalidate_miner_transaction], the checks of the transactions that came with
    a block or are in the pool, and the weight of them all, 0 when one is not known *)
Context (prevalidate_miner_transaction supplement_ok : block -> bool) (transactions_weight : block -> Z).
Context (m_checkpoints : checkpoints) (m_fixed_difficulty : Z).

(** ** The database *)

Record stored := {
  st_block : block;
  st_cumulative_difficulty : Z;
  st_already_generated_coins : Z }.

Record alt_block_data_t := {
  ad_height : Z;
  ad_cumulative_weight : Z;
  ad_cumulative_difficulty_low : Z;
  ad_cumulative_difficulty_high : Z;
  ad_already_generated_coins : Z }.

Record block_extended_info := {
  bei_bl : block;
  bei_height : Z;
  bei_block_cumulative_weight : Z;
  bei_cumulative_difficulty : Z;
  bei_already_generated_coins : Z }.

Record chain_state := {
  m_main : list stored;
  m_alt : gmap hash (alt_block_data_t * block);
  m_invalid_blocks : gmap hash block }.

Definition info (b : block) (cumulative_difficulty : Z) : DifficultyCache.block_info :=
  {| DifficultyCache.bi_timestamp := timestamp b; bi_cumulative_difficulty := cumulative_difficulty |}.
Definition main_info (main : list stored) : list DifficultyCache.block_info :=
  (fun s => info (st_block s) (st_cumulative_difficulty s)) <$> main.
Definition alt_info (alt_chain : list block_extended_info) : list DifficultyCache.block_info :=
  (fun b => info (bei_bl b) (bei_cumulative_difficulty b)) <$> alt_chain.

(** The records of the main chain, of which only the timestamps are read here *)
Definition time_records (main : list stored) : list mdb_block_info :=
  (fun s => {| bi_height := 0; Weights.bi_timestamp := timestamp (st_block s); bi_coins := 0; bi_weight := 0;
               bi_diff_lo := 0; bi_diff_hi := 0; bi_hash := 0; bi_cum_rct := 0; bi_long_term_block_weight := 0 |})
  <$> main.

Definition top_block_hash (main : list stored) : option hash := (fun s => get_block_hash (st_block s)) <$> last main.
(** The height of the block with this hash *)
Definition find_block (main : list stored) (h : hash) : option Z :=
  (fun p => Z.of_nat p.1) <$> list_find (fun s => get_block_hash (st_block s) = h) main.
Definition block_exists (main : list stored) (h : hash) : bool := bool_decide (is_Some (find_block main h)).
Definition get_block_hash_from_height (main : list stored) (height : Z) : option hash :=
  (fun s => get_block_hash (st_block s)) <$> main !! Z.to_nat height.

(** ** The difficulty on an alternative chain *)

Fixpoint alt_read_loop (main : list stored) (n : nat) (offset : Z) (timestamps difficulties : list Z)
  : option (list Z * list Z) :=
  match n with
  | O => Some (timestamps, difficulties)
  | S n =>
    s ← main !! Z.to_nat offset;
    alt_read_loop main n (offset + 1) (timestamps ++ [timestamp (st_block s)])
      (difficulties ++ [st_cumulative_difficulty s])
  end.

(** The vectors are filled from the back, from the newest block on. *)
Fixpoint alt_fill_loop (rev_chain : list block_extended_info) (count : nat) (timestamps difficulties : list Z)
  : list Z * list Z :=
  match rev_chain with
  | [] => (timestamps, difficulties)
  | bei :: rest =>
      let max_i := (length timestamps - 1)%nat in
      let timestamps := <[(max_i - count)%nat := timestamp (bei_bl bei)]> timestamps in
      let difficulties := <[(max_i - count)%nat := bei_cumulative_difficulty bei]> difficulties in
      let count := S count in
      if bool_decide (COUNT <= count)%nat then (timestamps, difficulties)
      else alt_fill_loop rest count timestamps difficulties
  end.

Definition get_next_difficulty_for_alternative_chain (main : list stored) (alt_chain : list block_extended_info)
    (height : Z) : option Z :=
  if negb (m_fixed_difficulty =? 0) then Some (if Z.of_nat (length main) =? 0 then 1 else m_fixed_difficulty)
  else
    let target := if get_ideal_version height <? 2 then DIFFICULTY_TARGET_V1 else DIFFICULTY_TARGET_V2 in
    if bool_decide (length alt_chain < COUNT)%nat then
      let main_chain_stop_offset := match alt_chain with front :: _ => bei_height front | [] => height end in
      let main_chain_count := Z.of_nat COUNT - Z.min (Z.of_nat COUNT) (Z.of_nat (length alt_chain)) in
      let main_chain_count := Z.min main_chain_count main_chain_stop_offset in
      let main_chain_start_offset := main_chain_stop_offset - main_chain_count in
      let main_chain_start_offset :=
        if main_chain_start_offset =? 0 then main_chain_start_offset + 1 else main_chain_start_offset in
      '(timestamps, difficulties) ←
        alt_read_loop main (Z.to_nat (main_chain_stop_offset - main_chain_start_offset)) main_chain_start_offset [] [];
      if bool_decide (COUNT < length alt_chain + length timestamps)%nat then Some 0
      else
        next_difficulty (timestamps ++ ((fun b => timestamp (bei_bl b)) <$> alt_chain))
          (difficulties ++ (bei_cumulative_difficulty <$> alt_chain)) target
    else
      let '(timestamps, difficulties) :=
        alt_fill_loop (reverse alt_chain) 0 (replicate COUNT 0) (replicate COUNT 0) in
      next_difficulty timestamps difficulties target.

(** ** Building the chain of a block *)

Definition extended_info (data : alt_block_data_t) (bl : block) : block_extended_info :=
  {| bei_bl := bl; bei_height := ad_height data; bei_block_cumulative_weight := ad_cumulative_weight data;
     bei_cumulative_difficulty :=
       u128 (u128 (Z.shiftl (ad_cumulative_difficulty_high data) 64) + ad_cumulative_difficulty_low data);
     bei_already_generated_coins := ad_already_generated_coins data |}.

(** [while (found)]: the chain and the timestamps, newest first. The blocks of the chain have
    heights above 0, which bounds the rounds. *)
Fixpoint build_loop (fuel : nat) (alt : gmap hash (alt_block_data_t * block)) (h : hash)
    (alt_chain : list block_extended_info) (timestamps : list Z) : option (list block_extended_info * list Z) :=
  match alt !! h with
  | None => Some (alt_chain, timestamps)
  | Some (data, bl) =>
      match fuel with
      | O => None
      | S fuel => build_loop fuel alt (prev_id bl) (extended_info data bl :: alt_chain) (timestamps ++ [timestamp bl])
      end
  end.

(** The result, the chain and the timestamps. The result of [complete_timestamps_vector] is
    not looked at. *)
Definition build_alt_chain (st : chain_state) (h : hash) : option (bool * list block_extended_info * list Z) :=
  let fuel := match m_alt st !! h with Some (data, _) => Z.to_nat (ad_height data) | None => 0%nat end in
  '(alt_chain, timestamps) ← build_loop fuel (m_alt st) h [] [];
  let main := m_main st in
  match alt_chain with
  | front :: _ =>
      if negb (bei_height front <? Z.of_nat (length main)) then Some (false, alt_chain, timestamps)
      else
        match find_block main (prev_id (bei_bl front)) with
        | None => Some (false, alt_chain, timestamps)
        | Some fork_height =>
            hh ← get_block_hash_from_height main (u64 (bei_height front - 1));
            if negb (bool_decide (hh = prev_id (bei_bl front))) then Some (false, alt_chain, timestamps)
            else
              '(_, timestamps) ← complete_timestamps_vector (time_records main) fork_height timestamps;
              Some (true, alt_chain, timestamps)
        end
  | [] =>
      match find_block main h with
      | None => Some (false, alt_chain, timestamps)
      | Some fork_height =>
          '(_, timestamps) ← complete_timestamps_vector (time_records main) fork_height timestamps;
          Some (true, alt_chain, timestamps)
      end
  end.

(** ** The main chain *)

(** The checks of a block for the main chain besides its place and its miner's height, and the
    reward without fees *)
Context (main_chain_checks : list stored -> block -> verdict) (base_reward : list stored -> block -> Z).
Context (hard_fork_version : list DifficultyCache.block_info -> Z).

(** [std::map::insert] leaves an entry that is there. *)
Definition add_block_as_invalid (invalid : gmap hash block) (bl : block) (h : hash) : gmap hash block :=
  match invalid !! h with Some _ => invalid | None => <[h := bl]> invalid end.

(** The result, the chain and the invalid blocks. The difficulty is the one [DifficultyCache]
    shows the method to answer. *)
Definition handle_block_to_main_chain (main : list stored) (invalid : gmap hash block) (bl : block)
  : option (bool * list stored * gmap hash block) :=
  top ← last main;
  if negb (bool_decide (prev_id bl = get_block_hash (st_block top))) then Some (false, main, invalid)
  else
    current_diffic ← ideal_difficulty hard_fork_version m_fixed_difficulty (main_info main);
    if current_diffic =? 0 then Some (false, main, invalid)
    else if negb (get_block_height bl =? Z.of_nat (length main)) then Some (false, main, invalid)
    else
      match main_chain_checks main bl with
      | Refused => Some (false, main, invalid)
      | Wrong_inputs => Some (false, main, add_block_as_invalid invalid bl (get_block_hash bl))
      | Passed =>
          Some (true, main ++
            [{| st_block := bl;
                st_cumulative_difficulty := u128 (current_diffic + st_cumulative_difficulty top);
                st_already_generated_coins :=
                  next_generated_coins (st_already_generated_coins top) (base_reward main bl) |}], invalid)
      end.

(** Blocks are popped while [cond] holds; the blocks popped, oldest first. *)
Fixpoint pop_loop (fuel : nat) (cond : list stored -> bool) (main : list stored) (popped : list block)
  : option (list stored * list block) :=
  if cond main then
    match fuel with
    | O => None
    | S fuel =>
        if negb (1 <? Z.of_nat (length main)) then None
        else
          top ← last main;
          pop_loop fuel cond (take (length main - 1) main) (st_block top :: popped)
    end
  else Some (main, popped).

(** The blocks are added until one is refused: the chain, the invalid blocks, and the blocks
    from the refused one on *)
Fixpoint connect (main : list stored) (invalid : gmap hash block) (bls : list block)
  : option (list stored * gmap hash block * list block) :=
  match bls with
  | [] => Some (main, invalid, [])
  | bl :: rest =>
      '(r, main, invalid) ← handle_block_to_main_chain main invalid bl;
      if (r : bool) then connect main invalid rest else Some (main, invalid, bls)
  end.

Definition rollback_blockchain_switching (main : list stored) (invalid : gmap hash block)
    (original_chain : list block) (rollback_height : Z) : option (bool * list stored * gmap hash block) :=
  if Z.of_nat (length main) <? rollback_height then Some (true, main, invalid)
  else
    '(main, _) ← pop_loop (length main) (fun m => negb (Z.of_nat (length m) =? rollback_height)) main [];
    '(main, invalid, rest) ← connect main invalid original_chain;
    Some (match rest with [] => true | _ => false end, main, invalid).

Fixpoint remove_alt_blocks (bls : list block) (alt : gmap hash (alt_block_data_t * block)) :=
  match bls with
  | [] => alt
  | bl :: bls => remove_alt_blocks bls (delete (get_block_hash bl) alt)
  end.

(** [push] is [handle_alternative_block], for the blocks of the old chain. *)
Fixpoint push_old (push : chain_state -> block -> option chain_state) (st : chain_state) (olds : list block)
  : option chain_state :=
  match olds with
  | [] => Some st
  | old :: olds => st ← push st old; push_old push st olds
  end.

Definition switch_to_alternative_blockchain (push : chain_state -> block -> option chain_state)
    (st : chain_state) (alt_chain : list block_extended_info) (discard_disconnected_chain : bool)
    : option (bool * chain_state) :=
  match alt_chain with
  | [] => Some (false, st)
  | front :: _ =>
      if negb (block_exists (m_main st) (prev_id (bei_bl front))) then Some (false, st)
      else
        '(main, disconnected_chain) ←
          pop_loop (length (m_main st))
            (fun m => negb (bool_decide (top_block_hash m = Some (prev_id (bei_bl front))))) (m_main st) [];
        let split_height := Z.of_nat (length main) in
        '(main, invalid, refused) ← connect main (m_invalid_blocks st) (bei_bl <$> alt_chain);
        match refused with
        | _ :: _ =>
            '(_, main, invalid) ← rollback_blockchain_switching main invalid disconnected_chain split_height;
            Some (false, {| m_main := main; m_alt := remove_alt_blocks refused (m_alt st); m_invalid_blocks := invalid |})
        | [] =>
            let st := {| m_main := main; m_alt := m_alt st; m_invalid_blocks := invalid |} in
            st ← (if negb discard_disconnected_chain then push_old push st disconnected_chain else Some st);
            Some (true, {| m_main := m_main st; m_alt := remove_alt_blocks (bei_bl <$> alt_chain) (m_alt st);
                           m_invalid_blocks := m_invalid_blocks st |})
        end
  end.

(** ** A block aside of the main chain *)

Definition RX_BLOCK_VERSION : Z := 12.
Definition SEEDHASH_EPOCH_BLOCKS : Z := 2048.
Definition SEEDHASH_EPOCH_LAG : Z := 64.

Definition rx_seedheight (height : Z) : Z :=
  if height <=? SEEDHASH_EPOCH_BLOCKS + SEEDHASH_EPOCH_LAG then 0
  else Z.land (u64 (u64 (height - SEEDHASH_EPOCH_LAG) - 1)) (u64 (Z.lnot (SEEDHASH_EPOCH_BLOCKS - 1))).

Definition null_hash : hash := replicate 32 0.

Definition alt_seedhash (main : list stored) (alt_chain : list block_extended_info) (height : Z) : hash :=
  let seedheight := rx_seedheight height in
  if match alt_chain with front :: _ => bei_height front <=? seedheight | [] => false end
  then
    match List.find (fun it => bei_height it =? u64 (seedheight + 1)) alt_chain with
    | Some it => prev_id (bei_bl it)
    | None => null_hash
    end
  else default null_hash (get_block_hash_from_height main seedheight).

Definition alt_proof_of_work (main : list stored) (alt_chain : list block_extended_info) (b : block) (height : Z) : hash :=
  if RX_BLOCK_VERSION <=? major_version b then get_altblock_longhash b (alt_seedhash main alt_chain height)
  else get_block_longhash b height.

(** The flags that say what became of the block; those that say why it was refused are left
    out. *)
Record block_verification_context := {
  m_added_to_main_chain : bool;
  m_marked_as_orphaned : bool;
  m_already_exists : bool }.
Definition no_flags : block_verification_context :=
  {| m_added_to_main_chain := false; m_marked_as_orphaned := false; m_already_exists := false |}.
Definition flag_added : block_verification_context :=
  {| m_added_to_main_chain := true; m_marked_as_orphaned := false; m_already_exists := false |}.
Definition flag_orphaned : block_verification_context :=
  {| m_added_to_main_chain := false; m_marked_as_orphaned := true; m_already_exists := false |}.
Definition flag_exists : block_verification_context :=
  {| m_added_to_main_chain := false; m_marked_as_orphaned := false; m_already_exists := true |}.

Definition outcome := option (bool * block_verification_context * chain_state).

(** The work, the coins and the height of the block's parent *)
Definition parent_work (st : chain_state) (prev : option (alt_block_data_t * block)) (b : block) : option Z :=
  match prev with
  | Some (data, bl) => Some (bei_cumulative_difficulty (extended_info data bl))
  | None => h ← find_block (m_main st) (prev_id b); st_cumulative_difficulty <$> m_main st !! Z.to_nat h
  end.
Definition parent_coins (st : chain_state) (prev : option (alt_block_data_t * block)) (b : block) : option Z :=
  match prev with
  | Some (data, _) => Some (ad_already_generated_coins data)
  | None => h ← find_block (m_main st) (prev_id b); st_already_generated_coins <$> m_main st !! Z.to_nat h
  end.
Definition parent_height (st : chain_state) (prev : option (alt_block_data_t * block)) (b : block) : option Z :=
  match prev with
  | Some (data, _) => Some (ad_height data)
  | None => find_block (m_main st) (prev_id b)
  end.

Definition alt_data (bei : block_extended_info) : alt_block_data_t :=
  {| ad_height := bei_height bei; ad_cumulative_weight := bei_block_cumulative_weight bei;
     ad_cumulative_difficulty_low := Z.land (bei_cumulative_difficulty bei) 0xffffffffffffffff;
     ad_cumulative_difficulty_high := Z.land (Z.shiftr (bei_cumulative_difficulty bei) 64) 0xffffffffffffffff;
     ad_already_generated_coins := bei_already_generated_coins bei |}.

(** What follows when the block has been stored *)
Definition after_stored (push : chain_state -> block -> option chain_state) (st : chain_state)
    (alt_chain : list block_extended_info) (is_a_checkpoint : bool) (main_work work : Z) : outcome :=
  if is_a_checkpoint then
    '(r, st) ← switch_to_alternative_blockchain push st alt_chain true;
    Some (r, if (r : bool) then flag_added else no_flags, st)
  else if main_work <? work then
    '(r, st) ← switch_to_alternative_blockchain push st alt_chain false;
    Some (r, if (r : bool) then flag_added else no_flags, st)
  else Some (true, no_flags, st).

Definition alternative_with_parent (push : chain_state -> block -> option chain_state) (st : chain_state) (b : block)
    (prev : option (alt_block_data_t * block)) : outcome :=
  '(ok, alt_chain, timestamps) ← build_alt_chain st (prev_id b);
  if negb ok then Some (false, no_flags, st)
  else
    prev_height ← parent_height st prev b;
    let height := u64 (prev_height + 1) in
    prev_generated_coins ← parent_coins st prev b;
    '(in_time, _) ← check_block_timestamp_window timestamps (timestamp b);
    if negb (in_time : bool) then Some (false, no_flags, st)
    else
      let '(checked, is_a_checkpoint) := check_block m_checkpoints height (get_block_hash b) in
      if negb checked then Some (false, no_flags, st)
      else
        current_diff ← get_next_difficulty_for_alternative_chain (m_main st) alt_chain height;
        if current_diff =? 0 then Some (false, no_flags, st)
        else if negb (check_hash (alt_proof_of_work (m_main st) alt_chain b height) current_diff)
        then Some (false, no_flags, st)
        else if negb ((get_block_height b =? height) && prevalidate_miner_transaction b)
        then Some (false, no_flags, st)
        else
          top ← last (m_main st);
          prev_work ← parent_work st prev b;
          if negb (supplement_ok b) then Some (false, no_flags, st)
          else if bool_decide (is_Some (m_alt st !! get_block_hash b)) then Some (false, no_flags, st)
          else
            let bei :=
              {| bei_bl := b; bei_height := height; bei_block_cumulative_weight := transactions_weight b;
                 bei_cumulative_difficulty := u128 (prev_work + current_diff);
                 bei_already_generated_coins := next_generated_coins prev_generated_coins (get_outs_money_amount b) |} in
            let st := {| m_main := m_main st; m_alt := <[get_block_hash b := (alt_data bei, b)]> (m_alt st);
                         m_invalid_blocks := m_invalid_blocks st |} in
            after_stored push st (alt_chain ++ [bei]) is_a_checkpoint (st_cumulative_difficulty top)
              (bei_cumulative_difficulty bei).

(** The handler, with itself for [push] *)
Definition handle_with (push : chain_state -> block -> option chain_state) (st : chain_state) (b : block) : outcome :=
  let block_height := get_block_height b in
  if block_height =? 0 then Some (false, no_flags, st)
  else if negb (is_alternative_block_allowed m_checkpoints (Z.of_nat (length (m_main st))) block_height)
  then Some (false, no_flags, st)
  else if negb (check_for_height b block_height) then Some (false, no_flags, st)
  else
    let prev := m_alt st !! prev_id b in
    if bool_decide (is_Some prev) || block_exists (m_main st) (prev_id b)
    then alternative_with_parent push st b prev
    else Some (true, flag_orphaned, st).

(** [fuel] bounds the switches within switches. *)
Fixpoint handle_alternative_block (fuel : nat) (st : chain_state) (b : block) : outcome :=
  match fuel with
  | O => None
  | S fuel => handle_with (fun st b => (fun r => r.2) <$> handle_alternative_block fuel st b) st b
  end.

Definition have_block (st : chain_state) (id : hash) : bool :=
  block_exists (m_main st) id || bool_decide (is_Some (m_alt st !! id))
  || bool_decide (is_Some (m_invalid_blocks st !! id)).

Definition flush_invalid_blocks (st : chain_state) : chain_state :=
  {| m_main := m_main st; m_alt := m_alt st; m_invalid_blocks := ∅ |}.

Definition add_new_block (st : chain_state) (bl : block) : outcome :=
  if have_block st (get_block_hash bl) then Some (false, flag_exists, st)
  else
    top ← top_block_hash (m_main st);
    if negb (bool_decide (prev_id bl = top)) then handle_alternative_block 2 st bl
    else
      '(r, main, invalid) ← handle_block_to_main_chain (m_main st) (m_invalid_blocks st) bl;
      Some (r, if (r : bool) then flag_added else no_flags,
            {| m_main := main; m_alt := m_alt st; m_invalid_blocks := invalid |}).

(** ** The difficulty is the one of the main chain *)

Lemma alt_read_loop_eq main n k ts ds :
  (k + n <= length main)%nat ->
  alt_read_loop main n (Z.of_nat k) ts ds =
  Some (ts ++ (DifficultyCache.bi_timestamp <$> main_info (take n (drop k main))),
        ds ++ (bi_cumulative_difficulty <$> main_info (take n (drop k main)))).
Proof.
  revert k ts ds. induction n as [|n IH]; intros k ts ds Hk; cbn [alt_read_loop].
  - by rewrite take_0, !app_nil_r.
  - destruct (lookup_lt_is_Some_2 main k) as [s Hs]; [lia|]. rewrite Nat2Z.id, Hs. cbn [mbind option_bind].
    replace (Z.of_nat k + 1) with (Z.of_nat (S k)) by lia. rewrite IH by lia.
    rewrite (drop_S main s k) by done. cbn. by rewrite <- !app_assoc.
Qed.

Lemma drop_insert_at {A} (l : list A) i x : (i < length l)%nat -> drop i (<[i := x]> l) = x :: drop (S i) l.
Proof.
  revert i. induction l as [|y l IH]; intros i Hi; cbn in *; [lia|]. destruct i as [|i]; [done|]. cbn. apply IH. lia.
Qed.

Lemma alt_fill_loop_eq l count ts ds :
  length ts = COUNT -> length ds = COUNT -> (count < COUNT)%nat -> (COUNT <= count + length l)%nat ->
  let newest := reverse (take (COUNT - count) l) in
  alt_fill_loop l count ts ds =
  (((fun b => timestamp (bei_bl b)) <$> newest) ++ drop (COUNT - count) ts,
   (bei_cumulative_difficulty <$> newest) ++ drop (COUNT - count) ds).
Proof.
  revert count ts ds. induction l as [|x l IH]; intros count ts ds Ht Hd Hc Hl; cbn [length] in Hl; [lia|].
  cbn [alt_fill_loop]. rewrite Ht.
  assert (COUNT - count = S (COUNT - S count))%nat as Ec by lia.
  assert (COUNT - 1 - count = COUNT - S count)%nat as -> by lia. rewrite Ec. cbn [take]. rewrite reverse_cons.
  set (i := (COUNT - S count)%nat) in *.
  rewrite !fmap_app, <- !app_assoc. cbn [fmap list_fmap app].
  rewrite <- (drop_insert_at ts i (timestamp (bei_bl x))), <- (drop_insert_at ds i (bei_cumulative_difficulty x)) by lia.
  case_bool_decide as Hb.
  - by replace i with 0%nat by lia.
  - rewrite IH by (rewrite ?length_insert; lia). done.
Qed.

Context (same_target : forall c, (hard_fork_version c <? 2) = (get_ideal_version (Z.of_nat (length c)) <? 2)).

Lemma short_window main A k :
  (1 <= k <= length main)%nat -> (length A < COUNT)%nat ->
  let start := Z.of_nat k - Z.min (Z.of_nat COUNT - Z.min (Z.of_nat COUNT) (Z.of_nat (length A))) (Z.of_nat k) in
  let start := if start =? 0 then start + 1 else start in
  exists n, Z.to_nat (Z.of_nat k - start) = n /\ (length A + n <= COUNT)%nat /\
    alt_read_loop main n start [] [] =
      Some (DifficultyCache.bi_timestamp <$> main_info (drop (k - n) (take k main)),
            bi_cumulative_difficulty <$> main_info (drop (k - n) (take k main))) /\
    window (main_info (take k main) ++ alt_info A) = main_info (drop (k - n) (take k main)) ++ alt_info A.
Proof.
  intros Hk HA start start'. assert (COUNT = 735%nat) as EC by reflexivity.
  assert (start' = Z.of_nat (1 `max` (k + length A - COUNT))) as ->.
  { unfold start', start. case_match eqn:E; lia. }
  exists (k - 1 `max` (k + length A - COUNT))%nat.
  assert (k - (k - 1 `max` (k + length A - COUNT)) = 1 `max` (k + length A - COUNT))%nat as -> by lia.
  split_and!; [lia|lia| |].
  - rewrite alt_read_loop_eq by lia. rewrite skipn_firstn_comm. done.
  - unfold window. rewrite length_app. unfold main_info, alt_info. rewrite !length_fmap, length_take.
    rewrite Nat.min_l by lia. rewrite drop_app_le by (rewrite length_fmap, length_take; lia).
    by rewrite fmap_drop.
Qed.

Lemma long_window main A k :
  (1 <= k <= length main)%nat -> (COUNT <= length A)%nat ->
  window (main_info (take k main) ++ alt_info A) = alt_info (drop (length A - COUNT) A).
Proof.
  intros Hk HA. assert (COUNT = 735%nat) as EC by reflexivity.
  unfold window. rewrite length_app. unfold main_info, alt_info. rewrite !length_fmap, length_take.
  rewrite drop_app_ge by (rewrite length_fmap, length_take; lia). rewrite length_fmap, length_take, fmap_drop. f_equal. lia.
Qed.

(** The chain of a block aside: the main chain up to the fork, then the alternative blocks *)
Definition forks_at (k : nat) (A : list block_extended_info) (height : Z) : Prop :=
  height = Z.of_nat (k + length A) /\ match A with front :: _ => bei_height front = Z.of_nat k | [] => True end.

Lemma alt_difficulty_ideal main A k height :
  (1 <= k <= length main)%nat -> forks_at k A height ->
  get_next_difficulty_for_alternative_chain main A height =
  ideal_difficulty hard_fork_version m_fixed_difficulty (main_info (take k main) ++ alt_info A).
Proof.
  intros Hk [Hh Hf]. unfold get_next_difficulty_for_alternative_chain, ideal_difficulty.
  assert (length (main_info (take k main) ++ alt_info A) = (k + length A)%nat) as El.
  { unfold main_info, alt_info. rewrite length_app, !length_fmap, length_take. lia. }
  destruct (negb (m_fixed_difficulty =? 0)); [rewrite !(proj2 (Z.eqb_neq _ _)) by lia; done|].
  unfold get_difficulty_target. rewrite same_target, El, <- Hh. case_bool_decide as Hs.
  - destruct (short_window main A k Hk Hs) as (n & En & Hn & Er & Ew).
    assert (match A with [] => height | front :: _ => bei_height front end = Z.of_nat k) as ->
      by (destruct A; [cbn in Hh; lia|done]).
    rewrite En, Er. cbn [mbind option_bind]. rewrite bool_decide_eq_false_2.
    2: { unfold main_info. rewrite !length_fmap, length_drop, length_take. lia. }
    rewrite Ew, !fmap_app. unfold alt_info. by rewrite <- !list_fmap_compose.
  - rewrite alt_fill_loop_eq; [|by rewrite length_replicate..|unfold DIFFICULTY_BLOCKS_COUNT, DIFFICULTY_WINDOW; lia|rewrite length_reverse; lia].
    rewrite Nat.sub_0_r, !drop_ge, !app_nil_r by (rewrite length_replicate; lia).
    rewrite long_window by lia. rewrite take_reverse, reverse_involutive.
    unfold alt_info. by rewrite <- !list_fmap_compose.
Qed.

(** ** Chains of blocks with their work *)

Notation entry := (block * Z)%type.
Definition entries (main : list stored) : list entry := (fun s => (st_block s, st_cumulative_difficulty s)) <$> main.
Definition alt_entries (A : list block_extended_info) : list entry :=
  (fun b => (bei_bl b, bei_cumulative_difficulty b)) <$> A.
Definition entry_info (c : list entry) : list DifficultyCache.block_info := (fun e => info e.1 e.2) <$> c.

Lemma entry_info_main main : entry_info (entries main) = main_info main.
Proof. unfold entry_info, entries, main_info. by rewrite <- list_fmap_compose. Qed.
Lemma entry_info_alt A : entry_info (alt_entries A) = alt_info A.
Proof. unfold entry_info, alt_entries, alt_info. by rewrite <- list_fmap_compose. Qed.

Context (genesis : stored) (genesis_height : get_block_height (st_block genesis) = 0).
Context (hash_inj : forall b b', get_block_hash b = get_block_hash b' -> b = b').
Context (heights_fit : forall b, 0 <= get_block_height b < UINT64_MAX).

(** Every block follows the one before, is at its height, and adds the difficulty of its place. *)
Inductive chain : list entry -> Prop :=
  | chain_genesis : chain [(st_block genesis, st_cumulative_difficulty genesis)]
  | chain_next c top b d :
      chain c -> last c = Some top -> prev_id b = get_block_hash top.1 ->
      get_block_height b = Z.of_nat (length c) ->
      ideal_difficulty hard_fork_version m_fixed_difficulty (entry_info c) = Some d -> d <> 0 ->
      chain (c ++ [(b, u128 (d + top.2))]).

Lemma chain_nonempty c : chain c -> c <> [].
Proof. destruct 1; [done|]. by destruct c. Qed.

Lemma chain_snoc_inv c e :
  chain (c ++ [e]) ->
  c = [] /\ e = (st_block genesis, st_cumulative_difficulty genesis) \/
  exists top d, chain c /\ last c = Some top /\ prev_id e.1 = get_block_hash top.1 /\
    get_block_height e.1 = Z.of_nat (length c) /\
    ideal_difficulty hard_fork_version m_fixed_difficulty (entry_info c) = Some d /\ d <> 0 /\ e.2 = u128 (d + top.2).
Proof.
  intros Hc. inversion Hc as [E|c0 top b d ? ? ? ? ? ? E].
  - left. destruct c as [|? []]; by simplify_eq/=.
  - right. apply app_inj_tail in E as [-> <-]. exists top, d. done.
Qed.

Lemma chain_take c k : chain c -> (0 < k <= length c)%nat -> chain (take k c).
Proof.
  intros Hc. induction Hc as [|c top b d Hc IH Hl Hp Hh Hi Hd]; intros Hk.
  - cbn in Hk. replace k with 1%nat by lia. constructor.
  - rewrite length_app in Hk. cbn in Hk. destruct (decide (k = S (length c))) as [->|].
    + rewrite take_ge by (rewrite length_app; cbn; lia). by econstructor.
    + rewrite take_app_le by lia. apply IH. lia.
Qed.

Lemma chain_height c i e : chain c -> c !! i = Some e -> get_block_height e.1 = Z.of_nat i.
Proof.
  intros Hc. induction Hc as [|c top b d Hc IH Hl Hp Hh Hi Hd]; intros Hl'.
  - destruct i; by simplify_eq/=.
  - apply lookup_app_Some in Hl' as [Hl'|[Hge Hl']]; [by apply IH|].
    apply list_lookup_singleton_Some in Hl' as [Hz <-]. cbn. rewrite Hh. lia.
Qed.

(** A block determines the chain it ends, with all the work. *)
Lemma chain_unique c c' e e' :
  chain c -> chain c' -> last c = Some e -> last c' = Some e' -> get_block_hash e.1 = get_block_hash e'.1 -> c = c'.
Proof.
  intros Hc. revert c' e e'. induction Hc as [|c top b d Hc IH Hl Hp Hh Hi Hd]; intros c' e e' Hc' He He' Heq.
  - apply hash_inj in Heq. injection He as <-. inversion Hc' as [E|c0 top0 b0 d0 ? Hl0 ? Hh0 ? ? E]; [done|exfalso].
    subst c'. rewrite last_snoc in He'. injection He' as <-. cbn in Heq. subst b0.
    assert (length c0 <> 0%nat) by (by destruct c0). lia.
  - rewrite last_snoc in He. injection He as <-. cbn in Heq.
    inversion Hc' as [E|c0 top0 b0 d0 Hc0 Hl0 Hp0 Hh0 Hi0 Hd0 E]; subst c'.
    + exfalso. injection He' as <-. cbn in Heq. apply hash_inj in Heq. subst b.
      assert (length c <> 0%nat) by (by destruct c). lia.
    + rewrite last_snoc in He'. injection He' as <-. cbn in Heq. apply hash_inj in Heq as <-.
      assert (c = c0) as <- by (apply (IH c0 top top0); congruence).
      rewrite Hl in Hl0. rewrite Hi in Hi0. by simplify_eq.
Qed.

(** ** The main chain *)

Inductive built : list stored -> Prop :=
  | built_genesis : built [genesis]
  | built_next main invalid bl main' invalid' :
      built main -> handle_block_to_main_chain main invalid bl = Some (true, main', invalid') -> built main'.

Lemma entries_last main s :
  last main = Some s -> last (entries main) = Some (st_block s, st_cumulative_difficulty s).
Proof. intros Hl. unfold entries. by rewrite fmap_last, Hl. Qed.

Lemma handle_added main invalid bl main' invalid' :
  handle_block_to_main_chain main invalid bl = Some (true, main', invalid') ->
  exists top d, last main = Some top /\ prev_id bl = get_block_hash (st_block top) /\
    get_block_height bl = Z.of_nat (length main) /\
    ideal_difficulty hard_fork_version m_fixed_difficulty (main_info main) = Some d /\ d <> 0 /\
    main_chain_checks main bl = Passed /\
    main' = main ++ [{| st_block := bl; st_cumulative_difficulty := u128 (d + st_cumulative_difficulty top);
                        st_already_generated_coins := next_generated_coins (st_already_generated_coins top) (base_reward main bl) |}].
Proof.
  unfold handle_block_to_main_chain. intros (top & Ht & E)%bind_Some. case_bool_decide as Hp; [|done]. cbn [negb] in E.
  apply bind_Some in E as (d & Hd & E). destruct (Z.eqb_spec d 0); [done|].
  destruct (Z.eqb_spec (get_block_height bl) (Z.of_nat (length main))); [|done]. cbn [negb] in E.
  destruct (main_chain_checks main bl) eqn:Ec; [|done..]. injection E as <- _. exists top, d. done.
Qed.

(** A block that is added leaves the invalid blocks alone, and is added whatever they are. *)
Lemma handle_any main invalid bl main' invalid' other :
  handle_block_to_main_chain main invalid bl = Some (true, main', invalid') ->
  handle_block_to_main_chain main other bl = Some (true, main', other).
Proof.
  intros E%handle_added. destruct E as (top & d & Hl & Hp & Hh & Hd & Hnz & Hc & ->).
  unfold handle_block_to_main_chain. rewrite Hl. cbn [mbind option_bind].
  rewrite bool_decide_eq_true_2, Hd by done. cbn [negb mbind option_bind].
  rewrite (proj2 (Z.eqb_neq d 0)), Hh, Z.eqb_refl, Hc by done. done.
Qed.

Lemma built_chain main : built main -> chain (entries main).
Proof.
  induction 1 as [|main invalid bl main' invalid' _ IH E]; [constructor|].
  apply handle_added in E as (top & d & Hl & Hp & Hh & Hd & Hnz & _ & ->).
  unfold entries. rewrite fmap_app. cbn. fold (entries main).
  apply (chain_next (entries main) (st_block top, st_cumulative_difficulty top)); try done; [by apply entries_last| |].
  - unfold entries. by rewrite length_fmap.
  - by rewrite entry_info_main.
Qed.

Lemma built_nonempty main : built main -> main <> [].
Proof. intros Hb%built_chain%chain_nonempty ->. done. Qed.

Lemma built_step main k s invalid :
  built main -> (0 < k)%nat -> main !! k = Some s ->
  handle_block_to_main_chain (take k main) invalid (st_block s) = Some (true, take (S k) main, invalid).
Proof.
  induction 1 as [|main inv0 bl main' inv1 _ IH E]; intros Hk Hs.
  - destruct k; [lia|done].
  - apply (handle_any _ _ _ _ _ invalid) in E. pose proof (handle_added _ _ _ _ _ E) as (top & d & Hl & _ & _ & _ & _ & _ & Em). rewrite Em in Hs |- *.
    apply lookup_app_Some in Hs as [Hs|[Hge Hs]].
    + pose proof (lookup_lt_Some _ _ _ Hs). rewrite !take_app_le by lia. by apply IH.
    + apply list_lookup_singleton_Some in Hs as [Hz <-]. assert (k = length main) as -> by lia.
      rewrite take_app_length, take_ge by (rewrite length_app; cbn; lia). cbn [st_block]. congruence.
Qed.

Lemma built_take main k : built main -> (0 < k <= length main)%nat -> built (take k main).
Proof.
  intros Hb Hk. destruct k as [|k]; [lia|]. induction k as [|k IH].
  - clear Hk. induction Hb as [|main inv0 bl main' inv1 Hb IH E]; [constructor|].
    apply handle_added in E as (top & d & Hl & _ & _ & _ & _ & _ & ->).
    destruct main as [|s main]; [done|exact IH].
  - destruct (lookup_lt_is_Some_2 main (S k)) as [s Hs]; [lia|].
    eapply built_next; [apply IH; lia|]. by apply (built_step main (S k) s ∅); [|lia|].
Qed.

(** Putting back the blocks of a chain gives the chain. *)
Lemma connect_restores main k invalid :
  built main -> (0 < k <= length main)%nat ->
  connect (take k main) invalid (st_block <$> drop k main) = Some (main, invalid, []).
Proof.
  intros Hb. remember (length main - k)%nat as n eqn:En. revert k En. induction n as [|n IH]; intros k En Hk.
  - rewrite drop_ge, take_ge by lia. done.
  - destruct (lookup_lt_is_Some_2 main k) as [s Hs]; [lia|]. rewrite (drop_S main s k) by done. cbn [fmap list_fmap connect].
    rewrite (built_step main k s invalid) by (done || lia). cbn [mbind option_bind]. apply IH; lia.
Qed.

(** Connecting the blocks of a chain gives it, or stops at a block that is refused. *)
Lemma connect_chain main invalid es :
  built main -> chain (entries main ++ es) ->
  exists main' invalid' refused, connect main invalid es.*1 = Some (main', invalid', refused) /\ built main' /\
    take (length main) main' = main /\ (refused = [] -> entries main' = entries main ++ es) /\
    exists pre, es.*1 = pre ++ refused.
Proof.
  revert main invalid. induction es as [|e es IH]; intros main invalid Hb Hc; cbn [fmap list_fmap connect].
  { exists main, invalid, []. split_and!; [done|done|by rewrite take_ge|intros; by rewrite app_nil_r|by exists []]. }
  assert (chain (entries main ++ [e])) as He.
  { apply (chain_take _ (S (length main))) in Hc; [|rewrite length_app; unfold entries; rewrite length_fmap; cbn; lia].
    rewrite take_app_ge in Hc by (unfold entries; rewrite length_fmap; lia).
    unfold entries in Hc |- *. rewrite length_fmap in Hc. replace (S (length main) - length main)%nat with 1%nat in Hc by lia. done. }
  assert (exists r main1 inv1, handle_block_to_main_chain main invalid e.1 = Some (r, main1, inv1) /\
    (r = false -> main1 = main) /\ (r = true -> exists s, main1 = main ++ [s] /\ (st_block s, st_cumulative_difficulty s) = e))
    as (r & main1 & inv1 & Hh & Hf & Ht).
  { apply chain_snoc_inv in He as [[E _]|(top & d & Hc0 & Hl & Hp & Hhh & Hd & Hnz & E2)].
    { exfalso. apply (built_nonempty main Hb). by destruct main. }
    unfold handle_block_to_main_chain. rewrite <- entry_info_main, Hd.
    destruct (last main) as [t|] eqn:Et; [|by apply last_None, built_nonempty in Et].
    rewrite (entries_last main t Et) in Hl. injection Hl as <-. cbn in Hp, E2. cbn [mbind option_bind].
    rewrite bool_decide_eq_true_2 by done. cbn [negb]. rewrite (proj2 (Z.eqb_neq d 0)) by done.
    rewrite Hhh. unfold entries. rewrite length_fmap, Z.eqb_refl. cbn [negb].
    destruct (main_chain_checks main e.1); eexists _, _, _; (split; [done|]); split; intros; try done.
    eexists. split; [done|]. destruct e. cbn in *. by rewrite E2. }
  rewrite Hh. cbn [mbind option_bind]. destruct r.
  - destruct (Ht eq_refl) as (s & -> & Es).
    assert (entries (main ++ [s]) ++ es = entries main ++ e :: es) as Ee.
    { unfold entries. rewrite fmap_app, <- app_assoc. cbn. by rewrite Es. }
    destruct (IH (main ++ [s]) inv1) as (main' & inv' & refused & -> & Hb' & Hpre & Hfull & pre & Epre);
      [by eapply built_next|by rewrite Ee|].
    exists main', inv', refused. split_and!; [done|done| |by rewrite <- Ee|exists (e.1 :: pre); cbn; by rewrite Epre].
    rewrite length_app in Hpre. cbn in Hpre. 
    assert (take (length main) main' = take (length main) (take (length main + 1) main')) as ->
      by (rewrite take_take; f_equal; lia).
    rewrite Hpre. by rewrite take_app_length.
  - rewrite (Hf eq_refl). exists main, inv1, (e.1 :: es.*1). split_and!; [done|done|by rewrite take_ge|done|by exists []].
Qed.

(** ** Popping and finding blocks *)

Lemma pop_loop_to fuel cond main k popped :
  (0 < k <= length main)%nat -> cond (take k main) = false ->
  (forall j, (k < j <= length main)%nat -> cond (take j main) = true) -> (length main - k <= fuel)%nat ->
  pop_loop fuel cond main popped = Some (take k main, (st_block <$> drop k main) ++ popped).
Proof.
  revert main popped. induction fuel as [|fuel IH]; intros main popped Hk Hf Ht Hn; cbn [pop_loop].
  - assert (k = length main) as -> by lia. rewrite (take_ge main (length main)) in Hf |- * by lia. rewrite Hf, drop_ge by lia. done.
  - destruct (decide (k = length main)) as [->|Hne].
    { rewrite (take_ge main (length main)) in Hf |- * by lia. rewrite Hf, drop_ge by lia. done. }
    pose proof (Ht (length main) ltac:(lia)) as Hc. rewrite take_ge in Hc by lia. rewrite Hc.
    rewrite (proj2 (Z.ltb_lt _ _)) by lia. cbn [negb].
    destruct (last main) as [top|] eqn:El; [|apply last_None in El; subst main; cbn in Hk; lia].
    apply last_Some in El as [init ->]. cbn [mbind option_bind]. rewrite length_app in *. cbn [length] in *.
    replace (length init + 1 - 1)%nat with (length init) by lia. rewrite take_app_length.
    rewrite IH.
    + rewrite take_app_le, drop_app_le by lia. rewrite fmap_app, <- app_assoc. done.
    + lia.
    + by rewrite take_app_le in Hf by lia.
    + intros j Hj. specialize (Ht j ltac:(lia)). by rewrite take_app_le in Ht by lia.
    + lia.
Qed.

Lemma entries_lookup main i s :
  main !! i = Some s -> entries main !! i = Some (st_block s, st_cumulative_difficulty s).
Proof. intros Hs. unfold entries. by rewrite list_lookup_fmap, Hs. Qed.

Lemma main_position main i j s t :
  built main -> main !! i = Some s -> main !! j = Some t ->
  get_block_hash (st_block s) = get_block_hash (st_block t) -> i = j.
Proof.
  intros Hb%built_chain Hs%entries_lookup Ht%entries_lookup E%hash_inj.
  pose proof (chain_height _ _ _ Hb Hs) as H1. pose proof (chain_height _ _ _ Hb Ht) as H2. cbn in *. rewrite E in H1. lia.
Qed.

Lemma find_block_at main i s :
  built main -> main !! i = Some s -> find_block main (get_block_hash (st_block s)) = Some (Z.of_nat i).
Proof.
  intros Hb Hs. unfold find_block.
  assert (list_find (fun u => get_block_hash (st_block u) = get_block_hash (st_block s)) main = Some (i, s)) as ->; [|done].
  apply list_find_Some. split_and!; [done|done|]. intros j t Ht Hj E. pose proof (main_position main j i t s Hb Ht Hs E). lia.
Qed.

Lemma find_block_Some main h z :
  find_block main h = Some z -> exists i s, z = Z.of_nat i /\ main !! i = Some s /\ get_block_hash (st_block s) = h.
Proof.
  unfold find_block. intros ([i s] & Hf & ->)%fmap_Some. apply list_find_Some in Hf as (Hi & Hh & _). by exists i, s.
Qed.

(** ** The blocks aside *)

Definition work_of (data : alt_block_data_t) (b : block) : Z := bei_cumulative_difficulty (extended_info data b).

Definition alt_ok (alt : gmap hash (alt_block_data_t * block)) : Prop :=
  forall id data b, alt !! id = Some (data, b) ->
    get_block_hash b = id /\
    exists c, c <> [] /\ chain (c ++ [(b, work_of data b)]) /\ ad_height data = Z.of_nat (length c).

(** The blocks [B] lead from the hash [p] to the hash [h]. *)
Inductive segment (alt : gmap hash (alt_block_data_t * block)) (p : hash) : list block_extended_info -> hash -> Prop :=
  | segment_nil : segment alt p [] p
  | segment_snoc B h data b :
      segment alt p B (prev_id b) -> alt !! h = Some (data, b) -> segment alt p (B ++ [extended_info data b]) h.

Lemma segment_front alt p f B h : segment alt p (f :: B) h -> prev_id (bei_bl f) = p.
Proof.
  remember (f :: B) as L eqn:EL. intros Hs. revert f B EL. induction Hs as [|B' h data b Hs IH Ha]; intros f B EL; [done|].
  destruct B' as [|g B']; [|injection EL as -> _; by eapply IH].
  injection EL as <- _. cbn. by inversion Hs as [E|? ? ? ? ? ? E]; [|destruct B0].
Qed.

Lemma segment_chain alt p B h c e :
  alt_ok alt -> segment alt p B h -> chain c -> last c = Some e -> get_block_hash e.1 = p ->
  chain (c ++ alt_entries B) /\
  (exists e', last (c ++ alt_entries B) = Some e' /\ get_block_hash e'.1 = h) /\
  (forall i bei, B !! i = Some bei -> bei_height bei = Z.of_nat (length c + i)).
Proof.
  intros Hok Hs Hc Hl Hp. induction Hs as [|B h data b Hs IH Ha].
  - cbn. rewrite app_nil_r. split_and!; [done|by exists e|done].
  - destruct IH as (Hcb & (e' & Hl' & He') & Hh).
    destruct (Hok _ _ _ Ha) as (Hb & c2 & Hne & Hc2 & Hh2).
    pose proof Hc2 as Hc2'. apply chain_snoc_inv in Hc2' as [[? _]|(top & d & Hc2' & Hl2 & Hp2 & _)]; [done|]. cbn in Hp2.
    assert (c2 = c ++ alt_entries B) as -> by (apply (chain_unique _ _ top e'); congruence).
    assert (c ++ alt_entries (B ++ [extended_info data b]) = (c ++ alt_entries B) ++ [(b, work_of data b)]) as ->.
    { unfold alt_entries. rewrite fmap_app, app_assoc. done. }
    split_and!; [done| |].
    + eexists. by rewrite last_snoc.
    + intros i bei Hi. apply lookup_app_Some in Hi as [Hi|[Hge Hi]]; [by apply Hh|].
      apply list_lookup_singleton_Some in Hi as [Hz <-]. cbn. rewrite Hh2, length_app. unfold alt_entries. rewrite length_fmap. lia.
Qed.

Lemma build_loop_segment fuel alt h acc ts A ts' :
  build_loop fuel alt h acc ts = Some (A, ts') ->
  exists B p, A = B ++ acc /\ segment alt p B h /\ alt !! p = None.
Proof.
  revert h acc ts. induction fuel as [|fuel IH]; intros h acc ts E; cbn [build_loop] in E.
  - destruct (alt !! h) as [[data b]|] eqn:Ea; [done|]. injection E as <- <-. exists [], h. split_and!; [done|constructor|done].
  - destruct (alt !! h) as [[data b]|] eqn:Ea; [|injection E as <- <-; exists [], h; split_and!; [done|constructor|done]].
    apply IH in E as (B & p & -> & Hs & Hn). exists (B ++ [extended_info data b]), p.
    split_and!; [by rewrite <- app_assoc|by constructor|done].
Qed.

(** The parent of a block aside, when it is aside too, is one lower. *)
Lemma alt_parent_height alt h data b data' b' :
  alt_ok alt -> alt !! h = Some (data, b) -> alt !! prev_id b = Some (data', b') ->
  ad_height data' = ad_height data - 1.
Proof.
  intros Hok Ha Hp. destruct (Hok _ _ _ Ha) as (_ & c & Hne & Hc & ->).
  destruct (Hok _ _ _ Hp) as (Hb' & c' & _ & Hc' & ->).
  apply chain_snoc_inv in Hc as [[? _]|(top & d & Hc & Hl & Hpt & _)]; [done|]. cbn in Hpt.
  assert (c' ++ [(b', work_of data' b')] = c) as <-.
  { apply (chain_unique _ _ (b', work_of data' b') top); [done|done|by rewrite last_snoc|done|]. cbn. congruence. }
  rewrite length_app. cbn. lia.
Qed.

Lemma build_loop_total fuel alt h acc ts :
  alt_ok alt -> (forall data b, alt !! h = Some (data, b) -> ad_height data <= Z.of_nat fuel) ->
  is_Some (build_loop fuel alt h acc ts).
Proof.
  intros Hok. revert h acc ts. induction fuel as [|fuel IH]; intros h acc ts Hf; cbn [build_loop].
  - destruct (alt !! h) as [[data b]|] eqn:Ea; [|done]. exfalso. specialize (Hf _ _ eq_refl).
    destruct (Hok _ _ _ Ea) as (_ & c & Hne & _ & Hh). destruct c; [done|]. cbn in Hh. lia.
  - destruct (alt !! h) as [[data b]|] eqn:Ea; [|done]. specialize (Hf _ _ eq_refl).
    apply IH. intros data' b' Hp. rewrite (alt_parent_height alt h data b data' b') by done. lia.
Qed.

Record inv (st : chain_state) : Prop := {
  inv_main : built (m_main st);
  inv_alt : alt_ok (m_alt st) }.

(** The chain [A] of blocks aside forks from the main chain below height [k] and ends with [h]. *)
Record placed (st : chain_state) (h : hash) (A : list block_extended_info) (k : nat) : Prop := {
  placed_fork : (0 < k <= length (m_main st))%nat;
  placed_chain : chain (entries (take k (m_main st)) ++ alt_entries A);
  placed_tip : exists e, last (entries (take k (m_main st)) ++ alt_entries A) = Some e /\ get_block_hash e.1 = h;
  placed_heights i bei : A !! i = Some bei -> bei_height bei = Z.of_nat (k + i);
  placed_aside : A = [] <-> m_alt st !! h = None;
  placed_front f B s : A = f :: B -> m_main st !! (k - 1)%nat = Some s ->
    prev_id (bei_bl f) = get_block_hash (st_block s) }.

Lemma complete_total main top ts :
  0 <= top < Z.of_nat (length main) ->
  exists r ts', complete_timestamps_vector (time_records main) top ts = Some (r, ts').
Proof.
  intros Ht. unfold complete_timestamps_vector. change BLOCKCHAIN_TIMESTAMP_CHECK_WINDOW with 60.
  assert (height (time_records main) = Z.of_nat (length main)) as Eh.
  { unfold height, time_records. by rewrite length_fmap. }
  destruct (Z.leb_spec 60 (Z.of_nat (length ts))); [eauto|]. rewrite Eh, (proj2 (Z.ltb_lt top _)) by lia. cbn [negb].
  rewrite complete_loop_spec; [cbn; eauto| |rewrite Eh; lia]. cases_cmp; lia.
Qed.

Lemma take_last {A} (l : list A) k s : l !! k = Some s -> last (take (S k) l) = Some s.
Proof. intros Hs. rewrite (take_S_r l k s) by done. by rewrite last_snoc. Qed.

Lemma segment_elem alt p B h bei :
  segment alt p B h -> bei ∈ B -> exists id data b, alt !! id = Some (data, b) /\ bei = extended_info data b.
Proof.
  induction 1 as [|B h data b _ IH Ha]; [set_solver|].
  rewrite elem_of_app, list_elem_of_singleton. intros [?| ->]; [by apply IH|]. by exists h, data, b.
Qed.

Lemma alt_height_range alt id data b : alt_ok alt -> alt !! id = Some (data, b) -> 1 <= ad_height data < UINT64_MAX.
Proof.
  intros Hok Ha. destruct (Hok _ _ _ Ha) as (_ & c & Hne & Hc & ->).
  pose proof (chain_height _ (length c) (b, work_of data b) Hc) as Hh.
  rewrite lookup_app_r, Nat.sub_diag in Hh by lia. specialize (Hh eq_refl). cbn in Hh.
  pose proof (heights_fit b). assert (length c <> 0%nat) by (by destruct c). lia.
Qed.

(** The main chain up to the fork carries the blocks aside. *)
Lemma placed_at st p B h k s :
  inv st -> segment (m_alt st) p B h -> m_alt st !! p = None -> m_main st !! k = Some s ->
  get_block_hash (st_block s) = p -> placed st h B (S k).
Proof.
  intros [Hb Hok] Hs Hn Hk Hp. pose proof (lookup_lt_Some _ _ _ Hk).
  assert (built (take (S k) (m_main st))) as Hbk by (apply built_take; [done|lia]).
  pose proof (entries_last _ _ (take_last _ _ _ Hk)) as Hl.
  destruct (segment_chain _ _ _ _ _ _ Hok Hs (built_chain _ Hbk) Hl Hp) as (Hc & Ht & Hh).
  constructor; [lia|done|done| | |].
  - intros i bei Hi. rewrite (Hh i bei Hi). unfold entries. rewrite length_fmap, length_take. lia.
  - split.
    + intros ->. inversion Hs as [|B' ? ? ? ? ? E1]; [congruence|by destruct B'].
    + intros E. inversion Hs; [done|congruence].
  - intros f B' t -> Ht'. cbn in Ht'. rewrite Nat.sub_0_r in Ht'. rewrite (segment_front _ _ _ _ _ Hs). congruence.
Qed.

Local Ltac refused := eexists false, _, _; split; [done|done].

Lemma build_spec st h :
  inv st ->
  exists ok A ts, build_alt_chain st h = Some (ok, A, ts) /\ (ok = true -> exists k, placed st h A k).
Proof.
  intros Hi. pose proof Hi as [Hb Hok]. unfold build_alt_chain.
  set (fuel := match m_alt st !! h with Some _ => _ | None => _ end).
  destruct (build_loop_total fuel (m_alt st) h [] [] Hok) as [[A ts] E].
  { intros data b Ha. unfold fuel. rewrite Ha. pose proof (alt_height_range _ _ _ _ Hok Ha). lia. }
  rewrite E. cbn [mbind option_bind]. apply build_loop_segment in E as (B & p & EA & Hs & Hn). rewrite app_nil_r in EA. subst B.
  destruct A as [|front A].
  - destruct (find_block (m_main st) h) as [z|] eqn:Ef; [|refused].
    apply find_block_Some in Ef as (i & s & -> & Hi' & Hh). pose proof (lookup_lt_Some _ _ _ Hi').
    destruct (complete_total (m_main st) (Z.of_nat i) ts) as (r & ts' & ->); [lia|]. cbn [mbind option_bind].
    exists true, [], ts'. split; [done|]. intros _. exists (S i).
    assert (p = h) as Eph by (inversion Hs as [|B' ? ? ? ? ? E1]; [done|by destruct B']).
    apply (placed_at st p [] h i s); try done. congruence.
  - destruct (segment_elem _ _ _ _ front Hs ltac:(by left)) as (id & data & b & Ha & Ef).
    pose proof (alt_height_range _ _ _ _ Hok Ha) as Hr. assert (bei_height front = ad_height data) as Eh by (by subst front).
    destruct (Z.ltb_spec (bei_height front) (Z.of_nat (length (m_main st)))) as [Hlt|]; cbn [negb]; [|refused].
    destruct (find_block (m_main st) (prev_id (bei_bl front))) as [z|] eqn:Ez; [|refused].
    unfold UINT64_MAX in Hr. rewrite (wrap_small 64) by mach. unfold get_block_hash_from_height.
    destruct (lookup_lt_is_Some_2 (m_main st) (Z.to_nat (bei_height front - 1))) as [s Hs']; [lia|]. rewrite Hs'. cbn [fmap option_fmap option_map mbind option_bind].
    case_bool_decide as Hh; cbn [negb]; [|refused].
    apply find_block_Some in Ez as (i & u & -> & Hi' & _). pose proof (lookup_lt_Some _ _ _ Hi').
    destruct (complete_total (m_main st) (Z.of_nat i) ts) as (r & ts' & ->); [lia|]. cbn [mbind option_bind].
    exists true, (front :: A), ts'. split; [done|]. intros _. exists (S (Z.to_nat (bei_height front - 1))).
    apply (placed_at st p (front :: A) h _ s); try done. by rewrite Hh, (segment_front _ _ _ _ _ Hs).
Qed.

(** ** Storing a block aside *)

Lemma work_of_split bei b :
  0 <= bei_cumulative_difficulty bei < 2 ^ 128 -> work_of (alt_data bei) b = bei_cumulative_difficulty bei.
Proof.
  intros Hw. unfold work_of, extended_info, alt_data. cbn. set (w := bei_cumulative_difficulty bei) in *.
  change 0xffffffffffffffff with (Z.ones 64). rewrite !Z.land_ones by lia. rewrite Z.shiftr_div_pow2, Z.shiftl_mul_pow2 by lia.
  assert (2 ^ 128 = 2 ^ 64 * 2 ^ 64) as E by reflexivity. assert (0 < 2 ^ 64) as Hp by lia.
  pose proof (Z.div_mod w (2 ^ 64) ltac:(lia)) as Ed. pose proof (Z.mod_pos_bound w (2 ^ 64) Hp) as Em.
  assert (0 <= w / 2 ^ 64 < 2 ^ 64) as Eq by (split; [apply Z.div_pos; lia|apply Z.div_lt_upper_bound; lia]).
  rewrite (Z.mod_small (w / 2 ^ 64)) by done.
  rewrite (wrap_small 128 (w / 2 ^ 64 * 2 ^ 64)) by (unfold in_width; nia).
  rewrite wrap_small by (unfold in_width; nia). nia.
Qed.

Definition placed_entries (st : chain_state) (A : list block_extended_info) (k : nat) : list entry :=
  entries (take k (m_main st)) ++ alt_entries A.

Lemma placed_length st h A k : placed st h A k -> length (placed_entries st A k) = (k + length A)%nat.
Proof.
  intros [Hk _ _ _ _ _]. unfold placed_entries, entries, alt_entries. rewrite length_app, !length_fmap, length_take. lia.
Qed.

Lemma placed_height_fits st h A k : placed st h A k -> Z.of_nat (k + length A) <= UINT64_MAX.
Proof.
  intros Hp. pose proof (placed_length _ _ _ _ Hp) as El. destruct Hp as [Hk Hc _ _ _ _].
  destruct (lookup_lt_is_Some_2 (placed_entries st A k) (k + length A - 1)) as [e He]; [lia|].
  pose proof (chain_height _ _ _ Hc He). pose proof (heights_fit e.1). lia.
Qed.

Lemma parent_facts st b A k e :
  inv st -> placed st (prev_id b) A k -> last (placed_entries st A k) = Some e ->
  let prev := m_alt st !! prev_id b in
  prev_id b = get_block_hash e.1 /\ parent_height st prev b = Some (Z.of_nat (k + length A) - 1) /\
  parent_work st prev b = Some e.2 /\ is_Some (parent_coins st prev b).
Proof.
  intros [Hb Hok] Hp He prev. pose proof (placed_length _ _ _ _ Hp) as El. destruct Hp as [Hk Hc (e' & He' & Hh) _ Ha _].
  fold (placed_entries st A k) in Hc, He'. rewrite He' in He. injection He as ->. split; [done|].
  unfold prev. destruct (m_alt st !! prev_id b) as [[data pb]|] eqn:Ea.
  - destruct (Hok _ _ _ Ea) as (Hpb & c & _ & Hc2 & Ehh).
    assert (c ++ [(pb, work_of data pb)] = placed_entries st A k) as Ec.
    { apply (chain_unique _ _ (pb, work_of data pb) e); [done|done|by rewrite last_snoc|done|]. cbn. congruence. }
    rewrite <- Ec in He', El. rewrite last_snoc in He'. injection He' as <-. rewrite length_app in El. cbn in El.
    split_and!; cbn; [f_equal; lia|done|done].
  - assert (A = []) as -> by (by apply Ha). unfold placed_entries in He'. cbn in He'. rewrite app_nil_r in He'.
    destruct (lookup_lt_is_Some_2 (m_main st) (k - 1)) as [s Hs]; [lia|].
    pose proof (entries_last _ _ (take_last _ _ _ Hs)) as Hl. replace (S (k - 1)) with k in Hl by lia.
    rewrite Hl in He'. injection He' as <-. cbn in Hh. unfold parent_height, parent_work, parent_coins.
    rewrite <- Hh, (find_block_at (m_main st) (k - 1) s) by done. cbn [mbind option_bind]. rewrite Nat2Z.id, Hs. cbn.
    split_and!; [f_equal; lia|done|done].
Qed.

Context (no_checkpoint_ahead : forall h, 1 <= h -> m_points m_checkpoints !! h = None).

(** A block aside is refused, or stored with the chain it ends. *)
Lemma alternative_outcome push st b :
  inv st -> get_block_height b <> 0 ->
  alternative_with_parent push st b (m_alt st !! prev_id b) = Some (false, no_flags, st) \/
  exists A k bei top,
    placed st (prev_id b) A k /\ m_alt st !! get_block_hash b = None /\ bei_bl bei = b /\
    chain (placed_entries st A k ++ [(b, bei_cumulative_difficulty bei)]) /\
    last (m_main st) = Some top /\
    let st1 := {| m_main := m_main st; m_alt := <[get_block_hash b := (alt_data bei, b)]> (m_alt st);
                  m_invalid_blocks := m_invalid_blocks st |} in
    inv st1 /\
    alternative_with_parent push st b (m_alt st !! prev_id b) =
      after_stored push st1 (A ++ [bei]) false (st_cumulative_difficulty top) (bei_cumulative_difficulty bei).
Proof.
  intros Hi Hnz. pose proof Hi as [Hb Hok]. unfold alternative_with_parent.
  destruct (build_spec st (prev_id b) Hi) as (ok & A & ts & -> & Hbuild). cbn [mbind option_bind].
  destruct ok; [|by left]. cbn [negb]. destruct (Hbuild eq_refl) as [k Hp]. clear Hbuild.
  destruct (placed_tip _ _ _ _ Hp) as (e & He & _). fold (placed_entries st A k) in He.
  destruct (parent_facts st b A k e Hi Hp He) as (Hpe & Eph & Epw & [coins Epc]).
  rewrite Eph, Epw, Epc. cbn [mbind option_bind]. pose proof (placed_height_fits _ _ _ _ Hp) as Hfit.
  pose proof (placed_length _ _ _ _ Hp) as El. pose proof (placed_fork _ _ _ _ Hp) as Hk.
  unfold UINT64_MAX in Hfit. rewrite (wrap_small 64) by mach. rewrite Z.sub_add.
  unfold check_block_timestamp_window. destruct (median_total ts) as [m ->]. cbn [mbind option_bind].
  destruct (negb (timestamp b <? m)); cbn [negb]; [|by left].
  unfold check_block. rewrite no_checkpoint_ahead by lia. cbn [negb].
  rewrite (alt_difficulty_ideal (m_main st) A k) by
    (lia || (split; [done|]; destruct A; [done|]; rewrite (placed_heights _ _ _ _ Hp 0 b0 eq_refl); f_equal; lia)).
  rewrite <- entry_info_main, <- entry_info_alt. unfold entry_info. rewrite <- fmap_app.
  fold (placed_entries st A k). fold (entry_info (placed_entries st A k)).
  destruct (ideal_difficulty_total hard_fork_version m_fixed_difficulty (entry_info (placed_entries st A k))) as [d Hd].
  rewrite Hd. cbn [mbind option_bind]. destruct (Z.eqb_spec d 0) as [|Hd0]; [by left|].
  destruct (check_hash _ d); cbn [negb]; [|by left].
  destruct (Z.eqb_spec (get_block_height b) (Z.of_nat (k + length A))) as [Hh|]; cbn [andb negb]; [|by left].
  destruct (prevalidate_miner_transaction b); cbn [negb]; [|by left].
  destruct (last (m_main st)) as [top|] eqn:Etop; [|by apply last_None, built_nonempty in Etop]. cbn [mbind option_bind].
  destruct (supplement_ok b); cbn [negb]; [|by left]. case_bool_decide as Hex; [by left|]. right.
  set (bei := {| bei_bl := b; bei_height := _; bei_block_cumulative_weight := _; bei_cumulative_difficulty := _;
                 bei_already_generated_coins := _ |}).
  assert (chain (placed_entries st A k ++ [(b, bei_cumulative_difficulty bei)])) as Hc.
  { cbn. rewrite Z.add_comm. apply (chain_next _ e); try done; [apply Hp|]. by rewrite El. }
  exists A, k, bei, top. split_and!; try done; [by apply eq_None_not_Some|].
  constructor; cbn; [done|]. intros id data b' [[<- [= <- <-]]|[_ Ha]]%lookup_insert_Some; [|by apply Hok].
  split; [done|]. exists (placed_entries st A k). split_and!.
  - by eapply chain_nonempty, placed_chain.
  - rewrite work_of_split; [done|]. apply wrap_range. lia.
  - cbn. by rewrite El.
Qed.

(** ** Switching *)

Lemma remove_alt_lookup bls alt id x : remove_alt_blocks bls alt !! id = Some x -> alt !! id = Some x.
Proof.
  revert alt. induction bls as [|b bls IH]; intros alt Hx; [done|]. cbn in Hx. apply IH in Hx.
  by apply lookup_delete_Some in Hx as [_ ?].
Qed.

Lemma alt_ok_remove bls alt : alt_ok alt -> alt_ok (remove_alt_blocks bls alt).
Proof. intros Hok id data b Ha%remove_alt_lookup. by apply Hok. Qed.

Lemma push_old_spec push main olds st :
  (forall st1 old, inv st1 -> m_main st1 = main -> old ∈ olds ->
     exists st2, push st1 old = Some st2 /\ inv st2 /\ m_main st2 = main) ->
  inv st -> m_main st = main -> exists st2, push_old push st olds = Some st2 /\ inv st2 /\ m_main st2 = main.
Proof.
  revert st. induction olds as [|old olds IH]; intros st Hpush Hi Em; cbn [push_old]; [eauto|].
  destruct (Hpush st old Hi Em) as (st2 & -> & Hi2 & Em2); [by left|]. cbn [mbind option_bind].
  apply IH; [|done|done]. intros st1 o ? ? ?. apply Hpush; [done|done|by right].
Qed.

Lemma top_of_take main j s : main !! j = Some s -> top_block_hash (take (S j) main) = Some (get_block_hash (st_block s)).
Proof. intros Hs. unfold top_block_hash. by rewrite (take_last _ _ _ Hs). Qed.

Lemma switch_outcome push st f A k s :
  inv st -> (0 < k <= length (m_main st))%nat -> m_main st !! (k - 1)%nat = Some s ->
  prev_id (bei_bl f) = get_block_hash (st_block s) -> chain (placed_entries st (f :: A) k) ->
  (exists alt invalid, switch_to_alternative_blockchain push st (f :: A) false
     = Some (false, {| m_main := m_main st; m_alt := alt; m_invalid_blocks := invalid |}) /\ alt_ok alt) \/
  exists main' invalid, built main' /\ entries main' = placed_entries st (f :: A) k /\ take k main' = take k (m_main st) /\
    switch_to_alternative_blockchain push st (f :: A) false =
      (st2 ← push_old push {| m_main := main'; m_alt := m_alt st; m_invalid_blocks := invalid |}
               (st_block <$> drop k (m_main st));
       Some (true, {| m_main := m_main st2; m_alt := remove_alt_blocks (bei_bl <$> f :: A) (m_alt st2);
                      m_invalid_blocks := m_invalid_blocks st2 |})).
Proof.
  intros [Hb Hok] Hk Hs Hf Hc. unfold switch_to_alternative_blockchain, block_exists.
  rewrite Hf, (find_block_at _ _ _ Hb Hs). rewrite bool_decide_eq_true_2 by done. cbn [negb].
  rewrite (pop_loop_to _ _ _ k); [|done| | |lia].
  2: { pose proof (top_of_take _ _ _ Hs) as Et. replace (S (k - 1)) with k in Et by lia. by rewrite Et, bool_decide_eq_true_2. }
  2: { intros j Hj. destruct (lookup_lt_is_Some_2 (m_main st) (j - 1)) as [t Ht]; [lia|].
       pose proof (top_of_take _ _ _ Ht) as Et. replace (S (j - 1)) with j in Et by lia.
       rewrite Et, bool_decide_eq_false_2; [done|]. intros [= E]. pose proof (main_position _ _ _ _ _ Hb Ht Hs E). lia. }
  cbn [mbind option_bind]. rewrite app_nil_r.
  destruct (connect_chain (take k (m_main st)) (m_invalid_blocks st) (alt_entries (f :: A)))
    as (main' & invalid & refused & Ec & Hb' & Ht & Hfull & pre & Epre).
  { by apply built_take. }
  { done. }
  assert ((alt_entries (f :: A)).*1 = bei_bl <$> f :: A) as Ebl by (unfold alt_entries; by rewrite <- list_fmap_compose).
  rewrite Ebl in Ec. rewrite Ec. cbn [mbind option_bind].
  assert (length (take k (m_main st)) = k) as Elk by (rewrite length_take; lia). rewrite Elk in Ht |- *.
  destruct refused as [|bad refused].
  - right. exists main', invalid. split_and!; [done|by apply Hfull|done|]. done.
  - left. unfold rollback_blockchain_switching.
    assert (k <= length main')%nat by (rewrite <- Ht in Elk; rewrite length_take in Elk; lia).
    rewrite (proj2 (Z.ltb_ge _ _)) by lia. rewrite (pop_loop_to _ _ _ k); [|lia| | |lia].
    2: { rewrite length_take, Nat.min_l, Z.eqb_refl by lia. done. }
    2: { intros j Hj. rewrite length_take, Nat.min_l by lia. rewrite (proj2 (Z.eqb_neq _ _)) by lia. done. }
    cbn [mbind option_bind]. rewrite Ht, connect_restores by done. cbn [mbind option_bind].
    eexists _, _. split; [done|]. by apply alt_ok_remove.
Qed.

Definition work (main : list stored) : option Z := st_cumulative_difficulty <$> last main.

(** The total work of the main chain has not overflowed 128 bits. *)
Definition no_overflow (main : list stored) : Prop := Sorted Z.lt (st_cumulative_difficulty <$> main).

(** A block that has no more work behind it than the main chain stays aside. *)
Lemma stays_aside n st b top :
  inv st -> last (m_main st) = Some top ->
  (forall c w, chain (c ++ [(b, w)]) -> w <= st_cumulative_difficulty top) ->
  exists r f st', handle_alternative_block (S n) st b = Some (r, f, st') /\ inv st' /\
    m_main st' = m_main st /\ m_added_to_main_chain f = false.
Proof.
  intros Hi Hl Hw. cbn [handle_alternative_block]. set (push := fun st b => _). unfold handle_with.
  destruct (Z.eqb_spec (get_block_height b) 0) as [|Hnz]; [eauto 10|].
  destruct (is_alternative_block_allowed _ _ _); cbn [negb]; [|eauto 10].
  destruct (check_for_height b _); cbn [negb]; [|eauto 10].
  destruct (_ || _); [|eauto 10].
  destruct (alternative_outcome push st b Hi Hnz) as [->|(A & k & bei & top' & Hp & _ & _ & Hc & Hl' & Hi1 & ->)]; [eauto 10|].
  rewrite Hl in Hl'. injection Hl' as <-. unfold after_stored. specialize (Hw _ _ Hc).
  rewrite (proj2 (Z.ltb_ge _ _)) by done. eauto 10.
Qed.

Lemma lt_sorted_le l : Sorted Z.lt l -> StronglySorted Z.le l.
Proof.
  intros Hs. apply Sorted_StronglySorted; [intros x y z; lia|].
  induction Hs as [|x l _ IH Hx]; constructor; [done|]. destruct Hx; constructor. lia.
Qed.

Lemma work_below main i s top :
  no_overflow main -> main !! i = Some s -> last main = Some top -> st_cumulative_difficulty s <= st_cumulative_difficulty top.
Proof.
  intros Hs%lt_sorted_le Hi Hl. rewrite last_lookup in Hl. pose proof (lookup_lt_Some _ _ _ Hi).
  apply (sorted_lookup_le _ i (pred (length main)) _ _ Hs); [lia|..]; by rewrite list_lookup_fmap, ?Hi, ?Hl.
Qed.

(** The blocks of the main chain have the work recorded with them, also aside. *)
Lemma main_work main i s c w :
  built main -> main !! i = Some s -> chain (c ++ [(st_block s, w)]) -> w = st_cumulative_difficulty s.
Proof.
  intros Hb Hi Hc. pose proof (lookup_lt_Some _ _ _ Hi).
  assert (built (take (S i) main)) as Hbi by (apply built_take; [done|lia]).
  pose proof (entries_last _ _ (take_last _ _ _ Hi)) as Hl.
  assert (c ++ [(st_block s, w)] = entries (take (S i) main)) as E.
  { apply (chain_unique _ _ (st_block s, w) (st_block s, st_cumulative_difficulty s));
      [done|by apply built_chain|by rewrite last_snoc|done|done]. }
  rewrite <- E, last_snoc in Hl. by injection Hl.
Qed.

(** ** What becomes of a block aside *)

Definition reorganised (main main' : list stored) (b : block) : Prop :=
  exists k top top', (0 < k <= length main)%nat /\ take k main' = take k main /\
    last main = Some top /\ last main' = Some top' /\ st_block top' = b /\
    st_cumulative_difficulty top < st_cumulative_difficulty top'.

Lemma handle_alternative_spec n st b :
  inv st -> no_overflow (m_main st) ->
  exists r f st', handle_alternative_block (S (S n)) st b = Some (r, f, st') /\ inv st' /\
    (m_added_to_main_chain f = false -> m_main st' = m_main st) /\
    (m_added_to_main_chain f = true -> reorganised (m_main st) (m_main st') b).
Proof.
  intros Hi Hno. set (push := fun st b => (fun r => r.2) <$> handle_alternative_block (S n) st b).
  change (handle_alternative_block (S (S n)) st b) with (handle_with push st b). unfold handle_with.
  assert (forall (r : bool) f, m_added_to_main_chain f = false -> exists r' f' st', Some (r, f, st) = Some (r', f', st') /\ inv st' /\
    (m_added_to_main_chain f' = false -> m_main st' = m_main st) /\
    (m_added_to_main_chain f' = true -> reorganised (m_main st) (m_main st') b)) as Hsame.
  { intros r f Hf. exists r, f, st. split_and!; [done|done|done|congruence]. }
  destruct (Z.eqb_spec (get_block_height b) 0) as [|Hnz]; [by apply Hsame|].
  destruct (is_alternative_block_allowed _ _ _); cbn [negb]; [|by apply Hsame].
  destruct (check_for_height b _); cbn [negb]; [|by apply Hsame].
  destruct (_ || _); [|by apply Hsame].
  destruct (alternative_outcome push st b Hi Hnz) as [->|(A & k & bei & top & Hp & _ & Hbl & Hc & Hl & Hi1 & ->)]; [by apply Hsame|].
  clear Hsame. unfold after_stored. destruct (Z.ltb_spec (st_cumulative_difficulty top) (bei_cumulative_difficulty bei)) as [Hlt|Hge].
  2: { eexists _, _, _. split; [done|]. split; [done|]. split; [done|]. done. }
  set (st1 := {| m_main := m_main st; m_alt := _; m_invalid_blocks := _ |}) in *.
  destruct (placed_fork _ _ _ _ Hp) as [Hk0 Hk]. destruct (lookup_lt_is_Some_2 (m_main st) (k - 1)) as [s Hs]; [lia|].
  assert (placed_entries st A k ++ [(b, bei_cumulative_difficulty bei)] = placed_entries st1 (A ++ [bei]) k) as Epe.
  { unfold placed_entries, alt_entries. rewrite fmap_app, app_assoc. cbn. by rewrite Hbl. }
  rewrite Epe in Hc.
  assert (exists f B, A ++ [bei] = f :: B /\ prev_id (bei_bl f) = get_block_hash (st_block s)) as (f & B & EfB & Hf).
  { destruct A as [|f A]; [|exists f, (A ++ [bei]); split; [done|by eapply placed_front]].
    exists bei, []. split; [done|]. rewrite Hbl. destruct (placed_tip _ _ _ _ Hp) as (e & He & <-).
    cbn in He. rewrite app_nil_r in He. pose proof (entries_last _ _ (take_last _ _ _ Hs)) as Hls.
    replace (S (k - 1)) with k in Hls by lia. rewrite Hls in He. by injection He as <-. }
  rewrite EfB in Hc, Epe |- *.
  destruct (switch_outcome push st1 f B k s Hi1 (conj Hk0 Hk) Hs Hf Hc)
    as [(alt & invalid & -> & Halt)|(main' & invalid & Hb' & Ee & Htk & ->)]; cbn [mbind option_bind].
  { eexists _, _, _. split; [done|]. split; [|split; [done|done]]. constructor; [apply Hi1|done]. }
  assert (exists top', last main' = Some top' /\ st_block top' = b /\ st_cumulative_difficulty top' = bei_cumulative_difficulty bei)
    as (top' & Hl' & Hb1 & Hw1).
  { destruct (last main') as [t|] eqn:Et; [|by apply last_None, built_nonempty in Et]. exists t. split; [done|].
    apply entries_last in Et. rewrite Ee, <- Epe, last_snoc in Et. by injection Et as -> ->. }
  destruct (push_old_spec push main' (st_block <$> drop k (m_main st1))
    {| m_main := main'; m_alt := m_alt st1; m_invalid_blocks := invalid |})
    as (st2 & Hpush & Hi2 & Em2).
  - intros st0 old Hi0 Em0 Hold. apply list_elem_of_fmap in Hold as (u & -> & Hu).
    apply list_elem_of_lookup in Hu as [i Hu]. rewrite lookup_drop in Hu.
    destruct (stays_aside n st0 (st_block u) top' Hi0) as (r & f0 & st' & Eh & Hi' & Em' & _); [by rewrite Em0| |].
    { intros c w Hcw. rewrite (main_work (m_main st) (k + i) u c w) by (done || apply Hi).
      pose proof (work_below _ _ _ _ Hno Hu Hl). lia. }
    exists st'. unfold push. rewrite Eh. cbn. split_and!; [done|done|congruence].
  - constructor; [done|apply Hi1].
  - done.
  - rewrite Hpush. cbn [mbind option_bind]. eexists _, _, _. split; [done|]. split; [|split; [done|]].
    + destruct Hi2 as [Hb2 Ha2]. constructor; [done|exact (alt_ok_remove _ _ Ha2)].
    + intros _. cbn. rewrite Em2. exists k, top, top'. split_and!; [lia|done|done|done|done|done|lia].
Qed.

(** ** The life of the chain *)

Inductive reachable : chain_state -> Prop :=
  | reachable_start : reachable {| m_main := [genesis]; m_alt := ∅; m_invalid_blocks := ∅ |}
  | reachable_flush st : reachable st -> reachable (flush_invalid_blocks st)
  | reachable_add st b r f st' :
      reachable st -> no_overflow (m_main st) -> add_new_block st b = Some (r, f, st') -> reachable st'.

Lemma handle_main_outcome main invalid bl :
  built main ->
  exists r main' invalid', handle_block_to_main_chain main invalid bl = Some (r, main', invalid') /\
    (r = false -> main' = main) /\ (r = true -> exists s, main' = main ++ [s] /\ st_block s = bl).
Proof.
  intros Hb. destruct (handle_block_to_main_chain main invalid bl) as [[[r main'] invalid']|] eqn:E.
  - exists r, main', invalid'. split; [done|]. split; intros ->.
    + unfold handle_block_to_main_chain in E. apply bind_Some in E as (top & _ & E). case_match; [by simplify_eq|].
      apply bind_Some in E as (d & _ & E). by repeat case_match; simplify_eq.
    + apply handle_added in E as (top & d & _ & _ & _ & _ & _ & _ & ->). eauto.
  - exfalso. unfold handle_block_to_main_chain in E.
    destruct (last main) as [top|] eqn:Et; [|by apply last_None, built_nonempty in Et]. cbn [mbind option_bind] in E.
    case_match; [done|]. destruct (ideal_difficulty_total hard_fork_version m_fixed_difficulty (main_info main)) as [d Hd].
    rewrite Hd in E. cbn [mbind option_bind] in E. by repeat case_match.
Qed.

Lemma add_new_block_outcome st b :
  inv st -> no_overflow (m_main st) ->
  exists r f st', add_new_block st b = Some (r, f, st') /\ inv st' /\
    (m_added_to_main_chain f = false -> m_main st' = m_main st) /\
    (m_added_to_main_chain f = true ->
       (exists s, m_main st' = m_main st ++ [s] /\ st_block s = b) \/ reorganised (m_main st) (m_main st') b).
Proof.
  intros Hi Hno. unfold add_new_block. destruct (have_block st _); [by eexists _, _, _|].
  unfold top_block_hash. destruct (last (m_main st)) as [top|] eqn:Et; [|apply last_None, built_nonempty in Et; [done|apply Hi]].
  cbn [fmap option_fmap option_map mbind option_bind]. case_bool_decide as Hp; cbn [negb].
  - destruct (handle_main_outcome (m_main st) (m_invalid_blocks st) b) as (r & main' & invalid & E & Hf & Ht); [apply Hi|]. rewrite E. cbn [mbind option_bind].
    exists r. eexists _, _. split; [done|]. destruct r; cbn.
    + destruct (Ht eq_refl) as (s & -> & Hs). split; [constructor; [by eapply built_next, E; apply Hi|apply Hi]|]. eauto.
    + rewrite (Hf eq_refl). split; [constructor; apply Hi|done].
  - destruct (handle_alternative_spec 0 st b Hi Hno) as (r & f & st' & E & Hi' & Hsame & Hre). rewrite E.
    exists r, f, st'. split_and!; auto.
Qed.

Lemma chain_state_inv st : reachable st -> inv st.
Proof.
  induction 1 as [|st _ IH|st b r f st' _ IH Hno E].
  - constructor; cbn; [constructor|]. intros id data b Ha. by rewrite lookup_empty in Ha.
  - constructor; apply IH.
  - destruct (add_new_block_outcome st b IH Hno) as (? & ? & ? & E' & ? & _). congruence.
Qed.

(** C2: The node follows the work. Whatever block it is given, at the top of its chain, aside of it
    or out of nowhere, the call returns; a block that is not reported as added leaves the main chain
    exactly as it was, also when a switch to another chain was begun and one of its blocks was
    refused; and a block that is reported as added is the new top, either of the old chain with one
    block more, or of a chain that shares the old one's beginning and has strictly more work. The
    chain has no checkpoint but the first block and its work has not overflowed; the fork table
    decides by height, so that blocks aside and on the main chain have the same target time;
    different blocks have different hashes, and the checks of a block for the main chain give one
    answer for one chain, whatever happened in between to the pool and the clock. *)
Theorem most_work (st : chain_state) (b : block) :
  reachable st -> no_overflow (m_main st) ->
  exists r f st', add_new_block st b = Some (r, f, st') /\
    (m_added_to_main_chain f = false -> m_main st' = m_main st) /\
    (m_added_to_main_chain f = true ->
       (exists s, m_main st' = m_main st ++ [s] /\ st_block s = b) \/
       exists k top top', (0 < k <= length (m_main st))%nat /\ take k (m_main st') = take k (m_main st) /\
         last (m_main st) = Some top /\ last (m_main st') = Some top' /\ st_block top' = b /\
         st_cumulative_difficulty top < st_cumulative_difficulty top').
Proof.
  intros Hr Hno. destruct (add_new_block_outcome st b (chain_state_inv st Hr) Hno) as (r & f & st' & E & _ & H1 & H2).
  exists r, f, st'. split_and!; auto.
Qed.

(** ** The seed of the proof of work *)

Lemma land_le a b : 0 <= a -> Z.land a b <= a.
Proof.
  intros Ha. apply (Z.ldiff_le (Z.land a b) a Ha). apply Z.bits_inj'. intros n _.
  rewrite Z.ldiff_spec, Z.land_spec, Z.bits_0. by destruct (Z.testbit a n), (Z.testbit b n).
Qed.

Lemma rx_seedheight_range n : 1 <= n < 2 ^ 64 -> 0 <= rx_seedheight n /\ (rx_seedheight n = 0 \/ rx_seedheight n <= n - 65).
Proof.
  intros Hn. unfold rx_seedheight, SEEDHASH_EPOCH_BLOCKS, SEEDHASH_EPOCH_LAG.
  destruct (Z.leb_spec n (2048 + 64)); [lia|]. rewrite (wrap_small 64 (n - 64)) by mach. rewrite (wrap_small 64 (n - 64 - 1)) by mach.
  split; [apply Z.land_nonneg; lia|]. right. transitivity (n - 64 - 1); [|lia]. apply land_le. lia.
Qed.

Lemma chain_link c i e e' : chain c -> c !! i = Some e -> c !! S i = Some e' -> prev_id e'.1 = get_block_hash e.1.
Proof.
  induction 1 as [|c top b d Hc IH Hl Hp _ _ _]; intros Hi Hj; [destruct i; done|].
  pose proof (lookup_lt_Some _ _ _ Hj) as Hlt. rewrite length_app in Hlt. cbn in Hlt.
  rewrite lookup_app_l in Hi by lia. apply lookup_app_Some in Hj as [Hj|[Hge Hj]]; [by apply IH|].
  apply list_lookup_singleton_Some in Hj as [Hz <-]. cbn. rewrite last_lookup in Hl.
  replace (pred (length c)) with i in Hl by lia. congruence.
Qed.

Lemma placed_seed st h A k :
  placed st h A k ->
  exists e, placed_entries st A k !! Z.to_nat (rx_seedheight (Z.of_nat (k + length A))) = Some e /\
    alt_seedhash (m_main st) A (Z.of_nat (k + length A)) = get_block_hash e.1.
Proof.
  intros Hp. pose proof (placed_length _ _ _ _ Hp) as El. pose proof (placed_height_fits _ _ _ _ Hp) as Hfit.
  destruct (placed_fork _ _ _ _ Hp) as [Hk0 Hk]. unfold UINT64_MAX in Hfit.
  set (n := Z.of_nat (k + length A)) in *. destruct (rx_seedheight_range n) as [H0 Hle]; [lia|].
  unfold alt_seedhash. set (sh := rx_seedheight n) in *. clearbody sh.
  destruct (lookup_lt_is_Some_2 (placed_entries st A k) (Z.to_nat sh)) as [e He]; [lia|]. exists e. split; [done|].
  assert (match A with [] => false | front :: _ => bei_height front <=? sh end = true -> (Z.of_nat k <= sh)%Z) as Hfront.
  { destruct A as [|f A]; [done|]. rewrite (placed_heights _ _ _ _ Hp 0 f eq_refl), Z.leb_le. lia. }
  assert (match A with [] => false | front :: _ => bei_height front <=? sh end = false -> (Z.to_nat sh < k)%nat) as Hmain.
  { destruct A as [|f A]; [unfold n in *; cbn in *; lia|]. rewrite (placed_heights _ _ _ _ Hp 0 f eq_refl), Z.leb_gt. lia. }
  destruct (match A with [] => false | front :: _ => bei_height front <=? sh end).
  - specialize (Hfront eq_refl). set (i := (S (Z.to_nat sh) - k)%nat).
    destruct (lookup_lt_is_Some_2 A i) as [bei Hbei]; [lia|].
    rewrite (wrap_small 64) by mach. destruct (List.find _ A) as [it|] eqn:Ef.
    + apply List.find_some in Ef as [Hin Hh%Z.eqb_eq]. apply list_elem_of_In, list_elem_of_lookup in Hin as [j Hj].
      pose proof (placed_heights _ _ _ _ Hp j it Hj) as Hhj. assert (j = i) as -> by lia.
      rewrite Hbei in Hj. injection Hj as <-.
      apply (chain_link _ _ _ (bei_bl bei, bei_cumulative_difficulty bei) (placed_chain _ _ _ _ Hp) He).
      unfold placed_entries in *. rewrite lookup_app_r by (unfold entries; rewrite length_fmap, length_take; lia).
      unfold entries, alt_entries. rewrite list_lookup_fmap, length_fmap, length_take, Nat.min_l by lia.
      replace (S (Z.to_nat sh) - k)%nat with i by lia. by rewrite Hbei.
    + exfalso. pose proof (List.find_none _ _ Ef bei) as Hno. cbn in Hno. rewrite (placed_heights _ _ _ _ Hp i bei Hbei) in Hno.
      rewrite (proj2 (Z.eqb_eq _ _)) in Hno by lia. discriminate Hno. apply list_elem_of_In. by eapply list_elem_of_lookup_2.
  - specialize (Hmain eq_refl). unfold placed_entries in He.
    rewrite lookup_app_l in He by (unfold entries; rewrite length_fmap, length_take; lia).
    unfold entries in He. rewrite list_lookup_fmap, lookup_take_lt in He by lia.
    unfold get_block_hash_from_height. destruct (m_main st !! Z.to_nat sh); [|done]. cbn in He. by injection He as <-.
Qed.

(** C3: The place of a block aside. When the chain of its parent has been found, that chain and the
    main chain below the fork are one chain in which every block follows the one before at its
    height and with its work; the difficulty asked of the new block is the one the main chain would
    ask at that place, and the seed of its proof of work is the hash of the block of that chain at
    the height of the seed. This holds while the fork table decides by height, so that the two rules
    agree on the target time (FIXME in the code; under a vote they need not), the only checkpoint is
    the first block, the work of the main chain has not overflowed, different blocks have different
    hashes and heights fit in 64 bits. It is about difficulty and seed only: timestamps and coins of
    blocks aside follow rules of their own. *)
Theorem alternative_as_main (st : chain_state) (h : hash) (A : list block_extended_info) (ts : list Z) :
  reachable st -> build_alt_chain st h = Some (true, A, ts) ->
  exists k, (0 < k <= length (m_main st))%nat /\
    let c := entries (take k (m_main st)) ++ alt_entries A in
    let height := Z.of_nat (length c) in
    chain c /\ (exists e, last c = Some e /\ get_block_hash e.1 = h) /\
    get_next_difficulty_for_alternative_chain (m_main st) A height =
      ideal_difficulty hard_fork_version m_fixed_difficulty (entry_info c) /\
    exists e, c !! Z.to_nat (rx_seedheight height) = Some e /\
      alt_seedhash (m_main st) A height = get_block_hash e.1.
Proof.
  intros Hr%chain_state_inv E. destruct (build_spec st h Hr) as (ok & A' & ts' & E' & Hk). rewrite E in E'.
  injection E' as <- <- <-. destruct (Hk eq_refl) as [k Hp]. exists k. pose proof (placed_length _ _ _ _ Hp) as El.
  unfold placed_entries in El. cbv zeta. rewrite El. split_and!; [apply Hp..| |by apply (placed_seed st h)].
  rewrite (alt_difficulty_ideal (m_main st) A k).
  - f_equal. unfold entry_info. rewrite fmap_app. fold (entry_info (entries (take k (m_main st)))). fold (entry_info (alt_entries A)).
    by rewrite entry_info_main, entry_info_alt.
  - apply Hp.
  - split; [done|]. destruct A as [|f A]; [done|]. rewrite (placed_heights _ _ _ _ Hp 0 f eq_refl). f_equal. lia.
Qed.

(** ** The timestamps on an alternative chain *)

Lemma build_loop_times fuel alt h acc ts A ts' :
  build_loop fuel alt h acc ts = Some (A, ts') ->
  exists B, A = B ++ acc /\ ts' = ts ++ reverse ((fun b => timestamp (bei_bl b)) <$> B).
Proof.
  revert h acc ts. induction fuel as [|fuel IH]; intros h acc ts E; cbn [build_loop] in E;
    destruct (alt !! h) as [[data b]|] eqn:Ea; try done.
  1, 3: injection E as <- <-; exists []; by rewrite app_nil_r.
  apply IH in E as (B & -> & ->). exists (B ++ [extended_info data b]). split; [by rewrite <- app_assoc|].
  rewrite fmap_app, reverse_app. cbn. by rewrite <- app_assoc.
Qed.

(** The median that a block aside must not precede is taken over the timestamps of all the
    alternative blocks below it, however many, newest first; only when they are fewer than 60 does
    the main chain below the fork complete them to 60, and never with the first block. *)
Theorem alternative_timestamps (st : chain_state) (h : hash) (A : list block_extended_info) (ts : list Z) :
  reachable st -> build_alt_chain st h = Some (true, A, ts) ->
  exists fork, 0 <= fork < Z.of_nat (length (m_main st)) /\
    let n := Z.to_nat (Z.min fork (60 - Z.of_nat (length A))) in
    ts = reverse ((fun b => timestamp (bei_bl b)) <$> A) ++
         reverse ((fun s => timestamp (st_block s)) <$> take n (drop (Z.to_nat (fork + 1) - n) (m_main st))).
Proof.
  intros Hr%chain_state_inv E. unfold build_alt_chain in E. apply bind_Some in E as ([A' ts0] & Eb & E).
  apply build_loop_times in Eb as (B & EB & Ets). rewrite app_nil_r in EB. subst B.
  set (times := reverse ((fun b => timestamp (bei_bl b)) <$> A')) in *. cbn [app] in Ets. subst ts0.
  assert (length times = length A') as El by (unfold times; by rewrite length_reverse, length_fmap).
  assert (exists z fork r, find_block (m_main st) z = Some fork /\ A' = A /\
    complete_timestamps_vector (time_records (m_main st)) fork times = Some (r, ts)) as (z & fork & r & Ez & <- & Ect).
  { destruct A' as [|front A']; [|case_match; [done|]]; case_match eqn:Ef; try done.
    - apply bind_Some in E as ([r t] & Ect & [= -> ->]). eauto 6.
    - apply bind_Some in E as (hh & _ & E). case_match; [done|]. apply bind_Some in E as ([r t] & Ect & [= -> ->]). eauto 6. }
  apply find_block_Some in Ez as (i & s & -> & Hi & _). pose proof (lookup_lt_Some _ _ _ Hi).
  exists (Z.of_nat i). split; [lia|]. cbv zeta. rewrite <- El.
  unfold complete_timestamps_vector in Ect. change BLOCKCHAIN_TIMESTAMP_CHECK_WINDOW with 60 in Ect.
  assert (height (time_records (m_main st)) = Z.of_nat (length (m_main st))) as Eh.
  { unfold height, time_records. by rewrite length_fmap. }
  destruct (Z.leb_spec 60 (Z.of_nat (length times))) as [Hge|Hlt].
  - injection Ect as <- <-. rewrite Z2Nat.nonpos, take_0 by lia. by rewrite app_nil_r.
  - rewrite Eh, (proj2 (Z.ltb_lt (Z.of_nat i) _)) in Ect by lia. cbn [negb] in Ect.
    set (need := 60 - Z.of_nat (length times)) in *.
    assert (Z.of_nat i - (if need <? Z.of_nat i then Z.of_nat i - need else 0) = Z.min (Z.of_nat i) need) as Em by (cases_cmp; lia).
    rewrite Em, complete_loop_spec in Ect by lia. injection Ect as _ <-. f_equal. f_equal.
    unfold time_records. rewrite <- fmap_drop, <- fmap_take, <- list_fmap_compose.
    set (n := Z.to_nat (Z.min (Z.of_nat i) need)).
    by replace (Z.to_nat (Z.of_nat i + 1 - Z.of_nat n)) with (Z.to_nat (Z.of_nat i + 1) - n)%nat by lia.
Qed.

End AltChains.

(** ** A chain that is overtaken

    A block is the list of the timestamps up to it and its own hash. *)

Definition demo_height (b : list Z) : Z := Z.min (Z.of_nat (length b - 1)) (UINT64_MAX - 1).
Definition demo_time (b : list Z) : Z := match b with t :: _ => t | [] => 0 end.
Definition demo_genesis : stored :=
  {| st_block := [0]; st_cumulative_difficulty := 1; st_already_generated_coins := 0 |}.

Notation demo theorem :=
  (theorem id (@tail Z) demo_time demo_height (fun _ => 0) (fun _ => 0) (fun _ _ => null_hash)
     (fun _ _ => null_hash) (fun _ => 2) (fun _ _ => true) (fun _ => true) (fun _ => true) (fun _ => 0)
     no_checkpoints 0 (fun _ _ => Passed) (fun _ _ => 0) (fun _ => 2)) (only parsing).

Definition demo_add (st : chain_state) (b : list Z) : chain_state :=
  match demo (@add_new_block (list Z)) st b with Some (_, _, st') => st' | None => st end.
Definition demo_fork : chain_state :=
  demo_add (demo_add {| m_main := [demo_genesis]; m_alt := ∅; m_invalid_blocks := ∅ |} [10; 0]) [11; 0].

Lemma demo_add_reachable st b :
  demo (@reachable (list Z)) demo_genesis st -> no_overflow (m_main st) ->
  is_Some (demo (@add_new_block (list Z)) st b) -> demo (@reachable (list Z)) demo_genesis (demo_add st b).
Proof.
  intros Hr Hn [[[r f] st'] E]. unfold demo_add. rewrite E. by eapply reachable_add.
Qed.

Lemma demo_fork_reachable : demo (@reachable (list Z)) demo_genesis demo_fork.
Proof.
  apply demo_add_reachable; [apply demo_add_reachable; [apply reachable_start|..]|..];
    try (vm_compute; by eexists); unfold no_overflow; vm_compute; repeat constructor.
Qed.

Lemma demo_heights_fit b : 0 <= demo_height b < UINT64_MAX.
Proof. unfold demo_height, UINT64_MAX. lia. Qed.

Lemma most_work_witness :
  exists r f st', demo (@add_new_block (list Z)) demo_fork [20; 11; 0] = Some (r, f, st') /\
    (m_added_to_main_chain f = false -> m_main st' = m_main demo_fork) /\
    (m_added_to_main_chain f = true ->
       (exists s, m_main st' = m_main demo_fork ++ [s] /\ st_block s = [20; 11; 0]) \/
       exists k top top', (0 < k <= length (m_main demo_fork))%nat /\ take k (m_main st') = take k (m_main demo_fork) /\
         last (m_main demo_fork) = Some top /\ last (m_main st') = Some top' /\ st_block top' = [20; 11; 0] /\
         st_cumulative_difficulty top < st_cumulative_difficulty top').
Proof.
  apply (demo (@most_work (list Z)) ltac:(done) demo_genesis eq_refl ltac:(done) demo_heights_fit ltac:(done)).
  - exact demo_fork_reachable.
  - unfold no_overflow. vm_compute. repeat constructor.
Defined.

Lemma alternative_as_main_witness :
  exists A ts k, build_alt_chain id (@tail Z) demo_time demo_fork [11; 0] = Some (true, A, ts) /\
    length A = 1%nat /\ (0 < k <= length (m_main demo_fork))%nat.
Proof.
  destruct (build_alt_chain id (@tail Z) demo_time demo_fork [11; 0]) as [[[ok A] ts]|] eqn:E; [|vm_compute in E; discriminate E].
  assert (ok = true /\ length A = 1%nat) as [-> HA] by (vm_compute in E; by injection E as <- <- <-).
  destruct (demo (@alternative_as_main (list Z)) ltac:(done) demo_genesis eq_refl ltac:(done) demo_heights_fit ltac:(done)
    demo_fork [11; 0] A ts demo_fork_reachable E) as (k & Hk & _).
  exists A, ts, k. done.
Defined.

Lemma alternative_timestamps_witness :
  exists A ts fork, build_alt_chain id (@tail Z) demo_time demo_fork [11; 0] = Some (true, A, ts) /\
    0 <= fork < Z.of_nat (length (m_main demo_fork)).
Proof.
  destruct (build_alt_chain id (@tail Z) demo_time demo_fork [11; 0]) as [[[ok A] ts]|] eqn:E; [|vm_compute in E; discriminate E].
  assert (ok = true) as -> by (vm_compute in E; by injection E as <- <- <-).
  destruct (demo (@alternative_timestamps (list Z)) ltac:(done) demo_genesis eq_refl ltac:(done) demo_heights_fit ltac:(done)
    demo_fork [11; 0] A ts demo_fork_reachable E) as (fork & Hf & _).
  exists A, ts, fork. done.
Defined.
