(* ===== verification/TxPool.v ===== *)
(** * The transaction pool: core/src/cryptonote_core/tx_pool.cpp

    Transactions wait in a table of the database; beside it the pool keeps in memory which
    of them spend which key image, their order by fee, their total weight and those that
    timed out. What is read of a transaction is an argument, as are the rate of a fee (a
    double) with its order, and the outcome of the checks of other parts. Transactions have
    only inputs that spend a key image: the others are refused before. The caches of parsed
    transactions and of checked inputs, and the lists for clients that ask for changes, are
    left out but for [m_added_txs_by_id], which the pool itself reads. *)

From Stdlib Require Import Sorted.
From S2P Require Import Prelude.

(** ** How a transaction came and went: core/src/cryptonote_protocol/enums.h *)

Inductive relay_method := Rnone | Rlocal | Rforward | Rstem | Rfluff | Rblock.
#[global] Instance relay_method_eq_dec : EqDecision relay_method.
Proof. solve_decision. Defined.

Definition relay_value (m : relay_method) : Z :=
  match m with Rnone => 0 | Rlocal => 1 | Rforward => 2 | Rstem => 3 | Rfluff => 4 | Rblock => 5 end.

Inductive relay_category := Cbroadcasted | Crelayable | Clegacy | Call.

Definition matches_category (method : relay_method) (category : relay_category) : bool :=
  match category with
  | Call => true
  | Crelayable => negb (bool_decide (method = Rnone))
  | Cbroadcasted | Clegacy =>
      match method with
      | Rlocal | Rforward | Rstem => false
      | Rblock | Rfluff => true
      | Rnone => match category with Clegacy => true | _ => false end
      end
  end.

Definition DEFAULT_TXPOOL_MAX_WEIGHT : Z := 648000000.
Definition CRYPTONOTE_MEMPOOL_TX_LIVETIME : Z := 86400 * 3.
Definition CRYPTONOTE_MEMPOOL_TX_FROM_ALT_BLOCK_LIVETIME : Z := 604800.
Definition MAX_TX_EXTRA_SIZE : Z := 1060.

(** [time_t] of an unsigned number *)
Definition to_time_t (x : Z) : Z := let x := u64 x in if x <? 2 ^ 63 then x else x - 2 ^ 64.
Definition TIME_T_MAX : Z := 2 ^ 63 - 1.
Definition MIN_RELAY_TIME : Z := 60 * 5.
Definition MAX_RELAY_TIME : Z := 60 * 60 * 4.
Definition max_relayable_check : Z := 2 * 60.

(** The division of the language rounds towards zero. *)
Definition get_relay_delay (last_relay received : Z) : Z :=
  let d := Z.quot (last_relay - received + MIN_RELAY_TIME) MIN_RELAY_TIME * MIN_RELAY_TIME in
  u64 (if MAX_RELAY_TIME <? d then MAX_RELAY_TIME else d).

Section Pool.
Context {hash key_image transaction rate : Type} `{Countable hash} `{Countable key_image}.
Context (null_hash : hash) (tx_hash : transaction -> hash) (vin : transaction -> list key_image).
Context (get_transaction_weight get_tx_fee unlock_time extra_size : transaction -> Z) (tx_pruned : transaction -> bool).
(** [fee / (double)weight], and [>] of such numbers *)
Context (fee_rate : Z -> Z -> rate) (rate_gt : rate -> rate -> bool).

Record txpool_tx_meta_t := {
  max_used_block_id : hash;
  last_failed_id : hash;
  weight : Z;
  fee : Z;
  max_used_block_height : Z;
  last_failed_height : Z;
  receive_time : Z;
  last_relayed_time : Z;
  kept_by_block : bool;
  relayed : bool;
  do_not_relay : bool;
  double_spend_seen : bool;
  pruned : bool;
  is_local : bool;
  dandelionpp_stem : bool;
  is_forwarding : bool }.

Definition set_relay_method (m : txpool_tx_meta_t) (method : relay_method) : txpool_tx_meta_t :=
  {| max_used_block_id := max_used_block_id m; last_failed_id := last_failed_id m; weight := weight m; fee := fee m;
     max_used_block_height := max_used_block_height m; last_failed_height := last_failed_height m;
     receive_time := receive_time m; last_relayed_time := last_relayed_time m;
     kept_by_block := bool_decide (method = Rblock); relayed := relayed m;
     do_not_relay := bool_decide (method = Rnone); double_spend_seen := double_spend_seen m; pruned := pruned m;
     is_local := bool_decide (method = Rlocal); dandelionpp_stem := bool_decide (method = Rstem);
     is_forwarding := bool_decide (method = Rforward) |}.

Definition get_relay_method (m : txpool_tx_meta_t) : relay_method :=
  let bit (b : bool) := if b then 1 else 0 in
  let state := bit (kept_by_block m) + Z.shiftl (bit (do_not_relay m)) 1 + Z.shiftl (bit (is_local m)) 2
               + Z.shiftl (bit (is_forwarding m)) 3 + Z.shiftl (bit (dandelionpp_stem m)) 4 in
  if state =? 1 then Rblock else if state =? 2 then Rnone else if state =? 4 then Rlocal
  else if state =? 8 then Rforward else if state =? 16 then Rstem else Rfluff.

(** The result and the new value *)
Definition upgrade_relay_method (m : txpool_tx_meta_t) (method : relay_method) : bool * txpool_tx_meta_t :=
  if relay_value (get_relay_method m) <? relay_value method then (true, set_relay_method m method) else (false, m).

Definition matches (m : txpool_tx_meta_t) (category : relay_category) : bool := matches_category (get_relay_method m) category.

Definition with_double_spend (m : txpool_tx_meta_t) : txpool_tx_meta_t :=
  {| max_used_block_id := max_used_block_id m; last_failed_id := last_failed_id m; weight := weight m; fee := fee m;
     max_used_block_height := max_used_block_height m; last_failed_height := last_failed_height m;
     receive_time := receive_time m; last_relayed_time := last_relayed_time m; kept_by_block := kept_by_block m;
     relayed := relayed m; do_not_relay := do_not_relay m; double_spend_seen := true; pruned := pruned m;
     is_local := is_local m; dandelionpp_stem := dandelionpp_stem m; is_forwarding := is_forwarding m |}.
Definition with_relayed (m : txpool_tx_meta_t) (time : Z) : txpool_tx_meta_t :=
  {| max_used_block_id := max_used_block_id m; last_failed_id := last_failed_id m; weight := weight m; fee := fee m;
     max_used_block_height := max_used_block_height m; last_failed_height := last_failed_height m;
     receive_time := receive_time m; last_relayed_time := time; kept_by_block := kept_by_block m;
     relayed := true; do_not_relay := do_not_relay m; double_spend_seen := double_spend_seen m; pruned := pruned m;
     is_local := is_local m; dandelionpp_stem := dandelionpp_stem m; is_forwarding := is_forwarding m |}.
Definition with_relay_time (m : txpool_tx_meta_t) (time : Z) : txpool_tx_meta_t :=
  {| max_used_block_id := max_used_block_id m; last_failed_id := last_failed_id m; weight := weight m; fee := fee m;
     max_used_block_height := max_used_block_height m; last_failed_height := last_failed_height m;
     receive_time := receive_time m; last_relayed_time := time; kept_by_block := kept_by_block m;
     relayed := relayed m; do_not_relay := do_not_relay m; double_spend_seen := double_spend_seen m; pruned := pruned m;
     is_local := is_local m; dandelionpp_stem := dandelionpp_stem m; is_forwarding := is_forwarding m |}.

(** ** The pool *)

Record tx_memory_pool := {
  (** The table of the database *)
  txpool : gmap hash (txpool_tx_meta_t * transaction);
  m_spent_key_images : gmap key_image (gset hash);
  m_txs_by_fee_and_receive_time : list (rate * Z * hash);
  m_added_txs_by_id : gmap hash Z;
  m_timed_out_transactions : gset hash;
  m_txpool_weight : Z;
  m_txpool_max_weight : Z;
  m_next_check : Z }.

Definition with_txpool (p : tx_memory_pool) (t : gmap hash (txpool_tx_meta_t * transaction)) : tx_memory_pool :=
  {| txpool := t; m_spent_key_images := m_spent_key_images p;
     m_txs_by_fee_and_receive_time := m_txs_by_fee_and_receive_time p; m_added_txs_by_id := m_added_txs_by_id p;
     m_timed_out_transactions := m_timed_out_transactions p; m_txpool_weight := m_txpool_weight p;
     m_txpool_max_weight := m_txpool_max_weight p; m_next_check := m_next_check p |}.
Definition with_images (p : tx_memory_pool) (s : gmap key_image (gset hash)) : tx_memory_pool :=
  {| txpool := txpool p; m_spent_key_images := s;
     m_txs_by_fee_and_receive_time := m_txs_by_fee_and_receive_time p; m_added_txs_by_id := m_added_txs_by_id p;
     m_timed_out_transactions := m_timed_out_transactions p; m_txpool_weight := m_txpool_weight p;
     m_txpool_max_weight := m_txpool_max_weight p; m_next_check := m_next_check p |}.
Definition with_lists (p : tx_memory_pool) (l : list (rate * Z * hash)) (a : gmap hash Z) : tx_memory_pool :=
  {| txpool := txpool p; m_spent_key_images := m_spent_key_images p;
     m_txs_by_fee_and_receive_time := l; m_added_txs_by_id := a;
     m_timed_out_transactions := m_timed_out_transactions p; m_txpool_weight := m_txpool_weight p;
     m_txpool_max_weight := m_txpool_max_weight p; m_next_check := m_next_check p |}.
Definition with_timed_out (p : tx_memory_pool) (s : gset hash) : tx_memory_pool :=
  {| txpool := txpool p; m_spent_key_images := m_spent_key_images p;
     m_txs_by_fee_and_receive_time := m_txs_by_fee_and_receive_time p; m_added_txs_by_id := m_added_txs_by_id p;
     m_timed_out_transactions := s; m_txpool_weight := m_txpool_weight p;
     m_txpool_max_weight := m_txpool_max_weight p; m_next_check := m_next_check p |}.
Definition with_weight (p : tx_memory_pool) (w : Z) : tx_memory_pool :=
  {| txpool := txpool p; m_spent_key_images := m_spent_key_images p;
     m_txs_by_fee_and_receive_time := m_txs_by_fee_and_receive_time p; m_added_txs_by_id := m_added_txs_by_id p;
     m_timed_out_transactions := m_timed_out_transactions p; m_txpool_weight := w;
     m_txpool_max_weight := m_txpool_max_weight p; m_next_check := m_next_check p |}.

Definition with_next_check (p : tx_memory_pool) (time : Z) : tx_memory_pool :=
  {| txpool := txpool p; m_spent_key_images := m_spent_key_images p;
     m_txs_by_fee_and_receive_time := m_txs_by_fee_and_receive_time p; m_added_txs_by_id := m_added_txs_by_id p;
     m_timed_out_transactions := m_timed_out_transactions p; m_txpool_weight := m_txpool_weight p;
     m_txpool_max_weight := m_txpool_max_weight p; m_next_check := time |}.
Definition set_txpool_max_weight (p : tx_memory_pool) (bytes : Z) : tx_memory_pool :=
  {| txpool := txpool p; m_spent_key_images := m_spent_key_images p;
     m_txs_by_fee_and_receive_time := m_txs_by_fee_and_receive_time p; m_added_txs_by_id := m_added_txs_by_id p;
     m_timed_out_transactions := m_timed_out_transactions p; m_txpool_weight := m_txpool_weight p;
     m_txpool_max_weight := bytes; m_next_check := m_next_check p |}.
Definition set_if_less (p : tx_memory_pool) (candidate : Z) : tx_memory_pool :=
  if candidate <? m_next_check p then with_next_check p candidate else p.

Definition get_txpool_tx_meta (p : tx_memory_pool) (id : hash) : option txpool_tx_meta_t := fst <$> txpool p !! id.

Definition txpool_tx_matches_category (p : tx_memory_pool) (id : hash) (category : relay_category) : bool :=
  match get_txpool_tx_meta p id with Some meta => matches meta category | None => false end.

(** ** Key images *)

Definition have_tx_keyimg_as_spent (p : tx_memory_pool) (key_im : key_image) (txid : hash) : bool :=
  match m_spent_key_images p !! key_im with
  | Some found =>
      if bool_decide (found = ∅) then false
      else if negb (bool_decide (found = {[txid]})) then true
      else txpool_tx_matches_category p txid Clegacy
  | None => false
  end.

Definition have_tx_keyimges_as_spent (p : tx_memory_pool) (tx : transaction) (txid : hash) : bool :=
  existsb (fun k => have_tx_keyimg_as_spent p k txid) (vin tx).

(** The result and the pool, as far as the loop came *)
Fixpoint insert_images_loop (p : tx_memory_pool) (images : list key_image) (id : hash) (tx_relay : relay_method)
  : bool * tx_memory_pool :=
  match images with
  | [] => (true, p)
  | k :: images =>
      let kei_image_set := default ∅ (m_spent_key_images p !! k) in
      let p0 := with_images p (<[k := kei_image_set]> (m_spent_key_images p)) in
      if negb (bool_decide (tx_relay = Rblock))
         && negb (bool_decide (kei_image_set = ∅) || bool_decide (kei_image_set = {[id]}))
      then (false, p0)
      else
        let inserted := negb (bool_decide (id ∈ kei_image_set)) in
        let p := with_images p (<[k := {[id]} ∪ kei_image_set]> (m_spent_key_images p)) in
        if negb (inserted || negb (txpool_tx_matches_category p id Clegacy)) then (false, p)
        else insert_images_loop p images id tx_relay
  end.
Definition insert_key_images (p : tx_memory_pool) (tx : transaction) (id : hash) (tx_relay : relay_method)
  : bool * tx_memory_pool := insert_images_loop p (vin tx) id tx_relay.

Fixpoint remove_images_loop (p : tx_memory_pool) (images : list key_image) (id : hash) : tx_memory_pool :=
  match images with
  | [] => p
  | k :: images =>
      match m_spent_key_images p !! k with
      | None => p
      | Some key_image_set =>
          if bool_decide (key_image_set = ∅) then p
          else if negb (bool_decide (id ∈ key_image_set)) then p
          else
            let key_image_set := key_image_set ∖ {[id]} in
            remove_images_loop
              (with_images p (if bool_decide (key_image_set = ∅) then delete k (m_spent_key_images p)
                              else <[k := key_image_set]> (m_spent_key_images p))) images id
      end
  end.
Definition remove_transaction_keyimages (p : tx_memory_pool) (tx : transaction) (id : hash) : tx_memory_pool :=
  remove_images_loop p (vin tx) id.

(** The transactions that spend one of the images are marked. *)
Definition mark_id (t : gmap hash (txpool_tx_meta_t * transaction)) (id : hash) : gmap hash (txpool_tx_meta_t * transaction) :=
  match t !! id with
  | Some (meta, tx) => if negb (double_spend_seen meta) then <[id := (with_double_spend meta, tx)]> t else t
  | None => t
  end.
Definition mark_double_spend (p : tx_memory_pool) (tx : transaction) : tx_memory_pool :=
  with_txpool p
    (foldl (fun t k => foldl mark_id t (elements (default ∅ (m_spent_key_images p !! k)))) (txpool p) (vin tx)).

(** ** The order by fee *)

Definition txFeeCompare (a b : rate * Z) : bool :=
  if rate_gt a.1 b.1 then true else if rate_gt b.1 a.1 then false else a.2 <? b.2.

(** The left side is a multiset: a new entry goes after those equal to it. *)
Fixpoint sorted_insert (e : rate * Z * hash) (l : list (rate * Z * hash)) : list (rate * Z * hash) :=
  match l with
  | [] => [e]
  | x :: l' => if txFeeCompare e.1 x.1 then e :: l else x :: sorted_insert e l'
  end.
(** The right side is a set: an entry of the same transaction makes the insertion fail. *)
Definition bimap_insert (e : rate * Z * hash) (l : list (rate * Z * hash)) : list (rate * Z * hash) :=
  if bool_decide (e.2 ∈ l.*2) then l else sorted_insert e l.
Definition bimap_erase (id : hash) (l : list (rate * Z * hash)) : list (rate * Z * hash) :=
  filter (fun x => x.2 <> id) l.

Definition add_tx_to_transient_lists (p : tx_memory_pool) (txid : hash) (fee : rate) (time now : Z) : tx_memory_pool :=
  let l :=
    match m_added_txs_by_id p !! txid with
    | None => m_txs_by_fee_and_receive_time p
    | Some _ => bimap_erase txid (m_txs_by_fee_and_receive_time p)
    end in
  with_lists p (bimap_insert (fee, time, txid) l) (<[txid := now]> (m_added_txs_by_id p)).

Definition remove_tx_from_transient_lists (p : tx_memory_pool) (txid : hash) : tx_memory_pool :=
  with_lists p (bimap_erase txid (m_txs_by_fee_and_receive_time p)) (delete txid (m_added_txs_by_id p)).

Definition reduce_txpool_weight (p : tx_memory_pool) (w : Z) : tx_memory_pool :=
  with_weight p (if m_txpool_weight p <? w then 0 else m_txpool_weight p - w).

(** ** Removing transactions *)

(** One transaction with its weight and images *)
Definition drop_tx (p : tx_memory_pool) (id : hash) (w : Z) (tx : transaction) : tx_memory_pool :=
  remove_transaction_keyimages (reduce_txpool_weight (with_txpool p (delete id (txpool p))) w) tx id.

(** From the end of the order towards its beginning, which is not looked at *)
Fixpoint prune_loop (bytes : Z) (rev : list (rate * Z * hash)) (p : tx_memory_pool) : tx_memory_pool :=
  match rev with
  | [] => p
  | it :: rev =>
      if m_txpool_weight p <=? bytes then p
      else
        match txpool p !! it.2 with
        | None => prune_loop bytes rev p
        | Some (meta, tx) =>
            if kept_by_block meta then prune_loop bytes rev p
            else prune_loop bytes rev (remove_tx_from_transient_lists (drop_tx p it.2 (weight meta) tx) it.2)
        end
  end.
Definition prune (p : tx_memory_pool) (bytes : Z) : tx_memory_pool :=
  match m_txs_by_fee_and_receive_time p with
  | [] => p
  | _ :: l => prune_loop (if bytes =? 0 then m_txpool_max_weight p else bytes) (reverse l) p
  end.

(** The transaction and what the table says of it *)
Definition take_tx (p : tx_memory_pool) (id : hash) : option (txpool_tx_meta_t * transaction * tx_memory_pool) :=
  match txpool p !! id with
  | None => None
  | Some (meta, tx) => Some (meta, tx, remove_tx_from_transient_lists (drop_tx p id (weight meta) tx) id)
  end.

Definition is_stuck (now : Z) (meta : txpool_tx_meta_t) : bool :=
  let tx_age := u64 (now - receive_time meta) in
  ((CRYPTONOTE_MEMPOOL_TX_LIVETIME <? tx_age) && negb (kept_by_block meta))
  || ((CRYPTONOTE_MEMPOOL_TX_FROM_ALT_BLOCK_LIVETIME <? tx_age) && kept_by_block meta).

Fixpoint time_out (remove : list (hash * (txpool_tx_meta_t * transaction))) (p : tx_memory_pool) : tx_memory_pool :=
  match remove with
  | [] => p
  | (txid, _) :: remove =>
      let p := remove_tx_from_transient_lists p txid in
      time_out remove (with_timed_out p ({[txid]} ∪ m_timed_out_transactions p))
  end.
Fixpoint drop_all (remove : list (hash * (txpool_tx_meta_t * transaction))) (p : tx_memory_pool) : tx_memory_pool :=
  match remove with
  | [] => p
  | (txid, (meta, tx)) :: remove => drop_all remove (drop_tx p txid (weight meta) tx)
  end.
Definition remove_stuck_transactions (p : tx_memory_pool) (now : Z) : tx_memory_pool :=
  let remove := filter (fun e => is_stuck now e.2.1 = true) (map_to_list (txpool p)) in
  drop_all remove (time_out remove p).

(** ** Adding transactions *)

(** What the other parts say when a transaction is added: the clock, a random time to forward
    it, [ver_non_input_consensus], [check_fee], and [check_tx_inputs] with the newest block
    the inputs refer to *)
Record verdicts := {
  v_now : Z;
  v_forward_time : Z;
  v_consensus : bool;
  v_fee : bool;
  v_inputs : bool;
  v_max_used_block_height : Z;
  v_max_used_block_id : hash }.

Record tx_verification_context := {
  m_verifivation_failed : bool;
  m_double_spend : bool;
  m_added_to_pool : bool }.
Definition tvc_failed : tx_verification_context :=
  {| m_verifivation_failed := true; m_double_spend := false; m_added_to_pool := false |}.
Definition tvc_double_spend : tx_verification_context :=
  {| m_verifivation_failed := true; m_double_spend := true; m_added_to_pool := false |}.

Definition new_meta (tx : transaction) (v : verdicts) (used_id : hash) (used_height last_relayed : Z) (is_relayed spent : bool)
    (base : txpool_tx_meta_t) : txpool_tx_meta_t :=
  {| max_used_block_id := used_id; last_failed_id := null_hash; weight := get_transaction_weight tx; fee := get_tx_fee tx;
     max_used_block_height := used_height; last_failed_height := 0; receive_time := v_now v;
     last_relayed_time := last_relayed; kept_by_block := kept_by_block base; relayed := is_relayed;
     do_not_relay := do_not_relay base; double_spend_seen := spent; pruned := tx_pruned tx;
     is_local := is_local base; dandelionpp_stem := dandelionpp_stem base; is_forwarding := is_forwarding base |}.

(** [txpool_tx_meta_t meta{}] *)
Definition zero_meta : txpool_tx_meta_t :=
  {| max_used_block_id := null_hash; last_failed_id := null_hash; weight := 0; fee := 0; max_used_block_height := 0;
     last_failed_height := 0; receive_time := 0; last_relayed_time := 0; kept_by_block := false; relayed := false;
     do_not_relay := false; double_spend_seen := false; pruned := false; is_local := false; dandelionpp_stem := false;
     is_forwarding := false |}.

Definition rate_of (tx : transaction) : rate :=
  let w := get_transaction_weight tx in fee_rate (get_tx_fee tx) (if negb (w =? 0) then w else 1).

(** The end of [add_tx] *)
Definition added (p : tx_memory_pool) (tx : transaction) (is_new : bool) : bool * tx_verification_context * tx_memory_pool :=
  let p := if is_new then with_weight p (u64 (m_txpool_weight p + get_transaction_weight tx)) else p in
  (true, {| m_verifivation_failed := false; m_double_spend := false; m_added_to_pool := is_new |},
   prune p (m_txpool_max_weight p)).

(** A transaction of a block whose inputs are not valid now; a transaction that is in the
    table makes the database throw. *)
Definition add_invalid (p : tx_memory_pool) (tx : transaction) (v : verdicts) (is_relayed : bool)
  : bool * tx_verification_context * tx_memory_pool :=
  let id := tx_hash tx in
  let meta := new_meta tx v null_hash 0 (v_now v) is_relayed (have_tx_keyimges_as_spent p tx id)
                (set_relay_method zero_meta Rblock) in
  let '(ok, p) := insert_key_images p tx id Rblock in
  if negb ok then (false, tvc_failed, p)
  else if bool_decide (is_Some (txpool p !! id)) then (false, tvc_failed, p)
  else
    let p := with_txpool p (<[id := (meta, tx)]> (txpool p)) in
    added (add_tx_to_transient_lists p id (rate_of tx) (v_now v) (v_now v)) tx true.

Definition add_valid (p : tx_memory_pool) (tx : transaction) (v : verdicts) (tx_relay : relay_method) (is_relayed : bool)
  : bool * tx_verification_context * tx_memory_pool :=
  let id := tx_hash tx in
  let existing := get_txpool_tx_meta p id in
  let tx_relay :=
    match existing with
    | Some meta => if bool_decide (tx_relay = Rstem) && dandelionpp_stem meta then Rfluff else tx_relay
    | None => tx_relay
    end in
  let meta := match existing with Some meta => meta | None => set_relay_method zero_meta Rnone end in
  let '(upgraded, meta) := upgrade_relay_method meta tx_relay in
  let existing_tx := bool_decide (is_Some existing) in
  if upgraded || negb existing_tx then
    let last_relayed := if bool_decide (tx_relay = Rforward) then v_forward_time v else UINT64_MAX in
    let p := if bool_decide (tx_relay = Rforward) then set_if_less p (to_time_t last_relayed) else p in
    let meta := new_meta tx v (v_max_used_block_id v) (v_max_used_block_height v) last_relayed is_relayed false meta in
    let '(ok, p) := insert_key_images p tx id tx_relay in
    if negb ok then (false, tvc_failed, p)
    else
      let p := with_txpool p (<[id := (meta, tx)]> (txpool p)) in
      added (add_tx_to_transient_lists p id (rate_of tx) (v_now v) (v_now v)) tx (negb existing_tx)
  else added p tx false.

Definition add_tx (p : tx_memory_pool) (tx : transaction) (v : verdicts) (tx_relay : relay_method) (is_relayed : bool)
  : bool * tx_verification_context * tx_memory_pool :=
  let id := tx_hash tx in
  let kept := bool_decide (tx_relay = Rblock) in
  if negb kept && bool_decide (id ∈ m_timed_out_transactions p) then (false, tvc_failed, p)
  else if negb (v_consensus v) then (false, tvc_failed, p)
  else if negb (kept || v_fee v) then (false, tvc_failed, p)
  else if negb kept && (MAX_TX_EXTRA_SIZE <? extra_size tx) then (false, tvc_failed, p)
  else if negb kept && negb (unlock_time tx =? 0) then (false, tvc_failed, p)
  else if negb kept && have_tx_keyimges_as_spent p tx id then (false, tvc_double_spend, mark_double_spend p tx)
  else if negb (v_inputs v) then
    if kept then add_invalid p tx v is_relayed else (false, tvc_failed, p)
  else add_valid p tx v tx_relay is_relayed.

(** ** Relaying, restarting *)

(** One hash of [set_relayed]; [embargo] is the random time of a transaction on its stem. *)
Definition relay_one (method : relay_method) (now : Z) (embargo : hash -> Z) (acc : list bool * Z * tx_memory_pool) (id : hash)
  : list bool * Z * tx_memory_pool :=
  let '(just_broadcasted, next_relay, p) := acc in
  match txpool p !! id with
  | None => (just_broadcasted ++ [false], next_relay, p)
  | Some (meta, tx) =>
      let already_broadcasted := matches meta Cbroadcasted in
      let '(_, meta) := upgrade_relay_method meta method in
      let meta := with_relayed meta (if dandelionpp_stem meta then embargo id else now) in
      let next_relay := if dandelionpp_stem meta then Z.min next_relay (last_relayed_time meta) else next_relay in
      let p := with_txpool p (<[id := (meta, tx)]> (txpool p)) in
      let was_just_broadcasted := negb already_broadcasted && matches meta Cbroadcasted in
      (just_broadcasted ++ [was_just_broadcasted], next_relay,
       if was_just_broadcasted then add_tx_to_transient_lists p id (fee_rate (fee meta) (weight meta)) now now else p)
  end.
Definition set_relayed (p : tx_memory_pool) (hashes : list hash) (method : relay_method) (now : Z) (embargo : hash -> Z)
  : list bool * tx_memory_pool :=
  let '(just_broadcasted, next_relay, p) := foldl (relay_one method now embargo) ([], TIME_T_MAX, p) hashes in
  (just_broadcasted, set_if_less p (to_time_t next_relay)).

(** What [get_relayable_transactions] does with one entry: nothing, wait until a time, or
    relay it, with whether its time is set back *)
Inductive relay_decision := Skip | Wait (until : Z) | Due (reset : bool).
Definition relay_due (now : Z) (meta : txpool_tx_meta_t) : relay_decision :=
  if negb (negb (pruned meta) && (0 <? fee meta) && negb (do_not_relay meta)) then Skip
  else
    match get_relay_method meta with
    | Rstem | Rforward => if now <? last_relayed_time meta then Wait (last_relayed_time meta) else Due true
    | Rnone => Skip
    | Rlocal | Rfluff | Rblock =>
        if u64 (now - last_relayed_time meta) <=? get_relay_delay (to_time_t (last_relayed_time meta)) (to_time_t (receive_time meta))
        then Skip else Due false
    end.
Definition young (now : Z) (meta : txpool_tx_meta_t) : bool :=
  let max_age :=
    if bool_decide (get_relay_method meta = Rblock) then CRYPTONOTE_MEMPOOL_TX_FROM_ALT_BLOCK_LIVETIME
    else CRYPTONOTE_MEMPOOL_TX_LIVETIME in
  u64 (now - receive_time meta) <=? max_age / 2.

Fixpoint relayable_loop (now : Z) (entries : list (hash * (txpool_tx_meta_t * transaction)))
    (txs : list (hash * transaction * relay_method)) (change_timestamps : list (hash * txpool_tx_meta_t)) (next_check : Z)
  : list (hash * transaction * relay_method) * list (hash * txpool_tx_meta_t) * Z :=
  match entries with
  | [] => (txs, change_timestamps, next_check)
  | (txid, (meta, tx)) :: entries =>
      if negb (matches meta Crelayable) then relayable_loop now entries txs change_timestamps next_check
      else
        match relay_due now meta with
        | Skip => relayable_loop now entries txs change_timestamps next_check
        | Wait time => relayable_loop now entries txs change_timestamps (Z.min next_check time)
        | Due reset =>
            relayable_loop now entries
              (if young now meta then txs ++ [(txid, tx, get_relay_method meta)] else txs)
              (if reset then change_timestamps ++ [(txid, meta)] else change_timestamps) next_check
        end
  end.

(** [update_txpool_tx]: what is not in the table makes it throw. *)
Definition update_txpool_tx (p : tx_memory_pool) (id : hash) (meta : txpool_tx_meta_t) : tx_memory_pool :=
  match txpool p !! id with
  | Some (_, tx) => with_txpool p (<[id := (meta, tx)]> (txpool p))
  | None => p
  end.
Definition reset_time (now : Z) (p : tx_memory_pool) (elem : hash * txpool_tx_meta_t) : tx_memory_pool :=
  let meta := elem.2 in
  update_txpool_tx p elem.1
    (with_relay_time meta (u64 (now + get_relay_delay (to_time_t (last_relayed_time meta)) (to_time_t (receive_time meta))))).

(** The transactions to send, when it is time to look. The changes of the table are in a
    batch that is not committed: unless a batch was open before ([batch_active]) they are
    undone at the end. *)
Definition get_relayable_transactions (p : tx_memory_pool) (now : Z) (batch_active : bool)
  : option (list (hash * transaction * relay_method)) * tx_memory_pool :=
  if (TIME_T_MAX <? now) || (to_time_t now <? m_next_check p) then (None, p)
  else
    let '(txs, change_timestamps, next_check) := relayable_loop now (map_to_list (txpool p)) [] [] (now + max_relayable_check) in
    let p := if batch_active then foldl (reset_time now) p change_timestamps else p in
    (Some txs, with_next_check p (to_time_t next_check)).

(** [check_for_key_images]: which images a transaction seen by others spends *)
Definition check_for_key_images (p : tx_memory_pool) (key_images : list key_image) : list bool :=
  (fun image =>
    match m_spent_key_images p !! image with
    | Some found => existsb (fun tx_hash => txpool_tx_matches_category p tx_hash Cbroadcasted) (elements found)
    | None => false
    end) <$> key_images.

(** One transaction of [validate]: taken out, added again with what [verdict] says, and given
    the entry of the table it had. When it is not found (it was pruned meanwhile), the code goes
    on with an empty transaction, which the checks refuse. *)
Definition revalidate (verdict : hash -> verdicts) (acc : Z * tx_memory_pool) (e : hash * txpool_tx_meta_t) : Z * tx_memory_pool :=
  let '(n, p) := acc in
  match take_tx p e.1 with
  | None => (n, p)
  | Some (taken, tx, p) =>
      let '(ok, _, p) := add_tx p tx (verdict e.1) (get_relay_method e.2) (relayed taken) in
      if negb ok then (n, p)
      else if bool_decide (is_Some (txpool p !! e.1)) then (n + 1, update_txpool_tx p e.1 e.2)
      else (n, p)
  end.
(** The number of transactions dropped *)
Definition validate (p : tx_memory_pool) (verdict : hash -> verdicts) : Z * tx_memory_pool :=
  let p := with_lists p (m_txs_by_fee_and_receive_time p) ∅ in
  let txes := (fun e => (e.1, e.2.1)) <$> filter (fun e => pruned e.2.1 = false) (map_to_list (txpool p)) in
  let '(added, p) := foldl (revalidate verdict) (0, p) txes in
  (Z.of_nat (length txes) - added, p).

(** One pass of [init] over the table; [false] stops it. *)
Fixpoint init_pass (kept : bool) (now : Z) (entries : list (hash * (txpool_tx_meta_t * transaction))) (p : tx_memory_pool)
  : bool * tx_memory_pool :=
  match entries with
  | [] => (true, p)
  | (txid, (meta, tx)) :: entries =>
      if negb (eqb kept (kept_by_block meta)) then init_pass kept now entries p
      else
        let '(ok, p) := insert_key_images p tx txid (get_relay_method meta) in
        if negb ok then (false, p)
        else
          let p := add_tx_to_transient_lists p txid (fee_rate (fee meta) (weight meta)) (receive_time meta) now in
          init_pass kept now entries (with_weight p (u64 (m_txpool_weight p + weight meta)))
  end.
Definition init (p : tx_memory_pool) (max_txpool_weight now : Z) : bool * tx_memory_pool :=
  let p :=
    {| txpool := txpool p; m_spent_key_images := ∅; m_txs_by_fee_and_receive_time := []; m_added_txs_by_id := ∅;
       m_timed_out_transactions := m_timed_out_transactions p; m_txpool_weight := 0;
       m_txpool_max_weight := if negb (max_txpool_weight =? 0) then max_txpool_weight else DEFAULT_TXPOOL_MAX_WEIGHT;
       m_next_check := m_next_check p |} in
  let '(ok, p) := init_pass false now (map_to_list (txpool p)) p in
  if negb ok then (false, p) else init_pass true now (map_to_list (txpool p)) p.

(** ** Relay methods *)

Lemma set_get_relay m method : get_relay_method (set_relay_method m method) = method.
Proof. by destruct method. Qed.

(** At most one of the five bits is set. *)
Definition relay_ok (m : txpool_tx_meta_t) : Prop := set_relay_method m (get_relay_method m) = m.

Lemma set_relay_ok m method : relay_ok (set_relay_method m method).
Proof. unfold relay_ok. rewrite set_get_relay. done. Qed.

Lemma kept_is_block m : relay_ok m -> kept_by_block m = bool_decide (get_relay_method m = Rblock).
Proof. intros <-. by rewrite set_get_relay. Qed.

Lemma upgrade_cases m method :
  upgrade_relay_method m method = (true, set_relay_method m method) /\ get_relay_method m <> Rblock
  \/ upgrade_relay_method m method = (false, m) /\ relay_value method <= relay_value (get_relay_method m).
Proof.
  unfold upgrade_relay_method. destruct (Z.ltb_spec (relay_value (get_relay_method m)) (relay_value method)) as [Hlt|Hle];
    [left|by right].
  split; [done|]. intros E. rewrite E in Hlt. by destruct method.
Qed.

(** ** The table *)

Local Notation table := (gmap hash (txpool_tx_meta_t * transaction)).

Definition entry_ok (id : hash) (m : txpool_tx_meta_t) (tx : transaction) : Prop :=
  tx_hash tx = id /\ weight m = get_transaction_weight tx /\ fee m = get_tx_fee tx /\ NoDup (vin tx) /\ relay_ok m.

Definition entries_ok (t : table) : Prop := forall id m tx, t !! id = Some (m, tx) -> entry_ok id m tx.

(** A transaction of the table spends the image. *)
Definition spends (t : table) (id : hash) (k : key_image) : Prop := exists m tx, t !! id = Some (m, tx) /\ k ∈ vin tx.

(** What the memory holds of the images is what the transactions of the table spend. *)
Definition images_ok (t : table) (s : gmap key_image (gset hash)) : Prop :=
  (forall k id, id ∈ default ∅ (s !! k) <-> spends t id k) /\ (forall k, s !! k <> Some ∅).

(** At most one transaction that did not come from a block spends an image. *)
Definition single_ok (t : table) : Prop := forall k id1 m1 tx1 id2 m2 tx2,
  t !! id1 = Some (m1, tx1) -> t !! id2 = Some (m2, tx2) -> k ∈ vin tx1 -> k ∈ vin tx2 ->
  kept_by_block m1 = false -> kept_by_block m2 = false -> id1 = id2.

Definition pool_weight (t : table) : Z := map_fold (fun _ e w => weight e.1 + w) 0 t.

(** No entry is better than one before it. *)
Definition by_fee : list (rate * Z * hash) -> Prop := StronglySorted (fun a b => txFeeCompare b.1 a.1 = false).

(** The order lists every transaction of the table once, the best first. *)
Definition order_ok (t : table) (l : list (rate * Z * hash)) : Prop :=
  NoDup l.*2 /\ (forall id, id ∈ l.*2 <-> is_Some (t !! id)) /\ by_fee l.

Lemma pool_weight_insert t id e : t !! id = None -> pool_weight (<[id := e]> t) = weight e.1 + pool_weight t.
Proof. intros Hid. apply (map_fold_insert_L (fun _ e w => weight e.1 + w) 0); [intros; lia|done]. Qed.

Lemma pool_weight_delete t id e : t !! id = Some e -> pool_weight t = weight e.1 + pool_weight (delete id t).
Proof. intros Hid. apply (map_fold_delete_L (fun _ e w => weight e.1 + w) 0); [intros; lia|done]. Qed.

Lemma pool_weight_update t id e e' : t !! id = Some e -> weight e'.1 = weight e.1 -> pool_weight (<[id := e']> t) = pool_weight t.
Proof.
  intros Hid Hw. rewrite (pool_weight_delete t id e), (pool_weight_delete (<[id := e']> t) id e') by (done || by rewrite lookup_insert_eq).
  by rewrite delete_insert_eq, Hw.
Qed.

Lemma spends_delete t id id' k : spends (delete id t) id' k <-> id' <> id /\ spends t id' k.
Proof.
  unfold spends. setoid_rewrite lookup_delete_Some. naive_solver.
Qed.

Lemma spends_insert t id m tx id' k :
  (forall m0 tx0, t !! id = Some (m0, tx0) -> tx0 = tx) ->
  spends (<[id := (m, tx)]> t) id' k <-> (id' = id /\ k ∈ vin tx) \/ spends t id' k.
Proof.
  intros Hsame. unfold spends. split.
  - intros (m1 & tx1 & [[<- [= <- <-]]|[Hne Hl]]%lookup_insert_Some & Hk); [by left|right; eauto].
  - intros [[-> Hk]|(m1 & tx1 & Hl & Hk)]; [by exists m, tx; rewrite lookup_insert_eq|].
    destruct (decide (id' = id)) as [->|Hne].
    + exists m, tx. rewrite lookup_insert_eq. by rewrite <- (Hsame _ _ Hl).
    + exists m1, tx1. by rewrite lookup_insert_ne.
Qed.

(** ** The memory of images *)

(** The identifiers noted for an image *)
Local Notation holders s k := (default ∅ (s !! k)).

Lemma insert_loop_spec images p id r :
  NoDup images ->
  (forall k, k ∈ images -> r = Rblock \/ holders (m_spent_key_images p) k ⊆ {[id]}) ->
  (forall k, k ∈ images -> id ∉ holders (m_spent_key_images p) k \/ txpool_tx_matches_category p id Clegacy = false) ->
  (forall k, m_spent_key_images p !! k <> Some ∅) ->
  exists s, insert_images_loop p images id r = (true, with_images p s) /\ (forall k, s !! k <> Some ∅)
    /\ forall k id', id' ∈ holders s k <-> (id' = id /\ k ∈ images) \/ id' ∈ holders (m_spent_key_images p) k.
Proof.
  revert p. induction images as [|k images IH]; intros p Hnd Hone Hprivate Hne; simpl.
  { exists (m_spent_key_images p). split; [by destruct p|]. set_solver. }
  apply NoDup_cons in Hnd as [Hk Hnd]. set (S := holders (m_spent_key_images p) k) in *.
  assert (negb (bool_decide (r = Rblock)) && negb (bool_decide (S = ∅) || bool_decide (S = {[id]})) = false) as ->.
  { destruct (Hone k ltac:(left)) as [->|Hsub]; [by rewrite bool_decide_eq_true_2|]. apply andb_false_iff. right.
    fold S in Hsub. apply negb_false_iff, orb_true_iff. rewrite !bool_decide_eq_true. destruct (decide (id ∈ S)); set_solver. }
  assert (negb (bool_decide (id ∈ S)) || negb (txpool_tx_matches_category p id Clegacy) = true) as Hnew.
  { destruct (Hprivate k ltac:(left)) as [Hid| ->]; [by rewrite bool_decide_eq_false_2|apply orb_true_r]. }
  change (txpool_tx_matches_category (with_images p _) id Clegacy) with (txpool_tx_matches_category p id Clegacy).
  rewrite Hnew. simpl.
  destruct (IH (with_images p (<[k := {[id]} ∪ S]> (m_spent_key_images p))) Hnd) as (s & -> & Hs & Heq).
  - intros k' Hk'; simpl; rewrite lookup_insert_ne by (intros ->; done); apply Hone; by right.
  - intros k' Hk'; simpl; rewrite lookup_insert_ne by (intros ->; done); apply Hprivate; by right.
  - intros k'; simpl. destruct (decide (k' = k)) as [->|]; [rewrite lookup_insert_eq; intros [= E]|by rewrite lookup_insert_ne].
    clear -E. set_solver.
  - clear IH Hone Hprivate. exists s. split; [done|split; [done|]]. intros k' id'. rewrite Heq. simpl. destruct (decide (k' = k)) as [->|].
    + rewrite lookup_insert_eq. simpl. fold S. set_solver.
    + rewrite lookup_insert_ne by done. set_solver.
Qed.

(** The sets stay as they are when the transaction is refused: it is in the pool, and public. *)
Lemma insert_loop_refused images p id :
  (forall k, k ∈ images -> id ∈ holders (m_spent_key_images p) k) -> txpool_tx_matches_category p id Clegacy = true ->
  (images = [] /\ insert_images_loop p images id Rblock = (true, p))
  \/ exists s, insert_images_loop p images id Rblock = (false, with_images p s) /\ forall k, s !! k = m_spent_key_images p !! k.
Proof.
  intros Hin Hl. destruct images as [|k images]; simpl; [by left|right].
  specialize (Hin k ltac:(left)). destruct (m_spent_key_images p !! k) as [S|] eqn:HS; simpl in *; [|set_solver].
  rewrite bool_decide_eq_true_2 by done.
  change (txpool_tx_matches_category (with_images p _) id Clegacy) with (txpool_tx_matches_category p id Clegacy). rewrite Hl. simpl.
  eexists. split; [done|]. intros k'. destruct (decide (k' = k)) as [->|]; [|by rewrite lookup_insert_ne].
  rewrite lookup_insert_eq, HS. f_equal. set_solver.
Qed.

Lemma remove_loop_spec images p id :
  NoDup images -> (forall k, k ∈ images -> id ∈ holders (m_spent_key_images p) k) ->
  (forall k, m_spent_key_images p !! k <> Some ∅) ->
  exists s, remove_images_loop p images id = with_images p s /\ (forall k, s !! k <> Some ∅)
    /\ forall k id', id' ∈ holders s k <-> id' ∈ holders (m_spent_key_images p) k /\ ~ (id' = id /\ k ∈ images).
Proof.
  revert p. induction images as [|k images IH]; intros p Hnd Hin Hne; simpl.
  { exists (m_spent_key_images p). split; [by destruct p|]. set_solver. }
  apply NoDup_cons in Hnd as [Hk Hnd]. pose proof (Hin k ltac:(left)) as HkS.
  destruct (m_spent_key_images p !! k) as [S|] eqn:HS; simpl in HkS; [|set_solver].
  rewrite bool_decide_eq_false_2 by set_solver. rewrite bool_decide_eq_true_2 by done. simpl.
  set (s0 := if bool_decide (S ∖ {[id]} = ∅) then _ else _).
  assert (forall k', k' <> k -> s0 !! k' = m_spent_key_images p !! k') as Hother.
  { intros k' Hk'. subst s0. case_bool_decide; [by rewrite lookup_delete_ne|by rewrite lookup_insert_ne]. }
  assert (s0 !! k = if bool_decide (S ∖ {[id]} = ∅) then None else Some (S ∖ {[id]})) as Hsame.
  { subst s0. case_bool_decide; [by rewrite lookup_delete_eq|by rewrite lookup_insert_eq]. }
  destruct (IH (with_images p s0) Hnd) as (s & -> & Hs & Heq); simpl; clear IH.
  - intros k' Hk'. rewrite Hother by (intros ->; done). apply Hin. by right.
  - intros k'. destruct (decide (k' = k)) as [->|]; [|by rewrite Hother]. rewrite Hsame. case_bool_decide; naive_solver.
  - exists s. split; [done|split; [done|]]. intros k' id'. rewrite Heq. simpl. destruct (decide (k' = k)) as [->|].
    + rewrite Hsame, HS. case_bool_decide; simpl; set_solver.
    + rewrite Hother by done. set_solver.
Qed.

(** ** Consistency *)

Record core_ok (t : table) (s : gmap key_image (gset hash)) (w : Z) : Prop := {
  core_entries : entries_ok t;
  core_images : images_ok t s;
  core_single : single_ok t;
  core_weight : w = pool_weight t }.

Definition pool_ok (p : tx_memory_pool) : Prop :=
  core_ok (txpool p) (m_spent_key_images p) (m_txpool_weight p) /\ order_ok (txpool p) (m_txs_by_fee_and_receive_time p).

Context (weight_nonneg : forall tx, 0 <= get_transaction_weight tx).

Lemma pool_weight_nonneg t : entries_ok t -> 0 <= pool_weight t.
Proof.
  unfold pool_weight. induction t as [|id [m tx] t Hid IH] using map_ind; intros Hok; [by rewrite map_fold_empty|].
  rewrite (map_fold_insert_L (fun _ e w => weight e.1 + w) 0) by (done || (intros; lia)). simpl.
  destruct (Hok id m tx ltac:(by rewrite lookup_insert_eq)) as (_ & -> & _). specialize (weight_nonneg tx).
  enough (0 <= map_fold (fun _ (e : txpool_tx_meta_t * transaction) w => weight e.1 + w) 0 t) by lia.
  apply IH. intros id' m' tx' Hl. apply Hok. rewrite lookup_insert_ne; [done|congruence].
Qed.

Lemma delete_entries t id : entries_ok t -> entries_ok (delete id t).
Proof. intros Hok id' m tx [_ Hl]%lookup_delete_Some. by apply Hok. Qed.

(** A transaction out of the table *)
Lemma delete_core t s w id m tx s' :
  core_ok t s w -> t !! id = Some (m, tx) -> (forall k, s' !! k <> Some ∅) ->
  (forall k id', id' ∈ holders s' k <-> id' ∈ holders s k /\ ~ (id' = id /\ k ∈ vin tx)) ->
  core_ok (delete id t) s' (w - weight m).
Proof.
  intros [He [Hi Hne] Hs ->] Hid Hne' Hs'. split.
  - by apply delete_entries.
  - split; [|done]. intros k id'. rewrite Hs', Hi, spends_delete. split; [|naive_solver].
    intros [(m1 & tx1 & Hl & Hk) Hn]. split; [|by exists m1, tx1]. intros ->. simplify_eq. naive_solver.
  - intros k id1 m1 tx1 id2 m2 tx2 [_ H1]%lookup_delete_Some [_ H2]%lookup_delete_Some. by apply (Hs k).
  - rewrite (pool_weight_delete t id (m, tx)) by done. simpl. lia.
Qed.

(** Another entry for a transaction of the table *)
Lemma update_core t s w id m m' tx :
  core_ok t s w -> t !! id = Some (m, tx) -> entry_ok id m' tx -> (kept_by_block m' = false -> kept_by_block m = false) ->
  core_ok (<[id := (m', tx)]> t) s w.
Proof.
  intros [He [Hi Hne] Hs ->] Hid Hok Hkept. split.
  - intros id' m1 tx1 [[<- [= <- <-]]|[_ Hl]]%lookup_insert_Some; [done|by apply He].
  - split; [|done]. intros k id'. rewrite spends_insert, Hi by (intros ? ? Hl; rewrite Hid in Hl; by injection Hl). split; [by right|].
    intros [[-> Hk]|]; [by exists m, tx|done].
  - assert (forall id' m1 tx1, <[id := (m', tx)]> t !! id' = Some (m1, tx1) -> kept_by_block m1 = false ->
              exists m0, t !! id' = Some (m0, tx1) /\ kept_by_block m0 = false) as Hback.
    { intros id' m1 tx1 [[<- [= <- <-]]|[_ Hl]]%lookup_insert_Some; eauto. }
    intros k id1 m1 tx1 id2 m2 tx2 H1 H2 ? ? K1 K2.
    destruct (Hback _ _ _ H1 K1) as (? & ? & ?), (Hback _ _ _ H2 K2) as (? & ? & ?). by eapply (Hs k).
  - symmetry. apply (pool_weight_update _ _ (m, tx)); [done|]. simpl. destruct (He _ _ _ Hid) as (_ & -> & _), Hok as (_ & -> & _). done.
Qed.

(** A transaction put into the table, whose place may have been taken by itself *)
Lemma insert_core t s w id m tx s' :
  core_ok t s w -> (forall m0 tx0, t !! id = Some (m0, tx0) -> tx0 = tx) -> entry_ok id m tx ->
  (kept_by_block m = true \/ forall k id', k ∈ vin tx -> id' ∈ holders s k -> id' = id) ->
  (forall k, s' !! k <> Some ∅) ->
  (forall k id', id' ∈ holders s' k <-> (id' = id /\ k ∈ vin tx) \/ id' ∈ holders s k) ->
  core_ok (<[id := (m, tx)]> t) s' (if bool_decide (is_Some (t !! id)) then w else w + weight m).
Proof.
  intros [He [Hi Hne] Hs ->] Hsame Hok Hkept Hne' Hs'. split.
  - intros id' m1 tx1 [[<- [= <- <-]]|[_ Hl]]%lookup_insert_Some; [done|by apply He].
  - split; [|done]. intros k id'. by rewrite spends_insert, Hs', Hi.
  - assert (forall k id' m' tx', t !! id' = Some (m', tx') -> k ∈ vin tx -> k ∈ vin tx' -> kept_by_block m = false -> id' = id) as Honly.
    { intros k id' m' tx' Hl Hk Hk' Hm. destruct Hkept as [|Hkept]; [congruence|]. apply (Hkept k); [done|]. apply Hi. by exists m', tx'. }
    intros k id1 m1 tx1 id2 m2 tx2 [[<- [= <- <-]]|[? Hl1]]%lookup_insert_Some [[<- [= <- <-]]|[? Hl2]]%lookup_insert_Some; eauto.
    intros. symmetry. eauto.
  - case_bool_decide as Hin.
    + destruct Hin as [[m0 tx0] Hin]. symmetry. apply (pool_weight_update _ _ (m0, tx0)); [done|]. simpl.
      rewrite <- (Hsame _ _ Hin) in Hok. destruct (He _ _ _ Hin) as (_ & -> & _), Hok as (_ & -> & _). done.
    + rewrite pool_weight_insert by (by apply eq_None_not_Some). simpl. lia.
Qed.

(** ** The order *)

(** Rates without a NaN: better or not, in one line *)
Context (rate_asym : forall a b, rate_gt a b = true -> rate_gt b a = false)
        (rate_weak : forall a b c, rate_gt a c = true -> rate_gt a b = true \/ rate_gt b c = true).

Lemma sorted_insert_perm e l : sorted_insert e l ≡ₚ e :: l.
Proof. induction l as [|x l IH]; simpl; [done|]. destruct (txFeeCompare _ _); [done|]. rewrite IH. apply Permutation_swap. Qed.

Lemma erase_ids id l : (bimap_erase id l).*2 = filter (fun x => x <> id) l.*2.
Proof.
  induction l as [|x l IH]; [done|]. unfold bimap_erase in *. rewrite fmap_cons, !filter_cons.
  destruct (decide (x.2 <> id)); [rewrite fmap_cons; by f_equal|exact IH].
Qed.

Lemma transient_ids p id f time now :
  NoDup (m_txs_by_fee_and_receive_time p).*2 ->
  let l := m_txs_by_fee_and_receive_time (add_tx_to_transient_lists p id f time now) in
  NoDup l.*2 /\ forall id', id' ∈ l.*2 <-> id' = id \/ id' ∈ (m_txs_by_fee_and_receive_time p).*2.
Proof.
  intros Hnd. simpl. unfold bimap_insert. simpl.
  assert (forall l : list (rate * Z * hash), NoDup l.*2 -> id ∉ l.*2 -> NoDup (sorted_insert (f, time, id) l).*2
          /\ forall id', id' ∈ (sorted_insert (f, time, id) l).*2 <-> id' = id \/ id' ∈ l.*2) as Hins.
  { intros l Hl Hid. split; [|intros id']; rewrite sorted_insert_perm; simpl; [by constructor|by rewrite elem_of_cons]. }
  destruct (m_added_txs_by_id p !! id) eqn:Ha; case_bool_decide as Hin.
  - rewrite erase_ids in Hin. apply list_elem_of_filter in Hin as [? _]. done.
  - destruct (Hins (bimap_erase id (m_txs_by_fee_and_receive_time p))) as [H1 H2]; [rewrite erase_ids; by apply NoDup_filter|done|].
    split; [done|]. intros id'. rewrite H2, erase_ids, list_elem_of_filter. destruct (decide (id' = id)); naive_solver.
  - split; [done|]. naive_solver.
  - by apply Hins.
Qed.

Lemma txFeeCompare_asym a b : txFeeCompare a b = true -> txFeeCompare b a = false.
Proof.
  unfold txFeeCompare. destruct (rate_gt a.1 b.1) eqn:E; [by rewrite (rate_asym _ _ E)|]. destruct (rate_gt b.1 a.1); [done|].
  rewrite Z.ltb_lt, Z.ltb_ge. lia.
Qed.

Lemma txFeeCompare_trans a b c : txFeeCompare a b = true -> txFeeCompare b c = true -> txFeeCompare a c = true.
Proof.
  unfold txFeeCompare. destruct (rate_gt a.1 b.1) eqn:Eab.
  - intros _. destruct (rate_weak _ c.1 _ Eab) as [->|Ecb]; [done|].
    destruct (rate_gt b.1 c.1) eqn:Ebc; [apply rate_asym in Ebc; congruence|by rewrite Ecb].
  - destruct (rate_gt b.1 a.1) eqn:Eba; [done|]. destruct (rate_gt b.1 c.1) eqn:Ebc.
    + intros _ _. destruct (rate_weak _ a.1 _ Ebc) as [?| ->]; [congruence|done].
    + destruct (rate_gt c.1 b.1) eqn:Ecb; [done|]. destruct (rate_gt a.1 c.1); [done|].
      destruct (rate_gt c.1 a.1) eqn:Eca; [destruct (rate_weak _ b.1 _ Eca); congruence|]. rewrite !Z.ltb_lt. lia.
Qed.

Lemma sorted_insert_sorted e l : by_fee l -> by_fee (sorted_insert e l).
Proof.
  induction 1 as [|x l Hl IH Hx]; simpl; [by repeat constructor|]. destruct (txFeeCompare e.1 x.1) eqn:E.
  - constructor; [by constructor|]. constructor; [by apply txFeeCompare_asym|]. eapply Forall_impl; [exact Hx|]. intros y Hy.
    apply not_true_is_false. intros Hye. simpl in Hy. pose proof (txFeeCompare_trans _ _ _ Hye E). congruence.
  - constructor; [done|]. rewrite Forall_forall in *. intros y. rewrite sorted_insert_perm, elem_of_cons. intros [->|?]; [done|by apply Hx].
Qed.

Lemma erase_sorted id l : by_fee l -> by_fee (bimap_erase id l).
Proof.
  unfold bimap_erase. induction 1 as [|x l Hl IH Hx]; [constructor|]. rewrite filter_cons. destruct (decide _); [|done].
  constructor; [done|]. by apply Forall_filter.
Qed.

Lemma transient_sorted p id f time now : by_fee (m_txs_by_fee_and_receive_time p) ->
  by_fee (m_txs_by_fee_and_receive_time (add_tx_to_transient_lists p id f time now)).
Proof.
  intros Hs. simpl. unfold bimap_insert. destruct (m_added_txs_by_id p !! id); case_bool_decide; auto using erase_sorted, sorted_insert_sorted.
Qed.

Lemma transient_order t p id e f time now :
  order_ok t (m_txs_by_fee_and_receive_time p) ->
  order_ok (<[id := e]> t) (m_txs_by_fee_and_receive_time (add_tx_to_transient_lists p id f time now)).
Proof.
  intros (Hnd & Hids & Hso). destruct (transient_ids p id f time now Hnd) as [H1 H2]. split; [done|].
  split; [|by apply transient_sorted]. intros id'. rewrite H2, Hids. rewrite lookup_insert_is_Some. destruct (decide (id' = id)); naive_solver.
Qed.

Lemma erase_order t l id : order_ok t l -> order_ok (delete id t) (bimap_erase id l).
Proof.
  intros (Hnd & Hids & Hso). unfold order_ok. rewrite erase_ids. split; [by apply NoDup_filter|].
  split; [|by apply erase_sorted]. intros id'.
  rewrite list_elem_of_filter, Hids, lookup_delete_is_Some. naive_solver.
Qed.

Lemma update_order t l id e e' : order_ok t l -> t !! id = Some e -> order_ok (<[id := e']> t) l.
Proof.
  intros (Hnd & Hids & Hso) Hid. split; [done|]. split; [|done]. intros id'. rewrite Hids, lookup_insert_is_Some. destruct (decide (id' = id)); naive_solver.
Qed.

(** ** Removing keeps the pool consistent *)

(** The table and the lists, which [drop_tx] leaves alone *)
Lemma drop_core p id m tx :
  core_ok (txpool p) (m_spent_key_images p) (m_txpool_weight p) -> txpool p !! id = Some (m, tx) ->
  exists s, drop_tx p id (weight m) tx
            = with_images (with_weight (with_txpool p (delete id (txpool p))) (m_txpool_weight p - weight m)) s
    /\ core_ok (delete id (txpool p)) s (m_txpool_weight p - weight m).
Proof.
  intros Hok Hid. pose proof Hok as [He [Hi Hne] _ Hw].
  assert (weight m <= m_txpool_weight p) as Hle.
  { rewrite Hw, (pool_weight_delete _ id (m, tx)) by done. simpl.
    pose proof (pool_weight_nonneg _ (delete_entries _ id He)). lia. }
  unfold drop_tx, remove_transaction_keyimages, reduce_txpool_weight. simpl. rewrite (proj2 (Z.ltb_ge _ _)) by lia.
  destruct (He _ _ _ Hid) as (_ & _ & _ & Hnd & _).
  destruct (remove_loop_spec (vin tx) (with_weight (with_txpool p (delete id (txpool p))) (m_txpool_weight p - weight m)) id Hnd)
    as (s & -> & Hs & Heq); simpl in *; [|done|].
  - intros k Hk. apply Hi. by exists m, tx.
  - exists s. split; [done|]. by eapply delete_core.
Qed.

Lemma drop_ok p id m tx :
  pool_ok p -> txpool p !! id = Some (m, tx) ->
  let p' := remove_tx_from_transient_lists (drop_tx p id (weight m) tx) id in
  pool_ok p' /\ txpool p' = delete id (txpool p) /\ m_txpool_weight p' = m_txpool_weight p - weight m
  /\ m_txs_by_fee_and_receive_time p' = bimap_erase id (m_txs_by_fee_and_receive_time p).
Proof.
  intros [Hcore Hord] Hid. destruct (drop_core p id m tx Hcore Hid) as (s & Hd & Hc). cbv zeta. rewrite Hd. simpl.
  split; [|done]. split; [done|]. simpl. by apply erase_order.
Qed.

Lemma take_tx_ok p id m tx p' : pool_ok p -> take_tx p id = Some (m, tx, p') ->
  pool_ok p' /\ txpool p !! id = Some (m, tx) /\ txpool p' = delete id (txpool p).
Proof.
  intros Hok. unfold take_tx. destruct (txpool p !! id) as [[m0 tx0]|] eqn:Hid; [|done]. intros [= <- <- <-].
  destruct (drop_ok p id m0 tx0 Hok Hid) as (? & ? & _). done.
Qed.

Lemma prune_loop_ok bytes rev p : pool_ok p -> pool_ok (prune_loop bytes rev p) /\ txpool (prune_loop bytes rev p) ⊆ txpool p.
Proof.
  revert p. induction rev as [|it rev IH]; intros p Hok; simpl; [done|]. destruct (_ <=? _); [done|].
  destruct (txpool p !! it.2) as [[m tx]|] eqn:Hid; [|by apply IH]. destruct (kept_by_block m); [by apply IH|].
  destruct (drop_ok p it.2 m tx Hok Hid) as (Hok' & Ht & _). destruct (IH _ Hok') as [H1 H2]. split; [done|].
  etransitivity; [exact H2|]. rewrite Ht. apply delete_subseteq.
Qed.

Lemma prune_ok p bytes : pool_ok p -> pool_ok (prune p bytes) /\ txpool (prune p bytes) ⊆ txpool p.
Proof. intros Hok. unfold prune. destruct (m_txs_by_fee_and_receive_time p); [done|]. by apply prune_loop_ok. Qed.

(** ** New entries of the table *)

Lemma foldl_keeps {A B} (P : A -> Prop) (f : A -> B -> A) l a : (forall a x, P a -> P (f a x)) -> P a -> P (foldl f a l).
Proof. intros Hf. revert a. induction l; simpl; auto. Qed.

Lemma with_txpool_ok p id m m' tx :
  pool_ok p -> txpool p !! id = Some (m, tx) -> entry_ok id m' tx -> (kept_by_block m' = false -> kept_by_block m = false) ->
  pool_ok (with_txpool p (<[id := (m', tx)]> (txpool p))).
Proof. intros [Hc Ho] Hid He Hk. split; simpl; [by eapply update_core|by eapply update_order]. Qed.

Lemma relay_ok_same m m' :
  kept_by_block m' = kept_by_block m -> do_not_relay m' = do_not_relay m -> is_local m' = is_local m ->
  dandelionpp_stem m' = dandelionpp_stem m -> is_forwarding m' = is_forwarding m -> relay_ok m -> relay_ok m'.
Proof.
  destruct m, m'. simpl. intros -> -> -> -> ->. unfold relay_ok, set_relay_method, get_relay_method. simpl. intros [= ? ? ? ? ?].
  by f_equal.
Qed.

(** Another time, height or mark in an entry *)
Definition same_entry (m m' : txpool_tx_meta_t) : Prop :=
  weight m' = weight m /\ fee m' = fee m /\ kept_by_block m' = kept_by_block m /\ do_not_relay m' = do_not_relay m
  /\ is_local m' = is_local m /\ dandelionpp_stem m' = dandelionpp_stem m /\ is_forwarding m' = is_forwarding m.

Lemma same_entry_ok id m m' tx : same_entry m m' -> entry_ok id m tx -> entry_ok id m' tx.
Proof.
  intros (Hw & Hf & ? & ? & ? & ? & ?) (? & ? & ? & ? & ?). unfold entry_ok. rewrite Hw, Hf.
  do 4 (split; [done|]). by eapply relay_ok_same.
Qed.

Lemma entry_of p id m tx : pool_ok p -> txpool p !! id = Some (m, tx) -> entry_ok id m tx.
Proof. intros [[He _ _ _] _]. apply He. Qed.

Lemma same_entry_pool p id m m' tx :
  pool_ok p -> txpool p !! id = Some (m, tx) -> same_entry m m' -> pool_ok (with_txpool p (<[id := (m', tx)]> (txpool p))).
Proof.
  intros Hok Hid Hs. eapply with_txpool_ok; [done..| |]; [eapply same_entry_ok; [done|by eapply entry_of]|].
  destruct Hs as (_ & _ & -> & _). done.
Qed.

Lemma mark_double_spend_ok p tx : pool_ok p -> pool_ok (mark_double_spend p tx).
Proof.
  intros Hok. unfold mark_double_spend. apply (foldl_keeps (fun t => pool_ok (with_txpool p t))); [|by destruct p].
  intros t k Ht. apply (foldl_keeps (fun t => pool_ok (with_txpool p t))); [|done]. clear t Ht. intros t id Ht. unfold mark_id.
  destruct (t !! id) as [[m tx0]|] eqn:Hid; [|done]. destruct (double_spend_seen m); simpl; [done|].
  by apply (same_entry_pool (with_txpool p t) id m).
Qed.

Lemma update_txpool_ok p id m :
  pool_ok p -> (forall m0 tx, txpool p !! id = Some (m0, tx) -> entry_ok id m tx /\ (kept_by_block m = false -> kept_by_block m0 = false)) ->
  pool_ok (update_txpool_tx p id m).
Proof.
  intros Hok He. unfold update_txpool_tx. destruct (txpool p !! id) as [[m0 tx]|] eqn:Hid; [|done].
  destruct (He m0 tx) as [? ?]; [done|]. by eapply with_txpool_ok.
Qed.

Lemma set_if_less_ok p x : pool_ok p -> pool_ok (set_if_less p x).
Proof. unfold set_if_less. by destruct (_ <? _). Qed.

Lemma upgrade_ok id m tx r : entry_ok id m tx ->
  entry_ok id (upgrade_relay_method m r).2 tx /\ (kept_by_block (upgrade_relay_method m r).2 = false -> kept_by_block m = false).
Proof.
  intros (? & ? & ? & ? & Hr). destruct (upgrade_cases m r) as [[-> Hb]|[-> _]]; simpl; [|done].
  split; [repeat split; try done; apply set_relay_ok|]. intros _. rewrite kept_is_block by done. by apply bool_decide_eq_false.
Qed.

Lemma relay_one_ok method now embargo acc id : pool_ok acc.2 -> pool_ok (relay_one method now embargo acc id).2.
Proof.
  destruct acc as [[js next] p]. simpl. intros Hok. destruct (txpool p !! id) as [[m tx]|] eqn:Hid; [|done].
  destruct (upgrade_ok id m tx method) as [He Hk]; [by eapply entry_of|].
  destruct (upgrade_relay_method m method) as [up m'] eqn:Hu. simpl in *.
  set (m'' := with_relayed _ _). set (p' := with_txpool _ _).
  assert (pool_ok p') as Hok'.
  { eapply with_txpool_ok; [done..| |done]. by apply (same_entry_ok _ m'). }
  match goal with |- pool_ok (if ?b then _ else _) => destruct b; [|done] end.
  destruct Hok' as [Hc Ho]. split; [done|]. simpl in *.
  pose proof (transient_order (txpool p') p' id (m'', tx) (fee_rate (fee m') (weight m')) now now Ho) as Hord.
  simpl in Hord. by rewrite insert_insert_eq in Hord.
Qed.

Lemma set_relayed_ok p hashes method now embargo : pool_ok p -> pool_ok (set_relayed p hashes method now embargo).2.
Proof.
  intros Hok. unfold set_relayed.
  pose proof (foldl_keeps (fun acc => pool_ok acc.2) (relay_one method now embargo) hashes ([], TIME_T_MAX, p)
                (fun acc id => relay_one_ok method now embargo acc id) Hok) as H'.
  destruct (foldl _ _ _) as [[js next] p']. by apply set_if_less_ok.
Qed.

(** ** Outdated transactions *)

Local Notation pool_entry := (hash * (txpool_tx_meta_t * transaction))%type.

Lemma time_out_spec (remove : list pool_entry) p :
  let p' := time_out remove p in
  txpool p' = txpool p /\ m_spent_key_images p' = m_spent_key_images p /\ m_txpool_weight p' = m_txpool_weight p
  /\ m_txs_by_fee_and_receive_time p' = foldl (fun l e => bimap_erase e.1 l) (m_txs_by_fee_and_receive_time p) remove
  /\ m_timed_out_transactions p' = list_to_set remove.*1 ∪ m_timed_out_transactions p.
Proof.
  revert p. induction remove as [|[id e] remove IH]; intros p; simpl; [set_solver|].
  destruct (IH (with_timed_out (remove_tx_from_transient_lists p id) ({[id]} ∪ m_timed_out_transactions p))) as (H1 & H2 & H3 & H4 & H5).
  rewrite H1, H2, H3, H4, H5. simpl. do 4 (split; [done|]). set_solver.
Qed.

Lemma drop_all_spec (remove : list pool_entry) p :
  NoDup remove.*1 -> (forall e, e ∈ remove -> txpool p !! e.1 = Some e.2) ->
  core_ok (txpool p) (m_spent_key_images p) (m_txpool_weight p) ->
  let p' := drop_all remove p in
  core_ok (txpool p') (m_spent_key_images p') (m_txpool_weight p')
  /\ txpool p' = foldl (fun t e => delete e.1 t) (txpool p) remove
  /\ m_txs_by_fee_and_receive_time p' = m_txs_by_fee_and_receive_time p
  /\ m_timed_out_transactions p' = m_timed_out_transactions p.
Proof.
  revert p. induction remove as [|[id [m tx]] remove IH]; intros p Hnd Hin Hc; simpl in *; [done|].
  apply NoDup_cons in Hnd as [Hid Hnd].
  destruct (drop_core p id m tx Hc) as (s & -> & Hc'); [exact (Hin (id, (m, tx)) ltac:(left))|].
  destruct (IH (with_images (with_weight (with_txpool p (delete id (txpool p))) (m_txpool_weight p - weight m)) s)) as (H1 & H2 & H3 & H4);
    [done| |done|done].
  intros e He. simpl. rewrite lookup_delete_ne; [apply Hin; by right|]. intros ->. apply Hid. by apply list_elem_of_fmap_2.
Qed.

(** What is dropped and noted is what is too old. *)
Definition stuck_of (now : Z) (t : table) : list pool_entry := filter (fun e => is_stuck now e.2.1 = true) (map_to_list t).

Lemma stuck_ids now t : NoDup (stuck_of now t).*1.
Proof. eapply sublist_NoDup; [apply (NoDup_fst_map_to_list t)|]. apply fmap_sublist, sublist_filter. Qed.

Lemma stuck_in now t e : e ∈ stuck_of now t <-> is_stuck now e.2.1 = true /\ t !! e.1 = Some e.2.
Proof. unfold stuck_of. rewrite list_elem_of_filter. destruct e as [id e]. by rewrite elem_of_map_to_list. Qed.

Lemma delete_all_lookup (remove : list pool_entry) (t : table) id :
  foldl (fun t e => delete e.1 t) t remove !! id = if decide (id ∈ remove.*1) then None else t !! id.
Proof.
  revert t. induction remove as [|[id' e] remove IH]; intros t; [done|]. rewrite fmap_cons. cbn [foldl fst]. rewrite IH.
  destruct (decide (id = id')) as [->|Hne].
  - rewrite lookup_delete_eq. destruct (decide (id' ∈ id' :: remove.*1)) as [_|[]]; [by destruct (decide _)|left].
  - rewrite lookup_delete_ne by done. apply decide_ext. rewrite elem_of_cons. naive_solver.
Qed.

Lemma remove_stuck_ok p now : pool_ok p -> let p' := remove_stuck_transactions p now in
  pool_ok p' /\ (forall id e, txpool p' !! id = Some e <-> txpool p !! id = Some e /\ is_stuck now e.1 = false)
  /\ (forall id, id ∈ m_timed_out_transactions p' <->
        id ∈ m_timed_out_transactions p \/ exists e, txpool p !! id = Some e /\ is_stuck now e.1 = true).
Proof.
  intros [Hc Ho]. unfold remove_stuck_transactions. fold (stuck_of now (txpool p)). set (remove := stuck_of now (txpool p)).
  assert (forall id, id ∈ remove.*1 <-> exists e, txpool p !! id = Some e /\ is_stuck now e.1 = true) as Hids.
  { intros id. rewrite list_elem_of_fmap. split.
    - intros ([id' e] & -> & [? ?]%stuck_in). by exists e.
    - intros (e & ? & ?). exists (id, e). split; [done|]. by apply stuck_in. }
  destruct (time_out_spec remove p) as (T1 & T2 & T3 & T4 & T5).
  destruct (drop_all_spec remove (time_out remove p)) as (D1 & D2 & D3 & D4);
    [apply stuck_ids|rewrite T1; intros e [_ ?]%stuck_in; done|by rewrite T1, T2, T3|].
  cbv zeta. unfold pool_ok. rewrite D2, D3, D4, T1, T4, T5 in *. split; [split; [done|]|split].
  - clear -Ho. revert Ho. generalize (txpool p), (m_txs_by_fee_and_receive_time p).
    induction remove as [|e remove IH]; intros t l Ho; simpl; [done|]. by apply IH, erase_order.
  - intros id e. rewrite delete_all_lookup. destruct (decide _) as [(e' & He' & Hs)%Hids|Hn].
    + rewrite He'. split; [done|]. intros [[= ->] Hf]. congruence.
    + split; [|by intros [? _]]. intros He. split; [done|]. apply not_true_is_false. intros Hs. apply Hn, Hids. eauto.
  - intros id. rewrite elem_of_union, elem_of_list_to_set, Hids. apply or_comm.
Qed.

(** ** Adding keeps the pool consistent *)

(** What holds of a transaction that passed the checks: no image twice, no other transaction
    of the pool with its hash, and a total that fits. *)
Definition fits (p : tx_memory_pool) (tx : transaction) : Prop :=
  NoDup (vin tx) /\ (forall m0 tx0, txpool p !! tx_hash tx = Some (m0, tx0) -> tx0 = tx)
  /\ m_txpool_weight p + get_transaction_weight tx <= UINT64_MAX.

(** Every transaction of the new table was in the old one, from a block if it is now. *)
Definition from_table (t t' : table) : Prop := forall id m tx, t' !! id = Some (m, tx) ->
  exists m0, t !! id = Some (m0, tx) /\ kept_by_block m0 = kept_by_block m.
Definition added_to (t : table) (tx : transaction) (r : relay_method) (t' : table) : Prop := forall id m tx', t' !! id = Some (m, tx') ->
  (exists m0, t !! id = Some (m0, tx') /\ kept_by_block m0 = kept_by_block m)
  \/ id = tx_hash tx /\ tx' = tx /\ kept_by_block m = bool_decide (r = Rblock).

Lemma from_table_refl t : from_table t t.
Proof. intros id m tx Hl. eauto. Qed.
Lemma from_table_added t tx r t' : from_table t t' -> added_to t tx r t'.
Proof. intros Ht id m tx' Hl. left. by apply Ht. Qed.
Lemma from_table_subseteq (t t' : table) : t' ⊆ t -> from_table t t'.
Proof. intros Hs id m tx Hl. exists m. split; [|done]. by eapply lookup_weaken. Qed.

Lemma mark_from_table p tx : from_table (txpool p) (txpool (mark_double_spend p tx)).
Proof.
  unfold mark_double_spend. simpl. apply (foldl_keeps (from_table (txpool p))); [|apply from_table_refl].
  intros t k Ht. apply (foldl_keeps (from_table (txpool p))); [|done]. clear t Ht. intros t id Ht. unfold mark_id.
  destruct (t !! id) as [[m tx0]|] eqn:Hid; [|done]. destruct (double_spend_seen m); simpl; [done|].
  intros id' m' tx' [[<- [= <- <-]]|[_ Hl]]%lookup_insert_Some; [|by apply Ht]. by destruct (Ht _ _ _ Hid) as (m0 & ? & ?); eauto.
Qed.

Lemma not_spent p tx id k :
  pool_ok p -> have_tx_keyimges_as_spent p tx id = false -> k ∈ vin tx ->
  holders (m_spent_key_images p) k ⊆ {[id]}
  /\ (id ∉ holders (m_spent_key_images p) k \/ txpool_tx_matches_category p id Clegacy = false).
Proof.
  intros Hok Hs Hk. assert (have_tx_keyimg_as_spent p k id = false) as Hf.
  { apply not_true_is_false. intros Ht. unfold have_tx_keyimges_as_spent in Hs. apply not_true_iff_false in Hs. apply Hs, existsb_exists.
    exists k. split; [by apply list_elem_of_In|done]. }
  unfold have_tx_keyimg_as_spent in Hf. destruct (m_spent_key_images p !! k) as [S|]; simpl; [|set_solver].
  case_bool_decide as HS; [set_solver|]. case_bool_decide as HS'; simpl in Hf; [|done]. rewrite HS'. split; [done|by right].
Qed.

(** The end of [add_tx], for a transaction whose images were noted *)
Lemma add_inserted p tx m s f now r (existing := bool_decide (is_Some (txpool p !! tx_hash tx))) :
  pool_ok p -> fits p tx -> entry_ok (tx_hash tx) m tx -> kept_by_block m = bool_decide (r = Rblock) ->
  (kept_by_block m = true \/ forall k, k ∈ vin tx -> holders (m_spent_key_images p) k ⊆ {[tx_hash tx]}) ->
  (forall k, s !! k <> Some ∅) ->
  (forall k id', id' ∈ holders s k <-> (id' = tx_hash tx /\ k ∈ vin tx) \/ id' ∈ holders (m_spent_key_images p) k) ->
  let p' := (added (add_tx_to_transient_lists (with_txpool (with_images p s) (<[tx_hash tx := (m, tx)]> (txpool p)))
               (tx_hash tx) f now now) tx (negb existing)).2 in
  pool_ok p' /\ added_to (txpool p) tx r (txpool p').
Proof.
  intros [Hc Ho] (Hnd & Hsame & Hw) He Hm Hkept Hs Heq. unfold added. cbv zeta. simpl snd.
  set (p0 := add_tx_to_transient_lists _ _ _ _ _). set (p1 := if negb existing then _ else _).
  assert (pool_ok p1 /\ txpool p1 = <[tx_hash tx := (m, tx)]> (txpool p)) as [Hok1 Ht1].
  { destruct Hkept as [Hkept|Hkept].
    all: pose proof (insert_core (txpool p) _ _ (tx_hash tx) m tx s Hc Hsame He) as Hins; fold existing in Hins.
    all: destruct Hins as [H1 H2 H3 H4]; [set_solver..| ].
    all: assert (0 <= m_txpool_weight p) by (rewrite (core_weight _ _ _ Hc); apply pool_weight_nonneg, Hc).
    all: assert (weight m = get_transaction_weight tx) as HW by apply He; specialize (weight_nonneg tx).
    all: assert (u64 (m_txpool_weight p + get_transaction_weight tx) = m_txpool_weight p + get_transaction_weight tx) as Hu
      by (apply wrap_small; unfold UINT64_MAX in *; mach).
    all: subst p1 p0; destruct existing; simpl; (split; [|done]); (split; [split; simpl; try done; lia|by apply transient_order]). }
  destruct (prune_ok p1 (m_txpool_max_weight p1) Hok1) as [Hok2 Hsub]. split; [done|].
  intros id m' tx' Hl. pose proof (lookup_weaken _ _ _ _ Hl Hsub) as Hl'. rewrite Ht1 in Hl'.
  apply lookup_insert_Some in Hl' as [[<- [= <- <-]]|[_ Hl']]; [by right|left; eauto].
Qed.

Lemma insert_images_cases p tx r :
  pool_ok p -> fits p tx -> (r = Rblock \/ have_tx_keyimges_as_spent p tx (tx_hash tx) = false) ->
  insert_key_images p tx (tx_hash tx) r = (false, p)
  \/ exists s, insert_key_images p tx (tx_hash tx) r = (true, with_images p s) /\ (forall k, s !! k <> Some ∅)
       /\ forall k id', id' ∈ holders s k <-> (id' = tx_hash tx /\ k ∈ vin tx) \/ id' ∈ holders (m_spent_key_images p) k.
Proof.
  intros Hok (Hnd & Hsame & _) Hr. unfold insert_key_images. pose proof Hok as [[_ [Hi Hne] _ _] _].
  destruct (decide (r = Rblock /\ txpool_tx_matches_category p (tx_hash tx) Clegacy = true)) as [[-> Hl]|Hcase].
  - destruct (txpool p !! tx_hash tx) as [[m0 tx0]|] eqn:Hid.
    2: { unfold txpool_tx_matches_category, get_txpool_tx_meta in Hl. by rewrite Hid in Hl. }
    pose proof (Hsame _ _ eq_refl) as ->.
    destruct (insert_loop_refused (vin tx) p (tx_hash tx)) as [[Hv Hins]|(s & Hins & Hs)]; [|done| |].
    + intros k Hk. apply Hi. by exists m0, tx.
    + right. exists (m_spent_key_images p). rewrite Hins, Hv. split; [by destruct p|]. set_solver.
    + left. rewrite Hins. apply map_eq in Hs as ->. by destruct p.
  - right. apply insert_loop_spec; [done| | |done].
    + intros k Hk. destruct Hr as [|Hr]; [by left|right]. by eapply not_spent.
    + intros k Hk. destruct Hr as [->|Hr]; [|by eapply not_spent].
      right. apply not_true_is_false. naive_solver.
Qed.

Lemma new_meta_entry tx v used_id used_height time is_relayed spent base :
  NoDup (vin tx) -> relay_ok base -> entry_ok (tx_hash tx) (new_meta tx v used_id used_height time is_relayed spent base) tx.
Proof. intros Hnd Hb. do 4 (split; [done|]). by apply (relay_ok_same base). Qed.

Lemma added_same p tx : pool_ok p -> pool_ok (added p tx false).2 /\ from_table (txpool p) (txpool (added p tx false).2).
Proof. intros Hok. destruct (prune_ok p (m_txpool_max_weight p) Hok). split; [done|]. by apply from_table_subseteq. Qed.

Lemma add_invalid_ok p tx v is_relayed :
  pool_ok p -> fits p tx ->
  pool_ok (add_invalid p tx v is_relayed).2 /\ added_to (txpool p) tx Rblock (txpool (add_invalid p tx v is_relayed).2).
Proof.
  intros Hok Hfits. unfold add_invalid. set (m := new_meta _ _ _ _ _ _ _ _).
  destruct (insert_images_cases p tx Rblock Hok Hfits) as [-> |(s & -> & Hs & Heq)]; [by left| |]; simpl.
  { split; [done|apply from_table_added, from_table_refl]. }
  pose proof (add_inserted p tx m s (rate_of tx) (v_now v) Rblock Hok Hfits) as Hadd.
  destruct (bool_decide (is_Some (txpool p !! tx_hash tx))) eqn:Hin.
  - split; [|apply from_table_added, from_table_refl]. apply bool_decide_eq_true in Hin as [[m0 tx0] Hin].
    destruct Hfits as (_ & Hsame & _). pose proof (Hsame _ _ Hin) as ->. destruct Hok as [[He [Hi Hne] Hsi Hw] Ho].
    split; [|done]. split; [done| |done|done]. split; [|done]. intros k id'. simpl. rewrite Heq, Hi. split; [|by right].
    intros [[-> Hk]|]; [by exists m0, tx|done].
  - apply Hadd; [apply new_meta_entry; [apply Hfits|apply set_relay_ok]|done|by left|done|done].
Qed.

Lemma add_valid_ok p tx v r is_relayed :
  pool_ok p -> fits p tx -> (r = Rblock \/ have_tx_keyimges_as_spent p tx (tx_hash tx) = false) ->
  pool_ok (add_valid p tx v r is_relayed).2 /\ added_to (txpool p) tx r (txpool (add_valid p tx v r is_relayed).2).
Proof.
  intros Hok Hfits Hr. unfold add_valid, get_txpool_tx_meta.
  set (existing := fst <$> txpool p !! tx_hash tx).
  set (r' := match existing with Some m => if bool_decide (r = Rstem) && dandelionpp_stem m then Rfluff else r | None => r end).
  assert (bool_decide (r' = Rblock) = bool_decide (r = Rblock)) as Hrr.
  { subst r'. destruct existing; [|done]. destruct (bool_decide (r = Rstem)) eqn:E; simpl; [|done].
    apply bool_decide_eq_true in E as ->. by destruct (dandelionpp_stem _). }
  set (base := match existing with Some _ => _ | None => _ end).
  destruct (upgrade_relay_method base r') as [upgraded m] eqn:Hu.
  destruct (upgraded || negb (bool_decide (is_Some existing))) eqn:Hgo.
  2: { destruct (added_same p tx Hok). split; [done|by apply from_table_added]. }
  assert (exists m0, m = set_relay_method m0 r') as [m0 ->].
  { destruct (upgrade_cases base r') as [[E _]|[E Hle]]; rewrite E in Hu; injection Hu as <- <-; [by exists base|].
    subst base. clearbody r'. destruct existing; [done|]. exists zero_meta. by destruct r'. }
  set (p1 := if bool_decide (r' = Rforward) then _ else _).
  assert (exists y, p1 = with_next_check p y) as [y ->].
  { subst p1. unfold set_if_less. destruct (bool_decide (r' = Rforward)); [destruct (_ <? m_next_check p)|];
      [eexists; reflexivity|exists (m_next_check p); by destruct p..]. }
  set (m := new_meta _ _ _ _ _ _ _ _).
  assert (r' = Rblock \/ have_tx_keyimges_as_spent p tx (tx_hash tx) = false) as Hr'.
  { destruct Hr as [->|]; [left|by right]. apply (bool_decide_eq_true_1 (r' = Rblock)). by rewrite Hrr. }
  destruct (insert_images_cases (with_next_check p y) tx r' Hok Hfits Hr') as [-> |(s & -> & Hs & Heq)]; simpl.
  { split; [done|apply from_table_added, from_table_refl]. }
  pose proof (add_inserted (with_next_check p y) tx m s (rate_of tx) (v_now v) r Hok Hfits) as Hadd.
  rewrite (bool_decide_ext (is_Some existing) (is_Some (txpool p !! tx_hash tx))) by (subst existing; apply fmap_is_Some).
  apply Hadd; [apply new_meta_entry; [apply Hfits|apply set_relay_ok]|exact Hrr| |done|done].
  destruct Hr' as [Hb|Hs']; [left; by apply (bool_decide_eq_true_2 (r' = Rblock))|right]. intros k Hk. by eapply (not_spent p tx).
Qed.

Lemma add_tx_ok p tx v r is_relayed :
  pool_ok p -> (v_consensus v = true -> fits p tx) ->
  pool_ok (add_tx p tx v r is_relayed).2 /\ added_to (txpool p) tx r (txpool (add_tx p tx v r is_relayed).2).
Proof.
  intros Hok Hfits. assert (pool_ok p /\ added_to (txpool p) tx r (txpool p)) as Hsame
    by (split; [done|apply from_table_added, from_table_refl]).
  unfold add_tx. case_match; [done|]. destruct (v_consensus v); simpl; [|done]. specialize (Hfits eq_refl).
  do 3 (case_match; [done|]). destruct (negb _ && have_tx_keyimges_as_spent _ _ _) eqn:Hspent.
  { split; [by apply mark_double_spend_ok|apply from_table_added, mark_from_table]. }
  destruct (v_inputs v); simpl.
  - apply add_valid_ok; [done..|]. apply andb_false_iff in Hspent as [Hb|]; [left|by right].
    by apply negb_false_iff, bool_decide_eq_true in Hb.
  - case_bool_decide as Hb; [|done]. subst r. by apply add_invalid_ok.
Qed.

(** ** Entries read before and written back *)

(** Entries that say of the transactions in the pool what they are *)
Definition snapshot (t : table) (es : list (hash * txpool_tx_meta_t)) : Prop := forall e m0 tx,
  e ∈ es -> t !! e.1 = Some (m0, tx) -> entry_ok e.1 e.2 tx /\ kept_by_block e.2 = kept_by_block m0.

Lemma snapshot_from t t' es : snapshot t es -> from_table t t' -> snapshot t' es.
Proof. intros Hs Ht e m0 tx He Hl. destruct (Ht _ _ _ Hl) as (m & Hm & <-). by apply Hs. Qed.

Lemma snapshot_update p es e m' :
  pool_ok p -> snapshot (txpool p) es -> e ∈ es -> same_entry e.2 m' ->
  pool_ok (update_txpool_tx p e.1 m') /\ from_table (txpool p) (txpool (update_txpool_tx p e.1 m')).
Proof.
  intros Hok Hs He Hm. pose proof Hm as (_ & _ & Hk & _). split.
  - apply update_txpool_ok; [done|]. intros m0 tx Hl. destruct (Hs e m0 tx He Hl) as [Hent Hk0]. split; [by eapply same_entry_ok|congruence].
  - unfold update_txpool_tx. destruct (txpool p !! e.1) as [[m0 tx]|] eqn:Hl; [|apply from_table_refl]. simpl.
    intros id m tx' [[<- [= <- <-]]|[_ Hl']]%lookup_insert_Some; [|eauto]. exists m0. split; [done|].
    destruct (Hs e m0 tx He Hl) as [_ Hk0]. congruence.
Qed.

Lemma relayable_changes now (entries : list pool_entry) txs change next_check e :
  e ∈ (relayable_loop now entries txs change next_check).1.2 -> e ∈ change \/ exists tx, (e.1, (e.2, tx)) ∈ entries.
Proof.
  revert txs change next_check. induction entries as [|[id [m tx]] entries IH]; intros txs change next_check; simpl; [by left|].
  assert (forall txs change' nc, (forall x, x ∈ change' -> x ∈ change \/ x = (id, m)) ->
            e ∈ (relayable_loop now entries txs change' nc).1.2 -> e ∈ change \/ exists tx0, (e.1, (e.2, tx0)) ∈ (id, (m, tx)) :: entries) as Hnext.
  { intros txs' change' nc Hc [[?| ->]%Hc|(tx0 & ?)]%IH; [by left|right; exists tx; left|right; exists tx0; by right]. }
  case_match; [by apply Hnext; left|]. destruct (relay_due now m) as [|time|reset]; [by apply Hnext; left..|].
  apply Hnext. intros x Hx. destruct reset; [|by left]. apply elem_of_app in Hx as [?|Hx]; [by left|right]. by apply list_elem_of_singleton in Hx.
Qed.

Lemma relayable_ok p now batch : pool_ok p -> pool_ok (get_relayable_transactions p now batch).2.
Proof.
  intros Hok. unfold get_relayable_transactions. destruct (_ || _); [done|].
  pose proof (relayable_changes now (map_to_list (txpool p)) [] [] (now + max_relayable_check)) as Hc.
  destruct (relayable_loop _ _ _ _ _) as [[txs change] next]. simpl in *. destruct batch; [|done].
  assert (snapshot (txpool p) change) as Hs.
  { intros e m0 tx [?|(tx0 & Hin)]%Hc Hl; [set_solver|]. apply elem_of_map_to_list in Hin. rewrite Hl in Hin. simplify_eq.
    split; [by eapply entry_of|done]. }
  clear Hc. enough (pool_ok (foldl (reset_time now) p change)) by done. revert p Hok Hs.
  assert (forall l p, (forall e, e ∈ l -> e ∈ change) -> pool_ok p -> snapshot (txpool p) change -> pool_ok (foldl (reset_time now) p l)) as Hgen.
  { induction l as [|e l IH]; intros p Hl Hok Hs; simpl; [done|].
    destruct (snapshot_update p change e
                (with_relay_time e.2 (u64 (now + get_relay_delay (to_time_t (last_relayed_time e.2)) (to_time_t (receive_time e.2))))))
      as [H1 H2]; [done|done|apply Hl; left|done|].
    apply IH; [intros; apply Hl; by right|exact H1|by eapply snapshot_from]. }
  intros p Hok Hs. by apply Hgen.
Qed.


Lemma from_table_weight t t' : entries_ok t -> entries_ok t' -> from_table t t' -> pool_weight t' <= pool_weight t.
Proof.
  revert t. induction t' as [|id [m tx] t' Hid IH] using map_ind; intros t He He' Hf; [by apply pool_weight_nonneg|].
  destruct (Hf id m tx) as (m0 & Hl & Hk); [by rewrite lookup_insert_eq|].
  rewrite pool_weight_insert, (pool_weight_delete t id (m0, tx)) by done. simpl.
  destruct (He _ _ _ Hl) as (_ & -> & _), (He' id m tx) as (_ & -> & _); [by rewrite lookup_insert_eq|].
  enough (pool_weight t' <= pool_weight (delete id t)) by lia. apply IH.
  - by apply delete_entries.
  - intros id' m' tx' Hl'. apply He'. rewrite lookup_insert_ne; congruence.
  - intros id' m' tx' Hl'. rewrite lookup_delete_ne by congruence. apply Hf. rewrite lookup_insert_ne; congruence.
Qed.

Lemma entry_weight_le p id m tx : pool_ok p -> txpool p !! id = Some (m, tx) -> weight m <= m_txpool_weight p.
Proof.
  intros [[He _ _ ->] _] Hl. rewrite (pool_weight_delete _ _ _ Hl). simpl. pose proof (pool_weight_nonneg _ (delete_entries _ id He)). lia.
Qed.

Lemma from_table_trans t1 t2 t3 : from_table t1 t2 -> from_table t2 t3 -> from_table t1 t3.
Proof. intros H1 H2 id m tx Hl. destruct (H2 _ _ _ Hl) as (m2 & Hl2 & <-). by apply H1. Qed.

Lemma revalidate_ok verdict es n p e :
  pool_ok p -> snapshot (txpool p) es -> e ∈ es -> m_txpool_weight p <= UINT64_MAX ->
  let p' := (revalidate verdict (n, p) e).2 in pool_ok p' /\ from_table (txpool p) (txpool p').
Proof.
  intros Hok Hs He Hmax. unfold revalidate. cbv zeta.
  destruct (take_tx p e.1) as [[[taken tx] p1]|] eqn:Htake; [|split; [done|apply from_table_refl]].
  destruct (take_tx_ok _ _ _ _ _ Hok Htake) as (Hok1 & Hl & Ht1).
  destruct (Hs e taken tx He Hl) as [Hent Hk]. pose proof Hent as (Hh & Hw & _ & Hnd & Hr).
  assert (fits p1 tx) as Hfits.
  { split; [done|split].
    - intros m0 tx0. by rewrite Hh, Ht1, lookup_delete_eq.
    - destruct Hok1 as [[_ _ _ ->] _]. rewrite Ht1. destruct Hok as [[Hes _ _ Hwp] _].
      rewrite Hwp, (pool_weight_delete _ e.1 (taken, tx)) in Hmax by done. simpl in Hmax.
      destruct (Hes _ _ _ Hl) as (_ & Hwt & _). lia. }
  destruct (add_tx_ok p1 tx (verdict e.1) (get_relay_method e.2) (relayed taken) Hok1 (fun _ => Hfits)) as [Hok2 Hadd].
  destruct (add_tx _ _ _ _ _) as [[ok tvc] p2]. simpl in *.
  assert (from_table (txpool p) (txpool p2)) as Hft.
  { intros id m tx' [(m0 & Hm0 & Hk0)|(-> & -> & Hk0)]%Hadd.
    - exists m0. rewrite Ht1 in Hm0. by apply lookup_delete_Some in Hm0 as [_ ?].
    - exists taken. rewrite Hh. split; [done|]. rewrite Hk0, <- Hk. by apply kept_is_block. }
  destruct ok; simpl; [|done]. case_bool_decide; simpl; [|done].
  destruct (snapshot_update p2 es e e.2) as [? ?]; [done|by eapply snapshot_from|done|done|].
  split; [done|by eapply from_table_trans].
Qed.

Lemma validate_ok p verdict : pool_ok p -> m_txpool_weight p <= UINT64_MAX ->
  let p' := (validate p verdict).2 in pool_ok p' /\ from_table (txpool p) (txpool p').
Proof.
  intros Hok Hmax. unfold validate. set (p0 := with_lists _ _ _). set (es := fmap (M := list) _ _).
  assert (snapshot (txpool p0) es) as Hs.
  { intros e m0 tx Hin Hl. apply list_elem_of_fmap in Hin as ([id [m tx']] & -> & [_ Hin%elem_of_map_to_list]%list_elem_of_filter).
    simpl in *. rewrite Hl in Hin. simplify_eq. split; [by eapply entry_of|done]. }
  assert (pool_ok p0) as Hok0 by done. assert (m_txpool_weight p0 <= UINT64_MAX) as Hmax0 by done.
  cbv zeta. change (txpool p) with (txpool p0). clearbody p0. clear Hok Hmax p.
  assert (forall l n q, (forall e, e ∈ l -> e ∈ es) -> pool_ok q -> from_table (txpool p0) (txpool q) ->
    pool_ok (foldl (revalidate verdict) (n, q) l).2 /\ from_table (txpool p0) (txpool (foldl (revalidate verdict) (n, q) l).2)) as Hgen.
  { induction l as [|e l IH]; intros n q Hl Hq Hf; cbn [foldl]; [done|].
    destruct (revalidate_ok verdict es n q e) as [? ?]; [done|by eapply snapshot_from|apply Hl; left| |].
    - etransitivity; [|exact Hmax0]. destruct Hq as [[? _ _ ->] _], Hok0 as [[? _ _ ->] _]. by apply from_table_weight.
    - destruct (revalidate verdict (n, q) e) as [n' q']. apply IH; [intros; apply Hl; by right|done|by eapply from_table_trans]. }
  destruct (Hgen es 0 p0) as [? ?]; [done|done|apply from_table_refl|]. by destruct (foldl _ _ _).
Qed.

(** ** Restarting *)

Lemma images_unique t s1 s2 : images_ok t s1 -> images_ok t s2 -> s1 = s2.
Proof.
  intros [H1 N1] [H2 N2]. apply map_eq. intros k.
  assert (holders s1 k = holders s2 k) as Hk by (apply set_eq; intros id; by rewrite H1, H2).
  specialize (N1 k). specialize (N2 k). destruct (s1 !! k), (s2 !! k); simpl in Hk; congruence.
Qed.

(** One more transaction of the table in memory *)
Lemma init_one t d id m tx p now :
  entries_ok t -> single_ok t -> pool_weight t <= UINT64_MAX -> txpool p = t -> d ⊆ t ->
  core_ok d (m_spent_key_images p) (m_txpool_weight p) -> order_ok d (m_txs_by_fee_and_receive_time p) ->
  t !! id = Some (m, tx) -> d !! id = None ->
  (kept_by_block m = false -> forall id' e, d !! id' = Some e -> kept_by_block e.1 = false) ->
  exists s, insert_key_images p tx id (get_relay_method m) = (true, with_images p s) /\
    let p' := add_tx_to_transient_lists (with_images p s) id (fee_rate (fee m) (weight m)) (receive_time m) now in
    let p' := with_weight p' (u64 (m_txpool_weight p' + weight m)) in
    <[id := (m, tx)]> d ⊆ t /\ core_ok (<[id := (m, tx)]> d) (m_spent_key_images p') (m_txpool_weight p')
    /\ order_ok (<[id := (m, tx)]> d) (m_txs_by_fee_and_receive_time p').
Proof.
  intros He Hsi Hmax Ht Hsub Hc Ho Hid Hnew Hkept. pose proof (He _ _ _ Hid) as (Hh & Hw & Hf & Hnd & Hr).
  pose proof Hc as [Hed [Hi Hne] Hsd Hwd].
  assert (forall k, id ∉ holders (m_spent_key_images p) k) as Hfresh.
  { intros k (m1 & tx1 & Hl & _)%Hi. congruence. }
  assert (kept_by_block m = true \/ forall k id', k ∈ vin tx -> id' ∈ holders (m_spent_key_images p) k -> id' = id) as Hone.
  { destruct (kept_by_block m) eqn:Hkm; [by left|right]. intros k id' Hk (m1 & tx1 & Hl & Hk1)%Hi.
    apply (Hsi k id' m1 tx1 id m tx); [by eapply lookup_weaken|done..| |done]. by apply (Hkept eq_refl id' (m1, tx1)). }
  destruct (insert_loop_spec (vin tx) p id (get_relay_method m) Hnd) as (s & Hins & Hs & Heq); [| |done|].
  { intros k Hk. rewrite (kept_is_block m Hr) in Hone. destruct Hone as [Hb%bool_decide_eq_true|Hone]; [by left|right].
    intros id' Hid'. apply elem_of_singleton. by eapply Hone. }
  { intros k Hk. left. apply Hfresh. }
  exists s. split; [done|]. cbv zeta. simpl m_txpool_weight. simpl m_spent_key_images.
  assert (<[id := (m, tx)]> d ⊆ t) as Hsub' by (by apply insert_subseteq_l).
  pose proof (insert_core d _ _ id m tx s Hc) as Hcore. rewrite bool_decide_eq_false_2 in Hcore by (rewrite Hnew; by apply is_Some_None).
  assert (core_ok (<[id := (m, tx)]> d) s (m_txpool_weight p + weight m)) as Hcore'.
  { apply Hcore; [congruence|by apply He|done|done|done]. }
  split; [done|split; [|exact (transient_order d (with_images p s) id (m, tx) _ _ _ Ho)]].
  rewrite wrap_small; [done|]. pose proof Hcore' as [He' _ _ Hw']. unfold in_width. rewrite Hw'.
  pose proof (pool_weight_nonneg _ He'). pose proof (from_table_weight t _ He He' (from_table_subseteq _ _ Hsub')).
  unfold UINT64_MAX in *. lia.
Qed.

Lemma init_pass_spec kept now t (entries : list pool_entry) d p :
  entries_ok t -> single_ok t -> pool_weight t <= UINT64_MAX -> txpool p = t -> d ⊆ t ->
  core_ok d (m_spent_key_images p) (m_txpool_weight p) -> order_ok d (m_txs_by_fee_and_receive_time p) ->
  NoDup entries.*1 -> (forall e, e ∈ entries -> t !! e.1 = Some e.2 /\ (kept_by_block e.2.1 = kept -> d !! e.1 = None)) ->
  (kept = false -> forall id e, d !! id = Some e -> kept_by_block e.1 = false) ->
  exists p' d', init_pass kept now entries p = (true, p') /\ txpool p' = t /\ m_txpool_max_weight p' = m_txpool_max_weight p /\ d' ⊆ t
    /\ core_ok d' (m_spent_key_images p') (m_txpool_weight p') /\ order_ok d' (m_txs_by_fee_and_receive_time p')
    /\ (forall id e, d' !! id = Some e <-> d !! id = Some e \/ (id, e) ∈ entries /\ kept_by_block e.1 = kept).
Proof.
  intros He Hsi Hmax. revert d p. induction entries as [|[id [m tx]] entries IH]; intros d p Ht Hsub Hc Ho Hnd Hin Hk; simpl.
  { exists p, d. do 6 (split; [done|]). set_solver. }
  rewrite fmap_cons in Hnd. apply NoDup_cons in Hnd as [Hid Hnd]. destruct (Hin (id, (m, tx)) ltac:(left)) as [Hl Hnew]. simpl in Hl, Hnew.
  destruct (eqb kept (kept_by_block m)) eqn:Hkm; simpl.
  - apply eqb_prop in Hkm. symmetry in Hkm. specialize (Hnew Hkm).
    destruct (init_one t d id m tx p now) as (s & -> & Hsub' & Hc' & Ho'); [done..|intros ?; apply Hk; congruence|]. simpl.
    match goal with |- context [init_pass _ _ entries ?q] =>
      destruct (IH (<[id := (m, tx)]> d) q Ht Hsub' Hc' Ho' Hnd) as (p' & d' & -> & Ht' & Hmx & Hsub'' & Hc'' & Ho'' & Hd') end.
    + intros e Hel. destruct (Hin e) as [? Hn]; [by right|]. split; [done|]. intros Hke. rewrite lookup_insert_ne; [by apply Hn|].
      intros ->. apply Hid. by apply (list_elem_of_fmap_2 fst entries e).
    + intros Hf id' e [[<- <-]|[_ Hl']]%lookup_insert_Some; [simpl; congruence|by eapply Hk].
    + exists p', d'. do 6 (split; [done|]). intros id' e. rewrite Hd', lookup_insert_Some, elem_of_cons. split.
      * intros [[[<- <-]|[_ ?]]|[? ?]]; [right; split; [by left|done]|by left|right; split; [by right|done]].
      * intros [Hde|[[Heq|?] ?]]; [|simplify_eq; by left; left|by right].
        left. right. split; [|done]. intros ->. congruence.
  - destruct (IH d p Ht Hsub Hc Ho Hnd) as (p' & d' & -> & Ht' & Hmx & Hsub' & Hc' & Ho' & Hd'); [intros e Hel; apply Hin; by right|done|].
    exists p', d'. do 6 (split; [done|]). intros id' e. rewrite Hd', elem_of_cons. split; [naive_solver|].
    intros [?|[[Heq|?] Hke]]; [by left| |by right]. simplify_eq. simpl in Hkm. by rewrite eqb_reflx in Hkm.
Qed.

Lemma init_spec p max now : pool_ok p -> m_txpool_weight p <= UINT64_MAX ->
  exists p', init p max now = (true, p') /\ pool_ok p' /\ txpool p' = txpool p
    /\ m_spent_key_images p' = m_spent_key_images p /\ m_txpool_weight p' = m_txpool_weight p
    /\ m_txpool_max_weight p' = (if negb (max =? 0) then max else DEFAULT_TXPOOL_MAX_WEIGHT).
Proof.
  intros [[He Hi Hsi Hw] Ho] Hmax. rewrite Hw in Hmax. unfold init. cbv zeta. set (p0 := Build_tx_memory_pool _ _ _ _ _ _ _ _).
  change (txpool p0) with (txpool p).
  assert (forall e, e ∈ map_to_list (txpool p) -> txpool p !! e.1 = Some e.2) as Hall.
  { intros [id e] Hin. by apply elem_of_map_to_list in Hin. }
  destruct (init_pass_spec false now (txpool p) (map_to_list (txpool p)) ∅ p0)
    as (p1 & d1 & -> & Ht1 & Hm1 & Hsub1 & Hc1 & Ho1 & Hd1); try done.
  - apply map_empty_subseteq.
  - split; [done| |done|done]. split; [|done]. intros k id. simpl. split; [set_solver|]. by intros (? & ? & ? & _).
  - split; [constructor|]. split; [|constructor]. intros id. simpl. split; [set_solver|]. by intros [? ?].
  - apply NoDup_fst_map_to_list.
  - intros e Hin. split; [by apply Hall|done].
  - simpl. rewrite Ht1. destruct (init_pass_spec true now (txpool p) (map_to_list (txpool p)) d1 p1)
      as (p2 & d2 & -> & Ht2 & Hm2 & Hsub2 & Hc2 & Ho2 & Hd2); try done.
    + apply NoDup_fst_map_to_list.
    + intros e Hin. split; [by apply Hall|]. intros Hk. apply eq_None_not_Some. intros [e' [?|[Hin' Hk']]%Hd1]; [done|].
      apply Hall in Hin, Hin'. simpl in Hin'. congruence.
    + assert (d2 = txpool p) as ->.
      { apply map_eq. intros id. apply option_eq. intros e. rewrite Hd2, Hd1. split.
        - intros [[?|[Hin _]]|[Hin _]]; [done|by apply Hall in Hin..].
        - intros Hl%elem_of_map_to_list. destruct (kept_by_block e.1) eqn:Hk; [by right|left; by right]. }
      pose proof Hc2 as [_ Hi2 _ Hw2].
      exists p2. split; [done|]. unfold pool_ok. rewrite Ht2. split; [done|]. split; [done|].
      split; [by eapply images_unique|]. split; [congruence|]. by rewrite Hm2, Hm1.
Qed.

(** ** What pruning removes *)

Definition is_kept (t : table) (id : hash) : bool := match t !! id with Some (m, _) => kept_by_block m | None => false end.
Definition pruned_from (t : table) (l : list (rate * Z * hash)) (id : hash) : option (txpool_tx_meta_t * transaction) :=
  if decide (id ∈ l.*2) then if is_kept t id then t !! id else None else t !! id.

Lemma filter_ext_in {A} (P Q : A -> Prop) `{forall x, Decision (P x), forall x, Decision (Q x)} (l : list A) :
  (forall x, x ∈ l -> P x <-> Q x) -> filter P l = filter Q l.
Proof.
  induction l as [|x l IH]; intros Hl; [done|]. rewrite !filter_cons, IH by (intros; apply Hl; by right).
  destruct (decide (P x)) as [Hp|Hp], (decide (Q x)) as [Hq|Hq]; rewrite (Hl x) in Hp by left; done.
Qed.

Lemma pruned_from_nil t id : pruned_from t [] id = t !! id.
Proof. unfold pruned_from. destruct (decide _) as [H'|]; [set_solver|done]. Qed.

Lemma erase_middle (l q : list (rate * Z * hash)) it :
  NoDup (l ++ it :: q).*2 -> bimap_erase it.2 (l ++ it :: q) = l ++ q.
Proof.
  rewrite fmap_app, fmap_cons, NoDup_app, NoDup_cons. intros (_ & Hl & Hq & _). unfold bimap_erase.
  rewrite filter_app, filter_cons_False by (by intros []). f_equal; apply filter_all, Forall_forall; intros x Hx.
  - intros E. apply (Hl x.2); [by apply list_elem_of_fmap_2|]. rewrite E. left.
  - intros E. apply Hq. rewrite <- E. by apply list_elem_of_fmap_2.
Qed.

Lemma pruned_from_snoc t l it id :
  pruned_from t (l ++ [it]) id = if decide (id = it.2) then if is_kept t id then t !! id else None else pruned_from t l id.
Proof.
  unfold pruned_from. rewrite fmap_app. destruct (decide (id ∈ l.*2 ++ _)) as [Hin|Hn].
  - apply elem_of_app in Hin as [Hin|Hin%list_elem_of_singleton].
    + rewrite (decide_True (P := id ∈ l.*2)) by done. by destruct (decide (id = it.2)).
    + by rewrite decide_True.
  - rewrite decide_False, decide_False; [done|set_solver..].
Qed.

(** Of the entries [l] between [x] and [q] those that are from no block are dropped from the
    end until the limit is met. *)
Definition pruned_to (bytes : Z) (p p' : tx_memory_pool) (x : rate * Z * hash) (l q : list (rate * Z * hash)) : Prop :=
  exists l1 l2, l = l1 ++ l2
    /\ m_txs_by_fee_and_receive_time p' = x :: l1 ++ filter (fun e => is_kept (txpool p) e.2 = true) l2 ++ q
    /\ (forall id, txpool p' !! id = pruned_from (txpool p) l2 id)
    /\ (m_txpool_weight p' <= bytes \/ l1 = [])
    /\ (forall e l m tx, l2 = e :: l -> txpool p !! e.2 = Some (m, tx) -> bytes < m_txpool_weight p' + weight m).

Lemma pruned_stop bytes p x l q :
  m_txs_by_fee_and_receive_time p = x :: l ++ q -> m_txpool_weight p <= bytes \/ l = [] -> pruned_to bytes p p x l q.
Proof.
  intros Hl Hb. exists l, []. rewrite app_nil_r. do 2 (split; [done|]). split; [|done]. intros. by rewrite pruned_from_nil.
Qed.

(** Nothing was dropped: the same weight *)
Lemma pruned_nothing p p' :
  pool_ok p -> pool_ok p' -> (forall id, txpool p' !! id = pruned_from (txpool p) [] id) -> m_txpool_weight p' = m_txpool_weight p.
Proof.
  intros [[_ _ _ ->] _] [[_ _ _ ->] _] Heq. f_equal. apply map_eq. intros id. by rewrite Heq, pruned_from_nil.
Qed.

Lemma pruned_kept bytes p p' x l it q m tx :
  pool_ok p -> pool_ok p' -> bytes < m_txpool_weight p -> txpool p !! it.2 = Some (m, tx) -> kept_by_block m = true ->
  pruned_to bytes p p' x l (it :: q) -> pruned_to bytes p p' x (l ++ [it]) q.
Proof.
  intros Hok Hok' Hgt Hid Hk (l1 & l2 & -> & Hl' & Ht' & Hb & Hmin). exists l1, (l2 ++ [it]). rewrite <- app_assoc. split; [done|].
  assert (is_kept (txpool p) it.2 = true) as Hkept by (unfold is_kept; by rewrite Hid).
  split; [|split; [|split; [done|]]].
  - rewrite Hl', filter_app, <- app_assoc. do 3 f_equal. by rewrite filter_cons_True.
  - intros id. rewrite Ht', pruned_from_snoc. destruct (decide (id = it.2)) as [->|]; [|done]. unfold pruned_from.
    rewrite Hkept. by destruct (decide _).
  - intros e l me txe Hel Hle. destruct l2 as [|e' l2]; simplify_list_eq; [|by eapply Hmin].
    rewrite (pruned_nothing p p' Hok Hok' Ht'). destruct (entry_of _ _ _ _ Hok Hid) as (_ & -> & _). specialize (weight_nonneg tx). lia.
Qed.

Lemma pruned_drop bytes p p1 p' x l it q m tx :
  pool_ok p -> pool_ok p1 -> pool_ok p' -> m_txs_by_fee_and_receive_time p = x :: l ++ it :: q ->
  bytes < m_txpool_weight p -> txpool p !! it.2 = Some (m, tx) -> kept_by_block m = false ->
  txpool p1 = delete it.2 (txpool p) -> m_txpool_weight p1 = m_txpool_weight p - weight m ->
  pruned_to bytes p1 p' x l q -> pruned_to bytes p p' x (l ++ [it]) q.
Proof.
  intros Hok Hok1 Hok' Hlist Hgt Hid Hk Ht1 Hw1 (l1 & l2 & -> & Hl' & Ht' & Hb & Hmin).
  exists l1, (l2 ++ [it]). rewrite <- app_assoc. split; [done|].
  assert (is_kept (txpool p) it.2 = false) as Hkept by (unfold is_kept; by rewrite Hid).
  destruct Hok as [_ (Hnd & _ & _)]. rewrite Hlist, fmap_cons, !fmap_app, fmap_cons, NoDup_cons, NoDup_app in Hnd.
  destruct Hnd as (_ & _ & Hnd & _).
  assert (forall e, e ∈ l2.*2 -> e <> it.2) as Hother by (intros e Hel ->; apply (Hnd it.2); [set_solver|left]). clear Hnd.
  assert (forall id, id <> it.2 -> txpool p1 !! id = txpool p !! id) as Hsame by (intros; rewrite Ht1; by apply lookup_delete_ne).
  assert (forall id, id <> it.2 -> is_kept (txpool p1) id = is_kept (txpool p) id) as Hsamek by (intros; unfold is_kept; by rewrite Hsame).
  split; [|split; [|split; [done|]]].
  - rewrite Hl', filter_app, <- app_assoc. do 2 f_equal. rewrite filter_cons_False by (rewrite Hkept; done). simpl. f_equal.
    apply filter_ext_in. intros e Hel. rewrite Hsamek; [done|]. apply Hother. by apply list_elem_of_fmap_2.
  - intros id. rewrite Ht', pruned_from_snoc. destruct (decide (id = it.2)) as [->|Hne].
    + rewrite Hkept. unfold pruned_from. rewrite Ht1, lookup_delete_eq. unfold is_kept. rewrite lookup_delete_eq. by destruct (decide _).
    + unfold pruned_from. by rewrite Hsamek, Hsame.
  - intros e l me txe Hel Hle. destruct l2 as [|e' l2]; simplify_list_eq.
    + rewrite (pruned_nothing p1 p' Hok1 Hok' Ht'). lia.
    + eapply Hmin; [done|]. rewrite Hsame; [done|]. apply Hother. left.
Qed.

Lemma prune_loop_spec bytes rev p x q :
  pool_ok p -> m_txs_by_fee_and_receive_time p = x :: reverse rev ++ q -> pruned_to bytes p (prune_loop bytes rev p) x (reverse rev) q.
Proof.
  revert p q. induction rev as [|it rev IH]; intros p q Hok Hl; simpl prune_loop; [apply pruned_stop; [done|by right]|].
  destruct (Z.leb_spec (m_txpool_weight p) bytes) as [Hle|Hgt]; [apply pruned_stop; [done|by left]|].
  rewrite reverse_cons in *. rewrite <- app_assoc in Hl. simpl in Hl.
  assert (is_Some (txpool p !! it.2)) as [[m tx] Hid].
  { destruct Hok as [_ (_ & Hids & _)]. apply Hids. rewrite Hl, fmap_cons, fmap_app, fmap_cons. set_solver. }
  rewrite Hid. destruct (kept_by_block m) eqn:Hk.
  - eapply pruned_kept; [done|by apply prune_loop_ok|done..|]. by apply IH.
  - destruct (drop_ok p it.2 m tx Hok Hid) as (Hok1 & Ht1 & Hw1 & Hl1).
    eapply pruned_drop; [done|exact Hok1|by apply prune_loop_ok|done..|]. apply IH; [done|].
    rewrite Hl1, Hl, app_comm_cons, erase_middle; [done|]. destruct Hok as [_ (Hnd & _)]. by rewrite Hl in Hnd.
Qed.

(** ** The pool as a transition system *)

Definition new_pool (now : Z) : tx_memory_pool :=
  {| txpool := ∅; m_spent_key_images := ∅; m_txs_by_fee_and_receive_time := []; m_added_txs_by_id := ∅; m_timed_out_transactions := ∅;
     m_txpool_weight := 0; m_txpool_max_weight := DEFAULT_TXPOOL_MAX_WEIGHT; m_next_check := now |}.

(** Every call that changes the pool, with any answer of the other parts; what passes their
    checks fits. *)
Inductive pool_step (p : tx_memory_pool) : tx_memory_pool -> Prop :=
  | step_add tx v r is_relayed : (v_consensus v = true -> fits p tx) -> pool_step p (add_tx p tx v r is_relayed).2
  | step_take id m tx p' : take_tx p id = Some (m, tx, p') -> pool_step p p'
  | step_prune bytes : pool_step p (prune p bytes)
  | step_stuck now : pool_step p (remove_stuck_transactions p now)
  | step_relayed hashes method now embargo : pool_step p (set_relayed p hashes method now embargo).2
  | step_relayable now batch_active : pool_step p (get_relayable_transactions p now batch_active).2
  | step_max_weight bytes : pool_step p (set_txpool_max_weight p bytes)
  | step_validate verdict : m_txpool_weight p <= UINT64_MAX -> pool_step p (validate p verdict).2
  | step_restart max now : m_txpool_weight p <= UINT64_MAX -> pool_step p (init p max now).2.

Lemma new_pool_ok now : pool_ok (new_pool now).
Proof.
  split; [split|]; try done; [split; [|done]|]; [intros k id; split; [set_solver|by intros (? & ? & ? & _)]|].
  split; [constructor|]. split; [|constructor]. intros id. split; [set_solver|by intros [? ?]].
Qed.

Lemma pool_step_ok p p' : pool_step p p' -> pool_ok p -> pool_ok p'.
Proof.
  destruct 1 as [tx v r rel Hfits|id m tx p' Ht|bytes|now|hashes method now embargo|now batch|bytes|verdict Hm|max now Hm]; intros Hok.
  - by apply add_tx_ok.
  - by eapply take_tx_ok.
  - by apply prune_ok.
  - by apply remove_stuck_ok.
  - by apply set_relayed_ok.
  - by apply relayable_ok.
  - done.
  - by apply validate_ok.
  - by destruct (init_spec p max now Hok Hm) as (p' & -> & ? & _).
Qed.

Lemma reachable_ok now p : rtc pool_step (new_pool now) p -> pool_ok p.
Proof. apply (rtc_ind_r (fun p => pool_ok p)); [apply new_pool_ok|]. intros p1 p2 _ Hs Hok. by eapply pool_step_ok. Qed.

Lemma pool_weight_txs t : entries_ok t -> pool_weight t = map_fold (fun _ e w => get_transaction_weight e.2 + w) 0 t.
Proof.
  induction t as [|id [m tx] t Hid IH] using map_ind; intros He; [done|].
  rewrite pool_weight_insert, (map_fold_insert_L (fun _ e w => get_transaction_weight e.2 + w) 0) by (done || (intros; lia)).
  f_equal; [by apply (He id m tx); rewrite lookup_insert_eq|]. apply IH. intros id' m' tx' Hl. apply He. rewrite lookup_insert_ne; congruence.
Qed.

(** C4: After any sequence of calls the memory agrees with the table: a key image is noted for
    exactly the transactions that spend it, at most one of them came from no block, the weight
    is the sum of the weights, and the order lists every transaction once, none before a better
    one. *)
Theorem pool_consistent now p : rtc pool_step (new_pool now) p ->
  (forall k id, id ∈ default ∅ (m_spent_key_images p !! k) <-> exists m tx, txpool p !! id = Some (m, tx) /\ k ∈ vin tx)
  /\ (forall k id1 m1 tx1 id2 m2 tx2, txpool p !! id1 = Some (m1, tx1) -> txpool p !! id2 = Some (m2, tx2) ->
        k ∈ vin tx1 -> k ∈ vin tx2 -> kept_by_block m1 = false -> kept_by_block m2 = false -> id1 = id2)
  /\ m_txpool_weight p = map_fold (fun _ e w => get_transaction_weight e.2 + w) 0 (txpool p)
  /\ NoDup (m_txs_by_fee_and_receive_time p).*2
  /\ (forall id, id ∈ (m_txs_by_fee_and_receive_time p).*2 <-> is_Some (txpool p !! id))
  /\ StronglySorted (fun a b => txFeeCompare b.1 a.1 = false) (m_txs_by_fee_and_receive_time p).
Proof.
  intros [[He [Hi _] Hs Hw] (Hnd & Hids & Hso)]%reachable_ok. do 2 (split; [done|]). split; [|done].
  rewrite Hw. by apply pool_weight_txs.
Qed.

(** ** Restarting *)

(** C23: A restart finds every transaction of the table, and rebuilds from the table alone the
    images, the weight and the set of transactions that the memory had. *)
Theorem restart_same now0 p max now : rtc pool_step (new_pool now0) p -> m_txpool_weight p <= UINT64_MAX ->
  exists p', init p max now = (true, p') /\ txpool p' = txpool p /\ m_spent_key_images p' = m_spent_key_images p
    /\ m_txpool_weight p' = m_txpool_weight p
    /\ (m_txs_by_fee_and_receive_time p').*2 ≡ₚ (m_txs_by_fee_and_receive_time p).*2.
Proof.
  intros Hok%reachable_ok Hm. destruct (init_spec p max now Hok Hm) as (p' & Hi & Hok' & Ht & Hs & Hw & _).
  exists p'. do 4 (split; [done|]). destruct Hok as [_ (Hnd & Hids & _)], Hok' as [_ (Hnd' & Hids' & _)].
  apply NoDup_Permutation; [done..|]. intros id. by rewrite Hids, Hids', Ht.
Qed.

(** ** Pruning *)

(** Pruning goes through the order from its end and drops the transactions that came from
    no block, no further than needed: either the limit is met, or only the first and those
    from blocks are left; and without the last one dropped it would not have been met. *)
Theorem prune_spec now p bytes x l : rtc pool_step (new_pool now) p ->
  m_txs_by_fee_and_receive_time p = x :: l ->
  let limit := if bytes =? 0 then m_txpool_max_weight p else bytes in
  exists l1 l2, l = l1 ++ l2
    /\ m_txs_by_fee_and_receive_time (prune p bytes) = x :: l1 ++ filter (fun e => is_kept (txpool p) e.2 = true) l2
    /\ (forall id, txpool (prune p bytes) !! id = pruned_from (txpool p) l2 id)
    /\ (m_txpool_weight (prune p bytes) <= limit \/ l1 = [])
    /\ (forall e l' m tx, l2 = e :: l' -> txpool p !! e.2 = Some (m, tx) -> limit < m_txpool_weight (prune p bytes) + weight m).
Proof.
  intros Hok%reachable_ok Hl. cbv zeta. unfold prune. rewrite Hl.
  destruct (prune_loop_spec (if bytes =? 0 then m_txpool_max_weight p else bytes) (reverse l) p x [] Hok) as (l1 & l2 & Hr & Hl' & Hrest).
  { by rewrite reverse_involutive, app_nil_r. }
  exists l1, l2. rewrite reverse_involutive in Hr. rewrite app_nil_r in Hl'. done.
Qed.

(** ** Double spends *)

(** The table after marking: the same transactions, and marked stays marked *)
Definition marks (t t' : table) : Prop :=
  dom t' = dom t /\ forall id m tx, t !! id = Some (m, tx) ->
    exists m', t' !! id = Some (m', tx) /\ (double_spend_seen m = true -> double_spend_seen m' = true).

Lemma marks_refl t : marks t t.
Proof. split; [done|]. eauto. Qed.
Lemma marks_trans t1 t2 t3 : marks t1 t2 -> marks t2 t3 -> marks t1 t3.
Proof. intros [D1 H1] [D2 H2]. split; [congruence|]. intros id m tx (m2 & Hl2 & ?)%H1. destruct (H2 _ _ _ Hl2) as (m3 & ? & ?). eauto. Qed.

Lemma mark_id_marks t id : marks t (mark_id t id).
Proof.
  unfold mark_id. destruct (t !! id) as [[m tx]|] eqn:Hid; [|apply marks_refl]. destruct (double_spend_seen m) eqn:Hm; [apply marks_refl|].
  simpl. split; [apply dom_insert_lookup_L; by rewrite Hid|]. intros id' m' tx' Hl. destruct (decide (id' = id)) as [->|].
  - rewrite lookup_insert_eq. rewrite Hid in Hl. simplify_eq. eauto.
  - rewrite lookup_insert_ne by done. eauto.
Qed.

Lemma foldl_marks {B} (f : table -> B -> table) l t : (forall t x, marks t (f t x)) -> marks t (foldl f t l).
Proof. intros Hf. apply (foldl_keeps (marks t)); [|apply marks_refl]. intros t' x Ht. eapply marks_trans; [exact Ht|apply Hf]. Qed.

(** A fold that marks the transaction at one of its elements *)
Lemma foldl_marked {B} (f : table -> B -> table) l t x id m tx :
  (forall t x, marks t (f t x)) -> x ∈ l -> t !! id = Some (m, tx) ->
  (forall t m, t !! id = Some (m, tx) -> exists m', f t x !! id = Some (m', tx) /\ double_spend_seen m' = true) ->
  exists m', foldl f t l !! id = Some (m', tx) /\ double_spend_seen m' = true.
Proof.
  intros Hf Hx Hl Hmark. apply list_elem_of_split in Hx as (l1 & l2 & ->). rewrite foldl_app. simpl.
  destruct (foldl_marks f l1 t Hf) as [_ H1]. destruct (H1 _ _ _ Hl) as (m1 & Hl1 & _). destruct (Hmark _ _ Hl1) as (m2 & Hl2 & Hm2).
  destruct (foldl_marks f l2 (f (foldl f t l1) x) Hf) as [_ H2]. destruct (H2 _ _ _ Hl2) as (m3 & Hl3 & Hm3). eauto.
Qed.

Lemma mark_double_spend_marks p tx : marks (txpool p) (txpool (mark_double_spend p tx)).
Proof. simpl. apply foldl_marks. intros t k. apply foldl_marks. apply mark_id_marks. Qed.

Lemma mark_double_spend_marked p tx k id m tx0 :
  k ∈ vin tx -> id ∈ holders (m_spent_key_images p) k -> txpool p !! id = Some (m, tx0) ->
  exists m', txpool (mark_double_spend p tx) !! id = Some (m', tx0) /\ double_spend_seen m' = true.
Proof.
  intros Hk Hid Hl. simpl. eapply foldl_marked; [intros; apply foldl_marks, mark_id_marks|exact Hk|exact Hl|].
  intros t m1 Hl1. eapply foldl_marked; [apply mark_id_marks|by apply elem_of_elements|exact Hl1|].
  intros t' m2 Hl2. unfold mark_id. rewrite Hl2. destruct (double_spend_seen m2) eqn:Hm; simpl; [eauto|]. rewrite lookup_insert_eq. eauto.
Qed.

Lemma shared_image_spent p tx k id m tx0 :
  pool_ok p -> k ∈ vin tx -> txpool p !! id = Some (m, tx0) -> k ∈ vin tx0 -> id <> tx_hash tx ->
  have_tx_keyimges_as_spent p tx (tx_hash tx) = true.
Proof.
  intros [[_ [Hi Hne] _ _] _] Hk Hl Hk0 Hid. apply existsb_exists. exists k. split; [by apply list_elem_of_In|].
  assert (id ∈ holders (m_spent_key_images p) k) as Hin by (apply Hi; by exists m, tx0).
  unfold have_tx_keyimg_as_spent. destruct (m_spent_key_images p !! k) as [S|]; simpl in Hin; [|set_solver].
  rewrite bool_decide_eq_false_2 by set_solver. rewrite (bool_decide_eq_false_2 (S = _)) by set_solver. done.
Qed.

(** C17: A transaction that did not come from a block and spends a key image of another
    transaction of the pool is refused whatever the other checks say. The pool keeps its
    transactions; when the images were what it was refused for, every transaction of the pool
    that shares one of them is marked as seen spent twice. *)
Theorem double_spend_refused now p tx v r is_relayed k id m tx0 :
  rtc pool_step (new_pool now) p -> r <> Rblock ->
  txpool p !! id = Some (m, tx0) -> id <> tx_hash tx -> k ∈ vin tx -> k ∈ vin tx0 ->
  let '(ok, tvc, p') := add_tx p tx v r is_relayed in
  ok = false /\ m_verifivation_failed tvc = true /\ m_added_to_pool tvc = false
  /\ dom (txpool p') = dom (txpool p) /\ m_spent_key_images p' = m_spent_key_images p
  /\ (m_double_spend tvc = true -> forall k' id' m' tx', txpool p !! id' = Some (m', tx') -> k' ∈ vin tx -> k' ∈ vin tx' ->
        exists m'', txpool p' !! id' = Some (m'', tx') /\ double_spend_seen m'' = true).
Proof.
  intros Hok%reachable_ok Hr Hl Hid Hk Hk0. pose proof (shared_image_spent p tx k id m tx0 Hok Hk Hl Hk0 Hid) as Hspent.
  unfold add_tx. rewrite (bool_decide_eq_false_2 (r = Rblock)) by done. rewrite Hspent. simpl.
  destruct (bool_decide _); [done|]. destruct (v_consensus v); [|done]. destruct (v_fee v); [|done].
  destruct (_ <? extra_size tx); [done|]. destruct (unlock_time tx =? 0); [|done]. simpl. do 3 (split; [done|]). split; [apply mark_double_spend_marks|]. split; [done|].
  intros _ k' id' m' tx' Hl' Hk' Hk''. eapply mark_double_spend_marked; [exact Hk'| |exact Hl'].
  destruct Hok as [[_ [Hi _] _ _] _]. apply Hi. by exists m', tx'.
Qed.

(** ** Outdated transactions *)

(** The periodic check removes exactly the transactions that are too old (3 days, or a week
    for those from blocks) and no other, and what it removed is not taken again unless it comes
    in a block. *)
Theorem outdated_removed now0 p now : rtc pool_step (new_pool now0) p ->
  let p' := remove_stuck_transactions p now in
  (forall id e, txpool p' !! id = Some e <-> txpool p !! id = Some e /\ is_stuck now e.1 = false)
  /\ forall tx m v r is_relayed, txpool p !! tx_hash tx = Some (m, tx) -> is_stuck now m = true -> r <> Rblock ->
       (add_tx p' tx v r is_relayed).1.1 = false.
Proof.
  intros Hok%reachable_ok. destruct (remove_stuck_ok p now Hok) as (_ & Ht & Hout). cbv zeta. split; [done|].
  intros tx m v r rel Hl Hs Hr. unfold add_tx. rewrite (bool_decide_eq_false_2 (r = Rblock)) by done.
  rewrite bool_decide_eq_true_2; [done|]. apply Hout. right. by exists (m, tx).
Qed.

(** ** In and out *)

Lemma prune_within p : m_txpool_weight p <= m_txpool_max_weight p -> prune p (m_txpool_max_weight p) = p.
Proof.
  intros Hle. unfold prune. destruct (m_txs_by_fee_and_receive_time p) as [|x l]; [done|].
  destruct (_ =? 0); destruct (reverse l); simpl; try done; by rewrite (proj2 (Z.leb_le _ _) Hle).
Qed.

Lemma added_new p tx : 0 <= m_txpool_weight p -> m_txpool_weight p + get_transaction_weight tx <= UINT64_MAX ->
  m_txpool_weight p + get_transaction_weight tx <= m_txpool_max_weight p ->
  added p tx true = (true, {| m_verifivation_failed := false; m_double_spend := false; m_added_to_pool := true |},
                     with_weight p (m_txpool_weight p + get_transaction_weight tx)).
Proof.
  intros Hp Hu Hm. unfold added. specialize (weight_nonneg tx). rewrite wrap_small by (unfold UINT64_MAX in *; mach).
  by rewrite prune_within.
Qed.

(** The checks of [add_tx] that do not depend on the pool *)
Definition acceptable (tx : transaction) (v : verdicts) : Prop :=
  v_consensus v = true /\ v_fee v = true /\ v_inputs v = true /\ extra_size tx <= MAX_TX_EXTRA_SIZE /\ unlock_time tx = 0.

Lemma fresh_not_spent p tx : pool_ok p -> (forall id k, k ∈ vin tx -> ~ spends (txpool p) id k) ->
  have_tx_keyimges_as_spent p tx (tx_hash tx) = false.
Proof.
  intros [[_ [Hi Hne] _ _] _] Hfree. apply not_true_is_false. intros (k & Hk%list_elem_of_In & Hs)%existsb_exists.
  unfold have_tx_keyimg_as_spent in Hs. specialize (Hne k). destruct (m_spent_key_images p !! k) as [S|] eqn:HS; [|done].
  destruct (set_choose_L S) as [id Hid]; [congruence|]. apply (Hfree id k Hk), Hi. by rewrite HS.
Qed.

Lemma add_tx_fresh p tx v r is_relayed :
  pool_ok p -> r <> Rblock -> fits p tx -> acceptable tx v -> tx_hash tx ∉ m_timed_out_transactions p ->
  txpool p !! tx_hash tx = None -> (forall id k, k ∈ vin tx -> ~ spends (txpool p) id k) ->
  m_txpool_weight p + get_transaction_weight tx <= m_txpool_max_weight p ->
  exists m p', add_tx p tx v r is_relayed
               = (true, {| m_verifivation_failed := false; m_double_spend := false; m_added_to_pool := true |}, p')
    /\ txpool p' = <[tx_hash tx := (m, tx)]> (txpool p) /\ get_relay_method m = r /\ pool_ok p'.
Proof.
  intros Hok Hr Hfits (Hc & Hf & Hin & Hx & Hu) Hout Hnew Hfree Hmax. pose proof (fresh_not_spent p tx Hok Hfree) as Hsp.
  destruct (add_tx_ok p tx v r is_relayed Hok (fun _ => Hfits)) as [Hok' _]. revert Hok'.
  unfold add_tx. rewrite (bool_decide_eq_false_2 (r = Rblock)), (bool_decide_eq_false_2 (_ ∈ _)), Hc, Hf, Hin, Hsp, Hu by done.
  rewrite (proj2 (Z.ltb_ge _ _) Hx). simpl. unfold add_valid, get_txpool_tx_meta. rewrite Hnew. simpl fst. cbn [fmap option_fmap option_map].
  rewrite (bool_decide_eq_false_2 (is_Some None)) by apply is_Some_None.
  destruct (upgrade_relay_method _ r) as [up base] eqn:Hup. rewrite (orb_true_r up : up || negb false = true).
  assert (get_relay_method base = r) as Hbase.
  { destruct (upgrade_cases (set_relay_method zero_meta Rnone) r) as [[E _]|[E Hle]]; rewrite E in Hup; injection Hup as <- <-;
      [apply set_get_relay|by destruct r]. }
  cbv iota zeta. simpl negb. set (p1 := if bool_decide (r = Rforward) then _ else _).
  assert (exists y, p1 = with_next_check p y) as [y ->].
  { subst p1. unfold set_if_less. destruct (bool_decide (r = Rforward)); [destruct (_ <? m_next_check p)|];
      [eexists; reflexivity|exists (m_next_check p); by destruct p..]. }
  set (m := new_meta _ _ _ _ _ _ _ _).
  destruct (insert_loop_spec (vin tx) (with_next_check p y) (tx_hash tx) r) as (s & Hins & _); [apply Hfits| | |apply Hok|].
  { intros k Hk. right. by apply (not_spent p tx). }
  { intros k Hk. by apply (not_spent p tx). }
  unfold insert_key_images. rewrite Hins. cbv iota zeta. simpl negb. cbv iota.
  assert (0 <= m_txpool_weight p) by (destruct Hok as [[He _ _ ->] _]; by apply pool_weight_nonneg).
  rewrite added_new; [|done|apply Hfits|done]. intros Hok'. eexists m, _. do 2 (split; [done|]). split; [exact Hbase|done].
Qed.

(** A transaction that passes the checks, shares no image with the pool and fits is added
    with the relay method it came with; taking it out gives it back, and the pool is what it
    was: the same table, images and weight. *)
Theorem add_take now p tx v r is_relayed :
  rtc pool_step (new_pool now) p -> r <> Rblock -> fits p tx -> acceptable tx v -> tx_hash tx ∉ m_timed_out_transactions p ->
  txpool p !! tx_hash tx = None -> (forall id k, k ∈ vin tx -> ~ spends (txpool p) id k) ->
  m_txpool_weight p + get_transaction_weight tx <= m_txpool_max_weight p ->
  exists m p1 p2, (add_tx p tx v r is_relayed).1.1 = true /\ (add_tx p tx v r is_relayed).2 = p1
    /\ take_tx p1 (tx_hash tx) = Some (m, tx, p2) /\ get_relay_method m = r
    /\ txpool p2 = txpool p /\ m_spent_key_images p2 = m_spent_key_images p /\ m_txpool_weight p2 = m_txpool_weight p.
Proof.
  intros Hok%reachable_ok Hr Hfits Hacc Hout Hnew Hfree Hmax.
  destruct (add_tx_fresh p tx v r is_relayed) as (m & p1 & -> & Ht & Hm & Hok1); [done..|].
  destruct (take_tx p1 (tx_hash tx)) as [[[m' tx'] p2]|] eqn:Htake.
  2: { exfalso. unfold take_tx in Htake. by rewrite Ht, lookup_insert_eq in Htake. }
  destruct (take_tx_ok _ _ _ _ _ Hok1 Htake) as (Hok2 & Hl & Ht2). rewrite Ht, lookup_insert_eq in Hl. injection Hl as <- <-.
  rewrite Ht, delete_insert_id in Ht2 by done. exists m, p1, p2. do 5 (split; [done|]).
  destruct Hok as [[_ Hi _ Hw] _], Hok2 as [[_ Hi2 _ Hw2] _]. rewrite Ht2 in Hi2, Hw2. split; [by eapply images_unique|congruence].
Qed.

(** ** Relaying *)

(** A transaction that was added and not yet sent has the greatest time: it is not sent again
    by the timer, whose delay for it is negative and wraps around. *)
Lemma unsent_not_resent now m :
  last_relayed_time m = UINT64_MAX -> 600 <= receive_time m < 2 ^ 62 -> 0 <= now < 2 ^ 62 -> forall reset, relay_due now m <> Due reset.
Proof.
  intros Hl Hr Hn reset. unfold relay_due. rewrite Hl. destruct (negb _); [done|].
  assert (u64 (now - UINT64_MAX) <=? get_relay_delay (to_time_t UINT64_MAX) (to_time_t (receive_time m)) = true) as ->.
  { apply Z.leb_le. unfold to_time_t, get_relay_delay, MIN_RELAY_TIME, MAX_RELAY_TIME, UINT64_MAX. cbv zeta.
    rewrite (wrap_small 64 (receive_time m)) by mach. rewrite (proj2 (Z.ltb_lt (receive_time m) _)) by lia.
    change (u64 (2 ^ 64 - 1)) with (2 ^ 64 - 1). change (2 ^ 64 - 1 <? 2 ^ 63) with false. cbv iota.
    change (60 * 5) with 300. change (60 * 60 * 4) with 14400.
    assert (Z.quot (2 ^ 64 - 1 - 2 ^ 64 - receive_time m + 300) 300 <= -1) as Hq.
    { pose proof (Z.quot_rem' (2 ^ 64 - 1 - 2 ^ 64 - receive_time m + 300) 300).
      pose proof (Z.rem_bound_abs (2 ^ 64 - 1 - 2 ^ 64 - receive_time m + 300) 300). lia. }
    assert (- 2 ^ 62 <= Z.quot (2 ^ 64 - 1 - 2 ^ 64 - receive_time m + 300) 300 * 300) as Hq'.
    { pose proof (Z.quot_rem' (2 ^ 64 - 1 - 2 ^ 64 - receive_time m + 300) 300).
      pose proof (Z.rem_bound_abs (2 ^ 64 - 1 - 2 ^ 64 - receive_time m + 300) 300).
      pose proof (Z.rem_nonpos (2 ^ 64 - 1 - 2 ^ 64 - receive_time m + 300) 300). lia. }
    set (d := Z.quot _ 300 * 300) in *. rewrite (proj2 (Z.ltb_ge 14400 d)) by lia.
    unfold wrap. rewrite <- (Z.mod_add (now - (2 ^ 64 - 1)) 1), <- (Z.mod_add d 1) by lia.
    rewrite !Z.mod_small by lia. lia. }
  destruct (get_relay_method m); try done. all: by rewrite (proj2 (Z.ltb_lt _ _)) by (unfold UINT64_MAX; lia).
Qed.

(** The new times of [get_relayable_transactions] are lost unless a batch was open before. *)
Lemma relay_times_lost p now : txpool (get_relayable_transactions p now false).2 = txpool p.
Proof. unfold get_relayable_transactions. destruct (_ || _); [done|]. by destruct (relayable_loop _ _ _ _ _) as [[? ?] ?]. Qed.

(** What [check_for_key_images] answers *)
Lemma check_images_spec now p ks i k : rtc pool_step (new_pool now) p -> ks !! i = Some k ->
  check_for_key_images p ks !! i = Some true
  <-> exists id m tx, txpool p !! id = Some (m, tx) /\ k ∈ vin tx /\ matches m Cbroadcasted = true.
Proof.
  intros [[_ [Hi _] _ _] _]%reachable_ok Hk. unfold check_for_key_images. rewrite list_lookup_fmap, Hk. simpl.
  assert (forall id, txpool_tx_matches_category p id Cbroadcasted = true <-> exists m tx, txpool p !! id = Some (m, tx) /\ matches m Cbroadcasted = true) as Hm.
  { intros id. unfold txpool_tx_matches_category, get_txpool_tx_meta. destruct (txpool p !! id) as [[m tx]|] eqn:Hl; simpl; [|naive_solver].
    split; [eauto|]. intros (? & ? & [= <- <-] & ?). done. }
  split.
  - destruct (m_spent_key_images p !! k) as [S|] eqn:HS; [|done]. intros [= (id & Hid%list_elem_of_In%elem_of_elements & (m & tx & Hl & Hb)%Hm)%existsb_exists].
    exists id, m, tx. split; [done|]. split; [|done]. destruct (proj1 (Hi k id)) as (? & ? & Hl' & ?); [by rewrite HS|]. congruence.
  - intros (id & m & tx & Hl & Hkx & Hb). assert (id ∈ holders (m_spent_key_images p) k) as Hin by (apply Hi; by exists m, tx).
    destruct (m_spent_key_images p !! k) as [S|]; simpl in Hin; [|set_solver]. f_equal. apply existsb_exists. exists id.
    split; [by apply list_elem_of_In, elem_of_elements|]. apply Hm. eauto.
Qed.

End Pool.

(** ** Witnesses: transactions that are a number, which is also the hash and the fee, and a
    list of images, each of weight 100 *)

Local Notation toy f :=
  (f 0 fst snd (fun _ => 100) fst (fun _ => 0) (fun _ => 0) (fun _ => false) (fun fee w => fee * 1000 / w) Z.gtb) (only parsing).

Definition toy_verdicts : verdicts (hash := Z) :=
  {| v_now := 1000; v_forward_time := 1300; v_consensus := true; v_fee := true; v_inputs := true;
     v_max_used_block_height := 5; v_max_used_block_id := 7 |}.

(** Two transactions *)
Definition toy_pool1 := (toy add_tx (new_pool 0) (1, [10]) toy_verdicts Rfluff false).2.
Definition toy_pool2 := (toy add_tx toy_pool1 (2, [20; 30]) toy_verdicts Rfluff false).2.

Lemma toy_asym a b : (a >? b) = true -> (b >? a) = false.
Proof. rewrite Z.gtb_gt, Z.gtb_ltb, Z.ltb_ge. lia. Qed.
Lemma toy_weak a b c : (a >? c) = true -> (a >? b) = true \/ (b >? c) = true.
Proof. rewrite !Z.gtb_gt. lia. Qed.
Lemma toy_nonneg (tx : Z * list Z) : 0 <= 100.
Proof. lia. Qed.

Lemma toy_reachable1 : rtc (toy pool_step) (new_pool 0) toy_pool1.
Proof.
  apply rtc_once, (toy step_add). intros _. split; [by_decide|]. split; [|by vm_compute]. intros m0 tx0 Hl. by vm_compute in Hl.
Qed.
Lemma toy_reachable : rtc (toy pool_step) (new_pool 0) toy_pool2.
Proof.
  eapply rtc_r; [apply toy_reachable1|]. apply (toy step_add). intros _. split; [by_decide|]. split; [|by vm_compute].
  intros m0 tx0 Hl. by vm_compute in Hl.
Qed.

Lemma pool_consistent_witness : rtc (toy pool_step) (new_pool 0) toy_pool2 /\ m_txpool_weight toy_pool2 = 200
  /\ NoDup (m_txs_by_fee_and_receive_time toy_pool2).*2.
Proof.
  split; [apply toy_reachable|]. split; [by vm_compute|].
  apply (toy pool_consistent toy_nonneg toy_asym toy_weak 0 toy_pool2 toy_reachable).
Defined.

Lemma restart_same_witness : rtc (toy pool_step) (new_pool 0) toy_pool2 /\ m_txpool_weight toy_pool2 <= UINT64_MAX
  /\ exists p', init (rate := Z) snd (fun fee w => fee * 1000 / w) Z.gtb toy_pool2 0 2000 = (true, p') /\ m_txpool_weight p' = 200.
Proof.
  split; [apply toy_reachable|]. split; [by vm_compute|].
  destruct (toy restart_same toy_nonneg toy_asym toy_weak 0 toy_pool2 0 2000 toy_reachable) as (p' & Hi & _ & _ & Hw & _); [by vm_compute|].
  exists p'. split; [exact Hi|]. rewrite Hw. by vm_compute.
Defined.

(** The limit of 100 leaves the better one. *)
Lemma prune_spec_witness : exists x l, m_txs_by_fee_and_receive_time toy_pool2 = x :: l
  /\ m_txpool_weight (prune snd toy_pool2 100) = 100
  /\ exists l1 l2, l = l1 ++ l2 /\ m_txs_by_fee_and_receive_time (prune snd toy_pool2 100)
                                   = x :: l1 ++ filter (fun e => is_kept (txpool toy_pool2) e.2 = true) l2.
Proof.
  eexists _, _. split; [by vm_compute|]. split; [by vm_compute|].
  edestruct (toy prune_spec toy_nonneg toy_asym toy_weak 0 toy_pool2 100) as (l1 & l2 & H1 & H2 & _);
    [apply toy_reachable|by vm_compute|]. by exists l1, l2.
Defined.

Lemma double_spend_refused_witness : (toy add_tx toy_pool2 (3, [30; 40]) toy_verdicts Rfluff false).1.1 = false
  /\ exists m, txpool (toy add_tx toy_pool2 (3, [30; 40]) toy_verdicts Rfluff false).2 !! 2 = Some (m, (2, [20; 30])) /\ double_spend_seen m = true.
Proof.
  assert (exists m, txpool toy_pool2 !! 2 = Some (m, (2, [20; 30]))) as [m Hm] by (eexists; by vm_compute).
  pose proof (toy double_spend_refused toy_nonneg toy_asym toy_weak 0 toy_pool2 (3, [30; 40]) toy_verdicts Rfluff false 30 2 m (2, [20; 30])
    toy_reachable ltac:(done) Hm ltac:(done) ltac:(by_decide) ltac:(by_decide)) as Hr.
  destruct (toy add_tx toy_pool2 (3, [30; 40]) toy_verdicts Rfluff false) as [[ok tvc] p'] eqn:E.
  destruct Hr as (-> & _ & _ & _ & _ & Hmark). split; [done|].
  apply (Hmark ltac:(vm_compute in E; by simplify_eq) 30 2 m (2, [20; 30]) Hm); by_decide.
Defined.

(** Three days later both are gone, and the first is refused. *)
Lemma outdated_removed_witness :
  txpool (remove_stuck_transactions snd toy_pool2 300000) !! 1 = None
  /\ (toy add_tx (remove_stuck_transactions snd toy_pool2 300000) (1, [10]) toy_verdicts Rfluff false).1.1 = false.
Proof.
  destruct (toy outdated_removed toy_nonneg toy_asym toy_weak 0 toy_pool2 300000 toy_reachable) as [_ Hr].
  split; [by vm_compute|]. eapply (Hr (1, [10])); [by vm_compute|by vm_compute|done].
Defined.

Lemma add_take_witness : exists m p2,
  take_tx snd (toy add_tx toy_pool1 (2, [20; 30]) toy_verdicts Rfluff false).2 2 = Some (m, (2, [20; 30]), p2)
  /\ m_txpool_weight p2 = m_txpool_weight toy_pool1.
Proof.
  destruct (toy add_take toy_nonneg toy_asym toy_weak 0 toy_pool1 (2, [20; 30]) toy_verdicts Rfluff false) as (m & p1 & p2 & _ & <- & Ht & _ & _ & _ & Hw).
  - apply toy_reachable1.
  - done.
  - split; [by_decide|]. split; [|by vm_compute]. intros m0 tx0 Hl. by vm_compute in Hl.
  - by repeat split.
  - by_decide.
  - by vm_compute.
  - intros id k Hk (m & tx & Hl & Hk'). assert (id = 1) as ->.
    { destruct (decide (id = 1)); [done|]. exfalso. assert (txpool toy_pool1 = {[1 := default (m, tx) (txpool toy_pool1 !! 1)]}) as E by by vm_compute.
      rewrite E, lookup_singleton_ne in Hl; done. }
    vm_compute in Hl. simplify_eq. set_solver.
  - by vm_compute.
  - exists m, p2. done.
Defined.
