(* ===== verification/BlockTemplate.v ===== *)
(** * Choosing the transactions of a new block: [fill_block_template] of
    core/src/cryptonote_core/tx_pool.cpp

    The transactions are tried in the order of the pool. What the chain says of the inputs of
    one ([check_tx_inputs], which the pool caches by hash) is an argument, as are the top of
    the chain and what [TxPool] leaves open. *)

From Stdlib Require Import Sorted.
From S2P Require Import Prelude IntUtil Difficulty Emission JsNumber TxPool.

Definition CRYPTONOTE_COINBASE_BLOB_RESERVED_SIZE : Z := 600.

(** [float] of an unsigned integer: 24 bits, the nearest, ties to even *)
Definition to_float (x : Z) : Z :=
  if x <? 2 ^ 24 then x else let e := Z.log2 x - 23 in rne x (2 ^ e) * 2 ^ e.

(** The product with [1.0f] is a float. *)
Definition template_accept_threshold (amount : Z) : Z := u64 (to_float amount).

Section Template.
Context {hash key_image transaction rate : Type} `{Countable hash} `{Countable key_image}.
Local Notation meta_t := (txpool_tx_meta_t (hash := hash)).
Local Notation pool_t := (tx_memory_pool (hash := hash) (key_image := key_image) (transaction := transaction) (rate := rate)).
Context (vin : transaction -> list key_image).

(** What [check_tx_inputs] says: the result, and the newest block the inputs refer to *)
Record inputs_verdict := { i_ok : bool; i_max_used_block_height : Z; i_max_used_block_id : hash }.

Context (top_block_height : Z) (top_block_hash : hash) (check_tx_inputs : hash -> inputs_verdict).

Definition with_checked (m : meta_t) (used_height : Z) (used_id : hash) (failed_height : Z) (failed_id : hash)
  : meta_t :=
  {| max_used_block_id := used_id; last_failed_id := failed_id; weight := weight m; fee := fee m;
     max_used_block_height := used_height; last_failed_height := failed_height;
     receive_time := receive_time m; last_relayed_time := last_relayed_time m; kept_by_block := kept_by_block m;
     relayed := relayed m; do_not_relay := do_not_relay m; double_spend_seen := double_spend_seen m; pruned := pruned m;
     is_local := is_local m; dandelionpp_stem := dandelionpp_stem m; is_forwarding := is_forwarding m |}.

Definition is_transaction_ready_to_go (txd : meta_t) (txid : hash) : bool * meta_t :=
  if bool_decide (last_failed_id txd = top_block_hash) then (false, txd)
  else
    let v := check_tx_inputs txid in
    if negb (i_ok v)
    then (false, with_checked txd (i_max_used_block_height v) (i_max_used_block_id v) top_block_height top_block_hash)
    else (true, with_checked txd (i_max_used_block_height v) (i_max_used_block_id v) (last_failed_height txd) (last_failed_id txd)).

Definition have_key_images (k_images : gset key_image) (tx : transaction) : bool :=
  existsb (fun k => bool_decide (k ∈ k_images)) (vin tx).

(** The loop stops at the first image that is there; its result is not looked at. *)
Fixpoint append_images (k_images : gset key_image) (images : list key_image) : gset key_image :=
  match images with
  | [] => k_images
  | k :: images => if bool_decide (k ∈ k_images) then k_images else append_images ({[k]} ∪ k_images) images
  end.
Definition append_key_images (k_images : gset key_image) (tx : transaction) : gset key_image := append_images k_images (vin tx).

(** The variables of the loop *)
Record filling := {
  tx_hashes : list hash;
  total_weight : Z;
  f_fee : Z;
  best_coinbase : Z;
  coinbase : Z;
  k_images : gset key_image;
  f_pool : pool_t }.

Definition with_coinbase (f : filling) (c : Z) : filling :=
  {| tx_hashes := tx_hashes f; total_weight := total_weight f; f_fee := f_fee f; best_coinbase := best_coinbase f; coinbase := c;
     k_images := k_images f; f_pool := f_pool f |}.

(** The test and the end of the loop's body, for a transaction that is worth it *)
Definition include (f : filling) (id : hash) (meta : meta_t) (tx : transaction) : filling :=
  let '(ready, meta) := is_transaction_ready_to_go meta id in
  let p := update_txpool_tx (f_pool f) id meta in
  let f := {| tx_hashes := tx_hashes f; total_weight := total_weight f; f_fee := f_fee f; best_coinbase := best_coinbase f;
              coinbase := coinbase f; k_images := k_images f; f_pool := p |} in
  if negb ready then f
  else if have_key_images (k_images f) tx then f
  else
    {| tx_hashes := tx_hashes f ++ [id]; total_weight := u64 (total_weight f + weight meta); f_fee := u64 (f_fee f + fee meta);
       best_coinbase := coinbase f; coinbase := coinbase f; k_images := append_key_images (k_images f) tx; f_pool := p |}.

Section Fill.
Context (mine_stem_txes : bool) (median_weight already_generated_coins version : Z).

Definition max_total_weight : Z :=
  let pre_v5 := u64 (u64 (130 * median_weight) / 100 - CRYPTONOTE_COINBASE_BLOB_RESERVED_SIZE) in
  let v5 := u64 (u64 (2 * median_weight) - CRYPTONOTE_COINBASE_BLOB_RESERVED_SIZE) in
  if 5 <=? version then v5 else pre_v5.

Definition may_be_mined (meta : meta_t) : bool :=
  (matches meta Clegacy || (mine_stem_txes && bool_decide (get_relay_method meta = Rstem))) && negb (pruned meta).

Fixpoint fill_loop (order : list (rate * Z * hash)) (f : filling) : result arith_error filling :=
  match order with
  | [] => Ret f
  | it :: order =>
      match txpool (f_pool f) !! it.2 with
      | None => fill_loop order f
      | Some (meta, tx) =>
          if negb (may_be_mined meta) then fill_loop order f
          else if max_total_weight <? u64 (total_weight f + weight meta) then fill_loop order f
          else if 5 <=? version then
            block_reward ← get_block_reward median_weight (u64 (total_weight f + weight meta)) already_generated_coins version;
            match block_reward with
            | None => fill_loop order f
            | Some block_reward =>
                let f := with_coinbase f (u64 (u64 (block_reward + f_fee f) + fee meta)) in
                if coinbase f <? template_accept_threshold (best_coinbase f) then fill_loop order f
                else fill_loop order (include f it.2 meta tx)
            end
          else if median_weight <? total_weight f then Ret f
          else fill_loop order (include f it.2 meta tx)
      end
  end.

(** [Ret None] is the result [false]. The last three results are [total_weight], [fee] and
    [expected_reward]. *)
Definition fill_block_template (p : pool_t) : result arith_error (option (list hash * Z * Z * Z * pool_t)) :=
  empty ← get_block_reward median_weight 0 already_generated_coins version;
  match empty with
  | None => Ret None
  | Some empty =>
      f ← fill_loop (m_txs_by_fee_and_receive_time p)
            {| tx_hashes := []; total_weight := 0; f_fee := 0; best_coinbase := empty; coinbase := 0; k_images := ∅; f_pool := p |};
      Ret (Some (tx_hashes f, total_weight f, f_fee f, best_coinbase f, f_pool f))
  end.

(** ** The loop over a part of the order *)

Lemma fill_loop_full order f : version < 5 -> median_weight < total_weight f -> fill_loop order f = Ret f.
Proof.
  intros Hv Hw. induction order as [|it order IH]; simpl; [done|]. destruct (txpool (f_pool f) !! it.2) as [[meta tx]|]; [|done].
  destruct (negb _); [done|]. destruct (_ <? _); [done|]. rewrite (proj2 (Z.leb_gt 5 version) Hv). by rewrite (proj2 (Z.ltb_lt _ _) Hw).
Qed.

Lemma fill_loop_cons it order f : fill_loop (it :: order) f = (f1 ← fill_loop [it] f; fill_loop order f1).
Proof.
  simpl. destruct (txpool (f_pool f) !! it.2) as [[meta tx]|]; [|done].
  destruct (negb _); [done|]. destruct (max_total_weight <? _); [done|]. destruct (5 <=? version) eqn:Hv.
  - destruct (get_block_reward _ _ _ _) as [[R|]|]; simpl; [|done..]. by destruct (_ <? _).
  - destruct (Z.ltb_spec median_weight (total_weight f)); [|done]. simpl. symmetry. apply fill_loop_full; [|done]. by apply Z.leb_gt.
Qed.

Lemma fill_loop_app l1 l2 f : fill_loop (l1 ++ l2) f = (f1 ← fill_loop l1 f; fill_loop l2 f1).
Proof.
  revert f. induction l1 as [|it l1 IH]; intros f; [done|]. rewrite <- app_comm_cons, (fill_loop_cons it (l1 ++ l2)), (fill_loop_cons it l1).
  destruct (fill_loop [it] f) as [f1|]; [|done]. apply IH.
Qed.

(** Entries of other transactions stay, and hashes are only appended. *)
Definition extends (ids : list hash) (f f' : filling) : Prop :=
  (exists new, tx_hashes f' = tx_hashes f ++ new /\ forall id, id ∈ new -> id ∈ ids)
  /\ forall id, id ∉ ids -> txpool (f_pool f') !! id = txpool (f_pool f) !! id.

Lemma extends_refl ids f : extends ids f f.
Proof. split; [|done]. exists []. rewrite app_nil_r. split; [done|set_solver]. Qed.

Lemma include_extends f id meta tx : extends [id] f (include f id meta tx).
Proof.
  unfold include. destruct (is_transaction_ready_to_go meta id) as [ready m'].
  assert (forall id', id' ∉ [id] -> txpool (update_txpool_tx (f_pool f) id m') !! id' = txpool (f_pool f) !! id') as Hother.
  { intros id' Hid. unfold update_txpool_tx. destruct (txpool (f_pool f) !! id) as [[? ?]|]; [|done]. simpl.
    rewrite lookup_insert_ne; [done|]. intros ->. apply Hid. left. }
  destruct ready; simpl; [destruct (have_key_images _ _)|]; (split; [|done]); simpl.
  - exists []. rewrite app_nil_r. split; [done|set_solver].
  - by exists [id].
  - exists []. rewrite app_nil_r. split; [done|set_solver].
Qed.

Lemma include_listed f id meta tx : id ∉ tx_hashes f ->
  id ∈ tx_hashes (include f id meta tx) <->
  negb (bool_decide (last_failed_id meta = top_block_hash)) && i_ok (check_tx_inputs id) && negb (have_key_images (k_images f) tx) = true.
Proof.
  intros Hid. unfold include, is_transaction_ready_to_go.
  destruct (bool_decide (last_failed_id meta = top_block_hash)); simpl; [done|]. destruct (i_ok (check_tx_inputs id)); simpl; [|done].
  destruct (have_key_images _ _); simpl; [done|]. set_solver.
Qed.

Lemma fill_one it f f1 : fill_loop [it] f = Ret f1 -> extends [it.2] f f1.
Proof.
  simpl. destruct (txpool (f_pool f) !! it.2) as [[meta tx]|]; [|intros [= <-]; apply extends_refl].
  destruct (negb _); [intros [= <-]; apply extends_refl|]. destruct (_ <? _); [intros [= <-]; apply extends_refl|]. destruct (5 <=? version).
  - destruct (get_block_reward _ _ _ _) as [[R|]|]; simpl; [|intros [= <-]; apply extends_refl|done].
    destruct (_ <? _); intros [= <-]; [exact (extends_refl [it.2] f)|apply (include_extends (with_coinbase f _))].
  - destruct (_ <? _); intros [= <-]; [apply extends_refl|apply include_extends].
Qed.

Lemma fill_loop_extends order f f' : fill_loop order f = Ret f' -> extends order.*2 f f'.
Proof.
  revert f. induction order as [|it order IH]; intros f; [intros [= <-]; apply extends_refl|]. rewrite fill_loop_cons.
  destruct (fill_loop [it] f) as [f1|] eqn:H1; [|done]. intros Hf. destruct (fill_one _ _ _ H1) as [(n1 & E1 & I1) T1].
  destruct (IH f1 Hf) as [(n2 & E2 & I2) T2]. rewrite fmap_cons. split.
  - exists (n1 ++ n2). rewrite E2, E1, app_assoc. split; [done|]. set_solver.
  - intros id Hid. rewrite T2, T1; [done|set_solver..].
Qed.

(** ** The chosen transactions *)

Context (tx_hash : transaction -> hash) (get_transaction_weight get_tx_fee : transaction -> Z) (rate_gt : rate -> rate -> bool).
Context (weight_nonneg : forall tx, 0 <= get_transaction_weight tx).
Local Notation pool_ok := (pool_ok tx_hash vin get_transaction_weight get_tx_fee rate_gt).

Definition sum_of (f : transaction -> Z) (txs : list transaction) : Z := foldr (fun tx s => f tx + s) 0 txs.

Lemma sum_of_snoc f txs tx : sum_of f (txs ++ [tx]) = sum_of f txs + f tx.
Proof. induction txs as [|t txs IH]; unfold sum_of in *; simpl; [|rewrite IH]; lia. Qed.

Lemma sum_of_nonneg txs : 0 <= sum_of get_transaction_weight txs.
Proof. unfold sum_of. induction txs as [|tx txs IH]; simpl; [lia|]. specialize (weight_nonneg tx). lia. Qed.

(** The entries of the pool are those of [p0], but for what the checks of inputs note. *)
Definition noted (p0 p : pool_t) : Prop := forall id m tx, txpool p !! id = Some (m, tx) ->
  exists m0, txpool p0 !! id = Some (m0, tx) /\ weight m = weight m0 /\ fee m = fee m0 /\ may_be_mined m = may_be_mined m0.

(** A transaction of the pool that may be mined and whose inputs are valid *)
Definition minable (p0 : pool_t) (tx : transaction) : Prop :=
  (exists m, txpool p0 !! tx_hash tx = Some (m, tx) /\ may_be_mined m = true) /\ i_ok (check_tx_inputs (tx_hash tx)) = true.

(** The reward that the variables stand for *)
Definition reward_ok (w fees best : Z) (txs : list transaction) : Prop :=
  if 5 <=? version
  then exists R, get_block_reward median_weight w already_generated_coins version = Ret (Some R) /\ best = u64 (R + fees)
  else txs <> [] -> best = 0.

Record fill_inv (p0 : pool_t) (past : list (rate * Z * hash)) (f : filling) (txs : list transaction) : Prop := {
  fi_pool : pool_ok (f_pool f);
  fi_noted : noted p0 (f_pool f);
  fi_order : tx_hash <$> txs `sublist_of` past.*2;
  fi_hashes : tx_hashes f = tx_hash <$> txs;
  fi_minable : Forall (minable p0) txs;
  fi_weight : total_weight f = sum_of get_transaction_weight txs;
  fi_max : total_weight f <= max_total_weight;
  fi_fee : f_fee f = u64 (sum_of get_tx_fee txs);
  fi_images : k_images f = list_to_set (concat (vin <$> txs));
  fi_distinct : NoDup (concat (vin <$> txs));
  fi_reward : reward_ok (total_weight f) (sum_of get_tx_fee txs) (best_coinbase f) txs;
  fi_coinbase : 5 <= version \/ coinbase f = 0 }.

Lemma ready_same m id : let '(ready, m') := is_transaction_ready_to_go m id in
  same_entry m m' /\ may_be_mined m' = may_be_mined m /\ (ready = true -> i_ok (check_tx_inputs id) = true).
Proof.
  unfold is_transaction_ready_to_go. case_bool_decide; [done|]. destruct (i_ok (check_tx_inputs id)) eqn:E; simpl; done.
Qed.

Lemma append_images_spec s l : NoDup l -> (forall k, k ∈ l -> k ∉ s) -> append_images s l = list_to_set l ∪ s.
Proof.
  revert s. induction l as [|k l IH]; intros s Hnd Hs; simpl; [set_solver|]. apply NoDup_cons in Hnd as [Hk Hnd].
  rewrite bool_decide_eq_false_2 by (apply Hs; left). rewrite IH; [set_solver|done|].
  intros k' Hk' [->%elem_of_singleton|?]%elem_of_union; [done|]. apply (Hs k'); [by right|done].
Qed.

Lemma have_key_images_false s tx : have_key_images s tx = false -> forall k, k ∈ vin tx -> k ∉ s.
Proof.
  intros Hf k Hk Hs. unfold have_key_images in Hf. apply not_true_iff_false in Hf. apply Hf, existsb_exists. exists k.
  split; [by apply list_elem_of_In|by apply bool_decide_eq_true_2].
Qed.

Lemma fill_skip p0 past rest f txs : fill_inv p0 past f txs -> fill_inv p0 (past ++ rest) f txs.
Proof. intros []. split; try done. rewrite fmap_app. by apply sublist_inserts_r. Qed.

Lemma fill_coinbase p0 past f txs c : 5 <= version -> fill_inv p0 past f txs -> fill_inv p0 past (with_coinbase f c) txs.
Proof. intros Hv []. split; try done. by left. Qed.

(** The pool after the check of inputs *)
Lemma noted_update p0 p id meta tx :
  pool_ok p -> noted p0 p -> txpool p !! id = Some (meta, tx) ->
  let p' := update_txpool_tx p id (is_transaction_ready_to_go meta id).2 in pool_ok p' /\ noted p0 p'.
Proof.
  intros Hok Hn Hl. pose proof (ready_same meta id) as Hr. destruct (is_transaction_ready_to_go meta id) as [ready m'].
  destruct Hr as (Hs & Hm & _). simpl. unfold update_txpool_tx. rewrite Hl. split; [by eapply same_entry_pool|].
  intros id' m1 tx1 Hl1. simpl in Hl1. apply lookup_insert_Some in Hl1 as [[<- [= <- <-]]|[_ Hl1]]; [|by apply Hn].
  destruct (Hn _ _ _ Hl) as (m0 & ? & Hw & Hf & Hmm). exists m0. destruct Hs as (-> & -> & _). rewrite Hm. done.
Qed.

Lemma include_inv p0 past it f txs meta tx :
  fill_inv p0 past f txs -> txpool (f_pool f) !! it.2 = Some (meta, tx) -> may_be_mined meta = true ->
  u64 (total_weight f + weight meta) = total_weight f + weight meta -> total_weight f + weight meta <= max_total_weight ->
  (if 5 <=? version
   then exists R, get_block_reward median_weight (total_weight f + weight meta) already_generated_coins version = Ret (Some R)
                  /\ coinbase f = u64 (R + (sum_of get_tx_fee txs + fee meta))
   else coinbase f = 0) ->
  exists txs', fill_inv p0 (past ++ [it]) (include f it.2 meta tx) txs'.
Proof.
  intros Hinv Hl Hmine Hu Hmax Hcoin. pose proof Hinv as [Hok Hn Ho Hh Hmin Hw Hx Hf Hi Hd Hr Hc].
  destruct (noted_update p0 (f_pool f) it.2 meta tx Hok Hn Hl) as [Hok' Hn'].
  pose proof (entry_of _ _ _ _ _ _ _ _ _ Hok Hl) as (Hid & HW & HF & Hnd & _).
  unfold include. pose proof (ready_same meta it.2) as Hready. destruct (is_transaction_ready_to_go meta it.2) as [ready m']. simpl in Hok', Hn'.
  destruct Hready as ((Hw' & Hf' & _) & _ & Hin).
  assert (fill_inv p0 (past ++ [it])
            {| tx_hashes := tx_hashes f; total_weight := total_weight f; f_fee := f_fee f; best_coinbase := best_coinbase f;
               coinbase := coinbase f; k_images := k_images f; f_pool := update_txpool_tx (f_pool f) it.2 m' |} txs) as Hsame.
  { apply fill_skip. by split. }
  destruct ready; simpl; [|by exists txs]. destruct (have_key_images (k_images f) tx) eqn:Hk; [by exists txs|].
  specialize (Hin eq_refl). pose proof (have_key_images_false _ _ Hk) as Hfresh. rewrite Hi in Hfresh.
  exists (txs ++ [tx]). rewrite Hw', Hf', Hu. split; simpl; try done.
  - rewrite !fmap_app. simpl. rewrite Hid. by apply sublist_app.
  - by rewrite fmap_app, Hh, <- Hid.
  - apply Forall_app. split; [done|]. apply Forall_singleton. split; [|by rewrite Hid].
    destruct (Hn _ _ _ Hl) as (m0 & ? & _ & _ & E). exists m0. rewrite Hid. split; [done|congruence].
  - rewrite sum_of_snoc. lia.
  - rewrite sum_of_snoc, Hf, HF. unfold wrap. by rewrite Zplus_mod_idemp_l.
  - unfold append_key_images. rewrite append_images_spec; [|done|by rewrite Hi].
    rewrite Hi, fmap_app, concat_app, list_to_set_app_L. simpl. rewrite app_nil_r. set_solver.
  - rewrite fmap_app, concat_app. simpl. rewrite app_nil_r. apply NoDup_app. split; [done|]. split; [|done].
    intros k Hk1 Hk2. apply (Hfresh k Hk2). by apply elem_of_list_to_set.
  - unfold reward_ok. rewrite sum_of_snoc, <- HF. by destruct (5 <=? version).
Qed.

Section Bounds.
Context (median_range : 600 <= median_weight < 2 ^ 32) (coins_range : is_u64 already_generated_coins).

Lemma max_total_range : 0 <= max_total_weight < 2 ^ 33
  /\ max_total_weight = if 5 <=? version then 2 * median_weight - 600 else 130 * median_weight / 100 - 600.
Proof.
  unfold max_total_weight, CRYPTONOTE_COINBASE_BLOB_RESERVED_SIZE. cbv zeta.
  assert (780 <= 130 * median_weight / 100 < 2 ^ 33) as Hm.
  { split; [apply Z.div_le_lower_bound; lia|apply Z.div_lt_upper_bound; lia]. }
  rewrite (wrap_small 64 (130 * median_weight)), (wrap_small 64 (2 * median_weight)) by mach.
  rewrite !wrap_small by mach. destruct (5 <=? version); lia.
Qed.

Lemma reward_total w : 0 <= w <= max_total_weight -> 5 <= version ->
  exists R, get_block_reward median_weight w already_generated_coins version = Ret (Some R).
Proof.
  intros Hw Hv. destruct max_total_range as [Hr Hm]. rewrite (proj2 (Z.leb_le 5 version) Hv) in Hm.
  rewrite get_block_reward_eq by (done || lia). unfold effective_median. pose proof (min_block_weight_range version).
  destruct (w <=? _); [eauto|]. rewrite (proj2 (Z.ltb_ge _ _)) by lia. eauto.
Qed.

Lemma fill_loop_ok p0 order past f txs :
  (forall id m tx, txpool p0 !! id = Some (m, tx) -> weight m < 2 ^ 63) -> fill_inv p0 past f txs ->
  exists f' txs', fill_loop order f = Ret f' /\ fill_inv p0 (past ++ order) f' txs'.
Proof.
  intros Hbound. revert past f txs. induction order as [|it order IH]; intros past f txs Hinv; simpl.
  { rewrite app_nil_r. eauto. }
  assert (forall f' txs', fill_inv p0 (past ++ [it]) f' txs' ->
    exists f'' txs'', fill_loop order f' = Ret f'' /\ fill_inv p0 (past ++ it :: order) f'' txs'') as Hnext.
  { intros f' txs' Hinv'. rewrite cons_middle, app_assoc. by eapply IH. }
  pose proof (fill_skip _ _ [it] _ _ Hinv) as Hskip.
  destruct (txpool (f_pool f) !! it.2) as [[meta tx]|] eqn:Hl; [|by eapply Hnext].
  destruct (may_be_mined meta) eqn:Hmine; simpl; [|by eapply Hnext].
  destruct max_total_range as [Hrange _].
  assert (u64 (total_weight f + weight meta) = total_weight f + weight meta /\ 0 <= total_weight f + weight meta) as [Hu Hpos].
  { destruct Hinv as [Hok Hn _ _ _ Hw Hx _ _ _ _ _]. destruct (Hn _ _ _ Hl) as (m0 & Hl0 & Hwm & _). pose proof (Hbound _ _ _ Hl0).
    destruct (entry_of _ _ _ _ _ _ _ _ _ Hok Hl) as (_ & HW & _). pose proof (weight_nonneg tx). pose proof (sum_of_nonneg txs).
    split; [apply wrap_small; mach|lia]. }
  rewrite Hu. destruct (Z.ltb_spec max_total_weight (total_weight f + weight meta)) as [|Hle]; [by eapply Hnext|].
  destruct (5 <=? version) eqn:Hv5.
  - apply Z.leb_le in Hv5. destruct (reward_total (total_weight f + weight meta)) as [R HR]; [lia|done|]. rewrite HR. simpl.
    pose proof (fill_coinbase _ _ _ _ (u64 (u64 (R + f_fee f) + fee meta)) Hv5 Hinv) as Hinv'.
    match goal with |- context [if ?b then _ else _] => destruct b; [eapply Hnext; by apply fill_skip|] end.
    destruct (include_inv p0 past it (with_coinbase f (u64 (u64 (R + f_fee f) + fee meta))) txs meta tx) as [txs' Hinv'']; try done.
    + rewrite (proj2 (Z.leb_le 5 version) Hv5). exists R. split; [done|]. simpl. destruct Hinv as [_ _ _ _ _ _ _ -> _ _ _ _].
      unfold wrap. rewrite Zplus_mod_idemp_l, <- Z.add_assoc, <- (Zplus_mod_idemp_r (_ + _)), Zplus_mod_idemp_l, Zplus_mod_idemp_r. done.
    + by eapply Hnext.
  - apply Z.leb_gt in Hv5. destruct (median_weight <? total_weight f).
    + exists f, txs. split; [done|]. by apply fill_skip.
    + destruct (include_inv p0 past it f txs meta tx) as [txs' Hinv'']; try done; [|by eapply Hnext].
      rewrite (proj2 (Z.leb_gt 5 version) Hv5). destruct Hinv as [_ _ _ _ _ _ _ _ _ _ _ [?|?]]; [lia|done].
Qed.
(** ** No transaction is left out without a reason *)

(** What the miner of a block with these transactions takes, from version 5 on *)
Definition reward_of (w : Z) : Z :=
  let M := effective_median median_weight version in
  if w <=? M then base_reward already_generated_coins version else penalised (base_reward already_generated_coins version) M w.
Definition coinbase_of (txs : list transaction) : Z := u64 (reward_of (sum_of get_transaction_weight txs) + sum_of get_tx_fee txs).

(** A transaction is worth listing after the transactions [before]. *)
Record worth (before : list transaction) (m : meta_t) (tx : transaction) : Prop := {
  wo_relayed : matches m Clegacy = true \/ (mine_stem_txes = true /\ get_relay_method m = Rstem);
  wo_whole : pruned m = false;
  wo_fits : sum_of get_transaction_weight (before ++ [tx]) + 600
            <= (if 5 <=? version then 2 * median_weight else 130 * median_weight / 100);
  wo_pays : if 5 <=? version then u64 (to_float (coinbase_of before)) <= coinbase_of (before ++ [tx])
            else sum_of get_transaction_weight before <= median_weight;
  wo_not_failed : last_failed_id m <> top_block_hash;
  wo_valid : i_ok (check_tx_inputs (tx_hash tx)) = true;
  wo_fresh : forall k, k ∈ vin tx -> k ∉ concat (vin <$> before) }.

Lemma reward_of_ok w : 0 <= w <= max_total_weight -> 5 <= version ->
  get_block_reward median_weight w already_generated_coins version = Ret (Some (reward_of w)).
Proof.
  intros Hw Hv. destruct max_total_range as [Hr Hm]. rewrite (proj2 (Z.leb_le 5 version) Hv) in Hm.
  rewrite get_block_reward_eq by (done || lia). unfold reward_of, effective_median. pose proof (min_block_weight_range version).
  destruct (w <=? _); [done|]. by rewrite (proj2 (Z.ltb_ge _ _)) by lia.
Qed.

Lemma may_be_mined_spec m :
  may_be_mined m = true <-> (matches m Clegacy = true \/ (mine_stem_txes = true /\ get_relay_method m = Rstem)) /\ pruned m = false.
Proof. unfold may_be_mined. by rewrite andb_true_iff, orb_true_iff, andb_true_iff, bool_decide_eq_true, negb_true_iff. Qed.

Lemma have_key_images_spec s tx : have_key_images s tx = false <-> forall k, k ∈ vin tx -> k ∉ s.
Proof.
  split; [apply have_key_images_false|]. intros Hk. apply not_true_iff_false. intros (k & Hin & Hs)%existsb_exists.
  apply bool_decide_eq_true in Hs. by apply (Hk k); [apply list_elem_of_In|].
Qed.

(** The turn of a transaction *)
Lemma fill_one_worth p0 past f txs it m tx f1 :
  (forall id m tx, txpool p0 !! id = Some (m, tx) -> weight m < 2 ^ 63) -> fill_inv p0 past f txs ->
  txpool (f_pool f) !! it.2 = Some (m, tx) -> it.2 ∉ tx_hashes f -> fill_loop [it] f = Ret f1 ->
  it.2 ∈ tx_hashes f1 <-> worth txs m tx.
Proof.
  intros Hbound [Hok Hn _ Hh _ Hw Hx Hf Hi _ Hr _] Hl Hid. simpl. rewrite Hl.
  destruct (Hn _ _ _ Hl) as (m0 & Hl0 & Hwm & _). pose proof (Hbound _ _ _ Hl0) as Hwb.
  destruct (entry_of _ _ _ _ _ _ _ _ _ Hok Hl) as (Htx & HW & HF & _). pose proof (weight_nonneg tx). pose proof (sum_of_nonneg txs).
  destruct max_total_range as [Hmax Hmaxeq]. pose proof (may_be_mined_spec m) as Hmine.
  pose proof (sum_of_snoc get_transaction_weight txs tx) as Hsum.
  assert (u64 (total_weight f + weight m) = total_weight f + weight m) as -> by (apply wrap_small; mach).
  destruct (may_be_mined m); simpl.
  2: { intros [= <-]. split; [done|]. intros [G1 G2 _ _ _ _ _]. destruct Hmine as [_ Hmine]. by discriminate (Hmine (conj G1 G2)). }
  destruct (proj1 Hmine eq_refl) as [Hrel Hwhole]. destruct (Z.ltb_spec max_total_weight (total_weight f + weight m)) as [Hbig|Hfit].
  { intros [= <-]. split; [done|]. intros [_ _ G3 _ _ _ _]. destruct (5 <=? version); lia. }
  assert (sum_of get_transaction_weight (txs ++ [tx]) + 600 <= (if 5 <=? version then 2 * median_weight else 130 * median_weight / 100)) as Hfits
    by (destruct (5 <=? version); lia).
  assert (forall f0, tx_hashes f0 = tx_hashes f -> k_images f0 = k_images f ->
    (if 5 <=? version then u64 (to_float (coinbase_of txs)) <= coinbase_of (txs ++ [tx])
     else sum_of get_transaction_weight txs <= median_weight) ->
    it.2 ∈ tx_hashes (include f0 it.2 m tx) <-> worth txs m tx) as Hinc.
  { intros f0 E1 E2 Hpays. rewrite include_listed, E2, Hi by (by rewrite E1). rewrite !andb_true_iff, !negb_true_iff, bool_decide_eq_false, have_key_images_spec.
    setoid_rewrite elem_of_list_to_set. rewrite <- Htx. split; [intros [[? ?] ?]; by split|]. by intros [_ _ _ _ ? ? ?]. }
  destruct (5 <=? version) eqn:Hv.
  - unfold reward_ok in Hr. rewrite Hv in Hr. destruct Hr as (R & HR & Hbest). apply Z.leb_le in Hv.
    rewrite reward_of_ok by lia. simpl. rewrite reward_of_ok in HR by lia. injection HR as <-.
    assert (best_coinbase f = coinbase_of txs) as -> by (by rewrite Hbest, Hw).
    assert (u64 (u64 (reward_of (total_weight f + weight m) + f_fee f) + fee m) = coinbase_of (txs ++ [tx])) as ->.
    { unfold coinbase_of. rewrite !sum_of_snoc, Hf, HF, Hw, HW. unfold wrap. rewrite Zplus_mod_idemp_l, <- Z.add_assoc, <- (Zplus_mod_idemp_r (_ + _)), Zplus_mod_idemp_l, Zplus_mod_idemp_r. done. }
    unfold template_accept_threshold. destruct (Z.ltb_spec (coinbase_of (txs ++ [tx])) (u64 (to_float (coinbase_of txs)))) as [Hlow|Hhigh]; intros [= <-].
    + split; [done|]. intros [_ _ _ G4 _ _ _]. rewrite (proj2 (Z.leb_le 5 version) Hv) in G4. lia.
    + by apply Hinc.
  - destruct (Z.ltb_spec median_weight (total_weight f)); intros [= <-].
    + split; [done|]. intros [_ _ _ G4 _ _ _]. rewrite Hv in G4. lia.
    + apply Hinc; [done|done|lia].
Qed.

(** Transactions of a pool are known by their hashes. *)
Lemma minable_eq p0 l l' : Forall (minable p0) l -> Forall (minable p0) l' -> tx_hash <$> l = tx_hash <$> l' -> l = l'.
Proof.
  revert l'. induction l as [|tx l IH]; intros [|tx' l'] Hl Hl' E; try done.
  injection E as E1 E2. apply Forall_cons in Hl as [[(m & Hm & _) _] Hl], Hl' as [[(m' & Hm' & _) _] Hl'].
  rewrite E1 in Hm. rewrite Hm' in Hm. simplify_eq. f_equal. by apply IH.
Qed.

Lemma filter_prefix (ids ids' : list hash) l l' : (forall id, id ∈ ids -> id ∉ ids') ->
  (forall id, id ∈ tx_hash <$> l -> id ∈ ids) -> (forall id, id ∈ tx_hash <$> l' -> id ∈ ids') ->
  filter (fun tx => tx_hash tx ∈ ids) (l ++ l') = l.
Proof.
  intros Hd Hl Hl'. rewrite filter_app, filter_all, filter_none, app_nil_r; [done|apply Forall_forall; intros tx Htx..].
  - intros Hin. apply (Hd _ Hin), Hl', list_elem_of_fmap. by exists tx.
  - apply Hl, list_elem_of_fmap. by exists tx.
Qed.

(** What the loop has listed when it comes to a transaction is what the result lists of those before it. *)
Lemma fill_loop_split p l1 it l2 f0 f txs m tx :
  (forall id m tx, txpool p !! id = Some (m, tx) -> weight m < 2 ^ 63) -> NoDup (l1 ++ it :: l2).*2 ->
  fill_inv p [] f0 [] -> f_pool f0 = p -> fill_loop (l1 ++ it :: l2) f0 = Ret f -> fill_inv p (l1 ++ it :: l2) f txs ->
  txpool p !! it.2 = Some (m, tx) ->
  it.2 ∈ tx_hash <$> txs <-> worth (filter (fun t => tx_hash t ∈ l1.*2) txs) m tx.
Proof.
  intros Hb Hnd G0 Ep Hf Hinv Hl. rewrite fmap_app, fmap_cons, NoDup_app, NoDup_cons in Hnd. destruct Hnd as (_ & Hn1 & Hn2 & _).
  destruct (fill_loop_ok p l1 [] f0 [] Hb G0) as (f1 & txs1 & G1 & Hinv1). simpl in Hinv1.
  rewrite fill_loop_app, G1 in Hf. cbn [mbind result_bind] in Hf. rewrite fill_loop_cons in Hf.
  destruct (fill_loop [it] f1) as [f2|] eqn:G2; [|done]. cbn [mbind result_bind] in Hf.
  destruct (fill_loop_extends _ _ _ G1) as [_ T1]. destruct (fill_one _ _ _ G2) as [(n2 & E2 & I2) _].
  destruct (fill_loop_extends _ _ _ Hf) as [(n3 & E3 & I3) _].
  assert (it.2 ∉ l1.*2) as Hn by (intros Hin; apply (Hn1 _ Hin); left).
  assert (forall id, id ∈ tx_hash <$> txs1 -> id ∈ l1.*2) as Hl1 by (intros id Hid; eapply elem_of_sublist; [exact Hid|apply Hinv1]).
  pose proof (fi_hashes _ _ _ _ Hinv) as Hh. pose proof (fi_hashes _ _ _ _ Hinv1) as Hh1.
  rewrite E3, E2, Hh1, <- app_assoc in Hh. symmetry in Hh. apply fmap_app_inv in Hh as (a & b & Ea & Eb & ->).
  pose proof (fi_minable _ _ _ _ Hinv) as Hmin. apply Forall_app in Hmin as [Hmina _].
  pose proof (minable_eq p _ _ Hmina (fi_minable _ _ _ _ Hinv1) (eq_sym Ea)) as ->.
  rewrite (filter_prefix _ (it :: l2).*2); [|done|done|rewrite <- Eb, fmap_cons; set_solver].
  rewrite <- (fill_one_worth p l1 f1 txs1 it m tx f2 Hb Hinv1); [|by rewrite T1, Ep|rewrite Hh1; set_solver|done].
  rewrite fmap_app, <- Eb, E2, Hh1. set_solver.
Qed.

Lemma fill_start p empty : pool_ok p -> get_block_reward median_weight 0 already_generated_coins version = Ret (Some empty) -> is_u64 empty ->
  fill_inv p [] {| tx_hashes := []; total_weight := 0; f_fee := 0; best_coinbase := empty; coinbase := 0; k_images := ∅; f_pool := p |} [].
Proof.
  intros Hok He Hr. split; simpl; try done.
  - intros id m tx Hl. by exists m.
  - apply max_total_range.
  - constructor.
  - unfold reward_ok. destruct (5 <=? version); [|done]. exists empty. split; [done|]. by rewrite Z.add_0_r, wrap_small.
  - by right.
Qed.

Lemma empty_reward : exists empty, get_block_reward median_weight 0 already_generated_coins version = Ret (Some empty) /\ is_u64 empty.
Proof.
  rewrite get_block_reward_eq by (done || lia). pose proof (min_block_weight_range version).
  rewrite (proj2 (Z.leb_le _ _)) by (unfold effective_median; lia). eexists. split; [done|].
  pose proof (base_reward_range already_generated_coins version coins_range). mach.
Qed.

Context (null_hash : hash) (unlock_time extra_size : transaction -> Z) (tx_pruned : transaction -> bool) (fee_rate : Z -> Z -> rate).
Context (rate_asym : forall a b, rate_gt a b = true -> rate_gt b a = false)
        (rate_weak : forall a b c, rate_gt a c = true -> rate_gt a b = true \/ rate_gt b c = true).

(** C19: From any pool the template lists, each once and in the order by fee, transactions of
    the pool that may be mined and whose inputs are valid, no two of which share a key image;
    their weights leave room for the miner transaction; weight and fees are the sums. From
    version 5 on the reward announced is that of a block of this weight with these fees; before,
    it is zero as soon as a transaction is listed. What the checks of inputs note leaves the
    pool consistent. *)
Theorem template_sound now p :
  rtc (pool_step null_hash tx_hash vin get_transaction_weight get_tx_fee unlock_time extra_size tx_pruned fee_rate rate_gt) (new_pool now) p ->
  m_txpool_weight p < 2 ^ 63 ->
  exists txs total expected p',
    fill_block_template p = Ret (Some (tx_hash <$> txs, total, u64 (sum_of get_tx_fee txs), expected, p'))
    /\ tx_hash <$> txs `sublist_of` (m_txs_by_fee_and_receive_time p).*2 /\ NoDup (tx_hash <$> txs)
    /\ Forall (fun tx => (exists m, txpool p !! tx_hash tx = Some (m, tx) /\ may_be_mined m = true)
                         /\ i_ok (check_tx_inputs (tx_hash tx)) = true) txs
    /\ NoDup (concat (vin <$> txs))
    /\ total = sum_of get_transaction_weight txs
    /\ total + CRYPTONOTE_COINBASE_BLOB_RESERVED_SIZE <= (if 5 <=? version then 2 * median_weight else 130 * median_weight / 100)
    /\ (if 5 <=? version
        then exists R, get_block_reward median_weight total already_generated_coins version = Ret (Some R)
                       /\ expected = u64 (R + sum_of get_tx_fee txs)
        else txs <> [] -> expected = 0)
    /\ pool_ok p'.
Proof.
  intros Hok%reachable_ok Hw; [|done..]. destruct empty_reward as (empty & He & Hr).
  destruct (fill_loop_ok p (m_txs_by_fee_and_receive_time p) [] _ [] ltac:(intros id m tx Hl; eapply Z.le_lt_trans; [|exact Hw];
    by eapply entry_weight_le) (fill_start p empty Hok He Hr)) as (f & txs & Hf & [Hok' _ Ho Hh Hmin Hwt Hx Hfee _ Hd Hrew _]).
  unfold fill_block_template. rewrite He. simpl. rewrite Hf. simpl.
  exists txs, (total_weight f), (best_coinbase f), (f_pool f). rewrite Hh, Hfee. split; [done|]. split; [done|].
  split; [eapply sublist_NoDup; [apply Hok|done]|]. do 3 (split; [done|]). split; [|split; [exact Hrew|exact Hok']].
  destruct max_total_range as [_ Hm]. unfold CRYPTONOTE_COINBASE_BLOB_RESERVED_SIZE. destruct (5 <=? version); lia.
Qed.
(** C20: The template is greedy. With a median from 600 to 2^32 - 1 and from any pool of less than
    2^63 bytes, going through it in the order by fee, a transaction is listed if and only if, with
    the transactions that the template lists before it: it is relayed openly (or in the stem phase,
    when the node mines those) and whole; the weights with its own leave 600 bytes below twice the
    median (before version 5, below 130% of the median); the coinbase of a block with it, fees and
    penalty for the weight included, is at least the coinbase without it rounded to 24 bits (before
    version 5, the weight before it is at most the median); its inputs are valid and were not found
    invalid at this top before; and it shares no key image with those before it. *)
Theorem template_greedy now p :
  rtc (pool_step null_hash tx_hash vin get_transaction_weight get_tx_fee unlock_time extra_size tx_pruned fee_rate rate_gt) (new_pool now) p ->
  m_txpool_weight p < 2 ^ 63 ->
  exists txs total fees expected p', fill_block_template p = Ret (Some (tx_hash <$> txs, total, fees, expected, p'))
    /\ forall l1 it l2 m tx, m_txs_by_fee_and_receive_time p = l1 ++ it :: l2 -> txpool p !! it.2 = Some (m, tx) ->
         it.2 ∈ tx_hash <$> txs <-> worth (filter (fun t => tx_hash t ∈ l1.*2) txs) m tx.
Proof.
  intros Hok%reachable_ok Hw; [|done..]. destruct empty_reward as (empty & He & Hr).
  assert (forall id m tx, txpool p !! id = Some (m, tx) -> weight m < 2 ^ 63) as Hb
    by (intros id m tx Hl; eapply Z.le_lt_trans; [|exact Hw]; by eapply entry_weight_le).
  pose proof (fill_start p empty Hok He Hr) as G0.
  destruct (fill_loop_ok p (m_txs_by_fee_and_receive_time p) [] _ [] Hb G0) as (f & txs & Hf & Hinv).
  exists txs, (total_weight f), (f_fee f), (best_coinbase f), (f_pool f). split.
  { unfold fill_block_template. rewrite He. simpl. rewrite Hf. simpl. by rewrite (fi_hashes _ _ _ _ Hinv). }
  intros l1 it l2 m tx Hl Hm. simpl in Hinv. rewrite Hl in Hf, Hinv. eapply fill_loop_split; [exact Hb| |exact G0|done|exact Hf|exact Hinv|done].
  rewrite <- Hl. apply Hok.
Qed.
End Bounds.

End Fill.
End Template.

(** The test of the coinbase goes through a number of 24 bits: a transaction that leaves the
    reward as it is is refused at the first reward of the chain, and one that lowers it is
    accepted at others. *)
Lemma threshold_rounds :
  template_accept_threshold 35184372088831 = 35184372088832 /\ template_accept_threshold 35184370000000 = 35184369991680.
Proof. by vm_compute. Qed.

(** ** Witness: both transactions of the pool of [TxPool] *)

Definition toy_checks (id : Z) : inputs_verdict (hash := Z) := {| i_ok := true; i_max_used_block_height := 5; i_max_used_block_id := 7 |}.

Local Notation toy_fill := (fill_block_template snd 10 99 toy_checks false 300000 0 16 toy_pool2) (only parsing).

Lemma template_sound_witness : m_txpool_weight toy_pool2 < 2 ^ 63 /\ exists total expected p',
  toy_fill = Ret (Some ([2; 1], total, 3, expected, p')) /\ total = 200 /\ expected = 35184372088834.
Proof.
  split; [by vm_compute|].
  destruct (template_sound snd 10 99 toy_checks false 300000 0 16 fst (fun _ => 100) fst Z.gtb toy_nonneg ltac:(lia) ltac:(by_decide)
    0 (fun _ => 0) (fun _ => 0) (fun _ => false) (fun fee w => fee * 1000 / w) toy_asym toy_weak 0 toy_pool2 toy_reachable)
    as (txs & total & expected & p' & Hf & _); [by vm_compute|].
  exists total, expected, p'. assert (exists q, toy_fill = Ret (Some ([2; 1], 200, 3, 35184372088834, q))) as [q Hq] by (eexists; by vm_compute).
  rewrite Hf in Hq |- *. injection Hq as -> -> -> -> _. split; [reflexivity|]. split; reflexivity.
Defined.

(** The second one is worth listing after the first. *)
Lemma template_greedy_witness : exists (txs : list (Z * list Z)) total fees expected p' m,
  toy_fill = Ret (Some (fst <$> txs, total, fees, expected, p')) /\ fst <$> txs = [2; 1]
  /\ txpool toy_pool2 !! 1 = Some (m, (1, [10]))
  /\ worth snd 99 toy_checks false 300000 0 16 fst (fun _ => 100) fst (filter (fun t => fst t ∈ [2]) txs) m (1, [10]).
Proof.
  destruct (template_greedy snd 10 99 toy_checks false 300000 0 16 fst (fun _ => 100) fst Z.gtb toy_nonneg ltac:(lia) ltac:(by_decide)
    0 (fun _ => 0) (fun _ => 0) (fun _ => false) (fun fee w => fee * 1000 / w) toy_asym toy_weak 0 toy_pool2 toy_reachable)
    as (txs & total & fees & expected & p' & Hf & Hg); [by vm_compute|].
  assert (fst <$> txs = [2; 1]) as E.
  { apply (f_equal (fun r => match r with Ret (Some (h, _, _, _, _)) => h | _ => [] end)) in Hf.
    assert (match toy_fill with Ret (Some (h, _, _, _, _)) => h | _ => [] end = [2; 1]) as E2 by (by vm_compute). by rewrite E2 in Hf. }
  assert (exists m, txpool toy_pool2 !! 1 = Some (m, (1, [10]))) as [m Hm] by (eexists; by vm_compute).
  exists txs, total, fees, expected, p', m. split; [exact Hf|]. split; [exact E|]. split; [exact Hm|].
  assert (exists a b c d, m_txs_by_fee_and_receive_time toy_pool2 = [(a, b, 2)] ++ (c, d, 1) :: []) as (a & b & c & d & Ho)
    by (eexists _, _, _, _; by vm_compute).
  apply (Hg [(a, b, 2)] (c, d, 1) [] m (1, [10]) Ho Hm). rewrite E. by_decide.
Defined.
