(* ===== verification/Serialization.v ===== *)
(** * Binary archives: src/serialization/binary_archive.h, string.h, container.h, variant.h

    What travels between nodes and lies in the database is written field by field. A
    reader takes the bytes left and returns a value and the bytes left after it; a
    failed read, which clears the archive's flag [good_] and which every field checks
    right after, is [None]. A writer returns the bytes it appends. A codec is the pair of
    them with the values it is meant for; its laws are those of the class [Lawful], or
    of [Exact], which also holds at the end of the input. *)

From S2P Require Import Prelude IntUtil Radix Varint.

Definition reader (A : Type) : Type := list Z -> option (A * list Z).

#[global] Instance reader_bind : MBind reader := fun A B f r s =>
  match r s with Some (a, s) => f a s | None => None end.
#[global] Instance reader_ret : MRet reader := fun A a s => Some (a, s).

Definition fail {A} : reader A := fun _ => None.

(** ** The primitives of [binary_archive] *)

Definition remaining_bytes : reader Z := fun s => Some (Z.of_nat (length s), s).

(** A varint of an unsigned type of [bits] bits *)
Definition serialize_uvarint (bits : Z) : reader Z := fun s =>
  let '(code, v, s) := read_varint bits s in if 0 <=? code then Some (v, s) else None.

Definition serialize_blob (len : nat) : reader (list Z) := fun s =>
  if bool_decide (length s < len)%nat then None else Some (take len s, drop len s).

(** An unsigned integer of [size] bytes, least significant first *)
Definition serialize_uint (size : nat) : reader Z :=
  bs ← serialize_blob size; mret (le_value 256 bs).

(** A string: [string.h] *)
Definition read_string : reader (list Z) :=
  size ← serialize_uvarint 64;
  remaining ← remaining_bytes;
  if remaining <? size then fail else serialize_blob (Z.to_nat size).

Definition write_string (str : list Z) : list Z := write_varint (Z.of_nat (length str)) ++ str.

(** A container: [container.h] *)
Fixpoint read_elements {A} (elem : reader A) (cnt : nat) : reader (list A) :=
  match cnt with
  | O => mret []
  | S cnt => e ← elem; es ← read_elements elem cnt; mret (e :: es)
  end.

Definition read_container {A} (elem : reader A) : reader (list A) :=
  cnt ← serialize_uvarint 64;
  remaining ← remaining_bytes;
  if remaining <? cnt then fail else read_elements elem (Z.to_nat cnt).

Definition write_container {A} (elem : A -> list Z) (v : list A) : list Z :=
  write_varint (Z.of_nat (length v)) ++ concat (elem <$> v).

(** A variant: the tag is one byte, which selects the reader of the alternative. *)
Definition read_variant {A} (alternative : Z -> option (reader A)) : reader A :=
  t ← serialize_uint 1;
  match alternative t with Some r => r | None => fail end.

(** [serialize] of a whole text: [check_stream_state] wants nothing left. *)
Definition parse_all {A} (r : reader A) (s : list Z) : option A :=
  match r s with Some (a, []) => Some a | _ => None end.

(** ** Codecs *)

(** [saves] are the tests of the writer, which refuses the others. *)
Record codec (A : Type) := { get : reader A; put : A -> list Z; saves : A -> bool; ok : A -> Prop }.
Arguments get {A}. Arguments put {A}. Arguments saves {A}. Arguments ok {A}.

Definition write {A} (c : codec A) (a : A) : option (list Z) := if saves c a then Some (put c a) else None.

(** What was written reads back; what was read, followed by anything, had been written.
    At the end of the input a truncated integer is taken for a complete one, so
    nothing is said there. *)
Class Lawful {A} (c : codec A) : Prop := {
  ok_saves a : ok c a -> saves c a = true;
  put_bytes a : ok c a -> byte_list (put c a);
  get_put a rest : ok c a -> get c (put c a ++ rest) = Some (a, rest);
  get_inv s a rest :
    byte_list s -> get c s = Some (a, rest) ->
    ok c a /\ (exists p, s = p ++ rest) /\ (rest <> [] -> s = put c a ++ rest) }.

(** Every value takes a byte at least. *)
Class Nonempty {A} (c : codec A) : Prop := put_nonempty a : ok c a -> put c a <> [].

(** Also at the end of the input only what is written is read. *)
Class Exact {A} (c : codec A) : Prop := {
  exact_lawful :: Lawful c;
  get_exact s a rest : byte_list s -> get c s = Some (a, rest) -> s = put c a ++ rest }.

Definition varint_codec (bits : Z) : codec Z :=
  {| get := serialize_uvarint bits; put := write_varint; saves := fun _ => true; 
     ok := fun v => in_width bits v |}.

Definition blob_codec (n : nat) : codec (list Z) :=
  {| get := serialize_blob n; put := id; saves := fun _ => true; 
     ok := fun b => byte_list b /\ length b = n |}.

Definition uint_codec (n : nat) : codec Z :=
  {| get := serialize_uint n; put := le_digits 256 n; saves := fun _ => true; 
     ok := fun v => 0 <= v < 256 ^ Z.of_nat n |}.

Definition string_codec : codec (list Z) :=
  {| get := read_string; put := write_string; saves := fun _ => true;
     ok := fun s => byte_list s /\ is_u64 (Z.of_nat (length s)) |}.

Definition vector_codec {A} (c : codec A) : codec (list A) :=
  {| get := read_container (get c); put := write_container (put c); saves := forallb (saves c);
     ok := fun v => Forall (ok c) v /\ is_u64 (Z.of_nat (length v)) |}.

(** An array whose size is known: its elements only *)
Definition array_codec {A} (n : nat) (c : codec A) : codec (list A) :=
  {| get := read_elements (get c) n; put := fun v => concat (put c <$> v);
     saves := fun v => forallb (saves c) v && bool_decide (length v = n);
     ok := fun v => Forall (ok c) v /\ length v = n |}.

(** One field after another, which may depend on it *)
Definition dep_codec {A B} (c : codec A) (d : A -> codec B) : codec (A * B) :=
  {| get := a ← get c; b ← get (d a); mret (a, b);
     put := fun p => put c p.1 ++ put (d p.1) p.2;
     saves := fun p => saves c p.1 && saves (d p.1) p.2;
     ok := fun p => ok c p.1 /\ ok (d p.1) p.2 |}.
Definition pair_codec {A B} (c : codec A) (d : codec B) : codec (A * B) := dep_codec c (fun _ => d).

(** A field that is not there and has a fixed value *)
Definition const_codec {A} (a : A) : codec A := 
  {| get := mret a; put := fun _ => []; saves := fun _ => true; ok := fun b => b = a |}.

(** Elements that are read in different ways *)
Fixpoint sequence_codec {A} (cs : list (codec A)) : codec (list A) :=
  match cs with
  | [] => const_codec []
  | c :: cs =>
    {| get := a ← get c; v ← get (sequence_codec cs); mret (a :: v);
       put := fun v => match v with a :: v => put c a ++ put (sequence_codec cs) v | [] => [] end;
       saves := fun v => match v with a :: v => saves c a && saves (sequence_codec cs) v | [] => false end;
       ok := fun v => match v with a :: v => ok c a /\ ok (sequence_codec cs) v | [] => False end |}
  end.

(** A structure that is refused *)
Definition fail_codec {A} : codec A := 
  {| get := fail; put := fun _ => []; saves := fun _ => false; ok := fun _ => False |}.

(** A structure that the reader builds by [f] from its fields, which the writer finds in
    it by [g]; what the writer leaves out does not read back. *)
Definition map_codec {A B} (f : A -> B) (g : B -> option A) (c : codec A) : codec B :=
  {| get := a ← get c; mret (f a);
     put := fun b => match g b with Some a => put c a | None => [] end;
     saves := fun b => match g b with Some a => saves c a | None => false end;
     ok := fun b => exists a, g b = Some a /\ f a = b /\ ok c a |}.

(** A value that is refused unless it passes a test *)
Definition guard_codec {A} (p : A -> bool) (c : codec A) : codec A :=
  {| get := a ← get c; if p a then mret a else fail;
     put := put c; saves := fun a => saves c a && p a; ok := fun a => ok c a /\ p a = true |}.

(** A variant, from the codecs of its alternatives and the tag of a value *)
Definition variant_codec {A} (alternative : Z -> option (codec A)) (tag_of : A -> Z) : codec A :=
  {| get := read_variant (fun t => get <$> alternative t);
     put := fun a =>
       tag_of a :: match alternative (tag_of a) with Some c => put c a | None => [] end;
     saves := fun a => match alternative (tag_of a) with Some c => saves c a | None => false end;
     ok := fun a => is_u8 (tag_of a) /\ exists c, alternative (tag_of a) = Some c /\ ok c a |}.

Lemma byte_list_is_byte s : byte_list s <-> Forall is_byte s.
Proof. done. Qed.

Lemma byte_list_app s t : byte_list (s ++ t) <-> byte_list s /\ byte_list t.
Proof. apply Forall_app. Qed.

Lemma write_ok {A} (c : codec A) `{!Lawful c} a : ok c a -> write c a = Some (put c a).
Proof. intros Ha. unfold write. by rewrite (ok_saves a Ha). Qed.

(** ** The primitives *)

Lemma serialize_uvarint_put bits v rest :
  0 < bits -> in_width bits v -> serialize_uvarint bits (write_varint v ++ rest) = Some (v, rest).
Proof.
  intros Hb Hv. unfold serialize_uvarint, read_varint. pose proof (proj1 Hv) as H0.
  rewrite (read_write_loop bits v H0 0 0 0 rest) by (unfold in_width in Hv; lia).
  rewrite (proj2 (Z.leb_le _ _)) by lia. do 2 f_equal. lia.
Qed.

(** A varint that is not the whole of what is left is complete; else its bytes may all
    ask for more. *)
Lemma serialize_uvarint_inv bits s v rest :
  0 < bits -> byte_list s -> serialize_uvarint bits s = Some (v, rest) ->
  in_width bits v /\ (s = write_varint v ++ rest \/ rest = [] /\ Forall (fun b => 128 <= b) s).
Proof.
  intros Hbits Hs. unfold serialize_uvarint. destruct (read_varint bits s) as [[n w] r] eqn:E.
  destruct (Z.leb_spec 0 n); [|done]. intros [= -> ->]. unfold read_varint in E.
  destruct (read_loop_sound bits s 0 0 0 n v rest) as [(i & Hi & -> & Hcase) Hv]; try done; try lia.
  rewrite Z.mul_1_r, Z.add_0_l in *. split; [done|].
  destruct Hcase as [(-> & _)|(-> & Hall & _)]; [by left|by right].
Qed.

(** The widths of the types written as varints *)
Class Width (bits : Z) : Prop := width_pos : 0 < bits.
#[global] Instance width_8 : Width 8. Proof. done. Qed.
#[global] Instance width_32 : Width 32. Proof. done. Qed.
#[global] Instance width_64 : Width 64. Proof. done. Qed.

Section Varint.
Context (bits : Z) `{!Width bits}.

#[global] Instance varint_nonempty : Nonempty (varint_codec bits).
Proof.
  intros v [Hv _] E. pose proof (write_varint_nonempty v Hv) as Hl. cbn [put varint_codec] in E.
  rewrite E in Hl. cbn [length] in Hl. lia.
Qed.

#[global] Instance varint_lawful : Lawful (varint_codec bits).
Proof.
  constructor; cbn [ok put get varint_codec]; [done|..].
  - intros v [Hv _]. by apply write_varint_bytes.
  - intros v rest. by apply serialize_uvarint_put.
  - intros s v rest Hs E. destruct (serialize_uvarint_inv bits s v rest width_pos Hs E) as [Hv [->|[-> _]]].
    + split; [done|]. split; [by eexists|done].
    + split; [done|]. split; [exists s; by rewrite app_nil_r|done].
Qed.
End Varint.

Lemma serialize_blob_app n b rest : length b = n -> serialize_blob n (b ++ rest) = Some (b, rest).
Proof.
  intros <-. unfold serialize_blob. rewrite bool_decide_eq_false_2 by (rewrite length_app; lia).
  by rewrite take_app_length, drop_app_length.
Qed.

Lemma serialize_blob_inv n s b rest :
  serialize_blob n s = Some (b, rest) -> s = b ++ rest /\ length b = n.
Proof.
  unfold serialize_blob. case_bool_decide; [done|]. intros [= <- <-].
  rewrite take_drop, length_take. split; [done|lia].
Qed.

#[global] Instance blob_nonempty n : Nonempty (blob_codec (S n)).
Proof. by intros [|] []. Qed.

#[global] Instance blob_exact n : Exact (blob_codec n).
Proof.
  constructor; [constructor; [done|..]|]; cbn [ok put get blob_codec].
  - by intros b [].
  - intros b rest [_ Hl]. by apply serialize_blob_app.
  - intros s b rest Hs E. apply serialize_blob_inv in E as [-> Hl]. apply byte_list_app in Hs as [Hb _].
    split; [done|]. split; [by eexists|done].
  - intros s b rest _ E. by apply serialize_blob_inv in E as [-> _].
Qed.

#[global] Instance uint_nonempty n : Nonempty (uint_codec (S n)).
Proof. done. Qed.

#[global] Instance uint_exact n : Exact (uint_codec (S n)).
Proof.
  assert (Hinv : forall s v rest, byte_list s -> serialize_uint (S n) s = Some (v, rest) ->
            0 <= v < 256 ^ Z.of_nat (S n) /\ s = le_digits 256 (S n) v ++ rest).
  { intros s v rest Hs. unfold serialize_uint, mbind, reader_bind, mret, reader_ret.
    destruct (serialize_blob (S n) s) as [[b r]|] eqn:E; [|done]. intros [= <- <-].
    apply serialize_blob_inv in E as [-> Hl]. apply byte_list_app in Hs as [Hb _].
    split; [rewrite <- Hl; by apply le_value_bound|]. f_equal. rewrite <- Hl. symmetry. by apply le_digits_value. }
  constructor; [constructor; [done|..]|]; cbn [ok put get uint_codec].
  - intros v _. by apply le_digits_list.
  - intros v rest Hv. unfold serialize_uint, mbind, reader_bind, mret, reader_ret.
    rewrite serialize_blob_app by apply le_digits_length.
    by rewrite le_value_digits_small.
  - intros s v rest Hs E. destruct (Hinv _ _ _ Hs E) as [Hv ->]. split; [done|]. split; [by eexists|done].
  - intros s v rest Hs E. by destruct (Hinv _ _ _ Hs E).
Qed.

(** ** Sequences of reads *)

Lemma read_bind {A B} (r : reader A) (f : A -> reader B) s a s' :
  r s = Some (a, s') -> (r ≫= f) s = f a s'.
Proof. intros E. unfold mbind, reader_bind. by rewrite E. Qed.

Lemma read_bind_inv {A B} (r : reader A) (f : A -> reader B) s b rest :
  (r ≫= f) s = Some (b, rest) -> exists a s', r s = Some (a, s') /\ f a s' = Some (b, rest).
Proof. unfold mbind, reader_bind. destruct (r s) as [[a s']|]; [by eexists _, _|done]. Qed.

Lemma parse_all_Some {A} (r : reader A) s a : parse_all r s = Some a <-> r s = Some (a, []).
Proof. unfold parse_all. destruct (r s) as [[b []]|]; naive_solver. Qed.

(** Splits every sequence of reads in the hypotheses. *)
Ltac read_inv :=
  repeat match goal with
  | H : (_ ≫= _) _ = Some (_, _) |- _ => apply read_bind_inv in H as (? & ? & ? & ?)
  | H : mret _ _ = Some (_, _) |- _ => unfold mret, reader_ret in H; injection H as <- <-
  | H : fail _ = Some _ |- _ => discriminate H
  | H : remaining_bytes _ = Some _ |- _ => unfold remaining_bytes in H; injection H as <- <-
  end.

Section Vector.
Context {A : Type} (c : codec A).

Lemma elements_put `{!Lawful c} v rest :
  Forall (ok c) v -> read_elements (get c) (length v) (concat (put c <$> v) ++ rest) = Some (v, rest).
Proof.
  induction 1 as [|a v Ha _ IH]; [done|]. cbn [length read_elements fmap list_fmap concat].
  rewrite <- app_assoc. erewrite read_bind by by apply get_put. by erewrite read_bind by exact IH.
Qed.

Lemma elements_bytes `{!Lawful c} v : Forall (ok c) v -> byte_list (concat (put c <$> v)).
Proof.
  induction 1 as [|a v Ha _ IH]; [constructor|]. cbn. apply byte_list_app. split; [by apply put_bytes|done].
Qed.

Lemma elements_save `{!Lawful c} v : Forall (ok c) v -> forallb (saves c) v = true.
Proof. induction 1 as [|a v Ha _ IH]; [done|]. cbn [forallb]. rewrite IH. by rewrite (ok_saves a Ha). Qed.

(** Every element takes a byte at least. *)
Lemma elements_length `{!Nonempty c} v : Forall (ok c) v -> (length v <= length (concat (put c <$> v)))%nat.
Proof.
  induction 1 as [|a v Ha _ IH]; [done|]. rewrite fmap_cons. cbn [concat length]. rewrite length_app.
  pose proof (put_nonempty a Ha) as Hne. destruct (put c a) as [|b l]; [done|]. cbn [length]. lia.
Qed.

Lemma elements_inv `{!Lawful c} n s v rest :
  byte_list s -> read_elements (get c) n s = Some (v, rest) ->
  Forall (ok c) v /\ length v = n /\ (exists p, s = p ++ rest)
  /\ (rest <> [] -> s = concat (put c <$> v) ++ rest).
Proof.
  revert s v. induction n as [|n IH]; intros s v Hs E; cbn [read_elements] in E; read_inv.
  { split; [constructor|]. split; [done|]. split; [by exists []|done]. }
  rename x0 into s1, x into a, x2 into s2, x1 into es.
  destruct (get_inv s a s1 Hs H) as (Ha & [p ->] & Hc).
  apply byte_list_app in Hs as [_ Hs1].
  destruct (IH s1 es Hs1 H0) as (Hv & Hl & [q ->] & Hr).
  split; [by constructor|]. split; [cbn; lia|]. split; [exists (p ++ q); by rewrite app_assoc|].
  intros Hne. rewrite Hc by (by intros [_ ->]%app_nil). rewrite Hr by done. cbn. by rewrite !app_assoc.
Qed.

Lemma elements_exact `{!Exact c} n s v rest :
  byte_list s -> read_elements (get c) n s = Some (v, rest) -> s = concat (put c <$> v) ++ rest.
Proof.
  revert s v. induction n as [|n IH]; intros s v Hs E; cbn [read_elements] in E; read_inv; [done|].
  pose proof (get_exact _ _ _ Hs H) as ->. apply byte_list_app in Hs as [_ Hs1].
  rewrite (IH _ _ Hs1 H0). cbn. by rewrite app_assoc.
Qed.

(** How a container reads: a count, then as many elements *)
Lemma container_inv s v rest :
  read_container (get c) s = Some (v, rest) ->
  exists cnt s1, serialize_uvarint 64 s = Some (cnt, s1) /\ cnt <= Z.of_nat (length s1)
    /\ read_elements (get c) (Z.to_nat cnt) s1 = Some (v, rest).
Proof.
  unfold read_container. intros E. read_inv. rename x into cnt, x0 into s1.
  destruct (Z.ltb_spec (Z.of_nat (length s1)) cnt); [done|]. by exists cnt, s1.
Qed.

#[global] Instance vector_nonempty : Nonempty (vector_codec c).
Proof.
  intros v [_ [Hl _]]. cbn [put vector_codec]. unfold write_container. intros [E _]%app_nil.
  pose proof (write_varint_nonempty _ Hl) as Hne. rewrite E in Hne. cbn in Hne. lia.
Qed.

#[global] Instance array_nonempty n `{!Nonempty c} : Nonempty (array_codec (S n) c).
Proof.
  intros [|a v] [Hv Hl]; [done|]. apply Forall_cons in Hv as [Ha _]. cbn. intros [E _]%app_nil.
  by apply (put_nonempty a Ha).
Qed.

#[global] Instance array_lawful n `{!Lawful c} : Lawful (array_codec n c).
Proof.
  constructor; cbn [ok get put array_codec].
  - intros v [Hv Hl]. cbn. rewrite (elements_save v Hv). by apply bool_decide_eq_true.
  - intros v [Hv _]. by apply elements_bytes.
  - intros v rest [Hv <-]. by apply elements_put.
  - intros s v rest Hs E. by destruct (elements_inv _ _ _ _ Hs E) as (Hv & Hl & Hp & Hr).
Qed.

#[global] Instance array_exact n `{!Exact c} : Exact (array_codec n c).
Proof. constructor; [apply _|]. intros s v rest Hs E. by apply (elements_exact n). Qed.

#[global] Instance vector_lawful `{!Lawful c, !Nonempty c} : Lawful (vector_codec c).
Proof.
  constructor; cbn [ok get put vector_codec]; unfold write_container.
  - intros v [Hv _]. by apply elements_save.
  - intros v [Hv Hl]. apply byte_list_app. split; [apply write_varint_bytes; lia|by apply elements_bytes].
  - intros v rest [Hv Hl]. unfold read_container. rewrite <- app_assoc.
    erewrite read_bind by by apply (serialize_uvarint_put 64). erewrite read_bind by done.
    pose proof (elements_length v Hv). rewrite (proj2 (Z.ltb_ge _ _)) by (rewrite length_app; lia).
    rewrite Nat2Z.id. by apply elements_put.
  - intros s v rest Hs E. apply container_inv in E as (cnt & s1 & E1 & Hle & E2).
    destruct (serialize_uvarint_inv 64 _ _ _ width_pos Hs E1) as [Hcnt Hcase].
    assert (exists p, s = p ++ s1) as [p ->].
    { destruct Hcase as [->|[-> _]]; [by eexists|exists s; by rewrite app_nil_r]. }
    apply byte_list_app in Hs as [_ Hs1].
    destruct (elements_inv _ _ _ _ Hs1 E2) as (Hv & Hl & [q ->] & Hr).
    split; [split; [done|]; unfold in_width in *; lia|].
    split; [exists (p ++ q); by rewrite app_assoc|]. intros Hne.
    destruct Hcase as [E|[E _]]; [|by apply app_nil in E as [_ ?]].
    rewrite E, Hl, Z2Nat.id by (unfold in_width in *; lia). rewrite <- app_assoc. f_equal. by apply Hr.
Qed.

(** A container of which the end is known: only an empty one can be cut short. *)
Lemma container_exact `{!Exact c} s v rest :
  byte_list s -> read_container (get c) s = Some (v, rest) ->
  s = write_container (put c) v ++ rest \/ v = [] /\ rest = [] /\ Forall (fun b => 128 <= b) s.
Proof.
  intros Hs E. apply container_inv in E as (cnt & s1 & E1 & Hle & E2).
  destruct (serialize_uvarint_inv 64 _ _ _ width_pos Hs E1) as [Hcnt [->|[-> Hall]]].
  - left. apply byte_list_app in Hs as [_ Hs1]. destruct (elements_inv _ _ _ _ Hs1 E2) as (_ & Hl & _).
    rewrite (elements_exact _ _ _ _ Hs1 E2). unfold write_container.
    rewrite Hl, Z2Nat.id by (unfold in_width in *; lia). by rewrite <- app_assoc.
  - right. cbn in Hle. assert (cnt = 0) as -> by (unfold in_width in *; lia).
    cbn in E2. by injection E2 as <- <-.
Qed.
End Vector.

(** ** Strings *)

Lemma read_string_inv s str rest :
  byte_list s -> read_string s = Some (str, rest) ->
  byte_list str /\ is_u64 (Z.of_nat (length str))
  /\ exists s1, serialize_uvarint 64 s = Some (Z.of_nat (length str), s1) /\ s1 = str ++ rest.
Proof.
  unfold read_string. intros Hs E. apply read_bind_inv in E as (size & s1 & E1 & E).
  apply read_bind_inv in E as (r & s2 & [= <- <-] & E).
  destruct (Z.ltb_spec (Z.of_nat (length s1)) size); [done|].
  destruct (serialize_uvarint_inv 64 _ _ _ width_pos Hs E1) as [Hsize Hcase].
  apply serialize_blob_inv in E as [-> Hl].
  assert (Z.of_nat (length str) = size) as Es by (unfold in_width in *; lia).
  assert (byte_list str).
  { destruct Hcase as [->|[[-> _]%app_nil _]]; [|constructor].
    by apply byte_list_app in Hs as [_ [? _]%byte_list_app]. }
  rewrite Es. split; [done|]. split; [done|]. by eexists.
Qed.

(** Only an empty string can be cut short. *)
Lemma string_exact s str rest :
  byte_list s -> read_string s = Some (str, rest) ->
  s = write_string str ++ rest \/ str = [] /\ rest = [] /\ Forall (fun b => 128 <= b) s.
Proof.
  intros Hs E. apply read_string_inv in E as (_ & _ & s1 & E1 & ->); [|done].
  destruct (serialize_uvarint_inv 64 _ _ _ width_pos Hs E1) as [_ [->|[[-> ->]%app_nil Hall]]]; [left|by right].
  unfold write_string. by rewrite <- app_assoc.
Qed.

#[global] Instance string_nonempty : Nonempty string_codec.
Proof.
  intros str [_ [Hl _]]. cbn [put string_codec]. unfold write_string. intros [E _]%app_nil.
  pose proof (write_varint_nonempty _ Hl) as Hne. rewrite E in Hne. cbn in Hne. lia.
Qed.

#[global] Instance string_lawful : Lawful string_codec.
Proof.
  constructor; cbn [ok get put string_codec]; [done|..].
  - intros str [Hb [Hl _]]. apply byte_list_app. split; [by apply write_varint_bytes|done].
  - intros str rest [Hb Hl]. unfold read_string, write_string. rewrite <- app_assoc.
    erewrite read_bind by by apply (serialize_uvarint_put 64). erewrite read_bind by done.
    rewrite (proj2 (Z.ltb_ge _ _)) by (rewrite length_app; lia). rewrite Nat2Z.id.
    by apply serialize_blob_app.
  - intros s str rest Hs E. destruct (read_string_inv _ _ _ Hs E) as (Hb & Hl & s1 & E1 & ->).
    split; [done|]. destruct (string_exact _ _ _ Hs E) as [->|(-> & -> & _)].
    + split; [by eexists|done].
    + split; [exists s; by rewrite app_nil_r|done].
Qed.

(** ** Structures and variants *)

Section Structures.
Context {A B : Type}.

Section Dependent.
Context (c : codec A) (d : A -> codec B).

Lemma dep_inv s a b rest :
  get (dep_codec c d) s = Some ((a, b), rest) ->
  exists s1, get c s = Some (a, s1) /\ get (d a) s1 = Some (b, rest).
Proof.
  cbn [get dep_codec]. intros E. apply read_bind_inv in E as (a' & s1 & E1 & E).
  apply read_bind_inv in E as (b' & s2 & E2 & E). injection E as -> -> ->. by exists s1.
Qed.

Lemma dep_nonempty_l `{!Nonempty c} : Nonempty (dep_codec c d).
Proof. intros [a b] [Ha _] [E _]%app_nil. by apply (put_nonempty a Ha). Qed.

Lemma dep_nonempty_r : (forall a, ok c a -> Nonempty (d a)) -> Nonempty (dep_codec c d).
Proof. intros Hd [a b] [Ha Hb] [_ E]%app_nil. by apply (Hd a Ha b Hb). Qed.

Lemma dep_lawful `{!Lawful c} : (forall a, ok c a -> Lawful (d a)) -> Lawful (dep_codec c d).
Proof.
  intros Hd. constructor.
  - intros [a b] [Ha Hb]. pose proof (Hd a Ha). cbn [saves dep_codec fst snd].
    rewrite (ok_saves a Ha). by apply (ok_saves (c := d a)).
  - intros [a b] [Ha Hb]. cbn in Ha, Hb. pose proof (Hd a Ha).
    apply byte_list_app. split; [by apply (put_bytes (c := c))|by apply (put_bytes (c := d a))].
  - intros [a b] rest [Ha Hb]. cbn [get put dep_codec fst snd] in *. pose proof (Hd a Ha).
    rewrite <- app_assoc. erewrite read_bind by by apply get_put. by erewrite read_bind by by apply get_put.
  - intros s [a b] rest Hs (s1 & E1 & E2)%dep_inv.
    destruct (get_inv s a s1 Hs E1) as (Ha & [p ->] & Hc). apply byte_list_app in Hs as [_ Hs1].
    pose proof (Hd a Ha). destruct (get_inv s1 b rest Hs1 E2) as (Hb & [q ->] & Hd').
    split; [done|]. split; [exists (p ++ q); by rewrite app_assoc|]. intros Hne. cbn.
    rewrite Hc by (by intros [_ ?]%app_nil). rewrite Hd' by done. by rewrite app_assoc.
Qed.

(** What follows an exact field, or takes a byte at least, keeps a structure exact. *)
Lemma dep_exact_both `{!Exact c} : (forall a, ok c a -> Exact (d a)) -> Exact (dep_codec c d).
Proof.
  intros Hd. constructor; [apply dep_lawful; intros a Ha; by destruct (Hd a Ha)|].
  intros s [a b] rest Hs (s1 & E1 & E2)%dep_inv. destruct (get_inv s a s1 Hs E1) as (Ha & _).
  pose proof (get_exact s a s1 Hs E1) as ->. apply byte_list_app in Hs as [_ Hs1]. pose proof (Hd a Ha).
  pose proof (get_exact s1 b rest Hs1 E2) as ->. cbn. by rewrite app_assoc.
Qed.

Lemma dep_exact_tail `{!Lawful c} :
  (forall a, ok c a -> Exact (d a) /\ Nonempty (d a)) -> Exact (dep_codec c d).
Proof.
  intros Hd. constructor; [apply dep_lawful; intros a Ha; by destruct (Hd a Ha) as [[]]|].
  intros s [a b] rest Hs (s1 & E1 & E2)%dep_inv.
  destruct (get_inv s a s1 Hs E1) as (Ha & [p ->] & Hc). apply byte_list_app in Hs as [_ Hs1].
  destruct (Hd a Ha) as [He Hn]. pose proof (get_exact s1 b rest Hs1 E2) as Hd'.
  destruct (get_inv s1 b rest Hs1 E2) as (Hb & _). cbn.
  rewrite Hc; [by rewrite Hd', app_assoc|]. intros ->. symmetry in Hd'. apply app_nil in Hd' as [Hd' _].
  by apply (Hn b Hb).
Qed.
End Dependent.

Section Pair.
Context (c : codec A) (d : codec B).
#[global] Instance pair_nonempty `{!Nonempty c} : Nonempty (pair_codec c d).
Proof. by apply dep_nonempty_l. Qed.
#[global] Instance pair_nonempty_r `{!Nonempty d} : Nonempty (pair_codec c d) | 10.
Proof. by apply dep_nonempty_r. Qed.
#[global] Instance pair_lawful `{!Lawful c, !Lawful d} : Lawful (pair_codec c d).
Proof. by apply dep_lawful. Qed.
#[global] Instance pair_exact `{!Exact c, !Exact d} : Exact (pair_codec c d).
Proof. by apply dep_exact_both. Qed.
#[global] Instance pair_exact_tail `{!Lawful c, !Exact d, !Nonempty d} : Exact (pair_codec c d) | 10.
Proof. by apply dep_exact_tail. Qed.
End Pair.

Section Map.
Context (f : A -> B) (g : B -> option A) (c : codec A).
Context (gf : forall a, ok c a -> g (f a) = Some a).

Lemma map_inv s b rest :
  get (map_codec f g c) s = Some (b, rest) -> exists a, f a = b /\ get c s = Some (a, rest).
Proof. cbn [get map_codec]. intros E. read_inv. by eexists. Qed.

Lemma map_nonempty `{!Nonempty c} : Nonempty (map_codec f g c).
Proof. intros b (a & E & _ & Ha). cbn. rewrite E. by apply put_nonempty. Qed.

Lemma map_lawful `{!Lawful c} : Lawful (map_codec f g c).
Proof.
  constructor.
  - intros b (a & E & _ & Ha). cbn. rewrite E. by apply ok_saves.
  - intros b (a & E & _ & Ha). cbn. rewrite E. by apply put_bytes.
  - intros b rest (a & E & <- & Ha). cbn [get put map_codec]. rewrite E.
    by erewrite read_bind by by apply get_put.
  - intros s b rest Hs (a & <- & E)%map_inv. destruct (get_inv s a rest Hs E) as (Ha & Hp & Hc).
    split; [exists a; split; [by apply gf|done]|]. split; [done|]. cbn. by rewrite gf.
Qed.

Lemma map_exact `{!Exact c} : Exact (map_codec f g c).
Proof.
  constructor; [by apply map_lawful|]. intros s b rest Hs (a & <- & E)%map_inv.
  destruct (get_inv s a rest Hs E) as (Ha & _). cbn. rewrite gf by done. by apply get_exact.
Qed.
End Map.

Lemma guard_inv (p : A -> bool) (c : codec A) s a rest :
  get (guard_codec p c) s = Some (a, rest) -> get c s = Some (a, rest) /\ p a = true.
Proof.
  cbn [get guard_codec]. intros E. apply read_bind_inv in E as (a' & s' & E1 & E).
  destruct (p a') eqn:Ep; [|done]. by injection E as -> ->.
Qed.

#[global] Instance guard_nonempty (p : A -> bool) (c : codec A) `{!Nonempty c} : Nonempty (guard_codec p c).
Proof. intros a [Ha _]. by apply (put_nonempty (c := c)). Qed.

#[global] Instance guard_lawful (p : A -> bool) (c : codec A) `{!Lawful c} : Lawful (guard_codec p c).
Proof.
  constructor.
  - intros a [Ha Hp]. cbn. by rewrite (ok_saves a Ha).
  - intros a [Ha _]. by apply (put_bytes (c := c)).
  - intros a rest [Ha Hp]. cbn [get put guard_codec]. erewrite read_bind by by apply get_put. by rewrite Hp.
  - intros s a rest Hs [E Hp]%guard_inv. by destruct (get_inv s a rest Hs E) as (Ha & Hq & Hc).
Qed.

#[global] Instance guard_exact (p : A -> bool) (c : codec A) `{!Exact c} : Exact (guard_codec p c).
Proof. constructor; [apply _|]. intros s a rest Hs [E Hp]%guard_inv. by apply (get_exact (c := c)). Qed.

Section Variant.
Context (alternative : Z -> option (codec A)) (tag_of : A -> Z).
Context (tagged : forall t c a, alternative t = Some c -> ok c a -> tag_of a = t).

Lemma variant_inv s a rest :
  byte_list s -> get (variant_codec alternative tag_of) s = Some (a, rest) ->
  exists t c s1, s = t :: s1 /\ is_u8 t /\ alternative t = Some c /\ get c s1 = Some (a, rest).
Proof.
  cbn [get variant_codec]. unfold read_variant. intros Hs E. apply read_bind_inv in E as (t & s1 & E1 & E).
  pose proof (get_exact (c := uint_codec 1) s t s1 Hs E1) as ->.
  destruct (get_inv (c := uint_codec 1) _ t s1 Hs E1) as (Ht & _). cbn [ok uint_codec] in Ht.
  destruct (alternative t) as [c|] eqn:Ea; [|done]. exists t, c, s1. cbn [put uint_codec le_digits].
  change (256 ^ Z.of_nat 1) with 256 in Ht. rewrite Z.mod_small by lia. split; [done|]. by split; [mach|].
Qed.

Lemma variant_nonempty : Nonempty (variant_codec alternative tag_of).
Proof. done. Qed.

Lemma variant_lawful :
  (forall t c, alternative t = Some c -> Lawful c) -> Lawful (variant_codec alternative tag_of).
Proof.
  intros Hlaw. constructor.
  - intros a (Ht & c & Ea & Ha). cbn. rewrite Ea. pose proof (Hlaw _ _ Ea). by apply ok_saves.
  - intros a (Ht & c & Ea & Ha). cbn. rewrite Ea. pose proof (Hlaw _ _ Ea).
    constructor; [exact Ht|by apply (put_bytes (c := c))].
  - intros a rest (Ht & c & Ea & Ha). cbn [get put variant_codec]. rewrite Ea. pose proof (Hlaw _ _ Ea).
    unfold read_variant. rewrite (read_bind _ _ _ (tag_of a) (put c a ++ rest)).
    + rewrite Ea. cbn. by apply get_put.
    + pose proof (get_put (c := uint_codec 1) (tag_of a) (put c a ++ rest)) as Hg.
      cbn [ok get put uint_codec le_digits app] in Hg. change (256 ^ Z.of_nat 1) with 256 in Hg.
      rewrite Z.mod_small in Hg by mach. apply Hg. mach.
  - intros s a rest Hs E. destruct (variant_inv _ _ _ Hs E) as (t & c & s1 & -> & Ht & Ea & E1).
    pose proof (Hlaw _ _ Ea). apply Forall_cons in Hs as [_ Hs1].
    destruct (get_inv s1 a rest Hs1 E1) as (Ha & [p ->] & Hc). pose proof (tagged _ _ _ Ea Ha) as <-.
    split; [split; [done|by exists c]|]. split; [by exists (tag_of a :: p)|].
    intros Hne. cbn. rewrite Ea. f_equal. by apply Hc.
Qed.

Lemma variant_exact :
  (forall t c, alternative t = Some c -> Exact c) -> Exact (variant_codec alternative tag_of).
Proof.
  intros Hex. constructor; [apply variant_lawful; intros t c Ea; by destruct (Hex t c Ea)|].
  intros s a rest Hs E. destruct (variant_inv _ _ _ Hs E) as (t & c & s1 & -> & Ht & Ea & E1).
  pose proof (Hex _ _ Ea). apply Forall_cons in Hs as [_ Hs1].
  destruct (get_inv s1 a rest Hs1 E1) as (Ha & _). pose proof (tagged _ _ _ Ea Ha) as <-.
  cbn. rewrite Ea. f_equal. by apply get_exact.
Qed.
End Variant.
End Structures.

#[global] Instance const_exact {A} (a : A) : Exact (const_codec a).
Proof.
  constructor; [constructor; [done|..]|]; cbn [ok get put const_codec].
  - constructor.
  - by intros b rest ->.
  - intros s b rest _ [= -> ->]. split; [done|]. split; [by exists []|done].
  - by intros s b rest _ [= -> ->].
Qed.

Section Sequence.
Context {A : Type}.

(** A sequence is a pair of its head and its tail. *)
Lemma sequence_cons (c : codec A) cs s v rest :
  get (sequence_codec (c :: cs)) s = Some (v, rest) ->
  exists a v', v = a :: v' /\ get (pair_codec c (sequence_codec cs)) s = Some ((a, v'), rest).
Proof.
  cbn [get sequence_codec]. intros E. apply read_bind_inv in E as (a & s1 & E1 & E).
  apply read_bind_inv in E as (v' & s2 & E2 & E). injection E as <- <-. exists a, v'. split; [done|].
  cbn. erewrite read_bind by exact E1. by erewrite read_bind by exact E2.
Qed.

Lemma sequence_lawful (cs : list (codec A)) : Forall Lawful cs -> Lawful (sequence_codec cs).
Proof.
  induction 1 as [|c cs Hc _ IH]; [apply _|]. constructor.
  - intros [|a v] Hok; [done|]. exact (ok_saves (c := pair_codec c (sequence_codec cs)) (a, v) Hok).
  - intros [|a v] Hok; [done|]. exact (put_bytes (c := pair_codec c (sequence_codec cs)) (a, v) Hok).
  - intros [|a v] rest Hok; [done|]. destruct Hok as [Ha Hv]. cbn [get put sequence_codec].
    rewrite <- app_assoc. erewrite read_bind by by apply get_put. by erewrite read_bind by by apply get_put.
  - intros s v rest Hs (a & v' & -> & E)%sequence_cons.
    exact (get_inv (c := pair_codec c (sequence_codec cs)) s (a, v') rest Hs E).
Qed.

Lemma sequence_exact (cs : list (codec A)) : Forall Exact cs -> Exact (sequence_codec cs).
Proof.
  induction 1 as [|c cs Hc Hcs IH]; [apply _|]. constructor.
  - apply sequence_lawful. constructor; [apply _|]. apply (Forall_impl _ _ _ Hcs). by intros ? [].
  - intros s v rest Hs (a & v' & -> & E)%sequence_cons.
    exact (get_exact (c := pair_codec c (sequence_codec cs)) s (a, v') rest Hs E).
Qed.
End Sequence.

#[global] Instance fail_exact {A} : Exact (fail_codec (A := A)).
Proof. by (constructor; [constructor|]). Qed.

#[global] Instance fail_nonempty {A} : Nonempty (fail_codec (A := A)).
Proof. by intros a []. Qed.

(** ** Codecs that are exact but for some values at the end of the input *)

Definition exact_unless {A} (c : codec A) (P : A -> Prop) : Prop :=
  forall s a rest, byte_list s -> get c s = Some (a, rest) -> s = put c a ++ rest \/ rest = [] /\ P a.

Lemma vector_unless {A} (c : codec A) `{!Exact c} : exact_unless (vector_codec c) (fun v => v = []).
Proof. intros s v rest Hs E. destruct (container_exact c _ _ _ Hs E) as [->|(-> & -> & _)]; auto. Qed.

Lemma guard_unless {A} (p : A -> bool) (c : codec A) P : exact_unless c P -> exact_unless (guard_codec p c) P.
Proof. intros H s a rest Hs [E _]%guard_inv. by apply H. Qed.

Lemma map_unless {A B} (f : A -> B) (g : B -> option A) (c : codec A) (P : A -> Prop) (Q : B -> Prop) `{!Lawful c} :
  (forall a, ok c a -> g (f a) = Some a) -> (forall a, P a -> Q (f a)) ->
  exact_unless c P -> exact_unless (map_codec f g c) Q.
Proof.
  intros gf HPQ H s b rest Hs (a & <- & E)%map_inv. destruct (get_inv s a rest Hs E) as (Ha & _).
  destruct (H _ _ _ Hs E) as [->|[-> Hp]]; [left; cbn; by rewrite gf|right; auto].
Qed.

Lemma pair_unless {A B} (c : codec A) (d : codec B) P `{!Lawful c, !Lawful d, !Nonempty d} :
  exact_unless d P -> exact_unless (pair_codec c d) (fun q => P q.2).
Proof.
  intros H s [a b] rest Hs (s1 & E1 & E2)%dep_inv. destruct (get_inv s a s1 Hs E1) as (_ & [q Hq] & Hc).
  assert (Hs1 : byte_list s1) by (subst s; by apply byte_list_app in Hs as [_ ?]).
  destruct (H _ _ _ Hs1 E2) as [Hd|[-> Hp]]; [left|by right]. destruct (get_inv s1 b rest Hs1 E2) as (Hb & _).
  rewrite Hc; [cbn; by rewrite Hd, app_assoc|]. rewrite Hd. intros [E _]%app_nil. by apply (put_nonempty b Hb).
Qed.

(** ** Texts that end too early *)

(** A text that ends inside a number, or before it: the reader takes the number for what bytes
    there were, and finds 0 and nothing else after it. The full text has the number whole. *)
Definition cut_short (full text : list Z) : Prop :=
  exists pre cut v k, text = pre ++ cut /\ Forall (fun b => 128 <= b) cut /\
    serialize_uvarint 64 cut = Some (v, []) /\ full = pre ++ write_varint v ++ replicate k 0.

(** What was read had been written, or was written in full and cut short. *)
Class Cuttable {A} (c : codec A) : Prop :=
  cut_get s a rest : byte_list s -> get c s = Some (a, rest) ->
    s = put c a ++ rest \/ rest = [] /\ cut_short (put c a) s.

Lemma cut_nil full : cut_short full [] -> exists k, full = replicate k 0.
Proof.
  intros (pre & cut & v & k & E & _ & Ev & ->). symmetry in E. apply app_nil in E as [-> ->].
  injection Ev as <-. by exists (S k).
Qed.

Lemma cut_zeros full text n : cut_short full text -> cut_short (full ++ replicate n 0) text.
Proof.
  intros (pre & cut & v & k & -> & Hc & Ev & ->). exists pre, cut, v, (k + n)%nat.
  by rewrite replicate_add, <- !app_assoc.
Qed.

Lemma cut_app p full text : cut_short full text -> cut_short (p ++ full) (p ++ text).
Proof. intros (pre & cut & v & k & -> & Hc & Ev & ->). exists (p ++ pre), cut, v, k. by rewrite <- !app_assoc. Qed.

(** One piece after another: when the first is cut, the second is empty or zeros. *)
Lemma cut_join p q s s1 rest :
  s = p ++ s1 \/ s1 = [] /\ cut_short p s -> s1 = q ++ rest \/ rest = [] /\ cut_short q s1 ->
  s = (p ++ q) ++ rest \/ rest = [] /\ cut_short (p ++ q) s.
Proof.
  intros [->|[-> Hp]] [E|[-> Hq]].
  - left. by rewrite E, app_assoc.
  - right. split; [done|by apply cut_app].
  - symmetry in E. apply app_nil in E as [-> ->]. right. by rewrite app_nil_r.
  - right. split; [done|]. destruct (cut_nil _ Hq) as [k ->]. by apply cut_zeros.
Qed.

#[global] Instance exact_cuttable {A} (c : codec A) `{!Exact c} : Cuttable c | 10.
Proof. intros s a rest Hs E. left. by apply get_exact. Qed.

#[global] Instance varint_cuttable : Cuttable (varint_codec 64).
Proof.
  intros s v rest Hs E. destruct (serialize_uvarint_inv 64 s v rest eq_refl Hs E) as [_ [->|[-> Hall]]]; [by left|].
  right. split; [done|]. exists [], s, v, 0%nat. cbn [replicate app put varint_codec]. by rewrite app_nil_r.
Qed.

Lemma dep_cuttable {A B} (c : codec A) (d : A -> codec B) `{!Lawful c, !Cuttable c} :
  (forall a, Cuttable (d a)) -> Cuttable (dep_codec c d).
Proof.
  intros Hd s [a b] rest Hs (s1 & E1 & E2)%dep_inv. destruct (get_inv s a s1 Hs E1) as (_ & [q Hq] & _).
  assert (byte_list s1) as Hs1 by (subst s; by apply byte_list_app in Hs as [_ ?]).
  exact (cut_join _ _ _ _ _ (cut_get s a s1 Hs E1) (cut_get s1 b rest Hs1 E2)).
Qed.

#[global] Instance pair_cuttable {A B} (c : codec A) (d : codec B) `{!Lawful c, !Cuttable c, !Cuttable d} :
  Cuttable (pair_codec c d).
Proof. by apply dep_cuttable. Qed.

Lemma elements_cuttable {A} (c : codec A) `{!Lawful c, !Cuttable c} n s v rest :
  byte_list s -> read_elements (get c) n s = Some (v, rest) ->
  s = concat (put c <$> v) ++ rest \/ rest = [] /\ cut_short (concat (put c <$> v)) s.
Proof.
  revert s v. induction n as [|n IH]; intros s v Hs E; cbn [read_elements] in E; read_inv; [by left|].
  rename x0 into s1, x into a, x2 into s2, x1 into es. destruct (get_inv s a s1 Hs H) as (_ & [q Hq] & _).
  assert (byte_list s1) as Hs1 by (subst s; by apply byte_list_app in Hs as [_ ?]).
  cbn [fmap list_fmap concat]. exact (cut_join _ _ _ _ _ (cut_get s a s1 Hs H) (IH s1 es Hs1 H0)).
Qed.

#[global] Instance vector_cuttable {A} (c : codec A) `{!Lawful c, !Cuttable c} : Cuttable (vector_codec c).
Proof.
  intros s v rest Hs E. cbn [get vector_codec] in E. apply container_inv in E as (cnt & s1 & E1 & Hle & E2).
  cbn [put vector_codec]. unfold write_container.
  pose proof (cut_get (c := varint_codec 64) s cnt s1 Hs E1) as H1.
  destruct (serialize_uvarint_inv 64 _ _ _ eq_refl Hs E1) as [Hcnt Hcase].
  assert (byte_list s1) as Hs1.
  { destruct Hcase as [->|[-> _]]; [by apply byte_list_app in Hs as [_ ?]|constructor]. }
  destruct (elements_inv c _ _ _ _ Hs1 E2) as (_ & Hl & _).
  rewrite Hl, Z2Nat.id by (unfold in_width in *; lia).
  exact (cut_join _ _ _ _ _ H1 (elements_cuttable c _ _ _ _ Hs1 E2)).
Qed.

Lemma map_cuttable {A B} (f : A -> B) (g : B -> option A) (c : codec A) `{!Lawful c, !Cuttable c} :
  (forall a, ok c a -> g (f a) = Some a) -> Cuttable (map_codec f g c).
Proof.
  intros gf s b rest Hs (a & <- & E)%map_inv. destruct (get_inv s a rest Hs E) as (Ha & _).
  cbn [put map_codec]. rewrite gf by done. by apply cut_get.
Qed.

#[global] Instance guard_cuttable {A} (p : A -> bool) (c : codec A) `{!Cuttable c} : Cuttable (guard_codec p c).
Proof. intros s a rest Hs [E _]%guard_inv. exact (cut_get s a rest Hs E). Qed.

Lemma variant_cuttable {A} (alternative : Z -> option (codec A)) (tag_of : A -> Z) :
  (forall t c a, alternative t = Some c -> ok c a -> tag_of a = t) ->
  (forall t c, alternative t = Some c -> Lawful c /\ Cuttable c) -> Cuttable (variant_codec alternative tag_of).
Proof.
  intros Htag Hcut s a rest Hs E. destruct (variant_inv alternative tag_of s a rest Hs E) as (t & c & s1 & -> & Ht & Ea & E1).
  destruct (Hcut _ _ Ea) as [Hl Hc]. apply Forall_cons in Hs as [_ Hs1]. destruct (get_inv s1 a rest Hs1 E1) as (Ha & _).
  cbn [put variant_codec]. rewrite (Htag t c a Ea Ha), Ea.
  apply (cut_join [t] (put c a) (t :: s1) s1 rest); [by left|by apply cut_get].
Qed.

(** ** Values that the writer cannot tell apart *)

Definition same_saved {A} (c : codec A) (a b : A) : Prop := saves c a = saves c b /\ put c a = put c b.

#[global] Instance same_saved_equivalence {A} (c : codec A) : Equivalence (same_saved c).
Proof.
  split; [done|by intros a b [E F]|]. intros a b d [E F] [G H]. split; [by rewrite E|by rewrite F].
Qed.

Lemma same_write {A} (c : codec A) a b : same_saved c a b -> write c a = write c b.
Proof. intros [E F]. unfold write. by rewrite E, F. Qed.

Lemma same_pair {A B} (c : codec A) (d : codec B) a a' b b' :
  same_saved c a a' -> same_saved d b b' -> same_saved (pair_codec c d) (a, b) (a', b').
Proof. intros [E F] [G H]. split; cbn; [by rewrite E, G|by rewrite F, H]. Qed.

Lemma same_dep {A B} (c : codec A) (d : A -> codec B) a b b' :
  same_saved (d a) b b' -> same_saved (dep_codec c d) (a, b) (a, b').
Proof. intros [G H]. split; cbn; [by rewrite G|by rewrite H]. Qed.

Lemma same_map {A B} (f : A -> B) (g : B -> option A) (c : codec A) a b x y :
  g a = Some x -> g b = Some y -> same_saved c x y -> same_saved (map_codec f g c) a b.
Proof. intros Ea Eb [E F]. split; cbn; by rewrite Ea, Eb. Qed.

Lemma Forall2_same_saved {A} (c : codec A) v : Forall2 (same_saved c) v v.
Proof. by induction v; constructor. Qed.

Lemma same_array {A} n (c : codec A) v w : Forall2 (same_saved c) v w -> same_saved (array_codec n c) v w.
Proof.
  intros H. pose proof (Forall2_length _ _ _ H) as Hl. split; cbn.
  - rewrite Hl. f_equal. clear Hl. induction H as [|a b v w [E _] _ IH]; [done|]. cbn. by rewrite E, IH.
  - clear Hl. induction H as [|a b v w [_ E] _ IH]; [done|]. cbn. by rewrite E, IH.
Qed.
