(* ===== verification/TxExtra.v ===== *)
(** * Extra fields of a transaction: src/cryptonote_basic/tx_extra.h and the functions on
    them of cryptonote_format_utils.cpp

    The text [extra] of a transaction is a sequence of tagged fields: public keys of the
    transaction, payment identifiers, the commitment of merge mining, padding. *)

From stdpp Require Import sorting.
From S2P Require Import Prelude IntUtil Radix Varint SortedLists Serialization.

Definition TX_EXTRA_PADDING_MAX_COUNT : Z := 255.
Definition TX_EXTRA_NONCE_MAX_COUNT : Z := 255.
Definition TX_EXTRA_TAG_PADDING : Z := 0x00.
Definition TX_EXTRA_TAG_PUBKEY : Z := 0x01.
Definition TX_EXTRA_NONCE : Z := 0x02.
Definition TX_EXTRA_MERGE_MINING_TAG : Z := 0x03.
Definition TX_EXTRA_TAG_ADDITIONAL_PUBKEYS : Z := 0x04.
Definition TX_EXTRA_MYSTERIOUS_MINERGATE_TAG : Z := 0xDE.
Definition TX_EXTRA_NONCE_PAYMENT_ID : Z := 0x00.
Definition TX_EXTRA_NONCE_ENCRYPTED_PAYMENT_ID : Z := 0x01.

(** Keys and hashes are their 32 bytes. *)
Inductive tx_extra_field :=
  | tx_extra_padding (size : Z)
  | tx_extra_pub_key (pub_key : list Z)
  | tx_extra_nonce (nonce : list Z)
  | tx_extra_merge_mining_tag (depth : Z) (merkle_root : list Z)
  | tx_extra_additional_pub_keys (data : list (list Z))
  | tx_extra_mysterious_minergate (data : list Z).

#[global] Instance tx_extra_field_eq_dec : EqDecision tx_extra_field.
Proof. solve_decision. Defined.

Definition tag_of (f : tx_extra_field) : Z :=
  match f with
  | tx_extra_padding _ => TX_EXTRA_TAG_PADDING
  | tx_extra_pub_key _ => TX_EXTRA_TAG_PUBKEY
  | tx_extra_nonce _ => TX_EXTRA_NONCE
  | tx_extra_merge_mining_tag _ _ => TX_EXTRA_MERGE_MINING_TAG
  | tx_extra_additional_pub_keys _ => TX_EXTRA_TAG_ADDITIONAL_PUBKEYS
  | tx_extra_mysterious_minergate _ => TX_EXTRA_MYSTERIOUS_MINERGATE_TAG
  end.

(** ** Reading and writing a field *)

(** The loop reads zeros up to the end; past 255 it has failed. *)
Fixpoint padding_loop (fuel : nat) (size : Z) : reader Z :=
  match fuel with
  | O => mret size
  | S fuel => fun s =>
      match s with
      | [] => Some (size, [])
      | zero :: s => if zero =? 0 then padding_loop fuel (size + 1) s else None
      end
  end.
Definition read_padding : reader tx_extra_field :=
  size ← padding_loop (Z.to_nat TX_EXTRA_PADDING_MAX_COUNT) 1;
  if size <=? TX_EXTRA_PADDING_MAX_COUNT then mret (tx_extra_padding size) else fail.

Definition pub_key_codec : codec tx_extra_field :=
  map_codec tx_extra_pub_key (fun f => match f with tx_extra_pub_key k => Some k | _ => None end)
    (blob_codec 32).

Definition nonce_codec : codec tx_extra_field :=
  map_codec tx_extra_nonce (fun f => match f with tx_extra_nonce n => Some n | _ => None end)
    (guard_codec (fun n => negb (TX_EXTRA_NONCE_MAX_COUNT <? Z.of_nat (length n))) string_codec).

(** The depth and the root, inside a string of their own *)
Definition serialize_helper : codec (Z * list Z) := pair_codec (varint_codec 64) (blob_codec 32).
Definition merge_mining_codec : codec tx_extra_field :=
  {| get := field ← read_string;
            match parse_all (get serialize_helper) field with
            | Some (depth, merkle_root) => mret (tx_extra_merge_mining_tag depth merkle_root)
            | None => fail
            end;
     put := fun f => match f with
       | tx_extra_merge_mining_tag depth merkle_root =>
           write_string (put serialize_helper (depth, merkle_root))
       | _ => []
       end;
     saves := fun f => match f with
       | tx_extra_merge_mining_tag depth merkle_root => saves serialize_helper (depth, merkle_root)
       | _ => false
       end;
     ok := fun f => match f with
       | tx_extra_merge_mining_tag depth merkle_root => ok serialize_helper (depth, merkle_root)
       | _ => False
       end |}.

Definition additional_codec : codec tx_extra_field :=
  map_codec tx_extra_additional_pub_keys
    (fun f => match f with tx_extra_additional_pub_keys d => Some d | _ => None end)
    (vector_codec (blob_codec 32)).

Definition minergate_codec : codec tx_extra_field :=
  map_codec tx_extra_mysterious_minergate
    (fun f => match f with tx_extra_mysterious_minergate d => Some d | _ => None end) string_codec.

(** The alternatives other than padding *)
Definition field_codec (t : Z) : option (codec tx_extra_field) :=
  if t =? TX_EXTRA_TAG_PUBKEY then Some pub_key_codec
  else if t =? TX_EXTRA_NONCE then Some nonce_codec
  else if t =? TX_EXTRA_MERGE_MINING_TAG then Some merge_mining_codec
  else if t =? TX_EXTRA_TAG_ADDITIONAL_PUBKEYS then Some additional_codec
  else if t =? TX_EXTRA_MYSTERIOUS_MINERGATE_TAG then Some minergate_codec
  else None.

Definition read_field : reader tx_extra_field :=
  read_variant (fun t => if t =? TX_EXTRA_TAG_PADDING then Some read_padding else get <$> field_codec t).

(** What follows the tag; [None] for a field the writer refuses *)
Definition write_body (f : tx_extra_field) : option (list Z) :=
  match f with
  | tx_extra_padding size =>
      if TX_EXTRA_PADDING_MAX_COUNT <? size then None else Some (replicate (Z.to_nat (size - 1)) 0)
  | _ => c ← field_codec (tag_of f); write c f
  end.
Definition write_field (f : tx_extra_field) : option (list Z) := cons (tag_of f) <$> write_body f.

(** ** The fields of a text *)

(** The result and the fields read so far, which stay when the next one is malformed; a
    field takes a byte at least. *)
Fixpoint parse_loop (fuel : nat) (ar : list Z) (fields : list tx_extra_field)
  : bool * list tx_extra_field :=
  match fuel with
  | O => (false, fields)
  | S fuel =>
    match read_field ar with
    | None => (false, fields)
    | Some (field, ar) =>
      let fields := fields ++ [field] in
      if bool_decide (ar = []) then (true, fields) else parse_loop fuel ar fields
    end
  end.
Definition parse_tx_extra (tx_extra : list Z) : bool * list tx_extra_field :=
  if bool_decide (tx_extra = []) then (true, []) else parse_loop (length tx_extra) tx_extra [].

(** Writes the fields of a type in their order and takes them out. *)
Fixpoint pick_loop (fuel : nat) (tag : Z) (fields : list tx_extra_field) (ar : list Z)
  : option (list tx_extra_field * list Z) :=
  match fuel with
  | O => None
  | S fuel =>
    match list_find (fun f => tag_of f = tag) fields with
    | None => Some (fields, ar)
    | Some (i, f) => body ← write_body f; pick_loop fuel tag (delete i fields) (ar ++ tag :: body)
    end
  end.
Definition pick (tag : Z) (st : list tx_extra_field * list Z) : option (list tx_extra_field * list Z) :=
  pick_loop (S (length st.1)) tag st.1 st.2.

(** The loop of [sort_tx_extra]: the fields, what is left after the last of them, and
    whether all were read *)
Fixpoint read_fields (fuel : nat) (ar : list Z) (fields : list tx_extra_field)
  : list tx_extra_field * list Z * bool :=
  match fuel with
  | O => (fields, ar, false)
  | S fuel =>
    match read_field ar with
    | None => (fields, ar, false)
    | Some (field, rest) =>
      let fields := fields ++ [field] in
      if bool_decide (rest = []) then (fields, [], true) else read_fields fuel rest fields
    end
  end.

Definition sort_order : list Z :=
  [TX_EXTRA_TAG_PUBKEY; TX_EXTRA_TAG_ADDITIONAL_PUBKEYS; TX_EXTRA_NONCE; TX_EXTRA_MERGE_MINING_TAG;
   TX_EXTRA_MYSTERIOUS_MINERGATE_TAG; TX_EXTRA_TAG_PADDING].

Fixpoint pick_all (tags : list Z) (st : list tx_extra_field * list Z) : option (list tx_extra_field * list Z) :=
  match tags with [] => Some st | tag :: tags => st ← pick tag st; pick_all tags st end.

(** [None] is the result [false], which leaves the output as it was. *)
Definition sort_tx_extra (tx_extra : list Z) (allow_partial : bool) : option (list Z) :=
  if bool_decide (tx_extra = []) then Some []
  else
    let '(fields, rest, complete) := read_fields (length tx_extra) tx_extra [] in
    if negb complete && negb allow_partial then None
    else
      let processed := (length tx_extra - length rest)%nat in
      '(left_over, oss_str) ← pick_all sort_order (fields, []);
      if negb (bool_decide (left_over = [])) then None
      else if allow_partial && bool_decide (processed < length tx_extra)%nat
      then Some (oss_str ++ drop processed tx_extra) else Some oss_str.

(** The [index]-th field of a type; [find_if] counts down. *)
Fixpoint find_tx_extra_field_by_type (fields : list tx_extra_field) (tag : Z) (index : nat)
  : option tx_extra_field :=
  match fields with
  | [] => None
  | f :: fields =>
    if tag_of f =? tag then
      match index with O => Some f | S index => find_tx_extra_field_by_type fields tag index end
    else find_tx_extra_field_by_type fields tag index
  end.

Definition null_pkey : list Z := replicate 32 0.

Definition get_tx_pub_key_from_extra (tx_extra : list Z) (pk_index : nat) : list Z :=
  match find_tx_extra_field_by_type (parse_tx_extra tx_extra).2 TX_EXTRA_TAG_PUBKEY pk_index with
  | Some (tx_extra_pub_key k) => k
  | _ => null_pkey
  end.

Definition get_additional_tx_pub_keys_from_extra (tx_extra : list Z) : list (list Z) :=
  match find_tx_extra_field_by_type (parse_tx_extra tx_extra).2 TX_EXTRA_TAG_ADDITIONAL_PUBKEYS 0 with
  | Some (tx_extra_additional_pub_keys d) => d
  | _ => []
  end.

Definition add_tx_pub_key_to_extra (tx_extra tx_pub_key : list Z) : list Z :=
  tx_extra ++ TX_EXTRA_TAG_PUBKEY :: tx_pub_key.

Definition add_additional_tx_pub_keys_to_extra (tx_extra : list Z) (additional_pub_keys : list (list Z))
  : option (list Z) :=
  str ← write_field (tx_extra_additional_pub_keys additional_pub_keys); Some (tx_extra ++ str).

Definition add_extra_nonce_to_tx_extra (tx_extra extra_nonce : list Z) : option (list Z) :=
  if negb (Z.of_nat (length extra_nonce) <=? TX_EXTRA_NONCE_MAX_COUNT) then None
  else Some (tx_extra ++ [TX_EXTRA_NONCE] ++ write_varint (Z.of_nat (length extra_nonce)) ++ extra_nonce).

(** The length byte is written last. *)
Definition add_mm_merkle_root_to_tx_extra (tx_extra mm_merkle_root : list Z) (mm_merkle_tree_depth : Z)
  : list Z :=
  let varint := write_varint mm_merkle_tree_depth in
  tx_extra ++ [TX_EXTRA_MERGE_MINING_TAG; u8 (32 + Z.of_nat (length varint))] ++ varint ++ mm_merkle_root.

(** The fields of other types are written again; the writer's result is not looked at. *)
Fixpoint remove_loop (fuel : nat) (tag : Z) (ar newar : list Z) : option (list Z) :=
  match fuel with
  | O => None
  | S fuel =>
    '(field, ar) ← read_field ar;
    let newar := if tag_of field =? tag then newar else newar ++ default [] (write_field field) in
    if bool_decide (ar = []) then Some newar else remove_loop fuel tag ar newar
  end.
Definition remove_field_from_tx_extra (tx_extra : list Z) (tag : Z) : option (list Z) :=
  if bool_decide (tx_extra = []) then Some [] else remove_loop (length tx_extra) tag tx_extra [].

(** ** Payment identifiers *)

Definition set_payment_id_to_tx_extra_nonce (payment_id : list Z) : list Z :=
  TX_EXTRA_NONCE_PAYMENT_ID :: payment_id.
Definition set_encrypted_payment_id_to_tx_extra_nonce (payment_id : list Z) : list Z :=
  TX_EXTRA_NONCE_ENCRYPTED_PAYMENT_ID :: payment_id.

Definition get_payment_id_from_tx_extra_nonce (extra_nonce : list Z) : option (list Z) :=
  if negb (bool_decide (length extra_nonce = 32 + 1)%nat) then None
  else if negb (default 0 (head extra_nonce) =? TX_EXTRA_NONCE_PAYMENT_ID) then None
  else Some (drop 1 extra_nonce).
Definition get_encrypted_payment_id_from_tx_extra_nonce (extra_nonce : list Z) : option (list Z) :=
  if negb (bool_decide (length extra_nonce = 8 + 1)%nat) then None
  else if negb (default 0 (head extra_nonce) =? TX_EXTRA_NONCE_ENCRYPTED_PAYMENT_ID) then None
  else Some (drop 1 extra_nonce).

Example extra_sample :
  parse_tx_extra ([2; 1; 7; 1] ++ replicate 32 5 ++ [0; 0])
    = (true, [tx_extra_nonce [7]; tx_extra_pub_key (replicate 32 5); tx_extra_padding 2])
  /\ sort_tx_extra ([2; 1; 7; 1] ++ replicate 32 5 ++ [0; 0]) false
    = Some ([1] ++ replicate 32 5 ++ [2; 1; 7; 0; 0])
  /\ parse_tx_extra [2; 0x80] = (true, [tx_extra_nonce []])
  /\ sort_tx_extra ([2; 1; 7; 9; 9]) true = Some [2; 1; 7; 9; 9]
  /\ get_tx_pub_key_from_extra ([1] ++ replicate 32 5 ++ [9]) 0 = replicate 32 5
  /\ remove_field_from_tx_extra ([2; 1; 7; 1] ++ replicate 32 5) TX_EXTRA_NONCE = Some ([1] ++ replicate 32 5).
Proof. by vm_compute. Qed.

(** ** One field *)

#[global] Instance pub_key_exact : Exact pub_key_codec.
Proof. apply map_exact; [done|apply _]. Qed.

#[global] Instance nonce_lawful : Lawful nonce_codec.
Proof. apply map_lawful; [done|apply _]. Qed.

#[global] Instance additional_lawful : Lawful additional_codec.
Proof. apply map_lawful; [done|apply _]. Qed.

#[global] Instance minergate_lawful : Lawful minergate_codec.
Proof. apply map_lawful; [done|apply _]. Qed.

Lemma helper_length p : ok serialize_helper p -> (length (put serialize_helper p) <= 42)%nat.
Proof.
  destruct p as [d r]. cbn [ok put serialize_helper pair_codec dep_codec fst snd]. intros [Hd [_ Hr]]. cbn [ok varint_codec] in Hd.
  rewrite length_app. cbn [put blob_codec id varint_codec]. rewrite Hr.
  pose proof (write_varint_length 10 d ltac:(split; [mach|change (2 ^ (7 * Z.of_nat 10)) with (2 ^ 70); mach]) ltac:(lia)).
  lia.
Qed.

Lemma merge_mining_inv s f rest :
  byte_list s -> get merge_mining_codec s = Some (f, rest) ->
  ok merge_mining_codec f /\ s = put merge_mining_codec f ++ rest.
Proof.
  intros Hs E. cbn [get merge_mining_codec] in E. apply read_bind_inv in E as (field & s1 & E1 & E).
  destruct (parse_all (get serialize_helper) field) as [[d r]|] eqn:Ep; [|done]. injection E as <- <-.
  apply parse_all_Some in Ep. destruct (read_string_inv _ _ _ Hs E1) as (Hf & _ & _).
  pose proof (get_exact (c := serialize_helper) _ _ _ Hf Ep) as Ef. rewrite app_nil_r in Ef.
  destruct (get_inv (c := serialize_helper) _ _ _ Hf Ep) as (Hok & _).
  split; [exact Hok|]. cbn [put merge_mining_codec]. rewrite <- Ef.
  destruct (string_exact _ _ _ Hs E1) as [->|(-> & _)]; [done|]. exfalso.
  symmetry in Ef. by apply (put_nonempty (c := serialize_helper) _ Hok).
Qed.

#[global] Instance merge_mining_exact : Exact merge_mining_codec.
Proof.
  assert (Hstr : forall d r, ok serialize_helper (d, r) -> ok string_codec (put serialize_helper (d, r))).
  { intros d r Hok. split; [by apply put_bytes|]. pose proof (helper_length _ Hok). mach. }
  constructor; [constructor|].
  - by intros [].
  - intros [] Hok; try done. by apply (put_bytes (c := string_codec)), Hstr.
  - intros [] rest Hok; try done. cbn [get put merge_mining_codec].
    erewrite read_bind by by apply (get_put (c := string_codec)), Hstr.
    rewrite (proj2 (parse_all_Some _ _ (depth, merkle_root))); [done|].
    rewrite <- (app_nil_r (put _ _)). by apply get_put.
  - intros s f rest Hs E. destruct (merge_mining_inv _ _ _ Hs E) as [Hok ->].
    split; [done|]. split; [by eexists|done].
  - intros s f rest Hs E. by destruct (merge_mining_inv _ _ _ Hs E).
Qed.

Lemma field_codec_tag t c f : field_codec t = Some c -> ok c f -> tag_of f = t.
Proof.
  unfold field_codec. intros E Hok.
  repeat match type of E with (if ?b then _ else _) = _ => destruct b eqn:? end; try done; injection E as <-;
    destruct f; cbn in Hok; try done; try (by destruct Hok as (? & ? & _)); cbn; lia.
Qed.

Lemma field_codec_lawful t c : field_codec t = Some c -> Lawful c.
Proof.
  unfold field_codec. intros E.
  repeat match type of E with (if ?b then _ else _) = _ => destruct b end; try done; injection E as <-; apply _.
Qed.

Definition is_padding (f : tx_extra_field) : Prop := tag_of f = TX_EXTRA_TAG_PADDING.
#[global] Instance is_padding_dec f : Decision (is_padding f).
Proof. unfold is_padding. apply _. Defined.

(** The fields that can be written and read *)
Definition ok_field (f : tx_extra_field) : Prop :=
  match f with
  | tx_extra_padding size => 1 <= size <= TX_EXTRA_PADDING_MAX_COUNT
  | _ => exists c, field_codec (tag_of f) = Some c /\ ok c f
  end.

Definition field_bytes (f : tx_extra_field) : list Z := default [] (write_field f).

(** The fields of which the end of the text can cut the length *)
Definition empty_field (f : tx_extra_field) : Prop :=
  f = tx_extra_nonce [] \/ f = tx_extra_additional_pub_keys [] \/ f = tx_extra_mysterious_minergate [].

Lemma ok_field_cases f :
  ok_field f ->
  (exists size, f = tx_extra_padding size /\ 1 <= size <= TX_EXTRA_PADDING_MAX_COUNT)
  \/ (~ is_padding f /\ exists c, field_codec (tag_of f) = Some c /\ ok c f
      /\ field_bytes f = tag_of f :: put c f).
Proof.
  intros Hok. destruct f; [left; by eexists|..]; right; destruct Hok as (c & E & Hok);
    (split; [done|]); exists c; (split; [done|]); (split; [done|]);
    pose proof (field_codec_lawful _ _ E); unfold field_bytes, write_field, write_body, write; rewrite E; cbn;
    by rewrite (ok_saves (c := c) _ Hok).
Qed.

Lemma padding_loop_inv n size s size' rest :
  padding_loop n size s = Some (size', rest) ->
  exists k, (k <= n)%nat /\ size' = size + Z.of_nat k /\ s = replicate k 0 ++ rest /\ (rest = [] \/ k = n).
Proof.
  revert size s. induction n as [|n IH]; intros size s E; cbn in E.
  { injection E as <- <-. exists O. split; [done|]. split; [lia|]. split; [done|by right]. }
  destruct s as [|z s]; [injection E as <- <-; exists O; split; [lia|]; split; [lia|]; split; [done|by left]|].
  destruct (Z.eqb_spec z 0) as [->|]; [|done]. destruct (IH _ _ E) as (k & Hk & -> & -> & Hr).
  exists (S k). split; [lia|]. split; [lia|]. split; [done|]. destruct Hr; [by left|right; lia].
Qed.

Lemma padding_loop_zeros n size k :
  (k < n)%nat -> padding_loop n size (replicate k 0) = Some (size + Z.of_nat k, []).
Proof.
  revert size k. induction n as [|n IH]; intros size [|k] Hk; [lia..| |].
  - cbn. do 2 f_equal. lia.
  - cbn [replicate padding_loop]. cbn [Z.eqb]. rewrite IH by lia. do 2 f_equal. lia.
Qed.

Lemma read_tag t (alternative : Z -> option (reader tx_extra_field)) s :
  is_u8 t -> read_variant alternative (t :: s) = match alternative t with Some r => r s | None => None end.
Proof.
  intros Ht. unfold read_variant. rewrite (read_bind _ _ _ t s); [by destruct (alternative t)|].
  pose proof (get_put (c := uint_codec 1) t s) as Hg. cbn [ok get put uint_codec le_digits app] in Hg.
  change (256 ^ Z.of_nat 1) with 256 in Hg. rewrite Z.mod_small in Hg by mach. apply Hg. mach.
Qed.

Lemma tag_of_u8 f : is_u8 (tag_of f).
Proof. destruct f; by_decide. Qed.

(** What is written reads back; padding only at the end. *)
Lemma read_write_field f rest :
  ok_field f -> (is_padding f -> rest = []) -> read_field (field_bytes f ++ rest) = Some (f, rest).
Proof.
  intros Hok Hpad. unfold read_field.
  destruct (ok_field_cases f Hok) as [(size & -> & Hs)|(Hn & c & Ec & Hc & ->)].
  - rewrite (Hpad eq_refl), app_nil_r. unfold field_bytes, write_field, write_body.
    unfold TX_EXTRA_PADDING_MAX_COUNT in *. rewrite (proj2 (Z.ltb_ge _ _)) by lia. cbn [option_fmap option_map fmap default id].
    rewrite read_tag by by_decide. cbn [tag_of]. change (TX_EXTRA_TAG_PADDING =? TX_EXTRA_TAG_PADDING) with true.
    cbv iota. unfold read_padding. erewrite read_bind.
    2: { change (Z.to_nat TX_EXTRA_PADDING_MAX_COUNT) with 255%nat. apply padding_loop_zeros. lia. }
    rewrite (proj2 (Z.leb_le _ _)) by (unfold TX_EXTRA_PADDING_MAX_COUNT; lia).
    unfold mret, reader_ret. do 3 f_equal. lia.
  - cbn [app]. rewrite read_tag by apply tag_of_u8. unfold is_padding in Hn.
    rewrite (proj2 (Z.eqb_neq _ _) Hn), Ec. cbn. pose proof (field_codec_lawful _ _ Ec). by apply get_put.
Qed.

Lemma field_codec_exact t c s f rest :
  field_codec t = Some c -> byte_list s -> get c s = Some (f, rest) ->
  s = put c f ++ rest \/ rest = [] /\ empty_field f /\ Forall (fun b => 128 <= b) s.
Proof.
  unfold field_codec, empty_field. intros Ec Hs E.
  repeat match type of Ec with (if ?b then _ else _) = _ => destruct b end; try done; injection Ec as <-.
  - left. by apply (get_exact (c := pub_key_codec)).
  - apply map_inv in E as (n & <- & [E _]%guard_inv).
    destruct (string_exact _ _ _ Hs E) as [->|(-> & -> & Hall)]; [by left|right; auto].
  - left. by apply (get_exact (c := merge_mining_codec)).
  - apply map_inv in E as (v & <- & E).
    destruct (container_exact (blob_codec 32) _ _ _ Hs E) as [->|(-> & -> & Hall)]; [by left|right; auto].
  - apply map_inv in E as (n & <- & E).
    destruct (string_exact _ _ _ Hs E) as [->|(-> & -> & Hall)]; [by left|right; auto].
Qed.

(** Only what is written is read, but for a length cut off at the end. *)
Lemma read_field_inv s f rest :
  byte_list s -> read_field s = Some (f, rest) ->
  ok_field f /\ (is_padding f -> rest = [])
  /\ (s = field_bytes f ++ rest
      \/ rest = [] /\ empty_field f /\ exists tail, s = tag_of f :: tail /\ Forall (fun b => 128 <= b) tail).
Proof.
  intros Hs E. destruct s as [|t s]; [done|]. apply Forall_cons in Hs as [Ht Hs].
  unfold read_field in E. rewrite read_tag in E by exact Ht.
  destruct (Z.eqb_spec t TX_EXTRA_TAG_PADDING) as [->|Hne].
  - unfold read_padding in E. apply read_bind_inv in E as (size & s1 & E1 & E).
    destruct (Z.leb_spec size TX_EXTRA_PADDING_MAX_COUNT) as [Hle|]; [|done]. injection E as <- <-.
    apply padding_loop_inv in E1 as (k & Hk & -> & -> & Hr).
    change (Z.to_nat TX_EXTRA_PADDING_MAX_COUNT) with 255%nat in *. unfold TX_EXTRA_PADDING_MAX_COUNT in Hle.
    assert (s1 = []) as -> by (destruct Hr; [done|lia]). split; [cbn; unfold TX_EXTRA_PADDING_MAX_COUNT; lia|].
    split; [done|]. left. unfold field_bytes, write_field, write_body.
    rewrite (proj2 (Z.ltb_ge _ _)) by (unfold TX_EXTRA_PADDING_MAX_COUNT; lia).
    replace (Z.to_nat (1 + Z.of_nat k - 1)) with k by lia. cbn. done.
  - destruct (field_codec t) as [c|] eqn:Ec; [|done]. cbn in E.
    pose proof (field_codec_lawful _ _ Ec). destruct (get_inv s f rest Hs E) as (Hok & _).
    pose proof (field_codec_tag _ _ _ Ec Hok) as Htag.
    assert (Hf : ok_field f) by (destruct f; [by rewrite <- Htag in Hne|..]; exists c; by rewrite Htag).
    split; [done|]. split; [by intros Hp; rewrite <- Htag, Hp in Hne|].
    destruct (ok_field_cases f Hf) as [(size & -> & _)|(_ & c' & Ec' & _ & Ew)]; [by rewrite <- Htag in Hne|].
    rewrite Htag, Ec in Ec'. injection Ec' as <-. rewrite Htag in Ew.
    destruct (field_codec_exact _ _ _ _ _ Ec Hs E) as [->|(-> & He & Hall)].
    + left. by rewrite Ew.
    + right. split; [done|]. split; [done|]. exists s. by rewrite Htag.
Qed.

(** ** A whole text *)

Definition fields_bytes (fs : list tx_extra_field) : list Z := concat (field_bytes <$> fs).

(** Padding takes everything up to the end. *)
Fixpoint pads_last (fs : list tx_extra_field) : Prop :=
  match fs with [] => True | f :: fs => (is_padding f -> fs = []) /\ pads_last fs end.

Lemma field_bytes_cons f : ok_field f -> exists body, field_bytes f = tag_of f :: body.
Proof.
  intros [(size & -> & Hs)|(_ & c & _ & _ & ->)]%ok_field_cases; [|by eexists].
  unfold field_bytes, write_field, write_body. rewrite (proj2 (Z.ltb_ge _ _)) by lia. by eexists.
Qed.

Lemma write_field_ok f : ok_field f -> write_field f = Some (field_bytes f).
Proof.
  intros Hok. destruct (field_bytes_cons f Hok) as [body E]. unfold field_bytes in *.
  by destruct (write_field f).
Qed.

Lemma fields_bytes_cons f fs : fields_bytes (f :: fs) = field_bytes f ++ fields_bytes fs.
Proof. done. Qed.

Lemma fields_bytes_app fs gs : fields_bytes (fs ++ gs) = fields_bytes fs ++ fields_bytes gs.
Proof. unfold fields_bytes. by rewrite fmap_app, concat_app. Qed.

Lemma fields_bytes_nil fs : Forall ok_field fs -> fields_bytes fs = [] -> fs = [].
Proof.
  intros [|f fs' Hf _]; [done|]. rewrite fields_bytes_cons. destruct (field_bytes_cons f Hf) as [body ->]. done.
Qed.

Lemma parse_loop_eq fuel ar acc :
  parse_loop fuel ar acc = let '(fs, _, complete) := read_fields fuel ar acc in (complete, fs).
Proof.
  revert ar acc. induction fuel as [|fuel IH]; intros ar acc; [done|]. cbn [parse_loop read_fields].
  destruct (read_field ar) as [[f rest]|]; [|done]. case_bool_decide; [done|]. apply IH.
Qed.

Lemma parse_eq e : e <> [] ->
  parse_tx_extra e = let '(fs, _, complete) := read_fields (length e) e [] in (complete, fs).
Proof. intros He. unfold parse_tx_extra. rewrite bool_decide_eq_false_2 by done. apply parse_loop_eq. Qed.

(** Fields followed by a text that is not one *)
Lemma read_fields_write fs fuel rest acc :
  Forall ok_field fs -> pads_last fs -> (rest <> [] -> Forall (fun f => ~ is_padding f) fs) ->
  (length (fields_bytes fs ++ rest) <= fuel)%nat -> fields_bytes fs ++ rest <> [] ->
  read_field rest = None -> read_fields fuel (fields_bytes fs ++ rest) acc
    = (acc ++ fs, rest, bool_decide (rest = [])).
Proof.
  intros Hok Hpl Hnp Hfuel Hne Hrest. revert fuel acc Hpl Hnp Hfuel Hne.
  induction Hok as [|f fs Hf Hok IH]; intros fuel acc Hpl Hnp Hfuel Hne.
  - cbn [fields_bytes fmap list_fmap concat app] in *. rewrite bool_decide_eq_false_2 by done.
    destruct fuel as [|fuel]; cbn [read_fields]; rewrite ?Hrest, app_nil_r; done.
  - rewrite fields_bytes_cons, <- app_assoc in *. destruct Hpl as [Hpf Hpl].
    assert (Hlen : (1 <= length (field_bytes f))%nat) by (destruct (field_bytes_cons f Hf) as [? ->]; cbn; lia).
    rewrite length_app in Hfuel. destruct fuel as [|fuel]; [lia|]. cbn [read_fields].
    rewrite read_write_field; [|done|].
    2: { intros Hp. rewrite (Hpf Hp). cbn. destruct (decide (rest = [])) as [|Hr]; [done|].
         specialize (Hnp Hr). apply Forall_cons in Hnp as [Hnp _]. by destruct Hnp. }
    destruct (decide (fields_bytes fs ++ rest = [])) as [He|He];
      [rewrite (bool_decide_eq_true_2 _ He)|rewrite (bool_decide_eq_false_2 _ He)].
    + apply app_nil in He as [He ->]. apply fields_bytes_nil in He as ->; [|done]. done.
    + rewrite IH; [by rewrite <- app_assoc|done| |lia|done].
      intros Hr. specialize (Hnp Hr). by apply Forall_cons in Hnp as [_ Hnp].
Qed.

(** The end of the text inside the length of an empty field *)
Definition cut_short (e : list Z) (fs : list tx_extra_field) : Prop :=
  exists init f tail, fs = init ++ [f] /\ empty_field f
    /\ e = fields_bytes init ++ tag_of f :: tail /\ Forall (fun b => 128 <= b) tail.

Lemma cut_short_cons f e fs : cut_short e fs -> cut_short (field_bytes f ++ e) (f :: fs).
Proof.
  intros (init & g & tail & -> & Hg & -> & Ht). exists (f :: init), g, tail.
  rewrite fields_bytes_cons, <- app_assoc. done.
Qed.

Lemma read_fields_inv fuel e acc fs rest complete :
  byte_list e -> e <> [] -> (length e <= fuel)%nat -> read_fields fuel e acc = (fs, rest, complete) ->
  exists new, fs = acc ++ new /\ Forall ok_field new /\ pads_last new
    /\ (if complete then rest = [] /\ new <> [] /\ (e = fields_bytes new \/ cut_short e new)
        else rest <> [] /\ e = fields_bytes new ++ rest /\ Forall (fun f => ~ is_padding f) new
             /\ read_field rest = None).
Proof.
  revert e acc. induction fuel as [|fuel IH]; intros e acc Hb Hne Hl E.
  { destruct e; [done|cbn in Hl; lia]. }
  cbn [read_fields] in E. destruct (read_field e) as [[f r]|] eqn:Ef.
  2: { injection E as <- <- <-. exists []. rewrite app_nil_r. done. }
  destruct (read_field_inv _ _ _ Hb Ef) as (Hf & Hpad & Hcase). case_bool_decide as Hr.
  - injection E as <- <- <-. subst r. exists [f]. split; [done|]. split; [by constructor|].
    split; [done|]. split; [done|]. split; [done|].
    destruct Hcase as [->|(_ & He & tail & -> & Ht)]; [by left|right].
    exists [], f, tail. done.
  - destruct Hcase as [->|(-> & _)]; [|done].
    assert (Hlen : (1 <= length (field_bytes f))%nat) by (destruct (field_bytes_cons f Hf) as [? ->]; cbn; lia).
    rewrite length_app in Hl. apply byte_list_app in Hb as [_ Hb].
    destruct (IH r (acc ++ [f]) Hb Hr ltac:(lia) E) as (new & -> & Hok & Hpl & Hc).
    exists (f :: new). rewrite <- app_assoc. split; [done|]. split; [by constructor|].
    split; [split; [intros Hp; destruct (Hr (Hpad Hp))|done]|].
    destruct complete.
    + destruct Hc as (-> & _ & Hc). split; [done|]. split; [done|]. rewrite fields_bytes_cons.
      destruct Hc as [->|Hc]; [by left|right; by apply cut_short_cons].
    + destruct Hc as (Hrest & -> & Hnp & Hn). split; [done|]. rewrite fields_bytes_cons, <- app_assoc.
      split; [done|]. split; [|done]. constructor; [|done]. intros Hp. destruct (Hr (Hpad Hp)).
Qed.

(** What is written into [extra] reads back. Fields that can be written - keys of 32
    bytes, a nonce of at most 255, a padding of 1 to 255 bytes - with padding only at the
    end are all accepted by the writer, and the text they make parses to the same fields
    in the same order. *)
Theorem tx_extra_roundtrip (fs : list tx_extra_field) :
  Forall ok_field fs -> pads_last fs ->
  Forall (fun f => write_field f = Some (field_bytes f)) fs
  /\ parse_tx_extra (fields_bytes fs) = (true, fs).
Proof.
  intros Hok Hpl. split; [by apply (Forall_impl _ _ _ Hok), write_field_ok|].
  destruct (decide (fields_bytes fs = [])) as [E|Hne].
  { by rewrite E, (fields_bytes_nil fs Hok E). }
  rewrite parse_eq by done. rewrite <- (app_nil_r (fields_bytes fs)).
  rewrite read_fields_write; rewrite ?app_nil_r; done.
Qed.

Lemma parse_inv e fs :
  byte_list e -> parse_tx_extra e = (true, fs) ->
  Forall ok_field fs /\ pads_last fs /\ (e = fields_bytes fs \/ cut_short e fs).
Proof.
  intros Hb E. destruct (decide (e = [])) as [->|Hne]; [injection E as <-; split; [constructor|split; [done|by left]]|].
  rewrite parse_eq in E by done. destruct (read_fields _ _ _) as [[fs' r] b] eqn:Er. injection E as -> ->.
  by destruct (read_fields_inv _ _ _ _ _ _ Hb Hne ltac:(done) Er) as (new & -> & Hok & Hpl & _ & _ & Hc).
Qed.

(** Extra fields have one spelling. A text that parses is the writer's own output for
    the fields it parses to, except that the end of the text may cut off the length of
    a last field that is empty: a nonce, a list of keys or a minergate field. *)
Theorem tx_extra_canonical (e : list Z) (fs : list tx_extra_field) :
  byte_list e -> parse_tx_extra e = (true, fs) ->
  Forall ok_field fs /\ pads_last fs /\ (e = fields_bytes fs \/ cut_short e fs).
Proof. apply parse_inv. Qed.

(** ** Sorting *)

Local Abbreviation of_tag t := (filter (fun f => tag_of f = t)).

(** The fields, by type in the order of the types, each type in the order it had *)
Definition sort_fields (fs : list tx_extra_field) : list tx_extra_field :=
  concat ((fun t => of_tag t fs) <$> sort_order).

Lemma pick_loop_eq fuel t fs ar :
  Forall ok_field fs -> (length (of_tag t fs) < fuel)%nat ->
  pick_loop fuel t fs ar
  = Some (filter (fun f => tag_of f <> t) fs, ar ++ fields_bytes (of_tag t fs)).
Proof.
  revert fs ar. induction fuel as [|fuel IH]; intros fs ar Hok Hl; [lia|]. cbn [pick_loop].
  destruct (list_find _ fs) as [[i f]|] eqn:Ef.
  - apply list_find_Some in Ef as (Hi & Ht & Hfirst).
    pose proof (take_drop_middle _ _ _ Hi) as Es. pose proof (proj1 (Forall_lookup _ _) Hok i f Hi) as Hf.
    assert (Hpre : of_tag t (take i fs) = []).
    { apply filter_none. apply Forall_lookup. intros j g Hj.
      apply lookup_take_Some in Hj as [Hj Hlt]. by apply (Hfirst j g). }
    pose proof (write_field_ok f Hf) as Hw. unfold write_field in Hw.
    destruct (write_body f) as [body|] eqn:Eb; [|done]. injection Hw as Hw. rewrite Ht in Hw.
    cbn [mbind option_bind].
    assert (Edel : delete i fs = take i fs ++ drop (S i) fs) by apply delete_take_drop.
    assert (Eof : of_tag t fs = f :: of_tag t (delete i fs)).
    { rewrite <- Es at 1. rewrite Edel, !filter_app, Hpre, filter_cons_True by done. done. }
    rewrite IH; [|rewrite Edel; apply Forall_app; split; [by apply Forall_take|by apply Forall_drop]|
      rewrite Eof in Hl; cbn in Hl; lia].
    f_equal. f_equal.
    + rewrite <- Es at 2. rewrite Edel, !filter_app, (filter_cons_False _ f) by (intros Hn; by apply Hn). done.
    + rewrite Eof, fields_bytes_cons, <- Hw. by rewrite <- app_assoc.
  - apply list_find_None in Ef. rewrite (filter_none (fun f => tag_of f = t)) by done.
    rewrite filter_all by done. cbn. by rewrite app_nil_r.
Qed.

Lemma pick_all_eq tags fs ar :
  NoDup tags -> Forall ok_field fs ->
  pick_all tags (fs, ar)
  = Some (filter (fun f => tag_of f ∉ tags) fs, ar ++ fields_bytes (concat ((fun t => of_tag t fs) <$> tags))).
Proof.
  intros Hnd. revert fs ar. induction Hnd as [|t tags Ht _ IH]; intros fs ar Hok.
  - cbn. rewrite app_nil_r. do 2 f_equal. symmetry. apply filter_all.
    apply Forall_forall. intros f _ Hin. by apply elem_of_nil in Hin.
  - cbn [pick_all]. unfold pick. cbn [fst snd].
    rewrite pick_loop_eq; [|done|pose proof (length_filter (fun f => tag_of f = t) fs); lia].
    cbn [mbind option_bind]. rewrite IH; [|by apply Forall_filter]. cbn [fmap list_fmap concat].
    rewrite fields_bytes_app, <- app_assoc. f_equal. f_equal.
    + rewrite list_filter_filter. apply list_filter_iff. intros f. rewrite not_elem_of_cons. naive_solver.
    + do 3 f_equal. f_equal. apply list_fmap_ext. intros i t' Hi. rewrite list_filter_filter.
      apply list_filter_iff. intros f. split; [naive_solver|]. intros E. split; [done|].
      rewrite E. intros ->. apply Ht. by eapply list_elem_of_lookup_2.
Qed.

Lemma sort_order_complete f : tag_of f ∈ sort_order.
Proof. destruct f; by_decide. Qed.

Lemma group_permutation tags fs :
  NoDup tags -> Forall (fun f => tag_of f ∈ tags) fs -> concat ((fun t => of_tag t fs) <$> tags) ≡ₚ fs.
Proof.
  intros Hnd. revert fs. induction Hnd as [|t tags Ht _ IH]; intros fs Hall.
  { destruct Hall as [|f fs Hf]; [done|]. by apply elem_of_nil in Hf. }
  cbn [fmap list_fmap concat].
  assert (E : concat ((fun t => of_tag t fs) <$> tags)
              = concat ((fun t' => of_tag t' (filter (fun f => tag_of f <> t) fs)) <$> tags)).
  { f_equal. apply list_fmap_ext. intros i t' Hi. rewrite list_filter_filter. apply list_filter_iff.
    intros f. split; [|naive_solver]. intros E. split; [done|]. rewrite E. intros ->.
    apply Ht. by eapply list_elem_of_lookup_2. }
  change (list_fmap _ _ ?g ?l) with (g <$> l). rewrite E, IH.
  - apply filter_app_complement.
  - apply Forall_forall. intros f [Hf Hin]%list_elem_of_filter.
    rewrite Forall_forall in Hall. specialize (Hall f Hin). apply elem_of_cons in Hall as [|]; done.
Qed.

Lemma sort_order_nodup : NoDup sort_order.
Proof. by_decide. Qed.

Lemma sort_fields_permutation fs : sort_fields fs ≡ₚ fs.
Proof.
  apply group_permutation; [exact sort_order_nodup|]. apply Forall_forall. intros f _. apply sort_order_complete.
Qed.

Lemma group_stable tags fs t :
  NoDup tags -> of_tag t (concat ((fun t' => of_tag t' fs) <$> tags))
              = if decide (t ∈ tags) then of_tag t fs else [].
Proof.
  induction 1 as [|t' tags Ht' _ IH]; [done|]. rewrite fmap_cons. cbn [concat].
  rewrite filter_app, IH, list_filter_filter. destruct (decide (t = t')) as [->|Hne].
  - rewrite decide_False by done. rewrite decide_True by (by left). rewrite app_nil_r.
    apply list_filter_iff. naive_solver.
  - rewrite filter_none; [|apply Forall_forall; intros f _ [??]; congruence].
    destruct (decide (t ∈ tags)); [rewrite decide_True by (by right)|rewrite decide_False]; [done..|].
    by intros [|]%elem_of_cons.
Qed.

Lemma sort_fields_stable fs t : of_tag t (sort_fields fs) = of_tag t fs.
Proof.
  unfold sort_fields. rewrite group_stable by exact sort_order_nodup. case_decide as Ht; [done|].
  symmetry. apply filter_none, Forall_forall. intros f _ <-. by apply Ht, sort_order_complete.
Qed.

Lemma sort_fields_idem fs : sort_fields (sort_fields fs) = sort_fields fs.
Proof.
  unfold sort_fields at 1 3. f_equal. apply list_fmap_ext. intros i t _. apply sort_fields_stable.
Qed.

Lemma find_field_eq fs tag i : find_tx_extra_field_by_type fs tag i = of_tag tag fs !! i.
Proof.
  revert i. induction fs as [|f fs IH]; intros i; [done|]. cbn [find_tx_extra_field_by_type].
  rewrite filter_cons. destruct (Z.eqb_spec (tag_of f) tag); [rewrite decide_True by done|by rewrite decide_False].
  by destruct i.
Qed.

Lemma pads_last_front l l' : Forall (fun f => ~ is_padding f) l -> pads_last l' -> pads_last (l ++ l').
Proof. intros Hl Hl'. induction Hl as [|f l Hf _ IH]; [done|]. by split. Qed.

Lemma pads_last_one fs : pads_last fs -> (length (of_tag TX_EXTRA_TAG_PADDING fs) <= 1)%nat.
Proof.
  induction fs as [|f fs IH]; intros Hpl; [cbn; lia|]. destruct Hpl as [Hf Hpl]. rewrite filter_cons.
  case_decide as Ht; [rewrite (Hf Ht); cbn; lia|by apply IH].
Qed.

Lemma sort_fields_pads fs : pads_last fs -> pads_last (sort_fields fs).
Proof.
  intros Hpl. apply pads_last_one in Hpl. unfold sort_fields, sort_order.
  cbn [fmap list_fmap concat]. rewrite app_nil_r.
  do 5 (apply pads_last_front; [apply Forall_forall; intros f [Hf _]%list_elem_of_filter; unfold is_padding;
                                by rewrite Hf|]).
  destruct (of_tag _ fs) as [|f [|g l]]; [done|by split|cbn in Hpl; lia].
Qed.

Lemma sort_fields_ok fs : Forall ok_field fs -> Forall ok_field (sort_fields fs).
Proof. by rewrite sort_fields_permutation. Qed.

(** What the loop of [read_fields] leaves *)
Definition read_result (e : list Z) (fs : list tx_extra_field) (rest : list Z) (complete : bool) : Prop :=
  Forall ok_field fs /\ pads_last fs /\ (exists p, e = p ++ rest)
  /\ if complete then rest = [] /\ fs <> []
     else rest <> [] /\ Forall (fun f => ~ is_padding f) fs /\ read_field rest = None.

Lemma read_fields_result e :
  byte_list e -> e <> [] ->
  exists fs rest complete, read_fields (length e) e [] = (fs, rest, complete)
    /\ read_result e fs rest complete.
Proof.
  intros Hb He. destruct (read_fields (length e) e []) as [[fs rest] complete] eqn:Er.
  destruct (read_fields_inv _ _ _ _ _ _ Hb He ltac:(done) Er) as (new & -> & Hok & Hpl & Hcase).
  exists new, rest, complete. split; [done|]. split; [done|]. split; [done|]. destruct complete.
  - destruct Hcase as (-> & Hne & _). split; [exists e; by rewrite app_nil_r|done].
  - destruct Hcase as (Hr & -> & Hnp & Hn). split; [by eexists|done].
Qed.

(** What is written, in the order of the types, and what was not read *)
Lemma sort_read e allow_partial fs rest complete :
  e <> [] -> read_fields (length e) e [] = (fs, rest, complete) -> complete || allow_partial = true ->
  read_result e fs rest complete ->
  sort_tx_extra e allow_partial = Some (fields_bytes (sort_fields fs) ++ rest).
Proof.
  intros He E Hc (Hok & _ & [p Ep] & Hcase). unfold sort_tx_extra. rewrite bool_decide_eq_false_2 by done. rewrite E.
  assert (negb complete && negb allow_partial = false) as -> by (by destruct complete, allow_partial).
  rewrite pick_all_eq by (exact sort_order_nodup || done). cbn [mbind option_bind app].
  rewrite filter_none by (apply Forall_forall; intros f _ Hn; apply Hn, sort_order_complete).
  rewrite bool_decide_eq_true_2 by done. cbn [negb]. fold (sort_fields fs).
  assert (Elen : length e = (length p + length rest)%nat) by (by rewrite Ep, length_app).
  destruct complete.
  - destruct Hcase as [-> _]. cbn [length] in *. rewrite bool_decide_eq_false_2 by lia.
    by rewrite andb_false_r, app_nil_r.
  - cbn in Hc. subst allow_partial. destruct Hcase as [Hnr _]. destruct rest as [|r rest]; [done|].
    cbn [length] in *. rewrite bool_decide_eq_true_2 by lia. cbn [andb]. f_equal. f_equal.
    rewrite Elen, Ep. replace (length p + S (length rest) - S (length rest))%nat with (length p) by lia.
    by rewrite drop_app_length.
Qed.

(** The sorted text reads as the sorted fields. *)
Lemma sorted_read e fs rest complete :
  read_result e fs rest complete ->
  let e' := fields_bytes (sort_fields fs) ++ rest in
  e' <> [] /\ read_fields (length e') e' [] = (sort_fields fs, rest, complete)
  /\ read_result e' (sort_fields fs) rest complete.
Proof.
  intros (Hok & Hpl & _ & Hcase) e'.
  pose proof (sort_fields_ok fs Hok) as Hok'. pose proof (sort_fields_pads fs Hpl) as Hpl'.
  assert (Hne : e' <> []).
  { intros [E1 ->]%app_nil. destruct complete; [|by destruct Hcase].
    apply fields_bytes_nil in E1; [|done]. destruct Hcase as (_ & Hnew). apply Hnew.
    apply Permutation_nil_r. rewrite <- E1. symmetry. apply sort_fields_permutation. }
  split; [done|]. split.
  - unfold e'. rewrite read_fields_write; try done.
    + do 2 f_equal. destruct complete; destruct Hcase as (Hr & _); [by subst rest|].
      by apply bool_decide_eq_false_2.
    + intros Hr. destruct complete; [by destruct Hcase|]. destruct Hcase as (_ & Hnp & _).
      by rewrite sort_fields_permutation.
    + destruct complete; destruct Hcase as (Hr & Hn); [by subst rest|by destruct Hn].
  - split; [done|]. split; [done|]. split; [by eexists|]. destruct complete.
    + destruct Hcase as (-> & Hn). split; [done|]. intros E. apply Hn. apply Permutation_nil_r.
      rewrite <- E. symmetry. apply sort_fields_permutation.
    + destruct Hcase as (? & Hnp & ?). split; [done|]. by rewrite sort_fields_permutation.
Qed.

Lemma parse_of_read e fs rest complete :
  e <> [] -> read_fields (length e) e [] = (fs, rest, complete) -> parse_tx_extra e = (complete, fs).
Proof. intros He E. rewrite parse_eq by done. by rewrite E. Qed.

(** Sorting [extra] changes the order and nothing else. A text that parses is turned
    into the text of the same fields ordered by type, each type in the order it had, so
    that the n-th key of the transaction stays the n-th; one that does not parse is
    refused, or, if a partial result is allowed, the fields before the malformed place
    are sorted and the rest is kept. Sorting again changes nothing. *)
Theorem sort_tx_extra_spec (e : list Z) (allow_partial : bool) :
  byte_list e ->
  let '(complete, fs) := parse_tx_extra e in
  if complete || allow_partial then
    exists e', sort_tx_extra e allow_partial = Some e'
      /\ parse_tx_extra e' = (complete, sort_fields fs) /\ sort_fields fs ≡ₚ fs
      /\ (forall tag i, find_tx_extra_field_by_type (sort_fields fs) tag i
                      = find_tx_extra_field_by_type fs tag i)
      /\ (forall i, get_tx_pub_key_from_extra e' i = get_tx_pub_key_from_extra e i)
      /\ sort_tx_extra e' allow_partial = Some e'
  else sort_tx_extra e allow_partial = None.
Proof.
  intros Hb. destruct (decide (e = [])) as [->|He].
  { cbn. exists []. done. }
  destruct (read_fields_result e Hb He) as (fs & rest & complete & Er & Hres).
  rewrite (parse_of_read e fs rest complete He Er). destruct (complete || allow_partial) eqn:Hc.
  2: { unfold sort_tx_extra. rewrite bool_decide_eq_false_2 by done. rewrite Er.
       apply orb_false_iff in Hc as [-> ->]. done. }
  destruct (sorted_read e fs rest complete Hres) as (He' & Er' & Hres').
  exists (fields_bytes (sort_fields fs) ++ rest).
  pose proof (parse_of_read _ _ _ _ He' Er') as Ep'.
  assert (Hfind : forall tag i, find_tx_extra_field_by_type (sort_fields fs) tag i
                             = find_tx_extra_field_by_type fs tag i)
    by (intros; by rewrite !find_field_eq, sort_fields_stable).
  split; [by apply (sort_read e allow_partial fs rest complete)|].
  split; [exact Ep'|]. split; [apply sort_fields_permutation|]. split; [done|]. split.
  - intros i. unfold get_tx_pub_key_from_extra. rewrite Ep', (parse_of_read e fs rest complete He Er).
    cbn [snd]. by rewrite Hfind.
  - rewrite <- (sort_fields_idem fs) at 2. by apply (sort_read _ allow_partial _ rest complete).
Qed.

(** ** Adding and removing fields *)

Lemma ok_pub_key k : byte_list k -> length k = 32%nat -> ok_field (tx_extra_pub_key k).
Proof. intros Hb Hl. exists pub_key_codec. split; [done|]. by exists k. Qed.

Lemma ok_nonce n : byte_list n -> Z.of_nat (length n) <= TX_EXTRA_NONCE_MAX_COUNT -> ok_field (tx_extra_nonce n).
Proof.
  unfold TX_EXTRA_NONCE_MAX_COUNT. intros Hb Hl. exists nonce_codec. split; [done|]. exists n. do 2 (split; [done|]).
  split; [split; [done|mach]|]. apply negb_true_iff, Z.ltb_ge. exact Hl.
Qed.

Lemma ok_merge_mining d r :
  is_u64 d -> byte_list r -> length r = 32%nat -> ok_field (tx_extra_merge_mining_tag d r).
Proof. intros Hd Hb Hl. exists merge_mining_codec. by split. Qed.

Lemma ok_additional ks :
  Forall (fun k => byte_list k /\ length k = 32%nat) ks -> is_u64 (Z.of_nat (length ks)) ->
  ok_field (tx_extra_additional_pub_keys ks).
Proof. intros Hks Hl. exists additional_codec. split; [done|]. by exists ks. Qed.

Lemma add_pub_key_eq e k :
  byte_list k -> length k = 32%nat -> add_tx_pub_key_to_extra e k = e ++ field_bytes (tx_extra_pub_key k).
Proof. done. Qed.

Lemma add_nonce_eq e n :
  Z.of_nat (length n) <= TX_EXTRA_NONCE_MAX_COUNT ->
  add_extra_nonce_to_tx_extra e n = Some (e ++ field_bytes (tx_extra_nonce n)).
Proof.
  intros Hl. unfold add_extra_nonce_to_tx_extra, field_bytes, write_field, write_body, write. cbn.
  by rewrite (proj2 (Z.leb_le _ _)), (proj2 (Z.ltb_ge _ _)) by done.
Qed.

Lemma add_merge_mining_eq e d r :
  is_u64 d -> length r = 32%nat ->
  add_mm_merkle_root_to_tx_extra e r d = e ++ field_bytes (tx_extra_merge_mining_tag d r).
Proof.
  intros Hd Hl. unfold add_mm_merkle_root_to_tx_extra.
  pose proof (write_varint_length 10 d ltac:(split; [mach|change (2 ^ (7 * Z.of_nat 10)) with (2 ^ 70); mach]) ltac:(lia)).
  change (field_bytes (tx_extra_merge_mining_tag d r))
    with (TX_EXTRA_MERGE_MINING_TAG :: write_string (write_varint d ++ r)).
  unfold write_string. rewrite length_app, Hl.
  rewrite (write_varint_eq (Z.of_nat _)) by lia. rewrite (proj2 (Z.leb_gt _ _)) by lia.
  rewrite wrap_small by mach. cbn [app]. do 3 f_equal. lia.
Qed.

(** Appending a field to a text of fields *)
Lemma parse_append fs f :
  Forall ok_field fs -> Forall (fun g => ~ is_padding g) fs -> ok_field f ->
  parse_tx_extra (fields_bytes fs ++ field_bytes f) = (true, fs ++ [f]).
Proof.
  intros Hok Hnp Hf. replace (fields_bytes fs ++ field_bytes f) with (fields_bytes (fs ++ [f])).
  - assert (Hne : fields_bytes (fs ++ [f]) <> []).
    { intros E. apply fields_bytes_nil in E; [by apply app_nil in E as [_ ?]|].
      apply Forall_app. split; [done|by constructor]. }
    rewrite parse_eq by done. rewrite <- (app_nil_r (fields_bytes (fs ++ [f]))).
    rewrite read_fields_write; rewrite ?app_nil_r; try done.
    + apply Forall_app. split; [done|by constructor].
    + by apply pads_last_front.
  - rewrite fields_bytes_app. unfold fields_bytes at 2. cbn. by rewrite app_nil_r.
Qed.

(** The functions that add to [extra] add one field. To a text of fields without
    padding, each of the four functions appends the text of its field, so that the result
    parses to the fields there were and the new one; a payment identifier put into a
    nonce comes out of it, and only as the kind it was put in as. *)
Theorem extra_added (fs : list tx_extra_field) (key nonce root : list Z) (depth : Z) (keys : list (list Z))
    (id32 id8 : list Z) :
  Forall ok_field fs -> Forall (fun g => ~ is_padding g) fs ->
  byte_list key -> length key = 32%nat -> byte_list nonce -> Z.of_nat (length nonce) <= 255 ->
  byte_list root -> length root = 32%nat -> is_u64 depth ->
  Forall (fun k => byte_list k /\ length k = 32%nat) keys -> is_u64 (Z.of_nat (length keys)) ->
  length id32 = 32%nat -> length id8 = 8%nat ->
  let e := fields_bytes fs in
  parse_tx_extra (add_tx_pub_key_to_extra e key) = (true, fs ++ [tx_extra_pub_key key])
  /\ option_map parse_tx_extra (add_extra_nonce_to_tx_extra e nonce) = Some (true, fs ++ [tx_extra_nonce nonce])
  /\ parse_tx_extra (add_mm_merkle_root_to_tx_extra e root depth)
     = (true, fs ++ [tx_extra_merge_mining_tag depth root])
  /\ option_map parse_tx_extra (add_additional_tx_pub_keys_to_extra e keys)
     = Some (true, fs ++ [tx_extra_additional_pub_keys keys])
  /\ get_payment_id_from_tx_extra_nonce (set_payment_id_to_tx_extra_nonce id32) = Some id32
  /\ get_encrypted_payment_id_from_tx_extra_nonce (set_payment_id_to_tx_extra_nonce id32) = None
  /\ get_encrypted_payment_id_from_tx_extra_nonce (set_encrypted_payment_id_to_tx_extra_nonce id8) = Some id8
  /\ get_payment_id_from_tx_extra_nonce (set_encrypted_payment_id_to_tx_extra_nonce id8) = None.
Proof.
  intros Hok Hnp Hk Hkl Hn Hnl Hr Hrl Hd Hks Hksl Hid Hid8 e.
  rewrite add_pub_key_eq, add_nonce_eq, add_merge_mining_eq by done.
  unfold add_additional_tx_pub_keys_to_extra. rewrite write_field_ok by by apply ok_additional.
  cbn [mbind option_bind option_map]. unfold e.
  rewrite !parse_append by (done || by apply ok_pub_key || by apply ok_nonce || by apply ok_merge_mining
                            || by apply ok_additional).
  do 4 (split; [done|]).
  unfold get_payment_id_from_tx_extra_nonce, get_encrypted_payment_id_from_tx_extra_nonce,
    set_payment_id_to_tx_extra_nonce, set_encrypted_payment_id_to_tx_extra_nonce.
  cbn [length head default from_option id drop]. rewrite Hid, Hid8. done.
Qed.

Lemma read_fields_acc fuel ar acc : exists new, (read_fields fuel ar acc).1.1 = acc ++ new.
Proof.
  revert ar acc. induction fuel as [|fuel IH]; intros ar acc; cbn [read_fields]; [exists []; by rewrite app_nil_r|].
  destruct (read_field ar) as [[f rest]|]; [|exists []; by rewrite app_nil_r].
  case_bool_decide; [by eexists|]. destruct (IH rest (acc ++ [f])) as [new ->]. rewrite <- app_assoc. by eexists.
Qed.

Lemma remove_loop_eq fuel tag ar newar fs rest complete acc :
  Forall ok_field fs -> read_fields fuel ar acc = (acc ++ fs, rest, complete) ->
  remove_loop fuel tag ar newar
  = if complete then Some (newar ++ fields_bytes (filter (fun f => tag_of f <> tag) fs)) else None.
Proof.
  revert ar newar fs acc. induction fuel as [|fuel IH]; intros ar newar fs acc Hok E.
  { cbn in E. by injection E as _ _ <-. }
  cbn [read_fields remove_loop] in *. destruct (read_field ar) as [[f ar']|].
  2: { cbn [mbind option_bind]. by injection E as _ _ <-. }
  cbn [mbind option_bind]. change (default [] (write_field f)) with (field_bytes f).
  assert (Hone : (if tag_of f =? tag then newar else newar ++ field_bytes f)
                 = newar ++ fields_bytes (filter (fun f => tag_of f <> tag) [f])).
  { rewrite filter_cons, filter_nil. destruct (Z.eqb_spec (tag_of f) tag) as [Et|Et].
    - rewrite decide_False by auto. cbn. by rewrite app_nil_r.
    - rewrite decide_True by done. cbn. by rewrite app_nil_r. }
  rewrite Hone. case_bool_decide as Hr.
  - injection E as E _ <-. apply app_inv_head in E as <-. done.
  - assert (Hsplit : exists fs', fs = f :: fs').
    { pose proof (read_fields_acc fuel ar' (acc ++ [f])) as Hacc. rewrite E in Hacc. cbn [fst] in Hacc.
      destruct Hacc as [fs' Hacc]. rewrite <- app_assoc in Hacc. apply app_inv_head in Hacc. by exists fs'. }
    destruct Hsplit as [fs' ->]. apply Forall_cons in Hok as [_ Hok].
    rewrite (IH ar' _ fs' (acc ++ [f]) Hok) by (by rewrite <- app_assoc).
    destruct complete; [|done]. f_equal. rewrite <- app_assoc. f_equal. rewrite <- fields_bytes_app.
    by rewrite <- filter_app.
Qed.

Lemma pads_last_filter tag fs : pads_last fs -> pads_last (filter (fun f => tag_of f <> tag) fs).
Proof.
  induction fs as [|f fs IH]; intros Hpl; [done|]. destruct Hpl as [Hf Hpl]. rewrite filter_cons.
  case_decide; [|by apply IH]. split; [|by apply IH]. intros Hp. by rewrite (Hf Hp).
Qed.

(** Removing a type of field removes its fields and nothing else. From a text that
    parses, the fields of the type are taken out and the others stay, in their order; a
    text that does not parse is refused. *)
Theorem remove_field_spec (e : list Z) (tag : Z) :
  byte_list e ->
  let '(complete, fs) := parse_tx_extra e in
  if complete then
    exists e', remove_field_from_tx_extra e tag = Some e'
      /\ parse_tx_extra e' = (true, filter (fun f => tag_of f <> tag) fs)
  else remove_field_from_tx_extra e tag = None.
Proof.
  intros Hb. destruct (decide (e = [])) as [->|He]; [by exists []|].
  destruct (read_fields_result e Hb He) as (fs & rest & complete & Er & Hok & Hpl & _).
  rewrite (parse_of_read e fs rest complete He Er).
  unfold remove_field_from_tx_extra. rewrite bool_decide_eq_false_2 by done.
  rewrite (remove_loop_eq (length e) tag e [] fs rest complete [] Hok Er). destruct complete; [|done].
  eexists. split; [done|]. cbn [app]. set (gs := filter (fun f => tag_of f <> tag) fs).
  assert (Hgs : Forall ok_field gs) by by apply Forall_filter.
  destruct (decide (gs = [])) as [->|Hne]; [done|].
  assert (Hbytes : fields_bytes gs <> []) by (intros E; by apply Hne, fields_bytes_nil).
  rewrite parse_eq by done. rewrite <- (app_nil_r (fields_bytes gs)).
  rewrite read_fields_write; rewrite ?app_nil_r; try done. by apply pads_last_filter.
Qed.

(** ** Witnesses *)

Definition sample_key : list Z := replicate 32 5.
Definition sample_fields : list tx_extra_field :=
  [tx_extra_nonce [7]; tx_extra_pub_key sample_key; tx_extra_merge_mining_tag 300 sample_key].
Definition sample_extra : list Z := fields_bytes sample_fields.

Lemma sample_key_bytes : byte_list sample_key.
Proof. by_decide. Qed.

Lemma sample_ok : Forall ok_field sample_fields.
Proof.
  repeat apply Forall_cons_2; [apply ok_nonce; by_decide|apply ok_pub_key; by_decide|apply ok_merge_mining; by_decide|done].
Qed.

Lemma sample_no_padding : Forall (fun g => ~ is_padding g) sample_fields.
Proof. by_decide. Qed.

Lemma sample_extra_bytes : byte_list sample_extra.
Proof. by_decide. Qed.

Lemma sample_parse : parse_tx_extra sample_extra = (true, sample_fields).
Proof. by vm_compute. Qed.

Lemma tx_extra_roundtrip_witness :
  parse_tx_extra (fields_bytes (sample_fields ++ [tx_extra_padding 3]))
  = (true, sample_fields ++ [tx_extra_padding 3]).
Proof.
  apply tx_extra_roundtrip.
  - apply Forall_app. split; [exact sample_ok|]. repeat constructor; by vm_compute.
  - apply pads_last_front; [exact sample_no_padding|by split].
Defined.

Lemma tx_extra_canonical_witness : sample_extra = fields_bytes sample_fields \/ cut_short sample_extra sample_fields.
Proof. exact (proj2 (proj2 (tx_extra_canonical sample_extra sample_fields sample_extra_bytes sample_parse))). Defined.

Lemma sort_tx_extra_spec_witness :
  exists e', sort_tx_extra sample_extra false = Some e' /\ parse_tx_extra e' = (true, sort_fields sample_fields).
Proof.
  pose proof (sort_tx_extra_spec sample_extra false sample_extra_bytes) as H. rewrite sample_parse in H.
  destruct H as (e' & E & Ep & _). by exists e'.
Defined.

Lemma extra_added_witness :
  parse_tx_extra (add_tx_pub_key_to_extra sample_extra sample_key)
  = (true, sample_fields ++ [tx_extra_pub_key sample_key]).
Proof.
  refine (proj1 (extra_added sample_fields sample_key [] sample_key 5 [] sample_key (replicate 8 1)
            sample_ok sample_no_padding sample_key_bytes eq_refl _ _ sample_key_bytes eq_refl _ _ _
            eq_refl eq_refl)); by_decide.
Defined.

Lemma remove_field_spec_witness :
  exists e', remove_field_from_tx_extra sample_extra TX_EXTRA_NONCE = Some e'
    /\ parse_tx_extra e' = (true, drop 1 sample_fields).
Proof.
  pose proof (remove_field_spec sample_extra TX_EXTRA_NONCE sample_extra_bytes) as H. rewrite sample_parse in H.
  exact H.
Defined.
