(* ===== verification/RingCt.v ===== *)
(** * Signature data of a transaction: src/ringct/rctTypes.h and rctTypes.cpp

    What a transaction of version 2 carries besides its inputs and outputs: commitments,
    encrypted amounts, range proofs and ring signatures. They are read and written
    here; what they prove is the mathematics of the curve. The fields that are not
    saved and that parsing does not fill in (the message, the ring, key images) are
    left out. *)

From S2P Require Import Prelude IntUtil Radix Varint Serialization.

(** Keys, scalars and points are their 32 bytes. *)
Notation key := (list Z) (only parsing).
Definition null_key : key := replicate 32 0.

Definition RCTTypeNull : Z := 0.
Definition RCTTypeFull : Z := 1.
Definition RCTTypeSimple : Z := 2.
Definition RCTTypeBulletproof : Z := 3.
Definition RCTTypeBulletproof2 : Z := 4.
Definition RCTTypeCLSAG : Z := 5.
Definition RCTTypeBulletproofPlus : Z := 6.

Definition BULLETPROOF_MAX_OUTPUTS : Z := 16.
Definition BULLETPROOF_PLUS_MAX_OUTPUTS : Z := 16.

Record ctkey := { dest : key; mask : key }.
Record ecdhTuple := { ecdh_mask : key; amount : key }.

(** [asig] is 64 scalars twice and one more, [Ci] 64 points. *)
Record rangeSig := { asig : list Z; Ci : list Z }.
Record mgSig := { ss : list (list key); cc : key }.
Record clsag := { clsag_s : list key; clsag_c1 : key; clsag_D : key }.

Record Bulletproof := {
  bp_V : list key; bp_A : key; bp_S : key; bp_T1 : key; bp_T2 : key; bp_taux : key; bp_mu : key;
  bp_L : list key; bp_R : list key; bp_a : key; bp_b : key; bp_t : key }.
Record BulletproofPlus := {
  bpp_V : list key; bpp_A : key; bpp_A1 : key; bpp_B : key; bpp_r1 : key; bpp_s1 : key; bpp_d1 : key;
  bpp_L : list key; bpp_R : list key }.

Record rctSigBase := {
  type : Z; txnFee : Z; pseudoOuts : list key; ecdhInfo : list ecdhTuple; outPk : list ctkey }.
Record rctSigPrunable := {
  rangeSigs : list rangeSig; bulletproofs : list Bulletproof; bulletproofs_plus : list BulletproofPlus;
  MGs : list mgSig; CLSAGs : list clsag; p_pseudoOuts : list key }.
Record rctSig := { rct_base : rctSigBase; rct_prunable : rctSigPrunable }.

Definition null_rctSigBase : rctSigBase :=
  {| type := RCTTypeNull; txnFee := 0; pseudoOuts := []; ecdhInfo := []; outPk := [] |}.
Definition null_rctSigPrunable : rctSigPrunable :=
  {| rangeSigs := []; bulletproofs := []; bulletproofs_plus := []; MGs := []; CLSAGs := [];
     p_pseudoOuts := [] |}.

(** ** Amounts of range proofs: rctTypes.cpp *)

Definition n_bulletproof_max_amounts_base (L_size R_size max_outputs : Z) : Z :=
  if negb (6 <=? L_size) then 0
  else if negb (L_size =? R_size) then 0
  else if negb (Z.shiftl 1 4 =? max_outputs) then 0
  else if negb (L_size <=? 6 + 4) then 0
  else Z.shiftl 1 (L_size - 6).

Definition bulletproof_max_amounts (proof : Bulletproof) : Z :=
  n_bulletproof_max_amounts_base (Z.of_nat (length (bp_L proof))) (Z.of_nat (length (bp_R proof)))
    BULLETPROOF_MAX_OUTPUTS.
Definition bulletproof_plus_max_amounts (proof : BulletproofPlus) : Z :=
  n_bulletproof_max_amounts_base (Z.of_nat (length (bpp_L proof))) (Z.of_nat (length (bpp_R proof)))
    BULLETPROOF_PLUS_MAX_OUTPUTS.

(** The loop over the proofs; [n] is what the ones before hold. *)
Fixpoint max_amounts_loop {A} (max_amounts : A -> Z) (proofs : list A) (n : Z) : Z :=
  match proofs with
  | [] => n
  | proof :: proofs =>
    let n2 := max_amounts proof in
    if negb (n2 <? u64 (UINT32_MAX - n)) then 0
    else if n2 =? 0 then 0
    else max_amounts_loop max_amounts proofs (u64 (n + n2))
  end.
Definition n_bulletproof_max_amounts (proofs : list Bulletproof) : Z :=
  max_amounts_loop bulletproof_max_amounts proofs 0.
Definition n_bulletproof_plus_max_amounts (proofs : list BulletproofPlus) : Z :=
  max_amounts_loop bulletproof_plus_max_amounts proofs 0.

Definition is_rct_bulletproof (type : Z) : bool :=
  bool_decide (type ∈ [RCTTypeBulletproof; RCTTypeBulletproof2; RCTTypeCLSAG]).
Definition is_rct_bulletproof_plus (type : Z) : bool := type =? RCTTypeBulletproofPlus.
Definition is_rct_clsag (type : Z) : bool := bool_decide (type ∈ [RCTTypeCLSAG; RCTTypeBulletproofPlus]).

(** The types a signature can have besides [RCTTypeNull] *)
Definition known_type (type : Z) : bool :=
  bool_decide (type ∈ [RCTTypeFull; RCTTypeSimple; RCTTypeBulletproof; RCTTypeBulletproof2; RCTTypeCLSAG;
                       RCTTypeBulletproofPlus]).
(** The types that save the first 8 bytes of an amount only *)
Definition short_amounts (type : Z) : bool :=
  bool_decide (type ∈ [RCTTypeBulletproof2; RCTTypeCLSAG; RCTTypeBulletproofPlus]).

(** ** Codecs of the parts *)

Definition key_codec : codec key := blob_codec 32.
Definition keyV_codec : codec (list key) := vector_codec key_codec.

Definition ecdh_codec (short : bool) : codec ecdhTuple :=
  if short then
    map_codec (fun trunc_amount => {| ecdh_mask := null_key; amount := trunc_amount ++ replicate 24 0 |})
      (fun e => Some (take 8 (amount e))) (blob_codec 8)
  else
    map_codec (fun '(m, a) => {| ecdh_mask := m; amount := a |}) (fun e => Some (ecdh_mask e, amount e))
      (pair_codec key_codec key_codec).

(** Of an output key only the commitment *)
Definition outPk_codec : codec ctkey :=
  map_codec (fun m => {| dest := null_key; mask := m |}) (fun k => Some (mask k)) key_codec.

Definition rangeSig_codec : codec rangeSig :=
  map_codec (fun '(a, c) => {| asig := a; Ci := c |}) (fun r => Some (asig r, Ci r))
    (pair_codec (blob_codec (64 * 32 + 64 * 32 + 32)) (blob_codec (64 * 32))).

Definition bulletproof_codec : codec Bulletproof :=
  guard_codec (fun p => negb (bool_decide (bp_L p = []) || negb (bool_decide (length (bp_L p) = length (bp_R p)))))
    (map_codec
      (fun '(A, (Sk, (T1, (T2, (taux, (mu, (L, (R, (a, (b, t)))))))))) =>
        {| bp_V := []; bp_A := A; bp_S := Sk; bp_T1 := T1; bp_T2 := T2; bp_taux := taux; bp_mu := mu;
           bp_L := L; bp_R := R; bp_a := a; bp_b := b; bp_t := t |})
      (fun p => Some (bp_A p, (bp_S p, (bp_T1 p, (bp_T2 p, (bp_taux p, (bp_mu p, (bp_L p, (bp_R p,
        (bp_a p, (bp_b p, bp_t p)))))))))))
      (pair_codec key_codec (pair_codec key_codec (pair_codec key_codec (pair_codec key_codec
        (pair_codec key_codec (pair_codec key_codec (pair_codec keyV_codec (pair_codec keyV_codec
        (pair_codec key_codec (pair_codec key_codec key_codec))))))))))).

Definition bulletproof_plus_codec : codec BulletproofPlus :=
  guard_codec (fun p => negb (bool_decide (bpp_L p = []) || negb (bool_decide (length (bpp_L p) = length (bpp_R p)))))
    (map_codec
      (fun '(A, (A1, (B, (r1, (s1, (d1, (L, R))))))) =>
        {| bpp_V := []; bpp_A := A; bpp_A1 := A1; bpp_B := B; bpp_r1 := r1; bpp_s1 := s1; bpp_d1 := d1;
           bpp_L := L; bpp_R := R |})
      (fun p => Some (bpp_A p, (bpp_A1 p, (bpp_B p, (bpp_r1 p, (bpp_s1 p, (bpp_d1 p, (bpp_L p, bpp_R p))))))))
      (pair_codec key_codec (pair_codec key_codec (pair_codec key_codec (pair_codec key_codec
        (pair_codec key_codec (pair_codec key_codec (pair_codec keyV_codec keyV_codec)))))))).

(** A number of proofs, of 32 bits, and as many proofs, which must be enough for the
    outputs *)
Definition proofs_codec {A} (nbp_codec : codec Z) (outputs : nat) (max_amounts : list A -> Z) (c : codec A)
  : codec (list A) :=
  guard_codec (fun proofs => negb (max_amounts proofs <? Z.of_nat outputs))
    (map_codec snd (fun proofs => let nbp := u32 (Z.of_nat (length proofs)) in Some (nbp, take (Z.to_nat nbp) proofs))
      (dep_codec (guard_codec (fun nbp => negb (Z.of_nat outputs <? nbp)) nbp_codec)
        (fun nbp => array_codec (Z.to_nat nbp) c))).

Definition clsag_codec (mixin : Z) : codec clsag :=
  map_codec (fun '(v, (c, d)) => {| clsag_s := v; clsag_c1 := c; clsag_D := d |})
    (fun g => Some (clsag_s g, (clsag_c1 g, clsag_D g)))
    (pair_codec (array_codec (Z.to_nat (mixin + 1)) key_codec) (pair_codec key_codec key_codec)).

Definition mg_codec (mixin : Z) (mg_ss2_elements : nat) : codec mgSig :=
  map_codec (fun '(v, c) => {| ss := v; cc := c |}) (fun g => Some (ss g, cc g))
    (pair_codec (array_codec (Z.to_nat (mixin + 1)) (array_codec mg_ss2_elements key_codec)) key_codec).

(** An array that only some types have *)
Definition when_codec {A} (b : bool) (c : codec (list A)) : codec (list A) := if b then c else const_codec [].

(** ** [serialize_rctsig_base] *)

Definition rct_fields_codec (type : Z) (inputs outputs : nat)
  : codec (Z * (list key * (list ecdhTuple * list ctkey))) :=
  if type =? RCTTypeNull then const_codec (0, ([], ([], [])))
  else if negb (known_type type) then fail_codec
  else pair_codec (varint_codec 64)
    (pair_codec (when_codec (type =? RCTTypeSimple) (array_codec inputs key_codec))
      (pair_codec (array_codec outputs (ecdh_codec (short_amounts type))) (array_codec outputs outPk_codec))).

Definition serialize_rctsig_base (inputs outputs : nat) : codec rctSigBase :=
  map_codec
    (fun '(t, (fee, (pseudo, (ecdh, out)))) =>
      {| type := t; txnFee := fee; pseudoOuts := pseudo; ecdhInfo := ecdh; outPk := out |})
    (fun b => Some (type b, (txnFee b, (pseudoOuts b, (ecdhInfo b, outPk b)))))
    (dep_codec (uint_codec 1) (fun t => rct_fields_codec t inputs outputs)).

(** ** [serialize_rctsig_prunable] *)

(** The range proofs: rangeSigs, bulletproofs, bulletproofs_plus *)
Definition range_proofs_codec (type : Z) (outputs : nat)
  : codec (list rangeSig * (list Bulletproof * list BulletproofPlus)) :=
  if type =? RCTTypeBulletproofPlus then
    pair_codec (const_codec []) (pair_codec (const_codec [])
      (proofs_codec (varint_codec 32) outputs n_bulletproof_plus_max_amounts bulletproof_plus_codec))
  else if is_rct_bulletproof type then
    pair_codec (const_codec []) (pair_codec
      (proofs_codec (if type =? RCTTypeBulletproof then uint_codec 4 else varint_codec 32) outputs
        n_bulletproof_max_amounts bulletproof_codec)
      (const_codec []))
  else pair_codec (array_codec outputs rangeSig_codec) (pair_codec (const_codec []) (const_codec [])).

(** The ring signatures: MGs, CLSAGs *)
Definition ring_signatures_codec (type : Z) (inputs : nat) (mixin : Z) : codec (list mgSig * list clsag) :=
  if is_rct_clsag type then pair_codec (const_codec []) (array_codec inputs (clsag_codec mixin))
  else
    let each := bool_decide (type ∈ [RCTTypeSimple; RCTTypeBulletproof; RCTTypeBulletproof2]) in
    let mg_elements := if each then inputs else 1%nat in
    let mg_ss2_elements := ((if each then 1 else inputs) + 1)%nat in
    pair_codec (array_codec mg_elements (mg_codec mixin mg_ss2_elements)) (const_codec []).

Definition prunable_fields_codec (type : Z) (inputs outputs : nat) (mixin : Z) : codec rctSigPrunable :=
  map_codec
    (fun '((rs, (bp, bpp)), ((mg, cl), ps)) =>
      {| rangeSigs := rs; bulletproofs := bp; bulletproofs_plus := bpp; MGs := mg; CLSAGs := cl; p_pseudoOuts := ps |})
    (fun q => Some ((rangeSigs q, (bulletproofs q, bulletproofs_plus q)), ((MGs q, CLSAGs q), p_pseudoOuts q)))
    (pair_codec (range_proofs_codec type outputs)
      (pair_codec (ring_signatures_codec type inputs mixin)
        (when_codec (is_rct_bulletproof type || is_rct_bulletproof_plus type) (array_codec inputs key_codec)))).

Definition serialize_rctsig_prunable (type : Z) (inputs outputs : nat) (mixin : Z) : codec rctSigPrunable :=
  if UINT32_MAX <=? Z.of_nat inputs then fail_codec
  else if UINT32_MAX <=? Z.of_nat outputs then fail_codec
  else if UINT32_MAX <=? mixin then fail_codec
  else if type =? RCTTypeNull then const_codec null_rctSigPrunable
  else if negb (known_type type) then fail_codec
  else prunable_fields_codec type inputs outputs mixin.

(** ** Laws of the parts *)

#[global] Instance outPk_exact : Exact outPk_codec.
Proof. by apply map_exact; [|apply _]. Qed.

#[global] Instance ecdh_exact short : Exact (ecdh_codec short).
Proof.
  destruct short; apply map_exact; try apply _.
  - intros t [_ Ht]. cbn. f_equal. by rewrite take_app_length'.
  - by intros [].
Qed.

#[global] Instance rangeSig_exact : Exact rangeSig_codec.
Proof. apply map_exact; [by intros []|apply _]. Qed.

#[global] Instance bulletproof_exact : Exact bulletproof_codec.
Proof.
  apply guard_exact, map_exact; [by intros (?&?&?&?&?&?&?&?&?&?&?)|apply _].
Qed.

#[global] Instance bulletproof_plus_lawful : Lawful bulletproof_plus_codec.
Proof. apply guard_lawful, map_lawful; [by intros (?&?&?&?&?&?&?&?)|apply _]. Qed.

#[global] Instance clsag_exact mixin : Exact (clsag_codec mixin).
Proof. apply map_exact; [by intros (?&?&?)|apply _]. Qed.

#[global] Instance clsag_nonempty mixin : Nonempty (clsag_codec mixin).
Proof. apply map_nonempty, _. Qed.

#[global] Instance mg_exact mixin n : Exact (mg_codec mixin n).
Proof. apply map_exact; [by intros []|apply _]. Qed.

#[global] Instance mg_nonempty mixin n : Nonempty (mg_codec mixin n).
Proof. apply map_nonempty, _. Qed.

#[global] Instance when_exact {A} b (c : codec (list A)) `{!Exact c} : Exact (when_codec b c).
Proof. destruct b; apply _. Qed.

Lemma array_nonempty_pos {A} n (c : codec A) `{!Nonempty c} : n <> 0%nat -> Nonempty (array_codec n c).
Proof. intros Hn. destruct n; [done|apply _]. Qed.

Section Proofs.
Context {A : Type} (nbp_codec : codec Z) (outputs : nat) (max_amounts : list A -> Z) (c : codec A).
Context `{!Lawful nbp_codec, !Lawful c} (nbp_width : forall n, ok nbp_codec n -> is_u32 n).

Lemma proofs_lawful : Lawful (proofs_codec nbp_codec outputs max_amounts c).
Proof.
  apply guard_lawful, map_lawful; [|by apply dep_lawful; [apply _|]; intros; apply _].
  intros [n v] [[Hn _] [_ Hl]]. cbn [fst snd] in *. apply nbp_width in Hn.
  rewrite Hl, Z2Nat.id by mach. rewrite wrap_small by done. by rewrite <- Hl, firstn_all.
Qed.
End Proofs.

Lemma known_type_u8 type : known_type type = true -> is_u8 type.
Proof.
  unfold known_type. rewrite bool_decide_eq_true. intros H.
  repeat (apply elem_of_cons in H as [->|H]; [by_decide|]). by apply not_elem_of_nil in H.
Qed.

#[global] Instance range_proofs_lawful type outputs : Lawful (range_proofs_codec type outputs).
Proof.
  unfold range_proofs_codec. destruct (_ =? _); [|destruct (is_rct_bulletproof _); [|apply _]].
  - apply pair_lawful; [apply _|]. apply pair_lawful; [apply _|]. by apply proofs_lawful; try apply _.
  - apply pair_lawful; [apply _|]. apply pair_lawful; [|apply _].
    destruct (_ =? _); by apply proofs_lawful; try apply _.
Qed.

#[global] Instance ring_signatures_exact type inputs mixin : Exact (ring_signatures_codec type inputs mixin).
Proof. unfold ring_signatures_codec. destruct (is_rct_clsag type); apply _. Qed.

Lemma ring_signatures_nonempty type inputs mixin :
  inputs <> 0%nat -> Nonempty (ring_signatures_codec type inputs mixin).
Proof.
  intros Hi. unfold ring_signatures_codec. destruct (is_rct_clsag type).
  - apply pair_nonempty_r, array_nonempty_pos; [apply _|done].
  - apply pair_nonempty, array_nonempty_pos; [apply _|]. by case_bool_decide.
Qed.

Section Prunable.
Context (type : Z) (inputs outputs : nat) (mixin : Z).

#[global] Instance prunable_fields_lawful : Lawful (prunable_fields_codec type inputs outputs mixin).
Proof. apply map_lawful; [by intros [[? []] [[] ?]]|apply _]. Qed.

Lemma prunable_fields_exact :
  inputs <> 0%nat ->
  Exact (prunable_fields_codec type inputs outputs mixin) /\ Nonempty (prunable_fields_codec type inputs outputs mixin).
Proof.
  intros Hi. pose proof (ring_signatures_nonempty type inputs mixin Hi). split.
  - apply map_exact; [by intros [[? []] [[] ?]]|]. apply pair_exact_tail; apply _.
  - apply map_nonempty, _.
Qed.

#[global] Instance prunable_lawful : Lawful (serialize_rctsig_prunable type inputs outputs mixin).
Proof.
  unfold serialize_rctsig_prunable.
  repeat match goal with |- Lawful (if ?b then _ else _) => destruct b end; apply _.
Qed.

Lemma prunable_exact :
  inputs <> 0%nat -> type <> RCTTypeNull ->
  Exact (serialize_rctsig_prunable type inputs outputs mixin)
  /\ Nonempty (serialize_rctsig_prunable type inputs outputs mixin).
Proof.
  intros Hi Ht. destruct (prunable_fields_exact Hi). unfold serialize_rctsig_prunable.
  rewrite (proj2 (Z.eqb_neq _ _) Ht).
  repeat match goal with |- context [if ?b then _ else _] => destruct b end; split; apply _.
Qed.
End Prunable.

#[global] Instance rct_fields_lawful type inputs outputs : Lawful (rct_fields_codec type inputs outputs).
Proof.
  unfold rct_fields_codec.
  repeat match goal with |- Lawful (if ?b then _ else _) => destruct b end; apply _.
Qed.

#[global] Instance rctsig_base_lawful inputs outputs : Lawful (serialize_rctsig_base inputs outputs).
Proof.
  apply map_lawful; [by intros (?&?&?&?&?)|]. apply dep_lawful; [apply _|]. intros; apply _.
Qed.

#[global] Instance rctsig_base_nonempty inputs outputs : Nonempty (serialize_rctsig_base inputs outputs).
Proof. apply map_nonempty, dep_nonempty_l, _. Qed.

(** A base without signatures is its type alone. *)
Lemma rctsig_base_null inputs outputs sg b rest :
  byte_list sg -> get (serialize_rctsig_base inputs outputs) sg = Some (b, rest) -> type b = RCTTypeNull ->
  b = null_rctSigBase /\ sg = put (serialize_rctsig_base inputs outputs) b ++ rest.
Proof.
  intros Hs ((t & fee & pseudo & ecdh & out) & <- & (s1 & E1 & E2)%dep_inv)%map_inv. cbn [type]. intros ->.
  change (rct_fields_codec RCTTypeNull inputs outputs) with (const_codec (0, (@nil (list Z), (@nil ecdhTuple, @nil ctkey)))) in E2.
  injection E2 as <- <- <- <- <-. split; [done|]. by rewrite (get_exact (c := uint_codec 1) _ _ _ Hs E1).
Qed.
