(* ===== verification/Transactions.v ===== *)
(** * Transactions and blocks as bytes: src/cryptonote_basic/cryptonote_basic.h and
    cryptonote_format_utils.cpp

    The structures that travel between nodes and lie in the database, how they are read
    from bytes and written to them, whole or pruned, and what parsing fills in. *)

From S2P Require Import Prelude IntUtil Radix Varint Serialization RingCt.

Definition CURRENT_TRANSACTION_VERSION : Z := 2.
Definition CRYPTONOTE_MAX_TX_PER_BLOCK : Z := 0x10000000.

(** Hashes, keys and key images are their 32 bytes, a signature its 64, a view tag one. *)
Record txout_to_script := { keys : list (list Z); script : list Z }.

Inductive txout_target_v :=
  | to_script (o : txout_to_script)
  | txout_to_scripthash (hash : list Z)
  | txout_to_key (key : list Z)
  | txout_to_tagged_key (key view_tag : list Z).

Inductive txin_v :=
  | txin_gen (height : Z)
  | txin_to_script (prev : list Z) (prevout : Z) (sigset : list Z)
  | txin_to_scripthash (prev : list Z) (prevout : Z) (script : txout_to_script) (sigset : list Z)
  | txin_to_key (amount : Z) (key_offsets : list Z) (k_image : list Z).

Record tx_out := { out_amount : Z; target : txout_target_v }.

Record transaction_prefix := {
  version : Z; unlock_time : Z; vin : list txin_v; vout : list tx_out; extra : list Z }.

Record transaction := {
  tx_prefix : transaction_prefix; signatures : list (list (list Z)); rct_signatures : rctSig; pruned : bool }.

Record block_header := {
  major_version : Z; minor_version : Z; timestamp : Z; prev_id : list Z; nonce : Z }.

Record block := { header : block_header; miner_tx : transaction; tx_hashes : list (list Z) }.

(** ** Inputs and outputs *)

(** [std::vector<uint8_t>] *)
Definition bytes_codec : codec (list Z) := vector_codec (uint_codec 1).

Definition txout_to_script_codec : codec txout_to_script :=
  map_codec (fun '(k, b) => {| keys := k; script := b |}) (fun o => Some (keys o, script o))
    (pair_codec (vector_codec (blob_codec 32)) bytes_codec).

Definition target_tag (t : txout_target_v) : Z :=
  match t with
  | to_script _ => 0x0 | txout_to_scripthash _ => 0x1 | txout_to_key _ => 0x2 | txout_to_tagged_key _ _ => 0x3
  end.

Definition to_script_codec : codec txout_target_v :=
  map_codec to_script (fun t => match t with to_script o => Some o | _ => None end) txout_to_script_codec.
Definition to_scripthash_codec : codec txout_target_v :=
  map_codec txout_to_scripthash (fun t => match t with txout_to_scripthash h => Some h | _ => None end)
    (blob_codec 32).
Definition to_key_codec : codec txout_target_v :=
  map_codec txout_to_key (fun t => match t with txout_to_key k => Some k | _ => None end) (blob_codec 32).
Definition to_tagged_key_codec : codec txout_target_v :=
  map_codec (fun '(k, t) => txout_to_tagged_key k t)
    (fun t => match t with txout_to_tagged_key k t => Some (k, t) | _ => None end)
    (pair_codec (blob_codec 32) (blob_codec 1)).

Definition target_alternative (t : Z) : option (codec txout_target_v) :=
  if t =? 0x0 then Some to_script_codec
  else if t =? 0x1 then Some to_scripthash_codec
  else if t =? 0x2 then Some to_key_codec
  else if t =? 0x3 then Some to_tagged_key_codec
  else None.

Definition target_codec : codec txout_target_v := variant_codec target_alternative target_tag.

Definition tx_out_codec : codec tx_out :=
  map_codec (fun '(a, t) => {| out_amount := a; target := t |}) (fun o => Some (out_amount o, target o))
    (pair_codec (varint_codec 64) target_codec).

Definition txin_tag (i : txin_v) : Z :=
  match i with
  | txin_gen _ => 0xff | txin_to_script _ _ _ => 0x0 | txin_to_scripthash _ _ _ _ => 0x1 | txin_to_key _ _ _ => 0x2
  end.

Definition txin_gen_codec : codec txin_v :=
  map_codec txin_gen (fun i => match i with txin_gen h => Some h | _ => None end) (varint_codec 64).
Definition txin_to_script_codec : codec txin_v :=
  map_codec (fun '(h, (n, b)) => txin_to_script h n b)
    (fun i => match i with txin_to_script h n b => Some (h, (n, b)) | _ => None end)
    (pair_codec (blob_codec 32) (pair_codec (varint_codec 64) bytes_codec)).
Definition txin_to_scripthash_codec : codec txin_v :=
  map_codec (fun '(h, (n, (o, b))) => txin_to_scripthash h n o b)
    (fun i => match i with txin_to_scripthash h n o b => Some (h, (n, (o, b))) | _ => None end)
    (pair_codec (blob_codec 32) (pair_codec (varint_codec 64) (pair_codec txout_to_script_codec bytes_codec))).
Definition txin_to_key_codec : codec txin_v :=
  map_codec (fun '(a, (o, k)) => txin_to_key a o k)
    (fun i => match i with txin_to_key a o k => Some (a, (o, k)) | _ => None end)
    (pair_codec (varint_codec 64) (pair_codec (vector_codec (varint_codec 64)) (blob_codec 32))).

Definition txin_alternative (t : Z) : option (codec txin_v) :=
  if t =? 0xff then Some txin_gen_codec
  else if t =? 0x0 then Some txin_to_script_codec
  else if t =? 0x1 then Some txin_to_scripthash_codec
  else if t =? 0x2 then Some txin_to_key_codec
  else None.

Definition txin_codec : codec txin_v := variant_codec txin_alternative txin_tag.

(** ** Transactions *)

Definition prefix_codec : codec transaction_prefix :=
  map_codec
    (fun '(v, (u, (i, (o, e)))) => {| version := v; unlock_time := u; vin := i; vout := o; extra := e |})
    (fun t => Some (version t, (unlock_time t, (vin t, (vout t, extra t)))))
    (pair_codec (guard_codec (fun v => negb ((v =? 0) || (CURRENT_TRANSACTION_VERSION <? v))) (varint_codec 64))
      (pair_codec (varint_codec 64) (pair_codec (vector_codec txin_codec)
        (pair_codec (vector_codec tx_out_codec) bytes_codec)))).

Definition get_signature_size (i : txin_v) : nat :=
  match i with txin_to_key _ key_offsets _ => length key_offsets | _ => 0 end.

(** Signatures of version 1: as many as every input wants; a writer without any is
    content when none is wanted. A pruned transaction has them left out. *)
Definition signatures_codec (pruned : bool) (vin : list txin_v) : codec (list (list (list Z))) :=
  map_codec id
    (fun sigs =>
      if bool_decide (sigs = []) then
        if pruned || forallb (fun i => bool_decide (get_signature_size i = 0%nat)) vin
        then Some (replicate (length vin) []) else None
      else if negb (bool_decide (length vin = length sigs)) then None
      else Some sigs)
    (if pruned then const_codec (replicate (length vin) [])
     else sequence_codec ((fun i => array_codec (get_signature_size i) (blob_codec 64)) <$> vin)).

(** The members of the ring besides the real one, by the first input *)
Definition mixin (vin : list txin_v) : Z :=
  match vin with txin_to_key _ key_offsets _ :: _ => u64 (Z.of_nat (length key_offsets) - 1) | _ => 0 end.

(** Signatures of version 2 *)
Definition rct_codec (pruned : bool) (p : transaction_prefix) : codec rctSig :=
  map_codec (fun '(b, q) => {| rct_base := b; rct_prunable := q |}) (fun r => Some (rct_base r, rct_prunable r))
    (if bool_decide (vin p = []) then const_codec (null_rctSigBase, null_rctSigPrunable)
     else dep_codec (serialize_rctsig_base (length (vin p)) (length (vout p)))
       (fun b =>
         if pruned || (type b =? RCTTypeNull) then const_codec null_rctSigPrunable
         else serialize_rctsig_prunable (type b) (length (vin p)) (length (vout p)) (mixin (vin p)))).

Definition null_rctSig : rctSig := {| rct_base := null_rctSigBase; rct_prunable := null_rctSigPrunable |}.

(** What follows the prefix *)
Definition tail_codec (pruned : bool) (p : transaction_prefix) : codec (list (list (list Z)) * rctSig) :=
  if version p =? 1 then pair_codec (signatures_codec pruned (vin p)) (const_codec null_rctSig)
  else pair_codec (const_codec []) (rct_codec pruned p).

(** [pr] is the flag before; a transaction that was read is marked as whole. *)
Definition transaction_codec (pr : bool) : codec transaction :=
  map_codec (fun '(p, (s, r)) => {| tx_prefix := p; signatures := s; rct_signatures := r; pruned := false |})
    (fun t => Some (tx_prefix t, (signatures t, rct_signatures t)))
    (dep_codec prefix_codec (tail_codec pr)).

(** [transaction::serialize_base]: nothing of version 1 *)
Definition base_tail_codec (p : transaction_prefix) : codec (list (list (list Z)) * rctSig) :=
  if version p =? 1 then const_codec ([], null_rctSig) else pair_codec (const_codec []) (rct_codec true p).
Definition base_codec : codec (transaction_prefix * (list (list (list Z)) * rctSig)) :=
  dep_codec prefix_codec base_tail_codec.
Definition serialize_base : reader transaction :=
  '(p, (s, r)) ← get base_codec;
  mret {| tx_prefix := p; signatures := s; rct_signatures := r; pruned := true |}.

(** ** Blocks *)

Definition header_codec : codec block_header :=
  map_codec
    (fun '(a, (i, (t, (h, n)))) =>
      {| major_version := a; minor_version := i; timestamp := t; prev_id := h; nonce := n |})
    (fun b => Some (major_version b, (minor_version b, (timestamp b, (prev_id b, nonce b)))))
    (pair_codec (varint_codec 8) (pair_codec (varint_codec 8) (pair_codec (varint_codec 64)
      (pair_codec (blob_codec 32) (uint_codec 4))))).

Definition block_codec : codec block :=
  map_codec (fun '(h, (t, x)) => {| header := h; miner_tx := t; tx_hashes := x |})
    (fun b => Some (header b, (miner_tx b, tx_hashes b)))
    (pair_codec header_codec (pair_codec (transaction_codec false)
      (guard_codec (fun x => negb (CRYPTONOTE_MAX_TX_PER_BLOCK <? Z.of_nat (length x)))
        (vector_codec (blob_codec 32))))).

(** ** Reading a text: [parse_and_validate_tx_from_blob] and the like *)

Definition is_coinbase (p : transaction_prefix) : bool :=
  match vin p with [txin_gen _] => true | _ => false end.

Definition get_output_public_key (out : tx_out) : option (list Z) :=
  match target out with
  | txout_to_key k => Some k
  | txout_to_tagged_key k _ => Some k
  | _ => None
  end.

Definition set_outPk (t : transaction) (v : list ctkey) : transaction :=
  let b := rct_base (rct_signatures t) in
  {| tx_prefix := tx_prefix t; signatures := signatures t; pruned := pruned t;
     rct_signatures :=
       {| rct_base := {| type := type b; txnFee := txnFee b; pseudoOuts := pseudoOuts b;
                         ecdhInfo := ecdhInfo b; outPk := v |};
          rct_prunable := rct_prunable (rct_signatures t) |} |}.

Definition set_proofs (t : transaction) (bp : list Bulletproof) (bpp : list BulletproofPlus) : transaction :=
  let q := rct_prunable (rct_signatures t) in
  {| tx_prefix := tx_prefix t; signatures := signatures t; pruned := pruned t;
     rct_signatures :=
       {| rct_base := rct_base (rct_signatures t);
          rct_prunable := {| rangeSigs := rangeSigs q; bulletproofs := bp; bulletproofs_plus := bpp;
                             MGs := MGs q; CLSAGs := CLSAGs q; p_pseudoOuts := p_pseudoOuts q |} |} |}.

Definition set_V (p : Bulletproof) (v : list (list Z)) : Bulletproof :=
  {| bp_V := v; bp_A := bp_A p; bp_S := bp_S p; bp_T1 := bp_T1 p; bp_T2 := bp_T2 p; bp_taux := bp_taux p;
     bp_mu := bp_mu p; bp_L := bp_L p; bp_R := bp_R p; bp_a := bp_a p; bp_b := bp_b p; bp_t := bp_t p |}.
Definition set_plus_V (p : BulletproofPlus) (v : list (list Z)) : BulletproofPlus :=
  {| bpp_V := v; bpp_A := bpp_A p; bpp_A1 := bpp_A1 p; bpp_B := bpp_B p; bpp_r1 := bpp_r1 p;
     bpp_s1 := bpp_s1 p; bpp_d1 := bpp_d1 p; bpp_L := bpp_L p; bpp_R := bpp_R p |}.

(** The destinations of the output keys, from the outputs *)
Fixpoint fill_dest (vout : list tx_out) (outPk : list ctkey) : option (list ctkey) :=
  match vout, outPk with
  | out :: vout, k :: outPk =>
    output_public_key ← get_output_public_key out;
    rest ← fill_dest vout outPk;
    Some ({| dest := output_public_key; mask := mask k |} :: rest)
  | _, outPk => Some outPk
  end.

Section Parse.
(** [rct::scalarmultKey(_, INV_EIGHT)], which throws for bytes that are no point *)
Context (scalarmult_inv_eight : list Z -> option (list Z)).

(** What the saved fields leave out: destinations and commitments of the range proof.
    [None] stands for the result [false] and for the exception. *)
Definition expand_transaction_1 (t : transaction) (base_only : bool) : option transaction :=
  let outs := vout (tx_prefix t) in
  if (2 <=? version (tx_prefix t)) && negb (is_coinbase (tx_prefix t)) then
    let rv := rct_base (rct_signatures t) in
    if type rv =? RCTTypeNull then Some t
    else if negb (bool_decide (length (outPk rv) = length outs)) then None
    else
      filled ← fill_dest outs (outPk rv);
      let t := set_outPk t filled in
      let q := rct_prunable (rct_signatures t) in
      if base_only then Some t
      else if is_rct_bulletproof_plus (type rv) then
        match bulletproofs_plus q with
        | [proof] =>
          if Z.of_nat (length (bpp_L proof)) <? 6 then None
          else if bulletproof_plus_max_amounts proof <? Z.of_nat (length outs) then None
          else V ← mapM scalarmult_inv_eight (mask <$> filled);
               Some (set_proofs t (bulletproofs q) [set_plus_V proof V])
        | _ => None
        end
      else if is_rct_bulletproof (type rv) then
        match bulletproofs q with
        | [proof] =>
          if Z.of_nat (length (bp_L proof)) <? 6 then None
          else if Z.shiftl 1 (Z.of_nat (length (bp_L proof)) - 6) <? Z.of_nat (length outs) then None
          else V ← mapM scalarmult_inv_eight (mask <$> filled);
               Some (set_proofs t [set_V proof V] (bulletproofs_plus q))
        | _ => None
        end
      else Some t
  else Some t.

Definition parse_and_validate_tx_from_blob (tx_blob : list Z) : option transaction :=
  t ← parse_all (get (transaction_codec false)) tx_blob; expand_transaction_1 t false.

Definition parse_and_validate_tx_base_from_blob (tx_blob : list Z) : option transaction :=
  '(t, _) ← serialize_base tx_blob; expand_transaction_1 t true.

Definition parse_and_validate_tx_prefix_from_blob (tx_blob : list Z) : option transaction_prefix :=
  fst <$> get prefix_codec tx_blob.

End Parse.

(** [None] is a transaction the writer refuses. *)
Definition tx_to_blob (t : transaction) : option (list Z) := write (transaction_codec (pruned t)) t.

Definition parse_and_validate_block_from_blob (b_blob : list Z) : option block :=
  parse_all (get block_codec) b_blob.
Definition block_to_blob (b : block) : option (list Z) := write block_codec b.

(** The member [unprunable_size] of 32 bits after reading or writing; without inputs a
    transaction of version 2 leaves it at zero. *)
Definition unprunable_size (t : transaction) : Z :=
  let q := tx_prefix t in
  let prefix_size := length (put prefix_codec q) in
  if version q =? 1 then u32 (Z.of_nat prefix_size)
  else if bool_decide (vin q = []) then 0
  else u32 (Z.of_nat (prefix_size
         + length (put (serialize_rctsig_base (length (vin q)) (length (vout q))) (rct_base (rct_signatures t))))).

(** How [BlockchainLMDB::add_transaction_data] cuts the text of a transaction in the part
    that stays and the part that pruning can drop; [None] is an exception. *)
Definition split_blob (t : transaction) (blob : list Z) : option (list Z * list Z) :=
  size ← (if unprunable_size t =? 0
          then (fun b => u32 (Z.of_nat (length b))) <$> write base_codec (tx_prefix t, (signatures t, rct_signatures t))
          else Some (unprunable_size t));
  if Z.of_nat (length blob) <? size then None
  else Some (take (Z.to_nat size) blob, drop (Z.to_nat size) blob).

(** [None] is the exception. *)
Definition is_v1_tx (tx_blob : list Z) : option bool :=
  let '(code, version, _) := read_varint 64 tx_blob in
  if code <=? 0 then None else Some (version <=? 1).

(** ** Laws of the parts *)

#[global] Instance bytes_lawful : Lawful bytes_codec. Proof. apply _. Qed.

#[global] Instance txout_to_script_lawful : Lawful txout_to_script_codec.
Proof. apply map_lawful; [by intros []|apply _]. Qed.

(** Takes the tests of a tag apart. *)
Ltac tag_cases E :=
  repeat match type of E with (if ?b then _ else _) = _ => destruct b eqn:? end; try done; injection E as <-.

Lemma target_lawful t c : target_alternative t = Some c -> Lawful c.
Proof. unfold target_alternative. intros E. tag_cases E; (apply map_lawful; [by intros []|apply _]). Qed.

Lemma target_tagged t c a : target_alternative t = Some c -> ok c a -> target_tag a = t.
Proof. unfold target_alternative. intros E Hok. tag_cases E; destruct Hok as (x & Hx & _), a; cbn in *; try done; lia. Qed.

#[global] Instance tx_out_lawful : Lawful tx_out_codec.
Proof.
  apply map_lawful; [by intros []|]. apply pair_lawful; [apply _|].
  apply variant_lawful; [apply target_tagged|apply target_lawful].
Qed.

#[global] Instance tx_out_nonempty : Nonempty tx_out_codec.
Proof. apply map_nonempty, _. Qed.

Lemma txin_lawful_alternative t c : txin_alternative t = Some c -> Lawful c.
Proof.
  unfold txin_alternative. intros E. tag_cases E; (apply map_lawful; [|apply _]).
  - done.
  - by intros [? []].
  - by intros [? [? []]].
  - by intros [? []].
Qed.

Lemma txin_tagged t c a : txin_alternative t = Some c -> ok c a -> txin_tag a = t.
Proof. unfold txin_alternative. intros E Hok. tag_cases E; destruct Hok as (x & Hx & _), a; cbn in *; try done; lia. Qed.

#[global] Instance txin_lawful : Lawful txin_codec.
Proof. apply variant_lawful; [apply txin_tagged|apply txin_lawful_alternative]. Qed.

#[global] Instance txin_nonempty : Nonempty txin_codec.
Proof. apply variant_nonempty. Qed.

#[global] Instance prefix_lawful : Lawful prefix_codec.
Proof. apply map_lawful; [by intros (?&?&?&?&?)|apply _]. Qed.

#[global] Instance prefix_nonempty : Nonempty prefix_codec.
Proof. apply map_nonempty, _. Qed.

#[global] Instance signatures_exact pr vin : Exact (signatures_codec pr vin).
Proof.
  apply map_exact.
  - destruct pr; cbn [orb].
    + intros v Hv. cbn [ok const_codec] in Hv. subst v. unfold id. case_bool_decide; [done|].
      by rewrite length_replicate, bool_decide_eq_true_2 by done.
    + intros v Hv. unfold id. case_bool_decide as He.
      * subst v. by destruct vin.
      * rewrite bool_decide_eq_true_2; [done|]. clear He. revert v Hv.
        induction vin as [|i vin IH]; intros [|a v] Hv; [done|done|by destruct Hv|].
        destruct Hv as [_ Hv]. cbn [length]. f_equal. by apply IH.
  - destruct pr; [apply _|]. apply sequence_exact, Forall_fmap, Forall_forall. intros i _. cbn. apply _.
Qed.

(** A text of a prefix that ends with it may lack the length of an empty [extra]. *)
Lemma prefix_unless : exact_unless prefix_codec (fun q => extra q = []).
Proof.
  apply (map_unless _ _ _ (fun f => f.2.2.2.2 = [])); [apply _|by intros (?&?&?&?&?)|by intros (?&?&?&?&?)|].
  apply (pair_unless _ _ (fun f => f.2.2.2 = [])), (pair_unless _ _ (fun f => f.2.2 = [])),
    (pair_unless _ _ (fun f => f.2 = [])), (pair_unless _ _ (fun e => e = [])), vector_unless, _.
Qed.

#[global] Instance rct_lawful pr q : Lawful (rct_codec pr q).
Proof.
  apply map_lawful; [by intros []|]. case_bool_decide; [apply _|].
  apply dep_lawful; [apply _|]. intros b _. destruct (_ || _); apply _.
Qed.

(** Signatures are followed by proofs, which are never empty. *)
#[global] Instance rct_exact q : Exact (rct_codec false q).
Proof.
  apply map_exact; [by intros []|]. case_bool_decide as Hv; [apply _|].
  assert (Hlen : length (vin q) <> 0%nat) by (by destruct (vin q)).
  constructor.
  { apply dep_lawful; [apply _|]. intros b _. destruct (_ || _); apply _. }
  intros sg [b r] rest Hs (s1 & E1 & E2)%dep_inv. cbn [put dep_codec fst snd].
  destruct (get_inv sg b s1 Hs E1) as (_ & [pre Hpre] & Hc).
  assert (Hs1 : byte_list s1) by (subst sg; by apply byte_list_app in Hs as [_ ?]). cbn [orb] in *.
  destruct (Z.eqb_spec (type b) RCTTypeNull) as [Ht|Ht].
  - destruct (rctsig_base_null _ _ _ _ _ Hs E1 Ht) as [_ ->]. injection E2 as <- <-. by rewrite app_nil_r.
  - destruct (prunable_exact (type b) (length (vin q)) (length (vout q)) (mixin (vin q)) Hlen Ht) as [He Hn].
    pose proof (get_exact _ _ _ Hs1 E2) as Hd. destruct (get_inv _ _ _ Hs1 E2) as (Hr & _).
    rewrite Hc; [by rewrite Hd, app_assoc|]. rewrite Hd. intros [E _]%app_nil. by apply (Hn r Hr).
Qed.

#[global] Instance tail_lawful pr q : Lawful (tail_codec pr q).
Proof. unfold tail_codec. destruct (_ =? _); apply _. Qed.

#[global] Instance tail_exact q : Exact (tail_codec false q).
Proof. unfold tail_codec. destruct (_ =? _); apply _. Qed.

#[global] Instance transaction_lawful : Lawful (transaction_codec false).
Proof. apply map_lawful; [by intros (?&?&?)|]. apply dep_lawful; [apply _|]. intros; apply _. Qed.

#[global] Instance transaction_nonempty pr : Nonempty (transaction_codec pr).
Proof. apply map_nonempty, dep_nonempty_l, _. Qed.

(** Where a text of a prefix may end too early *)
#[global] Instance bytes_cuttable : Cuttable bytes_codec. Proof. apply _. Qed.

#[global] Instance txout_to_script_cuttable : Cuttable txout_to_script_codec.
Proof. apply map_cuttable; [apply _..|by intros []]. Qed.

#[global] Instance tx_out_cuttable : Cuttable tx_out_codec.
Proof.
  assert (Lawful target_codec) by (apply variant_lawful; [apply target_tagged|apply target_lawful]).
  assert (Cuttable target_codec).
  { apply variant_cuttable; [apply target_tagged|]. intros t c E. split; [by eapply target_lawful|].
    unfold target_alternative in E. tag_cases E; (apply map_cuttable; [apply _..|by intros []]). }
  apply map_cuttable; [apply _..|by intros []].
Qed.

#[global] Instance txin_cuttable : Cuttable txin_codec.
Proof.
  apply variant_cuttable; [apply txin_tagged|]. intros t c E. split; [by eapply txin_lawful_alternative|].
  unfold txin_alternative in E. tag_cases E; (apply map_cuttable; [apply _..|]).
  - done.
  - by intros [? []].
  - by intros [? [? []]].
  - by intros [? []].
Qed.

#[global] Instance prefix_cuttable : Cuttable prefix_codec.
Proof. apply map_cuttable; [apply _..|by intros (?&?&?&?&?)]. Qed.

#[global] Instance transaction_cuttable : Cuttable (transaction_codec false).
Proof.
  apply map_cuttable; [|apply dep_cuttable; apply _|by intros (?&?&?)].
  apply dep_lawful; [apply _|]. intros; apply _.
Qed.

(** No byte follows the prefix. *)
Definition unsigned (t : transaction) : Prop := put (tail_codec false (tx_prefix t)) (signatures t, rct_signatures t) = [].

Lemma transaction_unless : exact_unless (transaction_codec false) (fun t => extra (tx_prefix t) = [] /\ unsigned t).
Proof.
  intros sg t rest Hs ((q & s & r) & <- & (s1 & E1 & E2)%dep_inv)%map_inv. unfold unsigned.
  cbn [put map_codec dep_codec tx_prefix signatures rct_signatures fst snd].
  destruct (get_inv sg q s1 Hs E1) as (_ & [pre Hpre] & _).
  assert (Hs1 : byte_list s1) by (subst sg; by apply byte_list_app in Hs as [_ ?]).
  pose proof (get_exact _ _ _ Hs1 E2) as Hd.
  destruct (prefix_unless _ _ _ Hs E1) as [->|[-> He]]; [left; by rewrite Hd, app_assoc|right].
  symmetry in Hd. by apply app_nil in Hd as [-> ->].
Qed.

#[global] Instance header_exact : Exact header_codec.
Proof. apply map_exact; [by intros (?&?&?&?&?)|apply _]. Qed.

#[global] Instance block_lawful : Lawful block_codec.
Proof. apply map_lawful; [by intros (?&?&?)|apply _]. Qed.

(** A text of a block that ends with it may lack the length of an empty list of hashes. *)
Lemma block_unless : exact_unless block_codec (fun b => tx_hashes b = []).
Proof.
  apply (map_unless _ _ _ (fun f => f.2.2 = [])); [apply _|by intros (?&?&?)|by intros (?&?&?)|].
  apply (pair_unless _ _ (fun f => f.2 = [])), (pair_unless _ _ (fun x => x = [])), guard_unless, vector_unless, _.
Qed.

(** ** What parsing fills in is not written *)

Lemma fill_dest_masks outs ks ks' :
  fill_dest outs ks = Some ks' -> Forall2 (same_saved outPk_codec) ks' ks.
Proof.
  revert ks ks'. induction outs as [|out outs IH]; intros [|k ks] ks' E; cbn in E;
    try (injection E as <-; by apply Forall2_same_saved).
  destruct (get_output_public_key out); [|done]. destruct (fill_dest outs ks) as [rest|] eqn:Er; [|done].
  injection E as <-. constructor; [done|by apply IH].
Qed.

Lemma rct_fields_same type inputs outputs fee pseudo ecdh ks ks' :
  Forall2 (same_saved outPk_codec) ks' ks ->
  same_saved (rct_fields_codec type inputs outputs) (fee, (pseudo, (ecdh, ks'))) (fee, (pseudo, (ecdh, ks))).
Proof.
  intros H. unfold rct_fields_codec. destruct (_ =? _); [done|]. destruct (negb _); [done|].
  do 3 (apply same_pair; [done|]). by apply same_array.
Qed.

Lemma range_proofs_same type outputs rs bp bp' bpp bpp' :
  (bp' = bp \/ exists x v, bp = [x] /\ bp' = [set_V x v]) ->
  (bpp' = bpp \/ exists x v, bpp = [x] /\ bpp' = [set_plus_V x v]) ->
  same_saved (range_proofs_codec type outputs) (rs, (bp', bpp')) (rs, (bp, bpp)).
Proof.
  intros Hbp Hbpp. unfold range_proofs_codec. destruct (_ =? _); [|destruct (is_rct_bulletproof type)].
  - do 2 (apply same_pair; [done|]). by destruct Hbpp as [->|(x & v & -> & ->)].
  - apply same_pair; [done|]. apply same_pair; [|done]. by destruct Hbp as [->|(x & v & -> & ->)].
  - apply same_pair; [done|]. by apply same_pair.
Qed.

Section Expand.
Context (scalarmult_inv_eight : list Z -> option (list Z)).

(** How a filled transaction comes from the one that was read *)
Inductive filled (t : transaction) : transaction -> Prop :=
  | filled_not : filled t t
  | filled_in ks bp bpp :
      fill_dest (vout (tx_prefix t)) (outPk (rct_base (rct_signatures t))) = Some ks ->
      (bp = bulletproofs (rct_prunable (rct_signatures t))
       \/ exists x v, bulletproofs (rct_prunable (rct_signatures t)) = [x] /\ bp = [set_V x v]) ->
      (bpp = bulletproofs_plus (rct_prunable (rct_signatures t))
       \/ exists x v, bulletproofs_plus (rct_prunable (rct_signatures t)) = [x] /\ bpp = [set_plus_V x v]) ->
      filled t (set_proofs (set_outPk t ks) bp bpp).

Lemma set_proofs_id t : set_proofs t (bulletproofs (rct_prunable (rct_signatures t)))
                          (bulletproofs_plus (rct_prunable (rct_signatures t))) = t.
Proof. by destruct t as [? ? [? []] ?]. Qed.

Lemma expand_filled t base_only t' :
  expand_transaction_1 scalarmult_inv_eight t base_only = Some t' -> filled t t'.
Proof.
  unfold expand_transaction_1. destruct (_ && _); [|intros [= <-]; constructor].
  destruct (_ =? RCTTypeNull); [intros [= <-]; constructor|]. destruct (negb _); [done|].
  destruct (fill_dest _ _) as [ks|] eqn:Ek; [|done]. cbn [mbind option_bind].
  assert (Hid : filled t (set_outPk t ks)).
  { rewrite <- (set_proofs_id (set_outPk t ks)). constructor; [done|by left|by left]. }
  destruct base_only; [by intros [= <-]|]. destruct (is_rct_bulletproof_plus _).
  { cbn [set_outPk rct_signatures rct_prunable]. destruct (bulletproofs_plus _) as [|x []] eqn:Eb; try done.
    repeat case_match; try done. intros E. apply bind_Some in E as (v & _ & [= <-]).
    constructor; [done|by left|right; by eexists _, _]. }
  destruct (is_rct_bulletproof _); [|by intros [= <-]].
  cbn [set_outPk rct_signatures rct_prunable]. destruct (bulletproofs _) as [|x []] eqn:Eb; try done.
  repeat case_match; try done. intros E. apply bind_Some in E as (v & _ & [= <-]).
  constructor; [done|right; by eexists _, _|by left].
Qed.

Lemma prunable_same type inputs outputs mixin q bp bpp :
  (bp = bulletproofs q \/ exists x v, bulletproofs q = [x] /\ bp = [set_V x v]) ->
  (bpp = bulletproofs_plus q \/ exists x v, bulletproofs_plus q = [x] /\ bpp = [set_plus_V x v]) ->
  same_saved (serialize_rctsig_prunable type inputs outputs mixin)
    {| rangeSigs := rangeSigs q; bulletproofs := bp; bulletproofs_plus := bpp; MGs := MGs q; CLSAGs := CLSAGs q;
       p_pseudoOuts := p_pseudoOuts q |} q.
Proof.
  intros Hbp Hbpp. unfold serialize_rctsig_prunable. do 5 (destruct (_ : bool); [done|]).
  eapply same_map; [done..|]. apply same_pair; [|done]. by apply range_proofs_same.
Qed.

Lemma filled_base_same t ks inputs outputs :
  fill_dest (vout (tx_prefix t)) (outPk (rct_base (rct_signatures t))) = Some ks ->
  let b := rct_base (rct_signatures t) in
  same_saved (serialize_rctsig_base inputs outputs)
    {| type := type b; txnFee := txnFee b; pseudoOuts := pseudoOuts b; ecdhInfo := ecdhInfo b; outPk := ks |} b.
Proof.
  intros Hk b. eapply same_map; [done..|]. apply same_dep, rct_fields_same. by eapply fill_dest_masks.
Qed.

Lemma filled_split t t' blob : filled t t' -> split_blob t' blob = split_blob t blob.
Proof.
  intros [|ks bp bpp Hk _ _]; [done|].
  assert (Hb := filled_base_same t ks (length (vin (tx_prefix t))) (length (vout (tx_prefix t))) Hk).
  assert (Hu : unprunable_size (set_proofs (set_outPk t ks) bp bpp) = unprunable_size t).
  { unfold unprunable_size. cbn [tx_prefix set_proofs set_outPk rct_signatures rct_base]. by destruct Hb as [_ ->]. }
  unfold split_blob. rewrite Hu.
  cbn [tx_prefix set_proofs set_outPk rct_signatures rct_base signatures]. erewrite same_write; [done|].
  apply same_dep. unfold base_tail_codec. destruct (_ =? 1); [done|]. apply same_pair; [done|].
  unfold rct_codec. eapply same_map; [done..|]. cbn [rct_signatures rct_base rct_prunable set_proofs set_outPk].
  case_bool_decide; [done|]. destruct Hb as [Hb1 Hb2]. split; cbn [saves put dep_codec fst snd orb]; [by rewrite Hb1|by rewrite Hb2].
Qed.

Lemma filled_same pr t t' :
  filled t t' ->
  same_saved (transaction_codec pr) t' t /\ tx_prefix t' = tx_prefix t /\ signatures t' = signatures t
  /\ pruned t' = pruned t /\ type (rct_base (rct_signatures t')) = type (rct_base (rct_signatures t)).
Proof.
  intros [|ks bp bpp Hk Hbp Hbpp]; [done|]. split; [|done].
  eapply same_map; [done..|]. apply same_dep. cbn [tx_prefix set_proofs set_outPk].
  unfold tail_codec. destruct (_ =? 1).
  { by apply same_pair. }
  apply same_pair; [done|]. unfold rct_codec. eapply same_map; [done..|].
  cbn [rct_signatures rct_base rct_prunable set_proofs set_outPk]. case_bool_decide; [done|].
  set (b := rct_base (rct_signatures t)) in *. set (q := rct_prunable (rct_signatures t)) in *.
  assert (Hb := filled_base_same t ks (length (vin (tx_prefix t))) (length (vout (tx_prefix t))) Hk). fold b in Hb.
  split; cbn [saves put dep_codec fst snd type].
  - f_equal; [by destruct Hb|]. destruct (_ || _); [done|]. by apply prunable_same.
  - f_equal; [by destruct Hb|]. destruct (_ || _); [done|]. by apply prunable_same.
Qed.
End Expand.

(** ** What is parsed of a text *)

Section ParseLemmas.
Context (scalarmult_inv_eight : list Z -> option (list Z)).

Lemma parse_tx_inv blob t :
  parse_and_validate_tx_from_blob scalarmult_inv_eight blob = Some t ->
  exists t0, get (transaction_codec false) blob = Some (t0, []) /\ filled t0 t /\ pruned t0 = false
    /\ expand_transaction_1 scalarmult_inv_eight t0 false = Some t.
Proof.
  intros E. apply bind_Some in E as (t0 & E0 & E1). exists t0. unfold parse_all in E0.
  destruct (get _ _) as [[t1 []]|] eqn:Eg; try done. injection E0 as <-. split; [done|].
  split; [by eapply expand_filled|]. split; [|done]. by apply map_inv in Eg as ((? & ? & ?) & <- & _).
Qed.

Lemma filled_blob t0 t : filled t0 t -> pruned t0 = false -> tx_to_blob t = write (transaction_codec false) t0.
Proof.
  intros Hf Hp. destruct (filled_same false t0 t Hf) as (Hs & _ & _ & Ep & _).
  unfold tx_to_blob. rewrite Ep, Hp. by apply same_write.
Qed.

Lemma filled_unsigned t0 t : filled t0 t -> unsigned t0 -> unsigned t.
Proof.
  intros Hf. destruct (filled_same false t0 t Hf) as ([_ Hs] & Ep & _). unfold unsigned. intros H.
  cbn [put transaction_codec map_codec dep_codec fst snd] in Hs. rewrite Ep in Hs.
  apply app_inv_head in Hs. by rewrite <- H, <- Hs, Ep.
Qed.

(** The base of a transaction is read from its whole text. *)
Lemma base_of_whole sg t0 rest :
  get (transaction_codec false) sg = Some (t0, rest) ->
  exists tb rest', serialize_base sg = Some (tb, rest') /\ tx_prefix tb = tx_prefix t0 /\ pruned tb = true
    /\ rct_signatures tb = {| rct_base := rct_base (rct_signatures t0); rct_prunable := null_rctSigPrunable |}.
Proof.
  intros ((q & sigs & r) & <- & (s1 & E1 & E2)%dep_inv)%map_inv.
  assert (exists rest', get (base_tail_codec q) s1
            = Some (([], {| rct_base := rct_base r; rct_prunable := null_rctSigPrunable |}), rest')) as [rest' E3].
  { unfold base_tail_codec, tail_codec in *. destruct (_ =? 1).
    - apply dep_inv in E2 as (s2 & _ & [= <- <-]). by eexists.
    - apply dep_inv in E2 as (s2 & [= <- <-] & ([b x] & <- & E)%map_inv).
      cbn [pair_codec get dep_codec const_codec rct_codec map_codec rct_base]. case_bool_decide.
      + injection E as <- <- <-. by eexists.
      + apply dep_inv in E as (s3 & Eb & _). cbn [orb] in *. exists s3.
        cbn [get dep_codec]. unfold mbind, reader_bind, mret, reader_ret. cbv beta iota. by rewrite Eb. }
  eexists {| pruned := true |}, rest'. split; [|done]. unfold serialize_base.
  rewrite (read_bind _ _ sg (q, ([], {| rct_base := rct_base r; rct_prunable := null_rctSigPrunable |})) rest'); [done|].
  cbn [get base_codec dep_codec]. erewrite read_bind by exact E1. by erewrite read_bind by exact E3.
Qed.

Lemma read_loop_code bits shift read write input n v rest :
  read_varint_loop bits shift read write input = (n, v, rest) -> n < 0 \/ read <= n /\ (input <> [] -> read < n).
Proof.
  revert shift read write. induction input as [|byte input IH]; intros shift read write E.
  - injection E as <- <- <-. right. split; [lia|done].
  - cbn [read_varint_loop] in E. repeat case_match.
    + injection E as <- <- <-. by left.
    + injection E as <- <- <-. by left.
    + injection E as <- <- <-. right. lia.
    + apply IH in E. lia.
Qed.

Lemma version_of_prefix sg q rest :
  byte_list sg -> get prefix_codec sg = Some (q, rest) -> is_v1_tx sg = Some (version q =? 1).
Proof.
  intros Hsg ((v & u & i & o & e) & <- & (s1 & [E Hv]%guard_inv & _)%dep_inv)%map_inv. cbn [version].
  apply negb_true_iff, orb_false_iff in Hv as [H0 H2]. unfold CURRENT_TRANSACTION_VERSION in H2.
  cbn [get varint_codec] in E. destruct (serialize_uvarint_inv 64 sg v s1 width_pos Hsg E) as [Hw _].
  unfold serialize_uvarint in E. unfold is_v1_tx.
  destruct (read_varint 64 sg) as [[n w] r] eqn:Er. destruct (Z.leb_spec 0 n) as [Hn|]; [|done]. injection E as <- <-.
  destruct sg as [|b sg]; [by injection Er as <- <- <-|].
  destruct (read_loop_code _ _ _ _ _ _ _ _ Er) as [|[_ Hlt]]; [lia|]. specialize (Hlt ltac:(done)).
  rewrite (proj2 (Z.leb_gt _ _)) by lia. f_equal. apply bool_eq_iff. unfold in_width in Hw. lia.
Qed.

Lemma expand_base t0 t tb0 :
  expand_transaction_1 scalarmult_inv_eight t0 false = Some t ->
  tx_prefix tb0 = tx_prefix t0 -> rct_base (rct_signatures tb0) = rct_base (rct_signatures t0) ->
  exists tb, expand_transaction_1 scalarmult_inv_eight tb0 true = Some tb
    /\ tx_prefix tb = tx_prefix t /\ rct_base (rct_signatures tb) = rct_base (rct_signatures t).
Proof.
  intros E Ep Eb. unfold expand_transaction_1 in *. rewrite Ep, Eb.
  destruct (_ && _); [|injection E as <-; by exists tb0].
  destruct (_ =? RCTTypeNull); [injection E as <-; by exists tb0|]. destruct (negb _); [done|].
  destruct (fill_dest _ _) as [ks|] eqn:Ek; [|done]. cbn [mbind option_bind] in *.
  exists (set_outPk tb0 ks). split; [done|].
  assert (Hset : forall bp bpp, tx_prefix (set_outPk tb0 ks) = tx_prefix (set_proofs (set_outPk t0 ks) bp bpp)
            /\ rct_base (rct_signatures (set_outPk tb0 ks)) = rct_base (rct_signatures (set_proofs (set_outPk t0 ks) bp bpp))).
  { intros bp bpp. cbn. by rewrite Ep, Eb. }
  destruct (is_rct_bulletproof_plus _).
  { repeat case_match; try done. apply bind_Some in E as (v & _ & [= <-]). apply Hset. }
  destruct (is_rct_bulletproof _).
  { repeat case_match; try done. apply bind_Some in E as (v & _ & [= <-]). apply Hset. }
  injection E as <-. apply (Hset [] []).
Qed.
End ParseLemmas.

(** ** The two parts of a text *)

Definition base_of (r : rctSig) : rctSig := {| rct_base := rct_base r; rct_prunable := null_rctSigPrunable |}.

Lemma tail_split q sigs r :
  ok (tail_codec false q) (sigs, r) ->
  ok (base_tail_codec q) ([], base_of r)
  /\ exists x, put (tail_codec false q) (sigs, r) = put (base_tail_codec q) ([], base_of r) ++ x.
Proof.
  unfold tail_codec, base_tail_codec, base_of. destruct (_ =? 1).
  - intros [Hsigs Hr]. cbn [ok const_codec fst snd] in Hr. subst r. split; [done|]. by eexists.
  - intros [Hsigs ([b x] & [= <- <-] & _ & Hr)]. cbn [ok const_codec fst snd] in Hsigs. subst sigs.
    cbn [put pair_codec dep_codec const_codec rct_codec map_codec fst snd rct_base rct_prunable app].
    case_bool_decide as Hv.
    + cbn [ok const_codec] in Hr. injection Hr as Eb Ex. split; [|by exists []]. split; [done|].
      exists (null_rctSigBase, null_rctSigPrunable). by rewrite Eb, bool_decide_eq_true_2 by done.
    + destruct Hr as [Hb Hx]. cbn [fst snd] in Hb, Hx. split.
      2: { cbn [put dep_codec fst snd orb]. change (put (const_codec null_rctSigPrunable) null_rctSigPrunable) with (@nil Z).
           rewrite app_nil_r. by eexists. }
      split; [done|]. exists (rct_base r, null_rctSigPrunable). split; [done|]. split; [done|].
      by rewrite bool_decide_eq_false_2.
Qed.

Lemma base_written q sigs r :
  ok (base_tail_codec q) ([], base_of r) ->
  put (tail_codec true q) ([], base_of r) = put (base_tail_codec q) ([], base_of r)
  /\ saves (tail_codec true q) ([], base_of r) = true
  /\ saves (base_tail_codec q) (sigs, r) = true
  /\ put (base_tail_codec q) (sigs, r) = put (base_tail_codec q) ([], base_of r).
Proof.
  unfold tail_codec, base_tail_codec, base_of. destruct (_ =? 1); [done|].
  intros [_ ([b x] & [= <- <-] & _ & Hr)]. cbn [put saves pair_codec dep_codec rct_codec map_codec const_codec fst snd rct_base rct_prunable].
  case_bool_decide; [done|]. destruct Hr as [Hb _]. cbn [saves put dep_codec fst snd orb].
  pose proof (ok_saves (c := serialize_rctsig_base _ _) _ Hb) as Hs. cbn [fst] in Hs. by rewrite Hs.
Qed.

Lemma serialize_base_get blob q r rest :
  get base_codec blob = Some ((q, ([], r)), rest) ->
  serialize_base blob = Some ({| tx_prefix := q; signatures := []; rct_signatures := r; pruned := true |}, rest).
Proof. intros E. unfold serialize_base. by rewrite (read_bind _ _ _ _ _ E). Qed.

#[global] Instance base_tail_lawful q : Lawful (base_tail_codec q).
Proof. unfold base_tail_codec. destruct (_ =? _); apply _. Qed.
#[global] Instance base_lawful : Lawful base_codec.
Proof. apply dep_lawful; [apply _|]. intros; apply _. Qed.

(** The size is that of the base, whichever way it is found. *)
Lemma split_size t q sigs r :
  tx_prefix t = q -> rct_base (rct_signatures t) = rct_base r -> ok prefix_codec q -> ok (base_tail_codec q) ([], base_of r) ->
  let size := length (put base_codec (q, ([], base_of r))) in
  Z.of_nat size < 2 ^ 32 ->
  unprunable_size t = Z.of_nat size
  \/ unprunable_size t = 0 /\ write base_codec (q, (sigs, r)) = Some (put base_codec (q, ([], base_of r))).
Proof.
  intros Eq Eb Hq Hb size Hl. pose proof (base_written q sigs r Hb) as (_ & _ & Hs & Hp). unfold size in *.
  unfold unprunable_size. rewrite Eq, Eb.
  cbn [put base_codec dep_codec fst snd] in Hl |- *. rewrite length_app in *.
  revert Hb Hs Hp Hl. unfold base_tail_codec. destruct (_ =? 1) eqn:Ev.
  { intros _ _ _. cbn [put const_codec length]. intros Hl. left. rewrite wrap_small by mach. lia. }
  intros [_ ([b x] & [= <- <-] & _ & Hr)].
  cbn [put saves pair_codec dep_codec rct_codec map_codec const_codec fst snd rct_base rct_prunable base_of app].
  case_bool_decide as Hv.
  - intros _ _ _. right. split; [done|]. unfold write.
    cbn [saves put base_codec dep_codec fst snd]. unfold base_tail_codec. rewrite Ev.
    cbn [put saves pair_codec dep_codec rct_codec map_codec const_codec fst snd rct_base rct_prunable base_of app].
    rewrite bool_decide_eq_true_2 by done. by rewrite (ok_saves q Hq).
  - intros _ _. cbn [put dep_codec orb const_codec fst snd]. rewrite app_nil_r. intros Hl. left.
    rewrite wrap_small by mach. lia.
Qed.

Lemma split_blob_at t q sigs r x :
  tx_prefix t = q -> signatures t = sigs -> rct_signatures t = r ->
  ok prefix_codec q -> ok (base_tail_codec q) ([], base_of r) ->
  let pre := put base_codec (q, ([], base_of r)) in
  Z.of_nat (length (pre ++ x)) < 2 ^ 32 -> split_blob t (pre ++ x) = Some (pre, x).
Proof.
  intros Eq Es Er Hq Hb pre Hl. assert (Hp : Z.of_nat (length pre) < 2 ^ 32) by (rewrite length_app in Hl; lia).
  assert (Hcut : (if Z.of_nat (length (pre ++ x)) <? Z.of_nat (length pre) then None
                  else Some (take (Z.to_nat (Z.of_nat (length pre))) (pre ++ x),
                             drop (Z.to_nat (Z.of_nat (length pre))) (pre ++ x))) = Some (pre, x)).
  { rewrite (proj2 (Z.ltb_ge _ _)) by (rewrite length_app; lia).
    by rewrite Nat2Z.id, take_app_length, drop_app_length. }
  unfold split_blob.
  destruct (split_size t q sigs r Eq (f_equal rct_base Er) Hq Hb Hp) as [Hs|[Hs Hw]]; fold pre in Hs.
  - rewrite Hs. destruct (Z.eqb_spec (Z.of_nat (length pre)) 0) as [H0|]; [exfalso|exact Hcut].
    destruct pre eqn:E; [|done]. unfold pre in E. apply app_nil in E as [E _]. by apply (put_nonempty q Hq).
  - rewrite Hs, Eq, Es, Er, Hw. fold pre. cbn [Z.eqb fmap option_fmap option_map mbind option_bind].
    by rewrite wrap_small by mach.
Qed.

Section TxTheorems.
Context (scalarmult_inv_eight : list Z -> option (list Z)).
Notation parse := (parse_and_validate_tx_from_blob scalarmult_inv_eight).
Notation parse_base := (parse_and_validate_tx_base_from_blob scalarmult_inv_eight).

Lemma written_again (blob : list Z) (t : transaction) :
  byte_list blob -> parse blob = Some t ->
  exists blob', tx_to_blob t = Some blob' /\ parse blob' = Some t
    /\ (blob' = blob \/ extra (tx_prefix t) = [] /\ unsigned t /\ cut_short blob' blob).
Proof.
  intros Hb (t0 & E0 & Hf & Hp & He)%parse_tx_inv. destruct (get_inv blob t0 [] Hb E0) as (Hok & _).
  exists (put (transaction_codec false) t0). split; [rewrite (filled_blob t0 t) by done; by apply (write_ok (transaction_codec false))|].
  split.
  - unfold parse_and_validate_tx_from_blob. rewrite (proj2 (parse_all_Some _ _ t0)); [done|].
    rewrite <- (app_nil_r (put _ _)). by apply get_put.
  - destruct (transaction_unless _ _ _ Hb E0) as [Eb|[_ [Ex Hu]]]; [left; by rewrite app_nil_r in Eb|].
    destruct (cut_get blob t0 [] Hb E0) as [Eb|[_ Hc]]; [left; by rewrite app_nil_r in Eb|right].
    destruct (filled_same false t0 t Hf) as (_ & -> & _). split; [done|]. split; [by eapply filled_unsigned|done].
Qed.

Lemma split_parts (blob : list Z) (t : transaction) :
  byte_list blob -> Z.of_nat (length blob) < 2 ^ 32 -> parse blob = Some t -> tx_to_blob t = Some blob ->
  exists pruned_blob prunable_blob tb,
    split_blob t blob = Some (pruned_blob, prunable_blob) /\ pruned_blob ++ prunable_blob = blob
    /\ parse_base pruned_blob = Some tb /\ tx_to_blob tb = Some pruned_blob
    /\ tx_prefix tb = tx_prefix t /\ rct_base (rct_signatures tb) = rct_base (rct_signatures t) /\ pruned tb = true.
Proof.
  intros Hb Hl (t0 & E0 & Hf & Hp & He)%parse_tx_inv Hw. destruct (get_inv blob t0 [] Hb E0) as (Hok & _).
  rewrite (filled_blob t0 t) in Hw by done. rewrite (write_ok (transaction_codec false)) in Hw by done. injection Hw as Hw.
  destruct (filled_same false t0 t Hf) as (_ & Eq & _).
  destruct Hok as ((q & sigs & r) & _ & Et & [Hq Hok]). cbn [fst snd] in Hq, Hok.
  destruct (tail_split q sigs r Hok) as [Hbase [x Hx]].
  destruct (base_written q sigs r Hbase) as (Hput & Hsave & _ & _).
  assert (Eblob : blob = put base_codec (q, ([], base_of r)) ++ x).
  { rewrite <- Hw, <- Et. cbn [put transaction_codec map_codec dep_codec base_codec tx_prefix signatures rct_signatures fst snd].
    by rewrite Hx, app_assoc. }
  set (pre := put base_codec (q, ([], base_of r))) in *.
  pose proof (get_put (c := base_codec) (q, ([], base_of r)) [] (conj Hq Hbase)) as Hg. rewrite app_nil_r in Hg.
  apply serialize_base_get in Hg.
  set (tb0 := {| tx_prefix := q; signatures := []; rct_signatures := base_of r; pruned := true |}) in *.
  destruct (expand_base scalarmult_inv_eight t0 t tb0 He) as (tb & Etb & Eq' & Er); [by rewrite <- Et..|].
  assert (Hfb : filled tb0 tb) by by eapply expand_filled.
  destruct (filled_same true tb0 tb Hfb) as (Hsame & _ & _ & Epr & _).
  exists pre, x, tb. split; [|split; [done|split; [|split; [|by rewrite Epr]]]].
  - rewrite (filled_split t0 t blob Hf), Eblob. rewrite Eblob in Hl.
    apply (split_blob_at t0 q sigs r x); (done || by rewrite <- Et).
  - unfold parse_and_validate_tx_base_from_blob, pre. by rewrite Hg.
  - unfold tx_to_blob. rewrite Epr. cbn [pruned tb0]. rewrite (same_write _ _ _ Hsame). unfold write.
    cbn [saves put transaction_codec map_codec dep_codec tb0 tx_prefix signatures rct_signatures fst snd].
    rewrite (ok_saves q Hq), Hsave, Hput. done.
Qed.

(** A transaction that parsing can produce — every field within the bounds of its type,
    as many signatures, commitments and proofs as the inputs and outputs want, completed
    with destinations and commitments — is never refused by the writer, and the text
    written parses to it. *)
Theorem tx_roundtrip (t0 t : transaction) :
  ok (transaction_codec false) t0 -> expand_transaction_1 scalarmult_inv_eight t0 false = Some t ->
  exists blob, tx_to_blob t = Some blob /\ byte_list blob /\ parse blob = Some t.
Proof.
  intros Hok He. exists (put (transaction_codec false) t0).
  assert (pruned t0 = false) by (by destruct Hok as ((? & ? & ?) & _ & <- & _)).
  split; [rewrite (filled_blob t0 t) by eauto using expand_filled; by apply (write_ok (transaction_codec false))|].
  split; [by apply put_bytes|]. unfold parse_and_validate_tx_from_blob.
  rewrite (proj2 (parse_all_Some _ _ t0)); [done|]. rewrite <- (app_nil_r (put _ _)). by apply get_put.
Qed.

(** C8: A transaction with signatures has one text: what parses is written back to the same
    bytes. The one exception is a text that ends too early, of a transaction without signatures
    and with an empty [extra]: it ends inside a number, or before one, the number is taken for
    what bytes there were, everything after it is 0 or empty, and what is written is that text
    with the number made whole and zeros behind it. It still parses to the same transaction. *)
Theorem tx_canonical (blob : list Z) (t : transaction) :
  byte_list blob -> parse blob = Some t ->
  exists blob', tx_to_blob t = Some blob' /\ parse blob' = Some t
    /\ (blob' = blob \/ extra (tx_prefix t) = [] /\ unsigned t /\ cut_short blob' blob).
Proof. apply written_again. Qed.

(** The three ways of reading a text agree. When the whole of it parses, the reader of
    prefixes and the reader of pruned transactions accept it too and find the same
    inputs, outputs, fee and commitments, and the version read from its first bytes alone
    is right. *)
Theorem readers_agree (blob : list Z) (t : transaction) :
  byte_list blob -> parse blob = Some t ->
  parse_and_validate_tx_prefix_from_blob blob = Some (tx_prefix t)
  /\ is_v1_tx blob = Some (version (tx_prefix t) =? 1)
  /\ exists tb, parse_base blob = Some tb /\ pruned tb = true /\ tx_prefix tb = tx_prefix t
    /\ rct_base (rct_signatures tb) = rct_base (rct_signatures t).
Proof.
  intros Hb (t0 & E0 & Hf & Hp & He)%parse_tx_inv.
  destruct (filled_same false t0 t Hf) as (_ & Eq & _).
  destruct (base_of_whole _ _ _ E0) as (tb0 & rest' & Etb & Eq' & Hpr & Er).
  destruct (expand_base scalarmult_inv_eight t0 t tb0 He Eq' ltac:(by rewrite Er)) as (tb & Eb & Hq & Hr).
  apply map_inv in E0 as ((q & sigs & r) & Et & (s1 & E1 & _)%dep_inv).
  assert (Hq0 : tx_prefix t0 = q) by (by rewrite <- Et). rewrite Eq, Hq0.
  split; [unfold parse_and_validate_tx_prefix_from_blob; by rewrite E1|].
  split; [by eapply version_of_prefix|].
  exists tb. unfold parse_and_validate_tx_base_from_blob. rewrite Etb. split; [done|].
  destruct (filled_same false tb0 tb ltac:(by eapply expand_filled)) as (_ & _ & _ & -> & _).
  split; [done|]. by rewrite Hq, Eq.
Qed.

(** The database cuts the text of a transaction so that nothing is lost and the part
    that stays can be used alone: put together the two parts are the text, and the first
    of them parses as a pruned transaction with the inputs, outputs, fee and commitments
    of the whole, which is written back as this part. *)
Theorem split_blob_sound (blob : list Z) (t : transaction) :
  byte_list blob -> Z.of_nat (length blob) < 2 ^ 32 -> parse blob = Some t -> tx_to_blob t = Some blob ->
  exists pruned_blob prunable_blob tb,
    split_blob t blob = Some (pruned_blob, prunable_blob) /\ pruned_blob ++ prunable_blob = blob
    /\ parse_base pruned_blob = Some tb /\ tx_to_blob tb = Some pruned_blob
    /\ tx_prefix tb = tx_prefix t /\ rct_base (rct_signatures tb) = rct_base (rct_signatures t) /\ pruned tb = true.
Proof. apply split_parts. Qed.
End TxTheorems.

(** A block has one text. What parses has at most 2^28 transactions and is written
    back, to the same bytes unless it lists no transaction at all: then the length of the
    empty list can be missing at the end of the text. What is written parses to the same
    block. *)
Theorem block_canonical (blob : list Z) (b : block) :
  byte_list blob -> parse_and_validate_block_from_blob blob = Some b ->
  exists blob', block_to_blob b = Some blob' /\ parse_and_validate_block_from_blob blob' = Some b
    /\ Z.of_nat (length (tx_hashes b)) <= CRYPTONOTE_MAX_TX_PER_BLOCK
    /\ (blob' = blob \/ tx_hashes b = []).
Proof.
  intros Hb E%parse_all_Some. destruct (get_inv blob b [] Hb E) as (Hok & _).
  exists (put block_codec b). split; [by apply (write_ok block_codec)|].
  split; [apply parse_all_Some; rewrite <- (app_nil_r (put _ _)); by apply get_put|].
  split.
  - destruct Hok as ((h & t & x) & _ & <- & _ & _ & _ & Hx). cbn [tx_hashes fst snd] in *.
    by apply negb_true_iff, Z.ltb_ge in Hx.
  - destruct (block_unless _ _ _ Hb E) as [->|[_ ?]]; [left; by rewrite app_nil_r|by right].
Qed.

(** ** Samples *)

Definition key_of (b : Z) : list Z := replicate 32 b.

(** Two outputs, one input with a ring of two, a range proof of two amounts *)
Definition sample_tx : transaction :=
  {| tx_prefix := {| version := 2; unlock_time := 0; vin := [txin_to_key 0 [5; 300] (key_of 1)];
                     vout := [{| out_amount := 0; target := txout_to_key (key_of 2) |};
                              {| out_amount := 0; target := txout_to_tagged_key (key_of 3) [4] |}];
                     extra := [1; 2] |};
     signatures := []; pruned := false;
     rct_signatures :=
       {| rct_base := {| type := RCTTypeBulletproofPlus; txnFee := 7; pseudoOuts := [];
                         ecdhInfo := replicate 2 {| ecdh_mask := null_key; amount := replicate 8 5 ++ replicate 24 0 |};
                         outPk := replicate 2 {| dest := null_key; mask := key_of 6 |} |};
          rct_prunable := {| rangeSigs := []; bulletproofs := [];
            bulletproofs_plus :=
              [{| bpp_V := []; bpp_A := key_of 7; bpp_A1 := key_of 8; bpp_B := key_of 9; bpp_r1 := key_of 10;
                  bpp_s1 := key_of 11; bpp_d1 := key_of 12; bpp_L := replicate 7 (key_of 13);
                  bpp_R := replicate 7 (key_of 14) |}];
            MGs := []; CLSAGs := [{| clsag_s := replicate 2 (key_of 15); clsag_c1 := key_of 16; clsag_D := key_of 17 |}];
            p_pseudoOuts := [key_of 18] |} |} |}.
Definition sample_blob : list Z := put (transaction_codec false) sample_tx.
Definition sample_parsed : transaction :=
  default sample_tx (expand_transaction_1 Some sample_tx false).

Lemma sample_get : get (transaction_codec false) sample_blob = Some (sample_tx, []).
Proof. by vm_compute. Qed.

Lemma sample_bytes : byte_list sample_blob.
Proof. by_decide. Qed.

Lemma sample_tx_ok : ok (transaction_codec false) sample_tx.
Proof. by destruct (get_inv sample_blob sample_tx [] sample_bytes sample_get). Qed.

Lemma sample_tx_parse : parse_and_validate_tx_from_blob Some sample_blob = Some sample_parsed.
Proof. by vm_compute. Qed.

Lemma sample_expand : expand_transaction_1 Some sample_tx false = Some sample_parsed.
Proof. by vm_compute. Qed.

Lemma sample_written : tx_to_blob sample_parsed = Some sample_blob.
Proof. by vm_compute. Qed.

(** A transaction cut after its version, and a block without the length of its list *)
Example cut_texts :
  parse_and_validate_tx_from_blob Some [1]
    = Some {| tx_prefix := {| version := 1; unlock_time := 0; vin := []; vout := []; extra := [] |};
              signatures := []; rct_signatures := null_rctSig; pruned := false |}
  /\ parse_and_validate_block_from_blob ([1; 2; 3] ++ replicate 32 4 ++ [5; 0; 0; 0] ++ [1; 0; 1; 255; 9; 0; 0])
     = parse_and_validate_block_from_blob ([1; 2; 3] ++ replicate 32 4 ++ [5; 0; 0; 0] ++ [1; 0; 1; 255; 9; 0; 0; 0])
  /\ is_Some (parse_and_validate_block_from_blob ([1; 2; 3] ++ replicate 32 4 ++ [5; 0; 0; 0] ++ [1; 0; 1; 255; 9; 0; 0])).
Proof. vm_compute. split_and!; [done..|]. by eexists. Qed.

Lemma tx_roundtrip_witness :
  exists blob, tx_to_blob sample_parsed = Some blob /\ byte_list blob
    /\ parse_and_validate_tx_from_blob Some blob = Some sample_parsed.
Proof. exact (tx_roundtrip Some sample_tx sample_parsed sample_tx_ok sample_expand). Defined.

Lemma tx_canonical_witness :
  exists blob', tx_to_blob sample_parsed = Some blob' /\ parse_and_validate_tx_from_blob Some blob' = Some sample_parsed
    /\ (blob' = sample_blob \/ extra (tx_prefix sample_parsed) = [] /\ unsigned sample_parsed /\ cut_short blob' sample_blob).
Proof. exact (tx_canonical Some sample_blob sample_parsed sample_bytes sample_tx_parse). Defined.

Lemma readers_agree_witness :
  parse_and_validate_tx_prefix_from_blob sample_blob = Some (tx_prefix sample_parsed)
  /\ is_v1_tx sample_blob = Some (version (tx_prefix sample_parsed) =? 1)
  /\ exists tb, parse_and_validate_tx_base_from_blob Some sample_blob = Some tb /\ pruned tb = true
    /\ tx_prefix tb = tx_prefix sample_parsed
    /\ rct_base (rct_signatures tb) = rct_base (rct_signatures sample_parsed).
Proof. exact (readers_agree Some sample_blob sample_parsed sample_bytes sample_tx_parse). Defined.

Lemma sample_length : Z.of_nat (length sample_blob) < 2 ^ 32.
Proof. by vm_compute. Qed.

Lemma split_blob_sound_witness :
  exists pruned_blob prunable_blob tb,
    split_blob sample_parsed sample_blob = Some (pruned_blob, prunable_blob)
    /\ pruned_blob ++ prunable_blob = sample_blob
    /\ parse_and_validate_tx_base_from_blob Some pruned_blob = Some tb /\ tx_to_blob tb = Some pruned_blob
    /\ tx_prefix tb = tx_prefix sample_parsed
    /\ rct_base (rct_signatures tb) = rct_base (rct_signatures sample_parsed) /\ pruned tb = true.
Proof.
  exact (split_blob_sound Some sample_blob sample_parsed sample_bytes sample_length sample_tx_parse sample_written).
Defined.

Definition sample_block_blob : list Z :=
  [1; 2; 3] ++ replicate 32 4 ++ [5; 0; 0; 0] ++ [1; 0; 1; 255; 9; 0; 0; 1] ++ replicate 32 6.
Definition sample_block : block :=
  {| header := {| major_version := 1; minor_version := 2; timestamp := 3; prev_id := key_of 4; nonce := 5 |};
     miner_tx := {| tx_prefix := {| version := 1; unlock_time := 0; vin := [txin_gen 9]; vout := []; extra := [] |};
                    signatures := [[]]; rct_signatures := null_rctSig; pruned := false |};
     tx_hashes := [key_of 6] |}.

Lemma block_canonical_witness :
  exists blob', block_to_blob sample_block = Some blob' /\ parse_and_validate_block_from_blob blob' = Some sample_block
    /\ Z.of_nat (length (tx_hashes sample_block)) <= CRYPTONOTE_MAX_TX_PER_BLOCK
    /\ (blob' = sample_block_blob \/ tx_hashes sample_block = []).
Proof.
  apply (block_canonical sample_block_blob sample_block); [by_decide|vm_compute; reflexivity].
Defined.
