(* ===== verification/Identifiers.v ===== *)
(** * Identifiers of transactions and blocks: cryptonote_format_utils.cpp

    The identifier of a transaction of version 2 is the hash of three hashes, of its prefix,
    of the rest that is kept and of what pruning drops, so that a pruned node can still
    compute it; that of a block is the hash of its header and the root of the tree of its
    transactions. [cn_fast_hash] is a parameter that returns 32 bytes. Caches of
    identifiers are left out. *)

From S2P Require Import Prelude IntUtil Radix Varint Serialization RingCt Transactions Hex TreeHash.

Definition null_hash : list Z := replicate 32 0.

Section Identifiers.
Context (cn_fast_hash : list Z -> list Z).

Definition get_blob_hash (blob : list Z) : list Z := cn_fast_hash blob.

Definition get_transaction_prefix_hash (q : transaction_prefix) : list Z := cn_fast_hash (put prefix_codec q).

(** [None] is the result [false]. *)
Definition calculate_transaction_prunable_hash (t : transaction) (blob : option (list Z)) : option (list Z) :=
  let q := tx_prefix t in
  if version q =? 1 then None
  else
    match blob with
    | Some blob =>
      if negb (unprunable_size t =? 0) then
        if negb (unprunable_size t <=? Z.of_nat (length blob)) then None
        else Some (get_blob_hash (drop (Z.to_nat (unprunable_size t)) blob))
      else
        get_blob_hash <$> write (serialize_rctsig_prunable (type (rct_base (rct_signatures t)))
          (length (vin q)) (length (vout q)) (mixin (vin q))) (rct_prunable (rct_signatures t))
    | None =>
        get_blob_hash <$> write (serialize_rctsig_prunable (type (rct_base (rct_signatures t)))
          (length (vin q)) (length (vout q)) (mixin (vin q))) (rct_prunable (rct_signatures t))
    end.

Definition get_pruned_transaction_hash (t : transaction) (pruned_data_hash : list Z) : option (list Z) :=
  let q := tx_prefix t in
  if negb (1 <? version q) then None
  else
    let h0 := get_transaction_prefix_hash q in
    base ← write (serialize_rctsig_base (length (vin q)) (length (vout q))) (rct_base (rct_signatures t));
    let h1 := get_blob_hash base in
    let h2 := if type (rct_base (rct_signatures t)) =? RCTTypeNull then null_hash else pruned_data_hash in
    Some (cn_fast_hash (h0 ++ h1 ++ h2)).

(** The member [prefix_size] of 32 bits *)
Definition prefix_size (t : transaction) : Z := u32 (Z.of_nat (length (put prefix_codec (tx_prefix t)))).

(** [None] is the result [false]; a transaction the writer refuses is left out. *)
Definition calculate_transaction_hash (t : transaction) : option (list Z) :=
  if pruned t then None
  else if version (tx_prefix t) =? 1 then get_blob_hash <$> tx_to_blob t
  else
    let h0 := get_transaction_prefix_hash (tx_prefix t) in
    blob ← tx_to_blob t;
    if negb ((prefix_size t <=? unprunable_size t) && (unprunable_size t <=? Z.of_nat (length blob))) then None
    else
      let h1 := get_blob_hash (take (Z.to_nat (unprunable_size t - prefix_size t)) (drop (Z.to_nat (prefix_size t)) blob)) in
      h2 ← (if type (rct_base (rct_signatures t)) =? RCTTypeNull then Some null_hash
            else calculate_transaction_prunable_hash t (Some blob));
      Some (cn_fast_hash (h0 ++ h1 ++ h2)).

(** Two hashes side by side *)
Definition node (a b : list Z) : list Z := cn_fast_hash (a ++ b).

Definition get_tx_tree_hash (b : block) : option (list Z) :=
  h ← calculate_transaction_hash (miner_tx b); tree_hash node null_hash (h :: tx_hashes b).

Definition get_block_hashing_blob (b : block) : option (list Z) :=
  tree_root_hash ← get_tx_tree_hash b;
  Some (put header_codec (header b) ++ tree_root_hash
        ++ get_varint_data (u64 (Z.of_nat (length (tx_hashes b)) + 1))).

Definition correct_blob_hash_202612 : list Z :=
  str_bytes "3a8a2b3a29b50fc86ff73dd087ea43c6f0d6b8f936c849194d5c84c737903966".
Definition existing_block_id_202612 : list Z :=
  str_bytes "bbd604d2ba11ba27935e006ed39c9bfdd99b76bf4a50654bc1e1e61217962698".

Definition ordinary_block (b : block) : bool :=
  match vin (tx_prefix (miner_tx b)) with [txin_gen height] => negb (height =? 202612) | _ => false end.

(** [blob] is the text of the block. *)
Definition calculate_block_hash (b : block) (blob : list Z) : option (list Z) :=
  hashing_blob ← get_block_hashing_blob b;
  let res := cn_fast_hash (write_string hashing_blob) in
  if ordinary_block b then Some res
  else if bool_decide (to_hex_string (get_blob_hash blob) = correct_blob_hash_202612)
  then from_hex_to_buffer 32 existing_block_id_202612
  else if bool_decide (to_hex_string res = existing_block_id_202612) then None
  else Some res.

End Identifiers.

(** ** The parts of a text *)

Lemma put_inj {A} (c : codec A) `{!Lawful c} a b : ok c a -> ok c b -> put c a = put c b -> a = b.
Proof.
  intros Ha Hb E. pose proof (get_put (c := c) a [] Ha) as Ga. rewrite E, (get_put (c := c) b [] Hb) in Ga. congruence.
Qed.

Section Parts.
Context (scalarmult_inv_eight : list Z -> option (list Z)).

(** The text of a transaction of version 2 with inputs: its prefix, the base of its
    signatures, and the rest *)
Lemma v2_parts blob t :
  byte_list blob -> Z.of_nat (length blob) < 2 ^ 32 ->
  parse_and_validate_tx_from_blob scalarmult_inv_eight blob = Some t ->
  version (tx_prefix t) <> 1 -> vin (tx_prefix t) <> [] ->
  let P := put prefix_codec (tx_prefix t) in
  let bc := serialize_rctsig_base (length (vin (tx_prefix t))) (length (vout (tx_prefix t))) in
  let pc := fun b => serialize_rctsig_prunable (type b) (length (vin (tx_prefix t))) (length (vout (tx_prefix t)))
                       (mixin (vin (tx_prefix t))) in
  exists t0 x, let b := rct_base (rct_signatures t0) in
    ok prefix_codec (tx_prefix t) /\ ok bc b /\ same_saved bc (rct_base (rct_signatures t)) b
    /\ type (rct_base (rct_signatures t)) = type b /\ blob = P ++ put bc b ++ x
    /\ (type b = RCTTypeNull -> x = [])
    /\ (type b <> RCTTypeNull -> ok (pc b) (rct_prunable (rct_signatures t0)) /\ x = put (pc b) (rct_prunable (rct_signatures t0)))
    /\ tx_to_blob t = Some blob /\ pruned t = false
    /\ unprunable_size t = Z.of_nat (length P + length (put bc b))
    /\ tx_prefix t0 = tx_prefix t /\ expand_transaction_1 scalarmult_inv_eight t0 false = Some t
    /\ split_blob t blob = Some (P ++ put bc b, x).
Proof.
  intros Hb Hl (t0 & E0 & Hf & Hp & He)%parse_tx_inv Hv Hi P bc pc.
  destruct (get_inv blob t0 [] Hb E0) as (Hok & _).
  destruct (filled_same false t0 t Hf) as (_ & Eq & _ & Hpr & Hty).
  assert (Hsb : same_saved bc (rct_base (rct_signatures t)) (rct_base (rct_signatures t0))).
  { destruct Hf as [|ks bp bpp Hk _ _]; [done|]. by apply filled_base_same. }
  assert (Hw : tx_to_blob t = Some (put (transaction_codec false) t0)).
  { rewrite (filled_blob t0 t) by done. by apply (write_ok (transaction_codec false)). }
  assert (Hu : ~ unsigned t0).
  { unfold unsigned, tail_codec. rewrite <- Eq, (proj2 (Z.eqb_neq _ _) Hv).
    cbn [put pair_codec dep_codec const_codec rct_codec map_codec fst snd app].
    rewrite bool_decide_eq_false_2 by done. cbn [put dep_codec fst snd]. intros [E _]%app_nil.
    destruct Hok as ((q & sigs & r) & [= <- <- <-] & _ & [_ Ht]). cbn [fst snd] in Ht. revert Ht.
    unfold tail_codec. rewrite <- Eq, (proj2 (Z.eqb_neq _ _) Hv). intros [_ ([b x] & [= <- <-] & _ & Ht)].
    rewrite bool_decide_eq_false_2 in Ht by done. destruct Ht as [Hbase _]. revert E. by apply put_nonempty. }
  assert (Ebl : blob = put (transaction_codec false) t0).
  { destruct (transaction_unless _ _ _ Hb E0) as [->|[_ [_ ?]]]; [by rewrite app_nil_r|done]. }
  rewrite <- Ebl in Hw. destruct Hok as ((q & sigs & r) & [= Eq0 _ Er] & _ & [Hq Ht]). cbn [fst snd] in Hq, Ht.
  rewrite <- Eq0, <- Er, <- Eq in *. clear Eq0 Er q r.
  revert Ht Ebl. cbn [put transaction_codec map_codec dep_codec fst snd]. unfold tail_codec.
  rewrite <- Eq, (proj2 (Z.eqb_neq _ _) Hv). intros [_ ([b x] & [= <- <-] & _ & Ht)].
  cbn [put pair_codec dep_codec const_codec rct_codec map_codec fst snd app].
  rewrite bool_decide_eq_false_2 in Ht |- * by done. destruct Ht as [Hbase Hx]. cbn [put dep_codec fst snd orb] in *.
  fold P bc. fold (pc (rct_base (rct_signatures t0))) in Hx |- *. intros Ebl. eexists t0, _. cbv zeta. do 5 (split; [done|]).
  split; [by intros ->|]. split.
  { intros Hn. by rewrite (proj2 (Z.eqb_neq _ _) Hn) in Hx |- *. }
  split; [done|]. split; [by rewrite Hpr|].
  assert (Hu' : unprunable_size t = Z.of_nat (length P + length (put bc (rct_base (rct_signatures t0))))).
  { unfold unprunable_size. rewrite (proj2 (Z.eqb_neq _ _) Hv), bool_decide_eq_false_2 by done.
    fold P bc. rewrite (proj2 Hsb). apply wrap_small.
    assert (length P + length (put bc (rct_base (rct_signatures t0))) <= length blob)%nat; [|mach].
    rewrite Ebl, !length_app. lia. }
  split; [done|]. split; [done|]. split; [done|].
  unfold split_blob. rewrite Hu', (proj2 (Z.eqb_neq _ _)); [cbn [mbind option_bind]|].
  - rewrite (proj2 (Z.ltb_ge _ _)) by (rewrite Ebl, !length_app; lia). rewrite Nat2Z.id. rewrite Ebl at 1 2.
    by rewrite app_assoc, <- length_app, take_app_length, drop_app_length.
  - enough (length P <> 0)%nat by lia. intros E%nil_length_inv. revert E. by apply put_nonempty.
Qed.
End Parts.

Section Ids.
Context (cn_fast_hash : list Z -> list Z) (hash_size : forall x, length (cn_fast_hash x) = 32%nat).
Context (scalarmult_inv_eight : list Z -> option (list Z)).
Notation parse := (parse_and_validate_tx_from_blob scalarmult_inv_eight).
Notation tx_id := (calculate_transaction_hash cn_fast_hash).

(** Two texts with one hash *)
Definition hash_collision : Prop := exists x y, x <> y /\ cn_fast_hash x = cn_fast_hash y.

Lemma hash_binds x y : cn_fast_hash x = cn_fast_hash y -> x = y \/ hash_collision.
Proof. intros E. destruct (decide (x = y)); [by left|right]. by exists x, y. Qed.

(** An identifier of version 2, by the parts of the text *)
Lemma v2_id blob t :
  byte_list blob -> Z.of_nat (length blob) < 2 ^ 32 -> parse blob = Some t ->
  version (tx_prefix t) <> 1 -> vin (tx_prefix t) <> [] ->
  let P := put prefix_codec (tx_prefix t) in
  let bc := serialize_rctsig_base (length (vin (tx_prefix t))) (length (vout (tx_prefix t))) in
  exists b x, ok prefix_codec (tx_prefix t) /\ ok bc b /\ write bc (rct_base (rct_signatures t)) = Some (put bc b)
    /\ type (rct_base (rct_signatures t)) = type b /\ blob = P ++ put bc b ++ x
    /\ split_blob t blob = Some (P ++ put bc b, x) /\ (type b = RCTTypeNull -> x = [])
    /\ tx_id t = Some (cn_fast_hash (cn_fast_hash P ++ cn_fast_hash (put bc b)
                          ++ (if type b =? RCTTypeNull then null_hash else cn_fast_hash x))).
Proof.
  intros Hb Hl Hp Hv Hi P bc.
  destruct (v2_parts _ blob t Hb Hl Hp Hv Hi) as (t0 & x & Hq & Hbase & Hsb & Hty & Ebl & Hx & _ & Hw & Hpr & Hu & _ & _ & Hsplit).
  set (b := rct_base (rct_signatures t0)) in *.
  fold P bc in Hbase, Hsb, Ebl, Hu.
  assert (Hlen : Z.of_nat (length P) + Z.of_nat (length (put bc b)) <= Z.of_nat (length blob))
    by (rewrite Ebl, !length_app; lia).
  assert (HP : (1 <= length P)%nat).
  { unfold P. destruct (put prefix_codec _) eqn:E; [by apply put_nonempty in E|cbn; lia]. }
  assert (Hps : prefix_size t = Z.of_nat (length P)) by (unfold prefix_size; fold P; apply wrap_small; mach).
  exists b, x. do 2 (split; [done|]). split; [rewrite (same_write _ _ _ Hsb); by apply (write_ok bc)|].
  do 2 (split; [done|]).
  assert (Ecut : take (length P + length (put bc b)) blob = P ++ put bc b
                 /\ drop (length P + length (put bc b)) blob = x).
  { rewrite Ebl, app_assoc, <- length_app. by rewrite take_app_length, drop_app_length. }
  destruct Ecut as [Et Ed].
  assert (Em : take (length (put bc b)) (drop (length P) blob) = put bc b)
    by (by rewrite Ebl, drop_app_length, take_app_length).
  split; [|split; [done|]].
  - exact Hsplit.
  - unfold calculate_transaction_hash. rewrite Hpr, (proj2 (Z.eqb_neq _ _) Hv), Hw. cbn [mbind option_bind].
    rewrite Hps, Hu. rewrite !(proj2 (Z.leb_le _ _)) by lia. cbn [andb negb].
    replace (Z.of_nat (length P + length (put bc b)) - Z.of_nat (length P)) with (Z.of_nat (length (put bc b))) by lia.
    rewrite !Nat2Z.id, Em, Hty.
    destruct (type b =? RCTTypeNull); [done|].
    unfold calculate_transaction_prunable_hash. rewrite (proj2 (Z.eqb_neq _ _) Hv), Hu.
    rewrite (proj2 (Z.eqb_neq _ _)), (proj2 (Z.leb_le _ _)) by lia. cbn [negb]. by rewrite Nat2Z.id, Ed.
Qed.

(** An identifier of version 1 is the hash of the text written. *)
Lemma v1_id blob t id :
  byte_list blob -> parse blob = Some t -> version (tx_prefix t) = 1 -> tx_id t = Some id ->
  exists w, tx_to_blob t = Some w /\ parse w = Some t /\ id = cn_fast_hash w.
Proof.
  intros Hb Hp Hv. destruct (written_again _ blob t Hb Hp) as (w & Hw & Hpw & _).
  unfold calculate_transaction_hash. destruct (pruned t); [done|]. rewrite Hv, Hw. intros [= <-]. by exists w.
Qed.

(** Pruning keeps identifiers. For a transaction of version 2 with inputs, the
    identifier a full node computes from the whole text is the one a pruned node
    computes from the part it kept and the hash of the part it dropped. *)
Theorem pruned_id (blob : list Z) (t : transaction) :
  byte_list blob -> Z.of_nat (length blob) < 2 ^ 32 -> parse blob = Some t ->
  version (tx_prefix t) = 2 -> vin (tx_prefix t) <> [] ->
  exists pruned_blob prunable_blob tb id,
    split_blob t blob = Some (pruned_blob, prunable_blob)
    /\ parse_and_validate_tx_base_from_blob scalarmult_inv_eight pruned_blob = Some tb
    /\ tx_id t = Some id
    /\ get_pruned_transaction_hash cn_fast_hash tb (get_blob_hash cn_fast_hash prunable_blob) = Some id.
Proof.
  intros Hb Hl Hp Hv Hi. assert (Hv1 : version (tx_prefix t) <> 1) by (by rewrite Hv).
  destruct (v2_parts _ blob t Hb Hl Hp Hv1 Hi) as (t0 & x0 & _ & _ & _ & _ & _ & _ & _ & Hw & _).
  destruct (v2_id blob t Hb Hl Hp Hv1 Hi) as (b & x & _ & _ & Hwb & Hty & _ & Hs' & _ & Hid).
  destruct (split_parts _ blob t Hb Hl Hp Hw) as (pre & y & tb & Hs & _ & Etb & _ & Eq & Er & _).
  rewrite Hs in Hs'. injection Hs' as -> ->. eexists _, _, tb, _. split; [done|]. split; [done|]. split; [exact Hid|].
  unfold get_pruned_transaction_hash. rewrite Eq, Er, Hv, Hwb, Hty. done.
Qed.

(** C13: the identifier binds the transaction. Two texts that parse to transactions of one
    version with one identifier parse to the same transaction, or they show two texts
    with one hash. *)
Theorem tx_id_binds (blob1 blob2 id : list Z) (t1 t2 : transaction) :
  byte_list blob1 -> byte_list blob2 ->
  Z.of_nat (length blob1) < 2 ^ 32 -> Z.of_nat (length blob2) < 2 ^ 32 ->
  parse blob1 = Some t1 -> parse blob2 = Some t2 ->
  version (tx_prefix t1) = version (tx_prefix t2) -> vin (tx_prefix t1) <> [] -> vin (tx_prefix t2) <> [] ->
  tx_id t1 = Some id -> tx_id t2 = Some id -> t1 = t2 \/ hash_collision.
Proof.
  intros Hb1 Hb2 Hl1 Hl2 Hp1 Hp2 Hv Hi1 Hi2 Hid1 Hid2.
  destruct (decide (version (tx_prefix t1) = 1)) as [H1|H1].
  - apply (v1_id blob1) in Hid1 as (w1 & _ & Hw1 & ->); [|done..].
    apply (v1_id blob2) in Hid2 as (w2 & _ & Hw2 & E); [|congruence..].
    apply hash_binds in E as [->|]; [left|by right]. congruence.
  - destruct (v2_id blob1 t1 Hb1 Hl1 Hp1 H1 Hi1) as (b1 & x1 & Hq1 & Hok1 & _ & _ & E1 & _ & Hx1 & E).
    destruct (v2_id blob2 t2 Hb2 Hl2 Hp2 ltac:(congruence) Hi2) as (b2 & x2 & Hq2 & Hok2 & _ & _ & E2 & _ & Hx2 & E').
    rewrite Hid1 in E. rewrite Hid2 in E'. rewrite E in E'. injection E' as E'.
    apply hash_binds in E' as [E'|]; [|by right].
    apply app_inj_1 in E' as [EP E']; [|by rewrite !hash_size]. apply app_inj_1 in E' as [EB EX]; [|by rewrite !hash_size].
    apply hash_binds in EP as [EP|]; [|by right]. apply hash_binds in EB as [EB|]; [|by right].
    apply (put_inj prefix_codec) in EP; [|done..]. rewrite EP in *. pose proof (put_inj _ _ _ Hok1 Hok2 EB) as <-.
    destruct (Z.eqb_spec (type b1) RCTTypeNull) as [Hn|Hn].
    + left. rewrite (Hx1 Hn) in E1. rewrite (Hx2 Hn) in E2. congruence.
    + apply hash_binds in EX as [->|]; [left|by right]. congruence.
Qed.

Lemma tx_id_size t id : tx_id t = Some id -> length id = 32%nat.
Proof.
  unfold calculate_transaction_hash. destruct (pruned t); [done|]. destruct (_ =? 1).
  { destruct (tx_to_blob t); intros [= <-]. apply hash_size. }
  destruct (tx_to_blob t) as [blob|]; [|done]. cbn [mbind option_bind]. destruct (negb _); [done|].
  intros (h2 & _ & [= <-])%bind_Some. apply hash_size.
Qed.

Lemma node_collision : collision (node cn_fast_hash) (fun h => length h = 32%nat) -> hash_collision.
Proof.
  intros (a & b & c & d & (Ha & Hb & Hc & Hd) & Hne & E). exists (a ++ b), (c ++ d). split; [|exact E].
  intros E'. apply app_inj_1 in E' as [-> ->]; [done|congruence].
Qed.

(** The root binds the identifiers of the transactions. *)
Lemma tree_binds b1 b2 root :
  Forall (fun h => length h = 32%nat) (tx_hashes b1) -> Forall (fun h => length h = 32%nat) (tx_hashes b2) ->
  length (tx_hashes b1) = length (tx_hashes b2) -> Z.of_nat (length (tx_hashes b1)) < 2 ^ 28 ->
  get_tx_tree_hash cn_fast_hash b1 = Some root -> get_tx_tree_hash cn_fast_hash b2 = Some root ->
  (tx_id (miner_tx b1) = tx_id (miner_tx b2) /\ tx_hashes b1 = tx_hashes b2) \/ hash_collision.
Proof.
  intros H1 H2 Hl Hm (h1 & E1 & T1)%bind_Some (h2 & E2 & T2)%bind_Some.
  destruct (tree_hash_binds (node cn_fast_hash) null_hash (fun h => length h = 32%nat)
    (fun a b => hash_size _) eq_refl (h1 :: tx_hashes b1) (h2 :: tx_hashes b2) root) as [[= -> ->]|Hc];
    [constructor; [by eapply tx_id_size|done]|constructor; [by eapply tx_id_size|done]|cbn; lia|cbn [length]; lia|done|done|..].
  - left. by rewrite E1, E2.
  - right. by apply node_collision.
Qed.

Lemma tree_root_size b root :
  Forall (fun h => length h = 32%nat) (tx_hashes b) -> get_tx_tree_hash cn_fast_hash b = Some root -> length root = 32%nat.
Proof.
  intros Hh (h & E & T)%bind_Some. pose proof (tx_id_size _ _ E). unfold tree_hash in T.
  destruct (tx_hashes b) as [|x [|y l]]; injection T as <-; [done|apply hash_size..].
Qed.

Lemma varint_prefix_free a b x y :
  0 <= a -> 0 <= b -> write_varint a ++ x = write_varint b ++ y -> a = b /\ x = y.
Proof.
  intros Ha Hb E. assert (Hlt : forall c, 0 <= c <= a + b -> in_width (a + b + 1) c).
  { intros c Hc. split; [lia|]. pose proof (Z.pow_gt_lin_r 2 (a + b + 1) ltac:(lia) ltac:(lia)). lia. }
  pose proof (serialize_uvarint_put (a + b + 1) a x ltac:(lia) (Hlt a ltac:(lia))) as Ga.
  rewrite E, (serialize_uvarint_put (a + b + 1) b y ltac:(lia) (Hlt b ltac:(lia))) in Ga. by injection Ga as -> ->.
Qed.

Lemma block_parts blob b :
  byte_list blob -> parse_and_validate_block_from_blob blob = Some b ->
  ok header_codec (header b) /\ Forall (fun h => length h = 32%nat) (tx_hashes b).
Proof.
  intros Hb E%parse_all_Some. destruct (get_inv blob b [] Hb E) as (((h & t & x) & _ & <- & Hh & _ & [Hx _] & _) & _).
  split; [exact Hh|]. apply (Forall_impl _ _ _ Hx). by intros k [_ ?].
Qed.

Lemma ordinary_id b blob id :
  ordinary_block b = true -> calculate_block_hash cn_fast_hash b blob = Some id ->
  exists root, get_tx_tree_hash cn_fast_hash b = Some root /\
    id = cn_fast_hash (write_string (put header_codec (header b) ++ root
           ++ write_varint (u64 (Z.of_nat (length (tx_hashes b)) + 1)))).
Proof.
  intros Ho (hb & (root & Er & [= <-])%bind_Some & E)%bind_Some. rewrite Ho in E. injection E as <-. by exists root.
Qed.

(** The identifier binds the block. Two blocks with one identifier, whose miner
    transactions are not those of height 202612, have the same header, the same hashes
    of transactions and miner transactions of one identifier, or they show two texts
    with one hash. *)
Theorem block_id_binds (blob1 blob2 id : list Z) (b1 b2 : block) :
  byte_list blob1 -> byte_list blob2 ->
  parse_and_validate_block_from_blob blob1 = Some b1 -> parse_and_validate_block_from_blob blob2 = Some b2 ->
  ordinary_block b1 = true -> ordinary_block b2 = true ->
  Z.of_nat (length (tx_hashes b1)) < 2 ^ 28 -> Z.of_nat (length (tx_hashes b2)) < 2 ^ 28 ->
  calculate_block_hash cn_fast_hash b1 blob1 = Some id -> calculate_block_hash cn_fast_hash b2 blob2 = Some id ->
  (header b1 = header b2 /\ tx_id (miner_tx b1) = tx_id (miner_tx b2) /\ tx_hashes b1 = tx_hashes b2)
  \/ hash_collision.
Proof.
  intros Hb1 Hb2 Hp1 Hp2 Ho1 Ho2 Hl1 Hl2 (r1 & E1 & ->)%ordinary_id (r2 & E2 & E)%ordinary_id; [|done..].
  destruct (block_parts _ _ Hb1 Hp1) as [Hh1 Hx1], (block_parts _ _ Hb2 Hp2) as [Hh2 Hx2].
  apply hash_binds in E as [E|]; [|by right]. apply varint_prefix_free in E as [_ E]; [|lia..].
  pose proof (get_put (c := header_codec) (header b1) (r1 ++ write_varint (u64 (Z.of_nat (length (tx_hashes b1)) + 1))) Hh1) as G.
  rewrite E in G. rewrite (get_put (c := header_codec) (header b2)) in G by done. injection G as Eh Et.
  apply app_inj_1 in Et as [<- En]; [|by rewrite (tree_root_size b1 r1), (tree_root_size b2 r2)].
  rewrite !wrap_small in En by mach. rewrite <- (app_nil_r (write_varint _)), <- (app_nil_r (write_varint (_ (length (tx_hashes b1)) + 1))) in En.
  apply varint_prefix_free in En as [En _]; [|lia..].
  destruct (tree_binds b1 b2 r2 Hx1 Hx2) as [[Em Ex]|]; [lia|done|done|done|left|by right]. by rewrite Eh.
Qed.

End Ids.

(** ** Samples, with the first 32 bytes as a hash *)

Definition sample_hash (x : list Z) : list Z := take 32 (x ++ replicate 32 0).

Lemma sample_hash_size x : length (sample_hash x) = 32%nat.
Proof. unfold sample_hash. rewrite length_take, length_app, length_replicate. lia. Qed.

Definition sample_id : list Z := default [] (calculate_transaction_hash sample_hash sample_parsed).
Definition sample_block_id : list Z := default [] (calculate_block_hash sample_hash sample_block sample_block_blob).

Lemma sample_version : version (tx_prefix sample_parsed) = 2.
Proof. by vm_compute. Qed.
Lemma sample_vin : vin (tx_prefix sample_parsed) <> [].
Proof. by vm_compute. Qed.
Lemma sample_id_eq : calculate_transaction_hash sample_hash sample_parsed = Some sample_id.
Proof. by vm_compute. Qed.
Lemma sample_block_bytes : byte_list sample_block_blob.
Proof. by_decide. Qed.
Lemma sample_block_parse : parse_and_validate_block_from_blob sample_block_blob = Some sample_block.
Proof. by vm_compute. Qed.
Lemma sample_block_id_eq : calculate_block_hash sample_hash sample_block sample_block_blob = Some sample_block_id.
Proof. by vm_compute. Qed.

Lemma pruned_id_witness :
  exists pruned_blob prunable_blob tb id,
    split_blob sample_parsed sample_blob = Some (pruned_blob, prunable_blob)
    /\ parse_and_validate_tx_base_from_blob Some pruned_blob = Some tb
    /\ calculate_transaction_hash sample_hash sample_parsed = Some id
    /\ get_pruned_transaction_hash sample_hash tb (get_blob_hash sample_hash prunable_blob) = Some id.
Proof.
  exact (pruned_id sample_hash Some sample_blob sample_parsed sample_bytes sample_length sample_tx_parse sample_version
           sample_vin).
Defined.

Lemma tx_id_binds_witness : sample_parsed = sample_parsed \/ hash_collision sample_hash.
Proof.
  exact (tx_id_binds sample_hash sample_hash_size Some sample_blob sample_blob sample_id sample_parsed sample_parsed
           sample_bytes sample_bytes sample_length sample_length sample_tx_parse sample_tx_parse eq_refl sample_vin sample_vin
           sample_id_eq sample_id_eq).
Defined.

Lemma block_id_binds_witness :
  (header sample_block = header sample_block
   /\ calculate_transaction_hash sample_hash (miner_tx sample_block)
      = calculate_transaction_hash sample_hash (miner_tx sample_block)
   /\ tx_hashes sample_block = tx_hashes sample_block) \/ hash_collision sample_hash.
Proof.
  exact (block_id_binds sample_hash sample_hash_size sample_block_blob sample_block_blob sample_block_id sample_block
           sample_block sample_block_bytes sample_block_bytes sample_block_parse sample_block_parse eq_refl eq_refl
           eq_refl eq_refl sample_block_id_eq sample_block_id_eq).
Defined.
