(* ===== verification/TxWeight.v ===== *)
(** * Weights of transactions: cryptonote_format_utils.cpp

    What a transaction counts for in a block: the size of its text, and for a range proof
    of more than two outputs part of what the proof saves. A pruned node, which does not
    have the proofs, computes the weight from what they must take. *)

From S2P Require Import Prelude IntUtil Radix Varint Serialization RingCt Transactions Identifiers.

(** [while ((1u << nlr) < n) ++nlr]; 32 rounds take every 32-bit [n]. *)
Fixpoint nlr_loop (fuel : nat) (nlr n : Z) : Z :=
  match fuel with
  | O => nlr
  | S fuel => if Z.shiftl 1 nlr <? n then nlr_loop fuel (nlr + 1) n else nlr
  end.

(** [None] is an exception. *)
Definition get_transaction_weight_clawback (t : transaction) (n_padded_outputs : Z) : option Z :=
  let plus := type (rct_base (rct_signatures t)) =? RCTTypeBulletproofPlus in
  let bp_base := (32 * ((if plus then 6 else 9) + 7 * 2)) / 2 in
  let n_outputs := Z.of_nat (length (vout (tx_prefix t))) in
  if n_padded_outputs <=? 2 then Some 0
  else
    let nlr := nlr_loop 32 0 n_padded_outputs + 6 in
    let bp_size := 32 * ((if plus then 6 else 9) + 2 * nlr) in
    if negb (n_outputs <=? BULLETPROOF_MAX_OUTPUTS) then None
    else if negb (bp_size <=? u64 (bp_base * n_padded_outputs)) then None
    else Some (u64 (u64 (u64 (bp_base * n_padded_outputs) - bp_size) * 4) / 5).

Definition get_transaction_weight (t : transaction) (blob_size : Z) : option Z :=
  if pruned t then Some UINT64_MAX
  else if version (tx_prefix t) <? 2 then Some blob_size
  else
    let ty := type (rct_base (rct_signatures t)) in
    if negb (is_rct_bulletproof ty) && negb (is_rct_bulletproof_plus ty) then Some blob_size
    else
      let n_padded_outputs :=
        if is_rct_bulletproof_plus ty then n_bulletproof_plus_max_amounts (bulletproofs_plus (rct_prunable (rct_signatures t)))
        else n_bulletproof_max_amounts (bulletproofs (rct_prunable (rct_signatures t))) in
      bp_clawback ← get_transaction_weight_clawback t n_padded_outputs;
      if negb (bp_clawback <=? UINT64_MAX - blob_size) then None else Some (blob_size + bp_clawback).

Definition get_pruned_transaction_weight (t : transaction) : option Z :=
  let q := tx_prefix t in
  let ty := type (rct_base (rct_signatures t)) in
  if negb (pruned t) then Some UINT64_MAX
  else if negb (2 <=? version q) then Some UINT64_MAX
  else if negb (bool_decide (ty ∈ [RCTTypeBulletproof2; RCTTypeCLSAG; RCTTypeBulletproofPlus])) then Some UINT64_MAX
  else
    match vin q with
    | txin_to_key _ key_offsets _ :: _ =>
      blob ← tx_to_blob t;
      let weight := u64 (Z.of_nat (length blob)) in
      let weight := u64 (weight + 1) in
      let nrl := nlr_loop 32 0 (Z.of_nat (length (vout q))) in
      let n_padded_outputs := Z.shiftl 1 nrl in
      let nrl := nrl + 6 in
      let extra := 32 * ((if is_rct_bulletproof_plus ty then 6 else 9) + 2 * nrl) + 2 in
      let weight := u64 (weight + extra) in
      let ring_size := Z.of_nat (length key_offsets) in
      let n_inputs := Z.of_nat (length (vin q)) in
      let extra := if is_rct_clsag ty then u64 (n_inputs * (ring_size + 2) * 32)
                   else u64 (n_inputs * (ring_size * (1 + 1) * 32 + 32)) in
      let weight := u64 (weight + extra) in
      let weight := u64 (weight + u64 (32 * n_inputs)) in
      bp_clawback ← get_transaction_weight_clawback t n_padded_outputs;
      if negb (bp_clawback <=? UINT64_MAX - weight) then None else Some (u64 (weight + bp_clawback))
    | _ => Some UINT64_MAX
    end.

(** ** Sizes of what is written *)

Definition fixed_size {A} (c : codec A) (n : nat) : Prop := forall a, ok c a -> length (put c a) = n.

Lemma fixed_blob n : fixed_size (blob_codec n) n.
Proof. by intros b [_ ?]. Qed.

Lemma fixed_array {A} k (c : codec A) n : fixed_size c n -> fixed_size (array_codec k c) (k * n).
Proof.
  intros Hc v [Hv <-]. induction Hv as [|a v Ha _ IH]; [done|]. cbn in *. rewrite length_app, IH, (Hc a Ha). lia.
Qed.

Lemma fixed_pair {A B} (c : codec A) (d : codec B) n m :
  fixed_size c n -> fixed_size d m -> fixed_size (pair_codec c d) (n + m).
Proof. intros Hc Hd [a b] [Ha Hb]. cbn. rewrite length_app. by rewrite (Hc a Ha), (Hd b Hb). Qed.

Lemma fixed_map {A B} (f : A -> B) (g : B -> option A) (c : codec A) n : fixed_size c n -> fixed_size (map_codec f g c) n.
Proof. intros Hc b (a & E & _ & Ha). cbn. rewrite E. by apply Hc. Qed.

Lemma clsag_size mixin : fixed_size (clsag_codec mixin) (Z.to_nat (mixin + 1) * 32 + (32 + 32)).
Proof. by apply fixed_map, fixed_pair; [apply fixed_array, fixed_blob|apply fixed_pair; apply fixed_blob]. Qed.

Lemma mg_size mixin n : fixed_size (mg_codec mixin n) (Z.to_nat (mixin + 1) * (n * 32) + 32).
Proof. apply fixed_map, fixed_pair; [do 2 apply fixed_array|]; apply fixed_blob. Qed.

(** A short list of keys has its length in one byte. *)
Lemma keyV_size v : ok keyV_codec v -> (length v < 128)%nat -> length (put keyV_codec v) = (1 + length v * 32)%nat.
Proof.
  intros [Hv _] Hl. cbn [put keyV_codec vector_codec]. unfold write_container. rewrite length_app.
  rewrite write_varint_eq by lia. rewrite (proj2 (Z.leb_gt _ _)) by lia. cbn [length]. f_equal.
  by apply (fixed_array (length v) key_codec 32 (fixed_blob 32)).
Qed.

Lemma bulletproof_size p :
  ok bulletproof_codec p -> (length (bp_L p) < 128)%nat ->
  length (put bulletproof_codec p) = (32 * 9 + 2 + 64 * length (bp_L p))%nat.
Proof.
  intros [(v & [= <-] & _ & Hok) Hp] Hl. apply negb_true_iff, orb_false_iff in Hp as [_ Hp].
  apply negb_false_iff, bool_decide_eq_true in Hp. unfold pair_codec in Hok. cbn [ok dep_codec fst snd] in Hok.
  destruct Hok as (H1 & H2 & H3 & H4 & H5 & H6 & HL & HR & H7 & H8 & H9).
  cbn [put bulletproof_codec guard_codec map_codec pair_codec dep_codec fst snd]. rewrite !length_app.
  rewrite (keyV_size (bp_L p) HL), (keyV_size (bp_R p) HR) by lia. rewrite !(fixed_blob 32 _ : _ -> length (put key_codec _) = _) by done.
  rewrite <- Hp. lia.
Qed.

Lemma bulletproof_plus_size p :
  ok bulletproof_plus_codec p -> (length (bpp_L p) < 128)%nat ->
  length (put bulletproof_plus_codec p) = (32 * 6 + 2 + 64 * length (bpp_L p))%nat.
Proof.
  intros [(v & [= <-] & _ & Hok) Hp] Hl. apply negb_true_iff, orb_false_iff in Hp as [_ Hp].
  apply negb_false_iff, bool_decide_eq_true in Hp. unfold pair_codec in Hok. cbn [ok dep_codec fst snd] in Hok.
  destruct Hok as (H1 & H2 & H3 & H4 & H5 & H6 & HL & HR).
  cbn [put bulletproof_plus_codec guard_codec map_codec pair_codec dep_codec fst snd]. rewrite !length_app.
  rewrite (keyV_size (bpp_L p) HL), (keyV_size (bpp_R p) HR) by lia. rewrite !(fixed_blob 32 _ : _ -> length (put key_codec _) = _) by done.
  rewrite <- Hp. lia.
Qed.

Lemma nlr_loop_log2 fuel k n :
  1 <= n -> 0 <= k <= Z.log2_up n -> Z.log2_up n < k + Z.of_nat fuel -> nlr_loop fuel k n = Z.log2_up n.
Proof.
  revert k. induction fuel as [|fuel IH]; intros k Hn Hk Hf; [lia|]. cbn [nlr_loop]. rewrite Z.shiftl_1_l.
  destruct (Z.ltb_spec (2 ^ k) n) as [Hlt|Hge].
  - apply IH; [done| |lia]. split; [lia|].
    destruct (decide (Z.log2_up n <= k)) as [Hle|]; [|lia]. apply Z.log2_up_le_pow2 in Hle; lia.
  - apply Z.log2_up_le_pow2 in Hge; lia.
Qed.

(** What one proof holds *)
Lemma max_amounts_range L R :
  0 <= L -> 1 <= n_bulletproof_max_amounts_base L R 16 ->
  R = L /\ 6 <= L <= 10 /\ n_bulletproof_max_amounts_base L R 16 = 2 ^ (L - 6).
Proof.
  intros HL. unfold n_bulletproof_max_amounts_base. change (Z.shiftl 1 4) with 16.
  destruct (Z.leb_spec 6 L); [|done]. destruct (Z.eqb_spec L R); [|done]. destruct (Z.leb_spec L (6 + 4)); [|done].
  cbn [negb]. intros _. rewrite Z.shiftl_1_l. cbn. lia.
Qed.

Lemma max_amounts_single {A} (max_amounts : A -> Z) p :
  0 <= max_amounts p < UINT32_MAX -> max_amounts_loop max_amounts [p] 0 = max_amounts p.
Proof.
  intros Hm. cbn. rewrite (wrap_small 64 (UINT32_MAX - 0)) by (unfold UINT32_MAX; mach).
  rewrite Z.sub_0_r, (proj2 (Z.ltb_lt _ _)) by lia. cbn [negb].
  destruct (Z.eqb_spec (max_amounts p) 0) as [->|]; [done|]. rewrite wrap_small by (unfold UINT32_MAX in Hm; mach). lia.
Qed.

Lemma max_amounts_bound L R : 0 <= n_bulletproof_max_amounts_base L R 16 < UINT32_MAX.
Proof.
  unfold n_bulletproof_max_amounts_base. destruct (Z.leb_spec 6 L); [|done]. destruct (Z.eqb_spec L R); [|done].
  destruct (negb (_ =? 16)); [done|]. destruct (Z.leb_spec L (6 + 4)); [|done]. cbn [negb]. rewrite Z.shiftl_1_l.
  split; [lia|]. apply Z.le_lt_trans with (2 ^ 4); [apply Z.pow_le_mono_r; lia|done].
Qed.

(** The range proofs of one proof *)
Lemma proofs_single {A} (c : codec A) outputs (max_amounts : list A -> Z) p :
  ok (proofs_codec (varint_codec 32) outputs max_amounts c) [p] ->
  ok c p /\ (1 <= outputs)%nat /\ Z.of_nat outputs <= max_amounts [p]
  /\ put (proofs_codec (varint_codec 32) outputs max_amounts c) [p] = 1 :: put c p.
Proof.
  intros [((n & v) & [= <- <-] & _ & [[_ Hn] [Hv _]]) Hm].
  apply negb_true_iff, Z.ltb_ge in Hm. change (negb (Z.of_nat outputs <? 1) = true) in Hn.
  apply negb_true_iff, Z.ltb_ge in Hn.
  apply Forall_cons in Hv as [Hv _]. split; [done|]. split; [lia|]. split; [lia|].
  change (write_varint 1 ++ (put c p ++ []) = 1 :: put c p). by rewrite app_nil_r.
Qed.

(** The rounds of the only range proof *)
Definition proof_rounds (plus : bool) (q : rctSigPrunable) : option nat :=
  if plus then match bulletproofs_plus q with [p] => Some (length (bpp_L p)) | _ => None end
  else match bulletproofs q with [p] => Some (length (bp_L p)) | _ => None end.

Definition pruned_types (ty : Z) : Prop := ty ∈ [RCTTypeBulletproof2; RCTTypeCLSAG; RCTTypeBulletproofPlus].
#[global] Instance pruned_types_dec ty : Decision (pruned_types ty).
Proof. unfold pruned_types. apply _. Defined.

Lemma pruned_types_inv ty : pruned_types ty -> ty = 4 \/ ty = 5 \/ ty = 6.
Proof.
  unfold pruned_types. intros [->|[->|[->|[]%elem_of_nil]%elem_of_cons]%elem_of_cons]%elem_of_cons; auto.
Qed.

(** Parsing checks that there is one proof. *)
Lemma expand_rounds scalarmult t0 t :
  expand_transaction_1 scalarmult t0 false = Some t -> 2 <= version (tx_prefix t0) -> is_coinbase (tx_prefix t0) = false ->
  pruned_types (type (rct_base (rct_signatures t0))) ->
  let plus := is_rct_bulletproof_plus (type (rct_base (rct_signatures t0))) in
  exists n, proof_rounds plus (rct_prunable (rct_signatures t0)) = Some n
    /\ proof_rounds plus (rct_prunable (rct_signatures t)) = Some n
    /\ (if plus then n_bulletproof_plus_max_amounts (bulletproofs_plus (rct_prunable (rct_signatures t)))
        else n_bulletproof_max_amounts (bulletproofs (rct_prunable (rct_signatures t))))
       = (if plus then n_bulletproof_plus_max_amounts (bulletproofs_plus (rct_prunable (rct_signatures t0)))
          else n_bulletproof_max_amounts (bulletproofs (rct_prunable (rct_signatures t0)))).
Proof.
  intros E Hv Hc Hty. unfold expand_transaction_1 in E. rewrite Hc, (proj2 (Z.leb_le _ _)) in E by lia. cbn [andb negb] in E.
  assert (Hn : (type (rct_base (rct_signatures t0)) =? RCTTypeNull) = false).
  { by destruct (pruned_types_inv _ Hty) as [->|[->| ->]]. }
  rewrite Hn in E. destruct (negb _); [done|]. destruct (fill_dest _ _) as [ks|]; [|done]. cbn [mbind option_bind] in E.
  destruct (is_rct_bulletproof_plus _) eqn:Eplus.
  - cbn [set_outPk rct_signatures rct_prunable] in E. destruct (bulletproofs_plus _) as [|p []] eqn:Ep; try done.
    repeat case_match; try done. apply bind_Some in E as (v & _ & [= <-]).
    exists (length (bpp_L p)). cbn. by rewrite Ep.
  - assert (is_rct_bulletproof (type (rct_base (rct_signatures t0))) = true) as Hb.
    { by destruct (pruned_types_inv _ Hty) as [Ht|[Ht|Ht]]; rewrite Ht in Eplus |- *. }
    rewrite Hb in E. cbn [set_outPk rct_signatures rct_prunable] in E. destruct (bulletproofs _) as [|p []] eqn:Ep; try done.
    repeat case_match; try done. apply bind_Some in E as (v & _ & [= <-]).
    exists (length (bp_L p)). cbn. by rewrite Ep.
Qed.

(** What the range proof takes, and what it holds *)
Lemma range_proofs_size ty outputs q n :
  pruned_types ty ->
  let plus := is_rct_bulletproof_plus ty in
  let v := (rangeSigs q, (bulletproofs q, bulletproofs_plus q)) in
  proof_rounds plus q = Some n -> ok (range_proofs_codec ty outputs) v ->
  length (put (range_proofs_codec ty outputs) v) = (1 + (32 * (if plus then 6 else 9) + 2 + 64 * n))%nat
  /\ (6 <= n <= 10)%nat /\ 1 <= Z.of_nat outputs <= 2 ^ (Z.of_nat n - 6)
  /\ (if plus then n_bulletproof_plus_max_amounts (bulletproofs_plus q) else n_bulletproof_max_amounts (bulletproofs q))
     = 2 ^ (Z.of_nat n - 6).
Proof.
  intros Hty plus v Hn. unfold plus, range_proofs_codec in *.
  change (ty =? RCTTypeBulletproofPlus) with (is_rct_bulletproof_plus ty). destruct (is_rct_bulletproof_plus ty) eqn:Eplus.
  - unfold v, proof_rounds in *. destruct (bulletproofs_plus q) as [|p []] eqn:Ep; try done. injection Hn as <-.
    intros (_ & _ & H). cbn [fst snd] in H. apply proofs_single in H as (Hp & Ho & Hm & Hput).
    unfold n_bulletproof_plus_max_amounts in *. rewrite max_amounts_single in * by apply max_amounts_bound.
    destruct (max_amounts_range (Z.of_nat (length (bpp_L p))) (Z.of_nat (length (bpp_R p)))) as (_ & H6 & E);
      [lia|unfold bulletproof_plus_max_amounts in Hm; change BULLETPROOF_PLUS_MAX_OUTPUTS with 16 in Hm; lia|].
    unfold bulletproof_plus_max_amounts in *. change BULLETPROOF_PLUS_MAX_OUTPUTS with 16 in *. rewrite E in *.
    split; [|lia]. cbn [put pair_codec dep_codec const_codec fst snd app]. rewrite Hput. cbn [length]. f_equal.
    by rewrite bulletproof_plus_size by (done || lia).
  - assert (is_rct_bulletproof ty = true /\ (ty =? RCTTypeBulletproof) = false) as [Hb H3].
    { by destruct (pruned_types_inv _ Hty) as [Ht|[Ht|Ht]]; rewrite Ht in Eplus |- *. }
    rewrite Hb, H3. unfold v, proof_rounds in *. destruct (bulletproofs q) as [|p []] eqn:Ep; try done. injection Hn as <-.
    intros (_ & H & _). cbn [fst snd] in H. apply proofs_single in H as (Hp & Ho & Hm & Hput).
    unfold n_bulletproof_max_amounts in *. rewrite max_amounts_single in * by apply max_amounts_bound.
    destruct (max_amounts_range (Z.of_nat (length (bp_L p))) (Z.of_nat (length (bp_R p)))) as (_ & H6 & E);
      [lia|unfold bulletproof_max_amounts in Hm; change BULLETPROOF_MAX_OUTPUTS with 16 in Hm; lia|].
    unfold bulletproof_max_amounts in *. change BULLETPROOF_MAX_OUTPUTS with 16 in *. rewrite E in *.
    split; [|lia]. cbn [put pair_codec dep_codec const_codec fst snd app]. rewrite app_nil_r, Hput. cbn [length]. f_equal.
    by rewrite bulletproof_size by (done || lia).
Qed.

Lemma fixed_const {A} (a : A) : fixed_size (const_codec a) 0.
Proof. done. Qed.

Lemma ring_signatures_size ty inputs mixin :
  pruned_types ty ->
  let r := Z.to_nat (mixin + 1) in
  fixed_size (ring_signatures_codec ty inputs mixin)
    (if is_rct_clsag ty then inputs * (r * 32 + (32 + 32)) else inputs * (r * (2 * 32) + 32) + 0)%nat.
Proof.
  intros Hty r. unfold ring_signatures_codec. destruct (is_rct_clsag ty) eqn:E.
  - apply (fixed_pair _ _ 0), fixed_array, clsag_size. apply fixed_const.
  - destruct (pruned_types_inv _ Hty) as [->|[->| ->]]; try done. cbn [bool_decide].
    apply fixed_pair; [apply fixed_array, mg_size|apply fixed_const].
Qed.

(** Everything that pruning drops *)
Lemma prunable_size ty inputs outputs mixin q n :
  pruned_types ty -> 0 <= mixin -> proof_rounds (is_rct_bulletproof_plus ty) q = Some n ->
  ok (serialize_rctsig_prunable ty inputs outputs mixin) q ->
  Z.of_nat (length (put (serialize_rctsig_prunable ty inputs outputs mixin) q))
    = 1 + (32 * ((if is_rct_bulletproof_plus ty then 6 else 9) + 2 * Z.of_nat n) + 2)
      + (if is_rct_clsag ty then Z.of_nat inputs * ((mixin + 1) + 2) * 32
         else Z.of_nat inputs * ((mixin + 1) * (1 + 1) * 32 + 32)) + 32 * Z.of_nat inputs
  /\ mixin < UINT32_MAX
  /\ ok (range_proofs_codec ty outputs) (rangeSigs q, (bulletproofs q, bulletproofs_plus q)).
Proof.
  intros Hty Hm Hn. unfold serialize_rctsig_prunable.
  assert ((ty =? RCTTypeNull) = false /\ known_type ty = true
          /\ is_rct_bulletproof ty || is_rct_bulletproof_plus ty = true) as (-> & -> & Hps).
  { by destruct (pruned_types_inv _ Hty) as [->|[->| ->]]. }
  destruct (_ <=? Z.of_nat inputs); [by intros []|]. destruct (_ <=? Z.of_nat outputs); [by intros []|].
  destruct (Z.leb_spec UINT32_MAX mixin); [by intros []|]. cbn [negb].
  intros (v & [= <-] & _ & [Hr [Hs Hp]]). cbn [fst snd] in Hr, Hs, Hp. split; [|done].
  cbn [put prunable_fields_codec map_codec pair_codec dep_codec fst snd]. unfold pair_codec. cbn [put dep_codec fst snd].
  rewrite Hps in *. unfold when_codec in *. rewrite !length_app. destruct (range_proofs_size ty outputs q n Hty Hn Hr) as [-> _].
  rewrite (ring_signatures_size ty inputs mixin Hty _ Hs).
  rewrite (fixed_array inputs key_codec 32 (fixed_blob 32) _ Hp).
  destruct (is_rct_bulletproof_plus ty), (is_rct_clsag ty); lia.
Qed.

(** The ring of the first input *)
Lemma ring_size q amount key_offsets k_image rest :
  ok prefix_codec q -> vin q = txin_to_key amount key_offsets k_image :: rest -> mixin (vin q) < UINT32_MAX ->
  0 <= mixin (vin q) /\ mixin (vin q) + 1 = Z.of_nat (length key_offsets).
Proof.
  intros (v & [= <-] & _ & _ & _ & [Hin _] & _) Hi. cbn [fst snd] in Hin. rewrite Hi in Hin |- *. cbn [mixin].
  apply Forall_cons in Hin as [(_ & c & [= <-] & (w & [= <-] & _ & _ & [_ Hl] & _)) _]. cbn [fst snd] in Hl.
  unfold wrap, UINT32_MAX. intros Hm. pose proof (Z.mod_pos_bound (Z.of_nat (length key_offsets) - 1) (2 ^ 64)).
  destruct (decide (length key_offsets = 0)%nat) as [E|]; [by rewrite E in Hm|].
  rewrite Z.mod_small by mach. lia.
Qed.

(** What the clawback is for the amounts of one proof *)
Lemma clawback_some t k :
  0 <= k <= 4 -> Z.of_nat (length (vout (tx_prefix t))) <= 16 ->
  exists c, get_transaction_weight_clawback t (2 ^ k) = Some c /\ 0 <= c <= 6000.
Proof.
  intros Hk Ho. unfold get_transaction_weight_clawback.
  assert (k = 0 \/ k = 1 \/ k = 2 \/ k = 3 \/ k = 4) as [->|[->|[->|[->| ->]]]] by lia;
    [by exists 0|by exists 0|..]; unfold BULLETPROOF_MAX_OUTPUTS;
    rewrite (proj2 (Z.leb_le _ _) Ho); destruct (_ =? RCTTypeBulletproofPlus); eexists; (split; [vm_compute; reflexivity|lia]).
Qed.

Lemma clawback_same t t' n :
  vout (tx_prefix t) = vout (tx_prefix t') -> type (rct_base (rct_signatures t)) = type (rct_base (rct_signatures t')) ->
  get_transaction_weight_clawback t n = get_transaction_weight_clawback t' n.
Proof. intros E1 E2. unfold get_transaction_weight_clawback. by rewrite E1, E2. Qed.

(** C22: a pruned node knows what a transaction weighs. For a transaction with inputs that
    spend outputs, one of the three last kinds of signatures and a range proof of no more
    rounds than its outputs need, the weight computed from the part that pruning keeps
    is the weight the whole text has. *)
Theorem pruned_weight scalarmult_inv_eight (blob : list Z) (t : transaction) (n : nat) amount key_offsets k_image rest :
  byte_list blob -> Z.of_nat (length blob) < 2 ^ 32 ->
  parse_and_validate_tx_from_blob scalarmult_inv_eight blob = Some t ->
  version (tx_prefix t) = 2 -> vin (tx_prefix t) = txin_to_key amount key_offsets k_image :: rest ->
  pruned_types (type (rct_base (rct_signatures t))) ->
  proof_rounds (is_rct_bulletproof_plus (type (rct_base (rct_signatures t)))) (rct_prunable (rct_signatures t)) = Some n ->
  Z.of_nat n = 6 + Z.log2_up (Z.of_nat (length (vout (tx_prefix t)))) ->
  exists pruned_blob prunable_blob tb w,
    split_blob t blob = Some (pruned_blob, prunable_blob)
    /\ parse_and_validate_tx_base_from_blob scalarmult_inv_eight pruned_blob = Some tb
    /\ get_transaction_weight t (Z.of_nat (length blob)) = Some w /\ get_pruned_transaction_weight tb = Some w.
Proof.
  intros Hb Hl Hp Hv Hi Hty Hn Hlog. assert (Hv1 : version (tx_prefix t) <> 1) by (by rewrite Hv).
  assert (Hi1 : vin (tx_prefix t) <> []) by (by rewrite Hi).
  destruct (v2_parts _ blob t Hb Hl Hp Hv1 Hi1)
    as (t0 & x & Hq & _ & _ & Et & Ebl & _ & Hx & Hw & Hpr & _ & Eq & He & Hs').
  destruct (split_parts _ blob t Hb Hl Hp Hw) as (pre & y & tb & Hs & Ey & Etb & Hwb & Eqb & Erb & Hprb).
  rewrite Hs in Hs'. injection Hs' as _ ->. exists pre, x, tb.
  rewrite Et in *. set (b := rct_base (rct_signatures t0)) in *.
  assert (Hnull : type b <> RCTTypeNull) by (by destruct (pruned_types_inv _ Hty) as [->|[->| ->]]).
  destruct (Hx Hnull) as [Hok Ex]. clear Hx.
  destruct (expand_rounds _ _ _ He) as (n' & Hn0 & Hn' & Hmax); [by rewrite Eq, Hv|by unfold is_coinbase; rewrite Eq, Hi|done|].
  fold b in Hn0, Hn', Hmax. rewrite Hn in Hn'. injection Hn' as <-.
  assert (Hm0 : 0 <= mixin (vin (tx_prefix t))) by (rewrite Hi; apply Z.mod_pos_bound; lia).
  destruct (prunable_size _ _ _ _ _ _ Hty Hm0 Hn0 Hok) as (Hsize & Hm & Hr).
  destruct (range_proofs_size _ _ _ _ Hty Hn0 Hr) as (_ & H6 & Ho & Hmax0).
  destruct (ring_size _ _ _ _ _ Hq Hi Hm) as [_ Hring]. rewrite Hring, <- Ex in Hsize.
  set (lg := Z.log2_up (Z.of_nat (length (vout (tx_prefix t))))) in *.
  assert (Hlg : 0 <= lg <= 4) by lia. replace (Z.of_nat n - 6) with lg in * by lia.
  assert (Ho16 : Z.of_nat (length (vout (tx_prefix t))) <= 16).
  { apply Z.le_trans with (2 ^ lg); [lia|]. change 16 with (2 ^ 4). apply Z.pow_le_mono_r; lia. }
  destruct (clawback_some t lg Hlg Ho16) as (c & Hc & Hcr).
  exists (Z.of_nat (length blob) + c). split; [done|]. split; [done|].
  split.
  - unfold get_transaction_weight. rewrite Hpr, Hv, Et. cbn [Z.ltb Z.compare Pos.compare Pos.compare_cont].
    assert (Hbp : negb (is_rct_bulletproof (type b)) && negb (is_rct_bulletproof_plus (type b)) = false)
      by (by destruct (pruned_types_inv _ Hty) as [->|[->| ->]]).
    rewrite Hbp. rewrite Hmax, Hmax0, Hc. cbn [mbind option_bind].
    rewrite (proj2 (Z.leb_le _ _)) by (unfold UINT64_MAX; mach). done.
  - unfold get_pruned_transaction_weight. rewrite Hprb, Eqb, Hv, Erb, Et. cbn [negb Z.leb Z.compare Pos.compare Pos.compare_cont].
    rewrite bool_decide_eq_true_2 by done. rewrite Hi, Hwb. cbn [negb mbind option_bind]. rewrite <- Hi.
    rewrite (nlr_loop_log2 32 0) by (fold lg; lia). fold lg. rewrite Z.shiftl_1_l.
    rewrite (clawback_same tb t) by (by rewrite ?Eqb, ?Erb, ?Et). rewrite Hc. cbn [mbind option_bind].
    assert (Hlen : Z.of_nat (length blob) = Z.of_nat (length pre) + Z.of_nat (length x)) by (rewrite <- Ey, length_app; lia).
    set (A := Z.of_nat (length (vin (tx_prefix t))) * (Z.of_nat (length key_offsets) + 2) * 32) in *.
    set (B := Z.of_nat (length (vin (tx_prefix t))) * (Z.of_nat (length key_offsets) * (1 + 1) * 32 + 32)) in *.
    assert (0 <= A /\ 0 <= B) as [HA HB] by (unfold A, B; nia).
    replace (Z.of_nat n) with (lg + 6) in Hsize by lia. clearbody A B.
    destruct (is_rct_bulletproof_plus (type b)), (is_rct_clsag (type b));
      unwrap_inner; rewrite (proj2 (Z.leb_le _ _)) by (unfold UINT64_MAX; mach); cbn [negb]; f_equal; lia.
Qed.

Lemma pruned_weight_witness :
  exists pruned_blob prunable_blob tb w,
    split_blob sample_parsed sample_blob = Some (pruned_blob, prunable_blob)
    /\ parse_and_validate_tx_base_from_blob Some pruned_blob = Some tb
    /\ get_transaction_weight sample_parsed (Z.of_nat (length sample_blob)) = Some w
    /\ get_pruned_transaction_weight tb = Some w.
Proof.
  apply (pruned_weight Some sample_blob sample_parsed 7 0 [5; 300] (key_of 1) [] sample_bytes sample_length sample_tx_parse
           sample_version); [vm_compute; reflexivity|by_decide|vm_compute; reflexivity..].
Defined.
