(* ===== verification/Offsets.v ===== *)
(** * Members of a ring: relative_output_offsets_to_absolute and
    absolute_output_offsets_to_relative of cryptonote_format_utils.cpp

    An input names the outputs of its ring by the differences of their numbers. The loops
    work in place, the one on a list upwards, the other downwards. *)

From stdpp Require Import sorting.
From S2P Require Import Prelude SortedLists.

Definition num_at (l : list Z) (i : nat) : Z := default 0 (l !! i).

(** [for (i = ...; i < res.size(); i++) res[i] += res[i-1]], [n] rounds *)
Fixpoint abs_loop (n i : nat) (res : list Z) : list Z :=
  match n with
  | O => res
  | S n => abs_loop n (S i) (<[i := u64 (num_at res i + num_at res (i - 1))]> res)
  end.
Definition relative_output_offsets_to_absolute (off : list Z) : list Z := abs_loop (length off - 1) 1 off.

(** [for (i = ...; i != 0; i--) res[i] -= res[i-1]] *)
Fixpoint rel_loop (i : nat) (res : list Z) : list Z :=
  match i with
  | O => res
  | S j => rel_loop j (<[i := u64 (num_at res i - num_at res (i - 1))]> res)
  end.
Definition absolute_output_offsets_to_relative (off : list Z) : list Z :=
  if bool_decide (off = []) then off else rel_loop (length off - 1) (merge_sort Z.le off).

(** ** The loops as sums and differences *)

Fixpoint sums (x : Z) (l : list Z) : list Z :=
  match l with [] => [] | d :: l => let y := u64 (d + x) in y :: sums y l end.
Fixpoint differences (x : Z) (l : list Z) : list Z :=
  match l with [] => [] | y :: l => u64 (y - x) :: differences y l end.

Lemma num_at_middle pre x rest : num_at (pre ++ x :: rest) (length pre) = x.
Proof. unfold num_at. by rewrite list_lookup_middle. Qed.

Lemma abs_loop_sums pre x rest :
  abs_loop (length rest) (S (length pre)) (pre ++ x :: rest) = pre ++ x :: sums x rest.
Proof.
  revert pre x. induction rest as [|d rest IH]; intros pre x; [done|]. cbn [length abs_loop sums].
  replace (S (length pre) - 1)%nat with (length pre) by lia. rewrite num_at_middle.
  replace (S (length pre)) with (length (pre ++ [x])) by (rewrite length_app; cbn; lia).
  change (x :: d :: rest) with ([x] ++ d :: rest). rewrite app_assoc, num_at_middle.
  rewrite insert_app_r_alt, Nat.sub_diag by lia. cbn [insert list_insert].
  rewrite IH. by rewrite <- app_assoc.
Qed.

Lemma differences_snoc x l y :
  differences x (l ++ [y]) = differences x l ++ [u64 (y - num_at (x :: l) (length l))].
Proof.
  revert x. induction l as [|z l IH]; intros x; [done|]. cbn [app differences length]. f_equal. rewrite IH. done.
Qed.

Lemma rel_loop_differences x l tail : rel_loop (length l) (x :: l ++ tail) = x :: differences x l ++ tail.
Proof.
  revert tail. induction l as [|y l IH] using rev_ind; intros tail; [done|].
  rewrite length_app. cbn [length]. rewrite Nat.add_1_r. cbn [rel_loop].
  replace (S (length l) - 1)%nat with (length l) by lia.
  assert (E1 : num_at (x :: (l ++ [y]) ++ tail) (S (length l)) = y).
  { rewrite <- app_assoc. apply (num_at_middle (x :: l)). }
  assert (E2 : num_at (x :: (l ++ [y]) ++ tail) (length l) = num_at (x :: l) (length l)).
  { unfold num_at. rewrite <- app_assoc, app_comm_cons, lookup_app_l by (cbn; lia). done. }
  rewrite E1, E2. rewrite <- (app_assoc l), app_comm_cons.
  rewrite insert_app_r_alt by (cbn; lia). replace (S (length l) - length (x :: l))%nat with 0%nat by (cbn; lia).
  cbn [insert list_insert app]. rewrite IH, differences_snoc. by rewrite <- app_assoc.
Qed.

Lemma sums_differences x l : Forall is_u64 l -> sums x (differences x l) = l.
Proof.
  intros Hl. revert x. induction Hl as [|y l Hy _ IH]; intros x; [done|]. cbn [sums differences].
  assert (E : u64 (u64 (y - x) + x) = y).
  { unfold wrap. rewrite Zplus_mod_idemp_l. replace (y - x + x) with y by lia. by apply wrap_small. }
  by rewrite E, IH.
Qed.

Lemma differences_sums x l : Forall is_u64 l -> differences x (sums x l) = l.
Proof.
  intros Hl. revert x. induction Hl as [|d l Hd _ IH]; intros x; [done|]. cbn [sums differences]. rewrite IH. f_equal.
  unfold wrap. rewrite Zminus_mod_idemp_l. replace (d + x - x) with d by lia. by apply wrap_small.
Qed.

(** The total of a list *)
Definition total (l : list Z) : Z := foldr Z.add 0 l.

Lemma sums_sorted x l :
  is_u64 x -> Forall is_u64 l -> x + total l < 2 ^ 64 -> StronglySorted Z.le (x :: sums x l).
Proof.
  intros Hx Hl. revert x Hx. induction Hl as [|d l Hd Hl IH]; intros x Hx Ht; [by repeat constructor|].
  cbn [total foldr] in Ht. fold (total l) in Ht.
  assert (0 <= total l) by (clear - Hl; induction Hl as [|y l Hy _ IH]; [done|]; unfold total in *; cbn; mach).
  cbn [sums]. rewrite wrap_small by mach. pose proof (IH (d + x) ltac:(mach) ltac:(lia)) as Hs.
  constructor; [done|]. apply StronglySorted_inv in Hs as [_ Hall]. constructor; [mach|].
  apply (Forall_impl _ _ _ Hall). intros y Hy. mach.
Qed.

(** Offsets lose nothing but the order. The offsets of a list of output numbers give
    back these numbers, sorted; and offsets whose total is a number of 64 bits are those
    of the numbers they stand for. *)
Theorem offsets_roundtrip (off : list Z) :
  Forall is_u64 off ->
  relative_output_offsets_to_absolute (absolute_output_offsets_to_relative off) = merge_sort Z.le off
  /\ (total off < 2 ^ 64 -> absolute_output_offsets_to_relative (relative_output_offsets_to_absolute off) = off).
Proof.
  intros Hoff. unfold relative_output_offsets_to_absolute, absolute_output_offsets_to_relative. split.
  - case_bool_decide as He; [by subst|].
    assert (Hp : merge_sort Z.le off ≡ₚ off) by apply merge_sort_Permutation.
    assert (Hs : Forall is_u64 (merge_sort Z.le off)) by (by rewrite Hp).
    rewrite <- (Permutation_length Hp). destruct (merge_sort Z.le off) as [|x l] eqn:Es.
    { by apply Permutation_nil_l in Hp. }
    apply Forall_cons in Hs as [_ Hl]. cbn [length]. rewrite Nat.sub_succ, Nat.sub_0_r.
    pose proof (rel_loop_differences x l []) as D. rewrite !app_nil_r in D. rewrite D. cbn [length].
    rewrite Nat.sub_succ, Nat.sub_0_r. pose proof (abs_loop_sums [] x (differences x l)) as E. cbn [app length] in E.
    by rewrite E, sums_differences.
  - intros Ht. destruct off as [|x l]; [done|]. apply Forall_cons in Hoff as [Hx Hl].
    cbn [length]. rewrite Nat.sub_succ, Nat.sub_0_r. pose proof (abs_loop_sums [] x l) as E. cbn [app length] in E.
    rewrite E. rewrite bool_decide_eq_false_2 by done. cbn [length]. rewrite Nat.sub_succ, Nat.sub_0_r.
    rewrite (merge_sort_unique (x :: sums x l)) by (done || by apply sums_sorted).
    pose proof (rel_loop_differences x (sums x l) []) as D. rewrite !app_nil_r in D. rewrite D. by rewrite differences_sums.
Qed.

Lemma offsets_roundtrip_witness :
  relative_output_offsets_to_absolute (absolute_output_offsets_to_relative [7; 300; 12]) = merge_sort Z.le [7; 300; 12]
  /\ (total [7; 300; 12] < 2 ^ 64
      -> absolute_output_offsets_to_relative (relative_output_offsets_to_absolute [7; 300; 12]) = [7; 300; 12]).
Proof. apply (offsets_roundtrip [7; 300; 12]). by_decide. Defined.
