(* ===== verification/Mnemonics.v ===== *)
(** * Mnemonic seeds: src/mnemonics/electrum-words.cpp and language_base.h

    A secret key is written as words, three for each four bytes, with a last word that
    repeats one of them as a checksum. Texts are byte lists. [std::towlower] and the
    CRC-32 of Boost are parameters. An exception, a division by zero and an index out
    of range are [Throw]. *)

From S2P Require Import Prelude IntUtil Radix Hex.

Inductive mnemonic_error :=
  | Invalid_UTF8
  | Wrong_word_list_length
  | Too_short_word
  | Duplicate_prefix
  | Word_not_found
  | Division_by_zero
  | Out_of_range.

Notation R := (result mnemonic_error).

#[global] Instance mnemonic_error_eq_dec : EqDecision mnemonic_error.
Proof. solve_decision. Defined.
#[global] Instance mnemonic_result_eq_dec {A} `{!EqDecision A} : EqDecision (R A).
Proof. solve_decision. Defined.

Definition get {A} (o : option A) (e : mnemonic_error) : R A :=
  match o with Some a => Ret a | None => Throw e end.

(** ** UTF-8: common/utf8.h and language_base.h *)

Fixpoint span_continuation (s : list Z) : list Z * list Z :=
  match s with
  | c :: s' => if Z.land c 0xc0 =? 0x80 then let '(a, b) := span_continuation s' in (c :: a, b) else ([], s)
  | [] => ([], [])
  end.

(** At most the first [count] characters *)
Fixpoint utf8prefix (s : list Z) (count : nat) : list Z :=
  match count, s with
  | S count, c :: s => let '(a, b) := span_continuation s in c :: a ++ utf8prefix b count
  | _, _ => []
  end.

Definition utf8_encode (cp : Z) : option (list Z) :=
  if cp <=? 0x7f then Some [cp]
  else if cp <=? 0x7ff then Some [Z.lor 0xc0 (Z.shiftr cp 6); Z.lor 0x80 (Z.land cp 0x3f)]
  else if cp <=? 0xffff then
    Some [Z.lor 0xe0 (Z.shiftr cp 12); Z.lor 0x80 (Z.land (Z.shiftr cp 6) 0x3f); Z.lor 0x80 (Z.land cp 0x3f)]
  else if cp <=? 0x10ffff then
    Some [Z.lor 0xf0 (Z.shiftr cp 18); Z.lor 0x80 (Z.land (Z.shiftr cp 12) 0x3f);
          Z.lor 0x80 (Z.land (Z.shiftr cp 6) 0x3f); Z.lor 0x80 (Z.land cp 0x3f)]
  else None.

(** The code point at the head of a text and the rest; continuation bytes are not
    checked, as in the source. *)
Definition utf8_head (s : list Z) : option (Z * list Z) :=
  match s with
  | c :: s' =>
    if Z.land c 0x80 =? 0 then Some (c, s')
    else if Z.land c 0xe0 =? 0xc0 then
      match s' with
      | c1 :: s' => Some (Z.lor (Z.shiftl (Z.land c 0x1f) 6) (Z.land c1 0x3f), s')
      | _ => None
      end
    else if Z.land c 0xf0 =? 0xe0 then
      match s' with
      | c1 :: c2 :: s' =>
        Some (Z.lor (Z.lor (Z.shiftl (Z.land c 0xf) 12) (Z.shiftl (Z.land c1 0x3f) 6)) (Z.land c2 0x3f), s')
      | _ => None
      end
    else if Z.land c 0xf8 =? 0xf0 then
      match s' with
      | c1 :: c2 :: c3 :: s' =>
        Some (Z.lor (Z.lor (Z.lor (Z.shiftl (Z.land c 0x7) 18) (Z.shiftl (Z.land c1 0x3f) 12))
                           (Z.shiftl (Z.land c2 0x3f) 6)) (Z.land c3 0x3f), s')
      | _ => None
      end
    else None
  | [] => None
  end.

(** Every step consumes a byte, so the length is enough fuel. *)
Fixpoint utf8canonical_loop (fuel : nat) (t : Z -> Z) (s : list Z) : R (list Z) :=
  match fuel, s with
  | _, [] => Ret []
  | O, _ => Throw Invalid_UTF8
  | S fuel, _ =>
    '(cp, s) ← get (utf8_head s) Invalid_UTF8;
    e ← get (utf8_encode (t cp)) Invalid_UTF8;
    rest ← utf8canonical_loop fuel t s;
    Ret (e ++ rest)
  end.
Definition utf8canonical (t : Z -> Z) (s : list Z) : R (list Z) := utf8canonical_loop (length s) t s.

(** ** Words of a text: wipeable_string.cpp *)

Fixpoint split_loop (space : bool) (fields : list (list Z)) (s : list Z) : list (list Z) :=
  match s with
  | [] => fields
  | c :: s =>
    let space_prev := space in
    let space := isspace c in
    if space then split_loop space fields s
    else
      let fields := if space_prev then fields ++ [[]] else fields in
      split_loop space (alter (fun f => f ++ [c]) (length fields - 1)%nat fields) s
  end.
Definition split (s : list Z) : list (list Z) := split_loop true [] s.

(** ** A language: language_base.h *)

Definition NWORDS : nat := 1626.

(** An [unordered_map] from words, in the order of insertion *)
Definition word_table : Type := list (list Z * Z).

Record Base := {
  word_list : list (list Z);
  word_map : word_table;
  trimmed_word_map : word_table;
  language_name : list Z;
  english_language_name : list Z;
  unique_prefix_length : nat }.

Record populate_flags := { ALLOW_SHORT_WORDS : bool; ALLOW_DUPLICATE_PREFIXES : bool }.

Section Electrum.
Context (towlower : Z -> Z) (crc_32 : list Z -> Z).

Definition canonical (s : list Z) : R (list Z) := utf8canonical towlower s.

Definition WordEqual (s0 s1 : list Z) : R bool :=
  s0c ← canonical s0; s1c ← canonical s1; Ret (bool_decide (s0c = s1c)).

(** The first entry whose word is equal to the one with canonical form [wc] *)
Definition find_equal (m : word_table) (wc : list Z) : option (nat * (list Z * Z)) :=
  list_find (fun kv => canonical kv.1 = Ret wc) m.

(** Hashing the word asked for throws on malformed text; the keys stored are well formed. *)
Definition map_find (m : word_table) (w : list Z) : R (option (list Z * Z)) :=
  wc ← canonical w;
  Ret (snd <$> find_equal m wc).

(** [m[w] = v]: the value of an equal key is replaced, the key stays. *)
Definition map_set (m : word_table) (w : list Z) (v : Z) : R word_table :=
  wc ← canonical w;
  match find_equal m wc with
  | Some (i, kv) => Ret (<[i := (kv.1, v)]> m)
  | None => Ret (m ++ [(w, v)])
  end.

(** The body of the loop of [populate_maps] *)
Definition populate_step (flags : populate_flags) (prefix : nat) (acc : word_table * word_table * Z)
    (w : list Z) : R (word_table * word_table * Z) :=
  let '(words, trimmed_words, ii) := acc in
  words ← map_set words w ii;
  if bool_decide (length w < prefix)%nat && negb (ALLOW_SHORT_WORDS flags) then Throw Too_short_word
  else
    let trimmed := if bool_decide (prefix < length w)%nat then utf8prefix w prefix else w in
    found ← map_find trimmed_words trimmed;
    if bool_decide (is_Some found) && negb (ALLOW_DUPLICATE_PREFIXES flags) then Throw Duplicate_prefix
    else
      trimmed_words ← map_set trimmed_words trimmed ii;
      Ret (words, trimmed_words, ii + 1).

Fixpoint populate_loop flags prefix acc (ws : list (list Z)) : R (word_table * word_table * Z) :=
  match ws with
  | [] => Ret acc
  | w :: ws => acc ← populate_step flags prefix acc w; populate_loop flags prefix acc ws
  end.

(** The constructor of a language: its words and [populate_maps] *)
Definition make_language (name english : list Z) (prefix : nat) (words : list (list Z))
    (flags : populate_flags) : R Base :=
  if negb (bool_decide (length words = NWORDS)) then Throw Wrong_word_list_length
  else
    '(m, t, _) ← populate_loop flags prefix ([], [], 0) words;
    Ret {| word_list := words; word_map := m; trimmed_word_map := t; language_name := name;
           english_language_name := english; unique_prefix_length := prefix |}.

(** ** electrum-words.cpp *)

Fixpoint trimmed_concat (language : Base) (ws : list (list Z)) : R (list Z) :=
  match ws with
  | [] => Ret []
  | w :: ws =>
    found ← map_find (trimmed_word_map language) (utf8prefix w (unique_prefix_length language));
    kv ← get found Word_not_found;
    rest ← trimmed_concat language ws;
    Ret (kv.1 ++ rest)
  end.

Definition create_checksum_index (ws : list (list Z)) (language : Base) : R Z :=
  trimmed_words ← trimmed_concat language ws;
  if bool_decide (ws = []) then Throw Division_by_zero
  else Ret (u32 (crc_32 trimmed_words mod Z.of_nat (length ws))).

Definition trim_to (language : Base) (w : list Z) : list Z :=
  if bool_decide (unique_prefix_length language < length w)%nat
  then utf8prefix w (unique_prefix_length language) else w.

Definition checksum_test (seed : list (list Z)) (language : Base) : R bool :=
  match last seed with
  | None => Ret false
  | Some last_word =>
    let seed := take (length seed - 1) seed in
    idx ← create_checksum_index seed language;
    checksum ← get (seed !! Z.to_nat idx) Out_of_range;
    WordEqual (trim_to language checksum) (trim_to language last_word)
  end.

(** The indices of the words; [None] when one is not in the language *)
Fixpoint match_words (language : Base) (has_checksum : bool) (seed : list (list Z)) : R (option (list Z)) :=
  match seed with
  | [] => Ret (Some [])
  | w :: seed =>
    found ← (if has_checksum
             then map_find (trimmed_word_map language) (utf8prefix w (unique_prefix_length language))
             else map_find (word_map language) w);
    match found with
    | None => Ret None
    | Some kv =>
      rest ← match_words language has_checksum seed;
      Ret (option_map (cons kv.2) rest)
    end
  end.

(** The language and the indices, which are cleared when only the checksum failed *)
Fixpoint find_seed_language (language_instances : list Base) (seed : list (list Z)) (has_checksum : bool)
    (fallback : option Base) : R (option (Base * list Z)) :=
  match language_instances with
  | [] => Ret (option_map (fun l => (l, [])) fallback)
  | l :: ls =>
    matched_indices ← match_words l has_checksum seed;
    match matched_indices with
    | None => find_seed_language ls seed has_checksum fallback
    | Some ixs =>
      ok ← (if has_checksum then checksum_test seed l else Ret true);
      if (ok : bool) then Ret (Some (l, ixs)) else find_seed_language ls seed has_checksum (Some l)
    end
  end.

(** Three indices as four bytes; [None] when they are not those of a number *)
Definition join (word_list_length w1 w2 w3 : Z) : R (option (list Z)) :=
  if word_list_length =? 0 then Throw Division_by_zero
  else
    let n := word_list_length in
    let w0 := u32 (u32 (w1 + u32 (n * (u32 (u32 (n - w1) + w2) mod n)))
                   + u32 (u32 (n * n) * (u32 (u32 (n - w2) + w3) mod n))) in
    if negb (w0 mod n =? w1) then Ret None else Ret (Some (le_digits 256 4 w0)).

(** The loop over the triples: what it appends, and whether it went through *)
Fixpoint join_loop (word_list_length : Z) (n : nat) (ixs : list Z) (dst : list Z) : R (bool * list Z) :=
  match n with
  | O => Ret (true, dst)
  | S n =>
    match ixs with
    | w1 :: w2 :: w3 :: ixs =>
      b ← join word_list_length w1 w2 w3;
      match b with
      | None => Ret (false, dst)
      | Some bs => join_loop word_list_length n ixs (dst ++ bs)
      end
    | _ => Throw Out_of_range
    end
  end.

(** The result, what [dst] holds and the name written, if any *)
Definition words_to_bytes (language_instances : list Base) (words dst : list Z) (len : Z) (duplicate : bool)
  : R (bool * list Z * option (list Z)) :=
  let seed := split words in
  let nseed := Z.of_nat (length seed) in
  if negb (len mod 4 =? 0) then Ret (false, dst, None)
  else
    let expected := len * 8 * 3 / 32 in
    if negb (len =? 0) && negb (nseed =? expected / 2) && negb (nseed =? expected)
       && negb (nseed =? expected + 1)
    then Ret (false, dst, None)
    else
      let has_checksum := if len =? 0 then true else nseed =? expected + 1 in
      found ← find_seed_language language_instances seed has_checksum None;
      match found with
      | None => Ret (false, dst, None)
      | Some (language, matched_indices) =>
        let name := Some (language_name language) in
        ok ← (if has_checksum then checksum_test seed language else Ret true);
        if negb ok then Ret (false, dst, name)
        else
          let nwords := (if has_checksum then length seed - 1 else length seed)%nat in
          '(ok, dst) ← join_loop (u32 (Z.of_nat (length (word_list language)))) (nwords / 3) matched_indices dst;
          if negb ok then Ret (false, dst, name)
          else if (0 <? len) && duplicate && (Z.of_nat nwords =? len * 3 / 32 / 2)
          then Ret (true, dst ++ dst, name)
          else Ret (true, dst, name)
      end.

(** The version for a secret key: its bytes and the language name *)
Definition words_to_key (language_instances : list Base) (words : list Z) : R (option (list Z * list Z)) :=
  '(ok, s, name) ← words_to_bytes language_instances words [] 32 true;
  if negb ok then Ret None
  else if negb (bool_decide (length s = 32)%nat) then Ret None
  else Ret (Some (s, default [] name)).

(** The three indices of a number *)
Definition split_number (n w0 : Z) : Z * Z * Z :=
  let w1 := w0 mod n in
  let w2 := u32 (w0 / n + w1) mod n in
  let w3 := u32 (w0 / n / n + w2) mod n in
  (w1, w2, w3).

Definition space : Z := 32.

(** The loop over groups of four bytes: the text and [words_store] *)
Fixpoint emit_loop (wl : list (list Z)) (n : nat) (src words : list Z) (store : list (list Z))
  : R (list Z * list (list Z)) :=
  match n with
  | O => Ret (words, store)
  | S n =>
    let l := Z.of_nat (length wl) in
    if l =? 0 then Throw Division_by_zero
    else
      let '(w1, w2, w3) := split_number l (le_value 256 (take 4 src)) in
      a ← get (wl !! Z.to_nat w1) Out_of_range;
      b ← get (wl !! Z.to_nat w2) Out_of_range;
      c ← get (wl !! Z.to_nat w3) Out_of_range;
      emit_loop wl n (drop 4 src) (words ++ a ++ [space] ++ b ++ [space] ++ c ++ [space])
        (store ++ [a; b; c])
  end.

(** The last language of the list with that name *)
Definition language_named (language_list : list Base) (name : list Z) : option Base :=
  fold_left (fun acc l =>
    if bool_decide (name = language_name l) || bool_decide (name = english_language_name l)
    then Some l else acc) language_list None.

(** [None] is the result [false]; [src] holds the [len] bytes. *)
Definition bytes_to_words (language_list : list Base) (src : list Z) (name : list Z) : R (option (list Z)) :=
  let len := length src in
  if negb (bool_decide (len mod 4 = 0)%nat) || bool_decide (len = 0)%nat then Ret None
  else
    match language_named language_list name with
    | None => Ret None
    | Some language =>
      '(words, store) ← emit_loop (word_list language) (len / 4) src [] [];
      idx ← create_checksum_index store language;
      w ← get (store !! Z.to_nat idx) Out_of_range;
      Ret (Some (words ++ w))
    end.

Definition seed_length : nat := 24.

Definition get_is_old_style_seed (seed : list Z) : bool :=
  negb (bool_decide (length (split seed) = seed_length + 1)%nat).

Definition get_english_name_for (language_list : list Base) (name : list Z) : list Z :=
  match list_find (fun l => language_name l = name) language_list with
  | Some (_, l) => english_language_name l
  | None => str_bytes "<language not found>"
  end.

Definition is_valid_language (language_list : list Base) (language : list Z) : bool :=
  existsb (fun l => bool_decide (english_language_name l = language)
                    || bool_decide (language_name l = language)) language_list.

Definition get_language_list (language_list : list Base) (english : bool) : list (list Z) :=
  (fun l => if english then english_language_name l else language_name l) <$> language_list.

(** ** Numbers and triples *)

Definition in_list (i : Z) : Prop := 0 <= i < 1626.

(** The number a triple stands for *)
Definition triple_value (w1 w2 w3 : Z) : Z :=
  w1 + 1626 * ((w2 - w1) mod 1626) + 1626 * 1626 * ((w3 - w2) mod 1626).

Lemma triple_value_range w1 w2 w3 : in_list w1 -> 0 <= triple_value w1 w2 w3 < 1626 * 1626 * 1626.
Proof.
  unfold in_list, triple_value. intros H1.
  pose proof (Z.mod_pos_bound (w2 - w1) 1626 ltac:(lia)).
  pose proof (Z.mod_pos_bound (w3 - w2) 1626 ltac:(lia)). lia.
Qed.

Lemma sub_add_mod a b : (1626 - a + b) mod 1626 = (b - a) mod 1626.
Proof. replace (1626 - a + b) with (b - a + 1 * 1626) by lia. apply Z.mod_add. lia. Qed.

(** A triple is refused exactly when its number does not fit in 32 bits. *)
Lemma join_eq w1 w2 w3 :
  in_list w1 -> in_list w2 -> in_list w3 ->
  join 1626 w1 w2 w3 = Ret (if triple_value w1 w2 w3 <? 2 ^ 32
                            then Some (le_digits 256 4 (triple_value w1 w2 w3)) else None).
Proof.
  intros H1 H2 H3. pose proof (triple_value_range w1 w2 w3 H1) as HV.
  unfold in_list, join in *. change (1626 =? 0) with false. cbv iota zeta.
  rewrite (wrap_small 32 (1626 - w1)), (wrap_small 32 (1626 - w2)) by mach.
  rewrite (wrap_small 32 (1626 - w1 + w2)), (wrap_small 32 (1626 - w2 + w3)) by mach.
  rewrite !sub_add_mod. unfold triple_value in *.
  pose proof (Z.mod_pos_bound (w2 - w1) 1626 ltac:(lia)) as A.
  pose proof (Z.mod_pos_bound (w3 - w2) 1626 ltac:(lia)) as B.
  set (a := (w2 - w1) mod 1626) in *. set (b := (w3 - w2) mod 1626) in *. clearbody a b.
  rewrite (wrap_small 32 (1626 * a)), (wrap_small 32 (1626 * 1626)) by mach.
  rewrite (wrap_small 32 (w1 + _)) by mach.
  set (V := w1 + 1626 * a + 1626 * 1626 * b) in *.
  assert (E : u32 (w1 + 1626 * a + u32 (1626 * 1626 * b)) = if V <? 2 ^ 32 then V else V - 2 ^ 32).
  { unfold wrap. rewrite Zplus_mod_idemp_r. fold V. change (2 ^ 32) with 4294967296.
    destruct (Z.ltb_spec V 4294967296); [apply Z.mod_small; lia|].
    symmetry. apply (Z.mod_unique_pos _ _ 1); lia. }
  rewrite E. destruct (Z.ltb_spec V (2 ^ 32)) as [Hlt|Hge].
  - assert (V mod 1626 = w1) as ->.
    { symmetry. apply (Z.mod_unique_pos _ _ (a + 1626 * b)); unfold V; lia. }
    by rewrite Z.eqb_refl.
  - assert ((V - 2 ^ 32) mod 1626 <> w1) as Hne.
    { change (2 ^ 32) with 4294967296. destruct (Z.ltb_spec w1 490).
      - rewrite <- (Z.mod_unique_pos _ 1626 (a + 1626 * b - 2641432) (w1 + 1136)); [lia|lia|unfold V; lia].
      - rewrite <- (Z.mod_unique_pos _ 1626 (a + 1626 * b - 2641431) (w1 - 490)); [lia|lia|unfold V; lia]. }
    by rewrite (proj2 (Z.eqb_neq _ _) Hne).
Qed.

Lemma split_number_eq w0 :
  0 <= w0 < 2 ^ 32 ->
  let '(w1, w2, w3) := split_number 1626 w0 in
  in_list w1 /\ in_list w2 /\ in_list w3 /\ triple_value w1 w2 w3 = w0.
Proof.
  intros Hw. unfold split_number, in_list, triple_value.
  pose proof (Z.div_mod w0 1626 ltac:(lia)) as D0. pose proof (Z.mod_pos_bound w0 1626 ltac:(lia)) as M0.
  set (q := w0 / 1626) in *. set (r := w0 mod 1626) in *.
  assert (0 <= q < 2641432) as Hq by (change (2 ^ 32) with 4294967296 in *; lia). clearbody q r.
  pose proof (Z.div_mod q 1626 ltac:(lia)) as D1. pose proof (Z.mod_pos_bound q 1626 ltac:(lia)) as M1.
  set (q2 := q / 1626) in *. set (r2 := q mod 1626) in *.
  assert (0 <= q2 < 1626) as Hq2 by lia. clearbody q2 r2.
  rewrite (wrap_small 32 (q + r)) by mach.
  pose proof (Z.mod_pos_bound (q + r) 1626 ltac:(lia)) as M2.
  set (w2 := (q + r) mod 1626) in *. rewrite (wrap_small 32 (q2 + w2)) by mach.
  pose proof (Z.mod_pos_bound (q2 + w2) 1626 ltac:(lia)) as M3.
  repeat (split; [lia|]).
  assert ((w2 - r) mod 1626 = r2) as ->.
  { unfold w2. rewrite Zminus_mod_idemp_l. replace (q + r - r) with (r2 + q2 * 1626) by lia.
    rewrite Z.mod_add by lia. apply Z.mod_small. lia. }
  assert (((q2 + w2) mod 1626 - w2) mod 1626 = q2) as ->.
  { rewrite Zminus_mod_idemp_l. replace (q2 + w2 - w2) with q2 by lia. apply Z.mod_small. lia. }
  lia.
Qed.

(** Splitting inverts joining. *)
Lemma split_triple_value w1 w2 w3 :
  in_list w1 -> in_list w2 -> in_list w3 -> triple_value w1 w2 w3 < 2 ^ 32 ->
  split_number 1626 (triple_value w1 w2 w3) = (w1, w2, w3).
Proof.
  intros H1 H2 H3 Hlt. pose proof (triple_value_range w1 w2 w3 H1) as HV.
  pose proof (split_number_eq (triple_value w1 w2 w3) ltac:(lia)) as Hs.
  destruct (split_number 1626 _) as [[v1 v2] v3]. destruct Hs as (G1 & G2 & G3 & E).
  unfold triple_value, in_list in *.
  pose proof (Z.mod_pos_bound (w2 - w1) 1626 ltac:(lia)) as A.
  pose proof (Z.mod_pos_bound (w3 - w2) 1626 ltac:(lia)) as B.
  pose proof (Z.mod_pos_bound (v2 - v1) 1626 ltac:(lia)) as C.
  pose proof (Z.mod_pos_bound (v3 - v2) 1626 ltac:(lia)) as D.
  assert (v1 = w1) as -> by lia.
  assert ((v2 - w1) mod 1626 = (w2 - w1) mod 1626) as E2 by lia.
  assert ((v3 - v2) mod 1626 = (w3 - w2) mod 1626) as E3 by lia.
  assert (Hinj : forall a b c, 0 <= a < 1626 -> 0 <= b < 1626 -> (a - c) mod 1626 = (b - c) mod 1626 -> a = b).
  { intros a b c Ha Hb E'.
    pose proof (Z.div_mod (a - c) 1626 ltac:(lia)). pose proof (Z.div_mod (b - c) 1626 ltac:(lia)). lia. }
  apply Hinj in E2; [|done..]. subst v2. apply Hinj in E3; [|done..]. by subst.
Qed.

(** ** Texts *)

Definition plain_word (w : list Z) : Prop := w <> [] /\ Forall (fun c => isspace c = false) w.

Lemma split_loop_word w : forall fields f s,
  Forall (fun c => isspace c = false) w ->
  split_loop false (fields ++ [f]) (w ++ s) = split_loop false (fields ++ [f ++ w]) s.
Proof.
  induction w as [|c w IH]; intros fields f s Hw; [by rewrite app_nil_r|].
  apply Forall_cons in Hw as [Hc Hw]. cbn [app split_loop]. rewrite Hc.
  assert (alter (fun f => f ++ [c]) (length (fields ++ [f]) - 1)%nat (fields ++ [f])
          = fields ++ [f ++ [c]]) as ->.
  { rewrite length_app. cbn [length]. replace (length fields + 1 - 1)%nat with (length fields + 0)%nat by lia.
    by rewrite alter_app_r. }
  rewrite IH by done. by rewrite <- app_assoc.
Qed.

Lemma split_first_word w fields s :
  plain_word w -> split_loop true fields (w ++ s) = split_loop false (fields ++ [w]) s.
Proof.
  intros [Hne Hw]. destruct w as [|c w]; [done|]. apply Forall_cons in Hw as [Hc Hw].
  cbn [app split_loop]. rewrite Hc.
  assert (alter (fun f => f ++ [c]) (length (fields ++ [[]]) - 1)%nat (fields ++ [[]]) = fields ++ [[c]]) as ->.
  { rewrite length_app. cbn [length]. replace (length fields + 1 - 1)%nat with (length fields + 0)%nat by lia.
    by rewrite alter_app_r. }
  by rewrite split_loop_word.
Qed.

(** Words, each followed by a space *)
Definition spaced_words (ws : list (list Z)) : list Z := concat ((fun w => w ++ [space]) <$> ws).

Lemma split_loop_spaced ws fields s :
  Forall plain_word ws -> split_loop true fields (spaced_words ws ++ s) = split_loop true (fields ++ ws) s.
Proof.
  intros Hws. revert fields. induction Hws as [|w ws Hw _ IH]; intros fields; [by rewrite app_nil_r|].
  unfold spaced_words. cbn [fmap list_fmap concat]. rewrite <- !app_assoc. rewrite split_first_word by done.
  cbn [app split_loop]. change (isspace space) with true. cbv iota. fold (spaced_words ws).
  rewrite IH. by rewrite <- app_assoc.
Qed.

Lemma split_seed ws w :
  Forall plain_word ws -> plain_word w -> split (spaced_words ws ++ w) = ws ++ [w].
Proof.
  intros Hws Hw. unfold split. rewrite split_loop_spaced by done.
  rewrite <- (app_nil_r w) at 1. by rewrite split_first_word.
Qed.

(** ** The tables of a language *)

Lemma map_find_canonical m w wc :
  canonical w = Ret wc -> map_find m w = Ret (snd <$> find_equal m wc).
Proof. intros E. unfold map_find. by rewrite E. Qed.

Lemma map_find_inv m w r : map_find m w = Ret r -> exists wc, canonical w = Ret wc.
Proof. unfold map_find. destruct (canonical w) as [wc|]; [by eexists|done]. Qed.

(** Setting a new word appends it. *)
Lemma map_set_fresh m w v :
  map_find m w = Ret None -> map_set m w v = Ret (m ++ [(w, v)]).
Proof.
  intros H. destruct (map_find_inv _ _ _ H) as [wc E]. unfold map_set.
  rewrite (map_find_canonical m w wc E) in H. rewrite E. cbn [mbind result_bind].
  destruct (find_equal m wc) as [[i kv]|] eqn:F; [|done].
  cbn in H. discriminate.
Qed.

Lemma map_find_app_found m kv' w r :
  map_find m w = Ret (Some r) -> map_find (m ++ [kv']) w = Ret (Some r).
Proof.
  intros H. destruct (map_find_inv _ _ _ H) as [wc E].
  rewrite (map_find_canonical m w wc E) in H. rewrite (map_find_canonical _ w wc E).
  destruct (find_equal m wc) as [[i kv]|] eqn:F; [|cbn in H; discriminate].
  unfold find_equal in *. by rewrite (list_find_app_l _ _ _ _ _ F).
Qed.

Lemma map_find_app_new m w v :
  map_find m w = Ret None -> map_find (m ++ [(w, v)]) w = Ret (Some (w, v)).
Proof.
  intros H. destruct (map_find_inv _ _ _ H) as [wc E].
  rewrite (map_find_canonical m w wc E) in H. rewrite (map_find_canonical _ w wc E).
  destruct (find_equal m wc) as [[i kv]|] eqn:F; [cbn in H; discriminate|].
  unfold find_equal in *. rewrite (list_find_app_r _ _ _ F). cbn. by rewrite decide_True.
Qed.

Lemma utf8prefix_whole s n : (length s <= n)%nat -> utf8prefix s n = s.
Proof.
  revert s. induction n as [|n IH]; intros [|c s] Hl; try done; [cbn in Hl; lia|]. cbn [utf8prefix].
  assert (forall s, let '(a, b) := span_continuation s in s = a ++ b) as Hspan.
  { clear. induction s as [|c s IH]; [done|]. cbn. destruct (_ =? _); [|done].
    destruct (span_continuation s). by subst. }
  specialize (Hspan s). destruct (span_continuation s) as [a b]. subst s.
  rewrite IH; [done|]. cbn in Hl. rewrite length_app in Hl. lia.
Qed.

Lemma trim_eq w p :
  (if bool_decide (p < length w)%nat then utf8prefix w p else w) = utf8prefix w p.
Proof. case_bool_decide; [done|]. rewrite utf8prefix_whole; [done|lia]. Qed.

(** Every prefix in the table leads to its word, and there is nothing else. *)
Definition table_ok (prefix : nat) (t : word_table) (done : list (list Z)) : Prop :=
  Forall (fun kv => in_list kv.2) t
  /\ forall i w, done !! i = Some w ->
       map_find t (utf8prefix w prefix) = Ret (Some (utf8prefix w prefix, Z.of_nat i)).

Lemma populate_loop_ok flags prefix ws done m t m' t' ii' :
  ALLOW_DUPLICATE_PREFIXES flags = false -> (length done + length ws <= NWORDS)%nat ->
  table_ok prefix t done ->
  populate_loop flags prefix (m, t, Z.of_nat (length done)) ws = Ret (m', t', ii') ->
  table_ok prefix t' (done ++ ws).
Proof.
  intros Hf. revert done m t. induction ws as [|w ws IH]; intros done m t Hl Ht E.
  { cbn in E. injection E as <- <- <-. by rewrite app_nil_r. }
  cbn [populate_loop] in E. unfold populate_step in E.
  destruct (map_set m w _) as [m1|]; [|done]. cbn [mbind result_bind] in E.
  destruct (bool_decide _ && _); [done|]. rewrite trim_eq, Hf in E.
  destruct (map_find t (utf8prefix w prefix)) as [found|] eqn:Ef; [|done].
  cbn [mbind result_bind negb] in E. rewrite andb_true_r in E. case_bool_decide as Hfound; [done|].
  destruct found as [kv|]; [destruct Hfound; by eexists|].
  rewrite (map_set_fresh _ _ _ Ef) in E. cbn [mbind result_bind] in E.
  replace (done ++ w :: ws) with ((done ++ [w]) ++ ws) by (by rewrite <- app_assoc).
  apply (IH (done ++ [w]) m1 (t ++ [(utf8prefix w prefix, Z.of_nat (length done))])).
  - rewrite length_app. cbn in *. lia.
  - destruct Ht as [Ha Hb]. split.
    + apply Forall_app. split; [done|]. constructor; [|done]. unfold in_list, NWORDS in *. cbn in *. lia.
    + intros i w' Hi. apply lookup_app_Some in Hi as [Hi|[Hge Hi]].
      * by apply map_find_app_found, Hb.
      * apply list_lookup_singleton_Some in Hi as [Hz <-].
        replace i with (length done) by lia. by apply map_find_app_new.
  - rewrite length_app. cbn [length]. replace (Z.of_nat (length done + 1)) with (Z.of_nat (length done) + 1) by lia.
    exact E.
Qed.

(** What the constructor of a language without duplicate prefixes guarantees *)
Record language_ok (l : Base) : Prop := {
  lo_length : length (word_list l) = NWORDS;
  lo_table : table_ok (unique_prefix_length l) (trimmed_word_map l) (word_list l) }.

Lemma make_language_ok name english prefix words flags l :
  make_language name english prefix words flags = Ret l -> ALLOW_DUPLICATE_PREFIXES flags = false ->
  language_ok l /\ word_list l = words /\ language_name l = name /\ english_language_name l = english
  /\ unique_prefix_length l = prefix.
Proof.
  intros E Hf. unfold make_language in E. case_bool_decide as Hl; [|done]. cbn [negb] in E.
  destruct (populate_loop flags prefix ([], [], 0) words) as [[[m t] ii]|] eqn:Ep; [|done].
  cbn in E. injection E as <-. split; [|done]. constructor; [done|]. cbn.
  apply (populate_loop_ok flags prefix words [] [] [] m t ii); [done|cbn; lia| |done].
  split; [constructor|]. intros i w Hi. done.
Qed.

(** ** Languages that may have duplicate prefixes *)

(** Built by the constructor, whatever the words and the flags *)
Definition constructed (l : Base) : Prop :=
  exists name english prefix words flags, make_language name english prefix words flags = Ret l.

(** The indices in the table are those of words. *)
Definition table_range (t : word_table) : Prop := Forall (fun kv => in_list kv.2) t.

Lemma map_set_range m w v m' :
  map_set m w v = Ret m' -> table_range m -> in_list v -> table_range m'.
Proof.
  unfold map_set, table_range. intros E Hm Hv. destruct (canonical w) as [wc|]; [|done].
  cbn [mbind result_bind] in E. destruct (find_equal m wc) as [[i kv]|]; injection E as <-.
  - by apply Forall_insert.
  - apply Forall_app. split; [done|]. by constructor.
Qed.

Lemma populate_loop_range flags prefix ws m t ii m' t' ii' :
  0 <= ii -> ii + Z.of_nat (length ws) <= 1626 -> table_range t ->
  populate_loop flags prefix (m, t, ii) ws = Ret (m', t', ii') -> table_range t'.
Proof.
  revert m t ii. induction ws as [|w ws IH]; intros m t ii H0 Hl Ht E.
  { cbn in E. by injection E as <- <- <-. }
  cbn [length] in Hl. cbn [populate_loop] in E. unfold populate_step in E.
  destruct (map_set m w _) as [m1|]; [|done]. cbn [mbind result_bind] in E.
  destruct (bool_decide _ && _); [done|].
  destruct (map_find t _) as [found|]; [|done]. cbn [mbind result_bind] in E.
  destruct (bool_decide _ && _); [done|].
  destruct (map_set t _ ii) as [t1|] eqn:Es; [|done]. cbn [mbind result_bind] in E.
  apply (IH m1 t1 (ii + 1)); [lia|lia| |done].
  apply (map_set_range _ _ _ _ Es Ht). unfold in_list. lia.
Qed.

Lemma constructed_range l :
  constructed l -> length (word_list l) = NWORDS /\ table_range (trimmed_word_map l).
Proof.
  intros (name & english & prefix & words & flags & E). unfold make_language in E.
  case_bool_decide as Hl; [|done]. cbn [negb] in E.
  destruct (populate_loop flags prefix ([], [], 0) words) as [[[m t] ii]|] eqn:Ep; [|done].
  cbn in E. injection E as <-. split; [done|]. cbn.
  apply (populate_loop_range _ _ _ _ _ _ _ _ _ ltac:(reflexivity) ltac:(rewrite Hl; unfold NWORDS; lia)
           ltac:(constructor) Ep).
Qed.

(** The key of an entry of the table has the prefix of the word at its index, whatever the duplicates. *)
Definition same_prefix (prefix : nat) (v w : list Z) : Prop :=
  exists c, canonical (utf8prefix v prefix) = Ret c /\ canonical (utf8prefix w prefix) = Ret c.
Definition table_words (prefix : nat) (t : word_table) (done : list (list Z)) : Prop :=
  Forall (fun kv => 0 <= kv.2 /\ exists v c, done !! Z.to_nat kv.2 = Some v /\ canonical (utf8prefix v prefix) = Ret c /\ canonical kv.1 = Ret c) t.

Lemma map_set_words prefix t done w t' :
  map_set t (utf8prefix w prefix) (Z.of_nat (length done)) = Ret t' -> table_words prefix t done -> table_words prefix t' (done ++ [w]).
Proof.
  intros E Ht. assert (table_words prefix t (done ++ [w])) as Ht'.
  { eapply Forall_impl; [exact Ht|]. intros kv (H0 & v & c & Hv & ?). split; [done|]. exists v, c. split; [by apply lookup_app_l_Some|done]. }
  unfold map_set in E. destruct (canonical (utf8prefix w prefix)) as [wc|] eqn:Ec; [|done]. cbn [mbind result_bind] in E.
  assert (forall k, canonical k = Ret wc -> 0 <= Z.of_nat (length done) /\ exists v c, (done ++ [w]) !! Z.to_nat (Z.of_nat (length done)) = Some v
    /\ canonical (utf8prefix v prefix) = Ret c /\ canonical k = Ret c) as Hnew.
  { intros k Hk. split; [lia|]. exists w, wc. rewrite Nat2Z.id. by rewrite list_lookup_middle. }
  destruct (find_equal t wc) as [[i kv]|] eqn:F; injection E as <-.
  - apply list_find_Some in F as (_ & Hk & _). apply Forall_insert; [done|]. by apply Hnew.
  - apply Forall_app. split; [done|]. constructor; [by apply Hnew|done].
Qed.

Lemma populate_loop_words flags prefix ws done m t m' t' ii' :
  table_words prefix t done -> populate_loop flags prefix (m, t, Z.of_nat (length done)) ws = Ret (m', t', ii') ->
  table_words prefix t' (done ++ ws).
Proof.
  revert done m t. induction ws as [|w ws IH]; intros done m t Ht E.
  { cbn in E. injection E as <- <- <-. by rewrite app_nil_r. }
  cbn [populate_loop] in E. unfold populate_step in E.
  destruct (map_set m w _) as [m1|]; [|done]. cbn [mbind result_bind] in E.
  destruct (bool_decide _ && _); [done|]. rewrite trim_eq in E.
  destruct (map_find t _) as [found|]; [|done]. cbn [mbind result_bind] in E.
  destruct (bool_decide _ && _); [done|].
  destruct (map_set t _ _) as [t1|] eqn:Es; [|done]. cbn [mbind result_bind] in E.
  replace (done ++ w :: ws) with ((done ++ [w]) ++ ws) by (by rewrite <- app_assoc).
  apply (IH (done ++ [w]) m1 t1); [by eapply map_set_words|].
  rewrite length_app. cbn [length]. by replace (Z.of_nat (length done + 1)) with (Z.of_nat (length done) + 1) by lia.
Qed.

Lemma constructed_words l : constructed l -> table_words (unique_prefix_length l) (trimmed_word_map l) (word_list l).
Proof.
  intros (name & english & prefix & words & flags & E). unfold make_language in E.
  case_bool_decide as Hl; [|done]. cbn [negb] in E.
  destruct (populate_loop flags prefix ([], [], 0) words) as [[[m t] ii]|] eqn:Ep; [|done].
  cbn in E. injection E as <-. cbn. apply (populate_loop_words flags prefix words [] [] [] m t ii); [constructor|done].
Qed.

Section Language.
Context (lang : Base) (Hlang : language_ok lang).

Local Abbreviation word_at i w := (word_list lang !! Z.to_nat i = Some w /\ in_list i).

(** Words of the list with their indices *)
Definition words_at (ixs : list Z) (ws : list (list Z)) : Prop := Forall2 (fun i w => word_at i w) ixs ws.

Lemma found_word i w :
  word_at i w ->
  map_find (trimmed_word_map lang) (utf8prefix w (unique_prefix_length lang))
  = Ret (Some (utf8prefix w (unique_prefix_length lang), i)).
Proof.
  intros [Hw Hi]. destruct (lo_table lang Hlang) as [_ H]. rewrite (H _ _ Hw).
  unfold in_list in Hi. by rewrite Z2Nat.id by lia.
Qed.

Lemma match_words_at ixs ws :
  words_at ixs ws -> match_words lang true ws = Ret (Some ixs).
Proof.
  induction 1 as [|i w ixs ws Hw _ IH]; [done|]. cbn [match_words]. rewrite (found_word i w Hw).
  cbn [mbind result_bind]. by rewrite IH.
Qed.

Lemma trimmed_concat_at ixs ws : words_at ixs ws -> exists r, trimmed_concat lang ws = Ret r.
Proof.
  induction 1 as [|i w ixs ws Hw _ [r IH]]; [by eexists|]. cbn [trimmed_concat].
  rewrite (found_word i w Hw). cbn. rewrite IH. by eexists.
Qed.

Lemma checksum_index_at ixs ws :
  words_at ixs ws -> ws <> [] -> (length ws < 1000)%nat ->
  exists k, create_checksum_index ws lang = Ret (Z.of_nat k) /\ (k < length ws)%nat.
Proof.
  intros Hw Hne Hl. destruct (trimmed_concat_at ixs ws Hw) as [r E]. unfold create_checksum_index.
  rewrite E. cbn [mbind result_bind]. rewrite bool_decide_eq_false_2 by done.
  assert (0 < Z.of_nat (length ws)) as Hpos by (destruct ws; [done|cbn; lia]).
  pose proof (Z.mod_pos_bound (crc_32 r) (Z.of_nat (length ws)) Hpos).
  rewrite wrap_small by mach. exists (Z.to_nat (crc_32 r mod Z.of_nat (length ws))).
  rewrite Z2Nat.id by lia. split; [done|lia].
Qed.

(** The checksum word the encoder adds passes the test. *)
Lemma checksum_test_at ixs ws k w :
  words_at ixs ws -> create_checksum_index ws lang = Ret (Z.of_nat k) -> ws !! k = Some w ->
  checksum_test (ws ++ [w]) lang = Ret true.
Proof.
  intros Hw E Hk. unfold checksum_test. rewrite last_snoc, length_app. cbn [length].
  replace (length ws + 1 - 1)%nat with (length ws) by lia. rewrite take_app_length, E.
  cbn [mbind result_bind]. rewrite Nat2Z.id, Hk. cbn [get mbind result_bind].
  destruct (Forall2_lookup_r _ _ _ _ _ Hw Hk) as (i & _ & Hi).
  destruct (map_find_inv _ _ _ (found_word i w Hi)) as [c Ec].
  unfold trim_to. rewrite trim_eq. unfold WordEqual. rewrite Ec. cbn. by rewrite bool_decide_eq_true_2.
Qed.

(** ** Bytes to words *)

(** The indices of [n] groups of four bytes *)
Fixpoint indices (n : nat) (src : list Z) : list Z :=
  match n with
  | O => []
  | S n =>
    let '(w1, w2, w3) := split_number 1626 (le_value 256 (take 4 src)) in
    [w1; w2; w3] ++ indices n (drop 4 src)
  end.

Lemma indices_length n src : length (indices n src) = (3 * n)%nat.
Proof.
  revert src. induction n as [|n IH]; intros src; [done|]. cbn [indices].
  destruct (split_number _ _) as [[w1 w2] w3]. cbn [app length]. rewrite IH. lia.
Qed.

Lemma group_range n src :
  byte_list src -> (4 * S n <= length src)%nat -> 0 <= le_value 256 (take 4 src) < 2 ^ 32.
Proof.
  intros Hb Hl. pose proof (le_value_bound 256 (take 4 src)) as H.
  rewrite length_take, Nat.min_l in H by lia. apply H; [lia|]. by apply Forall_take.
Qed.

Lemma emit_loop_ok n src words store :
  byte_list src -> (4 * n <= length src)%nat ->
  exists ws, emit_loop (word_list lang) n src words store = Ret (words ++ spaced_words ws, store ++ ws)
    /\ words_at (indices n src) ws.
Proof.
  revert src words store. induction n as [|n IH]; intros src words store Hb Hl.
  { exists []. cbn. rewrite !app_nil_r. split; [done|constructor]. }
  cbn [emit_loop indices]. rewrite (lo_length lang Hlang). change (Z.of_nat NWORDS) with 1626.
  change (1626 =? 0) with false. cbv iota zeta.
  pose proof (split_number_eq _ (group_range n src Hb Hl)) as Hs.
  destruct (split_number 1626 _) as [[w1 w2] w3]. destruct Hs as (H1 & H2 & H3 & _).
  assert (Hget : forall i, in_list i -> exists w, word_list lang !! Z.to_nat i = Some w).
  { intros i Hi. apply lookup_lt_is_Some_2. rewrite (lo_length lang Hlang). unfold in_list, NWORDS in *. lia. }
  destruct (Hget w1 H1) as [a Ea]. destruct (Hget w2 H2) as [b Eb]. destruct (Hget w3 H3) as [c Ec].
  rewrite Ea, Eb, Ec. cbn [get mbind result_bind].
  destruct (IH (drop 4 src) (words ++ a ++ [space] ++ b ++ [space] ++ c ++ [space]) (store ++ [a; b; c]))
    as (ws & E & Hw); [by apply Forall_drop|rewrite length_drop; lia|].
  exists (a :: b :: c :: ws). split.
  - rewrite E. unfold spaced_words. cbn [fmap list_fmap concat]. by rewrite <- !app_assoc.
  - by repeat (constructor; [done|]).
Qed.

(** ** Words to bytes *)

Lemma join_loop_ok n src rest dst :
  byte_list src -> (4 * n <= length src)%nat ->
  join_loop 1626 n (indices n src ++ rest) dst = Ret (true, dst ++ take (4 * n) src).
Proof.
  revert src dst. induction n as [|n IH]; intros src dst Hb Hl; [by rewrite app_nil_r|].
  cbn [indices]. pose proof (split_number_eq _ (group_range n src Hb Hl)) as Hs.
  destruct (split_number 1626 _) as [[w1 w2] w3]. destruct Hs as (H1 & H2 & H3 & E).
  cbn [app join_loop]. rewrite join_eq by done. rewrite E.
  rewrite (proj2 (Z.ltb_lt _ _)) by (apply group_range in Hl; [lia|done]). cbn [mbind result_bind].
  assert (le_digits 256 4 (le_value 256 (take 4 src)) = take 4 src) as ->.
  { assert (length (take 4 src) = 4%nat) as L4 by (rewrite length_take; lia).
    rewrite <- L4 at 1. apply le_digits_value; [lia|]. by apply Forall_take. }
  rewrite IH; [|by apply Forall_drop|rewrite length_drop; lia]. rewrite <- app_assoc.
  do 3 f_equal. rewrite <- (take_drop 4 (take (4 * S n) src)).
  rewrite take_take, skipn_firstn_comm. f_equal; [f_equal; lia|f_equal; lia].
Qed.
End Language.

(** ** The whole way *)

(** A language that does not take the seed: a word is missing or the checksum is wrong *)
Definition rejects (seed : list (list Z)) (l : Base) : Prop :=
  match_words l true seed = Ret None
  \/ exists ixs, match_words l true seed = Ret (Some ixs) /\ checksum_test seed l = Ret false.

Lemma find_after seed before l after fallback ixs :
  Forall (rejects seed) before -> match_words l true seed = Ret (Some ixs) ->
  checksum_test seed l = Ret true ->
  find_seed_language (before ++ l :: after) seed true fallback = Ret (Some (l, ixs)).
Proof.
  intros Hb Hm Hc. revert fallback. induction Hb as [|b bs Hr _ IH]; intros fallback.
  - cbn [app find_seed_language]. rewrite Hm. cbn [mbind result_bind]. by rewrite Hc.
  - cbn [app find_seed_language]. destruct Hr as [E|(ix & E & Ec)]; rewrite E; cbn [mbind result_bind]; [done|].
    rewrite Ec. cbn. done.
Qed.

(** A seed of 24 words and a checksum in a language *)
Lemma seed_decodes lang (Hlang : language_ok lang) before after src ws k w text :
  byte_list src -> length src = 32%nat -> words_at lang (indices 8 src) ws ->
  create_checksum_index ws lang = Ret (Z.of_nat k) -> ws !! k = Some w ->
  split text = ws ++ [w] -> Forall (rejects (ws ++ [w])) before ->
  words_to_key (before ++ lang :: after) text = Ret (Some (src, language_name lang)).
Proof.
  intros Hb Hl Hw Ek Hk Hs Hr.
  assert (length ws = 24%nat) as Hlw by (by rewrite <- (Forall2_length _ _ _ Hw), indices_length).
  destruct (Forall2_lookup_r _ _ _ _ _ Hw Hk) as (i & _ & Hi).
  assert (Hm : match_words lang true (ws ++ [w]) = Ret (Some (indices 8 src ++ [i]))).
  { apply (match_words_at lang Hlang). apply Forall2_app; [done|]. constructor; [exact Hi|constructor]. }
  pose proof (checksum_test_at lang Hlang _ _ _ _ Hw Ek Hk) as Hc.
  unfold words_to_key, words_to_bytes. rewrite Hs.
  assert (length (ws ++ [w]) = 25%nat) as -> by (rewrite length_app; cbn; lia).
  change (Z.of_nat 25) with 25.
  change (negb (32 mod 4 =? 0)) with false. cbv iota zeta.
  change (negb (32 =? 0) && negb (25 =? 32 * 8 * 3 / 32 / 2) && negb (25 =? 32 * 8 * 3 / 32)
          && negb (25 =? 32 * 8 * 3 / 32 + 1)) with false. cbv iota.
  change (if 32 =? 0 then true else 25 =? 32 * 8 * 3 / 32 + 1) with true. cbv iota.
  rewrite (find_after _ before lang after None _ Hr Hm Hc). cbn [mbind result_bind]. rewrite Hc.
  cbn [mbind result_bind negb]. rewrite (lo_length lang Hlang).
  change (u32 (Z.of_nat NWORDS)) with 1626. change ((25 - 1) / 3)%nat with 8%nat.
  rewrite join_loop_ok by (done || lia). cbn [mbind result_bind negb app].
  change ((0 <? 32) && true && (Z.of_nat (25 - 1) =? 32 * 3 / 32 / 2)) with false. cbv iota.
  cbn [mbind result_bind negb]. rewrite take_ge by lia. rewrite bool_decide_eq_true_2 by done. done.
Qed.

(** The text of a key *)
Lemma seed_of_key lang language_list before after name src :
  language_ok lang -> Forall plain_word (word_list lang) -> language_named language_list name = Some lang ->
  byte_list src -> length src = 32%nat ->
  exists text, bytes_to_words language_list src name = Ret (Some text)
    /\ length (split text) = 25%nat
    /\ (Forall (rejects (split text)) before ->
        words_to_key (before ++ lang :: after) text = Ret (Some (src, language_name lang))).
Proof.
  intros Hlang Hplain Hname Hb Hl.
  destruct (emit_loop_ok lang Hlang 8 src [] [] Hb ltac:(lia)) as (ws & Eemit & Hw).
  assert (length ws = 24%nat) as Hlw by (by rewrite <- (Forall2_length _ _ _ Hw), indices_length).
  destruct (checksum_index_at lang Hlang _ ws Hw) as (k & Ek & Hk); [by intros ->|lia|].
  destruct (lookup_lt_is_Some_2 ws k Hk) as [w Hkw].
  exists (spaced_words ws ++ w).
  assert (Hpw : Forall plain_word ws).
  { apply Forall_lookup. intros j x Hj. destruct (Forall2_lookup_r _ _ _ _ _ Hw Hj) as (i & _ & Hi & _).
    rewrite Forall_lookup in Hplain. by eapply Hplain. }
  assert (Hs : split (spaced_words ws ++ w) = ws ++ [w]).
  { apply split_seed; [done|]. rewrite Forall_lookup in Hpw. by eapply Hpw. }
  split; [|rewrite Hs; split; [rewrite length_app; cbn; lia|]; intros Hr;
           by apply (seed_decodes lang Hlang before after src ws k w)].
  unfold bytes_to_words. rewrite Hl.
  change (negb (bool_decide (32 mod 4 = 0)%nat) || bool_decide (32 = 0)%nat) with false.
  cbv iota zeta. rewrite Hname. change (32 / 4)%nat with 8%nat. rewrite Eemit.
  cbn [mbind result_bind app]. rewrite Ek. cbn [mbind result_bind]. by rewrite Nat2Z.id, Hkw.
Qed.

(** A seed gives its key back. In a language whose constructor accepted its words,
    and whose words hold no white space, every 32-byte key is written as a text of 25
    words, which is not an old-style seed and reads back as the same key in the same
    language, unless a language tried before also knows all its words and finds its
    checksum right. *)
Theorem seed_roundtrip (name english : list Z) (prefix : nat) (words : list (list Z)) (flags : populate_flags)
    (lang : Base) (language_list before after : list Base) (src : list Z) :
  make_language name english prefix words flags = Ret lang -> ALLOW_DUPLICATE_PREFIXES flags = false ->
  Forall plain_word words -> language_named language_list name = Some lang ->
  byte_list src -> length src = 32%nat ->
  exists text, bytes_to_words language_list src name = Ret (Some text)
    /\ length (split text) = 25%nat /\ get_is_old_style_seed text = false
    /\ (Forall (rejects (split text)) before ->
        words_to_key (before ++ lang :: after) text = Ret (Some (src, name))).
Proof.
  intros Emk Hf Hplain Hname Hb Hl.
  destruct (make_language_ok _ _ _ _ _ _ Emk Hf) as (Hlang & Ewords & Ename & _ & _).
  rewrite <- Ewords in Hplain.
  destruct (seed_of_key lang language_list before after name src Hlang Hplain Hname Hb Hl)
    as (text & E & H25 & Hk).
  exists text. unfold get_is_old_style_seed. rewrite H25. by rewrite Ename in Hk.
Qed.

(** ** What is refused *)

Lemma join_loop_length n ixs dst ok dst' :
  join_loop 1626 n ixs dst = Ret (ok, dst') -> (length dst' <= length dst + 4 * n)%nat.
Proof.
  revert ixs dst. induction n as [|n IH]; intros ixs dst E; cbn in E; [injection E as <- <-; lia|].
  destruct ixs as [|w1 [|w2 [|w3 ixs]]]; try done.
  unfold join in E. change (1626 =? 0) with false in E. cbv iota zeta in E.
  destruct (negb _); cbn [mbind result_bind] in E; [injection E as <- <-; lia|].
  apply IH in E. rewrite length_app in E. cbn [length] in E. lia.
Qed.

(** A seed of twelve words is never taken as a key, in any set of languages, although
    [words_to_bytes] lets twelve words through "if electrum 12-word seed": they give 16
    bytes, which are not doubled, because the number of words that would be doubled is
    computed as one. *)
Theorem twelve_words_refused (languages : list Base) (text : list Z) :
  Forall constructed languages -> length (split text) = 12%nat ->
  forall key, words_to_key languages text <> Ret (Some key).
Proof.
  intros Hls H12 key. unfold words_to_key, words_to_bytes. rewrite H12.
  change (negb (32 mod 4 =? 0)) with false. cbv iota zeta.
  change (negb (32 =? 0) && negb (Z.of_nat 12 =? 32 * 8 * 3 / 32 / 2) && negb (Z.of_nat 12 =? 32 * 8 * 3 / 32)
          && negb (Z.of_nat 12 =? 32 * 8 * 3 / 32 + 1)) with false. cbv iota.
  change (if 32 =? 0 then true else Z.of_nat 12 =? 32 * 8 * 3 / 32 + 1) with false. cbv iota.
  destruct (find_seed_language languages (split text) false None) as [[[lang ixs]|]|] eqn:Ef;
    cbn [mbind result_bind negb]; [|done..].
  assert (Hlang : constructed lang).
  { assert (forall fb ls, Forall constructed ls -> (forall l, fb = Some l -> constructed l) -> forall l x,
      find_seed_language ls (split text) false fb = Ret (Some (l, x)) -> constructed l) as Hin.
    { clear. intros fb ls Hls. revert fb. induction Hls as [|l0 ls H0 _ IH]; intros fb Hfb l x E; cbn in E.
      - destruct fb; [|done]. cbn in E. injection E as <- <-. by apply Hfb.
      - destruct (match_words l0 false (split text)) as [[ix|]|]; cbn in E; [|by eapply IH|done].
        injection E as <- <-. done. }
    by apply (Hin None languages Hls ltac:(done) lang ixs). }
  rewrite (proj1 (constructed_range lang Hlang)). change (u32 (Z.of_nat NWORDS)) with 1626. change (12 / 3)%nat with 4%nat.
  destruct (join_loop 1626 4 ixs []) as [[ok dst]|] eqn:Ej; cbn [mbind result_bind]; [|done].
  apply join_loop_length in Ej. cbn [length] in Ej.
  destruct ok; cbn [negb mbind result_bind]; [|done].
  change ((0 <? 32) && true && (Z.of_nat 12 =? 32 * 3 / 32 / 2)) with false. cbv iota.
  cbn [mbind result_bind negb]. rewrite bool_decide_eq_false_2 by lia. done.
Qed.

(** ** What is accepted *)

Lemma match_words_inv l seed ixs :
  constructed l -> match_words l true seed = Ret (Some ixs) ->
  length ixs = length seed /\ Forall in_list ixs.
Proof.
  intros Hl. revert ixs. induction seed as [|w seed IH]; intros ixs E; cbn in E; [by injection E as <-|].
  destruct (map_find _ _) as [[kv|]|] eqn:Ef; cbn in E; [|done..].
  destruct (match_words l true seed) as [[rest|]|]; cbn in E; [|done..]. injection E as <-.
  destruct (IH rest eq_refl) as [Hlen Hall]. split; [cbn; lia|]. constructor; [|done].
  destruct (map_find_inv _ _ _ Ef) as [wc Ew]. rewrite (map_find_canonical _ _ wc Ew) in Ef.
  destruct (find_equal _ wc) as [[i kv']|] eqn:F; [|done]. cbn in Ef. injection Ef as <-.
  apply list_find_Some in F as (Hi & _ & _). destruct (constructed_range l Hl) as [_ Ht]. unfold table_range in Ht.
  rewrite Forall_lookup in Ht. by apply (Ht i).
Qed.

(** A word that is found has the prefix of the word at its index. *)
Lemma match_words_prefixes l seed ixs :
  constructed l -> match_words l true seed = Ret (Some ixs) ->
  Forall2 (fun i w => exists v, word_list l !! Z.to_nat i = Some v /\ same_prefix (unique_prefix_length l) v w) ixs seed.
Proof.
  intros Hl. revert ixs. induction seed as [|w seed IH]; intros ixs E; cbn in E; [by injection E as <-|].
  destruct (map_find _ _) as [[kv|]|] eqn:Ef; cbn in E; [|done..].
  destruct (match_words l true seed) as [[rest|]|]; cbn in E; [|done..]. injection E as <-.
  constructor; [|by apply IH]. destruct (map_find_inv _ _ _ Ef) as [wc Ew]. rewrite (map_find_canonical _ _ wc Ew) in Ef.
  destruct (find_equal _ wc) as [[i kv']|] eqn:F; [|done]. cbn in Ef. injection Ef as <-.
  apply list_find_Some in F as (Hi & Hk & _). pose proof (constructed_words l Hl) as Ht. unfold table_words in Ht.
  rewrite Forall_lookup in Ht. destruct (Ht _ _ Hi) as (_ & v & c & Hv & Hc & Hkc). exists v. split; [done|].
  exists c. split; [done|]. rewrite Ew. by rewrite <- Hk, Hkc.
Qed.

(** A language that is only a fallback fails the checksum. *)
Lemma find_seed_inv ls seed fallback l ixs :
  find_seed_language ls seed true fallback = Ret (Some (l, ixs)) -> checksum_test seed l = Ret true ->
  (forall f, fallback = Some f -> checksum_test seed f = Ret false) ->
  l ∈ ls /\ match_words l true seed = Ret (Some ixs).
Proof.
  revert fallback. induction ls as [|l0 ls IH]; intros fallback E Hc Hfb; cbn in E.
  - destruct fallback as [f|]; [|done]. cbn in E. injection E as -> <-.
    rewrite (Hfb l eq_refl) in Hc. done.
  - destruct (match_words l0 true seed) as [[ix|]|] eqn:Em; cbn in E; [| |done].
    + destruct (checksum_test seed l0) as [[]|] eqn:Ec; cbn in E; [| |done].
      * injection E as <- <-. split; [by left|done].
      * destruct (IH (Some l0) E Hc) as [? ?]; [by intros f [= <-]|]. split; [by right|done].
    + destruct (IH fallback E Hc Hfb) as [? ?]. split; [by right|done].
Qed.

Lemma join_loop_inv n ixs dst dst' :
  Forall in_list ixs -> join_loop 1626 n ixs dst = Ret (true, dst') ->
  exists bs, dst' = dst ++ bs /\ length bs = (4 * n)%nat /\ byte_list bs /\ take (3 * n) ixs = indices n bs.
Proof.
  revert ixs dst. induction n as [|n IH]; intros ixs dst Hix E; cbn [join_loop] in E.
  { injection E as <-. exists []. rewrite app_nil_r. repeat split. constructor. }
  destruct ixs as [|w1 [|w2 [|w3 ixs]]]; try done.
  apply Forall_cons in Hix as [H1 Hix]. apply Forall_cons in Hix as [H2 Hix].
  apply Forall_cons in Hix as [H3 Hix]. rewrite join_eq in E by done.
  destruct (Z.ltb_spec (triple_value w1 w2 w3) (2 ^ 32)) as [Hlt|]; cbn [mbind result_bind] in E; [|done].
  pose proof (triple_value_range w1 w2 w3 H1) as HV.
  set (g := le_digits 256 4 (triple_value w1 w2 w3)) in *.
  assert (length g = 4%nat) as Lg by apply le_digits_length.
  apply IH in E as (bs & -> & Hl & Hb & Et); [|done]. exists (g ++ bs).
  split; [by rewrite <- app_assoc|]. split; [rewrite length_app; lia|].
  split; [apply Forall_app; split; [by apply le_digits_list|done]|].
  cbn [indices]. rewrite (take_app_length' g bs 4), (drop_app_length' g bs 4) by done.
  unfold g. rewrite le_value_digits_small by (lia || done). rewrite split_triple_value by done.
  replace (3 * S n)%nat with (S (S (S (3 * n)))) by lia. cbn [take app]. by rewrite Et.
Qed.

Lemma words_to_key_inv (languages : list Base) (text key name : list Z) :
  Forall constructed languages -> length (split text) = 25%nat ->
  words_to_key languages text = Ret (Some (key, name)) ->
  exists lang ixs, lang ∈ languages /\ name = language_name lang
    /\ match_words lang true (split text) = Ret (Some ixs) /\ checksum_test (split text) lang = Ret true
    /\ byte_list key /\ length key = 32%nat /\ take 24 ixs = indices 8 key.
Proof.
  intros Hls H25 E. unfold words_to_key, words_to_bytes in E. rewrite H25 in E. revert E.
  change (negb (32 mod 4 =? 0)) with false. cbv iota zeta.
  change (negb (32 =? 0) && negb (Z.of_nat 25 =? 32 * 8 * 3 / 32 / 2) && negb (Z.of_nat 25 =? 32 * 8 * 3 / 32)
          && negb (Z.of_nat 25 =? 32 * 8 * 3 / 32 + 1)) with false. cbv iota.
  change (if 32 =? 0 then true else Z.of_nat 25 =? 32 * 8 * 3 / 32 + 1) with true. cbv iota.
  destruct (find_seed_language languages (split text) true None) as [[[lang ixs]|]|] eqn:Ef;
    cbn [mbind result_bind negb]; [|done..].
  destruct (checksum_test (split text) lang) as [[]|] eqn:Ec; cbn [mbind result_bind negb]; [|done..].
  destruct (find_seed_inv _ _ _ _ _ Ef Ec ltac:(done)) as [Hin Hm].
  assert (Hlang : constructed lang) by (rewrite Forall_forall in Hls; by apply Hls).
  destruct (match_words_inv lang _ _ Hlang Hm) as [_ Hix].
  rewrite (proj1 (constructed_range lang Hlang)). change (u32 (Z.of_nat NWORDS)) with 1626. change ((25 - 1) / 3)%nat with 8%nat.
  destruct (join_loop 1626 8 ixs []) as [[[] dst]|] eqn:Ej; cbn [mbind result_bind negb]; [|done..].
  change ((0 <? 32) && true && (Z.of_nat (25 - 1) =? 32 * 3 / 32 / 2)) with false. cbv iota.
  cbn [mbind result_bind negb]. case_bool_decide; [|done]. cbn [negb default from_option id]. intros [= <- <-].
  apply join_loop_inv in Ej as (bs & -> & Hl & Hb & Et); [|done]. by exists lang, ixs.
Qed.

(** Words found at the same indices have the same prefixes. *)
Lemma same_indices_prefixes l (P Q : list (list Z)) ixs ixs' n :
  let at_prefix := fun i w => exists v, word_list l !! Z.to_nat i = Some v /\ same_prefix (unique_prefix_length l) v w in
  Forall2 at_prefix ixs P -> Forall2 at_prefix ixs' Q -> take n ixs = take n ixs' ->
  Forall2 (same_prefix (unique_prefix_length l)) (take n P) (take n Q).
Proof.
  intros at_prefix HP HQ E. apply (Forall2_take _ _ _ n) in HP, HQ. rewrite <- E in HQ. revert HQ. generalize (take n Q) as q. clear E.
  induction HP as [|i w ixl ws (v & Hv & c & Hc & Hw) _ IH]; intros q HQ; inversion HQ as [|? w' ? q' (v' & Hv' & c' & Hc' & Hw') Hq]; subst; [constructor|].
  constructor; [|by apply IH]. rewrite Hv in Hv'. injection Hv' as <-. rewrite Hc in Hc'. injection Hc' as <-. by exists c.
Qed.

(** C36: One key per seed, and one seed per key up to the letters that do not count. A text of 25
    words that is taken as a key is made of words of one language, with a right checksum. Every
    word has the unique prefix, up to letter case, of the word of the list at its index, and
    the first 24 indices are computed from the key alone. So two texts taken as the same key in
    one language have, word for word, the same prefixes in their first 24 words; where a language
    has two words with one prefix, as old English has, both stand for the same index. *)
Theorem seed_canonical (languages : list Base) (text key name : list Z) :
  Forall constructed languages -> length (split text) = 25%nat ->
  words_to_key languages text = Ret (Some (key, name)) ->
  exists lang ixs, lang ∈ languages /\ name = language_name lang
    /\ match_words lang true (split text) = Ret (Some ixs) /\ checksum_test (split text) lang = Ret true
    /\ byte_list key /\ length key = 32%nat /\ take 24 ixs = indices 8 key
    /\ Forall2 (fun i w => exists v, word_list lang !! Z.to_nat i = Some v /\ same_prefix (unique_prefix_length lang) v w) ixs (split text)
    /\ forall text', words_to_key [lang] text' = Ret (Some (key, name)) -> length (split text') = 25%nat ->
         Forall2 (same_prefix (unique_prefix_length lang)) (take 24 (split text)) (take 24 (split text')).
Proof.
  intros Hls H25 E. destruct (words_to_key_inv _ _ _ _ Hls H25 E) as (lang & ixs & Hin & Hn & Hm & Hc & Hb & Hl & Hix).
  assert (Hlang : constructed lang) by (rewrite Forall_forall in Hls; by apply Hls).
  pose proof (match_words_prefixes lang _ _ Hlang Hm) as Hp. exists lang, ixs. do 8 (split; [done|]).
  intros text' E' H25'. destruct (words_to_key_inv [lang] text' key name ltac:(by constructor) H25' E') as (lang' & ixs' & Hin' & _ & Hm' & _ & _ & _ & Hix').
  apply list_elem_of_singleton in Hin' as ->. eapply same_indices_prefixes; [exact Hp|by apply match_words_prefixes|congruence].
Qed.
End Electrum.
