(* ===== verification/English.v ===== *)
(** * The English word list: src/mnemonics/english.h

    The words of the list, and that the constructor accepts them: they are as many as
    it asks for, none is too short and no two share their first three letters. *)

From S2P Require Import Prelude IntUtil Radix Hex Mnemonics.

Definition english_words : list String.string :=
  ([
    "abbey"; "abducts"; "ability"; "ablaze"; "abnormal"; "abort"; "abrasive"; "absorb"; "abyss";
    "academy"; "aces"; "aching"; "acidic"; "acoustic"; "acquire"; "across"; "actress"; "acumen"; "adapt";
    "addicted"; "adept"; "adhesive"; "adjust"; "adopt"; "adrenalin"; "adult"; "adventure"; "aerial";
    "afar"; "affair"; "afield"; "afloat"; "afoot"; "afraid"; "after"; "against"; "agenda"; "aggravate";
    "agile"; "aglow"; "agnostic"; "agony"; "agreed"; "ahead"; "aided"; "ailments"; "aimless"; "airport";
    "aisle"; "ajar"; "akin"; "alarms"; "album"; "alchemy"; "alerts"; "algebra"; "alkaline"; "alley";
    "almost"; "aloof"; "alpine"; "already"; "also"; "altitude"; "alumni"; "always"; "amaze"; "ambush";
    "amended"; "amidst"; "ammo"; "amnesty"; "among"; "amply"; "amused"; "anchor"; "android"; "anecdote";
    "angled"; "ankle"; "annoyed"; "answers"; "antics"; "anvil"; "anxiety"; "anybody"; "apart"; "apex";
    "aphid"; "aplomb"; "apology"; "apply"; "apricot"; "aptitude"; "aquarium"; "arbitrary"; "archer";
    "ardent"; "arena"; "argue"; "arises"; "army"; "around"; "arrow"; "arsenic"; "artistic"; "ascend";
    "ashtray"; "aside"; "asked"; "asleep"; "aspire"; "assorted"; "asylum"; "athlete"; "atlas"; "atom";
    "atrium"; "attire"; "auburn"; "auctions"; "audio"; "august"; "aunt"; "austere"; "autumn"; "avatar";
    "avidly"; "avoid"; "awakened"; "awesome"; "awful"; "awkward"; "awning"; "awoken"; "axes"; "axis";
    "axle"; "aztec"; "azure"; "baby"; "bacon"; "badge"; "baffles"; "bagpipe"; "bailed"; "bakery";
    "balding"; "bamboo"; "banjo"; "baptism"; "basin"; "batch"; "bawled"; "bays"; "because"; "beer";
    "befit"; "begun"; "behind"; "being"; "below"; "bemused"; "benches"; "berries"; "bested"; "betting";
    "bevel"; "beware"; "beyond"; "bias"; "bicycle"; "bids"; "bifocals"; "biggest"; "bikini"; "bimonthly";
    "binocular"; "biology"; "biplane"; "birth"; "biscuit"; "bite"; "biweekly"; "blender"; "blip";
    "bluntly"; "boat"; "bobsled"; "bodies"; "bogeys"; "boil"; "boldly"; "bomb"; "border"; "boss"; "both";
    "bounced"; "bovine"; "bowling"; "boxes"; "boyfriend"; "broken"; "brunt"; "bubble"; "buckets";
    "budget"; "buffet"; "bugs"; "building"; "bulb"; "bumper"; "bunch"; "business"; "butter"; "buying";
    "buzzer"; "bygones"; "byline"; "bypass"; "cabin"; "cactus"; "cadets"; "cafe"; "cage"; "cajun";
    "cake"; "calamity"; "camp"; "candy"; "casket"; "catch"; "cause"; "cavernous"; "cease"; "cedar";
    "ceiling"; "cell"; "cement"; "cent"; "certain"; "chlorine"; "chrome"; "cider"; "cigar"; "cinema";
    "circle"; "cistern"; "citadel"; "civilian"; "claim"; "click"; "clue"; "coal"; "cobra"; "cocoa";
    "code"; "coexist"; "coffee"; "cogs"; "cohesive"; "coils"; "colony"; "comb"; "cool"; "copy";
    "corrode"; "costume"; "cottage"; "cousin"; "cowl"; "criminal"; "cube"; "cucumber"; "cuddled";
    "cuffs"; "cuisine"; "cunning"; "cupcake"; "custom"; "cycling"; "cylinder"; "cynical"; "dabbing";
    "dads"; "daft"; "dagger"; "daily"; "damp"; "dangerous"; "dapper"; "darted"; "dash"; "dating";
    "dauntless"; "dawn"; "daytime"; "dazed"; "debut"; "decay"; "dedicated"; "deepest"; "deftly";
    "degrees"; "dehydrate"; "deity"; "dejected"; "delayed"; "demonstrate"; "dented"; "deodorant";
    "depth"; "desk"; "devoid"; "dewdrop"; "dexterity"; "dialect"; "dice"; "diet"; "different"; "digit";
    "dilute"; "dime"; "dinner"; "diode"; "diplomat"; "directed"; "distance"; "ditch"; "divers"; "dizzy";
    "doctor"; "dodge"; "does"; "dogs"; "doing"; "dolphin"; "domestic"; "donuts"; "doorway"; "dormant";
    "dosage"; "dotted"; "double"; "dove"; "down"; "dozen"; "dreams"; "drinks"; "drowning"; "drunk";
    "drying"; "dual"; "dubbed"; "duckling"; "dude"; "duets"; "duke"; "dullness"; "dummy"; "dunes";
    "duplex"; "duration"; "dusted"; "duties"; "dwarf"; "dwelt"; "dwindling"; "dying"; "dynamite";
    "dyslexic"; "each"; "eagle"; "earth"; "easy"; "eating"; "eavesdrop"; "eccentric"; "echo"; "eclipse";
    "economics"; "ecstatic"; "eden"; "edgy"; "edited"; "educated"; "eels"; "efficient"; "eggs";
    "egotistic"; "eight"; "either"; "eject"; "elapse"; "elbow"; "eldest"; "eleven"; "elite"; "elope";
    "else"; "eluded"; "emails"; "ember"; "emerge"; "emit"; "emotion"; "empty"; "emulate"; "energy";
    "enforce"; "enhanced"; "enigma"; "enjoy"; "enlist"; "enmity"; "enough"; "enraged"; "ensign";
    "entrance"; "envy"; "epoxy"; "equip"; "erase"; "erected"; "erosion"; "error"; "eskimos"; "espionage";
    "essential"; "estate"; "etched"; "eternal"; "ethics"; "etiquette"; "evaluate"; "evenings"; "evicted";
    "evolved"; "examine"; "excess"; "exhale"; "exit"; "exotic"; "exquisite"; "extra"; "exult"; "fabrics";
    "factual"; "fading"; "fainted"; "faked"; "fall"; "family"; "fancy"; "farming"; "fatal"; "faulty";
    "fawns"; "faxed"; "fazed"; "feast"; "february"; "federal"; "feel"; "feline"; "females"; "fences";
    "ferry"; "festival"; "fetches"; "fever"; "fewest"; "fiat"; "fibula"; "fictional"; "fidget"; "fierce";
    "fifteen"; "fight"; "films"; "firm"; "fishing"; "fitting"; "five"; "fixate"; "fizzle"; "fleet";
    "flippant"; "flying"; "foamy"; "focus"; "foes"; "foggy"; "foiled"; "folding"; "fonts"; "foolish";
    "fossil"; "fountain"; "fowls"; "foxes"; "foyer"; "framed"; "friendly"; "frown"; "fruit"; "frying";
    "fudge"; "fuel"; "fugitive"; "fully"; "fuming"; "fungal"; "furnished"; "fuselage"; "future"; "fuzzy";
    "gables"; "gadget"; "gags"; "gained"; "galaxy"; "gambit"; "gang"; "gasp"; "gather"; "gauze"; "gave";
    "gawk"; "gaze"; "gearbox"; "gecko"; "geek"; "gels"; "gemstone"; "general"; "geometry"; "germs";
    "gesture"; "getting"; "geyser"; "ghetto"; "ghost"; "giant"; "giddy"; "gifts"; "gigantic"; "gills";
    "gimmick"; "ginger"; "girth"; "giving"; "glass"; "gleeful"; "glide"; "gnaw"; "gnome"; "goat";
    "goblet"; "godfather"; "goes"; "goggles"; "going"; "goldfish"; "gone"; "goodbye"; "gopher";
    "gorilla"; "gossip"; "gotten"; "gourmet"; "governing"; "gown"; "greater"; "grunt"; "guarded";
    "guest"; "guide"; "gulp"; "gumball"; "guru"; "gusts"; "gutter"; "guys"; "gymnast"; "gypsy"; "gyrate";
    "habitat"; "hacksaw"; "haggled"; "hairy"; "hamburger"; "happens"; "hashing"; "hatchet"; "haunted";
    "having"; "hawk"; "haystack"; "hazard"; "hectare"; "hedgehog"; "heels"; "hefty"; "height"; "hemlock";
    "hence"; "heron"; "hesitate"; "hexagon"; "hickory"; "hiding"; "highway"; "hijack"; "hiker"; "hills";
    "himself"; "hinder"; "hippo"; "hire"; "history"; "hitched"; "hive"; "hoax"; "hobby"; "hockey";
    "hoisting"; "hold"; "honked"; "hookup"; "hope"; "hornet"; "hospital"; "hotel"; "hounded"; "hover";
    "howls"; "hubcaps"; "huddle"; "huge"; "hull"; "humid"; "hunter"; "hurried"; "husband"; "huts";
    "hybrid"; "hydrogen"; "hyper"; "iceberg"; "icing"; "icon"; "identity"; "idiom"; "idled"; "idols";
    "igloo"; "ignore"; "iguana"; "illness"; "imagine"; "imbalance"; "imitate"; "impel"; "inactive";
    "inbound"; "incur"; "industrial"; "inexact"; "inflamed"; "ingested"; "initiate"; "injury"; "inkling";
    "inline"; "inmate"; "innocent"; "inorganic"; "input"; "inquest"; "inroads"; "insult"; "intended";
    "inundate"; "invoke"; "inwardly"; "ionic"; "irate"; "iris"; "irony"; "irritate"; "island";
    "isolated"; "issued"; "italics"; "itches"; "items"; "itinerary"; "itself"; "ivory"; "jabbed";
    "jackets"; "jaded"; "jagged"; "jailed"; "jamming"; "january"; "jargon"; "jaunt"; "javelin"; "jaws";
    "jazz"; "jeans"; "jeers"; "jellyfish"; "jeopardy"; "jerseys"; "jester"; "jetting"; "jewels";
    "jigsaw"; "jingle"; "jittery"; "jive"; "jobs"; "jockey"; "jogger"; "joining"; "joking"; "jolted";
    "jostle"; "journal"; "joyous"; "jubilee"; "judge"; "juggled"; "juicy"; "jukebox"; "july"; "jump";
    "junk"; "jury"; "justice"; "juvenile"; "kangaroo"; "karate"; "keep"; "kennel"; "kept"; "kernels";
    "kettle"; "keyboard"; "kickoff"; "kidneys"; "king"; "kiosk"; "kisses"; "kitchens"; "kiwi";
    "knapsack"; "knee"; "knife"; "knowledge"; "knuckle"; "koala"; "laboratory"; "ladder"; "lagoon";
    "lair"; "lakes"; "lamb"; "language"; "laptop"; "large"; "last"; "later"; "launching"; "lava";
    "lawsuit"; "layout"; "lazy"; "lectures"; "ledge"; "leech"; "left"; "legion"; "leisure"; "lemon";
    "lending"; "leopard"; "lesson"; "lettuce"; "lexicon"; "liar"; "library"; "licks"; "lids"; "lied";
    "lifestyle"; "light"; "likewise"; "lilac"; "limits"; "linen"; "lion"; "lipstick"; "liquid"; "listen";
    "lively"; "loaded"; "lobster"; "locker"; "lodge"; "lofty"; "logic"; "loincloth"; "long"; "looking";
    "lopped"; "lordship"; "losing"; "lottery"; "loudly"; "love"; "lower"; "loyal"; "lucky"; "luggage";
    "lukewarm"; "lullaby"; "lumber"; "lunar"; "lurk"; "lush"; "luxury"; "lymph"; "lynx"; "lyrics";
    "macro"; "madness"; "magically"; "mailed"; "major"; "makeup"; "malady"; "mammal"; "maps";
    "masterful"; "match"; "maul"; "maverick"; "maximum"; "mayor"; "maze"; "meant"; "mechanic";
    "medicate"; "meeting"; "megabyte"; "melting"; "memoir"; "menu"; "merger"; "mesh"; "metro"; "mews";
    "mice"; "midst"; "mighty"; "mime"; "mirror"; "misery"; "mittens"; "mixture"; "moat"; "mobile";
    "mocked"; "mohawk"; "moisture"; "molten"; "moment"; "money"; "moon"; "mops"; "morsel"; "mostly";
    "motherly"; "mouth"; "movement"; "mowing"; "much"; "muddy"; "muffin"; "mugged"; "mullet"; "mumble";
    "mundane"; "muppet"; "mural"; "musical"; "muzzle"; "myriad"; "mystery"; "myth"; "nabbing"; "nagged";
    "nail"; "names"; "nanny"; "napkin"; "narrate"; "nasty"; "natural"; "nautical"; "navy"; "nearby";
    "necklace"; "needed"; "negative"; "neither"; "neon"; "nephew"; "nerves"; "nestle"; "network";
    "neutral"; "never"; "newt"; "nexus"; "nibs"; "niche"; "niece"; "nifty"; "nightly"; "nimbly";
    "nineteen"; "nirvana"; "nitrogen"; "nobody"; "nocturnal"; "nodes"; "noises"; "nomad"; "noodles";
    "northern"; "nostril"; "noted"; "nouns"; "novelty"; "nowhere"; "nozzle"; "nuance"; "nucleus";
    "nudged"; "nugget"; "nuisance"; "null"; "number"; "nuns"; "nurse"; "nutshell"; "nylon"; "oaks";
    "oars"; "oasis"; "oatmeal"; "obedient"; "object"; "obliged"; "obnoxious"; "observant"; "obtains";
    "obvious"; "occur"; "ocean"; "october"; "odds"; "odometer"; "offend"; "often"; "oilfield";
    "ointment"; "okay"; "older"; "olive"; "olympics"; "omega"; "omission"; "omnibus"; "onboard";
    "oncoming"; "oneself"; "ongoing"; "onion"; "online"; "onslaught"; "onto"; "onward"; "oozed";
    "opacity"; "opened"; "opposite"; "optical"; "opus"; "orange"; "orbit"; "orchid"; "orders"; "organs";
    "origin"; "ornament"; "orphans"; "oscar"; "ostrich"; "otherwise"; "otter"; "ouch"; "ought"; "ounce";
    "ourselves"; "oust"; "outbreak"; "oval"; "oven"; "owed"; "owls"; "owner"; "oxidant"; "oxygen";
    "oyster"; "ozone"; "pact"; "paddles"; "pager"; "pairing"; "palace"; "pamphlet"; "pancakes"; "paper";
    "paradise"; "pastry"; "patio"; "pause"; "pavements"; "pawnshop"; "payment"; "peaches"; "pebbles";
    "peculiar"; "pedantic"; "peeled"; "pegs"; "pelican"; "pencil"; "people"; "pepper"; "perfect";
    "pests"; "petals"; "phase"; "pheasants"; "phone"; "phrases"; "physics"; "piano"; "picked"; "pierce";
    "pigment"; "piloted"; "pimple"; "pinched"; "pioneer"; "pipeline"; "pirate"; "pistons"; "pitched";
    "pivot"; "pixels"; "pizza"; "playful"; "pledge"; "pliers"; "plotting"; "plus"; "plywood"; "poaching";
    "pockets"; "podcast"; "poetry"; "point"; "poker"; "polar"; "ponies"; "pool"; "popular"; "portents";
    "possible"; "potato"; "pouch"; "poverty"; "powder"; "pram"; "present"; "pride"; "problems"; "pruned";
    "prying"; "psychic"; "public"; "puck"; "puddle"; "puffin"; "pulp"; "pumpkins"; "punch"; "puppy";
    "purged"; "push"; "putty"; "puzzled"; "pylons"; "pyramid"; "python"; "queen"; "quick"; "quote";
    "rabbits"; "racetrack"; "radar"; "rafts"; "rage"; "railway"; "raking"; "rally"; "ramped"; "randomly";
    "rapid"; "rarest"; "rash"; "rated"; "ravine"; "rays"; "razor"; "react"; "rebel"; "recipe"; "reduce";
    "reef"; "refer"; "regular"; "reheat"; "reinvest"; "rejoices"; "rekindle"; "relic"; "remedy";
    "renting"; "reorder"; "repent"; "request"; "reruns"; "rest"; "return"; "reunion"; "revamp"; "rewind";
    "rhino"; "rhythm"; "ribbon"; "richly"; "ridges"; "rift"; "rigid"; "rims"; "ringing"; "riots";
    "ripped"; "rising"; "ritual"; "river"; "roared"; "robot"; "rockets"; "rodent"; "rogue"; "roles";
    "romance"; "roomy"; "roped"; "roster"; "rotate"; "rounded"; "rover"; "rowboat"; "royal"; "ruby";
    "rudely"; "ruffled"; "rugged"; "ruined"; "ruling"; "rumble"; "runway"; "rural"; "rustled";
    "ruthless"; "sabotage"; "sack"; "sadness"; "safety"; "saga"; "sailor"; "sake"; "salads"; "sample";
    "sanity"; "sapling"; "sarcasm"; "sash"; "satin"; "saucepan"; "saved"; "sawmill"; "saxophone";
    "sayings"; "scamper"; "scenic"; "school"; "science"; "scoop"; "scrub"; "scuba"; "seasons"; "second";
    "sedan"; "seeded"; "segments"; "seismic"; "selfish"; "semifinal"; "sensible"; "september";
    "sequence"; "serving"; "session"; "setup"; "seventh"; "sewage"; "shackles"; "shelter"; "shipped";
    "shocking"; "shrugged"; "shuffled"; "shyness"; "siblings"; "sickness"; "sidekick"; "sieve";
    "sifting"; "sighting"; "silk"; "simplest"; "sincerely"; "sipped"; "siren"; "situated"; "sixteen";
    "sizes"; "skater"; "skew"; "skirting"; "skulls"; "skydive"; "slackens"; "sleepless"; "slid";
    "slower"; "slug"; "smash"; "smelting"; "smidgen"; "smog"; "smuggled"; "snake"; "sneeze"; "sniff";
    "snout"; "snug"; "soapy"; "sober"; "soccer"; "soda"; "software"; "soggy"; "soil"; "solved";
    "somewhere"; "sonic"; "soothe"; "soprano"; "sorry"; "southern"; "sovereign"; "sowed"; "soya";
    "space"; "speedy"; "sphere"; "spiders"; "splendid"; "spout"; "sprig"; "spud"; "spying"; "square";
    "stacking"; "stellar"; "stick"; "stockpile"; "strained"; "stunning"; "stylishly"; "subtly";
    "succeed"; "suddenly"; "suede"; "suffice"; "sugar"; "suitcase"; "sulking"; "summon"; "sunken";
    "superior"; "surfer"; "sushi"; "suture"; "swagger"; "swept"; "swiftly"; "sword"; "swung"; "syllabus";
    "symptoms"; "syndrome"; "syringe"; "system"; "taboo"; "tacit"; "tadpoles"; "tagged"; "tail"; "taken";
    "talent"; "tamper"; "tanks"; "tapestry"; "tarnished"; "tasked"; "tattoo"; "taunts"; "tavern";
    "tawny"; "taxi"; "teardrop"; "technical"; "tedious"; "teeming"; "tell"; "template"; "tender";
    "tepid"; "tequila"; "terminal"; "testing"; "tether"; "textbook"; "thaw"; "theatrics"; "thirsty";
    "thorn"; "threaten"; "thumbs"; "thwart"; "ticket"; "tidy"; "tiers"; "tiger"; "tilt"; "timber";
    "tinted"; "tipsy"; "tirade"; "tissue"; "titans"; "toaster"; "tobacco"; "today"; "toenail"; "toffee";
    "together"; "toilet"; "token"; "tolerant"; "tomorrow"; "tonic"; "toolbox"; "topic"; "torch";
    "tossed"; "total"; "touchy"; "towel"; "toxic"; "toyed"; "trash"; "trendy"; "tribal"; "trolling";
    "truth"; "trying"; "tsunami"; "tubes"; "tucks"; "tudor"; "tuesday"; "tufts"; "tugs"; "tuition";
    "tulips"; "tumbling"; "tunnel"; "turnip"; "tusks"; "tutor"; "tuxedo"; "twang"; "tweezers"; "twice";
    "twofold"; "tycoon"; "typist"; "tyrant"; "ugly"; "ulcers"; "ultimate"; "umbrella"; "umpire";
    "unafraid"; "unbending"; "uncle"; "under"; "uneven"; "unfit"; "ungainly"; "unhappy"; "union";
    "unjustly"; "unknown"; "unlikely"; "unmask"; "unnoticed"; "unopened"; "unplugs"; "unquoted";
    "unrest"; "unsafe"; "until"; "unusual"; "unveil"; "unwind"; "unzip"; "upbeat"; "upcoming"; "update";
    "upgrade"; "uphill"; "upkeep"; "upload"; "upon"; "upper"; "upright"; "upstairs"; "uptight";
    "upwards"; "urban"; "urchins"; "urgent"; "usage"; "useful"; "usher"; "using"; "usual"; "utensils";
    "utility"; "utmost"; "utopia"; "uttered"; "vacation"; "vague"; "vain"; "value"; "vampire"; "vane";
    "vapidly"; "vary"; "vastness"; "vats"; "vaults"; "vector"; "veered"; "vegan"; "vehicle"; "vein";
    "velvet"; "venomous"; "verification"; "vessel"; "veteran"; "vexed"; "vials"; "vibrate"; "victim";
    "video"; "viewpoint"; "vigilant"; "viking"; "village"; "vinegar"; "violin"; "vipers"; "virtual";
    "visited"; "vitals"; "vivid"; "vixen"; "vocal"; "vogue"; "voice"; "volcano"; "vortex"; "voted";
    "voucher"; "vowels"; "voyage"; "vulture"; "wade"; "waffle"; "wagtail"; "waist"; "waking"; "wallets";
    "wanted"; "warped"; "washing"; "water"; "waveform"; "waxing"; "wayside"; "weavers"; "website";
    "wedge"; "weekday"; "weird"; "welders"; "went"; "wept"; "were"; "western"; "wetsuit"; "whale";
    "when"; "whipped"; "whole"; "wickets"; "width"; "wield"; "wife"; "wiggle"; "wildly"; "winter";
    "wipeout"; "wiring"; "wise"; "withdrawn"; "wives"; "wizard"; "wobbly"; "woes"; "woken"; "wolf";
    "womanly"; "wonders"; "woozy"; "worry"; "wounded"; "woven"; "wrap"; "wrist"; "wrong"; "yacht";
    "yahoo"; "yanks"; "yard"; "yawning"; "yearbook"; "yellow"; "yesterday"; "yeti"; "yields"; "yodel";
    "yoga"; "younger"; "yoyo"; "zapped"; "zeal"; "zebra"; "zero"; "zesty"; "zigzags"; "zinger";
    "zippers"; "zodiac"; "zombie"; "zones"; "zoom"
  ])%string.

Definition english_list : list (list Z) := str_bytes <$> english_words.

Definition english_flags : populate_flags :=
  {| ALLOW_SHORT_WORDS := false; ALLOW_DUPLICATE_PREFIXES := false |}.

Definition English (towlower : Z -> Z) : R Base :=
  make_language towlower (str_bytes "English") (str_bytes "English") 3 english_list english_flags.

(** ** Words in lower case *)

Definition lower_letter (c : Z) : Prop := 97 <= c <= 122.
Definition lower_word (w : list Z) : Prop := w <> [] /\ Forall lower_letter w.

Lemma lower_plain w : lower_word w -> plain_word w.
Proof.
  intros [Hne Hw]. split; [done|]. apply (Forall_impl _ _ _ Hw). unfold lower_letter, isspace. intros c Hc. lia.
Qed.

Lemma lower_not_continuation c : lower_letter c -> Z.land c 0xc0 =? 0x80 = false.
Proof.
  unfold lower_letter. intros Hc. change 0xc0 with (Z.shiftl 3 6). apply Z.eqb_neq. intros E.
  apply (f_equal (fun z => Z.testbit z 7)) in E. rewrite Z.land_spec in E.
  rewrite (Z.bits_above_log2 c 7) in E; [done|lia|apply Z.log2_lt_pow2; lia].
Qed.

Lemma utf8prefix_lower w n : Forall lower_letter w -> utf8prefix w n = take n w.
Proof.
  revert w. induction n as [|n IH]; intros [|c w] Hw; try done. apply Forall_cons in Hw as [_ Hw].
  cbn [utf8prefix take]. assert (span_continuation w = ([], w)) as ->.
  { destruct w as [|d w]; [done|]. apply Forall_cons in Hw as [Hd _]. cbn. by rewrite lower_not_continuation. }
  cbn. by rewrite IH.
Qed.

Section Lower.
Context (towlower : Z -> Z) (Hlow : forall c, lower_letter c -> towlower c = c).

Lemma canonical_lower w : Forall lower_letter w -> canonical towlower w = Ret w.
Proof.
  unfold canonical, utf8canonical. induction 1 as [|c w Hc _ IH]; [done|]. cbn [length utf8canonical_loop utf8_head].
  assert (Z.land c 0x80 =? 0 = true) as ->.
  { apply Z.eqb_eq. apply Z.bits_inj'. intros i Hi. rewrite Z.land_spec, Z.bits_0.
    destruct (Z.eqb_spec i 7) as [->|Hne].
    - rewrite (Z.bits_above_log2 c 7); [done|unfold lower_letter in *; lia|].
      apply Z.log2_lt_pow2; unfold lower_letter in *; lia.
    - change 0x80 with (2 ^ 7). rewrite Z.pow2_bits_false by lia. apply andb_false_r. }
  cbn [get mbind result_bind]. rewrite Hlow by done. unfold utf8_encode.
  rewrite (proj2 (Z.leb_le _ _)) by (unfold lower_letter in *; lia). cbn [get mbind result_bind].
  rewrite IH. done.
Qed.

Lemma map_find_lower (m : word_table) w :
  Forall (fun kv => Forall lower_letter kv.1) m -> Forall lower_letter w -> w ∉ m.*1 ->
  map_find towlower m w = Ret None.
Proof.
  intros Hm Hw Hn. unfold map_find. rewrite (canonical_lower w Hw). cbn [mbind result_bind].
  destruct (find_equal towlower m w) as [[i kv]|] eqn:F; [|done]. exfalso.
  unfold find_equal in F. apply list_find_Some in F as (Hi & E & _).
  rewrite Forall_lookup in Hm. rewrite (canonical_lower _ (Hm i kv Hi)) in E. injection E as E.
  apply Hn. rewrite <- E. apply list_elem_of_fmap. exists kv. split; [done|]. by eapply list_elem_of_lookup_2.
Qed.

(** The tables fill up with the words and their prefixes. *)
Lemma populate_lower flags prefix ws done m t :
  Forall lower_word ws -> Forall (fun w => prefix <= length w)%nat ws ->
  NoDup (done ++ ws) -> NoDup (take prefix <$> (done ++ ws)) ->
  Forall (fun kv => Forall lower_letter kv.1) m -> Forall (fun kv => Forall lower_letter kv.1) t ->
  m.*1 = done -> t.*1 = take prefix <$> done ->
  exists m' t' i, populate_loop towlower flags prefix (m, t, Z.of_nat (length done)) ws = Ret (m', t', i).
Proof.
  intros Hws. revert done m t. induction Hws as [|w ws [_ Hw] _ IH]; intros done m t Hlen Hd Hp Hm Ht Em Et.
  { by repeat eexists. }
  apply Forall_cons in Hlen as [Hl Hlen]. cbn [populate_loop]. unfold populate_step.
  rewrite (map_set_fresh towlower m w).
  2: { apply map_find_lower; [done..|]. rewrite Em. intros Hin. apply NoDup_app in Hd as (_ & Hd & _).
       apply (Hd w Hin). by left. }
  cbn [mbind result_bind]. rewrite bool_decide_eq_false_2 by lia. cbn [andb].
  rewrite trim_eq, utf8prefix_lower by done.
  assert (Hfresh : map_find towlower t (take prefix w) = Ret None).
  { apply map_find_lower; [done|by apply Forall_take|]. rewrite Et. intros Hin.
    rewrite fmap_app in Hp. apply NoDup_app in Hp as (_ & Hp & _). apply (Hp _ Hin). cbn. by left. }
  rewrite Hfresh. cbn [mbind result_bind]. rewrite bool_decide_eq_false_2 by (by intros [? ?]).
  cbn [andb]. rewrite (map_set_fresh towlower t _ _ Hfresh). cbn [mbind result_bind].
  replace (Z.of_nat (length done) + 1) with (Z.of_nat (length (done ++ [w]))) by (rewrite length_app; cbn; lia).
  apply (IH (done ++ [w])); rewrite <- ?app_assoc; try done.
  - apply Forall_app. split; [done|]. by repeat constructor.
  - apply Forall_app. split; [done|]. repeat constructor. cbn. by apply Forall_take.
  - rewrite fmap_app. by rewrite Em.
  - rewrite !fmap_app. by rewrite Et.
Qed.
End Lower.

(** ** The English words *)

Definition lower_wordb (w : list Z) : bool :=
  negb (bool_decide (w = [])) && forallb (fun c => (97 <=? c) && (c <=? 122)) w.

Lemma english_lower : Forall lower_word english_list.
Proof.
  assert (E : forallb lower_wordb english_list = true) by (by vm_compute).
  apply Forall_forall. intros w Hw. rewrite forallb_forall in E.
  specialize (E w (proj1 (list_elem_of_In _ _) Hw)). unfold lower_wordb in E.
  apply andb_prop in E as [E1 E2]. apply negb_true_iff, bool_decide_eq_false_1 in E1. split; [done|].
  apply Forall_forall. intros c Hc. rewrite forallb_forall in E2.
  specialize (E2 c (proj1 (list_elem_of_In _ _) Hc)). unfold lower_letter. lia.
Qed.

Lemma english_prefixes : NoDup (take 3 <$> english_list).
Proof. by_decide. Qed.

Lemma english_long : Forall (fun w => 3 <= length w)%nat english_list.
Proof. by_decide. Qed.

Lemma english_plain : Forall plain_word english_list.
Proof. apply (Forall_impl _ _ _ english_lower). apply lower_plain. Qed.

Lemma english_accepted towlower :
  (forall c, lower_letter c -> towlower c = c) -> exists l, English towlower = Ret l.
Proof.
  intros Hlow. unfold English, make_language. rewrite bool_decide_eq_true_2 by (by vm_compute).
  cbn [negb].
  destruct (populate_lower towlower Hlow english_flags 3 english_list [] [] [])
    as (m & t & i & E).
  - exact english_lower.
  - exact english_long.
  - cbn [app]. exact (NoDup_fmap_1 (take 3) _ english_prefixes).
  - exact english_prefixes.
  - done.
  - done.
  - done.
  - done.
  - cbn [length] in E. change (Z.of_nat 0) with 0 in E. rewrite E. cbn. by eexists.
Qed.

(** ** Seeds in English *)

(** [towlower] on ASCII, and a checksum in the place of the CRC-32 *)
Definition ascii_lower (c : Z) : Z := if (65 <=? c) && (c <=? 90) then c + 32 else c.
Definition sum_32 (s : list Z) : Z := u32 (foldr Z.add 0 s).

Lemma ascii_english : exists l, English ascii_lower = Ret l.
Proof. apply english_accepted. unfold ascii_lower, lower_letter. intros c Hc. destruct (_ && _) eqn:E; lia. Qed.

Lemma english_made towlower l :
  English towlower = Ret l ->
  make_language towlower (str_bytes "English") (str_bytes "English") 3 english_list english_flags = Ret l.
Proof. exact id. Qed.

Lemma english_ok towlower l :
  English towlower = Ret l ->
  language_ok towlower l /\ word_list l = english_list /\ language_name l = str_bytes "English".
Proof.
  intros E. destruct (make_language_ok towlower _ _ _ _ _ _ (english_made _ _ E) eq_refl) as (Hl & Ew & En & _).
  exact (conj Hl (conj Ew En)).
Qed.

Lemma english_constructed towlower l : English towlower = Ret l -> constructed towlower l.
Proof.
  intros E. apply english_made in E. repeat eexists. exact E.
Qed.

Lemma named_english l : language_name l = str_bytes "English" -> language_named [l] (str_bytes "English") = Some l.
Proof. intros E. cbn. by rewrite E. Qed.

Definition some_key : list Z := Z.of_nat <$> seq 100 32.

Lemma some_key_bytes : byte_list some_key.
Proof. by_decide. Qed.

Lemma seed_roundtrip_witness :
  exists l text, English ascii_lower = Ret l
    /\ bytes_to_words ascii_lower sum_32 [l] some_key (str_bytes "English") = Ret (Some text)
    /\ words_to_key ascii_lower sum_32 [l] text = Ret (Some (some_key, str_bytes "English")).
Proof.
  destruct ascii_english as [l E]. destruct (english_ok _ l E) as (_ & _ & En).
  assert (Hl : length some_key = 32%nat) by (clear; by vm_compute).
  destruct (seed_roundtrip ascii_lower sum_32 (str_bytes "English") (str_bytes "English") 3 english_list
              english_flags l [l] [] [] some_key (english_made _ _ E) eq_refl english_plain (named_english l En) some_key_bytes Hl)
    as (text & Et & _ & _ & Hk).
  exists l, text. exact (conj E (conj Et (Hk (Forall_nil_2 _)))).
Defined.

Lemma twelve_words_refused_witness :
  exists l, English ascii_lower = Ret l
    /\ forall key, words_to_key ascii_lower sum_32 [l] (concat (repeat (str_bytes "abbey ") 12))
                  <> Ret (Some key).
Proof.
  destruct ascii_english as [l E]. pose proof (english_constructed _ l E) as Hc.
  exists l. split; [exact E|]. clear E. apply twelve_words_refused; [exact (Forall_cons_2 _ _ _ Hc (Forall_nil_2 _))|by vm_compute].
Defined.

Lemma seed_canonical_witness :
  exists l text ixs, English ascii_lower = Ret l
    /\ words_to_key ascii_lower sum_32 [l] text = Ret (Some (some_key, str_bytes "English"))
    /\ match_words ascii_lower l true (split text) = Ret (Some ixs) /\ take 24 ixs = indices 8 some_key.
Proof.
  destruct ascii_english as [l E]. destruct (english_ok _ l E) as (Hl & Ew & En).
  assert (Hlen : length some_key = 32%nat) by (clear; by vm_compute).
  pose proof english_plain as Hp. rewrite <- Ew in Hp.
  destruct (seed_of_key ascii_lower sum_32 l [l] [] [] (str_bytes "English") some_key Hl Hp (named_english l En)
              some_key_bytes Hlen) as (text & _ & H25 & Hk).
  specialize (Hk (Forall_nil_2 _)). cbn [app] in Hk. rewrite En in Hk.
  destruct (seed_canonical ascii_lower sum_32 [l] text some_key (str_bytes "English")
              (Forall_cons_2 _ _ _ (english_constructed _ l E) (Forall_nil_2 _)) H25 Hk) as (l' & ixs & Hin & _ & Hm & _ & _ & _ & Ht & _).
  apply list_elem_of_singleton in Hin as ->.
  exists l, text, ixs. exact (conj E (conj Hk (conj Hm Ht))).
Defined.
