(* ===== verification/MinerTx.v ===== *)
(** * The miner transaction of a new block: [construct_miner_tx] of
    core/src/cryptonote_core/cryptonote_tx_utils.cpp and the end of
    [create_block_template] of blockchain.cpp

    The reward depends on the weight of the block, which depends on the transaction that pays
    it: the transaction is built again until its weight is the one it was built for. Each time
    new keys are made; they are an argument. [None] is a failed check or an exception.

    [create_block_template] takes the height, the coins, the version and the median from the chain
    of [Weights] and the transactions from [BlockTemplate]. Its other branch, a template on top of
    a block that is not the tip, and the cached template are left out, as are the fields of the
    block that other files compute (timestamp, difficulty, previous hash). *)

From S2P Require Import Prelude IntUtil SortedLists Difficulty Emission HardForks HardFork RollingMedian Weights BlockChecks.
From S2P Require Import Radix Varint Serialization RingCt Transactions TxExtra TxWeight.
From S2P Require BlockTemplate TxPool.

Definition DEFAULT_DUST_THRESHOLD : Z := 2000000000.
Definition BASE_REWARD_CLAMP_THRESHOLD : Z := 100000000.

(** ** Amounts *)

(** What the handlers of chunks and of dust are called with; both append to one vector.
    A number of 64 bits has at most 20 digits. *)
Fixpoint digits_loop (fuel : nat) (amount order dust : Z) (is_dust_handled : bool) (dust_threshold : Z) (out : list Z) : list Z :=
  match fuel with
  | O => out
  | S fuel =>
      if amount =? 0 then if negb is_dust_handled && negb (dust =? 0) then out ++ [dust] else out
      else
        let chunk := u64 (amount mod 10 * order) in
        let amount := amount / 10 in
        let order := u64 (order * 10) in
        if u64 (dust + chunk) <=? dust_threshold
        then digits_loop fuel amount order (u64 (dust + chunk)) is_dust_handled dust_threshold out
        else
          let flush := negb is_dust_handled && negb (dust =? 0) in
          let out := if flush then out ++ [dust] else out in
          let out := if negb (chunk =? 0) then out ++ [chunk] else out in
          digits_loop fuel amount order dust (is_dust_handled || flush) dust_threshold out
  end.
Definition decompose_amount_into_digits (amount dust_threshold : Z) : list Z :=
  if amount =? 0 then [] else digits_loop 21 amount 1 0 false dust_threshold [].

(** The first output is added to the second until there are few enough. *)
Fixpoint merge_outs (fuel : nat) (max_outs : Z) (out_amounts : list Z) : list Z :=
  match fuel with
  | O => out_amounts
  | S fuel =>
      if max_outs <? Z.of_nat (length out_amounts) then
        match out_amounts with
        | x :: y :: l => merge_outs fuel max_outs (u64 (y + x) :: l)
        | _ => out_amounts
        end
      else out_amounts
  end.

(** ** The transaction *)

(** Keys made for one transaction: its own, and for each output a key and a view tag *)
Record tx_keys := { txkey_pub : list Z; out_eph_public_key : nat -> list Z; out_view_tag : nat -> list Z }.

Definition set_tx_out (amount : Z) (output_public_key : list Z) (use_view_tags : bool) (view_tag : list Z) : tx_out :=
  {| out_amount := amount;
     target := if use_view_tags then txout_to_tagged_key output_public_key view_tag else txout_to_key output_public_key |}.

Definition construct_miner_tx (height median_weight already_generated_coins current_block_weight fee : Z) (keys : tx_keys)
    (extra_nonce : list Z) (max_outs hard_fork_version : Z) : option transaction :=
  let extra := add_tx_pub_key_to_extra [] (txkey_pub keys) in
  extra ← (if bool_decide (extra_nonce = []) then Some extra else add_extra_nonce_to_tx_extra extra extra_nonce);
  extra ← sort_tx_extra extra false;
  match get_block_reward median_weight current_block_weight already_generated_coins hard_fork_version with
  | Throw _ | Ret None => None
  | Ret (Some block_reward) =>
      let block_reward := u64 (block_reward + fee) in
      let block_reward :=
        if (2 <=? hard_fork_version) && (hard_fork_version <? 4)
        then block_reward - block_reward mod BASE_REWARD_CLAMP_THRESHOLD else block_reward in
      let out_amounts := decompose_amount_into_digits block_reward (if 2 <=? hard_fork_version then 0 else DEFAULT_DUST_THRESHOLD) in
      if negb (1 <=? max_outs) then None
      else
        out_amounts ← (if (height =? 0) || (4 <=? hard_fork_version) then Some (merge_outs (length out_amounts) max_outs out_amounts)
                       else if negb (Z.of_nat (length out_amounts) <=? max_outs) then None else Some out_amounts);
        let vout := imap (fun no amount => set_tx_out amount (out_eph_public_key keys no) (HF_VERSION_VIEW_TAGS <=? hard_fork_version)
                                             (out_view_tag keys no)) out_amounts in
        let summary_amounts := foldl (fun s a => u64 (s + a)) 0 out_amounts in
        if negb (summary_amounts =? block_reward) then None
        else
          Some {| tx_prefix :=
                    {| version := if 4 <=? hard_fork_version then 2 else 1;
                       unlock_time := u64 (height + CRYPTONOTE_MINED_MONEY_UNLOCK_WINDOW);
                       vin := [txin_gen height]; vout := vout; extra := extra |};
                  signatures := []; rct_signatures := null_rctSig; pruned := false |}
  end.

(** ** The weight of the block *)

(** [get_transaction_weight] of a transaction that is not serialized yet *)
Definition tx_weight (t : transaction) : option Z := blob ← tx_to_blob t; get_transaction_weight t (Z.of_nat (length blob)).

Definition with_extra (t : transaction) (e : list Z) : transaction :=
  {| tx_prefix := {| version := version (tx_prefix t); unlock_time := unlock_time (tx_prefix t); vin := vin (tx_prefix t);
                     vout := vout (tx_prefix t); extra := e |};
     signatures := signatures t; rct_signatures := rct_signatures t; pruned := pruned t |}.

Section Fit.
Context (construct : nat -> Z -> option transaction) (txs_weight : Z).

(** The tries, with the number of the call of [construct_miner_tx]: the transaction and
    [cumulative_weight] *)
Fixpoint fit_loop (tries : nat) (call : nat) (cumulative_weight : Z) : option (transaction * Z) :=
  match tries with
  | O => None
  | S tries =>
      miner_tx ← construct call cumulative_weight;
      coinbase_weight ← tx_weight miner_tx;
      if u64 (cumulative_weight - txs_weight) <? coinbase_weight
      then fit_loop tries (S call) (u64 (txs_weight + coinbase_weight))
      else if coinbase_weight <? u64 (cumulative_weight - txs_weight) then
        let delta := u64 (u64 (cumulative_weight - txs_weight) - coinbase_weight) in
        let miner_tx := with_extra miner_tx (extra (tx_prefix miner_tx) ++ replicate (Z.to_nat delta) 0) in
        w ← tx_weight miner_tx;
        if cumulative_weight =? u64 (txs_weight + w) then Some (miner_tx, cumulative_weight)
        else if negb (u64 (cumulative_weight + 1) =? u64 (txs_weight + w)) then None
        else
          let miner_tx := with_extra miner_tx (take (length (extra (tx_prefix miner_tx)) - 1) (extra (tx_prefix miner_tx))) in
          w ← tx_weight miner_tx;
          if negb (cumulative_weight =? u64 (txs_weight + w)) then fit_loop tries (S call) (u64 (cumulative_weight + u64 (delta - 1)))
          else Some (miner_tx, cumulative_weight)
      else
        if negb (cumulative_weight =? u64 (txs_weight + coinbase_weight)) then None else Some (miner_tx, cumulative_weight)
  end.

Definition fit : option (transaction * Z) :=
  miner_tx ← construct 0%nat txs_weight;
  w ← tx_weight miner_tx;
  fit_loop 10 1 (u64 (txs_weight + w)).
End Fit.

(** The miner transaction of [create_block_template] and the weight of the block *)
Definition create_miner_tx (height median_weight already_generated_coins txs_weight fee : Z) (keys : nat -> tx_keys)
    (ex_nonce : list Z) (hf_version : Z) : option (transaction * Z) :=
  let max_outs := if 4 <=? hf_version then 1 else 11 in
  fit (fun call w => construct_miner_tx height median_weight already_generated_coins w fee (keys call) ex_nonce max_outs hf_version) txs_weight.

(** A template on top of the main chain, with no template cached: the height, the median, the coins
    and the version are those of the chain, the transactions those that the pool chooses. The
    result is the listed transactions, the miner transaction, the weight, the expected reward
    and the pool. *)
Section Template.
Context {hash key_image tx rate : Type} `{Countable hash} `{Countable key_image}.
Context (inputs : tx -> list key_image) (top_block_height : Z) (top_block_hash : hash)
        (check_tx_inputs : hash -> BlockTemplate.inputs_verdict (hash := hash)) (mine_stem_txes : bool).
Local Notation pool_t := (TxPool.tx_memory_pool (hash := hash) (key_image := key_image) (transaction := tx) (rate := rate)).

Definition create_block_template (bc : Blockchain) (p : pool_t) (keys : nat -> tx_keys) (ex_nonce : list Z)
  : option (list hash * transaction * Z * Z * pool_t) :=
  let height := Weights.height (m_db bc) in
  let hf_version := get_current_hard_fork_version bc in
  let median_weight := m_current_block_cumul_weight_limit bc / 2 in
  already_generated_coins ← bi_coins <$> block_info (m_db bc) (height - 1);
  match BlockTemplate.fill_block_template inputs top_block_height top_block_hash check_tx_inputs mine_stem_txes
          median_weight already_generated_coins hf_version p with
  | Ret (Some (tx_hashes, txs_weight, fee, expected_reward, p)) =>
      '(miner_tx, cumulative_weight) ← create_miner_tx height median_weight already_generated_coins txs_weight fee keys ex_nonce hf_version;
      Some (tx_hashes, miner_tx, cumulative_weight, expected_reward, p)
  | _ => None
  end.
End Template.

(** ** The amounts add up *)

Definition sum (l : list Z) : Z := foldr Z.add 0 l.

Lemma sum_app (l1 l2 : list Z) : sum (l1 ++ l2) = sum l1 + sum l2.
Proof. unfold sum. induction l1 as [|x l1 IH]; simpl; [done|]. rewrite IH. lia. Qed.

Lemma sum_nonneg l : Forall is_u64 l -> 0 <= sum l.
Proof. induction 1 as [|x l Hx _ IH]; simpl; [done|]. unfold sum, in_width in *. lia. Qed.

(** A vector with the dust, the chunk or both appended *)
Lemma appended (out : list Z) (b c : bool) (dust chunk : Z) :
  Forall is_u64 out -> is_u64 dust -> is_u64 chunk -> (c = false -> chunk = 0) ->
  let out' := if b then out ++ [dust] else out in
  let out'' := if c then out' ++ [chunk] else out' in
  Forall is_u64 out'' /\ sum out'' = sum out + (if b then dust else 0) + chunk.
Proof.
  intros Ho Hd Hc Hz. destruct b, c; cbv zeta; rewrite ?Forall_app, ?Forall_singleton, ?sum_app; simpl; (split; [done|]).
  all: unfold sum; simpl; try rewrite (Hz eq_refl); lia.
Qed.

Lemma digits_loop_sum fuel (amount order dust : Z) (handled : bool) thr out T :
  0 <= amount < 10 ^ (Z.of_nat fuel - 1) -> 0 <= T < 2 ^ 64 -> 0 <= dust -> (amount <> 0 -> 1 <= order) ->
  sum out + (if handled then 0 else dust) + amount * order = T -> (handled = true -> dust <= sum out) ->
  (amount <> 0 -> handled = true -> thr < dust + order) -> Forall is_u64 out ->
  let l := digits_loop fuel amount order dust handled thr out in sum l = T /\ Forall is_u64 l.
Proof.
  revert amount order dust handled out. induction fuel as [|fuel IH]; intros amount order dust handled out Ha HT Hd Ho Hsum Hdust Hthr Hout.
  { simpl in Ha. lia. }
  pose proof (sum_nonneg _ Hout) as Hpos. cbv zeta. simpl digits_loop. destruct (Z.eqb_spec amount 0) as [->|Hne].
  { assert (is_u64 dust) by (destruct handled; [specialize (Hdust eq_refl)|]; mach).
    destruct handled; simpl; [split; [lia|done]|]. destruct (Z.eqb_spec dust 0); simpl; [split; [lia|done]|].
    rewrite sum_app, Forall_app, Forall_singleton. split; [unfold sum in *; simpl; lia|done]. }
  specialize (Ho Hne). specialize (Hthr Hne). assert (amount * order <= T) as Hao by (destruct handled; lia).
  pose proof (Z.div_mod amount 10 ltac:(lia)) as Hdm. pose proof (Z.mod_pos_bound amount 10 ltac:(lia)) as Hmod.
  set (c := amount mod 10) in *. set (q := amount / 10) in *.
  assert (0 <= q < 10 ^ (Z.of_nat fuel - 1)) as Hq.
  { split; [subst q; apply Z.div_pos; lia|]. subst q. apply Z.div_lt_upper_bound; [lia|]. rewrite <- Z.pow_succ_r; [|].
    - replace (Z.succ (Z.of_nat fuel - 1)) with (Z.of_nat (S fuel) - 1) by lia. lia.
    - destruct fuel; [|lia]. simpl in Ha. lia. }
  assert (0 <= c * order) as Hc by nia. assert (amount * order = q * (order * 10) + c * order) as Hsplit by nia.
  assert (0 <= q * (order * 10)) by nia.
  assert (dust + c * order <= T) as Hdc by (destruct handled; [specialize (Hdust eq_refl)|]; lia).
  rewrite (wrap_small 64 (c * order)), (wrap_small 64 (dust + c * order)) by mach.
  assert (q <> 0 -> u64 (order * 10) = order * 10) as Hnext by (intros Hq0; apply wrap_small; split; [lia|nia]).
  set (o' := wrap 64 (order * 10)) in *. assert (q * o' = q * (order * 10)) as Hqo by (destruct (decide (q = 0)) as [->|]; [lia|by rewrite Hnext]).
  clearbody c q o'. destruct (Z.leb_spec (dust + c * order) thr) as [Hle|Hgt].
  - assert (handled = true -> c = 0) as Hc0 by (intros ->; specialize (Hthr eq_refl); nia).
    apply IH; [done|done|lia|intros; rewrite Hnext by done; lia| | |intros Hq0 Hh; specialize (Hthr Hh); rewrite Hnext by done; lia|done].
    + destruct handled; [rewrite (Hc0 eq_refl) in *|]; lia.
    + intros Hh. rewrite (Hc0 Hh). specialize (Hdust Hh). lia.
  - destruct (appended out (negb handled && negb (dust =? 0)) (negb (c * order =? 0)) dust (c * order)) as [Ha1 Ha2];
      [done|mach|mach|intros E%negb_false_iff%Z.eqb_eq; done|].
    apply IH; [done|done|done|intros; rewrite Hnext by done; lia| | | |done].
    + rewrite Ha2. destruct handled; simpl; [lia|]. destruct (Z.eqb_spec dust 0); simpl; lia.
    + rewrite Ha2. destruct handled; simpl; [intros _; specialize (Hdust eq_refl); lia|]. destruct (Z.eqb_spec dust 0); simpl; [done|lia].
    + intros Hq0 _. rewrite Hnext by done. nia.
Qed.

Lemma decompose_sum amount thr : is_u64 amount ->
  sum (decompose_amount_into_digits amount thr) = amount /\ Forall is_u64 (decompose_amount_into_digits amount thr).
Proof.
  intros Ha. unfold decompose_amount_into_digits. destruct (Z.eqb_spec amount 0) as [->|]; [done|].
  apply digits_loop_sum; [|mach|done|done|unfold sum; simpl; lia|done|done|done].
  split; [mach|]. change (10 ^ (Z.of_nat 21 - 1)) with (10 ^ 20). mach.
Qed.

Lemma merge_outs_sum fuel max_outs l : Forall is_u64 l -> sum l < 2 ^ 64 ->
  sum (merge_outs fuel max_outs l) = sum l /\ Forall is_u64 (merge_outs fuel max_outs l).
Proof.
  revert l. induction fuel as [|fuel IH]; intros l Hl Hs; simpl; [done|]. destruct (_ <? _); [|done].
  destruct l as [|x [|y l]]; [done..|]. apply Forall_cons in Hl as [Hx [Hy Hl]%Forall_cons]. pose proof (sum_nonneg l Hl).
  unfold sum in *. simpl in Hs. rewrite wrap_small by mach. destruct (IH (y + x :: l)) as [E HF]; [constructor; [mach|done]|simpl; lia|].
  split; [rewrite E; simpl; lia|done].
Qed.

(** ** What the checks of a miner transaction read *)

Definition view_in (i : txin_v) : BlockChecks.txin_v :=
  match i with
  | txin_gen h => BlockChecks.txin_gen h
  | txin_to_script _ _ _ => BlockChecks.txin_to_script
  | txin_to_scripthash _ _ _ _ => BlockChecks.txin_to_scripthash
  | txin_to_key a o k => BlockChecks.txin_to_key a o (foldr (fun b n => b + 256 * n) 0 k)
  end.
Definition view_out (o : tx_out) : BlockChecks.tx_out :=
  {| BlockChecks.amount := out_amount o;
     BlockChecks.target :=
       match target o with
       | to_script _ => BlockChecks.txout_to_script
       | txout_to_scripthash _ => BlockChecks.txout_to_scripthash
       | txout_to_key _ => BlockChecks.txout_to_key
       | txout_to_tagged_key _ _ => BlockChecks.txout_to_tagged_key
       end |}.
Definition miner_view (t : transaction) : BlockChecks.transaction :=
  {| BlockChecks.version := version (tx_prefix t); BlockChecks.unlock_time := unlock_time (tx_prefix t);
     BlockChecks.vin := view_in <$> vin (tx_prefix t); BlockChecks.vout := view_out <$> vout (tx_prefix t);
     BlockChecks.rct_type := type (rct_base (rct_signatures t)); BlockChecks.bulletproofs := []; BlockChecks.bulletproofs_plus := [] |}.

(** What [construct_miner_tx] returns, whatever the extra field *)
Record miner_tx_of (height R fee v : Z) (t : transaction) : Prop := {
  mt_version : version (tx_prefix t) = if 4 <=? v then 2 else 1;
  mt_unlock : unlock_time (tx_prefix t) = u64 (height + CRYPTONOTE_MINED_MONEY_UNLOCK_WINDOW);
  mt_vin : vin (tx_prefix t) = [txin_gen height];
  mt_rct : rct_signatures t = null_rctSig;
  mt_amounts : Forall is_u64 (out_amount <$> vout (tx_prefix t));
  mt_sum : sum (out_amount <$> vout (tx_prefix t))
           = (if (2 <=? v) && (v <? 4) then R + fee - (R + fee) mod BASE_REWARD_CLAMP_THRESHOLD else R + fee);
  mt_target : Forall (fun o => BlockChecks.target (view_out o)
                = if HF_VERSION_VIEW_TAGS <=? v then BlockChecks.txout_to_tagged_key else BlockChecks.txout_to_key) (vout (tx_prefix t)) }.

Lemma construct_spec height median coins w fee keys nonce max_outs v t :
  0 <= median < 2 ^ 32 -> 0 <= w < 2 ^ 64 -> is_u64 coins -> 0 <= fee < 2 ^ 63 ->
  construct_miner_tx height median coins w fee keys nonce max_outs v = Some t ->
  exists R, get_block_reward median w coins v = Ret (Some R) /\ 0 <= R < 2 ^ 45 /\ miner_tx_of height R fee v t.
Proof.
  intros Hm Hw Hc Hf. unfold construct_miner_tx. set (e0 := if bool_decide _ then _ else _). destruct e0 as [e1|]; [|done].
  cbn [mbind option_bind]. destruct (sort_tx_extra e1 false) as [e2|]; [|done]. cbn [mbind option_bind].
  destruct (get_block_reward median w coins v) as [[R|]|] eqn:HR; [|done..].
  destruct (get_block_reward_monotone median w w coins v R R) as [HR1 HR2]; [done|lia|lia|done|done|done|].
  pose proof (base_reward_range coins v Hc) as Hb. intros Ht. exists R. split; [done|]. split; [lia|].
  rewrite (wrap_small 64 (R + fee)) in Ht by mach. revert Ht.
  set (r := if (2 <=? v) && (v <? 4) then _ else _). set (d := decompose_amount_into_digits r _).
  assert (is_u64 r) as Hr.
  { subst r. pose proof (Z.mod_pos_bound (R + fee) BASE_REWARD_CLAMP_THRESHOLD ltac:(done)).
    pose proof (Z.mod_le (R + fee) BASE_REWARD_CLAMP_THRESHOLD ltac:(lia) ltac:(done)). destruct (_ && _); mach. }
  destruct (decompose_sum r (if 2 <=? v then 0 else DEFAULT_DUST_THRESHOLD) Hr) as [Hds Hdu]. fold d in Hds, Hdu.
  destruct (negb (1 <=? max_outs)); [done|]. set (outs := if (height =? 0) || (4 <=? v) then _ else _).
  assert (forall l, outs = Some l -> sum l = r /\ Forall is_u64 l) as Houts.
  { intros l. subst outs. destruct (_ || _); [intros [= <-]|destruct (negb _); [done|intros [= <-]; done]].
    destruct (merge_outs_sum (length d) max_outs d Hdu) as [-> ?]; [mach|]. done. }
  destruct outs as [l|]; [|done]. destruct (Houts l eq_refl) as [Hls Hlu]. cbn [mbind option_bind]. destruct (negb _); [done|].
  intros [= <-]. set (mk := fun no amount => set_tx_out amount _ _ _).
  assert (out_amount <$> imap mk l = l) as Hamounts.
  { apply list_eq. intros i. rewrite list_lookup_fmap, list_lookup_imap. by destruct (l !! i). }
  split; simpl; try done; [by rewrite Hamounts|by rewrite Hamounts, Hls|].
  apply Forall_forall. intros o Ho. apply elem_of_lookup_imap in Ho as (i & a & -> & _). unfold mk, set_tx_out, view_out.
  by destruct (HF_VERSION_VIEW_TAGS <=? v).
Qed.

Lemma miner_view_extra height R fee v t e : miner_tx_of height R fee v t -> miner_tx_of height R fee v (with_extra t e).
Proof. by intros []. Qed.

Lemma fit_loop_spec construct txs_weight tries call cw t cw' : fit_loop construct txs_weight tries call cw = Some (t, cw') ->
  exists call' t0 e w, construct call' cw' = Some t0 /\ t = with_extra t0 e /\ tx_weight t = Some w /\ cw' = u64 (txs_weight + w).
Proof.
  revert call cw. induction tries as [|tries IH]; intros call cw; simpl; [done|].
  destruct (construct call cw) as [t0|] eqn:Hc; [|done]. simpl. destruct (tx_weight t0) as [w|] eqn:Hw; [|done]. simpl.
  destruct (_ <? w); [apply IH|]. destruct (w <? _).
  - set (t1 := with_extra t0 _). destruct (tx_weight t1) as [w1|] eqn:Hw1; [|done]. simpl. destruct (Z.eqb_spec cw (u64 (txs_weight + w1))).
    { intros [= <- <-]. by eexists call, t0, _, w1. }
    destruct (negb _); [done|]. set (t2 := with_extra t1 _). destruct (tx_weight t2) as [w2|] eqn:Hw2; [|done]. simpl.
    destruct (Z.eqb_spec cw (u64 (txs_weight + w2))); simpl; [|apply IH]. intros [= <- <-]. by eexists call, t0, _, w2.
  - destruct (Z.eqb_spec cw (u64 (txs_weight + w))); simpl; [|done]. intros [= <- <-]. exists call, t0, (extra (tx_prefix t0)), w.
    split; [done|]. split; [by destruct t0 as [[] ? ? ?]|done].
Qed.

Lemma view_total outs : BlockChecks.total (view_out <$> outs) = sum (out_amount <$> outs).
Proof. induction outs as [|o outs IH]; [done|]. rewrite !fmap_cons. cbn [BlockChecks.total sum foldr]. by f_equal. Qed.

Lemma view_amounts_ok outs : Forall is_u64 (out_amount <$> outs) -> BlockChecks.amounts_ok (view_out <$> outs).
Proof. intros Ho. unfold BlockChecks.amounts_ok. rewrite Forall_fmap. exact (proj1 (Forall_fmap _ _ _) Ho). Qed.

(** The outputs are all of one kind, the one of the fork. *)
Lemma view_output_types height R fee v t : miner_tx_of height R fee v t -> BlockChecks.check_output_types (miner_view t) v = true.
Proof.
  intros [_ _ _ _ _ _ Htg]. unfold BlockChecks.check_output_types. apply forallb_forall. intros o Ho%list_elem_of_In. simpl in Ho.
  assert (forall o, o ∈ view_out <$> vout (tx_prefix t) -> BlockChecks.target o
    = if HF_VERSION_VIEW_TAGS <=? v then BlockChecks.txout_to_tagged_key else BlockChecks.txout_to_key) as Hall.
  { intros o' (x & -> & Hx)%list_elem_of_fmap. rewrite Forall_forall in Htg. by apply Htg. }
  change BlockChecks.HF_VERSION_VIEW_TAGS with 15 in *. rewrite (Hall o Ho). destruct (Z.leb_spec 15 v) as [H15|H15].
  - destruct (Z.ltb_spec 15 v); [by apply bool_decide_eq_true_2|]. rewrite (proj2 (Z.ltb_ge v 15)) by lia.
    rewrite (bool_decide_eq_true_2 (BlockChecks.txout_to_tagged_key = BlockChecks.txout_to_tagged_key)), orb_true_r by done.
    apply bool_decide_eq_true_2.
    change (BlockChecks.vout (miner_view t)) with (view_out <$> vout (tx_prefix t)).
    destruct (view_out <$> vout (tx_prefix t)) as [|o1 outs]; [set_solver|]. cbn [head fmap option_fmap option_map]. f_equal.
    symmetry. apply Hall. left.
  - rewrite (proj2 (Z.ltb_ge 15 v)), (proj2 (Z.ltb_lt v 15)) by lia. by apply bool_decide_eq_true_2.
Qed.

Lemma miner_prevalidates height R fee v t : 0 <= R < 2 ^ 45 -> 0 <= fee < 2 ^ 63 -> 4 <= v ->
  miner_tx_of height R fee v t -> BlockChecks.prevalidate_miner_transaction (miner_view t) height v = true.
Proof.
  intros HR Hf Hv Hmt. pose proof (view_output_types _ _ _ _ _ Hmt) as Hty. destruct Hmt as [Hver Hun Hvin Hrct Ham Hsum _].
  unfold BlockChecks.prevalidate_miner_transaction. simpl. rewrite Hvin, Hver, Hun, Hrct. simpl.
  rewrite (proj2 (Z.leb_le 4 v)), !Z.eqb_refl by done. simpl. rewrite andb_false_r. unfold BlockChecks.check_outs_overflow.
  change (BlockChecks.vout (miner_view t)) with (view_out <$> vout (tx_prefix t)).
  rewrite (proj2 (BlockChecks.outs_overflow_loop 0 _ ltac:(by_decide) (view_amounts_ok _ Ham))); [done|].
  rewrite view_total, Hsum. destruct (_ && _); [|lia]. pose proof (Z.mod_pos_bound (R + fee) BASE_REWARD_CLAMP_THRESHOLD ltac:(done)). lia.
Qed.

(** A larger median in the check only raises the bound on what the miner takes. *)
Lemma miner_validates bc height R R' fee v t cw r0 coins median : 0 <= R <= R' -> R' < 2 ^ 45 -> 0 <= fee < 2 ^ 63 -> 4 <= v ->
  (13 <= v -> R = R') -> penalty_median bc v = Some median -> get_block_reward median cw coins v = Ret (Some R') ->
  miner_tx_of height R fee v t ->
  BlockChecks.validate_miner_transaction bc (miner_view t) cw fee r0 coins v = Some (true, R, negb (R =? R')).
Proof.
  intros HR HR' Hf Hv H13 Hm Hrew [_ _ _ _ Ham Hsum _]. unfold BlockChecks.validate_miner_transaction, BlockChecks.get_outs_money_amount. simpl.
  rewrite (proj2 (Z.ltb_ge v 4) Hv), andb_false_r in Hsum.
  rewrite BlockChecks.outs_money_exact; [|done|by apply view_amounts_ok|rewrite view_total, Hsum; lia].
  rewrite view_total, Hsum, (proj2 (Z.eqb_neq v 3)) by lia. simpl. rewrite Hm. simpl. rewrite Hrew.
  rewrite (wrap_small 64 (R' + fee)), (proj2 (Z.ltb_ge _ _)), (proj2 (Z.ltb_ge v 2)) by (mach || lia). simpl.
  change BlockChecks.HF_VERSION_EXACT_COINBASE with 13. destruct (Z.leb_spec 13 v) as [Hge|Hlt].
  - by rewrite (H13 Hge), !Z.eqb_refl.
  - rewrite (wrap_small 64) by mach. rewrite (proj2 (Z.leb_le _ _)) by lia. simpl. f_equal. f_equal; [f_equal; lia|].
    destruct (Z.eqb_spec R R'), (Z.eqb_spec (R' + fee) (R + fee)); (done || lia).
Qed.

(** ** The two medians *)

(** Weights and coins far above what any block reaches *)
Definition blocks_small (db : list mdb_block_info) : Prop :=
  Forall (fun b => 0 <= bi_weight b < 2 ^ 32 /\ 0 <= bi_long_term_block_weight b < 2 ^ 32 /\ is_u64 (bi_coins b)) db.

Lemma short_median_small db s : 0 < Weights.height db -> blocks_small db -> median_value (short_weights db) = Some s -> 0 <= s < 2 ^ 32.
Proof.
  intros Hh Hdb Hs. enough (0 <= s <= 2 ^ 32 - 1) by lia. eapply median_bounds; [exact Hs| |lia|lia|].
  - apply last_n_nonempty; [done|]. by destruct db.
  - apply last_n_Forall, Forall_fmap. eapply Forall_impl; [exact Hdb|]. cbn. lia.
Qed.

Lemma long_median_small W db l : 0 < Weights.height db -> 1 <= W -> blocks_small db ->
  median_value (last_n W (lt_weights db)) = Some l -> 0 <= l < 2 ^ 32.
Proof.
  intros Hh HW Hdb Hl. enough (0 <= l <= 2 ^ 32 - 1) by lia. eapply median_bounds; [exact Hl| |lia|lia|].
  - apply last_n_nonempty; [done|]. by destruct db.
  - apply last_n_Forall, Forall_fmap. eapply Forall_impl; [exact Hdb|]. cbn. lia.
Qed.

(** Half of the limit is the median; the check's own median is at least as large, and the same one but for
    the forks 10 and 11, which bound only the median of the template by the surge factor. *)
Lemma template_median weights_of bc : weights_inv weights_of bc -> blocks_small (m_db bc) ->
  let v := get_current_hard_fork_version bc in let median := m_current_block_cumul_weight_limit bc / 2 in
  median = m_current_block_cumul_weight_median bc /\ 0 <= median < 2 ^ 32
  /\ exists m, penalty_median bc v = Some m /\ 0 <= m < 2 ^ 32 /\ effective_median median v <= effective_median m v
    /\ (effective_median m v <> effective_median median v -> 10 <= v < 12).
Proof.
  intros [Hc Hok Hh (lt & Hlim & Hlimit)] Hdb v median.
  assert (1 <= m_long_term_block_weights_window bc) as HW.
  { destruct Hok as [Hinv <- _]. destruct (inv_idx _ Hinv). lia. }
  unfold ideal_limits in Hlim. fold v in Hlim.
  destruct (median_value (short_weights _)) as [s|] eqn:Hs; [|done]. destruct (median_value (last_n _ _)) as [l|] eqn:Hl; [|done].
  cbn [mbind option_bind] in Hlim. injection Hlim as Hmed _.
  pose proof (short_median_small _ _ (proj1 Hh) Hdb Hs) as Bs. pose proof (long_median_small _ _ _ (proj1 Hh) HW Hdb Hl) as Bl.
  change HF_VERSION_LONG_TERM_BLOCK_WEIGHT with 10 in Hmed. change HF_VERSION_2021_SCALING with 15 in Hmed.
  change CRYPTONOTE_SHORT_TERM_BLOCK_WEIGHT_SURGE_FACTOR with 50 in Hmed. unfold CRYPTONOTE_BLOCK_GRANTED_FULL_REWARD_ZONE_V5 in Hmed.
  rewrite (wrap_small 64) in Hmed by mach. pose proof (min_block_weight_range v) as Hz.
  assert (5 <= v -> get_min_block_weight v = 300000) as Hz5.
  { intros Hv. unfold get_min_block_weight. by rewrite (proj2 (Z.ltb_ge v 2)), (proj2 (Z.ltb_ge v 5)) by lia. }
  set (med := m_current_block_cumul_weight_median bc) in *.
  assert (0 <= med < 2 ^ 32) as Bm by (rewrite <- Hmed; destruct (v <? 10), (15 <=? v); lia).
  assert (median = med) as Em by (unfold median; rewrite Hlimit, (wrap_small 64) by mach; apply Z.div_mul; lia).
  rewrite Em. do 2 (split; [done|]). unfold penalty_median. change HF_VERSION_EFFECTIVE_SHORT_TERM_MEDIAN_IN_PENALTY with 12.
  destruct (Z.leb_spec 12 v) as [H12|H12]; [by exists med|].
  exists s. rewrite short_read by lia. split; [exact Hs|]. split; [done|]. unfold effective_median.
  rewrite <- Hmed. destruct (Z.ltb_spec v 10); [lia|]. rewrite (proj2 (Z.leb_gt 15 v)), Hz5 by lia. lia.
Qed.

Lemma penalised_median_mono b M M' w : 0 <= b -> 0 < M <= M' -> M' <= w <= 2 * M -> penalised b M w <= penalised b M' w.
Proof.
  intros Hb HM Hw. unfold penalised.
  assert (0 < M * M) as H1 by nia. assert (0 < M' * M') as H2 by nia.
  rewrite <- (Z.div_mul_cancel_r (b * ((2 * M - w) * w)) (M * M) (M' * M')) by lia.
  rewrite <- (Z.div_mul_cancel_r (b * ((2 * M' - w) * w)) (M' * M') (M * M)) by lia.
  rewrite (Z.mul_comm (M' * M') (M * M)). apply Z.div_le_mono; [by apply Z.mul_pos_pos|].
  rewrite <- !Z.mul_assoc. apply Z.mul_le_mono_nonneg_l; [done|].
  assert (0 <= (M' - M) * (w * (M' + M) - 2 * (M * M'))) as Hk by (apply Z.mul_nonneg_nonneg; nia).
  assert (0 <= w * ((M' - M) * (w * (M' + M) - 2 * (M * M')))) by (apply Z.mul_nonneg_nonneg; lia). lia.
Qed.

(** The reward does not decrease with the median. *)
Lemma reward_median_mono m m' w a v R : 0 <= m < 2 ^ 32 -> 0 <= m' < 2 ^ 32 -> 0 <= w < 2 ^ 64 -> is_u64 a ->
  effective_median m v <= effective_median m' v -> get_block_reward m w a v = Ret (Some R) ->
  exists R', get_block_reward m' w a v = Ret (Some R') /\ 0 <= R <= R' /\ R' < 2 ^ 45
    /\ (effective_median m' v = effective_median m v -> R = R').
Proof.
  intros Hm Hm' Hw Ha Hle. rewrite !get_block_reward_eq by done. pose proof (base_reward_range a v Ha) as Hb.
  pose proof (min_block_weight_range v). assert (20000 <= effective_median m v) as HM by (unfold effective_median; lia).
  set (M := effective_median m v) in *. set (M' := effective_median m' v) in *. set (b := base_reward a v) in *. clearbody M M' b.
  destruct (Z.leb_spec w M).
  - intros [= <-]. exists b. rewrite (proj2 (Z.leb_le w M')) by lia. split; [done|]. lia.
  - destruct (Z.ltb_spec (2 * M) w); [done|]. intros [= <-]. pose proof (penalised_bounds b M w). destruct (Z.leb_spec w M').
    + exists b. split; [done|]. lia.
    + rewrite (proj2 (Z.ltb_ge _ _)) by lia. exists (penalised b M' w). pose proof (penalised_bounds b M' w).
      pose proof (penalised_median_mono b M M' w). split; [done|]. split; [lia|]. split; [lia|]. by intros ->.
Qed.

Section Accepted.
Context {hash key_image tx rate : Type} `{Countable hash} `{Countable key_image}.
Context (inputs : tx -> list key_image) (top_block_height : Z) (top_block_hash : hash)
        (check_tx_inputs : hash -> BlockTemplate.inputs_verdict (hash := hash)) (mine_stem_txes : bool).
Local Notation pool_t := (TxPool.tx_memory_pool (hash := hash) (key_image := key_image) (transaction := tx) (rate := rate)).
Local Notation create_block_template := (create_block_template inputs top_block_height top_block_hash check_tx_inputs mine_stem_txes).

(** C10: The miner transaction of a template is one that the node accepts. Take a node whose blocks
    were stored and removed in any way, at fork 4 or later, with weights and long-term weights below
    2^32 and coins within 64 bits. When [create_block_template] returns, with the median it takes as
    half of the weight limit, and the listed fees are below 2^63, the weight is that of the listed
    transactions and of the miner transaction; the checks of the chain, with the median they take
    themselves, accept this transaction for this weight on this chain, and it takes exactly the fees
    and the reward of a block of this weight with the template's median. That is all the checks
    allow, except at the forks 10 and 11, where the check's median may be the larger one and allow
    more. *)
Theorem miner_tx_accepted weights_of bc0 bc (p : pool_t) keys nonce hashes t cw expected p' r0 :
  weights_inv weights_of bc0 -> rtc (weight_step weights_of) bc0 bc -> blocks_small (m_db bc) ->
  let v := get_current_hard_fork_version bc in let h := Weights.height (m_db bc) in
  4 <= v -> create_block_template bc p keys nonce = Some (hashes, t, cw, expected, p') ->
  exists b txs_weight fee,
    block_info (m_db bc) (h - 1) = Some b
    /\ BlockTemplate.fill_block_template inputs top_block_height top_block_hash check_tx_inputs mine_stem_txes
         (m_current_block_cumul_weight_limit bc / 2) (bi_coins b) v p = Ret (Some (hashes, txs_weight, fee, expected, p'))
    /\ (0 <= fee < 2 ^ 63 -> exists w R partial, tx_weight t = Some w /\ cw = u64 (txs_weight + w)
         /\ get_block_reward (m_current_block_cumul_weight_median bc) cw (bi_coins b) v = Ret (Some R)
         /\ BlockChecks.prevalidate_miner_transaction (miner_view t) h v = true
         /\ BlockChecks.validate_miner_transaction bc (miner_view t) cw fee r0 (bi_coins b) v = Some (true, R, partial)
         /\ (partial = true -> 10 <= v < 12)
         /\ sum (out_amount <$> vout (tx_prefix t)) = R + fee).
Proof.
  intros Hi0 Hr Hdb v h Hv. assert (weights_inv weights_of bc) as Hi by (clear -Hi0 Hr; induction Hr; eauto using weight_step_inv).
  destruct (template_median weights_of bc Hi Hdb) as (Emed & Hm & m & Hpm & Hm' & Hle & Hne). fold v in Hpm, Hle, Hne.
  unfold MinerTx.create_block_template. fold v h. destruct (block_info (m_db bc) (h - 1)) as [b|] eqn:Hb; [|done].
  cbn [fmap option_fmap option_map mbind option_bind].
  set (f := BlockTemplate.fill_block_template _ _ _ _ _ _ _ _ _) in *. destruct f as [[[[[[hs tw] fee] er] p1]|]|] eqn:Hf; [|done..].
  destruct (create_miner_tx _ _ _ _ _ _ _ _) as [[t' cw']|] eqn:Hc; [|done]. intros [= -> -> -> -> ->].
  exists b, tw, fee. do 2 (split; [done|]). intros Hfee.
  assert (is_u64 (bi_coins b)) as Hcoins.
  { unfold block_info in Hb. destruct (0 <=? _); [|done]. by apply (Forall_lookup_1 _ _ _ _ Hdb Hb). }
  revert Hc. unfold create_miner_tx, fit. destruct (construct_miner_tx _ _ _ _ _ _ _ _ _) as [t1|]; [|done].
  cbn [mbind option_bind]. destruct (tx_weight t1) as [w1|]; [|done]. cbn [mbind option_bind].
  intros (call & t0 & e & w & Hcon & -> & Hw & ->)%fit_loop_spec.
  apply construct_spec in Hcon as (R & HR & HR0 & Hmt); [|done|apply (wrap_range 64); lia|done|done].
  apply (miner_view_extra _ _ _ _ _ e) in Hmt.
  destruct (reward_median_mono _ m _ _ _ _ Hm Hm' ltac:(apply (wrap_range 64); lia) Hcoins Hle HR) as (R' & HR' & HRR & HR45 & Heq).
  exists w, R, (negb (R =? R')). do 2 (split; [done|]). split; [by rewrite <- Emed|]. split; [by eapply miner_prevalidates|].
  assert (R <> R' -> 10 <= v < 12) as Hpart by (intros HRn; apply Hne; intros E; by apply HRn, Heq).
  split; [eapply miner_validates; eauto; lia|]. split; [destruct (Z.eqb_spec R R'); [done|auto]|].
  destruct Hmt as [_ _ _ _ _ -> _]. by rewrite (proj2 (Z.ltb_ge v 4) Hv), andb_false_r.
Qed.
End Accepted.

(** ** The first try settles a block below the median *)

Definition varint_size (x : Z) : Z := Z.of_nat (length (write_varint x)).

Lemma varint_size_le x : is_u64 x -> 0 <= varint_size x <= 10.
Proof.
  intros Hx. unfold varint_size.
  pose proof (write_varint_length 10 x ltac:(split; [mach|change (2 ^ (7 * Z.of_nat 10)) with (2 ^ 70); mach]) ltac:(lia)). lia.
Qed.

Lemma bytes_size e : length (concat (le_digits 256 1 <$> e)) = length e.
Proof. induction e as [|b e IH]; [done|]. rewrite fmap_cons. cbn [concat]. rewrite length_app, IH. done. Qed.

Lemma container_one {A} (f : A -> list Z) x : write_container f [x] = 1 :: f x.
Proof. unfold write_container. cbn [length fmap list_fmap concat]. rewrite app_nil_r. done. Qed.

(** The size of a miner transaction with one output *)
Definition miner_size (height amount extra_size : Z) (tagged : bool) : Z :=
  38 + varint_size (u64 (height + CRYPTONOTE_MINED_MONEY_UNLOCK_WINDOW)) + varint_size height + varint_size amount
  + (if tagged then 1 else 0) + varint_size extra_size + extra_size.

Lemma miner_weight height a key tagged tag e :
  length key = 32%nat -> length tag = 1%nat ->
  tx_weight {| tx_prefix := {| version := 2; unlock_time := u64 (height + CRYPTONOTE_MINED_MONEY_UNLOCK_WINDOW); vin := [txin_gen height];
                               vout := [set_tx_out a key tagged tag]; extra := e |};
               signatures := []; rct_signatures := null_rctSig; pruned := false |}
  = Some (miner_size height a (Z.of_nat (length e)) tagged).
Proof.
  intros Hk Ht. unfold tx_weight, tx_to_blob, write. set (t := Build_transaction _ _ _ _).
  assert (saves (transaction_codec (pruned t)) t = true) as ->.
  { assert (forallb (fun _ : Z => true) e = true) as He by (by apply forallb_forall). destruct tagged; cbn; by rewrite He. }
  cbn [mbind option_bind]. unfold get_transaction_weight. cbn [pruned t]. change (version (tx_prefix t) <? 2) with false. cbv iota.
  change (type (rct_base (rct_signatures t))) with 0. cbn [is_rct_bulletproof is_rct_bulletproof_plus]. cbv iota.
  f_equal. unfold miner_size, varint_size. destruct tagged; cbn -[write_varint le_digits length concat fmap Z.of_nat Z.add].
  all: rewrite !container_one; unfold write_container; cbn -[write_varint le_digits length concat fmap Z.of_nat Z.add].
  all: repeat (rewrite ?length_app; cbn [length]); rewrite bytes_size; change (length (write_varint 2)) with 1%nat.
  all: change (length (le_digits 256 1 _)) with 1%nat; unfold id; rewrite Hk, ?Ht; lia.
Qed.

Lemma merge_one fuel l : (length l <= fuel)%nat -> l <> [] -> exists x, merge_outs fuel 1 l = [x].
Proof.
  revert l. induction fuel as [|fuel IH]; intros l Hl Hne; [destruct l; simpl in Hl; [done|lia]|]. simpl.
  destruct l as [|x [|y l]]; [done|by exists x|]. rewrite (proj2 (Z.ltb_lt _ _)) by (simpl; lia). apply IH; [simpl in *; lia|done].
Qed.

(** Keys of 32 bytes, tags of one *)
Definition keys_ok (k : tx_keys) : Prop :=
  byte_list (txkey_pub k) /\ length (txkey_pub k) = 32%nat
  /\ forall no, length (out_eph_public_key k no) = 32%nat /\ length (out_view_tag k no) = 1%nat.
Definition nonce_ok (n : list Z) : Prop := byte_list n /\ Z.of_nat (length n) <= TX_EXTRA_NONCE_MAX_COUNT.

Definition extra_of (key nonce : list Z) : list Z :=
  1 :: key ++ if bool_decide (nonce = []) then [] else 2 :: write_varint (Z.of_nat (length nonce)) ++ nonce.

Lemma sorted_alone fs : fs <> [] -> Forall ok_field fs -> Forall (fun f => ~ is_padding f) fs -> sort_fields fs = fs ->
  byte_list (fields_bytes fs) -> sort_tx_extra (fields_bytes fs) false = Some (fields_bytes fs).
Proof.
  intros Hne Hok Hnp Hso Hb. assert (fields_bytes fs <> []) as He by (intros E; by apply Hne, fields_bytes_nil).
  assert (pads_last fs) as Hpl by (clear -Hnp; induction Hnp; simpl; [done|split; [done|done]]).
  assert (read_fields (length (fields_bytes fs)) (fields_bytes fs) [] = (fs, [], true)) as Hr.
  { pose proof (read_fields_write fs (length (fields_bytes fs)) [] [] Hok Hpl) as H. rewrite app_nil_r in H. apply H; done. }
  destruct (read_fields_result _ Hb He) as (fs' & rest & complete & Er & Hres). rewrite Hr in Er. injection Er as <- <- <-.
  by rewrite (sort_read _ false fs [] true He Hr eq_refl Hres), Hso, app_nil_r.
Qed.

Lemma extra_sorted key nonce : byte_list key -> length key = 32%nat -> nonce_ok nonce ->
  (e ← (if bool_decide (nonce = []) then Some (add_tx_pub_key_to_extra [] key)
        else add_extra_nonce_to_tx_extra (add_tx_pub_key_to_extra [] key) nonce); sort_tx_extra e false)
  = Some (extra_of key nonce).
Proof.
  intros Hb Hl [Hn Hnl]. unfold extra_of. pose proof (ok_pub_key key Hb Hl) as Hk.
  change (add_tx_pub_key_to_extra [] key) with (1 :: key). case_bool_decide as Hne.
  - cbn [mbind option_bind]. rewrite app_nil_r. assert (fields_bytes [tx_extra_pub_key key] = 1 :: key) as <- by (cbn; by rewrite app_nil_r).
    apply sorted_alone; [done|by constructor|by constructor|done|].
    change (byte_list (1 :: key ++ [])). rewrite app_nil_r. by constructor; [by_decide|].
  - pose proof (ok_nonce nonce Hn Hnl) as Ho. pose proof (add_nonce_eq [] nonce Hnl) as En. unfold add_extra_nonce_to_tx_extra in *.
    rewrite (proj2 (Z.leb_le _ _) Hnl) in *. cbn [negb mbind option_bind app] in *. injection En as En.
    change TX_EXTRA_NONCE with 2 in *.
    assert (fields_bytes [tx_extra_pub_key key; tx_extra_nonce nonce] = 1 :: key ++ 2 :: write_varint (Z.of_nat (length nonce)) ++ nonce) as <-.
    { rewrite !fields_bytes_cons. cbn [fields_bytes fmap list_fmap concat]. rewrite app_nil_r, <- En. done. }
    apply sorted_alone; [done|by repeat constructor|by repeat constructor|done|].
    rewrite !fields_bytes_cons. cbn [fields_bytes fmap list_fmap concat]. rewrite app_nil_r, <- En.
    apply byte_list_app. split; [by constructor; [by_decide|]|]. constructor; [by_decide|]. apply byte_list_app. split; [|done].
    apply write_varint_bytes. lia.
Qed.

Definition one_output (height a : Z) (k : tx_keys) (nonce : list Z) (v : Z) : transaction :=
  {| tx_prefix := {| version := 2; unlock_time := u64 (height + CRYPTONOTE_MINED_MONEY_UNLOCK_WINDOW); vin := [txin_gen height];
                     vout := [set_tx_out a (out_eph_public_key k 0) (HF_VERSION_VIEW_TAGS <=? v) (out_view_tag k 0)];
                     extra := extra_of (txkey_pub k) nonce |};
     signatures := []; rct_signatures := null_rctSig; pruned := false |}.

Lemma construct_one height median coins w fee k nonce v R :
  4 <= v -> keys_ok k -> nonce_ok nonce -> get_block_reward median w coins v = Ret (Some R) -> 0 < R -> 0 <= fee -> R + fee < 2 ^ 64 ->
  construct_miner_tx height median coins w fee k nonce 1 v = Some (one_output height (R + fee) k nonce v).
Proof.
  intros Hv (Hkb & Hkl & _) Hn HR H0 Hf Hs. unfold construct_miner_tx, one_output.
  pose proof (extra_sorted (txkey_pub k) nonce Hkb Hkl Hn) as Hx. cbv zeta. set (e0 := if bool_decide (nonce = []) then _ else _) in *.
  destruct e0 as [e1|]; [|done]. cbn [mbind option_bind] in *. rewrite Hx. cbn [mbind option_bind]. rewrite HR.
  rewrite (wrap_small 64 (R + fee)) by mach. rewrite (proj2 (Z.ltb_ge v 4) Hv), andb_false_r, (proj2 (Z.leb_le 4 v) Hv), orb_true_r. cbv iota.
  cbn [negb Z.leb Z.compare]. set (thr := if 2 <=? v then 0 else DEFAULT_DUST_THRESHOLD).
  destruct (decompose_sum (R + fee) thr ltac:(mach)) as [Hds Hdu]. set (d := decompose_amount_into_digits (R + fee) thr) in *.
  destruct (merge_one (length d) d) as [x Hx1]; [done|intros E; rewrite E in Hds; unfold sum in Hds; simpl in Hds; lia|].
  destruct (merge_outs_sum (length d) 1 d Hdu) as [Hms _]; [lia|]. change (1 <=? 1) with true. cbn [negb mbind option_bind].
  rewrite Hx1 in Hms |- *. unfold sum in Hms. simpl in Hms. fold (sum d) in Hms. assert (x = R + fee) as -> by lia.
  cbn [foldl]. rewrite wrap_small by mach. rewrite Z.eqb_refl. done.
Qed.

Lemma extra_of_length key nonce : length key = 32%nat -> nonce_ok nonce -> 0 <= Z.of_nat (length (extra_of key nonce)) <= 300.
Proof.
  intros Hk [_ Hn]. unfold extra_of, TX_EXTRA_NONCE_MAX_COUNT in *. cbn [length]. rewrite length_app, Hk. case_bool_decide; [simpl; lia|].
  cbn [length]. rewrite length_app. pose proof (varint_size_le (Z.of_nat (length nonce)) ltac:(mach)). unfold varint_size in *. lia.
Qed.

Lemma one_output_weight height a k nonce v : keys_ok k ->
  tx_weight (one_output height a k nonce v)
  = Some (miner_size height a (Z.of_nat (length (extra_of (txkey_pub k) nonce))) (HF_VERSION_VIEW_TAGS <=? v)).
Proof. intros (_ & _ & Hk). apply miner_weight; apply Hk. Qed.

Lemma miner_size_le height a e tagged : is_u64 height -> is_u64 a -> 0 <= e <= 300 -> 0 <= miner_size height a e tagged <= 600.
Proof.
  intros Hh Ha He. unfold miner_size. pose proof (varint_size_le _ Hh). pose proof (varint_size_le _ Ha). pose proof (varint_size_le e ltac:(mach)).
  pose proof (varint_size_le (u64 (height + CRYPTONOTE_MINED_MONEY_UNLOCK_WINDOW)) (wrap_range 64 _ ltac:(lia))). destruct tagged; lia.
Qed.

(** The second transaction has the weight of the first. *)
Lemma fit_first construct txs_weight t0 t1 w :
  0 <= txs_weight -> 0 <= w -> txs_weight + w < 2 ^ 64 -> construct 0%nat txs_weight = Some t0 -> tx_weight t0 = Some w ->
  construct 1%nat (txs_weight + w) = Some t1 -> tx_weight t1 = Some w -> fit construct txs_weight = Some (t1, txs_weight + w).
Proof.
  intros Ht Hw Hs H0 Hw0 H1 Hw1. unfold fit. rewrite H0. cbn [mbind option_bind]. rewrite Hw0. cbn [mbind option_bind].
  rewrite (wrap_small 64 (txs_weight + w)) by mach. generalize 9%nat. intros tries. cbn [fit_loop]. rewrite H1. cbn [mbind option_bind].
  rewrite Hw1. cbn [mbind option_bind]. replace (txs_weight + w - txs_weight) with w by lia.
  rewrite (wrap_small 64 w), Z.ltb_irrefl by mach. by rewrite (wrap_small 64 (txs_weight + w)), Z.eqb_refl by mach.
Qed.

(** C26: From fork 4 on, with keys of 32 bytes, view tags of one byte, an extra nonce of at most 255
    bytes, a median below 2^32 and fees below 2^63, the height and the coins within 64 bits: while
    the listed transactions and the 600 bytes reserved for the miner transaction stay within the
    median, the search for the miner transaction ends at once. It is found, its one output takes the
    whole base reward and the fees, and it is no heavier than the 600 bytes. *)
Theorem miner_tx_found height median coins txs_weight fee keys nonce v :
  4 <= v -> is_u64 height -> 0 <= median < 2 ^ 32 -> is_u64 coins -> 0 <= fee < 2 ^ 63 ->
  (forall call, keys_ok (keys call)) -> nonce_ok nonce ->
  0 <= txs_weight -> txs_weight + 600 <= effective_median median v ->
  exists w, create_miner_tx height median coins txs_weight fee keys nonce v
            = Some (one_output height (base_reward coins v + fee) (keys 1%nat) nonce v, txs_weight + w) /\ w <= 600.
Proof.
  intros Hv Hh Hm Hc Hf Hk Hn Ht Hmed. pose proof (base_reward_range coins v Hc) as Hb.
  assert (effective_median median v < 2 ^ 32) as HM by (unfold effective_median; pose proof (min_block_weight_range v); lia).
  assert (forall w, 0 <= w <= 600 -> get_block_reward median (txs_weight + w) coins v = Ret (Some (base_reward coins v))) as Hrew.
  { intros w Hw. rewrite get_block_reward_eq by (done || lia). by rewrite (proj2 (Z.leb_le _ _)) by lia. }
  set (w := miner_size height (base_reward coins v + fee) (Z.of_nat (length (extra_of (txkey_pub (keys 0%nat)) nonce))) (HF_VERSION_VIEW_TAGS <=? v)).
  assert (0 <= w <= 600) as Hw.
  { apply miner_size_le; [done|mach|]. apply extra_of_length; [apply Hk|done]. }
  assert (forall call, length (extra_of (txkey_pub (keys call)) nonce) = length (extra_of (txkey_pub (keys 0%nat)) nonce)) as Hlen.
  { intros call. unfold extra_of. cbn [length]. rewrite !length_app. destruct (Hk call) as (_ & -> & _), (Hk 0%nat) as (_ & -> & _). done. }
  assert (get_block_reward median txs_weight coins v = Ret (Some (base_reward coins v))) as Hrew0
    by (rewrite <- (Z.add_0_r txs_weight); apply Hrew; lia).
  exists w. split; [|lia]. unfold create_miner_tx. rewrite (proj2 (Z.leb_le 4 v) Hv).
  eapply fit_first; [done|lia|lia|apply construct_one; (done || lia)|by apply one_output_weight|apply construct_one; (done || lia || by apply Hrew)|].
  rewrite one_output_weight, (Hlen 1%nat) by done. done.
Qed.

(** ** Witnesses *)

Definition toy_keys (call : nat) : tx_keys :=
  {| txkey_pub := replicate 32 7; out_eph_public_key := fun _ => replicate 32 9; out_view_tag := fun _ => [5] |}.
Lemma toy_keys_ok call : keys_ok (toy_keys call).
Proof. split; [by_decide|]. done. Qed.
Lemma toy_nonce_ok : nonce_ok [1; 2; 3; 4].
Proof. split; [by_decide|]. by vm_compute. Qed.

Lemma miner_tx_found_witness : exists t, create_miner_tx 100 300000 0 5000 70 toy_keys [1; 2; 3; 4] 16 = Some (t, 5089).
Proof.
  destruct (miner_tx_found 100 300000 0 5000 70 toy_keys [1; 2; 3; 4] 16) as (w & Hw & _);
    [lia|by_decide|lia|by_decide|lia|apply toy_keys_ok|apply toy_nonce_ok|lia|by vm_compute|].
  assert (snd <$> create_miner_tx 100 300000 0 5000 70 toy_keys [1; 2; 3; 4] 16 = Some 5089) as E by (by vm_compute).
  rewrite Hw in E |- *. injection E as ->. by eexists.
Defined.

(** The chain of two blocks of [Weights] and the pool of two transactions of [TxPool] *)
Definition toy_template (bc : Blockchain) :=
  create_block_template snd 10 99 BlockTemplate.toy_checks false bc TxPool.toy_pool2 toy_keys [1; 2; 3; 4].

Lemma miner_tx_accepted_witness : exists bc hashes t cw expected p' w R,
  weights_inv sample_weights_of bc /\ m_db bc = sample_db /\ toy_template bc = Some (hashes, t, cw, expected, p') /\ tx_weight t = Some w
  /\ cw = u64 (200 + w) /\ BlockChecks.validate_miner_transaction bc (miner_view t) cw 3 0 0 16 = Some (true, R, false).
Proof.
  destruct sample_start as (bc & Hi & Ed & Eh & EW). pose proof (wi_limits _ _ Hi) as (lt & Hlim & Hl).
  unfold get_current_hard_fork_version in Hlim. rewrite Ed, Eh, EW in Hlim. 
  assert (ideal_limits 2 sample_db (get_current_version sample_fork) lt = Some (450000, 450000)) as E0 by (by vm_compute).
  rewrite E0 in Hlim. injection Hlim as Em _. rewrite <- Em in Hl. clear E0.
  destruct (toy_template bc) as [[[[[hashes t] cw] expected] p']|] eqn:E.
  2: { exfalso. unfold toy_template, create_block_template, get_current_hard_fork_version in E. rewrite Ed, Eh, Hl in E. by vm_compute in E. }
  pose proof E as Et. unfold toy_template in Et.
  assert (get_current_hard_fork_version bc = 16) as Ev by (unfold get_current_hard_fork_version; by rewrite Eh).
  apply (miner_tx_accepted snd 10 99 BlockTemplate.toy_checks false sample_weights_of bc bc TxPool.toy_pool2 toy_keys [1; 2; 3; 4]
    hashes t cw expected p' 0 Hi (rtc_refl _ bc)) in Et as (b & tw & fee & Hb & Hf & Hacc); [|rewrite Ed; by_decide|by rewrite Ev].
  rewrite Ed in Hb. vm_compute in Hb. injection Hb as <-. rewrite Ev, Hl in Hf.
  assert (tw = 200 /\ fee = 3) as [-> ->].
  { apply (f_equal (fun r => match r with Ret (Some (_, a, b, _, _)) => Some (a, b) | _ => None end)) in Hf. vm_compute in Hf. by injection Hf. }
  destruct Hacc as (w & R & partial & Hw & Hcw & _ & _ & Hv & Hp & _); [lia|]. rewrite Ev in Hv, Hp.
  exists bc, hashes, t, cw, expected, p', w, R. split; [exact Hi|]. split; [exact Ed|]. split; [exact E|]. split; [exact Hw|].
  split; [exact Hcw|]. destruct partial; [destruct (Hp eq_refl); lia|exact Hv].
Defined.
