(* ===== verification/PaymentUri.v ===== *)
(** * Payment links: [make_uri] and [parse_uri] of core/src/wallet/wallet2.cpp

    With the escapes of core/contrib/epee/src/abstract_http_client.cpp, and the handler of the
    links that the desktop wallet opens, of gui/main.qml and gui/src/libwalletqt. Texts are
    lists of bytes, those of the handler of UTF-16 code units. Output parameters that a call
    may leave alone are in a record that is passed in and out. [boost::split] and the
    conversions of Qt are interfaces with laws. *)

From S2P Require Import Prelude IntUtil JsString JsNumber Amount Radix Base58 Hex Address.

(** ** Escapes *)

Definition hexVals : list Z := str_bytes "0123456789ABCDEF".
Definition unsave_chars : list Z := 34 :: str_bytes "<>%\^[]`+$,@:;!#&".

Definition is_unsafe (compare_char : Z) : bool :=
  if (compare_char <=? 32) || (123 <=? compare_char) then true else existsb (Z.eqb compare_char) unsave_chars.

(** A round divides by the radix; a byte takes no more than eight. *)
Fixpoint dec_to_hex_loop (fuel : nat) (num_char radix : Z) (csTmp : list Z) : Z * list Z :=
  match fuel with
  | O => (num_char, csTmp)
  | S fuel =>
      if radix <=? num_char
      then dec_to_hex_loop fuel (num_char / radix) radix [nth (Z.to_nat (num_char mod radix)) hexVals 0]
      else (num_char, csTmp)
  end.
Definition dec_to_hex (num radix : Z) : list Z :=
  let '(num_char, csTmp) := dec_to_hex_loop 8 num radix [] in
  let csTmp := csTmp ++ [nth (Z.to_nat num_char) hexVals 0] in
  rev (if bool_decide (length csTmp < 2)%nat then csTmp ++ [48] else csTmp).

Fixpoint get_index (s : list Z) (c : Z) : option Z :=
  match s with
  | [] => None
  | x :: s => if x =? c then Some 0 else Z.succ <$> get_index s c
  end.

Definition toupper (c : Z) : Z := if (97 <=? c) && (c <=? 122) then c - 32 else c.

Definition hex_to_dec_2bytes (s0 s1 : Z) : list Z :=
  match get_index hexVals (toupper s0), get_index hexVals (toupper s1) with
  | Some i0, Some i1 => [Z.lor (i0 * 16) i1]
  | _, _ => [37; s0; s1]
  end.

Definition convert (val : Z) : list Z := 37 :: dec_to_hex val 16.

Definition conver_to_url_format (uri : list Z) : list Z :=
  concat ((fun c => if is_unsafe c then convert c else [c]) <$> uri).

Fixpoint convert_from_url_format (uri : list Z) : list Z :=
  match uri with
  | [] => []
  | c :: uri =>
      if c =? 37 then
        match uri with
        | s0 :: s1 :: uri' => hex_to_dec_2bytes s0 s1 ++ convert_from_url_format uri'
        | _ => c :: convert_from_url_format uri
        end
      else c :: convert_from_url_format uri
  end.

(** ** Links *)

Definition scheme : list Z := str_bytes "monero:".

Record uri_fields := {
  u_address : list Z;
  u_payment_id : list Z;
  u_amount : Z;
  u_tx_description : list Z;
  u_recipient_name : list Z;
  u_unknown_parameters : list (list Z);
  u_error : list Z }.

Definition with_address (f : uri_fields) (a : list Z) : uri_fields :=
  {| u_address := a; u_payment_id := u_payment_id f; u_amount := u_amount f; u_tx_description := u_tx_description f;
     u_recipient_name := u_recipient_name f; u_unknown_parameters := u_unknown_parameters f; u_error := u_error f |}.
Definition with_payment_id (f : uri_fields) (p : list Z) : uri_fields :=
  {| u_address := u_address f; u_payment_id := p; u_amount := u_amount f; u_tx_description := u_tx_description f;
     u_recipient_name := u_recipient_name f; u_unknown_parameters := u_unknown_parameters f; u_error := u_error f |}.
Definition with_amount (f : uri_fields) (a : Z) : uri_fields :=
  {| u_address := u_address f; u_payment_id := u_payment_id f; u_amount := a; u_tx_description := u_tx_description f;
     u_recipient_name := u_recipient_name f; u_unknown_parameters := u_unknown_parameters f; u_error := u_error f |}.
Definition with_tx_description (f : uri_fields) (d : list Z) : uri_fields :=
  {| u_address := u_address f; u_payment_id := u_payment_id f; u_amount := u_amount f; u_tx_description := d;
     u_recipient_name := u_recipient_name f; u_unknown_parameters := u_unknown_parameters f; u_error := u_error f |}.
Definition with_recipient_name (f : uri_fields) (r : list Z) : uri_fields :=
  {| u_address := u_address f; u_payment_id := u_payment_id f; u_amount := u_amount f; u_tx_description := u_tx_description f;
     u_recipient_name := r; u_unknown_parameters := u_unknown_parameters f; u_error := u_error f |}.
Definition push_unknown (f : uri_fields) (arg : list Z) : uri_fields :=
  {| u_address := u_address f; u_payment_id := u_payment_id f; u_amount := u_amount f; u_tx_description := u_tx_description f;
     u_recipient_name := u_recipient_name f; u_unknown_parameters := u_unknown_parameters f ++ [arg]; u_error := u_error f |}.
Definition with_error (f : uri_fields) (e : list Z) : uri_fields :=
  {| u_address := u_address f; u_payment_id := u_payment_id f; u_amount := u_amount f; u_tx_description := u_tx_description f;
     u_recipient_name := u_recipient_name f; u_unknown_parameters := u_unknown_parameters f; u_error := e |}.

Definition parse_long_payment_id (payment_id_str : list Z) : option (list Z) :=
  payment_id_data ← parse_hexstr_to_binbuff payment_id_str;
  if negb (bool_decide (length payment_id_data = 32%nat)) then None else Some payment_id_data.
Definition parse_short_payment_id (payment_id_str : list Z) : option (list Z) :=
  payment_id_data ← parse_hexstr_to_binbuff payment_id_str;
  if negb (bool_decide (length payment_id_data = 8%nat)) then None else Some payment_id_data.
Definition parse_payment_id (payment_id_str : list Z) : option (list Z) :=
  match parse_long_payment_id payment_id_str with
  | Some payment_id => Some payment_id
  | None => payment_id8 ← parse_short_payment_id payment_id_str; Some (payment_id8 ++ replicate 24 0)
  end.

(** [strchr] of [c_str()]: a zero byte ends the text. *)
Fixpoint strchr (s : list Z) (c : Z) : option nat :=
  match s with
  | [] => None
  | x :: s => if x =? c then Some O else if x =? 0 then None else S <$> strchr s c
  end.

(** [boost::split] at every occurrence of one character, without merging adjacent ones *)
Class BoostSplit := boost_split : list Z -> Z -> list (list Z).
Class BoostSplitLaws `{BoostSplit} := {
  boost_split_join : forall s c, join [c] (boost_split s c) = s;
  boost_split_free : forall s c, Forall (fun w => c ∉ w) (boost_split s c);
  boost_split_nonempty : forall s c, boost_split s c <> [] }.

Section Links.
Context (cn_fast_hash : list Z -> list Z) (check_key : list Z -> bool).
Context `{Boost} `{BoostSplit} (default_decimal_point : nat).

Definition key_amount : list Z := str_bytes "tx_amount".
Definition key_payment_id : list Z := str_bytes "tx_payment_id".
Definition key_recipient : list Z := str_bytes "recipient_name".
Definition key_description : list Z := str_bytes "tx_description".

(** [uri += (n_fields++ ? "&" : "?") + key + "=" + value] *)
Definition add_field (st : list Z * Z) (key value : list Z) : list Z * Z :=
  let '(uri, n_fields) := st in
  (uri ++ (if n_fields =? 0 then [63] else [38]) ++ key ++ [61] ++ value, n_fields + 1).

(** The link and [error], which is left alone when there is none *)
Definition make_uri (nettype : network_type) (address payment_id : list Z) (amount : Z) (tx_description recipient_name error : list Z)
    : result config_error (list Z * list Z) :=
  r ← get_account_address_from_str cn_fast_hash check_key nettype address;
  Ret match r with
  | None => ([], str_bytes "wrong address: " ++ address)
  | Some info =>
      if has_payment_id info && negb (bool_decide (payment_id = [])) then ([], str_bytes "A single payment id is allowed")
      else if negb (bool_decide (payment_id = []))
      then ([], str_bytes "Standalone payment id deprecated, use integrated address instead")
      else
        let st := (scheme ++ address, 0) in
        let st := if negb (bool_decide (payment_id = [])) then add_field st key_payment_id payment_id else st in
        let st := if 0 <? amount then add_field st key_amount (print_money amount default_decimal_point) else st in
        let st := if negb (bool_decide (recipient_name = []))
                  then add_field st key_recipient (conver_to_url_format recipient_name) else st in
        let st := if negb (bool_decide (tx_description = []))
                  then add_field st key_description (conver_to_url_format tx_description) else st in
        (st.1, error)
  end.

Fixpoint parse_args (info : address_parse_info) (arguments : list (list Z)) (have_arg : gset (list Z)) (f : uri_fields)
    : bool * uri_fields :=
  match arguments with
  | [] => (true, f)
  | arg :: arguments =>
      match boost_split arg 61 with
      | [k; v] =>
          if bool_decide (k ∈ have_arg) then (false, with_error f (str_bytes "URI has more than one instance of " ++ k))
          else
            let have_arg := {[k]} ∪ have_arg in
            if bool_decide (k = key_amount) then
              match parse_amount default_decimal_point v with
              | None => (false, with_error (with_amount f 0) (str_bytes "URI has invalid amount: " ++ v))
              | Some amount => parse_args info arguments have_arg (with_amount f amount)
              end
            else if bool_decide (k = key_payment_id) then
              if has_payment_id info then (false, with_error f (str_bytes "Separate payment id given with an integrated address"))
              else
                match parse_long_payment_id v with
                | None => (false, with_error f (str_bytes "Invalid payment id: " ++ v))
                | Some _ => parse_args info arguments have_arg (with_payment_id f v)
                end
            else if bool_decide (k = key_recipient)
            then parse_args info arguments have_arg (with_recipient_name f (convert_from_url_format v))
            else if bool_decide (k = key_description)
            then parse_args info arguments have_arg (with_tx_description f (convert_from_url_format v))
            else parse_args info arguments have_arg (push_unknown f arg)
      | _ => (false, with_error f (str_bytes "URI has wrong parameter: " ++ arg))
      end
  end.

Definition parse_uri (nettype : network_type) (uri : list Z) (f : uri_fields) : result config_error (bool * uri_fields) :=
  if negb (bool_decide (take 7 uri = scheme))
  then Ret (false, with_error f (str_bytes "URI has wrong scheme (expected " ++ [34] ++ scheme ++ [34] ++ str_bytes "): " ++ uri))
  else
    let remainder := drop 7 uri in
    let ptr := strchr remainder 63 in
    let f := with_address f match ptr with Some i => take i remainder | None => remainder end in
    r ← get_account_address_from_str cn_fast_hash check_key nettype (u_address f);
    match r with
    | None => Ret (false, with_error f (str_bytes "URI has wrong address: " ++ u_address f))
    | Some info =>
        match ptr with
        | None => Ret (true, f)
        | Some _ =>
            let body := drop (length (u_address f) + 1) remainder in
            if bool_decide (body = []) then Ret (true, f) else Ret (parse_args info (boost_split body 38) ∅ f)
        end
    end.
End Links.

Definition blank : uri_fields :=
  {| u_address := []; u_payment_id := []; u_amount := 0; u_tx_description := []; u_recipient_name := [];
     u_unknown_parameters := []; u_error := [] |}.

(** ** Tables *)

Lemma every_byte (P : Z -> bool) c : forallb P (seqZ 0 256) = true -> is_u8 c -> P c = true.
Proof. intros HP Hc. apply (proj1 (forallb_forall P (seqZ 0 256)) HP c), list_elem_of_In, elem_of_seqZ. mach. Qed.

(** An escape is read back and holds no separator; other characters are no percent sign and no
    ampersand, but an equals sign is one of them. *)
Definition escape_ok (c : Z) : bool :=
  if is_unsafe c then
    negb (c =? 61) &&
    match convert c with
    | [p; s0; s1] => (p =? 37) && bool_decide (hex_to_dec_2bytes s0 s1 = [c]) && forallb is_alnum [s0; s1]
    | _ => false
    end
  else negb (c =? 37) && negb (c =? 38).

Lemma escapes c : is_u8 c -> escape_ok c = true.
Proof. apply every_byte. vm_compute. reflexivity. Qed.

Lemma convert_escape c : is_u8 c -> is_unsafe c = true ->
  c <> 61 /\ exists s0 s1, convert c = [37; s0; s1] /\ hex_to_dec_2bytes s0 s1 = [c] /\ is_alnum s0 = true /\ is_alnum s1 = true.
Proof.
  intros Hc Hu. pose proof (escapes c Hc) as H. unfold escape_ok in H. rewrite Hu in H.
  destruct (convert c) as [|p [|s0 [|s1 [|]]]]; rewrite ?andb_false_r in H; try done.
  apply andb_prop in H as [H1 [[H2 H3]%andb_prop H4]%andb_prop]. apply Z.eqb_eq in H2 as ->. apply bool_decide_eq_true in H3.
  simpl in H4. rewrite andb_true_r in H4. apply andb_prop in H4 as [H4 H5]. split; [lia|]. by exists s0, s1.
Qed.

Lemma is_alnum_range c : is_alnum c = true -> 48 <= c <= 122 /\ c <> 61 /\ c <> 63.
Proof. unfold is_alnum, is_digit, is_lower, is_upper, between. lia. Qed.

(** ** Escapes *)

Lemma conver_cons c s : conver_to_url_format (c :: s) = (if is_unsafe c then convert c else [c]) ++ conver_to_url_format s.
Proof. done. Qed.

Lemma url_roundtrip s : byte_list s -> convert_from_url_format (conver_to_url_format s) = s.
Proof.
  induction 1 as [|c s Hc _ IH]; [done|]. assert (is_u8 c) as Hc' by mach. rewrite conver_cons. destruct (is_unsafe c) eqn:Hu.
  - destruct (convert_escape c Hc' Hu) as (_ & s0 & s1 & -> & Hh & _). cbn. by rewrite Hh, IH.
  - pose proof (escapes c Hc') as H. unfold escape_ok in H. rewrite Hu in H. cbn.
    rewrite (proj2 (Z.eqb_neq c 37)) by lia. by rewrite IH.
Qed.

Lemma url_separators s : byte_list s -> 38 ∉ conver_to_url_format s /\ (61 ∈ conver_to_url_format s <-> 61 ∈ s).
Proof.
  induction 1 as [|c s Hc _ [IH1 IH2]]; [set_solver|]. assert (is_u8 c) as Hc' by mach. rewrite conver_cons, !elem_of_app, elem_of_cons.
  destruct (is_unsafe c) eqn:Hu.
  - destruct (convert_escape c Hc' Hu) as (Hn & s0 & s1 & -> & _ & H0%is_alnum_range & H1%is_alnum_range).
    rewrite !elem_of_cons, !elem_of_nil, IH2. clear -IH1 Hn H0 H1. intuition (lia || done).
  - pose proof (escapes c Hc') as H. unfold escape_ok in H. rewrite Hu in H. rewrite !list_elem_of_singleton, IH2.
    clear -IH1 H. intuition (lia || done).
Qed.

Lemma url_nonempty s : byte_list s -> s <> [] -> conver_to_url_format s <> [].
Proof. intros Hs Hne E. apply Hne. rewrite <- (url_roundtrip s Hs). by rewrite E. Qed.

(** ** Pieces *)

Lemma split_unique c ws : ws <> [] -> Forall (fun w => c ∉ w) ws -> split c (join [c] ws) = ws.
Proof.
  induction ws as [|w ws IH]; [done|]. intros _ [Hw Hws]%Forall_cons. destruct ws as [|w' ws]; [by apply split_no_sep|].
  change (join [c] (w :: w' :: ws)) with (w ++ c :: join [c] (w' :: ws)). by rewrite split_app, IH.
Qed.

Lemma split_free c s : Forall (fun w => c ∉ w) (split c s).
Proof.
  induction s as [|d s IH]; simpl; [constructor; [set_solver|constructor]|]. destruct (Z.eqb_spec d c); [constructor; [set_solver|done]|].
  destruct (split c s) as [|w ws]; [constructor; [set_solver|constructor]|]. apply Forall_cons in IH as [Hw Hws].
  constructor; [set_solver|done].
Qed.

Lemma boost_split_eq `{BoostSplitLaws} s c : boost_split s c = split c s.
Proof. rewrite <- (boost_split_join s c) at 2. symmetry. apply split_unique; [apply boost_split_nonempty|apply boost_split_free]. Qed.

#[global] Instance demo_split : BoostSplit := fun s c => split c s.
#[global] Instance demo_split_laws : BoostSplitLaws.
Proof. split; intros s c; [apply join_split|apply split_free|apply split_nonnil]. Qed.

(** ** The characters of an address *)

Lemma decode_loop_letters cs res order r : decode_block_loop cs res order = Some r -> Forall (fun c => 0 <= reverse_alphabet c) cs.
Proof.
  revert res order. induction cs as [|c cs IH]; intros res order; [constructor|]. cbn [decode_block_loop].
  destruct (Z.ltb_spec (reverse_alphabet c) 0); [done|]. destruct (mul128 _ _) as [lo hi]. case_match; [done|].
  intros Hd. constructor; [done|by eapply IH].
Qed.

Lemma decode_block_letters block r : decode_block block = Some r -> Forall (fun c => 0 <= reverse_alphabet c) block.
Proof.
  unfold decode_block. case_match; [done|]. destruct (decode_block_loop _ _ _) as [n|] eqn:E; [|done]. intros _.
  apply decode_loop_letters in E. apply Forall_rev in E. by rewrite rev_involutive in E.
Qed.

Lemma decode_full_letters n e r :
  decode_full_blocks n e = Some r -> Forall (fun c => 0 <= reverse_alphabet c) (take (full_encoded_block_size * n) e).
Proof.
  revert e r. induction n as [|n IH]; intros e r; [by rewrite Nat.mul_0_r|]. cbn [decode_full_blocks].
  destruct (decode_block _) as [b|] eqn:Eb; [|done]. cbn [mbind option_bind].
  destruct (decode_full_blocks _ _) as [r'|] eqn:Er; [|done]. intros _. rewrite Nat.mul_succ_r, Nat.add_comm, <- take_take_drop.
  apply Forall_app. split; [by eapply decode_block_letters|by eapply IH].
Qed.

Lemma decode_letters e d : decode e = Some d -> Forall (fun c => 0 <= reverse_alphabet c) e.
Proof.
  destruct e as [|c e]; [constructor|]. unfold decode. set (n := (_ / _)%nat). set (l := (_ mod _)%nat).
  assert (length (c :: e) = (full_encoded_block_size * n + l)%nat) as Hl by (apply Nat.div_mod; done).
  case_match; [done|]. destruct (decode_full_blocks _ _) as [f|] eqn:Ef; [|done]. cbn [mbind option_bind].
  apply decode_full_letters in Ef. intros Hd. rewrite <- (take_drop (full_encoded_block_size * n) (c :: e)).
  apply Forall_app. split; [done|]. case_bool_decide as H0.
  - destruct (decode_block _) as [b|] eqn:Eb; [|done]. rewrite Nat.mul_comm in Eb. by eapply decode_block_letters.
  - rewrite drop_ge by lia. constructor.
Qed.

Lemma hex_letters s bs : from_hex_loop s = Some bs -> Forall (fun c => nth (Z.to_nat c) isx 0xff <> 0xff) s.
Proof.
  assert (forall n s, (length s <= n)%nat -> forall bs, from_hex_loop s = Some bs ->
    Forall (fun c => nth (Z.to_nat c) isx 0xff <> 0xff) s) as H; [|by apply (H (length s))].
  clear s bs. induction n as [|n IH]; intros [|c1 [|c2 t]] Hl bs; try (simpl in Hl; lia); try done.
  cbn [from_hex_loop]. destruct (Z.eqb_spec (nth (Z.to_nat c1) isx 0xff) 0xff) as [|N1]; [done|].
  destruct (Z.eqb_spec (nth (Z.to_nat c2) isx 0xff) 0xff) as [|N2]; [done|].
  destruct (from_hex_loop t) as [r|] eqn:Er; [|done]. intros _. do 2 (constructor; [done|]). eapply (IH t); [simpl in Hl; lia|done].
Qed.

Section LinkFacts.
Context (cn_fast_hash : list Z -> list Z) (check_key : list Z -> bool).
Context `{B : Boost} `{L : !BoostLaws} `{BS : BoostSplit} `{SL : !BoostSplitLaws} (dp : nat).

Notation accepted n a info := (get_account_address_from_str cn_fast_hash check_key n a = Ret (Some info)).

Lemma accepted_letters n a info : Forall is_u8 a -> accepted n a info -> Forall (fun c => is_alnum c = true) a.
Proof.
  intros Ha. unfold get_account_address_from_str. destruct (get_config n) as [c|]; [|done]. cbn [mbind result_bind].
  case_bool_decide; cbn [negb]; intros [= Hp].
  - unfold parse_old_address, parse_hexstr_to_binbuff, from_hex_to_string, from_hex_to_buffer_unchecked in Hp.
    case_bool_decide; [|done]. destruct (from_hex_loop a) as [bs|] eqn:E; [|done]. apply hex_letters in E. clear -Ha E.
    induction Ha as [|x a Hx _ IH]; [constructor|]. apply Forall_cons in E as [Hn E]. constructor; [|by apply IH].
    pose proof (every_byte (fun x => (nth (Z.to_nat x) isx 0xff =? 0xff) || is_alnum x) x eq_refl Hx) as [H%Z.eqb_eq|H]%orb_prop; done.
  - unfold parse_base58_address, decode_addr in Hp. destruct (decode a) as [d|] eqn:E; [|done]. apply decode_letters in E. clear -Ha E.
    induction Ha as [|x a Hx _ IH]; [constructor|]. apply Forall_cons in E as [Hn E]. constructor; [|by apply IH].
    pose proof (every_byte (fun x => (reverse_alphabet x <? 0) || is_alnum x) x eq_refl Hx) as [H%Z.ltb_lt|H]%orb_prop; [lia|done].
Qed.

Lemma strchr_query a s : Forall (fun c => is_alnum c = true) a -> strchr (a ++ 63 :: s) 63 = Some (length a) /\ strchr a 63 = None.
Proof.
  induction 1 as [|c a Hc _ [IH1 IH2]]; [done|]. apply is_alnum_range in Hc. simpl.
  rewrite (proj2 (Z.eqb_neq c 63)), (proj2 (Z.eqb_neq c 0)) by lia. by rewrite IH1, IH2.
Qed.

Lemma strchr_inv s i : strchr s 63 = Some i -> s = take i s ++ 63 :: drop (i + 1) s /\ (i < length s)%nat.
Proof.
  revert i. induction s as [|c s IH]; intros i; [done|]. simpl. destruct (Z.eqb_spec c 63) as [->|]; [intros [= <-]; simpl; rewrite drop_0; split; [done|lia]|].
  destruct (Z.eqb_spec c 0); [done|]. destruct (strchr s 63) as [j|]; [|done]. intros [= <-]. destruct (IH j eq_refl) as [Hs Hl]. simpl.
  split; [by f_equal|lia].
Qed.

(** ** What a list of parameters says *)

Definition param_text (p : list Z * list Z) : list Z := p.1 ++ 61 :: p.2.
Definition query (ps : list (list Z * list Z)) : list Z := join [38] (param_text <$> ps).

Fixpoint value (k : list Z) (ps : list (list Z * list Z)) : option (list Z) :=
  match ps with
  | [] => None
  | p :: ps => if decide (p.1 = k) then Some p.2 else value k ps
  end.

Definition known_keys : list (list Z) := [key_amount; key_payment_id; key_recipient; key_description].

(** Names and values hold no equals sign, an amount is one that can be read, a payment id is 64
    digits and the address has none. *)
Definition param_ok (info : address_parse_info) (p : list Z * list Z) : Prop :=
  61 ∉ p.1 /\ 61 ∉ p.2 /\ (p.1 = key_amount -> is_Some (parse_amount dp p.2))
  /\ (p.1 = key_payment_id -> has_payment_id info = false /\ is_Some (parse_long_payment_id p.2)).

Definition read_params (ps : list (list Z * list Z)) (f : uri_fields) : uri_fields :=
  {| u_address := u_address f;
     u_payment_id := default (u_payment_id f) (value key_payment_id ps);
     u_amount := from_option (fun v => default 0 (parse_amount dp v)) (u_amount f) (value key_amount ps);
     u_tx_description := from_option convert_from_url_format (u_tx_description f) (value key_description ps);
     u_recipient_name := from_option convert_from_url_format (u_recipient_name f) (value key_recipient ps);
     u_unknown_parameters := u_unknown_parameters f ++ (param_text <$> filter (fun p => p.1 ∉ known_keys) ps);
     u_error := u_error f |}.

Lemma value_absent k ps : k ∉ ps.*1 -> value k ps = None.
Proof. induction ps as [|p ps IH]; [done|]. rewrite fmap_cons, not_elem_of_cons. intros [Hk Hps]. simpl. by rewrite decide_False, IH. Qed.

(** One parameter, in the order of the tests of the source *)
Definition read_param (p : list Z * list Z) (f : uri_fields) : uri_fields :=
  if decide (p.1 = key_amount) then with_amount f (default 0 (parse_amount dp p.2))
  else if decide (p.1 = key_payment_id) then with_payment_id f p.2
  else if decide (p.1 = key_recipient) then with_recipient_name f (convert_from_url_format p.2)
  else if decide (p.1 = key_description) then with_tx_description f (convert_from_url_format p.2)
  else push_unknown f (param_text p).

Lemma read_params_cons p ps f : p.1 ∉ ps.*1 -> read_params (p :: ps) f = read_params ps (read_param p f).
Proof.
  intros Hp. unfold read_params, read_param. cbn [value].
  destruct (decide (p.1 = key_amount)) as [E|N1]; [|destruct (decide (p.1 = key_payment_id)) as [E|N2];
    [|destruct (decide (p.1 = key_recipient)) as [E|N3]; [|destruct (decide (p.1 = key_description)) as [E|N4]]]].
  5: { rewrite filter_cons_True by (unfold known_keys; rewrite !elem_of_cons, elem_of_nil; tauto). cbn. by rewrite <- app_assoc. }
  all: rewrite filter_cons_False by (rewrite E; intros Hn; apply Hn; unfold known_keys; rewrite !elem_of_cons; tauto);
    rewrite ?E in *; rewrite (value_absent _ _ Hp); repeat (rewrite decide_False by discriminate); done.
Qed.

Lemma param_split p : 61 ∉ p.1 -> split 61 (param_text p) = p.1 :: split 61 p.2.
Proof. intros Hk. by apply split_app. Qed.

(** A parameter that is taken *)
Lemma parse_args_ok info p args have f : param_ok info p -> p.1 ∉ have ->
  parse_args dp info (param_text p :: args) have f = parse_args dp info args ({[p.1]} ∪ have) (read_param p f).
Proof.
  intros (Hk & Hv & Ha & Hi) Hh. cbn [parse_args]. rewrite boost_split_eq, param_split, split_no_sep by done.
  rewrite bool_decide_eq_false_2 by done. unfold read_param.
  destruct (decide (p.1 = key_amount)) as [E|N1].
  { rewrite bool_decide_eq_true_2 by done. by destruct (Ha E) as [a ->]. }
  rewrite (bool_decide_eq_false_2 (p.1 = key_amount)) by done. destruct (decide (p.1 = key_payment_id)) as [E|N2].
  { rewrite bool_decide_eq_true_2 by done. by destruct (Hi E) as [-> [h ->]]. }
  rewrite (bool_decide_eq_false_2 (p.1 = key_payment_id)) by done. by repeat case_decide; repeat case_bool_decide.
Qed.

(** One that is not *)
Lemma parse_args_inv info arg args have f f' : parse_args dp info (arg :: args) have f = (true, f') ->
  exists p, arg = param_text p /\ param_ok info p /\ p.1 ∉ have
    /\ parse_args dp info args ({[p.1]} ∪ have) (read_param p f) = (true, f').
Proof.
  intros H. pose proof (boost_split_join arg 61) as Hj. pose proof (boost_split_free arg 61) as Hf.
  destruct (boost_split arg 61) as [|k [|v [|]]] eqn:E; try (cbn [parse_args] in H; rewrite E in H; done).
  rewrite !Forall_cons in Hf. destruct Hf as (Hk & Hv & _). simpl in Hj.
  destruct (decide (k ∈ have)) as [Hh|Hh]; [cbn [parse_args] in H; rewrite E, bool_decide_eq_true_2 in H by done; done|].
  assert (param_ok info (k, v)) as Hok.
  { split; [done|]. split; [done|]. cbn [parse_args] in H. rewrite E, bool_decide_eq_false_2 in H by done. split; simpl; intros Hkey.
    - rewrite bool_decide_eq_true_2 in H by done. by destruct (parse_amount dp v).
    - rewrite bool_decide_eq_false_2, bool_decide_eq_true_2 in H by (done || by rewrite Hkey).
      destruct (has_payment_id info); [done|]. by destruct (parse_long_payment_id v). }
  exists (k, v). split; [done|]. split; [done|]. split; [done|]. subst arg. by rewrite <- parse_args_ok.
Qed.

Lemma parse_args_spec info args have f f' : parse_args dp info args have f = (true, f') <->
  exists ps, args = param_text <$> ps /\ Forall (param_ok info) ps /\ NoDup ps.*1
    /\ Forall (fun p => p.1 ∉ have) ps /\ f' = read_params ps f.
Proof.
  revert have f. induction args as [|arg args IH]; intros have f.
  - split; [|by intros ([|] & ? & _ & _ & _ & ->); [destruct f; unfold read_params; simpl; rewrite ?app_nil_r|]].
    intros [= <-]. exists []. repeat (split; [done || constructor|]). destruct f. unfold read_params. simpl. by rewrite app_nil_r.
  - split.
    + intros (p & -> & Hp & Hh & (ps & -> & Hps & Hnd & Hn & ->)%IH)%parse_args_inv. exists (p :: ps). split; [done|].
      assert (p.1 ∉ ps.*1) as Hnp by (rewrite Forall_forall in Hn; intros (q & Eq & Hq)%list_elem_of_fmap; specialize (Hn q Hq); set_solver).
      split; [by constructor|]. split; [by constructor|]. split; [|by rewrite read_params_cons].
      constructor; [done|]. eapply Forall_impl; [exact Hn|]. set_solver.
    + intros ([|p ps] & [= -> ->] & [Hp Hps]%Forall_cons & [Hnp Hnd]%NoDup_cons & [Hh Hn]%Forall_cons & ->).
      rewrite parse_args_ok by done. apply IH. exists ps. split; [done|]. split; [done|]. split; [done|].
      split; [|by rewrite read_params_cons]. apply Forall_forall. intros q Hq. rewrite Forall_forall in Hn. specialize (Hn q Hq).
      assert (q.1 ∈ ps.*1) by (apply list_elem_of_fmap; by exists q). set_solver.
Qed.


(** ** Links as a whole *)

Lemma scheme_app s : take 7 (scheme ++ s) = scheme /\ drop 7 (scheme ++ s) = s.
Proof. split; [apply (take_app_length' scheme s 7 eq_refl)|apply (drop_app_length' scheme s 7 eq_refl)]. Qed.

Notation parse := (parse_uri cn_fast_hash check_key dp).

Lemma parse_plain n a info f : Forall is_u8 a -> accepted n a info -> parse n (scheme ++ a) f = Ret (true, with_address f a).
Proof.
  intros Hb Ha. pose proof (accepted_letters n a info Hb Ha) as Hl. unfold parse_uri. destruct (scheme_app a) as [-> ->].
  rewrite bool_decide_eq_true_2 by done. cbn [negb]. rewrite (proj2 (strchr_query a [] Hl)). simpl u_address. rewrite Ha. done.
Qed.

Lemma parse_body n a info body f : Forall is_u8 a -> accepted n a info ->
  parse n (scheme ++ a ++ 63 :: body) f
  = Ret (if bool_decide (body = []) then (true, with_address f a) else parse_args dp info (split 38 body) ∅ (with_address f a)).
Proof.
  intros Hb Ha. pose proof (accepted_letters n a info Hb Ha) as Hl. unfold parse_uri. destruct (scheme_app (a ++ 63 :: body)) as [-> ->].
  rewrite bool_decide_eq_true_2 by done. cbn [negb]. rewrite (proj1 (strchr_query a body Hl)), take_app_length. simpl u_address.
  rewrite Ha. cbn [mbind result_bind].
  assert (drop (length a + 1) (a ++ 63 :: body) = body) as -> by (rewrite drop_app_add by done; done).
  rewrite boost_split_eq. by case_bool_decide.
Qed.

Lemma query_nonempty p ps : query (p :: ps) <> [].
Proof.
  unfold query. rewrite fmap_cons. intros E. assert (61 ∈ (@nil Z)); [|set_solver]. rewrite <- E.
  unfold param_text at 1. destruct (param_text <$> ps); simpl; set_solver.
Qed.

(** The ampersands of a query are those between its parameters. *)
Definition plain_param (p : list Z * list Z) : Prop := 38 ∉ p.1 /\ 38 ∉ p.2.

Lemma query_split p ps : Forall plain_param (p :: ps) -> split 38 (query (p :: ps)) = param_text <$> p :: ps.
Proof.
  intros Hp. apply split_unique; [done|]. apply Forall_fmap. eapply Forall_impl; [exact Hp|]. intros q [H1 H2]. cbn. unfold param_text. set_solver.
Qed.

Lemma parse_uri_inv n uri f f' : parse n uri f = Ret (true, f') ->
  exists a info, accepted n a info
    /\ (uri = scheme ++ a /\ f' = with_address f a
        \/ exists body, uri = scheme ++ a ++ 63 :: body
             /\ (body = [] /\ f' = with_address f a
                 \/ body <> [] /\ parse_args dp info (split 38 body) ∅ (with_address f a) = (true, f'))).
Proof.
  unfold parse_uri. case_bool_decide as E; [|done]. cbn [negb]. assert (uri = scheme ++ drop 7 uri) as -> by (by rewrite <- E, take_drop).
  rewrite (proj2 (scheme_app _)). set (r := drop 7 uri). clearbody r. destruct (strchr r 63) as [i|] eqn:Ei.
  - destruct (strchr_inv r i Ei) as [Er Hi]. assert (length (take i r) = i) as Hl by (rewrite length_take; lia). simpl u_address.
    rewrite Hl. set (a := take i r) in *. set (body := drop (i + 1) r) in *. clearbody a body. subst r. rewrite boost_split_eq.
    destruct (get_account_address_from_str _ _ n a) as [[info|]|] eqn:Ha; [|done..]. cbn [mbind result_bind].
    intros H. exists a, info. split; [done|]. right. exists body. split; [done|]. case_bool_decide; [left|right]; by simplify_eq.
  - simpl u_address. destruct (get_account_address_from_str _ _ n r) as [[info|]|] eqn:Ha; [|done..]. cbn [mbind result_bind].
    intros [= <-]. exists r, info. split; [done|]. by left.
Qed.

Lemma read_none f : read_params [] f = f.
Proof. destruct f. unfold read_params. simpl. by rewrite app_nil_r. Qed.

(** A text of bytes is accepted as a payment link exactly when it is the scheme, an address
    of the network and, after a question mark, parameters with different names, each one name,
    an equals sign and a value, whose amount can be read and whose payment id is 64 digits beside
    an address that has none. The fields are then those of the parameters; one that is not
    named keeps what it was, and parameters of other names are kept as they are. *)
Theorem uri_accepted n uri f f' : Forall is_u8 uri ->
  parse n uri f = Ret (true, f') <->
  exists a info ps, accepted n a info
    /\ (uri = scheme ++ a /\ ps = [] \/ uri = scheme ++ a ++ 63 :: query ps)
    /\ Forall plain_param ps /\ Forall (param_ok info) ps /\ NoDup ps.*1 /\ f' = read_params ps (with_address f a).
Proof.
  intros Hb. split.
  - intros (a & info & Ha & [[-> ->]|(body & -> & [[-> ->]|[Hne H]])])%parse_uri_inv.
    1,2: exists a, info, []; rewrite read_none; split; [done|]; split; [by (left + right)|by repeat constructor].
    apply parse_args_spec in H as (ps & Es & Hok & Hnd & _ & ->). exists a, info, ps. split; [done|].
    assert (body = query ps) as -> by (unfold query; by rewrite <- Es, join_split). split; [by right|]. split; [|done].
    apply Forall_forall. intros p Hp. pose proof (split_free 38 (query ps)) as Hf. rewrite Es, Forall_fmap, Forall_forall in Hf.
    specialize (Hf p Hp). unfold param_text in Hf. split; set_solver.
  - intros (a & info & ps & Ha & Hu & Hp & Hok & Hnd & ->). destruct Hu as [[-> ->]| ->].
    + apply Forall_app in Hb as [_ Hb]. by rewrite (parse_plain n a info), read_none.
    + rewrite !Forall_app in Hb. rewrite (parse_body n a info) by (done || apply Hb). destruct ps as [|p ps].
      { by rewrite bool_decide_eq_true_2, read_none. }
      rewrite bool_decide_eq_false_2 by apply query_nonempty. rewrite query_split by done. f_equal. apply parse_args_spec.
      exists (p :: ps). repeat (split; [done|]). split; [|done]. apply Forall_forall. intros q _. set_solver.
Qed.


(** ** Links that are made *)

Definition optional (b : bool) (p : list Z * list Z) : list (list Z * list Z) := if b then [p] else [].
Definition made_params (amount : Z) (tx_description recipient_name : list Z) : list (list Z * list Z) :=
  optional (0 <? amount) (key_amount, print_money amount dp)
  ++ optional (negb (bool_decide (recipient_name = []))) (key_recipient, conver_to_url_format recipient_name)
  ++ optional (negb (bool_decide (tx_description = []))) (key_description, conver_to_url_format tx_description).

Definition link (a : list Z) (ps : list (list Z * list Z)) : list Z * Z :=
  (scheme ++ a ++ (match ps with [] => [] | _ => 63 :: query ps end), Z.of_nat (length ps)).

Lemma query_snoc p ps q : query ((p :: ps) ++ [q]) = query (p :: ps) ++ 38 :: param_text q.
Proof.
  unfold query. rewrite fmap_app. revert p. induction ps as [|p' ps IH]; intros p; [done|].
  change (param_text <$> p :: p' :: ps) with (param_text p :: (param_text <$> p' :: ps)). specialize (IH p').
  change ((param_text p :: ?l) ++ ?r) with (param_text p :: (l ++ r)). rewrite fmap_cons in IH |- *. cbn [join app] in IH |- *.
  rewrite IH. by rewrite <- !app_assoc.
Qed.

Lemma add_field_link a ps k v : add_field (link a ps) k v = link a (ps ++ [(k, v)]).
Proof.
  unfold add_field, link. destruct ps as [|p ps].
  - simpl. by rewrite <- !app_assoc.
  - rewrite (proj2 (Z.eqb_neq _ 0)) by (simpl; lia). rewrite query_snoc, length_app. cbn [app]. f_equal; [|simpl; lia].
    unfold param_text. cbn [fst snd]. by rewrite <- !app_assoc.
Qed.

Lemma add_optional a ps (b : bool) k v : (if b then add_field (link a ps) k v else link a ps) = link a (ps ++ optional b (k, v)).
Proof. destruct b; [apply add_field_link|]. simpl. by rewrite app_nil_r. Qed.

Lemma make_uri_link n a info amount d r e : accepted n a info ->
  make_uri cn_fast_hash check_key dp n a [] amount d r e = Ret ((link a (made_params amount d r)).1, e).
Proof.
  intros Ha. unfold make_uri. rewrite Ha. cbn [mbind result_bind]. rewrite bool_decide_eq_true_2 by done. cbn [negb].
  rewrite andb_false_r. assert ((scheme ++ a, 0) = link a []) as -> by (unfold link; by rewrite app_nil_r). cbv zeta.
  rewrite !add_optional. unfold made_params. by rewrite <- app_assoc.
Qed.

Lemma print_money_chars amount c : 0 <= amount -> c ∈ print_money amount dp -> is_digit c = true \/ c = 46.
Proof.
  intros Ha. unfold print_money, insert_money_decimal_point. destruct (padded_digits amount dp Ha) as (Hd & _). cbv zeta in *.
  set (s := if bool_decide (length (dec_digits amount) < dp + 1)%nat then _ else _) in *. clearbody s.
  unfold all_digits in Hd. rewrite Forall_forall in Hd. case_bool_decide; [|by auto].
  rewrite !elem_of_app, list_elem_of_singleton. intros [Hc|[Hc|Hc]]; [left|by right|left]; apply Hd;
    rewrite <- (take_drop (length s - dp) s), elem_of_app; tauto.
Qed.


Lemma parse_link n a info ps f : Forall is_u8 a -> accepted n a info -> Forall plain_param ps ->
  parse n (link a ps).1 f = Ret (parse_args dp info (param_text <$> ps) ∅ (with_address f a)).
Proof.
  intros Hb Ha Hp. unfold link. cbn [fst]. destruct ps as [|p ps]; [rewrite app_nil_r; by apply parse_plain with info|].
  rewrite (parse_body n a info) by done. by rewrite bool_decide_eq_false_2, query_split by (done || apply query_nonempty).
Qed.

Lemma param_text_inj ps qs : Forall (fun p => 61 ∉ p.1) ps -> Forall (fun p => 61 ∉ p.1) qs ->
  param_text <$> ps = param_text <$> qs -> ps = qs.
Proof.
  intros Hp. revert qs. induction Hp as [|p ps Hp _ IH]; intros [|q qs] Hq; try done. apply Forall_cons in Hq as [Hq Hqs].
  rewrite !fmap_cons. intros [= E Es]. apply (f_equal (split 61)) in E. rewrite !param_split in E by done. injection E as E1 E2.
  apply (f_equal (join [61])) in E2. rewrite !join_split in E2. f_equal; [by destruct p, q; simplify_eq/=|by apply IH].
Qed.

Lemma made_forall (P : list Z * list Z -> Prop) amount d r :
  P (key_amount, print_money amount dp) -> P (key_recipient, conver_to_url_format r) -> P (key_description, conver_to_url_format d) ->
  Forall P (made_params amount d r).
Proof. intros H1 H2 H3. unfold made_params, optional. repeat case_match; repeat constructor; done. Qed.

Section Made.
Context (info : address_parse_info) (amount : Z) (d r : list Z).
Context (Hamount : is_u64 amount) (Hd : byte_list d) (Hr : byte_list r).

Lemma made_plain : Forall plain_param (made_params amount d r).
Proof.
  apply made_forall; (split; [by_decide|]); simpl; [|by apply url_separators..].
  intros Hc. apply print_money_chars in Hc as [Hc|]; [done| |mach]. done.
Qed.

Lemma made_ok : 61 ∉ d -> 61 ∉ r -> Forall (param_ok info) (made_params amount d r).
Proof.
  intros H1 H2. apply made_forall; (split; [by_decide|]); simpl.
  - split; [intros Hc; apply print_money_chars in Hc as [Hc|]; [done|done|mach]|]. rewrite amount_roundtrip by done. by split.
  - split; [by rewrite (proj2 (url_separators r Hr))|done].
  - split; [by rewrite (proj2 (url_separators d Hd))|done].
Qed.

Lemma made_free : Forall (param_ok info) (made_params amount d r) -> 61 ∉ d /\ 61 ∉ r.
Proof.
  unfold made_params. rewrite !Forall_app. intros (_ & H1 & H2). split.
  - rewrite <- (proj2 (url_separators d Hd)). clear H1. case_bool_decide as E; simpl in H2; [rewrite E; by_decide|].
    apply Forall_cons in H2 as [(_ & H2 & _) _]. done.
  - rewrite <- (proj2 (url_separators r Hr)). clear H2. case_bool_decide as E; simpl in H1; [rewrite E; by_decide|].
    apply Forall_cons in H1 as [(_ & H1 & _) _]. done.
Qed.

Lemma made_keys : NoDup (made_params amount d r).*1 /\ Forall (fun p => 61 ∉ p.1) (made_params amount d r).
Proof.
  split; [|apply made_forall; by_decide]. unfold made_params, optional. repeat case_match; simpl; by_decide.
Qed.

Lemma made_read a : read_params (made_params amount d r) (with_address blank a)
  = {| u_address := a; u_payment_id := []; u_amount := amount; u_tx_description := d; u_recipient_name := r;
       u_unknown_parameters := []; u_error := [] |}.
Proof.
  unfold read_params. assert (filter (fun p => p.1 ∉ known_keys) (made_params amount d r) = []) as ->.
  { apply filter_none, made_forall; intros Hn; apply Hn; by_decide. }
  assert (value key_payment_id (made_params amount d r) = None) as ->.
  { apply value_absent. unfold made_params, optional. repeat case_match; simpl; by_decide. }
  assert (value key_amount (made_params amount d r) = if 0 <? amount then Some (print_money amount dp) else None) as ->.
  { unfold made_params, optional. by repeat case_match. }
  assert (value key_recipient (made_params amount d r) = if decide (r = []) then None else Some (conver_to_url_format r)) as ->.
  { unfold made_params, optional. by destruct (0 <? amount); repeat case_bool_decide; case_decide. }
  assert (value key_description (made_params amount d r) = if decide (d = []) then None else Some (conver_to_url_format d)) as ->.
  { unfold made_params, optional. by destruct (0 <? amount); repeat case_bool_decide; case_decide. }
  f_equal; simpl.
  - destruct (Z.ltb_spec 0 amount); simpl; [by rewrite amount_roundtrip|mach].
  - case_decide; simpl; [done|by apply url_roundtrip].
  - case_decide; simpl; [done|by apply url_roundtrip].
Qed.
End Made.

(** C25: The link that the wallet makes for an address, an amount, a description and a name is
    read back as these, and nothing else, whatever bytes the texts hold, but for an equals sign:
    it is not escaped, and a link with one in the description or the name is refused. *)
Theorem uri_roundtrip n a info amount d r e :
  accepted n a info -> Forall is_u8 a -> is_u64 amount -> byte_list d -> byte_list r ->
  exists uri ok f, make_uri cn_fast_hash check_key dp n a [] amount d r e = Ret (uri, e)
    /\ parse n uri blank = Ret (ok, f)
    /\ (ok = true <-> 61 ∉ d /\ 61 ∉ r)
    /\ (ok = true -> f = {| u_address := a; u_payment_id := []; u_amount := amount; u_tx_description := d; u_recipient_name := r;
                            u_unknown_parameters := []; u_error := [] |}).
Proof.
  intros Ha Hb Hamount Hd Hr. rewrite (make_uri_link n a info) by done. exists (link a (made_params amount d r)).1. rewrite (parse_link n a info) by (done || by apply made_plain).
  destruct (parse_args _ _ _ _ _) as [ok f] eqn:E. exists ok, f. split; [done|]. split; [done|].
  destruct (made_keys amount d r) as [Hnd Hk].
  assert (ok = true -> Forall (param_ok info) (made_params amount d r) /\ f = read_params (made_params amount d r) (with_address blank a)) as Hok.
  { intros ->. apply parse_args_spec in E as (ps & Ep & Hps & _ & _ & ->).
    apply param_text_inj in Ep; [by subst ps|done|]. eapply Forall_impl; [exact Hps|]. by intros p (? & _). }
  split; [|intros [_ ->]%Hok; by apply made_read]. split; [intros [H _]%Hok; by eapply made_free|]. intros [H1 H2].
  assert (parse_args dp info (param_text <$> made_params amount d r) ∅ (with_address blank a)
          = (true, read_params (made_params amount d r) (with_address blank a))) as E'; [|rewrite E in E'; by injection E'].
  apply parse_args_spec. exists (made_params amount d r). split; [done|]. split; [by apply made_ok|]. split; [done|].
  split; [|done]. apply Forall_forall. set_solver.
Qed.
End LinkFacts.

(** ** The links that the desktop wallet opens *)

(** The conversions of QString: to and from UTF-8, where ASCII characters stand for themselves
    whatever follows them *)
Class QString := {
  toStdString : jsstring -> list Z;
  fromStdString : list Z -> jsstring }.
Class QStringLaws `{QString} := {
  fromStdString_nil : fromStdString [] = [];
  toStdString_ascii : forall p s, Forall (fun c => 0 <= c < 128) p -> toStdString (p ++ s) = p ++ toStdString s;
  fromStdString_ascii : forall p s, Forall (fun c => 0 <= c < 128) p -> fromStdString (p ++ s) = p ++ fromStdString s }.

(** What [parse_uri_to_object] puts into the map that it returns; the map of other parameters
    as a list in the order of the link *)
Inductive parsed_object :=
  | parsed_fields (address payment_id amount tx_description recipient_name : jsstring) (extra_parameters : list (jsstring * jsstring))
  | parsed_error (error : jsstring).

(** What the handler does with a link *)
Inductive handled :=
  | Ignored
  | Logged (error : jsstring)
  | SendTo (address payment_id tx_description amount : jsstring).

Definition startsWith (s p : jsstring) : bool := if strip_prefix p s then true else false.

(** [replace] of a text that holds no dollar sign: the first occurrence *)
Definition replace_first (s p r : jsstring) : jsstring :=
  let i := indexOf p s in
  if i <? 0 then s else take (Z.to_nat i) s ++ r ++ drop (Z.to_nat i + length p) s.

Section Desktop.
Context (cn_fast_hash : list Z -> list Z) (check_key : list Z -> bool).
Context `{Boost} `{BoostSplit} `{QString} (default_decimal_point : nat).
Context (unknown_error : jsstring).

(** [Wallet::parse_uri]: the outputs are copied when the link is accepted, the error always. *)
Definition Wallet_parse_uri (nettype : network_type) (uri : jsstring) : result config_error (bool * uri_fields) :=
  parse_uri cn_fast_hash check_key default_decimal_point nettype (toStdString uri) blank.

Definition split_item (item : list Z) : option (jsstring * jsstring) :=
  match split 61 (fromStdString item) with [k; v] => Some (k, v) | _ => None end.

(** [m_currentWallet] is the network of the open wallet. *)
Definition parse_uri_to_object (m_currentWallet : option network_type) (uri : jsstring) : result config_error parsed_object :=
  r ← match m_currentWallet with
      | Some nettype =>
          '(ok, f) ← Wallet_parse_uri nettype uri;
          Ret (if (ok : bool) then inl f else inr (fromStdString (u_error f)))
      | None => Ret (inr [])
      end;
  Ret match r with
  | inl f =>
      parsed_fields (fromStdString (u_address f)) (fromStdString (u_payment_id f))
        (if 0 <? u_amount f then print_money (u_amount f) default_decimal_point else [])
        (fromStdString (u_tx_description f)) (fromStdString (u_recipient_name f)) (omap split_item (u_unknown_parameters f))
  | inr error => parsed_error (if bool_decide (error = []) then unknown_error else error)
  end.

(** An error that is the empty text counts as none, and the fields are then absent. *)
Definition onUriHandler (m_currentWallet : option network_type) (uri : jsstring) : result config_error handled :=
  if negb (bool_decide (uri = [])) && (startsWith uri (js "hmny://") || startsWith uri (js "hmny:")) then
    parsed ← parse_uri_to_object m_currentWallet (replace_first uri (js "hmny://") (js "hmny:"));
    Ret match parsed with
    | parsed_error error => if negb (bool_decide (error = [])) then Logged error else SendTo [] [] [] []
    | parsed_fields address payment_id amount tx_description _ _ => SendTo address payment_id tx_description amount
    end
  else Ret Ignored.

(** The link of the page for receiving coins: [Wallet::make_uri] *)
Definition Wallet_make_uri (nettype : network_type) (address : jsstring) (amount : Z) (tx_description recipient_name : jsstring)
    : result config_error jsstring :=
  '(uri, _) ← make_uri cn_fast_hash check_key default_decimal_point nettype (toStdString address) [] amount
                (toStdString tx_description) (toStdString recipient_name) [];
  Ret (fromStdString uri).
End Desktop.

Section DesktopFacts.
Context (cn_fast_hash : list Z -> list Z) (check_key : list Z -> bool).
Context `{B : Boost} `{BS : BoostSplit} `{Q : QString} `{QL : !QStringLaws} (dp : nat) (unknown_error : jsstring).

Lemma startsWith_app s p : startsWith s p = true <-> exists t, s = p ++ t.
Proof.
  unfold startsWith. destruct (strip_prefix p s) as [t|] eqn:E.
  - apply strip_prefix_Some in E. split; [by exists t|done].
  - split; [done|]. intros [t Ht%strip_prefix_Some]. congruence.
Qed.

Lemma indexOf_step p c s : strip_prefix p (c :: s) = None ->
  indexOf p (c :: s) = if indexOf p s <? 0 then -1 else indexOf p s + 1.
Proof. intros E. cbn [indexOf]. by rewrite E. Qed.

Lemma replaced_starts s : startsWith s (js "hmny:") = true ->
  exists t, replace_first s (js "hmny://") (js "hmny:") = js "hmny:" ++ t.
Proof.
  intros [t ->]%startsWith_app.
  assert (indexOf (js "hmny://") (js "hmny:" ++ t) < 0 \/ indexOf (js "hmny://") (js "hmny:" ++ t) = 0
          \/ 5 <= indexOf (js "hmny://") (js "hmny:" ++ t)) as H.
  { destruct (strip_prefix (js "hmny://") (js "hmny:" ++ t)) as [u|] eqn:E.
    { right. left. apply indexOf_0. exists u. by apply strip_prefix_Some. }
    change (js "hmny:" ++ t) with (104 :: 109 :: 110 :: 121 :: 58 :: t) in *. rewrite !indexOf_step by done. cases_cmp; lia. }
  unfold replace_first. set (i := indexOf _ _) in *. destruct (Z.ltb_spec i 0) as [|Hi]; [by exists t|].
  destruct (decide (i = 0)) as [->|Hn]; [by eexists|]. rewrite take_app_ge by (change (length (js "hmny:")) with 5%nat; lia).
  rewrite <- app_assoc. by eexists.
Qed.

Lemma other_scheme n uri t : toStdString uri = js "hmny:" ++ t ->
  exists error, Wallet_parse_uri cn_fast_hash check_key dp n uri = Ret (false, with_error blank error) /\ fromStdString error <> [].
Proof.
  intros E. unfold Wallet_parse_uri, parse_uri. rewrite E. rewrite bool_decide_eq_false_2 by done. cbn [negb].
  eexists. split; [done|]. rewrite fromStdString_ascii by by_decide. done.
Qed.

Lemma make_uri_shape n a amount d r : forall uri e, make_uri cn_fast_hash check_key dp n a [] amount d r [] = Ret (uri, e) ->
  uri = [] \/ exists t, uri = scheme ++ t.
Proof.
  intros uri e. destruct (get_account_address_from_str cn_fast_hash check_key n a) as [[info|]|] eqn:E.
  - rewrite (make_uri_link cn_fast_hash check_key dp n a info) by done. intros [= <- _]. right. by eexists.
  - unfold make_uri. rewrite E. intros [= <- _]. by left.
  - unfold make_uri. by rewrite E.
Qed.

(** C35: With a wallet open the desktop wallet never opens a link: the handler takes only links
    whose scheme is the coin's, which [parse_uri] refuses, as it asks for another scheme; and the
    links that the wallet itself makes are ignored. *)
Theorem gui_opens_no_link n uri address amount description recipient :
  (exists what, onUriHandler cn_fast_hash check_key dp unknown_error (Some n) uri = Ret what /\ forall a p d m, what <> SendTo a p d m)
  /\ (forall made, Wallet_make_uri cn_fast_hash check_key dp n address amount description recipient = Ret made ->
        onUriHandler cn_fast_hash check_key dp unknown_error (Some n) made = Ret Ignored).
Proof.
  split.
  - unfold onUriHandler. destruct (negb _ && _) eqn:E; [|by exists Ignored]. apply andb_prop in E as [_ E].
    assert (startsWith uri (js "hmny:") = true) as [t Et]%replaced_starts.
    { apply orb_prop in E as [[t ->]%startsWith_app|E]; [apply startsWith_app; by exists (js "//" ++ t)|done]. }
    rewrite Et. unfold parse_uri_to_object. destruct (other_scheme n (js "hmny:" ++ t) (toStdString t)) as (error & -> & He).
    { apply toStdString_ascii. by_decide. }
    cbn [mbind result_bind]. simpl u_error. rewrite !(bool_decide_eq_false_2 _ He). by eexists.
  - intros made. unfold Wallet_make_uri. destruct (make_uri _ _ _ _ _ _ _ _ _ _) as [[l e]|] eqn:E; [|done]. intros [= <-].
    unfold onUriHandler. destruct (make_uri_shape _ _ _ _ _ _ _ E) as [->|[t ->]]; [by rewrite fromStdString_nil|].
    by rewrite fromStdString_ascii by by_decide.
Qed.
End DesktopFacts.

(** ** Witnesses *)

#[global] Instance demo_qstring : QString := {| toStdString s := s; fromStdString s := s |}.
#[global] Instance demo_qstring_laws : QStringLaws.
Proof. by split. Qed.

Lemma gui_opens_no_link_witness :
  onUriHandler demo_hash demo_check 12 (js "Unknown error") (Some MAINNET) (js "hmny://x")
  = Ret (Logged (js "URI has wrong scheme (expected " ++ [34] ++ scheme ++ [34] ++ js "): hmny:x"))
  /\ forall a p d m, onUriHandler demo_hash demo_check 12 (js "Unknown error") (Some MAINNET) (js "hmny://x") <> Ret (SendTo a p d m).
Proof.
  destruct (gui_opens_no_link demo_hash demo_check 12 (js "Unknown error") MAINNET (js "hmny://x") (js "x") 5 [] [])
    as [(what & E & Hw) _]. split; [by vm_compute|]. rewrite E. intros a p d m [= Em]. by apply (Hw a p d m).
Defined.

Definition demo_fields : uri_fields :=
  {| u_address := demo_text; u_payment_id := []; u_amount := 1500000000000; u_tx_description := str_bytes "for you & me";
     u_recipient_name := str_bytes "me"; u_unknown_parameters := []; u_error := [] |}.
Definition demo_link : list Z :=
  scheme ++ demo_text ++ str_bytes "?tx_amount=1.500000000000&recipient_name=me&tx_description=for%20you%20%26%20me".

Lemma uri_roundtrip_witness :
  make_uri demo_hash demo_check 12 MAINNET demo_text [] 1500000000000 (str_bytes "for you & me") (str_bytes "me") [] = Ret (demo_link, [])
  /\ exists f, parse_uri demo_hash demo_check 12 MAINNET demo_link blank = Ret (true, f) /\ f = demo_fields.
Proof.
  destruct (uri_roundtrip demo_hash demo_check 12 MAINNET demo_text demo_info 1500000000000 (str_bytes "for you & me") (str_bytes "me") [])
    as (uri & ok & f & E1 & E2 & Hok & Hf); [by vm_compute|by_decide|by_decide|by_decide|by_decide|].
  assert (ok = true) as E by (apply Hok; split; by_decide). specialize (Hf E). subst ok.
  assert (uri = demo_link) as Eu. { vm_compute in E1. injection E1 as <-. by vm_compute. }
  subst uri. split; [exact E1|]. exists f. split; [exact E2|exact Hf].
Defined.

Lemma uri_accepted_witness :
  exists f, parse_uri demo_hash demo_check 12 MAINNET (demo_link ++ str_bytes "&x=1") blank = Ret (true, f) /\ u_unknown_parameters f = [str_bytes "x=1"].
Proof.
  set (ps := [(key_amount, str_bytes "1.500000000000"); (key_recipient, str_bytes "me");
              (key_description, str_bytes "for%20you%20%26%20me"); (str_bytes "x", str_bytes "1")]).
  exists (read_params 12 ps (with_address blank demo_text)). split; [|by vm_compute].
  apply (uri_accepted demo_hash demo_check 12); [by_decide|]. exists demo_text, demo_info, ps. split; [by vm_compute|].
  split; [right; by vm_compute|]. split; [unfold plain_param; by_decide|].
  split; [|split; [by_decide|done]]. repeat apply Forall_cons_2; [..|apply Forall_nil_2];
    (split; [by_decide|]; split; [by_decide|]; split; intros H; [|by apply (f_equal length) in H]);
    first [by apply (f_equal length) in H|by eexists; vm_compute].
Defined.

(** An equals sign in a text makes a link that is refused. *)
Example equals_sign_refused :
  exists f, parse_uri demo_hash demo_check 12 MAINNET (scheme ++ demo_text ++ str_bytes "?tx_description=a=b") blank = Ret (false, f)
  /\ make_uri demo_hash demo_check 12 MAINNET demo_text [] 0 (str_bytes "a=b") [] []
     = Ret (scheme ++ demo_text ++ str_bytes "?tx_description=a=b", []).
Proof. eexists. split; by vm_compute. Qed.

