(* ===== verification/RestoreHeight.v ===== *)
(** * Where a wallet begins to scan: [estimate_blockchain_height],
    [get_approximate_blockchain_height] and [get_blockchain_height_by_date] of
    core/src/wallet/wallet2.cpp

    What the daemon answers, the clock and [mktime] are arguments; the blocks that it sends are
    parsed by the functions of [Transactions]. *)

From S2P Require Import Prelude Difficulty HardForks Address Transactions Serialization.

(** ** The height of the chain by the clock *)

Section Approximate.
Context (m_nettype : network_type) (now : Z).

Definition wallet_hard_forks : list hardfork_t :=
  match m_nettype with TESTNET => testnet_hard_forks | STAGENET => stagenet_hard_forks | _ => mainnet_hard_forks end.
Definition approximate_rolled_back_blocks : Z :=
  match m_nettype with TESTNET => 26600 | STAGENET => 48600 | _ => 33600 end.

Definition get_approximate_blockchain_height : option Z :=
  latest ← last wallet_hard_forks;
  let fork_time := hf_time latest in
  let fork_block := hf_height latest in
  let seconds_per_block := DIFFICULTY_TARGET_V2 in
  let approx_blockchain_height :=
    if fork_time <? now then u64 (fork_block + Z.quot (now - fork_time) seconds_per_block) else fork_block in
  Some (if approximate_rolled_back_blocks <? approx_blockchain_height
        then approx_blockchain_height - approximate_rolled_back_blocks else approx_blockchain_height).

(** An answer of the daemon: a height or an error, which the text of a trusted one tells *)
Definition daemon_answer : Type := Z + list Z.
Definition daemon_error (m_trusted_daemon : bool) (result : list Z) : list Z :=
  if m_trusted_daemon then result else str_bytes "daemon error".

(** [get_daemon_blockchain_height] and [get_daemon_blockchain_target_height]: the height and [err] *)
Definition get_daemon_blockchain_height (m_trusted_daemon : bool) (a : daemon_answer) : Z * list Z :=
  match a with inl height => (height, []) | inr e => (0, daemon_error m_trusted_daemon e) end.
Definition get_daemon_blockchain_target_height (m_trusted_daemon : bool) (a : daemon_answer) : Z * list Z :=
  match a with
  | inl target_height => (target_height, [])
  | inr e => if bool_decide (e = str_bytes "OK") then (0, []) else (0, daemon_error m_trusted_daemon e)
  end.

Definition is_empty (err : list Z) : bool := bool_decide (err = []).

(** The answers of the calls in the order of the source *)
Definition estimate_blockchain_height (m_trusted_daemon : bool) (height1 target1 target2 height2 : daemon_answer) : option Z :=
  let '(local_height, err) := get_daemon_blockchain_height m_trusted_daemon height1 in
  if is_empty err && (local_height <=? 1) then Some 0
  else
    let '(target_height, err2) := get_daemon_blockchain_target_height m_trusted_daemon target1 in
    if is_empty err2 && (target_height <=? 1) then Some 0
    else if negb (is_empty err) then Some 0
    else
      let seconds_per_block := DIFFICULTY_TARGET_V2 in
      let blocks_per_month := 60 * 60 * 24 * 30 / seconds_per_block in
      height ← get_approximate_blockchain_height;
      let '(target_height, err) := get_daemon_blockchain_target_height m_trusted_daemon target2 in
      let height :=
        if is_empty err then if target_height <? height then target_height else height
        else if blocks_per_month <? height then height - blocks_per_month else 0 in
      let '(local_height, err) := get_daemon_blockchain_height m_trusted_daemon height2 in
      Some (if is_empty err && (height <? local_height) then local_height else height).
End Approximate.

(** ** The height of a date *)

Inductive date_error :=
  | Not_connected | Old_daemon | Month_or_day_out_of_range | No_height | Failed_to_get_blocks | Not_enough_blocks
  | Failed_to_parse (height : Z) | In_the_future.

Definition MAKE_CORE_RPC_VERSION (major minor : Z) : Z := Z.lor (Z.shiftl major 16) minor.
Definition blocks_of_two_days : Z := 2 * 24 * 30.
Definition seconds_of_two_days : Z := 2 * 24 * 60 * 60.

Section ByDate.
(** [getblocks_by_height]: the blocks sent in answer to the request of each round; [None] when
    there is no answer or its status is not OK *)
Context (getblocks_by_height : nat -> list Z -> option (list (list Z))).

Definition parse_at (blob : list Z) (height : Z) : result date_error block :=
  match parse_and_validate_block_from_blob blob with Some b => Ret b | None => Throw (Failed_to_parse height) end.

(** The timestamps of the three blocks of a round *)
Definition three_timestamps (round : nat) (height_min height_mid height_max : Z) : result date_error (Z * Z * Z) :=
  match getblocks_by_height round [height_min; height_mid; height_max] with
  | None => Throw Failed_to_get_blocks
  | Some (b0 :: b1 :: b2 :: _) =>
      blk_min ← parse_at b0 height_min;
      blk_mid ← parse_at b1 height_mid;
      blk_max ← parse_at b2 height_max;
      Ret (timestamp (header blk_min), timestamp (header blk_mid), timestamp (header blk_max))
  | Some _ => Throw Not_enough_blocks
  end.

(** [None] is a loop that has not ended. *)
Fixpoint date_loop (fuel round : nat) (timestamp_target height_min height_max : Z) : option (result date_error Z) :=
  match fuel with
  | O => None
  | S fuel =>
      let height_mid := u64 (height_min + height_max) / 2 in
      match three_timestamps round height_min height_mid height_max with
      | Throw e => Some (Throw e)
      | Ret (timestamp_min, timestamp_mid, timestamp_max) =>
          if negb ((timestamp_min <=? timestamp_mid) && (timestamp_mid <=? timestamp_max))
          then Some (Ret (height_min `min` height_mid `min` height_max))
          else if timestamp_max <? timestamp_target then Some (Throw In_the_future)
          else if timestamp_target <=? u64 (timestamp_min + seconds_of_two_days) then Some (Ret height_min)
          else
            let '(height_min, height_max) :=
              if timestamp_target <=? timestamp_mid then (height_min, height_mid) else (height_mid, height_max) in
            if u64 (height_max - height_min) <=? blocks_of_two_days then Some (Ret height_min)
            else date_loop fuel (S round) timestamp_target height_min height_max
      end
  end.

(** [connection] is the version of the interface of the daemon, when there is a connection. *)
Definition get_blockchain_height_by_date (mktime : Z -> Z -> Z -> Z) (connection : option Z) (m_trusted_daemon : bool)
    (daemon_height : daemon_answer) (year month day : Z) : option (result date_error Z) :=
  match connection with
  | None => Some (Throw Not_connected)
  | Some version =>
      if version <? MAKE_CORE_RPC_VERSION 1 6 then Some (Throw Old_daemon)
      else
        let tm_year := year - 1900 in
        let tm_mon := month - 1 in
        let tm_mday := day in
        if (tm_mon <? 0) || (11 <? tm_mon) || (tm_mday <? 1) || (31 <? tm_mday) then Some (Throw Month_or_day_out_of_range)
        else
          let timestamp_target := u64 (mktime tm_year tm_mon tm_mday) in
          let '(height, err) := get_daemon_blockchain_height m_trusted_daemon daemon_height in
          let height_max := u64 (height - 1) in
          if negb (is_empty err) then Some (Throw No_height)
          else date_loop 64 0 timestamp_target 0 height_max
  end.
End ByDate.

(** ** The estimate *)

Lemma approximate_some n now : - 2 ^ 62 <= now < 2 ^ 62 -> exists a, get_approximate_blockchain_height n now = Some a /\ 0 <= a.
Proof.
  intros Hnow. unfold get_approximate_blockchain_height. destruct (last (wallet_hard_forks n)) as [f|] eqn:E; [|by destruct n].
  assert (0 <= hf_height f) as Hh by (destruct n; injection E as <-; done). cbn [mbind option_bind]. eexists. split; [done|].
  set (a := if _ <? now then _ else _). assert (0 <= a) by (unfold a; destruct (_ <? now); [apply (wrap_range 64); lia|done]).
  destruct (Z.ltb_spec (approximate_rolled_back_blocks n) a); lia.
Qed.

(** A new wallet whose daemon answers begins at the larger of the daemon's height and the
    smaller of the height by the clock and the target, unless the height or the target is at most
    one: it then begins with the first block, as it does when the daemon does not answer. A
    daemon that is synchronized answers with target 0, so that a new wallet always begins with
    the first block then, however long the chain is. *)
Theorem estimate_spec n now l t : - 2 ^ 62 <= now < 2 ^ 62 ->
  exists a, get_approximate_blockchain_height n now = Some a /\ 0 <= a
    /\ (forall trusted, estimate_blockchain_height n now trusted (inl l) (inl t) (inl t) (inl l)
          = Some (if (l <=? 1) || (t <=? 1) then 0 else Z.max l (Z.min a t)))
    /\ (forall e t1 t2 h2, estimate_blockchain_height n now false (inr e) t1 t2 h2 = Some 0)
    /\ (forall trusted t2 h2, estimate_blockchain_height n now trusted (inl l) (inl 0) t2 h2 = Some 0).
Proof.
  intros (a & Ha & H0)%(approximate_some n). exists a. split; [done|]. split; [done|]. unfold estimate_blockchain_height. rewrite Ha.
  split; [|split].
  - intros trusted. cbn. destruct (Z.leb_spec l 1); [done|]. destruct (Z.leb_spec t 1); [done|]. cbn. f_equal.
    destruct (Z.ltb_spec t a); cases_cmp; lia.
  - intros e t1 t2 h2. cbn. destruct (get_daemon_blockchain_target_height false t1) as [x err2]. by destruct (_ && _).
  - intros trusted t2 h2. cbn. by destruct (l <=? 1).
Qed.

(** ** The search *)

Section Search.
Context (getblocks_by_height : nat -> list Z -> option (list (list Z))) (height : Z) (ts : Z -> Z).

(** Some daemon with a chain of this height and these timestamps *)
Definition honest : Prop := forall round hs, Forall (fun h => 0 <= h < height) hs ->
  exists bs, getblocks_by_height round hs = Some bs
    /\ Forall2 (fun h b => exists blk, parse_and_validate_block_from_blob b = Some blk /\ timestamp (header blk) = ts h) hs bs.
Definition monotone : Prop := forall a b, 0 <= a <= b -> b < height -> ts a <= ts b.

Context (Hhonest : honest) (Hheight : 1 <= height <= 2 ^ 63).
Context (Hts : forall h, 0 <= h < height -> 0 <= ts h < 2 ^ 64 - seconds_of_two_days).

Lemma three_honest round a b c : 0 <= a < height -> 0 <= b < height -> 0 <= c < height ->
  three_timestamps getblocks_by_height round a b c = Ret (ts a, ts b, ts c).
Proof.
  intros Ha Hb Hc. unfold three_timestamps. destruct (Hhonest round [a; b; c]) as (bs & -> & HF); [by rewrite !Forall_cons|].
  apply Forall2_cons_inv_l in HF as (b0 & l0 & (k0 & E0 & T0) & HF & ->).
  apply Forall2_cons_inv_l in HF as (b1 & l1 & (k1 & E1 & T1) & HF & ->).
  apply Forall2_cons_inv_l in HF as (b2 & l2 & (k2 & E2 & T2) & _ & ->).
  unfold parse_at. rewrite E0, E1, E2. cbn. by rewrite T0, T1, T2.
Qed.

(** The height found between two others *)
Definition found (target lo hi : Z) (r : result date_error Z) : Prop :=
  match r with
  | Ret h => lo <= h <= hi /\ (h = 0 \/ ts h < target)
             /\ (monotone -> target <= ts h + seconds_of_two_days
                             \/ exists h', h < h' <= h + blocks_of_two_days /\ h' <= hi /\ target <= ts h')
             /\ (monotone -> target <= ts hi)
  | Throw e => e = In_the_future /\ ts hi < target
  end.

(** A height found in the half that is searched next is one of the whole. *)
Lemma found_half target lo hi lo' hi' r : lo <= lo' -> hi' <= hi -> hi < height -> 0 <= lo' <= hi' -> target <= ts hi ->
  target <= ts hi' -> found target lo' hi' r -> found target lo hi r.
Proof.
  intros Hlo Hhi Hh Hlo' Ht Ht'. destruct r as [h|e]; simpl; [|lia]. intros (Hr & H0 & Hn & _). split; [lia|]. split; [done|].
  split; [|done]. intros [|(h' & ? & ? & ?)]%Hn; [by left|right]. exists h'. split; [done|]. split; [lia|done].
Qed.

(** A round ends the search or leaves one half of the interval to the next round. *)
Definition progress (fuel round : nat) (target lo hi : Z) (res : option (result date_error Z)) : Prop :=
  (exists r, res = Some r /\ found target lo hi r)
  \/ exists lo' hi', res = date_loop getblocks_by_height fuel (S round) target lo' hi'
       /\ lo <= lo' <= hi' /\ hi' <= hi /\ (lo' = 0 \/ ts lo' < target) /\ target <= ts hi' /\ target <= ts hi
       /\ blocks_of_two_days < hi' - lo' /\ 2 * (hi' - lo') <= hi - lo + 1.

Lemma narrow fuel round target lo hi lo' hi' : 0 <= lo -> hi < height -> target <= ts hi ->
  lo <= lo' <= hi' -> hi' <= hi -> (lo' = 0 \/ ts lo' < target) -> target <= ts hi' -> 2 * (hi' - lo') <= hi - lo + 1 ->
  progress fuel round target lo hi
    (if u64 (hi' - lo') <=? blocks_of_two_days then Some (Ret lo') else date_loop getblocks_by_height fuel (S round) target lo' hi').
Proof.
  intros Hlo Hhi Ht H1 H2 H3 H4 H5. rewrite (wrap_small 64) by mach. destruct (Z.leb_spec (hi' - lo') blocks_of_two_days).
  - left. eexists. split; [done|]. apply (found_half target lo hi lo' hi'); try (done || lia). split; [lia|]. split; [done|]. split; [|done].
    intros _. destruct (decide (hi' = lo')) as [->|]; [left; unfold seconds_of_two_days; lia|right; exists hi'; lia].
  - right. exists lo', hi'. split_and!; try (done || lia).
Qed.

Lemma date_round fuel round target lo hi : 0 <= lo <= hi -> hi < height -> (lo = 0 \/ ts lo < target) ->
  progress fuel round target lo hi (date_loop getblocks_by_height (S fuel) round target lo hi).
Proof.
  intros Hlo Hhi Hl. cbn [date_loop]. set (mid := u64 (lo + hi) / 2).
  assert (lo <= mid <= hi /\ 2 * mid <= lo + hi < 2 * mid + 2) as [Hm Hm2].
  { unfold mid. rewrite (wrap_small 64) by mach. pose proof (Z.div_mod (lo + hi) 2). pose proof (Z.mod_pos_bound (lo + hi) 2). lia. }
  rewrite three_honest by lia. pose proof (Hts lo) as Htl. unfold seconds_of_two_days in Htl.
  destruct (negb _) eqn:Eo.
  { left. eexists. split; [done|]. replace (lo `min` mid `min` hi) with lo by lia. split; [lia|]. split; [done|].
    assert (~ monotone) as Hn; [|by split; intros ?%Hn]. intros M. pose proof (M lo mid). pose proof (M mid hi). lia. }
  destruct (Z.ltb_spec (ts hi) target); [left; eexists; split; [done|]; by split|].
  unfold seconds_of_two_days at 1. rewrite (wrap_small 64 (ts lo + _)) by mach.
  destruct (Z.leb_spec target (ts lo + 2 * 24 * 60 * 60)).
  { left. eexists. split; [done|]. split; [lia|]. split; [done|]. split; [by left|done]. }
  destruct (Z.leb_spec target (ts mid)); apply narrow; try lia; by right.
Qed.

Lemma date_loop_found fuel : forall round target lo hi,
  0 <= lo <= hi -> hi < height -> (lo = 0 \/ ts lo < target) -> hi - lo <= blocks_of_two_days * 2 ^ Z.of_nat (S fuel) ->
  exists r, date_loop getblocks_by_height (S fuel) round target lo hi = Some r /\ found target lo hi r.
Proof.
  induction fuel as [|fuel IH]; intros round target lo hi Hlo Hhi Hl Hd.
  - destruct (date_round 0 round target lo hi Hlo Hhi Hl) as [Hr|(lo' & hi' & _ & H)]; [done|].
    unfold blocks_of_two_days in *. change (2 ^ Z.of_nat 1) with 2 in Hd. lia.
  - destruct (date_round (S fuel) round target lo hi Hlo Hhi Hl) as [Hr|(lo' & hi' & -> & H1 & H2 & H3 & H4 & H5 & H6 & H7)]; [done|].
    rewrite (Nat2Z.inj_succ (S fuel)), Z.pow_succ_r in Hd by lia.
    destruct (IH (S round) target lo' hi') as (r & Hr & Hf); [lia|lia|done|lia|]. exists r. split; [done|].
    eapply (found_half target lo hi lo' hi'); try (done || lia).
Qed.

(** C27: When the daemon answers with the blocks of one chain, the search for the height of a date
    ends within 64 rounds. It fails only when the last block is earlier than the date. The height
    found is one of the chain, it is 0 or its block is from before the date, also when the
    timestamps are not in order; and when they are, all blocks below are from before the date,
    and the date is within two days of the block found or of one of the 1440 blocks after it. *)
Theorem height_by_date_spec mktime version trusted year month day :
  MAKE_CORE_RPC_VERSION 1 6 <= version -> 1 <= month <= 12 -> 1 <= day <= 31 ->
  let target := u64 (mktime (year - 1900) (month - 1) day) in
  exists r, get_blockchain_height_by_date getblocks_by_height mktime (Some version) trusted (inl height) year month day = Some r
    /\ match r with
       | Ret h =>
           0 <= h < height /\ (h = 0 \/ ts h < target)
           /\ (monotone -> (forall k, 0 <= k < h -> ts k < target)
                /\ (target <= ts h + seconds_of_two_days
                    \/ exists h', h < h' <= h + blocks_of_two_days /\ h' < height /\ target <= ts h'))
       | Throw e => e = In_the_future /\ ts (height - 1) < target
       end.
Proof.
  intros Hv Hm Hd target. unfold get_blockchain_height_by_date. rewrite (proj2 (Z.ltb_ge _ _) Hv).
  destruct (_ || _) eqn:E; [lia|]. clear E. cbn [get_daemon_blockchain_height]. change (is_empty []) with true. cbn [negb].
  rewrite (wrap_small 64 (height - 1)) by mach. fold target.
  destruct (date_loop_found 63 0 target 0 (height - 1)) as (r & -> & Hf); [lia|lia|by left| |].
  { unfold blocks_of_two_days. change (Z.of_nat 64) with 64. lia. }
  exists r. split; [done|]. destruct r as [h|e]; simpl in Hf; [|done]. destruct Hf as (Hr & H0 & Hn & _).
  split; [lia|]. split; [done|]. intros M. split.
  - intros k Hk. destruct H0 as [->|H0]; [lia|]. pose proof (M k h). lia.
  - destruct (Hn M) as [|(h' & ? & ? & ?)]; [by left|right]. exists h'. split; [done|]. split; [lia|done].
Qed.
End Search.

(** ** Witnesses *)

(** A daemon with 3000 blocks, one every two minutes *)
Definition demo_time (h : Z) : Z := 1747730000 + 120 * h.
Definition demo_blob (h : Z) : list Z :=
  default [] (block_to_blob {| header := {| major_version := 1; minor_version := 2; timestamp := demo_time h; prev_id := key_of 4; nonce := 5 |};
                               miner_tx := miner_tx sample_block; tx_hashes := tx_hashes sample_block |}).
Definition demo_daemon (round : nat) (hs : list Z) : option (list (list Z)) := Some (demo_blob <$> hs).

Lemma demo_daemon_honest : honest demo_daemon 3000 demo_time.
Proof.
  set (check := fun h => match parse_and_validate_block_from_blob (demo_blob h) with
                         | Some b => timestamp (header b) =? demo_time h | None => false end).
  assert (forallb check (seqZ 0 3000) = true) as Hall by (vm_compute; reflexivity).
  intros round hs Hhs. eexists. split; [done|]. apply Forall2_fmap_r. induction Hhs as [|h hs Hh _ IH]; [constructor|].
  constructor; [|done]. pose proof (proj1 (forallb_forall check (seqZ 0 3000)) Hall h) as Hc.
  rewrite <- list_elem_of_In, elem_of_seqZ in Hc. specialize (Hc ltac:(lia)). unfold check in Hc.
  destruct (parse_and_validate_block_from_blob (demo_blob h)) as [b|] eqn:Eb; [|discriminate Hc].
  exists b. split; [exact Eb|]. by apply Z.eqb_eq.
Qed.

Definition demo_mktime (year mon day : Z) : Z := 1747730000 + 86400 * (day - 17).

Lemma height_by_date_spec_witness :
  get_blockchain_height_by_date demo_daemon demo_mktime (Some (MAKE_CORE_RPC_VERSION 3 14)) true (inl 3000) 2025 5 20 = Some (Ret 1499)
  /\ forall k, 0 <= k < 1499 -> demo_time k < demo_mktime 125 4 20.
Proof.
  assert (forall h, 0 <= h < 3000 -> 0 <= demo_time h < 2 ^ 64 - seconds_of_two_days) as Hts
    by (intros h Hh; unfold demo_time, seconds_of_two_days; lia).
  destruct (height_by_date_spec demo_daemon 3000 demo_time demo_daemon_honest ltac:(lia) Hts demo_mktime (MAKE_CORE_RPC_VERSION 3 14) true 2025 5 20)
    as (r & E & Hr); [by vm_compute|lia|lia|].
  assert (r = Ret 1499) as Er by (vm_compute in E; injection E as <-; reflexivity). rewrite Er in E, Hr. split; [exact E|].
  destruct Hr as (_ & _ & Hm). destruct Hm as [Hk _]; [intros a b Hab Hb; unfold demo_time; lia|].
  intros k Hk'. exact (Hk k Hk').
Defined.

Lemma estimate_spec_witness :
  get_approximate_blockchain_height MAINNET 1780000000 = Some 235332
  /\ estimate_blockchain_height MAINNET 1780000000 true (inl 200000) (inl 0) (inl 0) (inl 200000) = Some 0
  /\ estimate_blockchain_height MAINNET 1780000000 true (inl 1500) (inl 200000) (inl 200000) (inl 1500) = Some 200000.
Proof.
  destruct (estimate_spec MAINNET 1780000000 1500 200000 ltac:(lia)) as (a & Ha & _ & H1 & _).
  destruct (estimate_spec MAINNET 1780000000 200000 0 ltac:(lia)) as (_ & _ & _ & _ & _ & H2).
  assert (a = 235332) as Ea by (vm_compute in Ha; injection Ha as <-; reflexivity). rewrite Ea in *.
  split; [exact Ha|]. split; [apply H2|]. apply H1.
Defined.
