(* ===== verification/PortableStorage.v ===== *)
(** * The storage that messages between nodes and requests to a node are made of:
    core/contrib/epee/include/storages and core/contrib/epee/src/portable_storage.cpp

    Nested sections of named values, written to and read from a binary format. The reader
    counts objects, fields and strings against limits, and the depth of its own calls: each of
    its functions takes the number [n] of calls that may still be nested. A section is the list
    of the entries of its map in the order of their names. A number is kept by its value, a
    double by its 64 bits. The machine is little-endian. *)

From Stdlib Require Import Sorted.
From S2P Require Import Prelude IntUtil Radix.

(** ** Data *)

Inductive pod_type := INT64 | INT32 | INT16 | INT8 | UINT64 | UINT32 | UINT16 | UINT8 | DOUBLE.

Inductive storage_entry :=
  | se_pod (t : pod_type) (v : Z)
  | se_bool (b : bool)
  | se_string (s : list Z)
  | se_section (m_entries : list (list Z * storage_entry))
  | se_array (a : array_entry)
with array_entry :=
  | ae_pod (t : pod_type) (vs : list Z)
  | ae_bool (bs : list bool)
  | ae_string (ss : list (list Z))
  | ae_section (ss : list (list (list Z * storage_entry)))
  | ae_array (l : list array_entry).
Notation section := (list (list Z * storage_entry)).

Inductive type_code := Cpod (t : pod_type) | Cbool | Cstring | Cobject | Carray.

Definition code_of (c : type_code) : Z :=
  match c with
  | Cpod INT64 => 1 | Cpod INT32 => 2 | Cpod INT16 => 3 | Cpod INT8 => 4
  | Cpod UINT64 => 5 | Cpod UINT32 => 6 | Cpod UINT16 => 7 | Cpod UINT8 => 8
  | Cpod DOUBLE => 9 | Cstring => 10 | Cbool => 11 | Cobject => 12 | Carray => 13
  end.
Definition type_of_code (c : Z) : option type_code :=
  if c =? 1 then Some (Cpod INT64) else if c =? 2 then Some (Cpod INT32) else if c =? 3 then Some (Cpod INT16)
  else if c =? 4 then Some (Cpod INT8) else if c =? 5 then Some (Cpod UINT64) else if c =? 6 then Some (Cpod UINT32)
  else if c =? 7 then Some (Cpod UINT16) else if c =? 8 then Some (Cpod UINT8) else if c =? 9 then Some (Cpod DOUBLE)
  else if c =? 10 then Some Cstring else if c =? 11 then Some Cbool else if c =? 12 then Some Cobject
  else if c =? 13 then Some Carray else None.
Definition SERIALIZE_FLAG_ARRAY : Z := 0x80.

Definition pod_size (t : pod_type) : nat :=
  match t with INT64 | UINT64 | DOUBLE => 8 | INT32 | UINT32 => 4 | INT16 | UINT16 => 2 | INT8 | UINT8 => 1 end.
Definition pod_signed (t : pod_type) : bool := match t with INT64 | INT32 | INT16 | INT8 => true | _ => false end.

(** The value of a number's bytes, and back *)
Definition pod_value (t : pod_type) (bs : list Z) : Z :=
  let u := le_value 256 bs in
  let w := 8 * Z.of_nat (pod_size t) in
  if pod_signed t && (2 ^ (w - 1) <=? u) then u - 2 ^ w else u.
Definition pod_bytes (t : pod_type) (v : Z) : list Z := le_digits 256 (pod_size t) (wrap (8 * Z.of_nat (pod_size t)) v).

Inductive ps_error :=
  | Recursion_limit | Buffer_end | Name_missing | Invalid_bool | Size_sanity | Too_many_objects | Too_many_strings | Too_many_fields
  | Unknown_type | Duplicate_key | String_too_big | Wrong_type_sequence | Array_of_arrays | Varint_too_big | Name_too_long | Out_of_fuel.
Notation R := (result ps_error).

(** ** Writing *)

Definition RAW_SIZE_MARK_BYTE : Z := 0.
Definition RAW_SIZE_MARK_WORD : Z := 1.
Definition RAW_SIZE_MARK_DWORD : Z := 2.
Definition RAW_SIZE_MARK_INT64 : Z := 3.

Definition pack_varint_t (t : pod_type) (type_or pv : Z) : list Z :=
  pod_bytes t (Z.lor (wrap (8 * Z.of_nat (pod_size t)) (Z.shiftl pv 2)) type_or).
Definition pack_varint (val : Z) : R (list Z) :=
  if val <=? 63 then Ret (pack_varint_t UINT8 RAW_SIZE_MARK_BYTE val)
  else if val <=? 16383 then Ret (pack_varint_t UINT16 RAW_SIZE_MARK_WORD val)
  else if val <=? 1073741823 then Ret (pack_varint_t UINT32 RAW_SIZE_MARK_DWORD val)
  else if negb (Z.shiftr (Z.shiftr val 31) 31 =? 0) then Throw Varint_too_big
  else Ret (pack_varint_t UINT64 RAW_SIZE_MARK_INT64 val).

Definition put_string (v : list Z) : R (list Z) := len ← pack_varint (Z.of_nat (length v)); Ret (len ++ v).
Definition put_bool (b : bool) : list Z := [if b then 1 else 0].

(** The type of an array, its size and its items *)
Definition pack_array (c : type_code) (size : nat) (items : R (list (list Z))) : R (list Z) :=
  len ← pack_varint (Z.of_nat size);
  items ← items;
  Ret (Z.lor (code_of c) SERIALIZE_FLAG_ARRAY :: len ++ concat items).

Definition pack_name (name : list Z) : R (list Z) :=
  if negb (Z.of_nat (length name) <? 255) then Throw Name_too_long
  else if bool_decide (name = []) then Throw Name_missing
  else Ret (Z.of_nat (length name) :: name).

Definition pack_fields (size : nat) (fields : R (list (list Z))) : R (list Z) :=
  len ← pack_varint (Z.of_nat size);
  fields ← fields;
  Ret (len ++ concat fields).

(** [pack_entry_to_buff] of an entry, of an array and, below, of a section *)
Fixpoint pack_entry (se : storage_entry) : R (list Z) :=
  match se with
  | se_pod t v => Ret (code_of (Cpod t) :: pod_bytes t v)
  | se_bool b => Ret (code_of Cbool :: put_bool b)
  | se_string s => bs ← put_string s; Ret (code_of Cstring :: bs)
  | se_section fs =>
      bs ← pack_fields (length fs) (mapM (fun p => name ← pack_name p.1; e ← pack_entry p.2; Ret (name ++ e)) fs);
      Ret (code_of Cobject :: bs)
  | se_array a => pack_array_entry a
  end
with pack_array_entry (ae : array_entry) : R (list Z) :=
  match ae with
  | ae_pod t vs => pack_array (Cpod t) (length vs) (Ret (pod_bytes t <$> vs))
  | ae_bool bs => pack_array Cbool (length bs) (Ret (put_bool <$> bs))
  | ae_string ss => pack_array Cstring (length ss) (mapM put_string ss)
  | ae_section ss =>
      pack_array Cobject (length ss)
        (mapM (fun fs => pack_fields (length fs) (mapM (fun p => name ← pack_name p.1; e ← pack_entry p.2; Ret (name ++ e)) fs)) ss)
  | ae_array l => pack_array Carray (length l) (mapM pack_array_entry l)
  end.
Definition pack_field (p : list Z * storage_entry) : R (list Z) := name ← pack_name p.1; e ← pack_entry p.2; Ret (name ++ e).
Definition pack_section (sec : section) : R (list Z) := pack_fields (length sec) (mapM pack_field sec).

(** ** Reading *)

(** The buffer that is left and the counters *)
Record throwable_buffer_reader := Reader { m_rest : list Z; m_objects : Z; m_fields : Z; m_strings : Z }.
Notation rd := throwable_buffer_reader.

Definition m_count (st : rd) : Z := Z.of_nat (length (m_rest st)).
Definition with_rest (st : rd) (rest : list Z) : rd := Reader rest (m_objects st) (m_fields st) (m_strings st).
Definition add_objects (st : rd) (n : Z) : rd := Reader (m_rest st) (u64 (m_objects st + n)) (m_fields st) (m_strings st).
Definition add_fields (st : rd) (n : Z) : rd := Reader (m_rest st) (m_objects st) (u64 (m_fields st + n)) (m_strings st).
Definition add_strings (st : rd) (n : Z) : rd := Reader (m_rest st) (m_objects st) (m_fields st) (u64 (m_strings st + n)).

Definition MAX_STRING_LEN_POSSIBLE : Z := 2000000000.

(** [read] into memory *)
Definition read_bytes (n : nat) (count : nat) (st : rd) : R (list Z * rd) :=
  match n with
  | O => Throw Recursion_limit
  | S _ =>
      if m_count st <? Z.of_nat count then Throw Buffer_end
      else Ret (take count (m_rest st), with_rest st (drop count (m_rest st)))
  end.

(** [read] of a number, of a bool, and [read] that returns a value *)
Definition read_pod (t : pod_type) (n : nat) (st : rd) : R (Z * rd) :=
  match n with
  | O => Throw Recursion_limit
  | S n => '(bs, st) ← read_bytes n (pod_size t) st; Ret (pod_value t bs, st)
  end.
Definition read_bool (n : nat) (st : rd) : R (bool * rd) :=
  match n with
  | O => Throw Recursion_limit
  | S n =>
      '(bs, st) ← read_bytes n 1 st;
      let t := le_value 256 bs in
      if negb (t <=? 1) then Throw Invalid_bool else Ret (negb (t =? 0), st)
  end.
Definition read_value {A} (read : nat -> rd -> R (A * rd)) (n : nat) (st : rd) : R (A * rd) :=
  match n with O => Throw Recursion_limit | S n => read n st end.

Definition read_sec_name (n : nat) (st : rd) : R (list Z * rd) :=
  match n with
  | O => Throw Recursion_limit
  | S n =>
      '(name_len, st) ← read_pod UINT8 n st;
      if negb (0 <? name_len) then Throw Name_missing else read_bytes n (Z.to_nat name_len) st
  end.

Definition read_varint (n : nat) (st : rd) : R (Z * rd) :=
  match n with
  | O => Throw Recursion_limit
  | S n =>
      match m_rest st with
      | [] => Throw Buffer_end
      | b :: _ =>
          let size_mask := Z.land b 0x03 in
          let t := if size_mask =? RAW_SIZE_MARK_BYTE then UINT8 else if size_mask =? RAW_SIZE_MARK_WORD then UINT16
                   else if size_mask =? RAW_SIZE_MARK_DWORD then UINT32 else UINT64 in
          '(v, st) ← read_value (read_pod t) n st;
          Ret (Z.shiftr v 2, st)
      end
  end.

Definition read_string (n : nat) (st : rd) : R (list Z * rd) :=
  match n with
  | O => Throw Recursion_limit
  | S n =>
      '(len, st) ← read_varint n st;
      if negb (len <? MAX_STRING_LEN_POSSIBLE) then Throw String_too_big
      else if m_count st <? len then Throw Buffer_end
      else Ret (take (Z.to_nat len) (m_rest st), with_rest st (drop (Z.to_nat len) (m_rest st)))
  end.

Definition ps_min_bytes (c : type_code) : Z :=
  match c with Cpod t => Z.of_nat (pod_size t) | Cbool => 1 | Cstring => 2 | Cobject | Carray => 1 end.

(** The loop [while (size--)] *)
Fixpoint read_items {A} (one : rd -> R (A * rd)) (size : nat) (st : rd) : R (list A * rd) :=
  match size with
  | O => Ret ([], st)
  | S size =>
      '(x, st) ← one st;
      '(xs, st) ← read_items one size st;
      Ret (x :: xs, st)
  end.

(** The order of [std::map]: bytes, then length *)
Fixpoint key_lt (a b : list Z) : bool :=
  match a, b with
  | _, [] => false
  | [], _ :: _ => true
  | x :: a, y :: b => (x <? y) || ((x =? y) && key_lt a b)
  end.
Fixpoint map_emplace (k : list Z) (v : storage_entry) (m : section) : section :=
  match m with
  | [] => [(k, v)]
  | p :: m' => if key_lt k p.1 then (k, v) :: m else p :: map_emplace k v m'
  end.

(** The loop over the fields. Each takes a byte at least: [fuel] is one more than there are. *)
Fixpoint read_fields (read_name : rd -> R (list Z * rd)) (load : rd -> R (storage_entry * rd))
    (fuel : nat) (count : Z) (m_entries : section) (st : rd) : R (section * rd) :=
  if count =? 0 then Ret (m_entries, st)
  else
    match fuel with
    | O => Throw Out_of_fuel
    | S fuel =>
        '(sec_name, st) ← read_name st;
        if bool_decide (sec_name ∈ m_entries.*1) then Throw Duplicate_key
        else
          '(e, st) ← load st;
          read_fields read_name load fuel (count - 1) (map_emplace sec_name e m_entries) st
    end.

Section Limits.
Context (max_objects max_fields max_strings : Z).

(** The size of an array and its counting *)
Definition read_ae_size (c : type_code) (n : nat) (st : rd) : R (nat * rd) :=
  '(size, st) ← read_varint n st;
  if negb (size <=? m_count st / ps_min_bytes c) then Throw Size_sanity
  else
    match c with
    | Cobject =>
        if negb (size <=? u64 (max_objects - m_objects st)) then Throw Too_many_objects
        else Ret (Z.to_nat size, add_objects st size)
    | Cstring =>
        if negb (size <=? u64 (max_strings - m_strings st)) then Throw Too_many_strings
        else Ret (Z.to_nat size, add_strings st size)
    | _ => Ret (Z.to_nat size, st)
    end.

(** [read_ae], with the function that reads one item *)
Definition read_ae {A} (c : type_code) (read : nat -> rd -> R (A * rd)) (n : nat) (st : rd) : R (list A * rd) :=
  match n with
  | O => Throw Recursion_limit
  | S n =>
      '(size, st) ← read_ae_size c n st;
      read_items (fun st => read_value read n st) size st
  end.

(** [read] of an array inside an array *)
Definition read_array_entry (n : nat) (st : rd) : R (array_entry * rd) :=
  match n with O => Throw Recursion_limit | S _ => Throw Array_of_arrays end.

Definition read_se_string (n : nat) (st : rd) : R (storage_entry * rd) :=
  match n with
  | O => Throw Recursion_limit
  | S n =>
      if negb (u64 (m_strings st + 1) <=? max_strings) then Throw Too_many_strings
      else
        '(s, st) ← read_value read_string n (add_strings st 1);
        Ret (se_string s, st)
  end.
Definition read_se {A} (wrap_ : A -> storage_entry) (read : nat -> rd -> R (A * rd)) (n : nat) (st : rd) : R (storage_entry * rd) :=
  match n with O => Throw Recursion_limit | S n => '(v, st) ← read n st; Ret (wrap_ v, st) end.

Fixpoint load_storage_array_entry (n : nat) (type : Z) (st : rd) {struct n} : R (array_entry * rd) :=
  match n with
  | O => Throw Recursion_limit
  | S n =>
      match type_of_code (Z.land type 0x7f) with
      | Some (Cpod t) => '(l, st) ← read_ae (Cpod t) (read_pod t) n st; Ret (ae_pod t l, st)
      | Some Cbool => '(l, st) ← read_ae Cbool read_bool n st; Ret (ae_bool l, st)
      | Some Cstring => '(l, st) ← read_ae Cstring read_string n st; Ret (ae_string l, st)
      | Some Cobject => '(l, st) ← read_ae_section n st; Ret (ae_section l, st)
      | Some Carray => '(l, st) ← read_ae Carray read_array_entry n st; Ret (ae_array l, st)
      | None => Throw Unknown_type
      end
  end
with read_ae_section (n : nat) (st : rd) {struct n} : R (list section * rd) :=
  match n with
  | O => Throw Recursion_limit
  | S n =>
      '(size, st) ← read_ae_size Cobject n st;
      read_items (fun st => read_value_section n st) size st
  end
with read_value_section (n : nat) (st : rd) {struct n} : R (section * rd) :=
  match n with O => Throw Recursion_limit | S n => read_section n st end
with read_section (n : nat) (st : rd) {struct n} : R (section * rd) :=
  match n with
  | O => Throw Recursion_limit
  | S n =>
      '(count, st) ← read_varint n st;
      if negb (count <=? u64 (max_fields - m_fields st)) then Throw Too_many_fields
      else
        read_fields (fun st => read_sec_name n st) (fun st => load_storage_entry n st) (S (length (m_rest st))) count []
          (add_fields st count)
  end
with load_storage_entry (n : nat) (st : rd) {struct n} : R (storage_entry * rd) :=
  match n with
  | O => Throw Recursion_limit
  | S n =>
      '(ent_type, st) ← read_pod UINT8 n st;
      if negb (Z.land ent_type SERIALIZE_FLAG_ARRAY =? 0)
      then '(a, st) ← load_storage_array_entry n ent_type st; Ret (se_array a, st)
      else
        match type_of_code ent_type with
        | Some (Cpod t) => read_se (se_pod t) (read_pod t) n st
        | Some Cbool => read_se se_bool read_bool n st
        | Some Cstring => read_se_string n st
        | Some Cobject => read_se_section n st
        | Some Carray => read_se_array n st
        | None => Throw Unknown_type
        end
  end
with read_se_section (n : nat) (st : rd) {struct n} : R (storage_entry * rd) :=
  match n with
  | O => Throw Recursion_limit
  | S n =>
      if negb (m_objects st <? max_objects) then Throw Too_many_objects
      else '(s, st) ← read_section n (add_objects st 1); Ret (se_section s, st)
  end
with read_se_array (n : nat) (st : rd) {struct n} : R (storage_entry * rd) :=
  match n with
  | O => Throw Recursion_limit
  | S n =>
      '(ent_type, st) ← read_pod UINT8 n st;
      if Z.land ent_type SERIALIZE_FLAG_ARRAY =? 0 then Throw Wrong_type_sequence
      else '(a, st) ← load_storage_array_entry n ent_type st; Ret (se_array a, st)
  end.
End Limits.

(** ** The storage *)

Record limits_t := { n_objects : Z; n_fields : Z; n_strings : Z }.
Definition no_limits : limits_t := {| n_objects := 2 ^ 64 - 1; n_fields := 2 ^ 64 - 1; n_strings := 2 ^ 64 - 1 |}.

Definition PORTABLE_STORAGE_SIGNATUREA : Z := 0x01011101.
Definition PORTABLE_STORAGE_SIGNATUREB : Z := 0x01020101.
Definition PORTABLE_STORAGE_FORMAT_VER : Z := 1.
Definition storage_block_header : list Z :=
  pod_bytes UINT32 PORTABLE_STORAGE_SIGNATUREA ++ pod_bytes UINT32 PORTABLE_STORAGE_SIGNATUREB ++ [PORTABLE_STORAGE_FORMAT_VER].

Definition store_to_binary (m_root : section) : R (list Z) := bs ← pack_section m_root; Ret (storage_block_header ++ bs).

(** The limit is 100, and a call counts itself. *)
Definition EPEE_PORTABLE_STORAGE_RECURSION_LIMIT : nat := 100.

(** The root, when the result is [true] *)
Definition load_from_binary (source : list Z) (limits : limits_t) : option section :=
  if bool_decide (length source < length storage_block_header)%nat then None
  else if negb (bool_decide (take (length storage_block_header) source = storage_block_header)) then None
  else
    let body := drop (length storage_block_header) source in
    if bool_decide (body = []) then None
    else
      match read_section (n_objects limits) (n_fields limits) (n_strings limits) (EPEE_PORTABLE_STORAGE_RECURSION_LIMIT - 1)
              (Reader body 0 0 0) with
      | Ret (m_root, _) => Some m_root
      | Throw _ => None
      end.

Example storage_sample :
  let root := [(str_bytes "a", se_pod INT16 (-2)); (str_bytes "b", se_section [(str_bytes "x", se_string (str_bytes "hi"))]);
               (str_bytes "c", se_array (ae_section [[]; [(str_bytes "y", se_bool true)]]))] in
  (bs ← store_to_binary root; Ret (load_from_binary bs no_limits)) = Ret (Some root).
Proof. vm_compute. reflexivity. Qed.

(** A string may take one byte only; the reader wants two for each string of an array. *)
Example empty_strings_refused :
  (bs ← store_to_binary [(str_bytes "a", se_array (ae_string [[]]))]; Ret (load_from_binary bs no_limits)) = Ret None.
Proof. vm_compute. reflexivity. Qed.

(** ** Values in range *)

Definition width (t : pod_type) : Z := 8 * Z.of_nat (pod_size t).
Definition pod_ok (t : pod_type) (v : Z) : Prop :=
  if pod_signed t then - 2 ^ (width t - 1) <= v < 2 ^ (width t - 1) else 0 <= v < 2 ^ width t.

Lemma width_facts t : 0 < width t /\ 2 ^ width t = 2 * 2 ^ (width t - 1) /\ 0 < 2 ^ (width t - 1) /\ 2 ^ width t = 256 ^ Z.of_nat (pod_size t).
Proof. by destruct t. Qed.

Lemma pod_roundtrip t v : pod_ok t v -> pod_value t (pod_bytes t v) = v.
Proof.
  destruct (width_facts t) as (H0 & H1 & H2 & H3). unfold pod_ok, pod_value, pod_bytes. fold (width t).
  pose proof (wrap_range (width t) v ltac:(lia)) as Hr. unfold in_width in Hr.
  rewrite (le_value_digits_small 256) by lia. unfold wrap in *. destruct (pod_signed t); cbn [andb]; intros Hv.
  - destruct (decide (0 <= v)) as [Hp|Hn].
    + rewrite Z.mod_small by lia. rewrite (proj2 (Z.leb_gt _ _)) by lia. done.
    + assert (v mod 2 ^ width t = v + 2 ^ width t) as -> by (symmetry; apply Z.mod_unique with (-1); lia).
      rewrite (proj2 (Z.leb_le _ _)) by lia. lia.
  - by rewrite Z.mod_small by lia.
Qed.

Lemma pod_value_ok t bs : byte_list bs -> length bs = pod_size t -> pod_ok t (pod_value t bs).
Proof.
  intros Hb Hl. destruct (width_facts t) as (H0 & H1 & H2 & H3). pose proof (le_value_bound 256 bs ltac:(lia) Hb) as Hv.
  rewrite Hl, <- H3 in Hv. unfold pod_ok, pod_value. fold (width t). destruct (pod_signed t); cbn [andb]; [|done].
  destruct (Z.leb_spec (2 ^ (width t - 1)) (le_value 256 bs)); lia.
Qed.

Lemma pod_bytes_length t v : length (pod_bytes t v) = pod_size t.
Proof. apply le_digits_length. Qed.

(** ** Sizes *)

Lemma mark_low t pv m : 0 <= m < 4 -> 0 <= pv < 2 ^ (width t - 2) -> pod_signed t = false ->
  exists b bs, pack_varint_t t m pv = b :: bs /\ length (b :: bs) = pod_size t /\ byte_list (b :: bs)
    /\ Z.land b 3 = m /\ pod_value t (b :: bs) = 4 * pv + m.
Proof.
  intros Hm Hpv Hs. destruct (width_facts t) as (H0 & H1 & H2 & H3).
  assert (8 <= width t /\ 2 ^ width t = 4 * 2 ^ (width t - 2)) as [Hw H4] by (by destruct t).
  unfold pack_varint_t. fold (width t). rewrite Z.shiftl_mul_pow2 by lia. change (2 ^ 2) with 4.
  rewrite (wrap_small (width t)) by (unfold in_width; lia).
  assert (Z.lor (pv * 4) m = 4 * pv + m) as -> by (replace (pv * 4) with (Z.shiftl pv 2) by (rewrite Z.shiftl_mul_pow2 by lia; lia); rewrite lor_add_low by lia; lia).
  assert (pod_ok t (4 * pv + m)) as Hok by (unfold pod_ok; rewrite Hs; lia).
  pose proof (pod_roundtrip t _ Hok) as Hr. pose proof (pod_bytes_length t (4 * pv + m)) as Hl.
  assert (byte_list (pod_bytes t (4 * pv + m))) as Hb by (by apply le_digits_list).
  destruct (pod_bytes t (4 * pv + m)) as [|b bs]; [by destruct t|]. exists b, bs. split; [done|]. split; [done|]. split; [done|]. split; [|done].
  unfold pod_value in Hr. rewrite Hs in Hr. cbn [andb le_value] in Hr. change 3 with (2 ^ 2 - 1). rewrite land_ones_mod by lia. change (2 ^ 2) with 4.
  replace b with (m + (pv - 64 * le_value 256 bs) * 4) by lia. rewrite Z.mod_add, Z.mod_small; lia.
Qed.

(** ** What is read back *)

(** What an entry adds to the counters: objects, fields, strings *)
Record usage := Use { u_objects : Z; u_fields : Z; u_strings : Z }.
Definition no_use : usage := Use 0 0 0.
Definition use_add (u v : usage) : usage := Use (u_objects u + u_objects v) (u_fields u + u_fields v) (u_strings u + u_strings v).
Definition use_all {A} (f : A -> usage) (l : list A) : usage := foldr (fun x u => use_add (f x) u) no_use l.
Definition objects_of (n : nat) : usage := Use (Z.of_nat n) 0 0.
Definition fields_of (n : nat) : usage := Use 0 (Z.of_nat n) 0.
Definition strings_of (n : nat) : usage := Use 0 0 (Z.of_nat n).

Fixpoint usage_of (e : storage_entry) : usage :=
  match e with
  | se_pod _ _ | se_bool _ => no_use
  | se_string _ => strings_of 1
  | se_section fs => use_add (objects_of 1) (use_add (fields_of (length fs)) (use_all (fun p => usage_of p.2) fs))
  | se_array a => array_usage a
  end
with array_usage (a : array_entry) : usage :=
  match a with
  | ae_pod _ _ | ae_bool _ => no_use
  | ae_string ss => strings_of (length ss)
  | ae_section ss =>
      use_add (objects_of (length ss))
        (use_all (fun fs => use_add (fields_of (length fs)) (use_all (fun p => usage_of p.2) fs)) ss)
  | ae_array l => use_all array_usage l
  end.
Definition section_usage (fs : section) : usage := use_add (fields_of (length fs)) (use_all (fun p => usage_of p.2) fs).

Definition use_ok (u : usage) : Prop := 0 <= u_objects u /\ 0 <= u_fields u /\ 0 <= u_strings u.

(** How many calls of the reader an entry nests *)
Definition deepest {A} (f : A -> nat) (l : list A) : nat := foldr (fun x n => f x `max` n)%nat O l.
Fixpoint levels (e : storage_entry) : nat :=
  match e with
  | se_pod _ _ | se_bool _ => 4
  | se_string _ => 8
  | se_section fs => 3 + (4 `max` deepest (fun p => levels p.2) fs)
  | se_array a => 1 + array_levels a
  end%nat
with array_levels (a : array_entry) : nat :=
  match a with
  | ae_pod _ _ | ae_bool _ => 6
  | ae_string ss => 2 + (4 `max` deepest (fun _ => 6) ss)
  | ae_section ss => 2 + (4 `max` deepest (fun fs => 2 + (4 `max` deepest (fun p => levels p.2) fs)) ss)
  | ae_array l => 2 + (4 `max` deepest array_levels l)
  end%nat.
Definition section_levels (fs : section) : nat := (1 + (4 `max` deepest (fun p => levels p.2) fs))%nat.

(** What the reader makes: sections in the order of their names, values in range. The writer
    ([storable]) wants names below 255 bytes, and the reader wants no empty string in an array. *)
Definition size_ok {A} (l : list A) : Prop := Z.of_nat (length l) < 2 ^ 62.
Definition string_ok (s : list Z) : Prop := byte_list s /\ Z.of_nat (length s) < MAX_STRING_LEN_POSSIBLE.
Definition all_of {A} (P : A -> Prop) (l : list A) : Prop := foldr (fun x Q => P x /\ Q) True l.

Section Wf.
Context (storable : bool).
Definition name_ok (k : list Z) : Prop := byte_list k /\ (0 < length k <= (if storable then 254 else 255))%nat.
Definition in_order (fs : section) : Prop := StronglySorted (fun p q => key_lt p.1 q.1 = true) fs.
Fixpoint wf (e : storage_entry) : Prop :=
  match e with
  | se_pod t v => pod_ok t v
  | se_bool _ => True
  | se_string s => string_ok s
  | se_section fs => size_ok fs /\ in_order fs /\ all_of (fun p => name_ok p.1 /\ wf p.2) fs
  | se_array a => wf_array a
  end
with wf_array (a : array_entry) : Prop :=
  match a with
  | ae_pod t vs => size_ok vs /\ all_of (pod_ok t) vs
  | ae_bool bs => size_ok bs
  | ae_string ss => size_ok ss /\ all_of (fun s => string_ok s /\ (storable = true -> s <> [])) ss
  | ae_section ss => size_ok ss /\ all_of (fun fs => size_ok fs /\ in_order fs /\ all_of (fun p => name_ok p.1 /\ wf p.2) fs) ss
  | ae_array l => l = []
  end.
Definition wf_section (fs : section) : Prop := size_ok fs /\ in_order fs /\ all_of (fun p => name_ok p.1 /\ wf p.2) fs.
End Wf.

Lemma all_of_Forall {A} (P : A -> Prop) l : all_of P l <-> Forall P l.
Proof. induction l as [|x l IH]; simpl; [done|]. rewrite IH, Forall_cons. done. Qed.

Lemma deepest_le {A} (f : A -> nat) l n : (deepest f l <= n)%nat <-> Forall (fun x => f x <= n)%nat l.
Proof. induction l as [|x l IH]; simpl; [split; [done|lia]|]. rewrite Forall_cons, <- IH. lia. Qed.

Lemma use_all_ok {A} (f : A -> usage) l : Forall (fun x => use_ok (f x)) l -> use_ok (use_all f l).
Proof. induction 1 as [|x l Hx _ IH]; [done|]. destruct Hx as (?&?&?), IH as (?&?&?). repeat split; simpl; lia. Qed.

Lemma use_add_ok u v : use_ok u -> use_ok v -> use_ok (use_add u v).
Proof. intros (?&?&?) (?&?&?). repeat split; simpl; lia. Qed.

Section Reads.
Context (max_objects max_fields max_strings : Z).
Context (Hmax : 0 <= max_objects < 2 ^ 64 /\ 0 <= max_fields < 2 ^ 64 /\ 0 <= max_strings < 2 ^ 64).

Definition advance (st : rd) (rest : list Z) (u : usage) : rd :=
  Reader rest (m_objects st + u_objects u) (m_fields st + u_fields u) (m_strings st + u_strings u).
Definition within (st : rd) (u : usage) : Prop :=
  0 <= m_objects st /\ 0 <= m_fields st /\ 0 <= m_strings st /\ m_objects st + u_objects u <= max_objects
  /\ m_fields st + u_fields u <= max_fields /\ m_strings st + u_strings u <= max_strings.
Definition reads {A} (rdr : rd -> R (A * rd)) (x : A) (bytes : list Z) (u : usage) : Prop :=
  forall st rest, within st u -> m_rest st = bytes ++ rest -> rdr st = Ret (x, advance st rest u).

Lemma advance_none st rest : advance st rest no_use = with_rest st rest.
Proof. unfold advance, with_rest. simpl. by rewrite !Z.add_0_r. Qed.

Lemma advance_advance st rest rest' u v : advance (advance st rest u) rest' v = advance st rest' (use_add u v).
Proof. unfold advance. simpl. by rewrite !Z.add_assoc. Qed.

Lemma within_parts st u v : use_ok u -> use_ok v -> within st (use_add u v) ->
  within st u /\ forall rest, within (advance st rest u) v.
Proof. unfold within, use_ok. simpl. intros. split; [lia|intros rest; simpl; lia]. Qed.

(** One thing after another *)
Lemma reads_bind {A B} (f : rd -> R (A * rd)) (g : A -> rd -> R (B * rd)) x y bs cs u v : use_ok u -> use_ok v ->
  reads f x bs u -> reads (g x) y cs v -> reads (fun st => '(a, st) ← f st; g a st) y (bs ++ cs) (use_add u v).
Proof.
  intros Hu Hv Hf Hg st rest [H1 H2]%(within_parts st u v Hu Hv) E. rewrite <- app_assoc in E. rewrite (Hf st _ H1 E). cbn [mbind result_bind].
  rewrite (Hg _ rest (H2 _)) by done. by rewrite advance_advance.
Qed.

Lemma use_add_0_l u : use_add no_use u = u.
Proof. by destruct u. Qed.
Lemma use_add_0_r u : use_add u no_use = u.
Proof. destruct u. unfold use_add. simpl. by rewrite !Z.add_0_r. Qed.
Lemma use_0_ok : use_ok no_use.
Proof. done. Qed.
Lemma count_ok n : use_ok (objects_of n) /\ use_ok (fields_of n) /\ use_ok (strings_of n).
Proof. unfold use_ok. simpl. lia. Qed.

Lemma reads_ret {A} (x : A) : reads (fun st => Ret (x, st)) x [] no_use.
Proof. intros st rest _ E. rewrite advance_none. destruct st. simpl in *. by subst. Qed.

(** A result put into a constructor *)
Lemma reads_map {A B} (f : rd -> R (A * rd)) (c : A -> B) x bs u : use_ok u ->
  reads f x bs u -> reads (fun st => '(a, st) ← f st; Ret (c a, st)) (c x) bs u.
Proof. intros Hu Hf st rest H E. by rewrite (Hf st rest H E). Qed.

Lemma reads_value {A} (read : nat -> rd -> R (A * rd)) n x bs u : reads (read n) x bs u -> reads (read_value read (S n)) x bs u.
Proof. done. Qed.

Lemma reads_bytes n bs : reads (read_bytes (S n) (length bs)) bs bs no_use.
Proof.
  intros st rest _ E. unfold read_bytes, m_count. rewrite E, length_app, (proj2 (Z.ltb_ge _ _)) by lia.
  by rewrite take_app_length, drop_app_length, advance_none.
Qed.

Lemma reads_pod n t v : pod_ok t v -> reads (read_pod t (S (S n))) v (pod_bytes t v) no_use.
Proof.
  intros Hv st rest H E. cbn [read_pod]. rewrite <- (pod_bytes_length t v). rewrite (reads_bytes n _ st rest H E). cbn.
  by rewrite pod_roundtrip.
Qed.

Lemma reads_bool n b : reads (read_bool (S (S n))) b (put_bool b) no_use.
Proof.
  intros st rest H E. cbn [read_bool]. change 1%nat with (length (put_bool b)). rewrite (reads_bytes n _ st rest H E). by destruct b.
Qed.

Lemma reads_varint_t n t v m : pod_signed t = false -> 0 <= m < 4 -> 0 <= v < 2 ^ (width t - 2) ->
  t = (if m =? RAW_SIZE_MARK_BYTE then UINT8 else if m =? RAW_SIZE_MARK_WORD then UINT16 else if m =? RAW_SIZE_MARK_DWORD then UINT32 else UINT64) ->
  reads (read_varint (S (S (S (S n))))) v (pack_varint_t t m v) no_use.
Proof.
  intros Hs Hm Hv Ht st rest H E. destruct (mark_low t v m Hm Hv Hs) as (b & bs & Eb & Hl & Hb & Hmask & Hval). rewrite Eb in E.
  cbn [read_varint]. rewrite E. change ((b :: bs) ++ rest) with (b :: (bs ++ rest)). cbn match. change 0x03 with 3. rewrite Hmask, <- Ht.
  cbn [read_value read_pod]. rewrite <- Hl. rewrite (reads_bytes n (b :: bs) st rest H E). cbn [mbind result_bind]. rewrite Hval.
  rewrite Z.shiftr_div_pow2 by lia. change (2 ^ 2) with 4. rewrite Z.mul_comm, Z.div_add_l, Z.div_small by lia. by rewrite Z.add_0_r.
Qed.

Lemma reads_varint n v : 0 <= v < 2 ^ 62 -> (4 <= n)%nat ->
  exists bs, pack_varint v = Ret bs /\ reads (read_varint n) v bs no_use /\ bs <> [].
Proof.
  intros Hv Hn. do 4 (destruct n as [|n]; [lia|]). unfold pack_varint.
  assert (forall t m, pack_varint_t t m v <> []) as Hne by (intros t m E; apply (f_equal length) in E; unfold pack_varint_t in E; rewrite pod_bytes_length in E; by destruct t).
  destruct (Z.leb_spec v 63); [|destruct (Z.leb_spec v 16383); [|destruct (Z.leb_spec v 1073741823)]].
  4: { rewrite Z.shiftr_shiftr, Z.shiftr_div_pow2 by lia. change (2 ^ (31 + 31)) with (2 ^ 62). rewrite Z.div_small by lia. cbn [Z.eqb negb].
       eexists. split; [done|]. split; [|done]. by apply reads_varint_t. }
  all: eexists; split; [done|]; split; [|done]; apply reads_varint_t; try done; unfold width; simpl; lia.
Qed.

Lemma reads_string n s : string_ok s -> (5 <= n)%nat ->
  exists bs, put_string s = Ret bs /\ reads (read_string n) s bs no_use /\ bs <> [] /\ (s <> [] -> (2 <= length bs)%nat).
Proof.
  intros [Hb Hl] Hn. destruct n as [|n]; [lia|]. unfold MAX_STRING_LEN_POSSIBLE in Hl.
  destruct (reads_varint n (Z.of_nat (length s))) as (len & Elen & Hr & Hne); [lia|lia|].
  unfold put_string. rewrite Elen. cbn [mbind result_bind]. eexists. split; [done|]. split; [|split; [by destruct len|]].
  - intros st rest H E. rewrite <- app_assoc in E. cbn [read_string]. rewrite (Hr st _ H E), advance_none. cbn [mbind result_bind].
    unfold MAX_STRING_LEN_POSSIBLE. rewrite (proj2 (Z.ltb_lt _ _) Hl). cbn [negb]. unfold m_count, with_rest. cbn [m_rest].
    rewrite length_app, (proj2 (Z.ltb_ge _ _)), Nat2Z.id, take_app_length, drop_app_length by lia. by rewrite advance_none.
  - intros Hs. rewrite length_app. destruct len, s; simpl; (done || lia).
Qed.

Lemma reads_name n k : name_ok true k -> (3 <= n)%nat ->
  exists bs, pack_name k = Ret bs /\ reads (read_sec_name n) k bs no_use.
Proof.
  intros [Hb Hl] Hn. do 3 (destruct n as [|n]; [lia|]). unfold pack_name. rewrite (proj2 (Z.ltb_lt _ _)) by lia. cbn [negb].
  rewrite bool_decide_eq_false_2 by (intros ->; simpl in Hl; lia). eexists. split; [done|]. intros st rest H E. cbn [read_sec_name].
  assert (pod_ok UINT8 (Z.of_nat (length k))) as Hok by (unfold pod_ok, width; simpl; lia).
  assert (pod_bytes UINT8 (Z.of_nat (length k)) = [Z.of_nat (length k)]) as Eb.
  { pose proof (pod_roundtrip UINT8 _ Hok) as Hr. pose proof (pod_bytes_length UINT8 (Z.of_nat (length k))) as Hlb.
    destruct (pod_bytes _ _) as [|b [|]]; try done. unfold pod_value in Hr. cbn [pod_signed andb le_value] in Hr. f_equal. lia. }
  pose proof (reads_pod n UINT8 _ Hok) as Hp. rewrite Eb in Hp. rewrite (Hp st (k ++ rest) H E). cbn [mbind result_bind].
  rewrite (proj2 (Z.ltb_lt 0 _)) by lia. cbn [negb]. rewrite Nat2Z.id, advance_none. exact (reads_bytes (S n) k (with_rest st (k ++ rest)) rest H eq_refl).
Qed.

Lemma concat_min {A} (m : nat) (bss : list (list A)) : Forall (fun bs => m <= length bs)%nat bss -> (m * length bss <= length (concat bss))%nat.
Proof. induction 1 as [|bs bss H _ IH]; simpl; [lia|]. rewrite length_app. lia. Qed.

(** The items of an array, with what each adds to the counters and the bytes it takes at least *)
Lemma reads_items {A} (one : rd -> R (A * rd)) (pack : A -> R (list Z)) (u : A -> usage) (m : nat) xs :
  Forall (fun x => use_ok (u x) /\ exists bs, pack x = Ret bs /\ reads one x bs (u x) /\ (m <= length bs)%nat) xs ->
  exists bss, mapM pack xs = Ret bss /\ reads (read_items one (length xs)) xs (concat bss) (use_all u xs)
    /\ (m * length xs <= length (concat bss))%nat /\ use_ok (use_all u xs).
Proof.
  induction 1 as [|x xs (Hu & bs & Ep & Hr & Hl) _ (bss & Eps & Hrs & Hls & Hus)].
  - exists []. split; [done|]. split; [apply reads_ret|]. split; [simpl; lia|done].
  - exists (bs :: bss). cbn [mapM]. rewrite Ep. cbn [mbind result_bind]. rewrite Eps. split; [done|]. split; [|split; [simpl; rewrite length_app; lia|by apply use_add_ok]].
    cbn [use_all foldr concat length read_items]. apply reads_bind with x; [done|done|done|].
    by apply (reads_map (read_items one (length xs)) (cons x)).
Qed.

(** The counters take the size of an array before its items are read. *)
Definition header_use (c : type_code) (n : nat) : usage :=
  match c with Cobject => objects_of n | Cstring => strings_of n | _ => no_use end.
Lemma header_ok c n : use_ok (header_use c n).
Proof. destruct c; apply count_ok || apply use_0_ok. Qed.

Lemma reads_size c n (size : nat) : Z.of_nat size < 2 ^ 62 -> (4 <= n)%nat ->
  exists bs, pack_varint (Z.of_nat size) = Ret bs /\ bs <> [] /\
    forall st rest, within st (header_use c size) -> m_rest st = bs ++ rest -> ps_min_bytes c * Z.of_nat size <= Z.of_nat (length rest) ->
      read_ae_size max_objects max_strings c n st = Ret (size, advance st rest (header_use c size)).
Proof.
  intros Hs Hn. destruct (reads_varint n (Z.of_nat size)) as (bs & Ebs & Hr & Hne); [lia|done|]. exists bs. split; [done|]. split; [done|].
  intros st rest H E Hmin. unfold read_ae_size.
  destruct (within_parts st no_use (header_use c size) use_0_ok (header_ok c size)) as [H0 _]; [by rewrite use_add_0_l|].
  rewrite (Hr st rest H0 E). cbn [mbind result_bind]. rewrite advance_none. unfold m_count. cbn [with_rest m_rest].
  assert (0 < ps_min_bytes c) as Hp by (destruct c as [t| | | |]; [by destruct t|done..]).
  rewrite (proj2 (Z.leb_le _ _)) by (apply Z.div_le_lower_bound; lia). cbn [negb]. rewrite Nat2Z.id. unfold within in H.
  destruct c; cbn [header_use] in *; rewrite ?advance_none; try done; cbn [with_rest m_objects m_strings] in *; simpl u_objects in *; simpl u_strings in *.
  - rewrite wrap_small by mach. rewrite (proj2 (Z.leb_le _ _)) by lia. cbn [negb]. unfold add_strings, advance. simpl. rewrite wrap_small by mach.
    by rewrite !Z.add_0_r.
  - rewrite wrap_small by mach. rewrite (proj2 (Z.leb_le _ _)) by lia. cbn [negb]. unfold add_objects, advance. simpl. rewrite wrap_small by mach.
    by rewrite !Z.add_0_r.
Qed.

(** A whole array: size and items *)
Lemma reads_array {A} c n (one : rd -> R (A * rd)) (pack : A -> R (list Z)) (u : A -> usage) xs : size_ok xs -> (4 <= n)%nat ->
  Forall (fun x => use_ok (u x) /\ exists bs, pack x = Ret bs /\ reads one x bs (u x) /\ (Z.to_nat (ps_min_bytes c) <= length bs)%nat) xs ->
  exists bs, pack_array c (length xs) (mapM pack xs) = Ret (Z.lor (code_of c) SERIALIZE_FLAG_ARRAY :: bs)
    /\ reads (fun st => '(size, st) ← read_ae_size max_objects max_strings c n st; read_items one size st) xs bs
         (use_add (header_use c (length xs)) (use_all u xs)) /\ bs <> [].
Proof.
  intros Hs Hn Hxs. destruct (reads_items one pack u _ xs Hxs) as (bss & Em & Hr & Hl & Hu).
  destruct (reads_size c n (length xs) Hs Hn) as (len & Elen & Hne & Hlen). unfold pack_array. rewrite Elen. cbn [mbind result_bind]. rewrite Em.
  cbn [mbind result_bind]. eexists. split; [done|]. split; [|by destruct len].
  intros st rest [H1 H2]%within_parts E; [|apply header_ok|done]. rewrite <- app_assoc in E.
  assert (0 <= ps_min_bytes c) by (destruct c as [t| | | |]; [by destruct t|done..]).
  rewrite (Hlen st (concat bss ++ rest) H1 E) by (rewrite length_app; nia). cbn [mbind result_bind].
  rewrite (Hr _ rest (H2 _)) by done. by rewrite advance_advance.
Qed.

(** Fields in the order of their names come out in that order. *)
Lemma map_emplace_last k v (m : section) : Forall (fun p => key_lt k p.1 = false) m -> map_emplace k v m = m ++ [(k, v)].
Proof. induction 1 as [|p m Hp _ IH]; simpl; [done|]. by rewrite Hp, IH. Qed.

Lemma key_lt_irrefl a : key_lt a a = false.
Proof. induction a as [|x a IH]; [done|]. simpl. rewrite Z.ltb_irrefl, Z.eqb_refl. done. Qed.

Lemma key_lt_trans a b c : key_lt a b = true -> key_lt b c = true -> key_lt a c = true.
Proof.
  revert b c. induction a as [|x a IH]; intros [|y b] [|z c]; simpl; try done.
  intros [H1|[H1 H1']%andb_prop]%orb_prop [H2|[H2 H2']%andb_prop]%orb_prop; apply orb_true_iff; [left; lia..|].
  right. apply andb_true_iff. split; [lia|by eapply IH].
Qed.

Lemma key_lt_asym a b : key_lt a b = true -> key_lt b a = false.
Proof. intros H. apply not_true_is_false. intros H'. pose proof (key_lt_trans _ _ _ H H') as E. by rewrite key_lt_irrefl in E. Qed.


Lemma in_order_app (m : section) p fs : in_order (m ++ p :: fs) -> Forall (fun q => key_lt q.1 p.1 = true) m.
Proof.
  induction m as [|q m IH]; [constructor|]. intros H. inversion H as [|? ? Hs Hf]; subst. constructor; [|by apply IH].
  rewrite Forall_app, Forall_cons in Hf. tauto.
Qed.

Definition field_reads (rn : rd -> R (list Z * rd)) (load : rd -> R (storage_entry * rd)) (p : list Z * storage_entry) : Prop :=
  (exists kb, pack_name p.1 = Ret kb /\ reads rn p.1 kb no_use /\ kb <> [])
  /\ use_ok (usage_of p.2) /\ exists eb, pack_entry p.2 = Ret eb /\ reads load p.2 eb (usage_of p.2).

Lemma reads_fields rn load fs : forall fuel m, Forall (field_reads rn load) fs -> in_order (m ++ fs) -> (length fs <= fuel)%nat ->
  exists bss, mapM pack_field fs = Ret bss
    /\ reads (read_fields rn load fuel (Z.of_nat (length fs)) m) (m ++ fs) (concat bss) (use_all (fun p => usage_of p.2) fs)
    /\ (length fs <= length (concat bss))%nat /\ use_ok (use_all (fun p => usage_of p.2) fs).
Proof.
  induction fs as [|p fs IH]; intros fuel m Hfs Ho Hfuel.
  - exists []. split; [done|]. split; [|split; [simpl; lia|done]]. rewrite app_nil_r. destruct fuel; apply reads_ret.
  - apply Forall_cons in Hfs as [[(kb & Ek & Hk & Hne) (Hu & eb & Ee & He)] Hfs]. simpl in Hfuel. destruct fuel as [|fuel]; [lia|].
    pose proof (in_order_app m p fs Ho) as Hm. assert (m ++ p :: fs = (m ++ [p]) ++ fs) as Eapp by (by rewrite <- app_assoc). rewrite Eapp in Ho |- *.
    destruct (IH fuel (m ++ [p]) Hfs Ho ltac:(lia)) as (bss & Em & Hr & Hl & Hus). exists ((kb ++ eb) :: bss). cbn [mapM].
    assert (pack_field p = Ret (kb ++ eb)) as -> by (unfold pack_field; rewrite Ek; cbn; by rewrite Ee). cbn [mbind result_bind]. rewrite Em. split; [done|].
    split; [|split; [cbn [concat length]; rewrite !length_app; destruct kb; simpl; (done || lia)|by apply use_add_ok]].
    cbn [concat read_fields length use_all foldr]. rewrite (proj2 (Z.eqb_neq _ 0)) by lia. rewrite <- (app_assoc kb eb), <- (use_add_0_l (use_add (usage_of p.2) _)).
    apply reads_bind with p.1; [done|by apply use_add_ok|done|].
    assert (p.1 ∉ m.*1) as Hnew.
    { intros (q & Eq & Hq)%list_elem_of_fmap. rewrite Forall_forall in Hm. specialize (Hm q Hq). by rewrite Eq, key_lt_irrefl in Hm. }
    rewrite bool_decide_eq_false_2 by done. apply reads_bind with p.2; [done|done|done|].
    replace (Z.of_nat (S (length fs)) - 1) with (Z.of_nat (length fs)) by lia. rewrite map_emplace_last; [by destruct p|].
    eapply Forall_impl; [exact Hm|]. intros q Hq. by apply key_lt_asym.
Qed.

(** ** The type byte *)

Definition entry_body (c : type_code) (n : nat) : rd -> R (storage_entry * rd) :=
  match c with
  | Cpod t => read_se (se_pod t) (read_pod t) n
  | Cbool => read_se se_bool read_bool n
  | Cstring => read_se_string max_strings n
  | Cobject => read_se_section max_objects max_fields max_strings n
  | Carray => read_se_array max_objects max_fields max_strings n
  end.
Notation load_entry := (load_storage_entry max_objects max_fields max_strings).
Notation load_array := (load_storage_array_entry max_objects max_fields max_strings).
Notation load_section := (read_section max_objects max_fields max_strings).

Lemma code_facts c : pod_ok UINT8 (code_of c) /\ pod_ok UINT8 (Z.lor (code_of c) SERIALIZE_FLAG_ARRAY)
  /\ pod_bytes UINT8 (code_of c) = [code_of c] /\ pod_bytes UINT8 (Z.lor (code_of c) SERIALIZE_FLAG_ARRAY) = [Z.lor (code_of c) SERIALIZE_FLAG_ARRAY]
  /\ Z.land (code_of c) SERIALIZE_FLAG_ARRAY = 0 /\ Z.land (Z.lor (code_of c) SERIALIZE_FLAG_ARRAY) SERIALIZE_FLAG_ARRAY <> 0
  /\ type_of_code (code_of c) = Some c /\ Z.land (Z.lor (code_of c) SERIALIZE_FLAG_ARRAY) 0x7f = code_of c.
Proof. destruct c as [[]| | | |]; done. Qed.

Lemma reads_code n c x bs u : (2 <= n)%nat -> use_ok u -> reads (entry_body c n) x bs u -> reads (load_entry (S n)) x (code_of c :: bs) u.
Proof.
  intros Hn Hu Hb. destruct (code_facts c) as (Hok & _ & Eb & _ & Hf & _ & Ht & _). do 2 (destruct n as [|n]; [lia|]).
  change (code_of c :: bs) with ([code_of c] ++ bs). rewrite <- Eb, <- (use_add_0_l u). cbn [load_storage_entry].
  apply reads_bind with (code_of c); [done|done|by apply reads_pod|]. rewrite Hf. cbn [Z.eqb negb]. rewrite Ht. by destruct c.
Qed.

Lemma reads_array_code n c a bs u : (2 <= n)%nat -> use_ok u ->
  reads (load_array n (Z.lor (code_of c) SERIALIZE_FLAG_ARRAY)) a bs u ->
  reads (load_entry (S n)) (se_array a) (Z.lor (code_of c) SERIALIZE_FLAG_ARRAY :: bs) u.
Proof.
  intros Hn Hu Hb. destruct (code_facts c) as (_ & Hok & _ & Eb & _ & Hf & _). do 2 (destruct n as [|n]; [lia|]).
  set (t := Z.lor (code_of c) SERIALIZE_FLAG_ARRAY) in *. change (t :: bs) with ([t] ++ bs). rewrite <- Eb, <- (use_add_0_l u).
  cbn [load_storage_entry]. apply reads_bind with t; [done|done|by apply reads_pod|]. rewrite (proj2 (Z.eqb_neq _ 0) Hf). cbn [negb].
  by apply (reads_map (load_array (S (S n)) t) se_array).
Qed.

(** ** Everything that is written is read *)

Definition entry_reads (n : nat) : Prop := forall e, (levels e <= n)%nat -> wf true e ->
  use_ok (usage_of e) /\ exists bs, pack_entry e = Ret bs /\ reads (load_entry n) e bs (usage_of e).
Definition array_reads (n : nat) : Prop := forall a, (array_levels a <= n)%nat -> wf_array true a ->
  use_ok (array_usage a) /\ exists c bs, pack_array_entry a = Ret (Z.lor (code_of c) SERIALIZE_FLAG_ARRAY :: bs)
    /\ reads (load_array n (Z.lor (code_of c) SERIALIZE_FLAG_ARRAY)) a bs (array_usage a).
Definition section_reads (n : nat) : Prop := forall fs, (section_levels fs <= n)%nat -> wf_section true fs ->
  use_ok (section_usage fs) /\ exists bs, pack_section fs = Ret bs /\ reads (load_section n) fs bs (section_usage fs) /\ bs <> [].

Lemma section_step n : entry_reads n -> section_reads (S n).
Proof.
  intros He fs Hl (Hs & Ho & Hok). unfold section_levels in Hl. apply all_of_Forall in Hok.
  assert (Forall (fun p => levels p.2 <= n)%nat fs) as Hlv by (apply deepest_le; lia).
  assert (Forall (field_reads (fun st => read_sec_name n st) (fun st => load_entry n st)) fs) as Hfs.
  { apply Forall_forall. intros p Hp. rewrite Forall_forall in Hok, Hlv. destruct (Hok p Hp) as [Hn Hw].
    destruct (reads_name n p.1 Hn ltac:(lia)) as (kb & Ek & Hk). destruct (He p.2 (Hlv p Hp) Hw) as (Hu & eb & Ee & Hr).
    split; [exists kb; split; [done|]; split; [done|]|by split; [|exists eb]]. intros ->. unfold pack_name in Ek. by repeat case_match. }
  destruct (reads_varint n (Z.of_nat (length fs))) as (len & Elen & Hlen & Hne); [unfold size_ok in Hs; lia|lia|].
  destruct (reads_fields _ _ fs (length fs) [] Hfs Ho ltac:(lia)) as (bss & Em & _ & Hlb & Hu).
  split; [apply use_add_ok; [apply count_ok|done]|]. unfold pack_section, pack_fields. rewrite Elen. cbn [mbind result_bind]. rewrite Em.
  cbn [mbind result_bind]. eexists. split; [done|]. split; [|by destruct len].
  intros st rest H E. rewrite <- app_assoc in E. unfold section_usage in *.
  destruct (within_parts st _ _ (proj1 (proj2 (count_ok (length fs)))) Hu H) as [H1 H2].
  cbn [read_section]. destruct (within_parts st no_use (fields_of (length fs))) as [H0 _]; [done|apply count_ok|by rewrite use_add_0_l|].
  rewrite (Hlen st _ H0 E), advance_none. cbn [mbind result_bind]. cbn [with_rest m_fields m_rest]. unfold within in H1. simpl in H1.
  rewrite wrap_small by mach. rewrite (proj2 (Z.leb_le _ _)) by lia. cbn [negb].
  destruct (reads_fields _ _ fs (S (length (concat bss ++ rest))) [] Hfs Ho) as (bss' & Em' & Hr & _); [rewrite length_app; lia|].
  rewrite Em in Em'. injection Em' as <-.
  assert (add_fields (with_rest st (concat bss ++ rest)) (Z.of_nat (length fs)) = advance st (concat bss ++ rest) (fields_of (length fs))) as ->.
  { unfold add_fields, advance. simpl. rewrite wrap_small by mach. by rewrite !Z.add_0_r. }
  rewrite (Hr _ rest (H2 _)) by done. by rewrite advance_advance.
Qed.


Lemma min_one {A} (bs : list A) : bs <> [] -> (Z.to_nat 1 <= length bs)%nat.
Proof. destruct bs; simpl; (done || lia). Qed.

(** An array of items that are read one by one, without or with counting *)
Lemma ae_reads {A} c n (read : nat -> rd -> R (A * rd)) (pack : A -> R (list Z)) xs (wrap_ : list A -> array_entry) : size_ok xs -> (4 <= n)%nat ->
  Forall (fun x => exists bs, pack x = Ret bs /\ reads (read_value read n) x bs no_use /\ (Z.to_nat (ps_min_bytes c) <= length bs)%nat) xs ->
  (forall st, load_array (S (S n)) (Z.lor (code_of c) SERIALIZE_FLAG_ARRAY) st
              = ('(l, st) ← read_ae max_objects max_strings c read (S n) st; Ret (wrap_ l, st))) ->
  exists bs, pack_array c (length xs) (mapM pack xs) = Ret (Z.lor (code_of c) SERIALIZE_FLAG_ARRAY :: bs)
    /\ reads (load_array (S (S n)) (Z.lor (code_of c) SERIALIZE_FLAG_ARRAY)) (wrap_ xs) bs (header_use c (length xs)).
Proof.
  intros Hs Hn Hxs Hload. assert (use_all (fun _ : A => no_use) xs = no_use) as E0 by (clear; induction xs as [|x xs IH]; [done|]; simpl; by rewrite IH).
  destruct (reads_array c n (fun st => read_value read n st) pack (fun _ => no_use) xs Hs Hn) as (bs & Ep & Hr & _).
  { eapply Forall_impl; [exact Hxs|]. intros x Hx. split; [done|exact Hx]. }
  exists bs. split; [done|]. rewrite E0, use_add_0_r in Hr. intros st rest H E. rewrite Hload. cbn [read_ae].
  by rewrite (Hr st rest H E).
Qed.

Lemma array_step n : (forall m, (m < n)%nat -> section_reads m) -> array_reads n.
Proof.
  intros Hsec a Hl Hw. assert (exists k, n = S (S k) /\ (4 <= k)%nat) as (k & -> & Hk).
  { assert (6 <= array_levels a)%nat by (destruct a; simpl; lia). exists (n - 2)%nat. lia. }
  destruct a as [t vs|bs|ss|ss|l]; cbn [wf_array] in Hw; cbn [array_levels] in Hl.
  - destruct Hw as [Hs Hv%all_of_Forall]. split; [done|].
    destruct (ae_reads (Cpod t) k (read_pod t) (fun v => Ret (pod_bytes t v)) vs (ae_pod t) Hs Hk) as (bs & Ep & Hr).
    + eapply Forall_impl; [exact Hv|]. intros v Hpv. exists (pod_bytes t v). split; [done|]. destruct k as [|[|[|k]]]; try lia.
      split; [apply reads_value; by apply reads_pod|]. rewrite pod_bytes_length. simpl. lia.
    + intros st. by destruct t.
    + exists (Cpod t), bs. split; [|done]. rewrite <- Ep. cbn [pack_array_entry]. f_equal. clear. induction vs as [|v vs IH]; [done|].
      cbn [mapM fmap list_fmap]. by rewrite <- IH.
  - split; [done|]. destruct (ae_reads Cbool k read_bool (fun v => Ret (put_bool v)) bs ae_bool Hw Hk) as (cs & Ep & Hr).
    + apply Forall_forall. intros b _. exists (put_bool b). split; [done|]. destruct k as [|[|[|k]]]; try lia.
      split; [apply reads_value; by apply reads_bool|]. simpl. lia.
    + done.
    + exists Cbool, cs. split; [|done]. rewrite <- Ep. cbn [pack_array_entry]. f_equal. clear. induction bs as [|v vs IH]; [done|].
      cbn [mapM fmap list_fmap]. by rewrite <- IH.
  - destruct Hw as [Hs Hv%all_of_Forall]. split; [apply count_ok|].
    assert (Forall (fun _ => 6 <= k)%nat ss) as Hlv by (apply (deepest_le (fun _ => 6%nat)); lia).
    destruct (ae_reads Cstring k read_string put_string ss ae_string Hs Hk) as (cs & Ep & Hr); [|done|by exists Cstring, cs].
    apply Forall_forall. intros s Hin. rewrite Forall_forall in Hv, Hlv. destruct (Hv s Hin) as [Hok Hne]. specialize (Hlv s Hin).
    destruct k as [|k]; [lia|]. destruct (reads_string k s Hok ltac:(lia)) as (b & Eb & Hr & _ & H2). exists b. split; [done|].
    split; [by apply reads_value|]. by apply H2, Hne.
  - destruct Hw as [Hs Hv%all_of_Forall].
    change (2 + (4 `max` deepest (fun fs => S (section_levels fs)) ss) <= S (S k))%nat in Hl.
    assert (Forall (fun fs => S (section_levels fs) <= k)%nat ss) as Hlv by (apply (deepest_le (fun fs => S (section_levels fs))); lia).
    destruct (reads_array Cobject k (fun st => read_value_section max_objects max_fields max_strings k st) pack_section section_usage ss Hs Hk)
      as (cs & Ep & Hr & _).
    { apply Forall_forall. intros fs Hin. rewrite Forall_forall in Hv, Hlv. specialize (Hlv fs Hin). destruct k as [|k]; [lia|].
      destruct (Hsec k ltac:(lia) fs ltac:(lia) (Hv fs Hin)) as (Hu & b & Eb & Hb & Hne). split; [done|]. exists b.
      split; [done|]. split; [exact Hb|by apply min_one]. }
    assert (use_ok (use_all section_usage ss)) as Hu.
    { apply use_all_ok, Forall_forall. intros fs Hin. rewrite Forall_forall in Hv, Hlv. specialize (Hlv fs Hin).
      by destruct (Hsec (k - 1)%nat ltac:(lia) fs ltac:(lia) (Hv fs Hin)) as (Hu & _). }
    split; [apply use_add_ok; [apply count_ok|done]|]. exists Cobject, cs. split; [done|].
    intros st rest H E. exact (reads_map _ ae_section _ _ _ (use_add_ok _ _ (proj1 (count_ok _)) Hu) Hr st rest H E).
  - subst l. split; [done|]. destruct (ae_reads Carray k read_array_entry pack_array_entry [] ae_array) as (cs & Ep & Hr); try done.
    by exists Carray, cs.
Qed.

Lemma read_se_section_S n st : read_se_section max_objects max_fields max_strings (S n) st
  = if negb (m_objects st <? max_objects) then Throw Too_many_objects
    else '(s, st) ← load_section n (add_objects st 1); Ret (se_section s, st).
Proof. done. Qed.

Lemma entry_step n : (forall m, (m < n)%nat -> section_reads m /\ array_reads m) -> entry_reads n.
Proof.
  intros Hrec e Hl Hw. assert (exists k, n = S (S (S k)) /\ (1 <= k)%nat) as (k & -> & Hk).
  { assert (4 <= levels e)%nat by (destruct e as [| | | |[]]; simpl; lia). exists (n - 3)%nat. lia. }
  destruct e as [t v|b|s|fs|a]; cbn [wf] in Hw; cbn [levels] in Hl.
  - split; [done|]. exists (code_of (Cpod t) :: pod_bytes t v). split; [done|]. apply reads_code; [lia|done|].
    exact (reads_map _ (se_pod t) _ _ _ use_0_ok (reads_pod k t v Hw)) || (destruct k as [|k]; [lia|]; exact (reads_map _ (se_pod t) _ _ _ use_0_ok (reads_pod k t v Hw))).
  - split; [done|]. exists (code_of Cbool :: put_bool b). split; [done|]. apply reads_code; [lia|done|]. destruct k as [|k]; [lia|].
    exact (reads_map _ se_bool _ _ _ use_0_ok (reads_bool k b)).
  - split; [apply count_ok|]. destruct k as [|k]; [lia|]. destruct (reads_string (S k) s Hw ltac:(lia)) as (bs & Eb & Hr & _).
    exists (code_of Cstring :: bs). cbn [pack_entry]. rewrite Eb. split; [done|]. apply reads_code; [lia|apply count_ok|].
    intros st rest H E. cbn [entry_body read_se_string]. unfold within in H. simpl in H. rewrite wrap_small by mach. rewrite (proj2 (Z.leb_le _ _)) by lia.
    cbn [negb read_value]. assert (add_strings st 1 = advance st (m_rest st) (strings_of 1)) as -> by (unfold add_strings, advance; simpl; rewrite wrap_small by mach; by rewrite !Z.add_0_r).
    rewrite (Hr _ rest) by (done || (unfold within; simpl; lia)). cbn [mbind result_bind]. by rewrite advance_advance, use_add_0_r.
  - destruct (proj1 (Hrec (S k) ltac:(lia)) fs) as (Hu & bs & Eb & Hr & _); [unfold section_levels; lia|done|].
    split; [apply use_add_ok; [apply count_ok|done]|]. exists (code_of Cobject :: bs). split.
    { cbn [pack_entry]. change (pack_fields (length fs) _) with (pack_section fs). by rewrite Eb. }
    apply reads_code; [lia|by apply use_add_ok; [apply count_ok|]|]. intros st rest H E. destruct (within_parts _ _ _ (proj1 (count_ok 1)) Hu H) as [H1 H2].
    cbn [entry_body]. rewrite read_se_section_S. unfold within in H1. simpl in H1. rewrite (proj2 (Z.ltb_lt _ _)) by lia. cbn [negb].
    assert (add_objects st 1 = advance st (m_rest st) (objects_of 1)) as -> by (unfold add_objects, advance; simpl; rewrite wrap_small by mach; by rewrite !Z.add_0_r).
    rewrite (Hr _ rest (H2 _)) by done. cbn [mbind result_bind]. by rewrite advance_advance.
  - destruct (proj2 (Hrec (S (S k)) ltac:(lia)) a) as (Hu & c & bs & Eb & Hr); [lia|done|]. split; [done|].
    exists (Z.lor (code_of c) SERIALIZE_FLAG_ARRAY :: bs). split; [done|]. by apply reads_array_code; [lia|..].
Qed.

Lemma all_read n : entry_reads n /\ array_reads n /\ section_reads n.
Proof.
  induction n as [n IH] using lt_wf_ind. assert (array_reads n) as Ha by (apply array_step; intros m Hm; by apply IH).
  assert (entry_reads n) as He by (apply entry_step; intros m Hm; split; by apply IH).
  split; [done|]. split; [done|]. destruct n as [|n]; [intros fs Hl; unfold section_levels in Hl; lia|]. apply section_step, IH. lia.
Qed.


(** ** What the reader makes *)

Definition st_ok (cap : Z) (st : rd) : Prop :=
  byte_list (m_rest st) /\ 0 <= m_objects st <= max_objects /\ 0 <= m_fields st <= max_fields /\ 0 <= m_strings st <= max_strings
  /\ m_strings st + Z.of_nat (length (m_rest st)) <= cap.
(** The counters grow by what was read, the buffer gets shorter, by [k] bytes at least. *)
Definition step (cap : Z) (k : nat) (st st' : rd) (u : usage) : Prop :=
  st_ok cap st' /\ m_objects st' = m_objects st + u_objects u /\ m_fields st' = m_fields st + u_fields u
  /\ m_strings st' = m_strings st + u_strings u /\ (length (m_rest st') + k <= length (m_rest st))%nat.

Lemma st_ok_rest cap st rest : st_ok cap st -> byte_list rest -> (length rest <= length (m_rest st))%nat -> st_ok cap (with_rest st rest).
Proof. intros (_ & ? & ? & ? & ?) ? ?. unfold st_ok. simpl. repeat split; (done || lia). Qed.

(** No fuel runs out, and a result satisfies [Q]. *)
Definition spec {A} (m : R (A * rd)) (Q : A -> rd -> Prop) : Prop :=
  match m with Ret (x, st') => Q x st' | Throw e => e <> Out_of_fuel end.

Lemma spec_bind {A B} (m : R (A * rd)) (f : A * rd -> R (B * rd)) (Q' : A -> rd -> Prop) Q :
  spec m Q' -> (forall a st, Q' a st -> spec (f (a, st)) Q) -> spec (m ≫= f) Q.
Proof. destruct m as [[a st]|e]; simpl; auto. Qed.

Lemma spec_mono {A} (m : R (A * rd)) (Q Q' : A -> rd -> Prop) : spec m Q' -> (forall a st, Q' a st -> Q a st) -> spec m Q.
Proof. destruct m as [[a st]|e]; simpl; auto. Qed.

Lemma step_trans c c' k l st st1 st2 u v : step c k st st1 u -> step c' l st1 st2 v -> step c' (k + l) st st2 (use_add u v).
Proof. intros (_ & ? & ? & ? & ?) (? & ? & ? & ? & ?). split; [done|]. simpl. repeat split; lia. Qed.

Lemma step_weaken c k l st st' u : step c k st st' u -> (l <= k)%nat -> step c l st st' u.
Proof. intros (? & ? & ? & ? & ?) ?. split; [done|]. repeat split; (done || lia). Qed.

Lemma spec_bytes cap n count st : st_ok cap st ->
  spec (read_bytes n count st) (fun bs st' => byte_list bs /\ length bs = count /\ (1 <= n)%nat /\ step cap count st st' no_use).
Proof.
  intros Hst. unfold read_bytes. destruct n as [|n]; [done|]. unfold m_count. destruct (Z.ltb_spec (Z.of_nat (length (m_rest st))) (Z.of_nat count)); [done|].
  pose proof (proj1 Hst) as Hb. simpl. split; [by apply Forall_take|]. rewrite length_take. split; [lia|]. split; [lia|].
  split; [apply st_ok_rest; [done|by apply Forall_drop|rewrite length_drop; lia]|]. cbn. rewrite length_drop. lia.
Qed.

Lemma spec_pod cap t n st : st_ok cap st -> spec (read_pod t n st) (fun v st' => pod_ok t v /\ (2 <= n)%nat /\ step cap 1 st st' no_use).
Proof.
  intros H. destruct n as [|n]; [done|]. cbn [read_pod]. eapply spec_bind; [by apply spec_bytes|]. intros bs st' (Hb & Hl & Hn & Hs). simpl.
  split; [by apply pod_value_ok|]. split; [lia|]. eapply step_weaken; [exact Hs|]. destruct t; simpl; lia.
Qed.

Lemma spec_bool cap n st : st_ok cap st -> spec (read_bool n st) (fun _ st' => (2 <= n)%nat /\ step cap 1 st st' no_use).
Proof.
  intros H. destruct n as [|n]; [done|]. cbn [read_bool]. eapply spec_bind; [by apply spec_bytes|]. intros bs st' (Hb & Hl & Hn & Hs).
  destruct (negb _); [done|]. simpl. split; [lia|done].
Qed.

Lemma spec_value {A} (read : nat -> rd -> R (A * rd)) n st (Q : nat -> A -> rd -> Prop) :
  (forall m, spec (read m st) (Q m)) -> spec (read_value read n st) (fun x st' => exists m, n = S m /\ Q m x st').
Proof. intros H. destruct n as [|n]; [done|]. cbn [read_value]. eapply spec_mono; [apply H|]. intros a st' Hq. by exists n. Qed.

Lemma spec_name cap n st : st_ok cap st -> spec (read_sec_name n st) (fun k st' => name_ok false k /\ (3 <= n)%nat /\ step cap 1 st st' no_use).
Proof.
  intros H. destruct n as [|n]; [done|]. cbn [read_sec_name]. eapply spec_bind; [by apply spec_pod|]. intros v st' (Hv & Hn & Hs).
  destruct (Z.ltb_spec 0 v); [|done]. cbn [negb]. eapply spec_mono; [apply spec_bytes, Hs|]. intros bs st2 (Hb & Hl & _ & Hs2).
  unfold pod_ok, width in Hv. simpl in Hv. split; [split; [done|lia]|]. split; [lia|].
  rewrite <- (use_add_0_l no_use). eapply step_weaken; [by eapply step_trans|lia].
Qed.

Lemma spec_varint cap n st : st_ok cap st -> spec (read_varint n st) (fun v st' => 0 <= v < 2 ^ 62 /\ (4 <= n)%nat /\ step cap 1 st st' no_use).
Proof.
  intros H. destruct n as [|n]; [done|]. cbn [read_varint]. destruct (m_rest st) as [|b bs] eqn:E; [done|].
  set (t := if _ =? _ then UINT8 else _). assert (pod_signed t = false /\ width t <= 64) as [Ht Hw] by (unfold t; by repeat case_match).
  eapply spec_bind; [apply (spec_value (read_pod t)); intros m; by apply spec_pod|]. intros v st' (m & -> & Hv & Hm & Hs). simpl.
  split; [|split; [lia|done]]. unfold pod_ok in Hv. rewrite Ht in Hv. rewrite Z.shiftr_div_pow2 by lia. change (2 ^ 2) with 4.
  assert (2 ^ width t <= 2 ^ 64) by (apply Z.pow_le_mono_r; lia). change (2 ^ 64) with (4 * 2 ^ 62) in *.
  split; [apply Z.div_pos; lia|apply Z.div_lt_upper_bound; lia].
Qed.

Lemma spec_string cap n st : st_ok cap st -> spec (read_string n st) (fun s st' => string_ok s /\ (5 <= n)%nat /\ step cap 1 st st' no_use).
Proof.
  intros H. destruct n as [|n]; [done|]. cbn [read_string]. eapply spec_bind; [by apply spec_varint|]. intros v st' (Hv & Hn & Hs).
  destruct (Z.ltb_spec v MAX_STRING_LEN_POSSIBLE); [|done]. cbn [negb]. unfold m_count.
  destruct (Z.ltb_spec (Z.of_nat (length (m_rest st'))) v); [done|]. destruct Hs as (Hst & G1 & G2 & G3 & G4). pose proof (proj1 Hst) as Hb. simpl.
  split; [split; [by apply Forall_take|rewrite length_take; lia]|]. split; [lia|].
  split; [apply st_ok_rest; [done|by apply Forall_drop|rewrite length_drop; lia]|].
  cbn. rewrite length_drop. repeat split; (done || lia).
Qed.

Lemma spec_items {A} cap k (one : rd -> R (A * rd)) (P : A -> Prop) (u : A -> usage) size : forall st, st_ok cap st ->
  (forall st, st_ok cap st -> spec (one st) (fun x st' => P x /\ step cap k st st' (u x))) ->
  spec (read_items one size st) (fun xs st' => Forall P xs /\ length xs = size /\ step cap (k * size) st st' (use_all u xs)).
Proof.
  induction size as [|size IH]; intros st H Hone; cbn [read_items].
  - split; [constructor|]. split; [done|]. split; [done|]. simpl. lia.
  - eapply spec_bind; [by apply Hone|]. intros x st1 [Hx G1]. eapply spec_bind; [apply IH; [apply G1|done]|].
    intros xs st2 (Hxs & Hl & H2). simpl. split; [by constructor|]. split; [lia|]. rewrite Nat.mul_succ_r, Nat.add_comm.
    by apply (step_trans cap cap k (k * size) st st1).
Qed.

(** The strings of an array are counted before they are read: the sum may grow until then. *)
Lemma spec_size cap c n st : st_ok cap st -> spec (read_ae_size max_objects max_strings c n st)
  (fun size st' => Z.of_nat size < 2 ^ 62 /\ (4 <= n)%nat /\ step (cap + u_strings (header_use c size)) 1 st st' (header_use c size)).
Proof.
  intros H. unfold read_ae_size. eapply spec_bind; [by apply spec_varint|]. intros v st' (Hv & Hn & Hs).
  destruct (negb _) eqn:E0; [done|]. clear E0. pose proof Hs as ((Hb & Ho & Hf & Hst & Hc) & H1 & H2 & H3 & H4).
  destruct c; cbn [header_use]; try (simpl u_strings; rewrite Z.add_0_r; simpl; split; [lia|]; split; [lia|]; exact Hs).
  - rewrite wrap_small by mach. destruct (Z.leb_spec v (max_strings - m_strings st')); [|done]. simpl. split; [lia|]. split; [lia|].
    unfold step, st_ok. cbn. rewrite wrap_small by mach. simpl in *. repeat split; (done || lia).
  - rewrite wrap_small by mach. destruct (Z.leb_spec v (max_objects - m_objects st')); [|done]. simpl. split; [lia|]. split; [lia|].
    unfold step, st_ok. cbn. rewrite wrap_small by mach. simpl in *. repeat split; (done || lia).
Qed.

Lemma step_cap cap cap' k st st' u : step cap' k st st' u ->
  m_strings st' + Z.of_nat (length (m_rest st')) <= cap -> step cap k st st' u.
Proof. unfold step, st_ok. tauto. Qed.

Lemma spec_ae {A} cap c (read : nat -> rd -> R (A * rd)) n st (P : A -> Prop) (k : nat) : st_ok cap st ->
  (forall cap m st, st_ok cap st -> spec (read m st) (fun x st' => P x /\ (k <= m)%nat /\ step cap 1 st st' no_use)) ->
  spec (read_ae max_objects max_strings c read n st) (fun xs st' =>
    size_ok xs /\ Forall P xs /\ (5 <= n)%nat /\ Forall (fun _ => k + 2 <= n)%nat xs /\ step cap 1 st st' (header_use c (length xs))).
Proof.
  intros H Hread. destruct n as [|n]; [done|]. cbn [read_ae]. eapply spec_bind; [by apply spec_size|]. intros size st1 (Hsz & Hn & G1).
  eapply spec_mono; [apply (spec_items (cap + u_strings (header_use c size)) 1 _ (fun x => P x /\ (k + 1 <= n)%nat) (fun _ => no_use)); [apply G1|]|].
  - intros st2 Hst2. eapply spec_mono; [apply (spec_value read); intros m; by apply Hread|]. intros x st3 (m & -> & Hx & Hm & Hs).
    split; [split; [done|lia]|exact Hs].
  - intros xs st2 ([Hxs Hk]%Forall_and & Hl & H2). subst size. split; [done|]. split; [done|]. split; [lia|]. split; [eapply Forall_impl; [exact Hk|simpl; lia]|].
    assert (use_all (fun _ : A => no_use) xs = no_use) as E0 by (clear; induction xs as [|x xs IH]; [done|]; simpl; by rewrite IH).
    rewrite E0 in H2. pose proof (step_trans _ _ 1 (1 * length xs) st st1 st2 _ _ G1 H2) as G. rewrite use_add_0_r in G.
    apply (step_weaken _ (1 + 1 * length xs)); [|lia]. apply (step_cap cap _ _ _ _ _ G). destruct G as (_ & _ & _ & E1 & E2), H as (_ & _ & _ & _ & H).
    assert (u_strings (header_use c (length xs)) <= Z.of_nat (length xs)) by (destruct c; simpl; lia). lia.
Qed.

Lemma key_lt_total a b : key_lt a b = false -> a <> b -> key_lt b a = true.
Proof.
  revert b. induction a as [|x a IH]; intros [|y b]; simpl; try done. intros [H1 H2]%orb_false_iff Hne. apply orb_true_iff.
  apply Z.ltb_ge in H1. destruct (Z.eqb_spec x y) as [->|]; [right|left; lia]. simpl in H2. rewrite Z.eqb_refl. simpl. apply IH; [done|congruence].
Qed.

Lemma emplace_perm k v (m : section) : map_emplace k v m ≡ₚ (k, v) :: m.
Proof. induction m as [|p m IH]; simpl; [done|]. destruct (key_lt k p.1); [done|]. rewrite IH. by constructor. Qed.

Lemma emplace_order k v (m : section) : in_order m -> k ∉ m.*1 -> in_order (map_emplace k v m).
Proof.
  induction 1 as [|p m Hs IH Hp]; simpl; intros Hk; [repeat constructor|]. apply not_elem_of_cons in Hk as [Hk1 Hk2].
  destruct (key_lt k p.1) eqn:E.
  - constructor; [by constructor|]. constructor; [done|]. eapply Forall_impl; [exact Hp|]. intros q Hq. by eapply key_lt_trans.
  - constructor; [by apply IH|]. rewrite emplace_perm. constructor; [|done]. by apply key_lt_total.
Qed.

Lemma use_add_swap u v w : use_add u (use_add v w) = use_add v (use_add u w).
Proof. unfold use_add. simpl. f_equal; lia. Qed.

Lemma use_all_perm {A} (f : A -> usage) l l' : l ≡ₚ l' -> use_all f l = use_all f l'.
Proof. induction 1 as [|x l l' _ IH|x y l|l l2 l3 _ IH1 _ IH2]; simpl; [done|by f_equal|apply use_add_swap|congruence]. Qed.

Lemma spec_fields cap (rn : rd -> R (list Z * rd)) (load : rd -> R (storage_entry * rd)) (P : storage_entry -> Prop) :
  (forall st, st_ok cap st -> spec (rn st) (fun k st' => name_ok false k /\ step cap 1 st st' no_use)) ->
  (forall st, st_ok cap st -> spec (load st) (fun e st' => P e /\ step cap 1 st st' (usage_of e))) ->
  forall fuel count m st, st_ok cap st -> (length (m_rest st) < fuel)%nat -> 0 <= count -> in_order m ->
  Forall (fun p => name_ok false p.1 /\ P p.2) m ->
  spec (read_fields rn load fuel count m st) (fun fs st' =>
    in_order fs /\ Forall (fun p => name_ok false p.1 /\ P p.2) fs /\ Z.of_nat (length fs) = Z.of_nat (length m) + count
    /\ exists u, use_all (fun p => usage_of p.2) fs = use_add u (use_all (fun p => usage_of p.2) m) /\ step cap 0 st st' u).
Proof.
  intros Hrn Hload. induction fuel as [|fuel IH]; intros count m st H Hf Hc Ho Hm; [lia|]. cbn [read_fields].
  destruct (Z.eqb_spec count 0) as [->|Hc0].
  - split; [done|]. split; [done|]. split; [lia|]. exists no_use. rewrite use_add_0_l. split; [done|]. split; [done|]. simpl. lia.
  - eapply spec_bind; [by apply Hrn|]. intros k st1 [Hk G1]. case_bool_decide as Hin; [done|].
    eapply spec_bind; [apply Hload, G1|]. intros e st2 [He G2]. pose proof (step_trans _ _ 1 1 st st1 st2 _ _ G1 G2) as G3. rewrite use_add_0_l in G3.
    eapply spec_mono; [apply IH|].
    + apply G2.
    + destruct G3 as (_ & _ & _ & _ & G3). lia.
    + lia.
    + by apply emplace_order.
    + rewrite emplace_perm. by constructor.
    + intros fs st3 (Ho' & Hfs & Hl & u & Eu & G4). split; [done|]. split; [done|]. rewrite emplace_perm in Hl. simpl in Hl. split; [lia|].
      exists (use_add (usage_of e) u). split; [|by apply (step_weaken cap 2); [apply (step_trans cap cap 2 0 st st2)|lia]].
      rewrite Eu, (use_all_perm _ _ _ (emplace_perm k e m)). simpl. unfold use_add. simpl. f_equal; lia.
Qed.

(** The functions of the mutual recursion, one step of each *)
Lemma read_ae_section_S n st : read_ae_section max_objects max_fields max_strings (S n) st
  = '(size, st) ← read_ae_size max_objects max_strings Cobject n st;
    read_items (fun st => read_value_section max_objects max_fields max_strings n st) size st.
Proof. done. Qed.
Lemma load_array_S n type st : load_array (S n) type st
  = match type_of_code (Z.land type 0x7f) with
    | Some (Cpod t) => '(l, st) ← read_ae max_objects max_strings (Cpod t) (read_pod t) n st; Ret (ae_pod t l, st)
    | Some Cbool => '(l, st) ← read_ae max_objects max_strings Cbool read_bool n st; Ret (ae_bool l, st)
    | Some Cstring => '(l, st) ← read_ae max_objects max_strings Cstring read_string n st; Ret (ae_string l, st)
    | Some Cobject => '(l, st) ← read_ae_section max_objects max_fields max_strings n st; Ret (ae_section l, st)
    | Some Carray => '(l, st) ← read_ae max_objects max_strings Carray read_array_entry n st; Ret (ae_array l, st)
    | None => Throw Unknown_type
    end.
Proof. done. Qed.
Lemma load_section_S n st : load_section (S n) st
  = '(count, st) ← read_varint n st;
    if negb (count <=? u64 (max_fields - m_fields st)) then Throw Too_many_fields
    else read_fields (fun st => read_sec_name n st) (fun st => load_entry n st) (S (length (m_rest st))) count [] (add_fields st count).
Proof. done. Qed.
Lemma load_entry_S n st : load_entry (S n) st
  = '(ent_type, st) ← read_pod UINT8 n st;
    if negb (Z.land ent_type SERIALIZE_FLAG_ARRAY =? 0)
    then '(a, st) ← load_array n ent_type st; Ret (se_array a, st)
    else match type_of_code ent_type with Some c => entry_body c n st | None => Throw Unknown_type end.
Proof. cbn [load_storage_entry]. destruct (read_pod UINT8 n st) as [[t st']|e]; [|done]. cbn [mbind result_bind]. destruct (negb _); [done|].
  by destruct (type_of_code t) as [[]|]. Qed.
Lemma read_se_array_S n st : read_se_array max_objects max_fields max_strings (S n) st
  = '(ent_type, st) ← read_pod UINT8 n st;
    if Z.land ent_type SERIALIZE_FLAG_ARRAY =? 0 then Throw Wrong_type_sequence
    else '(a, st) ← load_array n ent_type st; Ret (se_array a, st).
Proof. done. Qed.

Definition entry_spec (n : nat) : Prop := forall cap st, cap < 2 ^ 64 - 1 -> st_ok cap st ->
  spec (load_entry n st) (fun e st' => wf false e /\ (levels e <= n)%nat /\ step cap 1 st st' (usage_of e)).
Definition array_spec (n : nat) : Prop := forall cap type st, cap < 2 ^ 64 - 1 -> st_ok cap st ->
  spec (load_array n type st) (fun a st' => wf_array false a /\ (array_levels a <= n)%nat /\ step cap 1 st st' (array_usage a)).
Definition section_spec (n : nat) : Prop := forall cap st, cap < 2 ^ 64 - 1 -> st_ok cap st ->
  spec (load_section n st) (fun fs st' => wf_section false fs /\ (section_levels fs <= n)%nat /\ step cap 1 st st' (section_usage fs)).

Lemma section_spec_step n : entry_spec n -> section_spec (S n).
Proof.
  intros He cap st Hcap H. rewrite load_section_S. eapply spec_bind; [by apply spec_varint|]. intros count st1 (Hc & Hn & G1).
  pose proof G1 as ((Hb & Ho & Hf & Hst & Hcs) & E1 & E2 & E3 & E4). rewrite wrap_small by mach.
  destruct (Z.leb_spec count (max_fields - m_fields st1)); [|done]. cbn [negb].
  assert (step cap 0 st1 (add_fields st1 count) (fields_of (Z.to_nat count))) as G2.
  { unfold step, st_ok. cbn. rewrite wrap_small by mach. simpl in *. repeat split; (done || lia). }
  eapply spec_mono.
  - apply (spec_fields cap _ _ (fun e => wf false e /\ (levels e <= n)%nat)).
    + intros st2 Hst2. eapply spec_mono; [by apply spec_name|]. intros k st3 (? & _ & ?). done.
    + intros st2 Hst2. eapply spec_mono; [by apply He|]. intros e st3 (? & ? & ?). done.
    + apply G2.
    + cbn. lia.
    + lia.
    + constructor.
    + constructor.
  - intros fs st2 (Hord & Hfs & Hl & u & Eu & G3). rewrite use_add_0_r in Eu. simpl in Hl.
    split; [split; [unfold size_ok; lia|]; split; [done|]; apply all_of_Forall; eapply Forall_impl; [exact Hfs|]; tauto|].
    split; [unfold section_levels; assert (deepest (fun p => levels p.2) fs <= n)%nat; [|lia]; apply deepest_le; eapply Forall_impl; [exact Hfs|]; tauto|].
    unfold section_usage. rewrite Eu. replace (length fs) with (Z.to_nat count) by lia.
    rewrite <- (use_add_0_l (use_add _ u)). apply (step_trans cap cap 1 0 st st1); [done|]. by apply (step_trans cap cap 0 0 st1 (add_fields st1 count)).
Qed.


Lemma array_spec_step n : (forall m, (m < n)%nat -> section_spec m) -> array_spec n.
Proof.
  intros Hsec cap type st Hcap H. destruct n as [|n]; [done|]. rewrite load_array_S. destruct (type_of_code _) as [[t| | | |]|]; [..|done].
  - eapply spec_bind; [apply (spec_ae cap _ (read_pod t) n st (pod_ok t) 2 H); intros cap' m st1; apply spec_pod|].
    intros l st1 (Hs & Hp & Hn & _ & G). simpl. split; [by split; [|apply all_of_Forall]|]. split; [lia|exact G].
  - eapply spec_bind; [apply (spec_ae cap _ read_bool n st (fun _ => True) 2 H); intros cap' m st1 G; eapply spec_mono; [by apply (spec_bool cap')|]; intros ? ? [? ?]; done|].
    intros l st1 (Hs & _ & Hn & _ & G). simpl. split; [done|]. split; [lia|exact G].
  - eapply spec_bind; [apply (spec_ae cap _ read_string n st string_ok 5 H); intros cap' m st1; apply spec_string|].
    intros l st1 (Hs & Hp & Hn & Hk & G). simpl.
    split; [split; [done|]; apply all_of_Forall; eapply Forall_impl; [exact Hp|]; intros s Hstr; by split|]. split; [|exact G].
    assert (deepest (fun _ => 6%nat) l <= n - 1)%nat; [|lia]. apply deepest_le. eapply Forall_impl; [exact Hk|]. simpl. lia.
  - destruct n as [|n]; [done|]. rewrite read_ae_section_S. eapply spec_bind.
    + eapply spec_bind; [by apply spec_size|]. intros size st1 (Hsz & Hn & G1).
      eapply spec_mono; [apply (spec_items cap 0 _ (fun fs => wf_section false fs /\ (2 + section_levels fs <= S n)%nat) section_usage); [rewrite <- (Z.add_0_r cap); apply G1|]|].
      * intros st2 G2. destruct n as [|n]; [done|]. change (read_value_section max_objects max_fields max_strings (S n) st2) with (load_section n st2).
        eapply spec_mono; [apply Hsec; [lia|done|done]|]. intros fs st3 (Hw & Hl & Hs). split; [split; [done|lia]|]. by apply (step_weaken cap 1); [|lia].
      * intros l st2 (Hl & El & G2). pose proof (step_trans _ _ 1 0 st st1 st2 _ _ G1 G2) as G. rewrite <- El in G. subst size.
        exact (conj Hsz (conj Hn (conj Hl G))).
    + intros l st2 (Hsz & Hn & [Hw Hlv]%Forall_and & G). simpl. split; [split; [done|by apply all_of_Forall]|]. split; [|exact G].
      change (S (S (4 `max` deepest (fun fs => S (section_levels fs)) l)) <= S (S n))%nat.
      assert (deepest (fun fs => S (section_levels fs)) l <= n)%nat; [|lia].
      apply deepest_le. eapply Forall_impl; [exact Hlv|]. simpl. lia.
  - eapply spec_bind; [apply (spec_ae cap _ read_array_entry n st (fun _ => False) 0 H); intros cap' m st1 _; by destruct m|].
    intros l st1 (_ & Hp & Hn & _ & G). destruct l as [|x l]; [|by inversion Hp]. simpl. split; [done|]. split; [lia|exact G].
Qed.

Lemma spec_array_entry cap n type st : array_spec n -> cap < 2 ^ 64 - 1 -> st_ok cap st ->
  spec ('(a, st') ← load_array n type st; Ret (se_array a, st')) (fun e st' => wf false e /\ (levels e <= S n)%nat /\ step cap 1 st st' (usage_of e)).
Proof. intros Ha Hcap H. eapply spec_bind; [by apply Ha|]. intros a st' (Hw & Hl & G). simpl. split; [done|]. split; [lia|done]. Qed.

Lemma body_spec cap c n : (forall m, (m < n)%nat -> section_spec m /\ array_spec m) -> cap < 2 ^ 64 - 1 -> forall st, st_ok cap st ->
  spec (entry_body c n st) (fun e st' => wf false e /\ (levels e <= S n)%nat /\ step cap 1 st st' (usage_of e)).
Proof.
  intros Hrec Hcap st H. destruct n as [|n]; [by destruct c|]. pose proof H as (Hb & Ho & Hf & Hs & Hc). destruct c as [t| | | |]; cbn [entry_body].
  - cbn [read_se]. eapply spec_bind; [by apply spec_pod|]. intros v st' (Hv & Hn & G). simpl. split; [done|]. split; [lia|done].
  - cbn [read_se]. eapply spec_bind; [by apply spec_bool|]. intros v st' (Hn & G). simpl. split; [done|]. split; [lia|done].
  - cbn [read_se_string]. rewrite wrap_small by mach. destruct (Z.leb_spec (m_strings st + 1) max_strings) as [Hlt|]; [|done]. cbn [negb].
    assert (step (cap + 1) 0 st (add_strings st 1) (strings_of 1)) as G0 by (unfold step, st_ok; cbn; rewrite wrap_small by mach; repeat split; (done || lia)).
    eapply spec_bind; [apply (spec_value read_string); intros m; apply (spec_string (cap + 1)), G0|]. intros s st' (m & -> & Hok & Hm & G).
    pose proof (step_trans _ _ 0 1 st _ st' _ _ G0 G) as G'. rewrite use_add_0_r in G'. split; [done|]. split; [simpl; lia|].
    apply (step_cap cap _ _ _ _ _ G'). destruct G' as (_ & _ & _ & E1 & E2). simpl in E1. lia.
  - rewrite read_se_section_S. destruct (Z.ltb_spec (m_objects st) max_objects) as [Hlt|]; [|done]. cbn [negb].
    assert (step cap 0 st (add_objects st 1) (objects_of 1)) as G0.
    { unfold step, st_ok; cbn; rewrite wrap_small by mach; repeat split; (done || lia). }
    eapply spec_bind; [apply (proj1 (Hrec n ltac:(lia)) cap); [done|apply G0]|]. intros fs st' (Hw & Hl & G). split; [done|].
    split; [unfold section_levels in Hl; simpl; lia|]. by apply (step_trans cap cap 0 1 st (add_objects st 1)).
  - rewrite read_se_array_S. eapply spec_bind; [by apply spec_pod|]. intros type st1 (_ & _ & G1). destruct (_ =? 0); [done|].
    eapply spec_mono; [apply (spec_array_entry cap); [apply Hrec; lia|done|apply G1]|]. intros e st2 (Hw & Hl & G2). split; [done|]. split; [lia|].
    rewrite <- (use_add_0_l (usage_of e)). apply (step_weaken _ 2); [by apply (step_trans cap cap 1 1 st st1)|lia].
Qed.

Lemma all_specs n : entry_spec n /\ array_spec n /\ section_spec n.
Proof.
  induction n as [n IH] using lt_wf_ind. assert (array_spec n) as Ha by (apply array_spec_step; intros m Hm; by apply IH).
  split; [|split; [done|]]; (destruct n as [|n]; [by intros ? ?|]).
  - intros cap st Hcap H. rewrite load_entry_S. eapply spec_bind; [by apply spec_pod|]. intros type st1 (_ & _ & G1).
    apply (spec_mono _ _ (fun e st2 => wf false e /\ (levels e <= S n)%nat /\ step cap 1 st1 st2 (usage_of e))).
    + destruct (negb _); [apply spec_array_entry; [apply IH; lia|done|apply G1]|]. destruct (type_of_code type) as [c|]; [|done].
      apply body_spec; [|done|apply G1]. intros m Hm. destruct (IH m ltac:(lia)) as (_ & ? & ?). by split.
    + intros e st2 (Hw & Hl & G2). split; [done|]. split; [done|].
      rewrite <- (use_add_0_l (usage_of e)). apply (step_weaken cap 2); [by apply (step_trans cap cap 1 1 st st1)|lia].
  - apply section_spec_step, IH. lia.
Qed.
End Reads.

(** ** Storages as a whole *)

Definition limits_ok (l : limits_t) : Prop := 0 <= n_objects l < 2 ^ 64 /\ 0 <= n_fields l < 2 ^ 64 /\ 0 <= n_strings l < 2 ^ 64.
Definition within_limits (l : limits_t) (u : usage) : Prop :=
  u_objects u <= n_objects l /\ u_fields u <= n_fields l /\ u_strings u <= n_strings l.

Lemma load_body body limits : body <> [] ->
  load_from_binary (storage_block_header ++ body) limits
  = match read_section (n_objects limits) (n_fields limits) (n_strings limits) 99 (Reader body 0 0 0) with
    | Ret (m_root, _) => Some m_root | Throw _ => None end.
Proof.
  intros Hne. unfold load_from_binary. rewrite bool_decide_eq_false_2 by (rewrite length_app; lia).
  rewrite take_app_length, drop_app_length, bool_decide_eq_true_2 by done. cbn [negb]. by rewrite bool_decide_eq_false_2.
Qed.

Lemma store_and_load root limits extra : limits_ok limits -> wf_section true root -> (section_levels root <= 99)%nat ->
  within_limits limits (section_usage root) ->
  exists blob, store_to_binary root = Ret blob /\ load_from_binary (blob ++ extra) limits = Some root.
Proof.
  intros Hlim Hw Hl Hu. destruct (proj2 (proj2 (all_read _ _ _ Hlim 99)) root Hl Hw) as (_ & bs & Eb & Hr & Hne).
  unfold store_to_binary. rewrite Eb. cbn [mbind result_bind]. eexists. split; [done|].
  rewrite <- app_assoc, load_body by (by destruct bs). rewrite (Hr (Reader (bs ++ extra) 0 0 0) extra); [done| |done].
  unfold within, within_limits in *. cbn [m_objects m_fields m_strings]. lia.
Qed.

(** What is stored is loaded again, also with other bytes after it: the writer takes every
    storage with values in range, names of 1 to 254 bytes, no array of arrays that has items and
    no empty string in an array, and the reader gives it back, when no more than 99 calls nest
    and the objects, fields and strings are within the limits. *)
Theorem storage_roundtrip root limits extra : limits_ok limits -> wf_section true root -> (section_levels root <= 99)%nat ->
  within_limits limits (section_usage root) ->
  exists blob, store_to_binary root = Ret blob /\ load_from_binary (blob ++ extra) limits = Some root.
Proof. apply store_and_load. Qed.

Lemma load_spec body limits : byte_list body -> Z.of_nat (length body) < 2 ^ 64 - 1 -> limits_ok limits ->
  spec (read_section (n_objects limits) (n_fields limits) (n_strings limits) 99 (Reader body 0 0 0))
    (fun root st => wf_section false root /\ (section_levels root <= 99)%nat /\ within_limits limits (section_usage root)).
Proof.
  intros Hb Hl Hlim. eapply spec_mono; [apply (proj2 (proj2 (all_specs _ _ _ Hlim 99)) (Z.of_nat (length body))); [done|]|].
  - unfold limits_ok in Hlim. unfold st_ok. cbn. repeat split; (done || lia).
  - intros root st (Hw & Hlv & (_ & Ho & Hf & Hs & _) & E1 & E2 & E3 & _). cbn [m_objects m_fields m_strings] in E1, E2, E3.
    split; [done|]. split; [done|]. unfold within_limits. lia.
Qed.


(** The loop over the fields never ends for want of fuel. *)
Lemma fuel_enough body limits : byte_list body -> Z.of_nat (length body) < 2 ^ 64 - 1 -> limits_ok limits ->
  read_section (n_objects limits) (n_fields limits) (n_strings limits) 99 (Reader body 0 0 0) <> Throw Out_of_fuel.
Proof. intros Hb Hl Hlim E. pose proof (load_spec body limits Hb Hl Hlim) as Hs. rewrite E in Hs. by apply Hs. Qed.

(** ** Witnesses *)

Definition sample_root : section :=
  [(str_bytes "a", se_pod INT16 (-2)); (str_bytes "b", se_section [(str_bytes "x", se_string (str_bytes "hi"))]);
   (str_bytes "c", se_array (ae_section [[]; [(str_bytes "y", se_bool true)]]))].
Definition sample_limits : limits_t := {| n_objects := 3; n_fields := 5; n_strings := 1 |}.

Lemma sample_wf : wf_section true sample_root.
Proof.
  simpl. unfold name_ok, size_ok, in_order, string_ok, pod_ok, width.
  split_and!; try by_decide; try by constructor; repeat constructor.
Qed.

Lemma storage_roundtrip_witness :
  exists blob, store_to_binary sample_root = Ret blob /\ load_from_binary (blob ++ [1; 2; 3]) sample_limits = Some sample_root.
Proof.
  apply (storage_roundtrip sample_root sample_limits [1; 2; 3]); [by vm_compute|apply sample_wf|by_decide|by vm_compute].
Defined.

Definition sample_source : list Z := match store_to_binary sample_root with Ret b => b | Throw _ => [] end.

(** One object less in the limits and the same bytes are refused. *)
Example limit_refused : load_from_binary sample_source {| n_objects := 2; n_fields := 5; n_strings := 1 |} = None.
Proof. vm_compute. reflexivity. Qed.
