(* ===== verification/NetBuffer.v ===== *)
(** * The bytes of a connection that wait: core/contrib/epee/include/net/buffer.h and
    core/contrib/epee/src/buffer.cpp

    A vector with an offset: what was read is skipped and only moved away when bytes are added.
    [Levin] keeps the list of the bytes instead, and the theorem here is why it may. The capacity a
    vector has after [reserve] is left open. *)

From S2P Require Import Prelude.

Record buffer := Buffer { storage : list Z; offset : nat; capacity : nat }.

Inductive buffer_error := Too_much_data | Erase_too_large | Span_too_large.

Definition size (b : buffer) : nat := (length (storage b) - offset b)%nat.

(** What is between the offset and the end *)
Definition contents (b : buffer) : list Z := drop (offset b) (storage b).

Section Buffer.
(** The capacity of a vector that had less, after [reserve(n)] *)
Context (reserve_to : nat -> nat).

Definition new_buffer (reserve : nat) : buffer := Buffer [] 0 (reserve_to reserve).

(** The number of bytes to reserve for [n] *)
Definition round_up (n : nat) : nat := Z.to_nat (Z.land (u64 (u64 (Z.of_nat n * 3) / 2 + 4095)) (Z.lnot 4095)).

(** The two branches that move, then the new data; [memmove] and [memcpy] take the bytes from the
    offset on. *)
Definition append (data : list Z) (b : buffer) : result buffer_error buffer :=
  let sz := length data in
  let avail := (capacity b - length (storage b))%nat in
  if negb (Z.of_nat (length (storage b)) <? u64 (UINT64_MAX - Z.of_nat sz)) then Throw Too_much_data
  else
    let b :=
      if bool_decide (avail < sz)%nat
      then
        if bool_decide (size b + sz <= capacity b)%nat
        then Buffer (drop (offset b) (storage b)) 0 (capacity b)
        else Buffer (drop (offset b) (storage b)) 0 (reserve_to (round_up (size b + sz)))
      else if bool_decide (size b <= 4096)%nat && bool_decide (4096 * 16 < offset b)%nat && bool_decide (capacity b / 2 <= offset b)%nat
      then Buffer (drop (offset b) (storage b)) 0 (capacity b)
      else b in
    Ret (Buffer (storage b ++ data) (offset b) (capacity b)).

Definition erase (sz : nat) (b : buffer) : result buffer_error buffer :=
  if negb (bool_decide (offset b + sz <= length (storage b))%nat) then Throw Erase_too_large
  else
    let offset' := (offset b + sz)%nat in
    if bool_decide (offset' = length (storage b)) then Ret (Buffer [] 0 (capacity b)) else Ret (Buffer (storage b) offset' (capacity b)).

Definition span (sz : nat) (b : buffer) : result buffer_error (list Z) :=
  if negb (bool_decide (sz <= size b)%nat) then Throw Span_too_large else Ret (take sz (drop (offset b) (storage b))).

Definition carve (sz : nat) (b : buffer) : result buffer_error (list Z * buffer) :=
  if negb (bool_decide (sz <= size b)%nat) then Throw Span_too_large
  else
    let offset' := (offset b + sz)%nat in
    Ret (take sz (drop (offset' - sz) (storage b)), Buffer (storage b) offset' (capacity b)).

(** ** Calls, and the same on a list *)

Inductive buffer_call := Append (data : list Z) | Erase (sz : nat) | Span (sz : nat) | Carve (sz : nat).

Definition run_call (c : buffer_call) (b : buffer) : result buffer_error (list Z * buffer) :=
  match c with
  | Append data => b ← append data b; Ret ([], b)
  | Erase sz => b ← erase sz b; Ret ([], b)
  | Span sz => bs ← span sz b; Ret (bs, b)
  | Carve sz => carve sz b
  end.
Definition spec_call (c : buffer_call) (l : list Z) : result buffer_error (list Z * list Z) :=
  match c with
  | Append data => Ret ([], l ++ data)
  | Erase sz => if bool_decide (length l < sz)%nat then Throw Erase_too_large else Ret ([], drop sz l)
  | Span sz => if bool_decide (length l < sz)%nat then Throw Span_too_large else Ret (take sz l, l)
  | Carve sz => if bool_decide (length l < sz)%nat then Throw Span_too_large else Ret (take sz l, drop sz l)
  end.
(** The bytes returned by each call, until one throws *)
Fixpoint run_calls {S} (run : buffer_call -> S -> result buffer_error (list Z * S)) (cs : list buffer_call) (s : S)
    : list (list Z) * result buffer_error S :=
  match cs with
  | [] => ([], Ret s)
  | c :: cs =>
      match run c s with
      | Ret (bs, s) => let '(out, r) := run_calls run cs s in (bs :: out, r)
      | Throw e => ([], Throw e)
      end
  end.

(** The bytes appended by the calls *)
Definition added (cs : list buffer_call) : Z :=
  foldr (fun c n => match c with Append data => Z.of_nat (length data) + n | _ => n end) 0 cs.

Lemma added_cons c cs : added (c :: cs) = added [c] + added cs.
Proof. unfold added. destruct c; cbn; lia. Qed.
Lemma added_nonneg cs : 0 <= added cs.
Proof. unfold added. induction cs as [|[] cs IH]; cbn; lia. Qed.

(** ** The buffer is the list *)

Context (Hreserve : forall n, Z.of_nat n < 2 ^ 63 -> (n <= reserve_to n)%nat /\ Z.of_nat (reserve_to n) < 2 ^ 63).

(** The offset is in the vector, and the vector within its capacity, which has the limit of
    [std::vector]. *)
Definition buffer_ok (b : buffer) : Prop := (offset b <= length (storage b) <= capacity b)%nat /\ Z.of_nat (capacity b) < 2 ^ 63.

#[local] Ltac Zify.zify_post_hook ::= Z.to_euclidean_division_equations.
Lemma round_up_spec n : Z.of_nat n < 2 ^ 62 -> (n <= round_up n)%nat /\ Z.of_nat (round_up n) < 2 ^ 63.
Proof.
  intros Hn. unfold round_up. rewrite (wrap_small 64 (_ * 3)) by (unfold in_width; lia). rewrite (wrap_small 64) by (unfold in_width; lia).
  set (y := Z.of_nat n * 3 / 2 + 4095). change (Z.lnot 4095) with (Z.lnot (Z.ones 12)). rewrite <- Z.ldiff_land, Z.ldiff_ones_r, Z.shiftl_mul_pow2, Z.shiftr_div_pow2 by lia.
  change (2 ^ 12) with 4096. unfold y. lia.
Qed.

#[local] Ltac Zify.zify_post_hook ::= idtac.
Lemma contents_length b : length (contents b) = size b.
Proof. unfold contents, size. by rewrite length_drop. Qed.

Lemma append_spec data b : buffer_ok b -> Z.of_nat (size b) + Z.of_nat (length data) < 2 ^ 62 ->
  exists b', append data b = Ret b' /\ buffer_ok b' /\ contents b' = contents b ++ data.
Proof.
  intros [[Ho Hs] Hc] Hlen. unfold append. rewrite wrap_small by (unfold in_width, UINT64_MAX; lia).
  replace (_ <? _) with true by (symmetry; apply Z.ltb_lt; unfold UINT64_MAX; lia). cbn [negb]. eexists. split; [reflexivity|].
  assert (length (contents b ++ data) = size b + length data)%nat as Hl by (rewrite length_app, contents_length; lia).
  assert (forall c, (length (contents b ++ data) <= c)%nat -> Z.of_nat c < 2 ^ 63 ->
    buffer_ok (Buffer (contents b ++ data) 0 c) /\ contents (Buffer (contents b ++ data) 0 c) = contents b ++ data) as Hmoved
    by (intros c H1 H2; unfold buffer_ok; cbn [storage offset capacity]; split; [lia|unfold contents; by rewrite drop_0]).
  fold (contents b). case_bool_decide as Hav; cbn [andb].
  - destruct (round_up_spec (size b + length data) ltac:(lia)) as [R1 R2]. destruct (Hreserve _ R2) as [R3 R4].
    case_bool_decide; apply Hmoved; cbn [capacity]; lia.
  - destruct (_ && _) eqn:Em; [apply Hmoved; cbn [capacity]; unfold size in *; lia|]. unfold buffer_ok, contents. cbn [storage offset capacity].
    rewrite length_app, drop_app. split; [lia|]. by replace (offset b - length (storage b))%nat with 0%nat by lia.
Qed.

(** What a call returns, and the bytes after it, are those of the list. *)
Lemma call_refines c b : buffer_ok b -> Z.of_nat (size b) + added [c] < 2 ^ 62 ->
  match run_call c b, spec_call c (contents b) with
  | Ret (out, b'), Ret (out', l') => out = out' /\ contents b' = l' /\ buffer_ok b' /\ Z.of_nat (size b') <= Z.of_nat (size b) + added [c]
  | Throw e, Throw e' => e = e'
  | _, _ => False
  end.
Proof.
  intros Hb Hlen. pose proof (contents_length b) as Hl. destruct c as [data|sz|sz|sz]; cbn [run_call spec_call added foldr] in *.
  - rewrite Z.add_0_r in *. destruct (append_spec data b Hb Hlen) as (b' & -> & Hb' & Ec). cbn. split; [done|]. split; [done|]. split; [done|].
    rewrite <- contents_length, Ec, length_app. lia.
  - unfold erase, size in *. destruct Hb as [[Ho Hs] Hc]. rewrite Hl. repeat case_bool_decide; cbn; try lia; try done;
      unfold contents, buffer_ok; cbn; rewrite drop_drop; [rewrite drop_ge by lia|]; repeat split; (done || lia).
  - unfold span. rewrite Hl. repeat case_bool_decide; cbn; try lia; try done. repeat split; (done || lia || apply Hb).
  - unfold carve. rewrite Hl. destruct Hb as [[Ho Hs] Hc]. repeat case_bool_decide; cbn; try lia; try done.
    replace (offset b + sz - sz)%nat with (offset b) by lia. unfold contents, buffer_ok, size in *. cbn. rewrite drop_drop. repeat split; (done || lia).
Qed.

(** A buffer is a list: after any calls, each returned the bytes that it would on the list of the
    bytes waiting, or threw where it would, and what is in the buffer is that list, also
    where bytes were moved to the front or to a larger vector. *)
Theorem buffer_refines reserve cs : Z.of_nat reserve < 2 ^ 63 -> added cs < 2 ^ 62 ->
  let '(out, r) := run_calls run_call cs (new_buffer reserve) in
  let '(out', r') := run_calls spec_call cs [] in
  out = out' /\ match r, r' with Ret b, Ret l => contents b = l | Throw e, Throw e' => e = e' | _, _ => False end.
Proof.
  intros Hr Ha. assert (forall cs b, buffer_ok b -> Z.of_nat (size b) + added cs < 2 ^ 62 ->
    let '(out, r) := run_calls run_call cs b in let '(out', r') := run_calls spec_call cs (contents b) in
    out = out' /\ match r, r' with Ret b, Ret l => contents b = l | Throw e, Throw e' => e = e' | _, _ => False end) as Hall.
  { clear cs Ha. intros cs. induction cs as [|c cs IH]; intros b Hb Ha; [done|]. cbn [run_calls].
    pose proof (added_nonneg cs). pose proof (added_cons c cs) as Hadd.
    pose proof (call_refines c b Hb ltac:(lia)) as Hc. destruct (run_call c b) as [[out b']|e], (spec_call c (contents b)) as [[out' l']|e']; [|done|done|by subst].
    destruct Hc as (-> & <- & Hb' & Hs). specialize (IH b' Hb' ltac:(lia)).
    destruct (run_calls run_call cs b') as [o r], (run_calls spec_call cs (contents b')) as [o' r']. by destruct IH as [-> IH]. }
  apply (Hall cs (new_buffer reserve)).
  - destruct (Hreserve reserve Hr). split; cbn; [lia|done].
  - cbn. lia.
Qed.
End Buffer.

Lemma buffer_refines_witness :
  let calls := [Append [1; 2; 3; 4]; Carve 2; Append (replicate 4100 7); Span 3; Erase 4102; Erase 1] in
  run_calls (run_call (fun n => n)) calls (new_buffer (fun n => n) 4096)
  = ([[]; [1; 2]; []; [3; 4; 7]; []], Throw Erase_too_large)
  /\ (run_calls (run_call (fun n => n)) calls (new_buffer (fun n => n) 4096)).1 = (run_calls spec_call calls []).1.
Proof.
  intros calls. pose proof (buffer_refines (fun n => n) (fun n H => conj (Nat.le_refl n) H) 4096 calls ltac:(lia) ltac:(vm_compute; reflexivity)) as H.
  split; [vm_compute; reflexivity|]. destruct (run_calls (run_call (fun n => n)) calls (new_buffer (fun n => n) 4096)) as [out r].
  destruct (run_calls spec_call calls []) as [out' r']. exact (proj1 H).
Defined.
