(* ===== verification/Levin.v ===== *)
(** * Messages between nodes: core/contrib/epee/include/net/levin_base.h,
    core/contrib/epee/src/levin_base.cpp, levin_protocol_handler_async.h and the limits of
    core/src/cryptonote_basic/connection_context.cpp

    A message is a header of 33 bytes and a body; a body may also be cut into fragments that are
    as long as the noise sent between them. [handle_recv] takes the bytes of a connection as they
    come, in pieces of any length, and calls the commands of the node or the callback of an
    earlier request. What is outside of the object (the node, the connection, the endpoint) is a
    state of any type [C]. *)

From Stdlib Require Import Sorted.
From stdpp Require Import sorting.
From S2P Require Import Prelude IntUtil Radix PortableStorage.

(** ** The header *)

Definition LEVIN_SIGNATURE : Z := 0x0101010101012101.
Definition LEVIN_INITIAL_MAX_PACKET_SIZE : Z := 256 * 1024.
Definition LEVIN_DEFAULT_MAX_PACKET_SIZE : Z := 100000000.
Definition LEVIN_PACKET_REQUEST : Z := 1.
Definition LEVIN_PACKET_RESPONSE : Z := 2.
Definition LEVIN_PACKET_BEGIN : Z := 4.
Definition LEVIN_PACKET_END : Z := 8.
Definition LEVIN_PROTOCOL_VER_1 : Z := 1.
Definition LEVIN_ERROR_CONNECTION : Z := -1.
Definition LEVIN_ERROR_CONNECTION_DESTROYED : Z := -3.
Definition LEVIN_ERROR_CONNECTION_TIMEDOUT : Z := -4.

Record bucket_head2 := Head {
  m_signature : Z; m_cb : Z; m_have_to_return_data : Z; m_command : Z; m_return_code : Z; m_flags : Z; m_protocol_version : Z }.

(** The structure is packed: its bytes are those of its members. *)
Definition sizeof_head : nat := 33.
Definition head_bytes (h : bucket_head2) : list Z :=
  pod_bytes UINT64 (m_signature h) ++ pod_bytes UINT64 (m_cb h) ++ pod_bytes UINT8 (m_have_to_return_data h)
  ++ pod_bytes UINT32 (m_command h) ++ pod_bytes INT32 (m_return_code h) ++ pod_bytes UINT32 (m_flags h)
  ++ pod_bytes UINT32 (m_protocol_version h).
Definition head_of (bs : list Z) : bucket_head2 :=
  let at_ t n := pod_value t (take (pod_size t) (drop n bs)) in
  Head (at_ UINT64 0%nat) (at_ UINT64 8%nat) (at_ UINT8 16%nat) (at_ UINT32 17%nat) (at_ INT32 21%nat) (at_ UINT32 25%nat) (at_ UINT32 29%nat).

(** Conversion to [int] *)
Definition int32 (z : Z) : Z := if u32 z <? 2 ^ 31 then u32 z else u32 z - 2 ^ 32.

(** ** Writing *)

Definition make_header (command msg_size flags : Z) (expect_response : bool) : bucket_head2 :=
  Head LEVIN_SIGNATURE msg_size (if expect_response then 1 else 0) command 0 flags LEVIN_PROTOCOL_VER_1.

(** [message_writer], by its payload *)
Definition finalize (command flags return_code : Z) (expect_response : bool) (payload : list Z) : list Z :=
  let head := make_header command (Z.of_nat (length payload)) flags expect_response in
  head_bytes (Head (m_signature head) (m_cb head) (m_have_to_return_data head) (m_command head) (int32 return_code)
                (m_flags head) (m_protocol_version head)) ++ payload.
Definition finalize_invoke (command : Z) : list Z -> list Z := finalize command LEVIN_PACKET_REQUEST 0 true.
Definition finalize_notify (command : Z) : list Z -> list Z := finalize command LEVIN_PACKET_REQUEST 0 false.
Definition finalize_response (command return_code : Z) : list Z -> list Z := finalize command LEVIN_PACKET_RESPONSE return_code false.

(** No bytes for [nullptr] *)
Definition make_noise_notify (noise_bytes : nat) : list Z :=
  if bool_decide (noise_bytes < sizeof_head)%nat then []
  else
    head_bytes (make_header 0 (Z.of_nat (noise_bytes - sizeof_head)) (Z.lor LEVIN_PACKET_BEGIN LEVIN_PACKET_END) false)
    ++ replicate (noise_bytes - sizeof_head) 0.

(** The loop [while (!payload.empty())], which takes a byte at least in a round, and the size of the
    last copy *)
Fixpoint fragments_loop (fuel payload_space : nat) (payload : list Z) (copy_size : nat) : list Z * nat :=
  match fuel with
  | O => ([], copy_size)
  | S fuel =>
      if bool_decide (payload = []) then ([], copy_size)
      else
        let copy := take payload_space payload in
        let payload := drop payload_space payload in
        let flags := if bool_decide (payload = []) then LEVIN_PACKET_END else 0 in
        let '(rest, copy_size) := fragments_loop fuel payload_space payload (length copy) in
        (head_bytes (make_header 0 (Z.of_nat payload_space) flags false) ++ copy ++ rest, copy_size)
  end.
Definition make_fragmented_notify (noise_size : nat) (command : Z) (message : list Z) : list Z :=
  if bool_decide (noise_size < 2 * sizeof_head)%nat then []
  else if bool_decide (sizeof_head + length message <= noise_size)%nat
  then finalize_notify (u32 command) (message ++ replicate (noise_size - (sizeof_head + length message)) 0)
  else
    let payload := finalize_notify (u32 command) message in
    let payload_space := (noise_size - sizeof_head)%nat in
    let copy := take payload_space payload in
    let payload := drop payload_space payload in
    let '(rest, copy_size) := fragments_loop (length payload) payload_space payload (length copy) in
    head_bytes (make_header 0 (Z.of_nat payload_space) LEVIN_PACKET_BEGIN false) ++ copy ++ rest
    ++ replicate (noise_size - copy_size - sizeof_head) 0.

(** ** Limits of commands *)

Definition P2P_COMMANDS_POOL_BASE : Z := 1000.
Definition BC_COMMANDS_POOL_BASE : Z := 2000.
Definition handshake_command : Z := 1001.
Definition get_max_bytes (command : Z) : Z :=
  if command =? P2P_COMMANDS_POOL_BASE + 1 then 65536
  else if command =? P2P_COMMANDS_POOL_BASE + 2 then 65536
  else if command =? P2P_COMMANDS_POOL_BASE + 3 then 4096
  else if command =? P2P_COMMANDS_POOL_BASE + 7 then 4096
  else if command =? BC_COMMANDS_POOL_BASE + 1 then 1024 * 1024 * 128
  else if command =? BC_COMMANDS_POOL_BASE + 2 then 1024 * 1024 * 128
  else if command =? BC_COMMANDS_POOL_BASE + 3 then 1024 * 1024 * 2
  else if command =? BC_COMMANDS_POOL_BASE + 4 then 1024 * 1024 * 128
  else if command =? BC_COMMANDS_POOL_BASE + 6 then 512 * 1024
  else if command =? BC_COMMANDS_POOL_BASE + 7 then 1024 * 1024 * 4
  else if command =? BC_COMMANDS_POOL_BASE + 8 then 1024 * 1024 * 4
  else if command =? BC_COMMANDS_POOL_BASE + 9 then 1024 * 1024
  else if command =? BC_COMMANDS_POOL_BASE + 10 then 1024 * 1024 * 4
  else 2 ^ 64 - 1.

(** ** A connection *)

Inductive stream_state := stream_state_head | stream_state_body.

(** What waits for the response to a request: [anvoke_handler], with the number of the request.
    The timer is kept as: is there a wait that has not ended? *)
Record anvoke_handler := Anvoke {
  m_id : nat; m_timer_pending : bool; m_timer_started : bool; m_cancel_timer_called : bool; m_timer_cancelled : bool }.

(** What the endpoint and the node do; [invoke] returns the code, the bytes of the answer and the
    new state. *)
Record surroundings (C : Type) := {
  do_send : list Z -> C -> bool * C;
  add_ref : C -> bool;
  endpoint_close : bool -> C -> C;
  invoke : Z -> list Z -> C -> Z * list Z * C;
  notify : Z -> list Z -> C -> C;
  callback : nat -> Z -> list Z -> C -> C;
  handshake_complete : C -> bool;
  config_max_packet_size : Z }.
Arguments do_send {C}. Arguments add_ref {C}. Arguments endpoint_close {C}. Arguments invoke {C}. Arguments notify {C}.
Arguments callback {C}. Arguments handshake_complete {C}. Arguments config_max_packet_size {C}.

(** The members of the class. Beside them: the requests made, the callbacks called, with the codes
    they got, and the requests whose wait has ended and whose timeout has yet to run. *)
Record async_protocol_handler (C : Type) := Conn {
  m_protocol_released : bool; m_wait_count : Z; m_close_called : Z; m_current_head : bucket_head2; m_max_packet_size : Z;
  m_cache_in_buffer : list Z; m_fragment_buffer : list Z; m_state : stream_state; m_oponent_protocol_ver : Z;
  m_invoke_response_handlers : list anvoke_handler; m_context : C;
  m_requests : nat; m_called : list (nat * Z); m_timeouts : list nat }.
Arguments Conn {C}. Arguments m_protocol_released {C}. Arguments m_wait_count {C}. Arguments m_close_called {C}.
Arguments m_current_head {C}. Arguments m_max_packet_size {C}. Arguments m_cache_in_buffer {C}. Arguments m_fragment_buffer {C}.
Arguments m_state {C}. Arguments m_oponent_protocol_ver {C}. Arguments m_invoke_response_handlers {C}. Arguments m_context {C}.
Arguments m_requests {C}. Arguments m_called {C}. Arguments m_timeouts {C}.

Section Setters.
Context {C : Type}.
Notation conn := (async_protocol_handler C).

Definition with_released (st : conn) : conn :=
  let 'Conn r w c h x b f s v l e n d t := st in Conn true w c h x b f s v [] e n d t.
Definition with_wait_count (w : Z) (st : conn) : conn :=
  let 'Conn r _ c h x b f s v l e n d t := st in Conn r w c h x b f s v l e n d t.
Definition with_close_called (c : Z) (st : conn) : conn :=
  let 'Conn r w _ h x b f s v l e n d t := st in Conn r w c h x b f s v l e n d t.
Definition with_head (h : bucket_head2) (st : conn) : conn :=
  let 'Conn r w c _ x b f s v l e n d t := st in Conn r w c h x b f s v l e n d t.
Definition with_max (x : Z) (st : conn) : conn :=
  let 'Conn r w c h _ b f s v l e n d t := st in Conn r w c h x b f s v l e n d t.
Definition with_cache (b : list Z) (st : conn) : conn :=
  let 'Conn r w c h x _ f s v l e n d t := st in Conn r w c h x b f s v l e n d t.
Definition with_fragment (f : list Z) (st : conn) : conn :=
  let 'Conn r w c h x b _ s v l e n d t := st in Conn r w c h x b f s v l e n d t.
Definition with_state (s : stream_state) (st : conn) : conn :=
  let 'Conn r w c h x b f _ v l e n d t := st in Conn r w c h x b f s v l e n d t.
Definition with_version (v : Z) (st : conn) : conn :=
  let 'Conn r w c h x b f s _ l e n d t := st in Conn r w c h x b f s v l e n d t.
Definition with_handlers (l : list anvoke_handler) (st : conn) : conn :=
  let 'Conn r w c h x b f s v _ e n d t := st in Conn r w c h x b f s v l e n d t.
Definition with_context (e : C) (st : conn) : conn :=
  let 'Conn r w c h x b f s v l _ n d t := st in Conn r w c h x b f s v l e n d t.
Definition with_request (st : conn) : conn :=
  let 'Conn r w c h x b f s v l e n d t := st in Conn r w c h x b f s v l e (S n) d t.
Definition with_timeouts (t : list nat) (st : conn) : conn :=
  let 'Conn r w c h x b f s v l e n d _ := st in Conn r w c h x b f s v l e n d t.
Definition add_called (p : nat * Z) (st : conn) : conn :=
  let 'Conn r w c h x b f s v l e n d t := st in Conn r w c h x b f s v l e n (d ++ [p]) t.
End Setters.

(** A new object *)
Definition new_handler {C} (m_initial_max_packet_size : Z) (context : C) : async_protocol_handler C :=
  Conn false 0 0 (Head 0 0 0 0 0 0 0) m_initial_max_packet_size [] [] stream_state_head 0 [] context O [] [].

(** What a round of the loop of [handle_recv] ends with: another round, [true] or [false] *)
Inductive outcome (S : Type) := More (st : S) | Stop (st : S) | Refuse (st : S).
Arguments More {S}. Arguments Stop {S}. Arguments Refuse {S}.

Section Operations.
Context {C : Type} (env : surroundings C).
Notation conn := (async_protocol_handler C).

(** *** Requests *)

(** [cancel] of the timer returns 1 when a wait was pending. *)
Definition cancel_timer (h : anvoke_handler) : bool * anvoke_handler :=
  if m_cancel_timer_called h then (m_timer_cancelled h, h)
  else (m_timer_pending h, Anvoke (m_id h) false (m_timer_started h) true (m_timer_pending h)).
(** A pending wait ends and another one begins: only its end is another. *)
Definition reset_timer (h : anvoke_handler) : anvoke_handler :=
  if m_cancel_timer_called h then h
  else if m_timer_pending h then Anvoke (m_id h) true (m_timer_started h) (m_cancel_timer_called h) (m_timer_cancelled h) else h.

Definition start_outer_call (st : conn) : bool * conn :=
  if negb (add_ref env (m_context st)) then (false, st) else (true, with_wait_count (u32 (m_wait_count st + 1)) st).
Definition finish_outer_call (st : conn) : conn := with_wait_count (u32 (m_wait_count st - 1)) st.

(** The callback of a request *)
Definition call (id : nat) (res : Z) (buff : list Z) (st : conn) : conn :=
  add_called (id, res) (with_context (callback env id res buff (m_context st)) st).

Definition close (wait_for_shutdown : bool) (st : conn) : conn :=
  let st := with_close_called (u32 (m_close_called st + 1)) st in
  with_context (endpoint_close env wait_for_shutdown (m_context st)) st.

(** [message] has the space for the header. *)
Definition send_message (message : list Z) (st : conn) : bool * conn :=
  if bool_decide (length message < sizeof_head)%nat then (false, st)
  else let '(sent, e) := do_send env message (m_context st) in (sent, with_context e st).

Definition add_invoke_response_handler (id : nat) (st : conn) : bool * conn :=
  if m_protocol_released st then (false, st)
  else
    let '(started, st) := start_outer_call st in
    (started, with_handlers (m_invoke_response_handlers st ++ [Anvoke id started started false false]) st).

Definition async_invoke (command : Z) (in_msg : list Z) (st : conn) : bool * conn :=
  let id := m_requests st in
  let st := with_request st in
  let st := if command =? handshake_command then with_max (config_max_packet_size env) st else st in
  let '(sent, st) := send_message (finalize_invoke (u32 command) in_msg) st in
  let '(err_code, st) :=
    if negb sent then (LEVIN_ERROR_CONNECTION, st)
    else let '(added, st) := add_invoke_response_handler id st in (if negb added then LEVIN_ERROR_CONNECTION_DESTROYED else 0, st) in
  if negb (err_code =? 0) then (false, finish_outer_call (call id err_code [] st))
  else (true, finish_outer_call st).

(** [invoke_async] of the configuration, for a connection that is found *)
Definition invoke_async (command : Z) (in_msg : list Z) (st : conn) : Z * conn :=
  let '(locked, st) := start_outer_call st in
  if negb locked then (LEVIN_ERROR_CONNECTION_DESTROYED, st)
  else let '(r, st) := async_invoke command in_msg st in (if r then 1 else 0, st).

(** [send] of a message that has its header, and its caller *)
Definition send (message : list Z) (st : conn) : Z * conn :=
  let '(locked, st) := start_outer_call st in
  if negb locked then (0, st)
  else let '(sent, st) := send_message message st in (if sent then 1 else -1, finish_outer_call st).

(** The wait of the request [id] ends; its timeout runs; all that wait are released. *)
Definition expire (id : nat) (st : conn) : conn :=
  if bool_decide (Exists (fun h => m_id h = id /\ m_timer_pending h = true) (m_invoke_response_handlers st))
  then
    with_timeouts (m_timeouts st ++ [id])
      (with_handlers ((fun h => if bool_decide (m_id h = id)
                                then Anvoke (m_id h) false (m_timer_started h) (m_cancel_timer_called h) (m_timer_cancelled h) else h)
                      <$> m_invoke_response_handlers st) st)
  else st.
Definition run_timeout (id : nat) (st : conn) : conn :=
  if bool_decide (id ∈ m_timeouts st)
  then
    let st := with_timeouts (filter (fun i => i <> id) (m_timeouts st)) st in
    finish_outer_call (close false (call id LEVIN_ERROR_CONNECTION_TIMEDOUT [] st))
  else st.
Definition cancel (h : anvoke_handler) (st : conn) : conn :=
  if (cancel_timer h).1 then finish_outer_call (call (m_id h) LEVIN_ERROR_CONNECTION_DESTROYED [] st) else st.
Definition release_protocol (st : conn) : conn :=
  foldl (fun st h => cancel h st) (with_released st) (m_invoke_response_handlers st).

(** *** Receiving *)

Definition has (flags bits : Z) : bool := negb (Z.land flags bits =? 0).

(** A response is for the request that waits longest. *)
Definition handle_response (buff : list Z) (st : conn) : outcome conn :=
  match m_invoke_response_handlers st with
  | [] => Refuse st
  | response_handler :: rest =>
      let '(timer_cancelled, response_handler) := cancel_timer response_handler in
      if timer_cancelled
      then More (finish_outer_call (call (m_id response_handler) (m_return_code (m_current_head st)) buff (with_handlers rest st)))
      else More (with_handlers (response_handler :: rest) st)
  end.

(** A request is answered when it asks for it. *)
Definition handle_request (buff : list Z) (st : conn) : outcome conn :=
  let command := m_command (m_current_head st) in
  if negb (m_have_to_return_data (m_current_head st) =? 0)
  then
    let '(return_code, return_message, e) := invoke env (int32 command) buff (m_context st) in
    let st := with_context e st in
    let st := if (command =? handshake_command) && handshake_complete env e then with_max (config_max_packet_size env) st else st in
    let '(sent, st) := send_message (finalize_response command (u32 return_code) return_message) st in
    if negb sent then Refuse st else More st
  else More (with_context (notify env (int32 command) buff (m_context st)) st).

Definition dispatch (buff : list Z) (st : conn) : outcome conn :=
  let is_response := (m_oponent_protocol_ver st =? LEVIN_PROTOCOL_VER_1) && has (m_flags (m_current_head st)) LEVIN_PACKET_RESPONSE in
  if is_response then handle_response buff st else handle_request buff st.

(** Noise is skipped and fragments are collected; the last one completes the message. *)
Definition handle_packet (max_packet_size : Z) (buff : list Z) (st : conn) : outcome conn :=
  let flags := m_flags (m_current_head st) in
  if has flags (Z.lor LEVIN_PACKET_REQUEST LEVIN_PACKET_RESPONSE) then dispatch buff st
  else
    let both_flags := Z.lor LEVIN_PACKET_BEGIN LEVIN_PACKET_END in
    if Z.land flags both_flags =? both_flags then More st
    else
      let st := if has flags LEVIN_PACKET_BEGIN then with_fragment [] st else st in
      let st := with_fragment (m_fragment_buffer st ++ buff) st in
      if negb (has flags LEVIN_PACKET_END) then More st
      else if bool_decide (length (m_fragment_buffer st) < sizeof_head)%nat then Refuse st
      else
        let temp := m_fragment_buffer st in
        let head := head_of (take sizeof_head temp) in
        let st := with_head head (with_fragment [] st) in
        let inner_size := m_cb head in
        let buff := drop sizeof_head temp in
        if Z.of_nat (length buff) <? inner_size then Refuse st
        else
          let buff := take (Z.to_nat inner_size) buff in
          if Z.min max_packet_size (get_max_bytes (m_command head)) <? Z.of_nat (length buff) then Refuse st
          else dispatch buff st.

Definition MIN_BYTES_WANTED : Z := 512.

(** One round: [cb] bytes were received. *)
Definition round (max_packet_size cb : Z) (st : conn) : outcome conn :=
  let cache := m_cache_in_buffer st in
  match m_state st with
  | stream_state_body =>
      let size := m_cb (m_current_head st) in
      if Z.of_nat (length cache) <? size
      then
        Stop (if MIN_BYTES_WANTED <=? cb
              then match m_invoke_response_handlers st with
                   | [] => st
                   | response_handler :: rest => with_handlers (reset_timer response_handler :: rest) st
                   end
              else st)
      else
        handle_packet max_packet_size (take (Z.to_nat size) cache)
          (with_state stream_state_head (with_cache (drop (Z.to_nat size) cache) st))
  | stream_state_head =>
      if bool_decide (length cache < sizeof_head)%nat
      then
        if bool_decide (8 <= length cache)%nat && negb (pod_value UINT64 (take 8 cache) =? LEVIN_SIGNATURE) then Refuse st else Stop st
      else
        let phead := head_of (take sizeof_head cache) in
        if negb (LEVIN_SIGNATURE =? m_signature phead) then Refuse st
        else
          let st := with_version (int32 (m_protocol_version phead))
                      (with_state stream_state_body (with_cache (drop sizeof_head cache) (with_head phead st))) in
          if Z.min max_packet_size (get_max_bytes (m_command phead)) <? m_cb phead then Refuse st else More st
  end.

(** The loop; each round takes a header or a body from the bytes: [fuel] is more than rounds. *)
Fixpoint recv_loop (fuel : nat) (max_packet_size cb : Z) (st : conn) : option (bool * conn) :=
  match fuel with
  | O => None
  | S fuel =>
      match round max_packet_size cb st with
      | More st => recv_loop fuel max_packet_size cb st
      | Stop st => Some (true, st)
      | Refuse st => Some (false, st)
      end
  end.
Definition rounds (st : conn) : nat :=
  (2 * length (m_cache_in_buffer st) + (if m_state st is stream_state_body then 1 else 0))%nat.

(** The runtime checks of the sizes are kept; [None] stands for no result. *)
Definition handle_recv (data : list Z) (st : conn) : option (bool * conn) :=
  let cb := Z.of_nat (length data) in
  let max_packet_size := m_max_packet_size st in
  let cached := Z.of_nat (length (m_cache_in_buffer st)) in
  let fragments := Z.of_nat (length (m_fragment_buffer st)) in
  if negb (m_close_called st =? 0) then Some (false, st)
  else if negb (cached <=? max_packet_size) then Some (false, st)
  else if negb (fragments <=? u64 (max_packet_size - cached)) then Some (false, st)
  else if u64 (u64 (max_packet_size - cached) - fragments) <? cb then Some (false, st)
  else
    let st := with_cache (m_cache_in_buffer st ++ data) st in
    recv_loop (S (rounds st)) max_packet_size cb st.

(** The pieces of a stream, until one is refused *)
Fixpoint recv_all (chunks : list (list Z)) (st : conn) : option (bool * conn) :=
  match chunks with
  | [] => Some (true, st)
  | data :: chunks =>
      match handle_recv data st with
      | Some (true, st) => recv_all chunks st
      | r => r
      end
  end.
End Operations.

(** ** Headers read back *)

Definition head_ok (h : bucket_head2) : Prop :=
  pod_ok UINT64 (m_signature h) /\ pod_ok UINT64 (m_cb h) /\ pod_ok UINT8 (m_have_to_return_data h) /\ pod_ok UINT32 (m_command h)
  /\ pod_ok INT32 (m_return_code h) /\ pod_ok UINT32 (m_flags h) /\ pod_ok UINT32 (m_protocol_version h).

Lemma head_bytes_length h : length (head_bytes h) = sizeof_head.
Proof. unfold head_bytes. by rewrite !length_app, !pod_bytes_length. Qed.

Lemma at_app (pre bs post : list Z) n m : length pre = n -> length bs = m -> take m (drop n (pre ++ bs ++ post)) = bs.
Proof. intros <- <-. by rewrite drop_app_length, take_app_length. Qed.

Lemma head_of_bytes h : head_ok h -> head_of (head_bytes h) = h.
Proof.
  intros (H1 & H2 & H3 & H4 & H5 & H6 & H7). unfold head_of, head_bytes.
  set (b1 := pod_bytes UINT64 (m_signature h)). set (b2 := pod_bytes UINT64 (m_cb h)).
  set (b3 := pod_bytes UINT8 (m_have_to_return_data h)). set (b4 := pod_bytes UINT32 (m_command h)).
  set (b5 := pod_bytes INT32 (m_return_code h)). set (b6 := pod_bytes UINT32 (m_flags h)).
  set (b7 := pod_bytes UINT32 (m_protocol_version h)).
  assert (length b1 = 8 /\ length b2 = 8 /\ length b3 = 1 /\ length b4 = 4 /\ length b5 = 4 /\ length b6 = 4 /\ length b7 = 4)%nat
    as (L1 & L2 & L3 & L4 & L5 & L6 & L7) by (by repeat split; apply pod_bytes_length).
  cbv beta zeta. rewrite drop_0, (take_app_length' b1) by done. rewrite (at_app b1 b2) by done.
  rewrite (app_assoc b1 b2), (at_app (b1 ++ b2) b3) by (rewrite ?length_app; simpl; lia).
  rewrite (app_assoc (b1 ++ b2) b3), (at_app ((b1 ++ b2) ++ b3) b4) by (rewrite ?length_app; simpl; lia).
  rewrite (app_assoc _ b4), (at_app (((b1 ++ b2) ++ b3) ++ b4) b5) by (rewrite ?length_app; simpl; lia).
  rewrite (app_assoc _ b5), (at_app _ b6) by (rewrite ?length_app; simpl; lia).
  rewrite (app_assoc _ b6), <- (app_nil_r b7), (at_app _ b7 []) by (rewrite ?length_app; simpl; lia).
  unfold b1, b2, b3, b4, b5, b6, b7. rewrite !pod_roundtrip by done. by destruct h.
Qed.

Lemma make_header_ok command size flags (b : bool) : pod_ok UINT32 command -> pod_ok UINT64 size -> pod_ok UINT32 flags ->
  head_ok (make_header command size flags b).
Proof. intros Hc Hs Hf. unfold head_ok, make_header, pod_ok, width, LEVIN_SIGNATURE, LEVIN_PROTOCOL_VER_1 in *. cbn in *. destruct b; lia. Qed.

(** ** The loop *)

Section Proofs.
Context {C : Type} (env : surroundings C).
Notation conn := (async_protocol_handler C).
Notation max_size := (config_max_packet_size env).

Definition omap (f : conn -> conn) (o : outcome conn) : outcome conn :=
  match o with More st => More (f st) | Stop st => Stop (f st) | Refuse st => Refuse (f st) end.
Definition state_of (o : outcome conn) : conn := match o with More st | Stop st | Refuse st => st end.

Lemma reset_same h : reset_timer h = h.
Proof. by destruct h as [i [] s [] c]. Qed.

Lemma with_cache_same (st : conn) : with_cache (m_cache_in_buffer st) st = st.
Proof. by destruct st. Qed.

(** What is done with a packet does not depend on the bytes that follow it. *)
Lemma dispatch_cache c buff st : dispatch env buff (with_cache c st) = omap (with_cache c) (dispatch env buff st).
Proof.
  destruct st as [rl w cl h mx ca fr s v l e n d t]. unfold dispatch. cbn. destruct (_ && _).
  - unfold handle_response. cbn. destruct l as [|a l]; [done|]. by destruct (cancel_timer a) as [[] a'].
  - unfold handle_request. cbn. destruct (negb _); [|done]. destruct (invoke env _ _ _) as [[rc out] e'].
    unfold send_message. cbn. destruct (_ && _); cbn; (destruct (bool_decide _); cbn; [done|]); by destruct (do_send env _ e') as [[] e''].
Qed.
Lemma packet_cache max c buff st : handle_packet env max buff (with_cache c st) = omap (with_cache c) (handle_packet env max buff st).
Proof.
  destruct st as [rl w cl h mx ca fr s v l e n d t]. unfold handle_packet. cbn.
  destruct (has _ LEVIN_PACKET_BEGIN); cbn; repeat (case_match; cbn; try done); apply (dispatch_cache c _ (Conn _ _ _ _ _ _ _ _ _ _ _ _ _ _)).
Qed.

(** What an operation on a packet keeps: the rest of the bytes, the state, and the limit but for its one change *)
Definition kept (st st' : conn) : Prop :=
  m_state st' = m_state st /\ m_close_called st' = m_close_called st
  /\ (m_max_packet_size st' = m_max_packet_size st \/ m_max_packet_size st' = max_size).

Lemma dispatch_kept buff st : kept st (state_of (dispatch env buff st)) /\ m_fragment_buffer (state_of (dispatch env buff st)) = m_fragment_buffer st.
Proof.
  destruct st as [rl w cl h mx ca fr s v l e n d t]. unfold dispatch, kept. cbn. destruct (_ && _).
  - unfold handle_response. cbn. destruct l as [|a l]; [cbn; auto|]. destruct (cancel_timer a) as [[] a']; cbn; auto.
  - unfold handle_request. cbn. destruct (negb _); [|cbn; auto]. destruct (invoke env _ _ _) as [[rc out] e'].
    unfold send_message. cbn. destruct (_ && _); cbn; (destruct (bool_decide _); cbn; [auto|]); destruct (do_send env _ e') as [[] e'']; cbn; auto.
Qed.
Lemma packet_kept max buff st : let st' := state_of (handle_packet env max buff st) in
  kept st st' /\ (length (m_fragment_buffer st') <= length (m_fragment_buffer st) + length buff)%nat.
Proof.
  cbn zeta. destruct st as [rl w cl h mx ca fr s v l e n d t]. unfold handle_packet. cbn.
  destruct (has _ (Z.lor _ _)). { destruct (dispatch_kept buff (Conn rl w cl h mx ca fr s v l e n d t)) as [H ->]. cbn. split; [done|lia]. }
  destruct (_ =? _); [unfold kept; cbn; split; [auto|lia]|].
  destruct (has _ LEVIN_PACKET_BEGIN); cbn; (destruct (negb _); [unfold kept; cbn; rewrite ?length_app; split; [auto|lia]|]);
    (destruct (bool_decide _); [unfold kept; cbn; rewrite ?length_app; split; [auto|lia]|]);
    (destruct (_ <? _); [unfold kept; cbn; split; [auto|lia]|]); (destruct (_ <? _); [unfold kept; cbn; split; [auto|lia]|]);
    match goal with |- context [dispatch env ?b ?x] => destruct (dispatch_kept b x) as [H ->]; cbn; split; [exact H|lia] end.
Qed.

Definition held (st : conn) : Z := Z.of_nat (length (m_cache_in_buffer st)) + Z.of_nat (length (m_fragment_buffer st)).
Definition more_bytes (d : list Z) (st : conn) : conn := with_cache (m_cache_in_buffer st ++ d) st.

Lemma packet_goes_on max buff st st' : handle_packet env max buff st <> Stop st'.
Proof. unfold handle_packet, dispatch, handle_response, handle_request. intros E. repeat (case_match; try discriminate E). Qed.

Lemma round_stop max cb st st' : round env max cb st = Stop st' -> st' = st.
Proof.
  unfold round. destruct (m_state st); [by repeat case_match; intros; simplify_eq|].
  destruct (_ <? _).
  - intros [= <-]. destruct (_ <=? _); [|done]. destruct (m_invoke_response_handlers st) as [|h l] eqn:El; [done|].
    rewrite reset_same. destruct st; simpl in *; by subst.
  - intros E. by apply packet_goes_on in E.
Qed.
Lemma round_cb max cb st : round env max cb st = round env max 0 st.
Proof.
  unfold round. destruct (m_state st); [done|]. destruct (_ <? _); [|done].
  destruct (_ <=? cb); [|done]. f_equal. destruct (m_invoke_response_handlers st) as [|h l] eqn:El; [done|].
  rewrite reset_same. destruct st; simpl in *; by subst.
Qed.

Lemma packet_cache_of max buff st : m_cache_in_buffer (state_of (handle_packet env max buff st)) = m_cache_in_buffer st.
Proof. rewrite <- (with_cache_same st) at 1. rewrite packet_cache. by destruct (handle_packet env max buff st) as [[]|[]|[]]. Qed.

(** A round takes bytes from the cache and holds no more than before. *)
Lemma round_holds max st : let st' := state_of (round env max 0 st) in
  held st' <= held st /\ m_close_called st' = m_close_called st
  /\ (m_max_packet_size st' = m_max_packet_size st \/ m_max_packet_size st' = max_size).
Proof.
  cbn zeta. unfold round. destruct (m_state st).
  - destruct (bool_decide _) eqn:Hl; [by case_match; cbn; auto with lia|]. apply bool_decide_eq_false in Hl.
    destruct (negb _); [cbn; auto with lia|].
    set (st1 := with_version _ _). assert (held st1 <= held st /\ m_close_called st1 = m_close_called st /\ m_max_packet_size st1 = m_max_packet_size st)
      as (H1 & H2 & H3) by (unfold st1, held; destruct st; cbn; rewrite length_drop; auto with lia).
    destruct (_ <? _); cbn; auto.
  - destruct (_ <? _) eqn:Hs; [cbn; auto with lia|]. apply Z.ltb_ge in Hs. set (buff := take _ _). set (st1 := with_state _ _).
    destruct (packet_kept max buff st1) as ((_ & Hc & Hm) & Hf). pose proof (packet_cache_of max buff st1) as Hca.
    assert (m_close_called st1 = m_close_called st /\ m_max_packet_size st1 = m_max_packet_size st /\ m_fragment_buffer st1 = m_fragment_buffer st
      /\ m_cache_in_buffer st1 = drop (Z.to_nat (m_cb (m_current_head st))) (m_cache_in_buffer st)) as (E1 & E2 & E3 & E4) by (by destruct st).
    rewrite E1 in Hc. rewrite E2 in Hm. rewrite E4 in Hca. rewrite E3 in Hf. unfold held. rewrite Hca. unfold buff in *. rewrite length_take in Hf.
    rewrite length_drop. split; [lia|auto].
Qed.
Lemma round_less max st st' : round env max 0 st = More st' -> (rounds st' < rounds st)%nat.
Proof.
  intros E. unfold round in E. destruct (m_state st) eqn:Est.
  - destruct (bool_decide _) eqn:Hl; [by repeat case_match|]. apply bool_decide_eq_false in Hl. destruct (negb _); [done|].
    destruct (_ <? _); [done|]. injection E as <-. unfold rounds. destruct st; cbn in *. subst. rewrite length_drop. unfold sizeof_head in *. lia.
  - destruct (_ <? _) eqn:Hs; [done|]. pose proof (packet_cache_of max (take (Z.to_nat (m_cb (m_current_head st))) (m_cache_in_buffer st))
      (with_state stream_state_head (with_cache (drop (Z.to_nat (m_cb (m_current_head st))) (m_cache_in_buffer st)) st))) as Hc.
    destruct (packet_kept max (take (Z.to_nat (m_cb (m_current_head st))) (m_cache_in_buffer st))
      (with_state stream_state_head (with_cache (drop (Z.to_nat (m_cb (m_current_head st))) (m_cache_in_buffer st)) st))) as ((Hk & _) & _).
    rewrite E in Hc, Hk. cbn in Hc, Hk. unfold rounds. rewrite Hc, Hk, Est. destruct st; cbn. rewrite length_drop. lia.
Qed.

(** *** Runs of the loop *)

Definition runs (max : Z) (st : conn) (r : bool * conn) : Prop := exists n, recv_loop env n max 0 st = Some r.

Lemma loop_cb n max cb st : recv_loop env n max cb st = recv_loop env n max 0 st.
Proof. revert st. induction n as [|n IH]; intros st; [done|]. cbn. rewrite round_cb. by destruct (round env max 0 st). Qed.

Lemma loop_fuel n max st : (rounds st < n)%nat -> exists r, recv_loop env n max 0 st = Some r.
Proof.
  revert st. induction n as [|n IH]; intros st Hn; [lia|]. cbn. destruct (round env max 0 st) as [st'|st'|st'] eqn:E; eauto.
  apply IH. pose proof (round_less _ _ _ E). lia.
Qed.
Lemma loop_mono n k max st r : recv_loop env n max 0 st = Some r -> recv_loop env (n + k) max 0 st = Some r.
Proof. revert st. induction n as [|n IH]; intros st; [done|]. cbn. destruct (round env max 0 st); auto. Qed.

Lemma runs_det max st r r' : runs max st r -> runs max st r' -> r = r'.
Proof. intros [n Hn] [k Hk]. apply (loop_mono _ k) in Hn. apply (loop_mono _ n) in Hk. rewrite Nat.add_comm in Hk. congruence. Qed.

Lemma loop_runs n max cb st r : (rounds st < n)%nat -> recv_loop env n max cb st = Some r <-> runs max st r.
Proof.
  intros Hn. rewrite loop_cb. split; [by exists n|]. intros Hr. destruct (loop_fuel n max st Hn) as [r' E].
  rewrite E. f_equal. apply (runs_det max st); [by exists n|done].
Qed.
Lemma runs_step max st r : runs max st r <->
  match round env max 0 st with More st' => runs max st' r | Stop st' => r = (true, st') | Refuse st' => r = (false, st') end.
Proof.
  split.
  - intros [[|n] Hn]; [done|]. cbn in Hn. destruct (round env max 0 st) as [st'|st'|st'] eqn:E; [by exists n|congruence|congruence].
  - destruct (round env max 0 st) as [st'|st'|st'] eqn:E; [intros [n Hn]; exists (S n)|intros ->; exists 1%nat|intros ->; exists 1%nat]; cbn; by rewrite E.
Qed.
Lemma runs_total max st : exists ok st', runs max st (ok, st').
Proof. destruct (loop_fuel (S (rounds st)) max st ltac:(lia)) as [[ok st'] E]. exists ok, st'. by exists (S (rounds st)). Qed.

(** An invariant of the rounds is one of the runs. *)
Lemma runs_ind (P : conn -> Prop) max : (forall st, P st -> P (state_of (round env max 0 st))) ->
  forall st ok st', P st -> runs max st (ok, st') -> P st'.
Proof.
  intros Hstep st ok st' Hp [n Hn]. revert st Hp Hn. induction n as [|n IH]; intros st Hp Hn; [done|]. cbn in Hn.
  specialize (Hstep st Hp). destruct (round env max 0 st) as [st1|st1|st1]; [by apply (IH st1)| |]; by injection Hn as <- <-.
Qed.

Lemma runs_holds max st ok st' : runs max st (ok, st') -> held st' <= held st /\ m_close_called st' = m_close_called st
  /\ (m_max_packet_size st' = m_max_packet_size st \/ m_max_packet_size st' = max_size).
Proof.
  apply (runs_ind (fun x => held x <= held st /\ m_close_called x = m_close_called st
    /\ (m_max_packet_size x = m_max_packet_size st \/ m_max_packet_size x = max_size))); [|auto with lia].
  intros x (H1 & H2 & H3). destruct (round_holds max x) as (E1 & E2 & E3). split; [lia|]. split; [congruence|].
  destruct E3 as [->| ->]; auto.
Qed.

(** The loop has stopped and waits for bytes. *)
Definition resting (max : Z) (st : conn) : Prop := round env max 0 st = Stop st.

Lemma runs_rest max st st' : runs max st (true, st') -> resting max st'.
Proof.
  intros [n Hn]. revert st Hn. induction n as [|n IH]; intros st Hn; [done|]. cbn in Hn.
  destruct (round env max 0 st) as [st1|st1|st1] eqn:E; [by apply (IH st1)| |done]. injection Hn as ->.
  pose proof (round_stop _ _ _ _ E) as ->. exact E.
Qed.
Lemma resting_runs max st : resting max st -> runs max st (true, st).
Proof. intros E. apply runs_step. by rewrite E. Qed.

(** What can be told from outside: the node, the callbacks called and the requests that wait *)
Definition seen (st : conn) : C * list (nat * Z) * list anvoke_handler * Z :=
  (m_context st, m_called st, m_invoke_response_handlers st, m_wait_count st).

Lemma take_app_small {A} n (l k : list A) : (n <= length l)%nat -> take n (l ++ k) = take n l.
Proof. intros H. rewrite take_app. replace (n - length l)%nat with 0%nat by lia. by rewrite take_0, app_nil_r. Qed.
Lemma drop_app_small {A} n (l k : list A) : (n <= length l)%nat -> drop n (l ++ k) = drop n l ++ k.
Proof. intros H. rewrite drop_app. by replace (n - length l)%nat with 0%nat by lia. Qed.

(** With more bytes behind a round does the same. *)
Lemma packet_more max buff d st : handle_packet env max buff (more_bytes d st) = omap (more_bytes d) (handle_packet env max buff st).
Proof.
  unfold more_bytes at 1. rewrite packet_cache. pose proof (packet_cache_of max buff st) as Hc.
  destruct (handle_packet env max buff st); cbn in *; unfold more_bytes; by rewrite Hc.
Qed.
Lemma round_more max d st : match round env max 0 st with
  | More st' => round env max 0 (more_bytes d st) = More (more_bytes d st')
  | Stop _ => True
  | Refuse st' => exists st'', round env max 0 (more_bytes d st) = Refuse st'' /\ seen st'' = seen st' end.
Proof.
  destruct (m_state st) eqn:Est.
  - assert (m_state (more_bytes d st) = stream_state_head) as Est' by (by destruct st).
    assert (m_cache_in_buffer (more_bytes d st) = m_cache_in_buffer st ++ d) as Ec by (by destruct st).
    unfold round. rewrite Est, Est', Ec, length_app. destruct (bool_decide (length (m_cache_in_buffer st) < sizeof_head)%nat) eqn:Hl.
    + destruct (bool_decide (8 <= length _)%nat) eqn:H8; [|done]. cbn [andb]. apply bool_decide_eq_true in H8.
      destruct (negb _) eqn:Hsig; [|done]. rewrite (bool_decide_eq_true_2 (8 <= _)%nat) by lia. rewrite take_app_small by done.
      cbn [andb]. destruct (bool_decide (_ + _ < _)%nat) eqn:Hl'; [rewrite Hsig; exists (more_bytes d st); split; [done|by destruct st]|].
      rewrite Z.eqb_sym in Hsig. unfold head_of. cbn [m_signature]. change (pod_size UINT64) with 8%nat.
      rewrite drop_0, take_take, Nat.min_l, take_app_small, Hsig by (unfold sizeof_head; lia).
      exists (more_bytes d st). split; [done|by destruct st].
    + apply bool_decide_eq_false in Hl. rewrite bool_decide_eq_false_2, take_app_small, drop_app_small by lia.
      destruct (negb _); [exists (more_bytes d st); split; [done|by destruct st]|].
      destruct (_ <? _); [eexists; split; [done|by destruct st]|]. f_equal. by destruct st.
  - unfold round. assert (m_state (more_bytes d st) = stream_state_body) as -> by (by destruct st). rewrite Est.
    assert (m_cache_in_buffer (more_bytes d st) = m_cache_in_buffer st ++ d) as -> by (by destruct st).
    assert (m_current_head (more_bytes d st) = m_current_head st) as -> by (by destruct st).
    destruct (_ <? _) eqn:Hs; [done|]. apply Z.ltb_ge in Hs. rewrite length_app.
    replace (Z.of_nat _ <? _) with false by (symmetry; apply Z.ltb_ge; lia).
    rewrite take_app_small, drop_app_small by lia. set (buff := take _ _). set (st1 := with_state _ (with_cache (drop _ _) st)).
    replace (with_state _ _) with (more_bytes d st1) by (by destruct st). rewrite packet_more.
    destruct (handle_packet env max buff st1) as [st'|st'|st']; cbn; [done|done|]. exists (more_bytes d st'). split; [done|by destruct st'].
Qed.

Lemma runs_more max d st ok st1 : runs max st (ok, st1) ->
  if ok then forall r, runs max (more_bytes d st1) r -> runs max (more_bytes d st) r
  else exists st2, runs max (more_bytes d st) (false, st2) /\ seen st2 = seen st1.
Proof.
  intros [n Hn]. revert st Hn. induction n as [|n IH]; intros st Hn; [done|]. cbn in Hn.
  pose proof (round_more max d st) as Hr. destruct (round env max 0 st) as [st'|st'|st'] eqn:E.
  - specialize (IH st' Hn). destruct ok.
    + intros r H. apply runs_step. rewrite Hr. by apply IH.
    + destruct IH as (st2 & H & Hs). exists st2. split; [|done]. apply runs_step. by rewrite Hr.
  - injection Hn as <- <-. pose proof (round_stop _ _ _ _ E) as ->. auto.
  - injection Hn as <- <-. destruct Hr as (st'' & Hr & Hs). exists st''. split; [|done]. apply runs_step. by rewrite Hr.
Qed.

(** *** Pieces *)

Lemma more_nil (st : conn) : more_bytes [] st = st.
Proof. unfold more_bytes. rewrite app_nil_r. apply with_cache_same. Qed.
Lemma more_more d d' (st : conn) : more_bytes d' (more_bytes d st) = more_bytes (d ++ d') st.
Proof. unfold more_bytes. destruct st; cbn. by rewrite app_assoc. Qed.
Lemma held_more d (st : conn) : held (more_bytes d st) = held st + Z.of_nat (length d).
Proof. unfold held, more_bytes. destruct st; cbn. rewrite length_app. lia. Qed.

(** What fits is given to the loop. *)
Lemma recv_runs data st r : m_close_called st = 0 -> m_max_packet_size st < 2 ^ 64 -> held st + Z.of_nat (length data) <= m_max_packet_size st ->
  handle_recv env data st = Some r <-> runs (m_max_packet_size st) (more_bytes data st) r.
Proof.
  intros Hc Hm Hh. unfold handle_recv, held in *. rewrite Hc. cbn [Z.eqb negb].
  rewrite (wrap_small 64 (_ - Z.of_nat (length (m_cache_in_buffer st)))), (wrap_small 64 (_ - _ - _)) by (unfold in_width; lia).
  repeat (match goal with |- context [negb (?a <=? ?b)] => replace (a <=? b) with true by (symmetry; apply Z.leb_le; lia) end; cbn [negb]).
  replace (_ <? _) with false by (symmetry; apply Z.ltb_ge; lia). apply loop_runs, Nat.lt_succ_diag_r.
Qed.

Lemma chunks_run chunks : forall st, resting (m_max_packet_size st) st -> m_close_called st = 0 ->
  m_max_packet_size st = max_size -> max_size < 2 ^ 64 -> held st + Z.of_nat (length (concat chunks)) <= max_size ->
  exists ok st1 st2, recv_all env chunks st = Some (ok, st1) /\ runs max_size (more_bytes (concat chunks) st) (ok, st2)
    /\ seen st1 = seen st2 /\ (ok = true -> st1 = st2).
Proof.
  induction chunks as [|data chunks IH]; intros st Hr Hc Hm Hmax Hh.
  - exists true, st, st. cbn. rewrite more_nil. repeat split; auto. apply resting_runs. by rewrite Hm in Hr.
  - cbn [concat] in *. rewrite length_app in Hh. destruct (runs_total max_size (more_bytes data st)) as (ok & sta & Hrun).
    cbn [recv_all]. pose proof (proj2 (recv_runs data st (ok, sta) Hc ltac:(lia) ltac:(lia))) as ->; [|by rewrite Hm].
    pose proof (runs_more max_size (concat chunks) _ _ _ Hrun) as Hmore. rewrite more_more in Hmore. destruct ok.
    + destruct (runs_holds _ _ _ _ Hrun) as (H1 & H2 & H3). rewrite held_more in H1. pose proof (runs_rest _ _ _ Hrun) as Hrest.
      assert (m_close_called sta = 0) as Hca by (rewrite H2; by destruct st).
      assert (m_max_packet_size sta = max_size) as Hma by (destruct H3 as [->| ->]; [by destruct st|done]).
      destruct (IH sta) as (ok & st1 & st2 & E & R & S1 & S2); [by rewrite Hma|done|done|done|lia|].
      exists ok, st1, st2. split; [exact E|]. split; [by apply Hmore|done].
    + destruct Hmore as (st2 & R & S2). exists false, sta, st2. split; [done|]. split; [exact R|done].
Qed.

End Proofs.

(** ** Histories of a connection *)

Inductive event :=
  | Receive (data : list Z)
  | Invoke (command : Z) (in_msg : list Z)
  | Send (message : list Z)
  | Expire (id : nat)
  | Timeout (id : nat)
  | Release
  | Close (wait_for_shutdown : bool).

Section Histories.
Context {C : Type} (env : surroundings C).
Notation conn := (async_protocol_handler C).
Notation max_size := (config_max_packet_size env).

Definition happen (e : event) (st : conn) : option conn :=
  match e with
  | Receive data => snd <$> handle_recv env data st
  | Invoke command in_msg => Some (invoke_async env command in_msg st).2
  | Send message => Some (send env message st).2
  | Expire id => Some (expire id st)
  | Timeout id => Some (run_timeout env id st)
  | Release => Some (release_protocol env st)
  | Close wait => Some (close env wait st)
  end.
Fixpoint history (es : list event) (st : conn) : option conn :=
  match es with [] => Some st | e :: es => st ← happen e st; history es st end.

(** An invariant of every step is one of the histories, and these have a result. *)
Lemma history_ind (P : conn -> Prop) : (forall e st, P st -> exists st', happen e st = Some st' /\ P st') ->
  forall es st, P st -> exists st', history es st = Some st' /\ P st'.
Proof.
  intros Hstep es. induction es as [|e es IH]; intros st Hp; [by exists st|]. destruct (Hstep e st Hp) as (st1 & E & H1).
  destruct (IH st1 H1) as (st2 & E2 & H2). exists st2. split; [|done]. cbn. by rewrite E.
Qed.

Lemma recv_cases data st : exists ok st', handle_recv env data st = Some (ok, st')
  /\ (st' = st \/ runs env (m_max_packet_size st) (more_bytes data st) (ok, st')).
Proof.
  unfold handle_recv. repeat (match goal with |- context [if ?b then Some (false, st) else _] => destruct b; [by eauto|] end).
  destruct (loop_fuel env (S (rounds (more_bytes data st))) (m_max_packet_size st) (more_bytes data st) ltac:(apply Nat.lt_succ_diag_r)) as [[ok st'] E].
  exists ok, st'. rewrite loop_cb. split; [exact E|]. right. by eexists.
Qed.

(** *** Sizes *)

Definition bounded (st : conn) : Prop := held st <= m_max_packet_size st <= max_size.

Lemma recv_bounded data st : max_size < 2 ^ 64 -> bounded st -> exists ok st', handle_recv env data st = Some (ok, st') /\ bounded st'.
Proof.
  intros Hmax [Hh Hm]. destruct (recv_cases data st) as (ok & st' & E & Hr). exists ok, st'. split; [done|].
  destruct Hr as [->|Hr]; [done|]. destruct (Z.le_gt_cases (held st + Z.of_nat (length data)) (m_max_packet_size st)) as [Hle|Hgt].
  - destruct (runs_holds _ _ _ _ _ Hr) as (H1 & _ & H3). rewrite held_more in H1. unfold bounded.
    assert (m_max_packet_size (more_bytes data st) = m_max_packet_size st) as Hx by (by destruct st). rewrite Hx in H3. destruct H3 as [->| ->]; lia.
  - revert E. unfold handle_recv, held in *.
    rewrite (wrap_small 64 (_ - Z.of_nat (length (m_cache_in_buffer st)))), (wrap_small 64 (_ - _ - _)) by (unfold in_width; lia).
    destruct (negb _); [intros [= <- <-]; done|]. destruct (negb (_ <=? _)); [intros [= <- <-]; done|].
    destruct (negb (_ <=? _)); [intros [= <- <-]; done|].
    replace (_ <? _) with true by (symmetry; apply Z.ltb_lt; lia). intros [= <- <-]. done.
Qed.

(** What the other operations keep *)
Definition same_stream (st st' : conn) : Prop :=
  m_cache_in_buffer st' = m_cache_in_buffer st /\ m_fragment_buffer st' = m_fragment_buffer st
  /\ (m_max_packet_size st' = m_max_packet_size st \/ m_max_packet_size st' = max_size).

Lemma same_refl st : same_stream st st.
Proof. unfold same_stream. auto. Qed.
Lemma same_trans st st1 st2 : same_stream st st1 -> same_stream st1 st2 -> same_stream st st2.
Proof. unfold same_stream. intros (A & B & D) (A' & B' & D'). repeat split; try congruence. destruct D' as [->| ->]; auto. Qed.

(** Closes a goal on the fields of an object that an operation leaves alone. *)
Ltac same_fields := unfold same_stream; cbn; by auto.
Lemma release_same st : same_stream st (release_protocol env st).
Proof.
  unfold release_protocol. apply (same_trans st (with_released st)); [destruct st; same_fields|].
  generalize (with_released st). induction (m_invoke_response_handlers st) as [|h l IH]; intros x; [apply same_refl|].
  cbn. eapply same_trans; [|apply IH]. unfold cancel. destruct (cancel_timer h).1; destruct x; same_fields.
Qed.
Lemma invoke_same command msg st : same_stream st (invoke_async env command msg st).2.
Proof.
  destruct st as [rl w cl h mx ca fr s v l e n d t]. unfold invoke_async, start_outer_call. cbn. destruct (negb _); [apply same_refl|].
  unfold async_invoke, send_message. cbn.
  destruct (_ =? _); cbn; destruct (bool_decide _); cbn; try same_fields;
    destruct (do_send env _ _) as [[] e']; cbn; try same_fields;
    unfold add_invoke_response_handler, start_outer_call; cbn; destruct rl; cbn; try same_fields;
    destruct (negb _); same_fields.
Qed.
Lemma happen_bounded e st : max_size < 2 ^ 64 -> bounded st -> exists st', happen e st = Some st' /\ bounded st'.
Proof.
  intros Hmax Hb. assert (forall st', same_stream st st' -> bounded st') as Hs.
  { intros st' (Ec & Ef & Em). revert Hb. unfold bounded, held. rewrite Ec, Ef. destruct Em as [->| ->]; lia. }
  destruct e as [data|command msg|message|id|id| |wait]; cbn; [|eexists; split; [reflexivity|]; apply Hs..].
  - destruct (recv_bounded data st Hmax Hb) as (ok & st' & -> & H). by exists st'.
  - apply invoke_same.
  - unfold send, start_outer_call, send_message. destruct (negb _); [apply same_refl|]. destruct (bool_decide _); [destruct st; same_fields|].
    destruct (do_send env _ _) as [[] e']; destruct st; same_fields.
  - unfold expire. destruct (bool_decide _); destruct st; same_fields.
  - unfold run_timeout. destruct (bool_decide _); destruct st; same_fields.
  - apply release_same.
  - destruct st; same_fields.
Qed.

(** *** Callbacks *)

(** The requests that wait with a timer *)
Definition waiting_of (l : list anvoke_handler) : list nat := m_id <$> filter (fun h => m_timer_pending h = true) l.
#[local] Arguments waiting_of : simpl never.
Definition waiting (st : conn) : list nat := waiting_of (m_invoke_response_handlers st).
(** A handler in the list was never cancelled with success, and one that was cancelled has no timer. *)
Definition handler_ok (h : anvoke_handler) : Prop :=
  m_timer_cancelled h = false /\ (m_cancel_timer_called h = true -> m_timer_pending h = false).

Record books_ok (st : conn) : Prop := {
  each_once : (m_called st).*1 ++ m_timeouts st ++ waiting st ≡ₚ seq 0 (m_requests st);
  calls_counted : m_wait_count st = u32 (Z.of_nat (length (m_timeouts st) + length (waiting st)));
  in_turn : StronglySorted lt (m_id <$> m_invoke_response_handlers st);
  known : Forall (fun h => (m_id h < m_requests st)%nat /\ handler_ok h) (m_invoke_response_handlers st);
  none_after_release : m_protocol_released st = true -> m_invoke_response_handlers st = [] }.

Definition books (st : conn) : list (nat * Z) * list nat * list anvoke_handler * nat * Z * bool :=
  (m_called st, m_timeouts st, m_invoke_response_handlers st, m_requests st, m_wait_count st, m_protocol_released st).
Lemma same_books st st' : books st' = books st -> books_ok st -> books_ok st'.
Proof. unfold books. intros [= E1 E2 E3 E4 E5 E6] [H1 H2 H3 H4 H5]. split; unfold waiting in *; rewrite ?E1, ?E2, ?E3, ?E4, ?E5, ?E6; done. Qed.

Lemma u32_step x y : u32 (u32 x + y) = u32 (x + y).
Proof. unfold wrap. by rewrite Zplus_mod_idemp_l. Qed.
Lemma u32_back x y : u32 (u32 x - y) = u32 (x - y).
Proof. unfold wrap. by rewrite Zminus_mod_idemp_l. Qed.

Lemma waiting_cons h l : waiting_of (h :: l) = if m_timer_pending h then m_id h :: waiting_of l else waiting_of l.
Proof. unfold waiting_of. rewrite filter_cons. case_decide as E; [by rewrite E|]. by destruct (m_timer_pending h). Qed.

(** The first in the list is cancelled. *)
Lemma cancel_ok h : handler_ok h -> let '(b, h') := cancel_timer h in
  b = m_timer_pending h /\ m_id h' = m_id h /\ m_timer_pending h' = false /\ (b = false -> handler_ok h').
Proof.
  intros [H1 H2]. unfold cancel_timer. destruct (m_cancel_timer_called h) eqn:E.
  - rewrite H1, (H2 eq_refl). repeat split; auto.
  - repeat split; auto.
Qed.

Lemma response_ok buff st : books_ok st -> books_ok (state_of (handle_response env buff st)).
Proof.
  intros Hb. unfold handle_response. destruct (m_invoke_response_handlers st) as [|h l] eqn:El; [exact Hb|].
  destruct Hb as [H1 H2 H3 H4 H5]. rewrite El in H3, H4, H5.
  inversion H3 as [|? ? Hl Hh]; inversion H4 as [|? ? [Hid Hok] Hl']; subst. pose proof (cancel_ok h Hok) as Hc.
  destruct (cancel_timer h) as [b h']. destruct Hc as (-> & Eid & Ep & Hok'). unfold waiting in *. rewrite El, waiting_cons in H1, H2.
  destruct (m_timer_pending h) eqn:Eh; destruct st; cbn in *; subst.
  - split; cbn; [| |done|done|intros Hr; by specialize (H5 Hr)].
    + rewrite <- H1, fmap_app. cbn. rewrite Eid. rewrite <- app_assoc. apply Permutation_app_head. cbn. by rewrite Permutation_middle.
    + unfold waiting. cbn. rewrite u32_back. f_equal. lia.
  - split; unfold waiting; cbn; rewrite ?waiting_cons, ?Ep, ?Eid; [done|done|done| |intros Hr; by specialize (H5 Hr)].
    constructor; [|done]. rewrite Eid. auto.
Qed.

(** A response is for the first in the list, the oldest request there. *)
Lemma response_to_oldest st : books_ok st -> forall buff, match m_invoke_response_handlers st with
  | [] => handle_response env buff st = Refuse st
  | oldest :: _ => exists st', handle_response env buff st = More st' /\
      if m_timer_pending oldest then
        let code := m_return_code (m_current_head st) in
        waiting st = m_id oldest :: waiting st' /\ (forall id, id ∈ waiting st' -> (m_id oldest < id)%nat) /\
        m_called st' = m_called st ++ [(m_id oldest, code)] /\
        m_context st' = callback env (m_id oldest) code buff (m_context st)
      else waiting st' = waiting st /\ m_called st' = m_called st /\ m_context st' = m_context st
  end.
Proof.
  intros [_ _ H3 H4 _] buff. unfold handle_response. destruct (m_invoke_response_handlers st) as [|h l] eqn:El; [done|].
  inversion H3 as [|? ? _ Hh]; inversion H4 as [|? ? [_ Hok] _]; subst. pose proof (cancel_ok h Hok) as Hc.
  destruct (cancel_timer h) as [b h']. destruct Hc as (-> & Eid & Ep & _). unfold waiting. rewrite El, waiting_cons.
  destruct (m_timer_pending h); destruct st; cbn in *; eexists; (split; [done|]); cbn.
  - rewrite Eid. split_and!; try done. intros id (h0 & -> & [_ Hin]%list_elem_of_filter)%list_elem_of_fmap.
    rewrite Forall_forall in Hh. by apply Hh, list_elem_of_fmap_2.
  - rewrite waiting_cons, Ep. done.
Qed.

(** All that wait are cancelled. *)
Lemma cancel_all l : forall st, Forall handler_ok l -> let st' := foldl (fun st h => cancel env h st) st l in
  (m_called st').*1 = (m_called st).*1 ++ waiting_of l /\ m_timeouts st' = m_timeouts st
  /\ m_invoke_response_handlers st' = m_invoke_response_handlers st /\ m_requests st' = m_requests st
  /\ m_protocol_released st' = m_protocol_released st
  /\ forall n, m_wait_count st = u32 (n + Z.of_nat (length (waiting_of l))) -> m_wait_count st' = u32 n.
Proof.
  induction l as [|h l IH]; intros st Hl; cbn zeta.
  - change (waiting_of []) with (@nil nat). cbn. rewrite app_nil_r. repeat split; auto. intros n ->. f_equal. lia.
  - inversion Hl as [|? ? Hh Hl']; subst. cbn [foldl]. destruct (IH (cancel env h st) Hl') as (E1 & E2 & E3 & E4 & E5 & E6).
    pose proof (cancel_ok h Hh) as Hc. rewrite E1, E2, E3, E4, E5, waiting_cons. revert E6. unfold cancel.
    destruct (cancel_timer h) as [b h']. destruct Hc as (-> & _). cbn [fst]. destruct (m_timer_pending h); [|by intros E6; repeat split].
    intros E6. destruct st; cbn in *. rewrite fmap_app, <- app_assoc. repeat split; auto. intros n Hn. apply E6. rewrite Hn, u32_back. f_equal. lia.
Qed.

Lemma request_books buff st : books (state_of (handle_request env buff st)) = books st.
Proof.
  destruct st as [rl w cl h mx ca fr s v l e n d t]. unfold handle_request. cbn. destruct (negb _); [|done].
  destruct (invoke env _ _ _) as [[rc out] e']. unfold send_message. cbn.
  destruct (_ && _); cbn; (destruct (bool_decide _); cbn; [done|]); by destruct (do_send env _ e') as [[] e''].
Qed.
Lemma dispatch_books buff st : books_ok st -> books_ok (state_of (dispatch env buff st)).
Proof. intros Hb. unfold dispatch. destruct (_ && _); [by apply response_ok|]. by eapply same_books; [apply request_books|]. Qed.
Lemma packet_books max buff st : books_ok st -> books_ok (state_of (handle_packet env max buff st)).
Proof.
  intros Hb. unfold handle_packet. destruct (has _ (Z.lor _ _)); [by apply dispatch_books|]. destruct (_ =? _); [done|].
  assert (forall f x, books_ok x -> books_ok (with_fragment f x)) as Hf by (intros f x; apply same_books; by destruct x).
  assert (forall h x, books_ok x -> books_ok (with_head h x)) as Hh by (intros h x; apply same_books; by destruct x).
  assert (books_ok (if has (m_flags (m_current_head st)) LEVIN_PACKET_BEGIN then with_fragment [] st else st)) as H1 by (destruct (has _ _); auto).
  set (st1 := if has _ LEVIN_PACKET_BEGIN then _ else _) in *.
  repeat (match goal with |- context [if ?b then _ else _] => destruct b end); cbn [state_of]; auto. all: apply dispatch_books; auto.
Qed.
Lemma round_books max st : books_ok st -> books_ok (state_of (round env max 0 st)).
Proof.
  intros Hb. destruct (round env max 0 st) as [st'|st'|st'] eqn:E.
  2: { by rewrite (round_stop env _ _ _ _ E). }
  all: unfold round in E; destruct (m_state st).
  1, 3: repeat case_match; simplify_eq/=; (exact Hb || (apply (same_books st); [by destruct st|exact Hb])).
  all: destruct (_ <? _); [done|]; set (st1 := with_state _ _) in E;
    assert (books_ok st1) as H1 by (apply (same_books st); [by destruct st|done]);
    pose proof (packet_books max (take (Z.to_nat (m_cb (m_current_head st))) (m_cache_in_buffer st)) st1 H1) as H; by rewrite E in H.
Qed.
Lemma recv_books data st : books_ok st -> exists ok st', handle_recv env data st = Some (ok, st') /\ books_ok st'.
Proof.
  intros Hb. destruct (recv_cases data st) as (ok & st' & E & Hr). exists ok, st'. split; [done|]. destruct Hr as [->|Hr]; [done|].
  apply (runs_ind env books_ok (m_max_packet_size st)) in Hr; [done|by apply round_books|]. apply (same_books st); [by destruct st|done].
Qed.

Lemma wait_back st : books_ok st -> u32 (u32 (m_wait_count st + 1) - 1) = m_wait_count st.
Proof. intros Hb. rewrite (calls_counted _ Hb), u32_step, u32_back. f_equal. lia. Qed.

Lemma seq_more n : seq 0 (S n) = seq 0 n ++ [n].
Proof. by rewrite <- Nat.add_1_r, seq_app. Qed.

(** A request whose callback is called at once, and one that waits *)
Definition handlers_after (st : conn) (pending : bool) (l : list anvoke_handler) : Prop :=
  m_protocol_released st = false /\ l = m_invoke_response_handlers st ++ [Anvoke (m_requests st) pending pending false false].

Lemma handlers_after_ok st pending l : books_ok st -> handlers_after st pending l ->
  StronglySorted lt (m_id <$> l) /\ Forall (fun h => (m_id h < S (m_requests st))%nat /\ handler_ok h) l
  /\ waiting_of l = waiting st ++ (if pending then [m_requests st] else []).
Proof.
  intros [_ _ H3 H4 _] [_ ->]. repeat split.
  - rewrite fmap_app. apply StronglySorted_app_2; [|done|by repeat constructor]. intros x y Hx Hy.
    apply list_elem_of_fmap in Hx as (h & -> & Hh). rewrite Forall_forall in H4. destruct (H4 h Hh) as [Hid _].
    cbn in Hy. apply list_elem_of_singleton in Hy as ->. exact Hid.
  - apply Forall_app. split; [eapply Forall_impl; [exact H4|]; intros h [Hid Hok]; split; [lia|done]|].
    repeat constructor; cbn; intros; (lia || done).
  - unfold waiting, waiting_of. rewrite filter_app, fmap_app. f_equal. by destruct pending.
Qed.
Lemma request_called st st' e l : books_ok st -> l = m_invoke_response_handlers st \/ handlers_after st false l ->
  books st' = (m_called st ++ [(m_requests st, e)], m_timeouts st, l, S (m_requests st), m_wait_count st, m_protocol_released st) -> books_ok st'.
Proof.
  intros Hb Hl E. unfold books in E. injection E as E1 E2 E3 E4 E5 E6. pose proof Hb as [H1 H2 H3 H4 H5].
  assert (StronglySorted lt (m_id <$> l) /\ Forall (fun h => (m_id h < S (m_requests st))%nat /\ handler_ok h) l /\ waiting_of l = waiting st
    /\ (m_protocol_released st = true -> l = [])) as (S1 & S2 & S3 & S4).
  { destruct Hl as [->|Hl].
    - repeat split; auto. eapply Forall_impl; [exact H4|]. intros h [Hid Hok]. split; [lia|done].
    - pose proof (handlers_after_ok st false l Hb Hl) as (A & B & D). cbv iota in D. rewrite app_nil_r in D. repeat split; auto.
      intros Hr. destruct Hl as [Hr' _]. congruence. }
  split; unfold waiting; rewrite ?E1, ?E2, ?E3, ?E4, ?E5, ?E6, ?S3; auto.
  rewrite seq_more, <- H1, fmap_app. cbn. rewrite <- !app_assoc. apply Permutation_app_head. cbn. by rewrite Permutation_cons_append, <- app_assoc.
Qed.
Lemma request_waits st st' l : books_ok st -> handlers_after st true l ->
  books st' = (m_called st, m_timeouts st, l, S (m_requests st), u32 (m_wait_count st + 1), m_protocol_released st) -> books_ok st'.
Proof.
  intros Hb Hl E. unfold books in E. injection E as E1 E2 E3 E4 E5 E6. destruct (handlers_after_ok st true l Hb Hl) as (A & B & D).
  destruct Hb as [H1 H2 _ _ _]. split; unfold waiting; rewrite ?E1, ?E2, ?E3, ?E4, ?E5, ?E6, ?D; auto.
  - rewrite seq_more, <- H1. by rewrite !app_assoc.
  - rewrite H2, u32_step, length_app. cbn. f_equal. lia.
  - destruct Hl as [Hr _]. congruence.
Qed.

Lemma sorted_lt_NoDup (l : list nat) : StronglySorted lt l -> NoDup l.
Proof.
  induction 1 as [|x l Hl IH Hx]; constructor; [|done]. intros Hin. rewrite Forall_forall in Hx. specialize (Hx x Hin). lia.
Qed.
Lemma filter_one (id : nat) l : NoDup l -> id ∈ l -> l ≡ₚ id :: filter (fun i => i <> id) l.
Proof.
  induction 1 as [|x l Hx Hl IH]; [by intros ?%not_elem_of_nil|]. rewrite elem_of_cons, filter_cons.
  destruct (decide (x = id)) as [->|Hne].
  - intros _. rewrite decide_False by auto. f_equiv. rewrite filter_all; [done|]. rewrite Forall_forall. by intros y Hy ->.
  - intros [->|Hin]; [done|]. rewrite decide_True by done. etransitivity; [apply Permutation_skip, (IH Hin)|]. apply Permutation_swap.
Qed.

Definition expired (id : nat) (h : anvoke_handler) : anvoke_handler :=
  if bool_decide (m_id h = id) then Anvoke (m_id h) false (m_timer_started h) (m_cancel_timer_called h) (m_timer_cancelled h) else h.
Lemma expired_id id h : m_id (expired id h) = m_id h.
Proof. unfold expired. by case_bool_decide. Qed.
Lemma expired_others id (l : list anvoke_handler) : id ∉ m_id <$> l -> expired id <$> l = l.
Proof.
  intros Hn. induction l as [|h l IH]; [done|]. rewrite fmap_cons, not_elem_of_cons in Hn. destruct Hn as [Hh Hn].
  rewrite fmap_cons, IH by done. unfold expired. by rewrite bool_decide_eq_false_2 by auto.
Qed.
Lemma waiting_expired id (l : list anvoke_handler) : NoDup (m_id <$> l) -> Exists (fun h => m_id h = id /\ m_timer_pending h = true) l ->
  waiting_of l ≡ₚ id :: waiting_of (expired id <$> l).
Proof.
  induction l as [|h l IH]; [by intros _ ?%Exists_nil|]. rewrite !fmap_cons. intros [Hh Hl]%NoDup_cons He. rewrite !waiting_cons.
  unfold expired at 1 2. destruct (decide (m_id h = id)) as [Eid|Hne].
  - rewrite bool_decide_eq_true_2 by done. cbn. rewrite expired_others by congruence. apply Exists_cons in He as [[_ ->]|He]; [by rewrite Eid|].
    exfalso. apply Hh. apply Exists_exists in He as (h' & Hin & Eh & _). rewrite Eid, <- Eh. by apply list_elem_of_fmap_2.
  - rewrite bool_decide_eq_false_2 by done. apply Exists_cons in He as [[? _]|He]; [done|]. specialize (IH Hl He).
    destruct (m_timer_pending h); [|done]. rewrite IH. apply Permutation_swap.
Qed.

Lemma expire_books id st : books_ok st -> books_ok (expire id st).
Proof.
  intros Hb. unfold expire. case_bool_decide as He; [|done]. change (fun h => if bool_decide (m_id h = id) then _ else h) with (expired id).
  pose proof Hb as [H1 H2 H3 H4 H5]. pose proof (waiting_expired id _ (sorted_lt_NoDup _ H3) He) as Hp.
  unfold waiting in H1, H2. destruct st; cbn in *. split; unfold waiting; cbn.
  - rewrite <- H1, Hp. apply Permutation_app_head. by rewrite <- app_assoc.
  - rewrite H2, Hp, length_app. cbn. f_equal. lia.
  - replace (m_id <$> (expired id <$> _)) with (m_id <$> m_invoke_response_handlers0); [done|].
    rewrite <- list_fmap_compose. apply list_fmap_ext. intros i h _. symmetry. apply expired_id.
  - rewrite Forall_fmap. eapply Forall_impl; [exact H4|]. intros h [Hid [K1 K2]]. cbn. rewrite expired_id. split; [done|].
    unfold expired. case_bool_decide; split; cbn; auto.
  - intros Hr. by rewrite (H5 Hr).
Qed.
Lemma timeout_books id st : books_ok st -> books_ok (run_timeout env id st).
Proof.
  intros Hb. unfold run_timeout. case_bool_decide as He; [|done]. pose proof Hb as [H1 H2 H3 H4 H5].
  assert (NoDup (m_timeouts st)) as Hn.
  { pose proof (NoDup_seq 0 (m_requests st)) as Hs. rewrite <- H1 in Hs. apply NoDup_app in Hs as (_ & _ & Hs). by apply NoDup_app in Hs as (? & _). }
  pose proof (filter_one id _ Hn He) as Hp. unfold waiting in H1, H2. destruct st; cbn in *. split; unfold waiting; cbn; [| |done|done|done].
  - rewrite <- H1, fmap_app, <- app_assoc. apply Permutation_app_head. cbn. rewrite Hp at 2. done.
  - apply Permutation_length in Hp. rewrite H2, u32_back. f_equal. cbn in Hp. lia.
Qed.
Lemma release_books st : books_ok st -> books_ok (release_protocol env st).
Proof.
  intros Hb. pose proof Hb as [H1 H2 H3 H4 H5]. unfold release_protocol.
  destruct (cancel_all (m_invoke_response_handlers st) (with_released st)) as (E1 & E2 & E3 & E4 & E5 & E6);
    [eapply Forall_impl; [exact H4|]; by intros h [_ ?]|].
  set (st' := foldl _ _ _) in *. unfold waiting in H1, H2. destruct st; cbn in *. split; unfold waiting; rewrite ?E1, ?E2, ?E3, ?E4, ?E5; cbn.
  - rewrite <- H1, app_nil_r, <- app_assoc. apply Permutation_app_head, Permutation_app_comm.
  - rewrite (E6 (Z.of_nat (length m_timeouts0))); [f_equal; change (waiting_of []) with (@nil nat); cbn; lia|]. rewrite H2. f_equal. lia.
  - constructor.
  - constructor.
  - done.
Qed.

Lemma invoke_books command msg st : books_ok st -> books_ok (invoke_async env command msg st).2.
Proof.
  intros Hb. pose proof (wait_back st Hb) as Hw. unfold invoke_async, start_outer_call at 1. destruct (negb _); [done|]. cbn [negb].
  unfold async_invoke. destruct st as [rl w cl h mx ca fr s v l e n d t]. cbn in Hw.
  match goal with |- context [send_message _ _ ?x] => set (st1 := x) end.
  assert (exists m, st1 = Conn rl (u32 (w + 1)) cl h m ca fr s v l e (S n) d t) as [m ->] by (unfold st1; cbn; destruct (_ =? _); eauto).
  unfold send_message. destruct (bool_decide _) eqn:Hz; cbn.
  { eapply (request_called _ _ LEVIN_ERROR_CONNECTION); [exact Hb|by left|]. unfold books. cbn. by rewrite Hw. }
  destruct (do_send env _ _) as [[] e']; cbn.
  2: { eapply (request_called _ _ LEVIN_ERROR_CONNECTION); [exact Hb|by left|]. unfold books. cbn. by rewrite Hw. }
  unfold add_invoke_response_handler, start_outer_call. cbn. destruct rl; cbn.
  { eapply (request_called _ _ LEVIN_ERROR_CONNECTION_DESTROYED); [exact Hb|by left|]. unfold books. cbn. by rewrite Hw. }
  destruct (negb _); cbn.
  - eapply (request_called _ _ LEVIN_ERROR_CONNECTION_DESTROYED); [exact Hb|right; split; reflexivity|]. unfold books. cbn. by rewrite Hw.
  - eapply (request_waits _ _); [exact Hb|split; reflexivity|]. unfold books. cbn. rewrite u32_step, u32_back. do 3 f_equal. lia.
Qed.
Lemma send_books message st : books_ok st -> books_ok (send env message st).2.
Proof.
  intros Hb. pose proof (wait_back st Hb) as Hw. apply (same_books st); [|done]. unfold send, start_outer_call, send_message.
  destruct st as [rl w cl h mx ca fr s v l e n d t]. cbn in *. destruct (negb _); [done|]. cbn.
  destruct (bool_decide _); [unfold books; cbn; by rewrite Hw|]. destruct (do_send env _ _) as [[] e']; unfold books; cbn; by rewrite Hw.
Qed.
Lemma happen_books e st : books_ok st -> exists st', happen e st = Some st' /\ books_ok st'.
Proof.
  intros Hb. destruct e as [data|command msg|message|id|id| |wait]; cbn; [|eexists; split; [reflexivity|]..].
  - destruct (recv_books data st Hb) as (ok & st' & -> & H). by exists st'.
  - by apply invoke_books.
  - by apply send_books.
  - by apply expire_books.
  - by apply timeout_books.
  - by apply release_books.
  - apply (same_books st); [by destruct st|done].
Qed.
Lemma new_books initial context : books_ok (new_handler initial context).
Proof. split; cbn; [done|done|constructor|constructor|done]. Qed.
End Histories.

(** ** Messages arrive *)

Section Delivery.
Context {C : Type} (env : surroundings C).
Notation conn := (async_protocol_handler C).
Notation max_size := (config_max_packet_size env).

(** An object that reads the bytes [c] with the fragments [f] collected *)
Definition reading (st : conn) (c f : list Z) (h : bucket_head2) (v : Z) : conn :=
  with_cache c (with_fragment f (with_version v (with_head h st))).

Lemma reading_same st : reading st (m_cache_in_buffer st) (m_fragment_buffer st) (m_current_head st) (m_oponent_protocol_ver st) = st.
Proof. by destruct st. Qed.

(** A header and its body are read in two rounds. *)
Lemma frame_runs max h body rest f h0 v0 st st' r : m_state st = stream_state_head ->
  head_ok h -> m_signature h = LEVIN_SIGNATURE -> m_cb h = Z.of_nat (length body) -> m_cb h <= Z.min max (get_max_bytes (m_command h)) ->
  handle_packet env max body (reading st rest f h (int32 (m_protocol_version h))) = More st' -> runs env max st' r ->
  runs env max (reading st (head_bytes h ++ body ++ rest) f h0 v0) r.
Proof.
  intros Est Hok Hsig Hcb Hmax E Hr. apply runs_step. unfold round at 1.
  replace (m_state _) with stream_state_head by (by destruct st). replace (m_cache_in_buffer _) with (head_bytes h ++ body ++ rest) by (by destruct st).
  pose proof (head_bytes_length h) as Hlen. rewrite length_app, Hlen, bool_decide_eq_false_2 by lia.
  rewrite (take_app_length' (head_bytes h)), (drop_app_length' (head_bytes h)), head_of_bytes, Hsig, Z.eqb_refl by done. cbn [negb].
  replace (_ <? m_cb h) with false by (symmetry; apply Z.ltb_ge; lia). apply runs_step. unfold round at 1.
  set (st1 := with_version _ _). assert (st1 = with_state stream_state_body (reading st (body ++ rest) f h (int32 (m_protocol_version h)))) as ->
    by (unfold st1; by destruct st).
  replace (m_state _) with stream_state_body by (by destruct st). replace (m_cache_in_buffer _) with (body ++ rest) by (by destruct st).
  replace (m_current_head _) with h by (by destruct st). rewrite Hcb, Nat2Z.id, length_app.
  replace (_ <? _) with false by (symmetry; apply Z.ltb_ge; lia). rewrite take_app_length, drop_app_length.
  replace (with_state _ _) with (reading st rest f h (int32 (m_protocol_version h))) by (destruct st; cbn in *; by subst). by rewrite E.
Qed.

(** A message that is a notification calls the command. *)
Lemma notify_packet max c f command size payload st :
  handle_packet env max payload (reading st c f (make_header command size LEVIN_PACKET_REQUEST false) 1)
  = More (with_context (notify env (int32 command) payload (m_context st)) (reading st c f (make_header command size LEVIN_PACKET_REQUEST false) 1)).
Proof. by destruct st. Qed.

Lemma last_fragment max c f h size command payload zeros body st : head_ok (make_header command (Z.of_nat (length payload)) LEVIN_PACKET_REQUEST false) ->
  h = make_header 0 size LEVIN_PACKET_END false ->
  f ++ body = head_bytes (make_header command (Z.of_nat (length payload)) LEVIN_PACKET_REQUEST false) ++ payload ++ replicate zeros 0 ->
  Z.of_nat (length payload) <= Z.min max (get_max_bytes command) ->
  handle_packet env max body (reading st c f h 1)
  = More (with_context (notify env (int32 command) payload (m_context st))
            (reading st c [] (make_header command (Z.of_nat (length payload)) LEVIN_PACKET_REQUEST false) 1)).
Proof.
  intros Hok -> Ef Hmax. set (hd := make_header command _ _ _) in *. unfold handle_packet.
  replace (m_current_head _) with (make_header 0 size LEVIN_PACKET_END false) by (by destruct st). cbn [m_flags make_header].
  change (has LEVIN_PACKET_END (Z.lor LEVIN_PACKET_REQUEST LEVIN_PACKET_RESPONSE)) with false.
  change (Z.land LEVIN_PACKET_END (Z.lor LEVIN_PACKET_BEGIN LEVIN_PACKET_END) =? Z.lor LEVIN_PACKET_BEGIN LEVIN_PACKET_END) with false.
  change (has LEVIN_PACKET_END LEVIN_PACKET_BEGIN) with false. change (has LEVIN_PACKET_END LEVIN_PACKET_END) with true. cbn [negb].
  replace (m_fragment_buffer (reading _ _ _ _ _)) with f by (by destruct st). rewrite Ef.
  replace (m_fragment_buffer _) with (head_bytes hd ++ payload ++ replicate zeros 0) by (by destruct st).
  pose proof (head_bytes_length hd) as Hlen. rewrite length_app, Hlen, bool_decide_eq_false_2 by lia.
  rewrite (take_app_length' (head_bytes hd)), (drop_app_length' (head_bytes hd)), head_of_bytes by done.
  change (m_cb hd) with (Z.of_nat (length payload)). change (m_command hd) with command. rewrite Nat2Z.id, length_app, take_app_length.
  replace (_ <? _) with false by (symmetry; apply Z.ltb_ge; lia). replace (_ <? _) with false by (symmetry; apply Z.ltb_ge; lia). by destruct st.
Qed.

Lemma message_ok command size flags b : 0 <= command < 2 ^ 32 -> Z.of_nat size < 2 ^ 64 -> 0 <= flags < 16 -> head_ok (make_header command (Z.of_nat size) flags b).
Proof. intros Hc Hs Hf. apply make_header_ok; unfold pod_ok, width; cbn; lia. Qed.
Lemma outer_ok size flags : Z.of_nat size < 2 ^ 64 -> 0 <= flags < 16 -> head_ok (make_header 0 (Z.of_nat size) flags false).
Proof. by apply message_ok. Qed.
Lemma max_bytes_0 : get_max_bytes 0 = 2 ^ 64 - 1.
Proof. done. Qed.

(** The fragments after the first one *)
Lemma fragments_run max space st rest r : (0 < space)%nat -> Z.of_nat space <= max -> max < 2 ^ 64 -> m_state st = stream_state_head ->
  forall fuel payload c0 bytes cs f h0, fragments_loop fuel space payload c0 = (bytes, cs) -> payload <> [] -> (length payload <= fuel)%nat ->
  (forall f' body, f' ++ body = f ++ payload ++ replicate (space - cs) 0 ->
     exists st', handle_packet env max body (reading st rest f' (make_header 0 (Z.of_nat space) LEVIN_PACKET_END false) 1) = More st' /\ runs env max st' r) ->
  runs env max (reading st (bytes ++ replicate (space - cs) 0 ++ rest) f h0 1) r.
Proof.
  intros Hsp Hmax Hmax64 Est fuel. induction fuel as [|fuel IH]; intros payload c0 bytes cs f h0 E Hne Hf Hlast; [destruct payload; [done|cbn in Hf; lia]|].
  cbn [fragments_loop] in E. rewrite bool_decide_eq_false_2 in E by done. case_bool_decide as Hd.
  - rewrite Hd in E. assert (fragments_loop fuel space [] (length (take space payload)) = ([], length (take space payload))) as E'
      by (destruct fuel; cbn [fragments_loop]; rewrite ?bool_decide_eq_true_2 by done; done).
    rewrite E' in E. apply pair_eq in E as [<- <-]. rewrite app_nil_r.
    assert (length payload <= space)%nat as Hle by (apply (f_equal length) in Hd; rewrite length_drop in Hd; cbn in Hd; lia).
    rewrite take_ge in * by done. destruct (Hlast f (payload ++ replicate (space - length payload) 0) eq_refl) as (st' & Ep & Hr).
    rewrite <- !app_assoc, (app_assoc payload). eapply (frame_runs max (make_header 0 (Z.of_nat space) LEVIN_PACKET_END false));
      [done|apply outer_ok; [lia|done]|done| | |exact Ep|exact Hr].
    + cbn. rewrite length_app, length_replicate. lia.
    + cbn [m_cb m_command make_header]. rewrite max_bytes_0. lia.
  - destruct (fragments_loop fuel space (drop space payload) (length (take space payload))) as [b1 cs1] eqn:E1. apply pair_eq in E as [<- <-].
    assert (space < length payload)%nat as Hgt by (destruct (le_lt_dec (length payload) space) as [Hx|Hx]; [by rewrite drop_ge in Hd|done]).
    rewrite <- !app_assoc.
    eapply (frame_runs max (make_header 0 (Z.of_nat space) 0 false) (take space payload) _ f h0 1 st
      (reading st (b1 ++ replicate (space - cs1) 0 ++ rest) (f ++ take space payload) (make_header 0 (Z.of_nat space) 0 false) 1));
      [done|apply outer_ok; [lia|done]|done| | |by destruct st|].
    + cbn. rewrite length_take. lia.
    + cbn [m_cb m_command make_header]. rewrite max_bytes_0. lia.
    + eapply IH; [exact E1|done|rewrite length_drop; lia|]. intros f' body Hb. apply Hlast. rewrite Hb, <- !app_assoc. f_equal.
      by rewrite app_assoc, take_drop.
Qed.

(** An object between two messages *)
Definition idle (st : conn) : Prop := m_close_called st = 0 /\ m_state st = stream_state_head /\ m_cache_in_buffer st = [].

Lemma idle_rests max st : idle st -> resting env max st.
Proof. intros (_ & Es & Ec). unfold resting, round. by rewrite Es, Ec. Qed.

Lemma finalize_header command flags b payload :
  finalize command flags 0 b payload = head_bytes (make_header command (Z.of_nat (length payload)) flags b) ++ payload.
Proof. done. Qed.

(** The whole of a notification, padded or in fragments *)
Lemma notification_runs noise_size command message st : idle st -> 0 <= command < 2 ^ 31 ->
  (2 * sizeof_head <= noise_size)%nat -> Z.of_nat noise_size <= max_size < 2 ^ 64 ->
  Z.of_nat (length message) <= Z.min max_size (get_max_bytes command) ->
  Z.of_nat noise_size <= get_max_bytes command ->
  exists zeros h f, runs env max_size (more_bytes (make_fragmented_notify noise_size command message) st)
    (true, with_context (notify env command (message ++ replicate zeros 0) (m_context st)) (reading st [] f h 1)).
Proof.
  intros (_ & Est & Ec) Hc Hn Hmax Hlen Hcmd. assert (u32 command = command) as Eu by (apply wrap_small; unfold in_width; lia).
  assert (int32 command = command) as Ei by (unfold int32; rewrite Eu; by replace (command <? 2 ^ 31) with true by (symmetry; apply Z.ltb_lt; lia)).
  unfold more_bytes. rewrite Ec. cbn [app]. assert (forall bytes, with_cache bytes st = reading st bytes (m_fragment_buffer st) (m_current_head st) (m_oponent_protocol_ver st)) as Er by (by destruct st).
  rewrite Er. unfold make_fragmented_notify. rewrite bool_decide_eq_false_2, Eu by lia.
  assert (forall h f e, runs env max_size (with_context e (reading st [] f h 1)) (true, with_context e (reading st [] f h 1))) as Hend
    by (intros h f e; apply resting_runs; unfold resting, round; destruct st; cbn in *; by subst).
  unfold finalize_notify. rewrite !finalize_header. case_bool_decide as Hfit.
  - set (zeros := (noise_size - (sizeof_head + length message))%nat). exists zeros, (make_header command (Z.of_nat (length (message ++ replicate zeros 0))) LEVIN_PACKET_REQUEST false), (m_fragment_buffer st).
    assert (Z.of_nat (length (message ++ replicate zeros 0)) <= Z.of_nat noise_size) as Hz
      by (rewrite length_app, length_replicate; unfold zeros, sizeof_head in *; lia).
    rewrite <- (app_nil_r (head_bytes _ ++ _)), <- app_assoc.
    eapply frame_runs; [done|apply message_ok; [lia|lia|done]|done|done| |by apply notify_packet|].
    1: { cbn [m_cb m_command make_header]. lia. }
    rewrite Ei. apply Hend.
  - set (payload := head_bytes _ ++ message). set (space := (noise_size - sizeof_head)%nat).
    assert (length payload = sizeof_head + length message)%nat as Hpl by (unfold payload; by rewrite length_app, head_bytes_length).
    destruct (fragments_loop _ _ _ _) as [bytes cs] eqn:E. exists 0%nat. do 2 eexists.
    replace (noise_size - cs - sizeof_head)%nat with (space - cs)%nat by (unfold space; lia).
    rewrite <- (app_nil_r (replicate (space - cs) 0)).
    eapply (frame_runs max_size (make_header 0 (Z.of_nat space) LEVIN_PACKET_BEGIN false) (take space payload) _ _ _ _ st
      (reading st (bytes ++ replicate (space - cs) 0 ++ []) (take space payload) (make_header 0 (Z.of_nat space) LEVIN_PACKET_BEGIN false) 1));
      [done|apply outer_ok; [unfold space; lia|done]|done| | |by destruct st|].
    + cbn [m_cb make_header]. rewrite length_take, Hpl. unfold space. lia.
    + cbn [m_cb m_command make_header]. rewrite max_bytes_0. unfold space. lia.
    + eapply (fragments_run max_size space st []); [unfold space, sizeof_head in *; lia|unfold space; lia|lia|done|exact E| |done|].
      * intros Hx. apply (f_equal length) in Hx. rewrite length_drop, Hpl in Hx. unfold space, sizeof_head in *. cbn in Hx. lia.
      * intros f' body Hb. rewrite app_assoc, take_drop in Hb. eexists. split.
        -- eapply (last_fragment max_size [] f' _ _ command message (space - cs) body st);
             [apply message_ok; [lia|lia|done]|done| |lia]. rewrite Hb. unfold payload. by rewrite <- app_assoc.
        -- cbn [replicate]. rewrite app_nil_r, Ei. apply Hend.
Qed.

(** A stream that is handled as a whole is handled in pieces. *)
Lemma pieces chunks st st' : idle st -> m_max_packet_size st = max_size -> max_size < 2 ^ 64 ->
  held st + Z.of_nat (length (concat chunks)) <= max_size ->
  runs env max_size (more_bytes (concat chunks) st) (true, st') -> recv_all env chunks st = Some (true, st').
Proof.
  intros Hi Hm Hmax Hh Hr. destruct (chunks_run env chunks st) as (ok & st1 & st2 & E & R & _ & Es); [by apply idle_rests|apply Hi|done|done|done|].
  pose proof (runs_det env _ _ _ _ Hr R) as Ed. injection Ed as <- ->. by rewrite Es in E.
Qed.
Lemma idle_after c h f v st : idle st -> idle (with_context c (reading st [] f h v)).
Proof. intros (H1 & H2 & H3). unfold idle. by destruct st. Qed.

Lemma idle_called id res buff l f h v st : idle st -> idle (finish_outer_call (call env id res buff (with_handlers l (reading st [] f h v)))).
Proof. intros (H1 & H2 & H3). unfold idle. by destruct st. Qed.

Lemma int32_range z : - 2 ^ 31 <= int32 z < 2 ^ 31.
Proof. unfold int32. pose proof (wrap_range 32 z ltac:(lia)) as Hr. unfold in_width in Hr. destruct (_ <? _) eqn:E; [apply Z.ltb_lt in E|apply Z.ltb_ge in E]; lia. Qed.
Lemma int32_u32 z : - 2 ^ 31 <= z < 2 ^ 31 -> int32 (u32 z) = z.
Proof.
  intros Hz. unfold int32. rewrite wrap_wrap. unfold wrap. destruct (Z.lt_ge_cases z 0).
  - replace (z mod 2 ^ 32) with (z + 2 ^ 32) by (apply (Z.mod_unique _ _ (-1)); lia). by replace (_ <? _) with false by (symmetry; apply Z.ltb_ge; lia); lia.
  - rewrite Z.mod_small by lia. by replace (_ <? _) with true by (symmetry; apply Z.ltb_lt; lia).
Qed.

(** A message that is not cut, up to what its command or callback does *)
Lemma message_runs h body st st' : idle st -> head_ok h -> m_signature h = LEVIN_SIGNATURE -> m_protocol_version h = 1 ->
  m_cb h = Z.of_nat (length body) -> m_cb h <= Z.min max_size (get_max_bytes (m_command h)) ->
  handle_packet env max_size body (reading st [] (m_fragment_buffer st) h 1) = More st' -> idle st' ->
  runs env max_size (more_bytes (head_bytes h ++ body) st) (true, st').
Proof.
  intros (_ & Est & Ec) Hok Hs Hv Hcb Hmax E Hi. rewrite <- (app_nil_r (head_bytes h ++ body)), <- app_assoc.
  replace (more_bytes _ st) with (reading st (head_bytes h ++ body ++ []) (m_fragment_buffer st) (m_current_head st) (m_oponent_protocol_ver st))
    by (unfold more_bytes; rewrite Ec; by destruct st).
  eapply frame_runs; [done|done|done|done|done|rewrite Hv; exact E|]. by apply resting_runs, idle_rests.
Qed.

Lemma request_packet st command size msg rc out e e' : m_max_packet_size st = max_size -> 0 <= command < 2 ^ 31 ->
  invoke env command msg (m_context st) = (rc, out, e) -> do_send env (finalize_response command (u32 rc) out) e = (true, e') ->
  handle_packet env max_size msg (reading st [] (m_fragment_buffer st) (make_header command size LEVIN_PACKET_REQUEST true) 1)
  = More (with_context e' (reading st [] (m_fragment_buffer st) (make_header command size LEVIN_PACKET_REQUEST true) 1)).
Proof.
  intros Hm Hc Ei Es. destruct st as [rl w cl h mx ca fr s v l c n d t]. cbn in Hm, Ei. subst mx.
  unfold handle_packet, dispatch, handle_request, reading. cbn -[int32 Z.pow finalize_response].
  assert (int32 command = command) as -> by (rewrite <- (int32_u32 command) at 2 by lia; unfold int32; by rewrite wrap_wrap).
  rewrite Ei. cbn -[finalize_response Z.pow]. unfold send_message. rewrite bool_decide_eq_false_2.
  2: { unfold finalize_response, finalize. rewrite length_app, head_bytes_length. lia. }
  destruct (_ && _); cbn -[finalize_response]; by rewrite Es.
Qed.

Lemma response_packet st h l head buff : m_invoke_response_handlers st = h :: l ->
  m_timer_pending h = true -> m_cancel_timer_called h = false ->
  m_flags head = LEVIN_PACKET_RESPONSE ->
  handle_packet env max_size buff (reading st [] (m_fragment_buffer st) head 1)
  = More (finish_outer_call (call env (m_id h) (m_return_code head) buff (with_handlers l (reading st [] (m_fragment_buffer st) head 1)))).
Proof.
  intros El Hp Hcc Hf. destruct st as [rl w cl h0 mx ca fr s v l0 c n d t]. cbn in El. subst l0. unfold handle_packet, dispatch, handle_response, reading. cbn.
  rewrite Hf. cbn. unfold cancel_timer. rewrite Hcc, Hp. done.
Qed.

(** A request that is sent waits with a timer. *)
Lemma invoke_sent command msg st st1 : idle st -> m_max_packet_size st = max_size -> m_invoke_response_handlers st = [] ->
  invoke_async env command msg st = (1, st1) ->
  do_send env (finalize_invoke (u32 command) msg) (m_context st) = (true, m_context st1) /\ idle st1 /\ m_max_packet_size st1 = max_size
  /\ held st1 = held st /\ m_called st1 = m_called st /\ m_invoke_response_handlers st1 = [Anvoke (m_requests st) true true false false].
Proof.
  intros (Hc & Es & Eca) Hm Hl. destruct st as [rl w cl h mx ca fr s v l c n d t]. cbn in *. subst cl s ca mx l.
  unfold invoke_async, start_outer_call. cbn. destruct (negb _); [discriminate|]. unfold async_invoke, send_message. cbn -[finalize_invoke].
  rewrite bool_decide_eq_false_2.
  2: { unfold finalize_invoke, finalize. rewrite length_app, head_bytes_length. lia. }
  destruct (_ =? _); cbn -[finalize_invoke]; (destruct (do_send env _ c) as [[] c'] eqn:Ed; cbn; [|discriminate]);
    unfold add_invoke_response_handler, start_outer_call; cbn; (destruct rl; cbn; [discriminate|]); (destruct (negb _); cbn; [discriminate|]);
    intros [= <-]; unfold idle, held; cbn; by repeat split.
Qed.

Lemma served command msg rc out e e' chunks st : idle st -> m_max_packet_size st = max_size -> max_size < 2 ^ 64 -> 0 <= command < 2 ^ 31 ->
  concat chunks = finalize_invoke command msg -> Z.of_nat (length msg) <= get_max_bytes command ->
  held st + Z.of_nat (length (concat chunks)) <= max_size ->
  invoke env command msg (m_context st) = (rc, out, e) -> do_send env (finalize_response command (u32 rc) out) e = (true, e') ->
  exists st', recv_all env chunks st = Some (true, st') /\ m_context st' = e'.
Proof.
  intros Hi Hm Hmax Hc Ech Hlen Hh Ei Es. assert (Z.of_nat (length msg) <= max_size) as Hl.
  { rewrite Ech in Hh. unfold finalize_invoke, finalize in Hh. rewrite length_app in Hh. unfold held in Hh. lia. }
  set (h := make_header command (Z.of_nat (length msg)) LEVIN_PACKET_REQUEST true).
  exists (with_context e' (reading st [] (m_fragment_buffer st) h 1)). split; [|by destruct st]. apply pieces; [done|done|done|done|].
  rewrite Ech. unfold finalize_invoke. rewrite finalize_header. apply message_runs; [done| |done|done|done| | |by apply idle_after].
  - apply message_ok; [lia|lia|done].
  - cbn [h m_cb m_command make_header]. lia.
  - by eapply request_packet.
Qed.

Lemma called_back command rc out chunks hd st : idle st -> m_max_packet_size st = max_size -> max_size < 2 ^ 64 -> 0 <= command < 2 ^ 31 ->
  - 2 ^ 31 <= rc < 2 ^ 31 -> concat chunks = finalize_response command (u32 rc) out -> Z.of_nat (length out) <= get_max_bytes command ->
  held st + Z.of_nat (length (concat chunks)) <= max_size ->
  m_invoke_response_handlers st = [hd] -> m_timer_pending hd = true -> m_cancel_timer_called hd = false ->
  exists st', recv_all env chunks st = Some (true, st') /\ m_context st' = callback env (m_id hd) rc out (m_context st)
    /\ m_called st' = m_called st ++ [(m_id hd, rc)] /\ m_invoke_response_handlers st' = [].
Proof.
  intros Hi Hm Hmax Hc Hrc Ech Hlen Hh El Hp Hcc. assert (Z.of_nat (length out) <= max_size) as Hl.
  { rewrite Ech in Hh. unfold finalize_response, finalize in Hh. rewrite length_app in Hh. unfold held in Hh. lia. }
  set (h := Head LEVIN_SIGNATURE (Z.of_nat (length out)) 0 command rc LEVIN_PACKET_RESPONSE LEVIN_PROTOCOL_VER_1).
  assert (finalize_response command (u32 rc) out = head_bytes h ++ out) as Ef by (unfold finalize_response, finalize; by rewrite int32_u32).
  eexists. split; [apply pieces; [done|done|done|done|]; rewrite Ech, Ef; apply message_runs; [done| |done|done|done| |by eapply (response_packet st hd [])|]|].
  - unfold head_ok, h, pod_ok, width, LEVIN_SIGNATURE, LEVIN_PROTOCOL_VER_1, LEVIN_PACKET_RESPONSE. cbn. lia.
  - cbn [h m_cb m_command]. lia.
  - by apply idle_called.
  - clear. by destruct st.
Qed.
End Delivery.

(** ** What holds of a connection *)

Section Theorems.
Context {C : Type} (env : surroundings C).
Notation conn := (async_protocol_handler C).
Notation max_size := (config_max_packet_size env).

(** C6: It does not matter in what pieces the bytes of a connection come: as long as they fit
    within the limit that is in force after the handshake, the commands called with their bytes, the
    callbacks, the answers sent and the acceptance are the same as for all bytes at once, and so
    is the object after bytes that are accepted. *)
Theorem chunks_irrelevant chunks (st : conn) : resting env (m_max_packet_size st) st -> m_close_called st = 0 ->
  m_max_packet_size st = max_size -> max_size < 2 ^ 64 -> held st + Z.of_nat (length (concat chunks)) <= max_size ->
  exists ok st1 st2, recv_all env chunks st = Some (ok, st1) /\ handle_recv env (concat chunks) st = Some (ok, st2)
    /\ seen st1 = seen st2 /\ (ok = true -> st1 = st2).
Proof.
  intros Hr Hc Hm Hmax Hh. destruct (chunks_run env chunks st Hr Hc Hm Hmax Hh) as (ok & st1 & st2 & E & R & S).
  exists ok, st1, st2. split; [done|]. split; [|done]. apply recv_runs; [done|lia|lia|by rewrite Hm].
Qed.

(** C14: Whatever happens on a connection, no more bytes are kept for the peer than its limit, which
    is the one of the start or the configured one, and the loop over its bytes ends. So the
    two runtime checks of the sizes never fail, and bytes are refused unread exactly when the
    connection is being closed or they would exceed the limit. *)
Theorem buffers_bounded initial (context : C) es : 0 <= initial <= max_size -> max_size < 2 ^ 64 ->
  exists st, history env es (new_handler initial context) = Some st /\ held st <= m_max_packet_size st <= max_size
    /\ Z.of_nat (length (m_cache_in_buffer st)) <=? m_max_packet_size st = true
    /\ Z.of_nat (length (m_fragment_buffer st)) <=? u64 (m_max_packet_size st - Z.of_nat (length (m_cache_in_buffer st))) = true
    /\ forall data, exists ok st', handle_recv env data st = Some (ok, st')
       /\ if (negb (m_close_called st =? 0)) || (m_max_packet_size st - held st <? Z.of_nat (length data))
          then (ok, st') = (false, st) else runs env (m_max_packet_size st) (more_bytes data st) (ok, st').
Proof.
  intros Hi Hmax. destruct (history_ind env (bounded env) (fun e st => happen_bounded env e st Hmax) es (new_handler initial context)) as (st & E & Hb);
    [unfold bounded, held; cbn; lia|].
  exists st. split; [done|]. split; [done|]. destruct Hb as [Hh Hm]. unfold held in *.
  assert (u64 (m_max_packet_size st - Z.of_nat (length (m_cache_in_buffer st))) = m_max_packet_size st - Z.of_nat (length (m_cache_in_buffer st))) as Eu
    by (apply wrap_small; unfold in_width; lia).
  rewrite Eu. split; [lia|]. split; [lia|]. intros data. destruct (recv_cases env data st) as (ok & st' & Er & _). exists ok, st'. split; [done|].
  destruct (m_close_called st =? 0) eqn:Ec; cbn [negb orb].
  - apply Z.eqb_eq in Ec. destruct (_ <? _) eqn:Hlt; [apply Z.ltb_lt in Hlt|apply Z.ltb_ge in Hlt].
    + unfold handle_recv in Er. rewrite Ec, Eu, (wrap_small 64 (_ - _ - _)) in Er by (unfold in_width; lia). cbn [negb Z.eqb] in Er.
      destruct (negb (_ <=? _)); [congruence|]. destruct (negb (_ <=? _)); [congruence|].
      replace (_ <? _) with true in Er by (symmetry; apply Z.ltb_lt; lia). congruence.
    + apply recv_runs in Er; [done|done|lia|unfold held; lia].
  - unfold handle_recv in Er. rewrite Ec in Er. cbn [negb] in Er. congruence.
Qed.

(** C7: Each request's callback is called at most once: at any time a request was called back, has
    a timeout that is about to run, or waits with a timer, and only one of these; after the
    protocol is released none waits. Outer calls are counted exactly: one for each timeout and
    timer. A response is for the oldest request in the list: when its timer is running it is the
    one that waits longest, its callback gets the code and the bytes, and all others go on
    waiting; when its timer has run out nobody is called; and when the list is empty the response
    is refused. *)
Theorem callbacks_once initial (context : C) es : exists st, history env es (new_handler initial context) = Some st
  /\ (m_called st).*1 ++ m_timeouts st ++ waiting st ≡ₚ seq 0 (m_requests st)
  /\ m_wait_count st = u32 (Z.of_nat (length (m_timeouts st) + length (waiting st)))
  /\ StronglySorted lt (m_id <$> m_invoke_response_handlers st)
  /\ (m_protocol_released st = true -> waiting st = [])
  /\ forall buff, match m_invoke_response_handlers st with
     | [] => handle_response env buff st = Refuse st
     | oldest :: _ => exists st', handle_response env buff st = More st' /\
         if m_timer_pending oldest then
           let code := m_return_code (m_current_head st) in
           waiting st = m_id oldest :: waiting st' /\ (forall id, id ∈ waiting st' -> (m_id oldest < id)%nat) /\
           m_called st' = m_called st ++ [(m_id oldest, code)] /\
           m_context st' = callback env (m_id oldest) code buff (m_context st)
         else waiting st' = waiting st /\ m_called st' = m_called st /\ m_context st' = m_context st
     end.
Proof.
  destruct (history_ind env books_ok (happen_books env) es (new_handler initial context) (new_books initial context)) as (st & E & Hb).
  exists st. split; [done|]. pose proof (response_to_oldest env st Hb) as Hr. destruct Hb as [H1 H2 H3 H4 H5]. repeat split; try done.
  intros Hrel. unfold waiting. by rewrite (H5 Hrel).
Qed.

End Theorems.

(** C15: A request and its answer between two nodes: when the first node sends a request and none of
    its requests waits, the other node is given the command with the bytes of the request, in
    whatever pieces they come, and answers; and the first node, in whatever pieces the
    answer comes, calls back this request with the code and the bytes of the answer. *)
Theorem request_answered {A B} (envA : surroundings A) (envB : surroundings B) (a a1 : async_protocol_handler A) (b : async_protocol_handler B)
    command msg rc out e e' chunks chunks' :
  idle a -> m_max_packet_size a = config_max_packet_size envA -> config_max_packet_size envA < 2 ^ 64 -> m_invoke_response_handlers a = [] ->
  idle b -> m_max_packet_size b = config_max_packet_size envB -> config_max_packet_size envB < 2 ^ 64 -> 0 <= command < 2 ^ 31 ->
  invoke_async envA command msg a = (1, a1) ->
  concat chunks = finalize_invoke command msg -> Z.of_nat (length msg) <= get_max_bytes command ->
  held b + Z.of_nat (length (concat chunks)) <= config_max_packet_size envB ->
  invoke envB command msg (m_context b) = (rc, out, e) -> - 2 ^ 31 <= rc < 2 ^ 31 ->
  do_send envB (finalize_response command (u32 rc) out) e = (true, e') ->
  concat chunks' = finalize_response command (u32 rc) out -> Z.of_nat (length out) <= get_max_bytes command ->
  held a + Z.of_nat (length (concat chunks')) <= config_max_packet_size envA ->
  exists b' a2, do_send envA (finalize_invoke command msg) (m_context a) = (true, m_context a1)
    /\ recv_all envB chunks b = Some (true, b') /\ m_context b' = e'
    /\ recv_all envA chunks' a1 = Some (true, a2) /\ m_context a2 = callback envA (m_requests a) rc out (m_context a1)
    /\ m_called a2 = m_called a ++ [(m_requests a, rc)] /\ m_invoke_response_handlers a2 = [].
Proof.
  intros Ia Ma Hxa Ea Ib Mb Hxb Hc Einv Ech Hmsg Hhb Ei Hrc Es Ech' Hout Hha.
  destruct (invoke_sent envA command msg a a1 Ia Ma Ea Einv) as (S1 & S2 & S3 & S4 & S5 & S6).
  destruct (served envB command msg rc out e e' chunks b Ib Mb Hxb Hc Ech Hmsg Hhb Ei Es) as (b' & R1 & R2).
  destruct (called_back envA command rc out chunks' (Anvoke (m_requests a) true true false false) a1 S2 S3 Hxa Hc Hrc Ech' Hout ltac:(lia) S6 eq_refl eq_refl)
    as (a2 & T1 & T2 & T3 & T4).
  rewrite (wrap_small 32 command) in S1 by (unfold in_width; lia). rewrite S5 in T3. exists b', a2. by repeat split.
Qed.

(** Noise changes nothing but the header read last, also between fragments. *)
Lemma noise_skipped {C} (env : surroundings C) n (st : async_protocol_handler C) : idle st -> m_max_packet_size st = config_max_packet_size env ->
  config_max_packet_size env < 2 ^ 64 -> (sizeof_head <= n)%nat -> held st + Z.of_nat n <= config_max_packet_size env ->
  exists h, handle_recv env (make_noise_notify n) st = Some (true, with_version 1 (with_head h st)).
Proof.
  intros Hi Hm Hmax Hn Hh. unfold make_noise_notify. rewrite bool_decide_eq_false_2 by lia. set (h := make_header _ _ _ _). exists h.
  apply recv_runs; [apply Hi|lia| |].
  { rewrite length_app, head_bytes_length, length_replicate. lia. }
  rewrite Hm. assert (with_version 1 (with_head h st) = reading st [] (m_fragment_buffer st) h 1) as -> by (destruct Hi as (_ & _ & Ec); destruct st; cbn in *; by subst).
  assert (held st >= 0) by (unfold held; lia).
  apply message_runs; [done|apply outer_ok; [lia|done]|done|done| | | |].
  - cbn [h m_cb make_header]. by rewrite length_replicate.
  - cbn [h m_cb m_command make_header]. rewrite max_bytes_0. unfold sizeof_head in *. lia.
  - unfold handle_packet. by destruct st.
  - destruct Hi as (I1 & I2 & I3). by destruct st.
Qed.

(** Noise that has space for one header only carries no message, though the header says it does. *)
Example one_header_refused : make_fragmented_notify 60 2002 [1] = [] /\ length (make_noise_notify 60) = 60%nat.
Proof. split; vm_compute; reflexivity. Qed.

(** ** Witnesses *)

(** A node that writes down what it is asked, sends everything and answers with the bytes reversed *)
Definition demo_env : surroundings (list (Z * list Z)) := {|
  do_send m c := (true, c ++ [(-1, m)]); add_ref _ := true; endpoint_close _ c := c;
  invoke command bs c := (7, rev bs, c ++ [(command, bs)]); notify command bs c := c ++ [(command, bs)];
  callback id res bs c := c ++ [(Z.of_nat id, bs)]; handshake_complete _ := true; config_max_packet_size := 50000000 |}.
Definition demo_conn : async_protocol_handler (list (Z * list Z)) := new_handler 50000000 [].

Lemma chunks_irrelevant_witness : exists ok st1 st2,
  recv_all demo_env [take 10 (finalize_notify 2001 [1; 2; 3]); drop 10 (finalize_notify 2001 [1; 2; 3])] demo_conn = Some (ok, st1)
  /\ handle_recv demo_env (finalize_notify 2001 [1; 2; 3]) demo_conn = Some (ok, st2) /\ ok = true /\ m_context st2 = [(2001, [1; 2; 3])].
Proof.
  destruct (chunks_irrelevant demo_env [take 10 (finalize_notify 2001 [1; 2; 3]); drop 10 (finalize_notify 2001 [1; 2; 3])] demo_conn)
    as (ok & st1 & st2 & E1 & E2 & _); [vm_compute; reflexivity|reflexivity|reflexivity|vm_compute; reflexivity|vm_compute; discriminate|].
  exists ok, st1, st2. split; [exact E1|]. vm_compute in E2. split; [vm_compute; exact E2|]. injection E2 as <- <-. split; reflexivity.
Defined.

Lemma buffers_bounded_witness : exists st,
  history demo_env [Receive [1; 33; 1]; Invoke 1001 [5]; Receive [1; 1; 1; 1; 1; 4]] (new_handler LEVIN_INITIAL_MAX_PACKET_SIZE []) = Some st
  /\ m_max_packet_size st = 50000000 /\ held st = 9 /\ held st <= m_max_packet_size st.
Proof.
  destruct (buffers_bounded demo_env LEVIN_INITIAL_MAX_PACKET_SIZE [] [Receive [1; 33; 1]; Invoke 1001 [5]; Receive [1; 1; 1; 1; 1; 4]])
    as (st & E & Hb & _); [vm_compute; split; discriminate|vm_compute; reflexivity|].
  exists st. split; [exact E|]. vm_compute in E. injection E as <-. split; [reflexivity|]. split; [reflexivity|]. apply Hb.
Defined.

Definition demo_message : list Z := match store_to_binary sample_root with Ret bs => bs | Throw _ => [] end.
Definition demo_stream : list Z := make_fragmented_notify 66 2002 demo_message.

Definition demo_asking : async_protocol_handler (list (Z * list Z)) := (invoke_async demo_env 1003 [1; 2] demo_conn).2.
Lemma request_answered_witness : exists b' a2,
  recv_all demo_env [take 34 (finalize_invoke 1003 [1; 2]); drop 34 (finalize_invoke 1003 [1; 2])] demo_conn = Some (true, b')
  /\ recv_all demo_env [finalize_response 1003 7 [2; 1]] demo_asking = Some (true, a2) /\ m_called a2 = [(0%nat, 7)]
  /\ m_context a2 = m_context demo_asking ++ [(0, [2; 1])].
Proof.
  destruct (request_answered demo_env demo_env demo_conn demo_asking demo_conn 1003 [1; 2] 7 [2; 1] [(1003, [1; 2])]
    [(1003, [1; 2]); (-1, finalize_response 1003 7 [2; 1])] [take 34 (finalize_invoke 1003 [1; 2]); drop 34 (finalize_invoke 1003 [1; 2])]
    [finalize_response 1003 7 [2; 1]]) as (b' & a2 & _ & E1 & _ & E2 & E3 & E4 & _);
    [by vm_compute|reflexivity|reflexivity|reflexivity|by vm_compute|reflexivity|reflexivity|lia|vm_compute; reflexivity|vm_compute; reflexivity
    |by vm_compute|by vm_compute|vm_compute; reflexivity|lia|vm_compute; reflexivity|vm_compute; reflexivity|by vm_compute|by vm_compute|].
  exists b', a2. split; [exact E1|]. split; [exact E2|]. split; [exact E4|exact E3].
Defined.
