(* ===== verification/Peerlist.v ===== *)
(** * The peers a node knows: core/src/p2p/net_peerlist.h and net_peerlist.cpp, with the addresses of
    core/contrib/epee/include/net/net_utils_base.h, src/net_utils_base.cpp, net/local_ip.h,
    core/src/net/tor_address.cpp and i2p_address.cpp

    White peers were connected to, gray ones were told by others, anchors are those a node was
    connected to when it stopped. The containers are indexed by address and by time; they are
    lists in the order of the second index here. Where an element is put among others of the
    same time is left to the library, whose promise is the class [TimeIndexLaws]. The machine is
    little-endian. *)

From Stdlib Require Import Sorted.
From stdpp Require Import sorting.
From S2P Require Import Prelude IntUtil Radix.

(** ** Addresses *)

Definition is_ip_local (ip : Z) : bool :=
  if Z.lor ip 0xffffff00 =? 0xffffff0a then true
  else if Z.lor ip 0xffff0000 =? 0xffffa8c0 then true
  else if Z.lor ip 0xffffff00 =? 0xffffffac
  then let second_num := Z.land (Z.shiftr ip 8) 0xff in (16 <=? second_num) && (second_num <=? 31)
  else false.
Definition is_ip_loopback (ip : Z) : bool := Z.lor ip 0xffffff00 =? 0xffffff7f.

(** The addresses of Boost.Asio *)
Class AddressV6 (V6 : Type) := {
  to_bytes : V6 -> list Z; v6_is_loopback : V6 -> bool; v6_is_link_local : V6 -> bool; is_v4_mapped : V6 -> bool }.

Inductive zone := zone_invalid | zone_public | zone_i2p | zone_tor.
#[global] Instance zone_eq_dec : EqDecision zone.
Proof. solve_decision. Defined.
Definition zone_number (z : zone) : Z := match z with zone_invalid => 0 | zone_public => 1 | zone_i2p => 2 | zone_tor => 3 end.

Section Peers.
Context {V6 : Type} {V6_eq : EqDecision V6} {V6_api : AddressV6 V6}.

Inductive network_address :=
  | no_address
  | ipv4_network_address (m_ip m_port : Z)
  | ipv6_network_address (m_address : V6) (m_port : Z)
  | i2p_address (host_ : list Z)
  | tor_address (host_ : list Z) (port_ : Z).
#[global] Instance network_address_eq_dec : EqDecision network_address.
Proof. solve_decision. Defined.

Definition is_loopback (a : network_address) : bool :=
  match a with
  | ipv4_network_address ip _ => is_ip_loopback ip
  | ipv6_network_address ip _ => v6_is_loopback ip
  | _ => false
  end.
Definition is_local (a : network_address) : bool :=
  match a with
  | ipv4_network_address ip _ => is_ip_local ip
  | ipv6_network_address ip _ => v6_is_link_local ip
  | _ => false
  end.
Definition get_zone (a : network_address) : zone :=
  match a with
  | no_address => zone_invalid
  | ipv4_network_address _ _ | ipv6_network_address _ _ => zone_public
  | i2p_address _ => zone_i2p
  | tor_address _ _ => zone_tor
  end.

(** [htonl] of the last four bytes *)
Definition make_address_v4_from_v6 (a : V6) : Z :=
  let bytes := to_bytes a in
  let at_ i := nth i bytes 0 in
  let v4 := u32 (Z.lor (u32 (Z.shiftl 0 8)) (at_ 12%nat)) in
  let v4 := Z.lor (u32 (Z.shiftl v4 8)) (at_ 13%nat) in
  let v4 := Z.lor (u32 (Z.shiftl v4 8)) (at_ 14%nat) in
  let v4 := Z.lor (u32 (Z.shiftl v4 8)) (at_ 15%nat) in
  swap32 v4.

Definition is_same_host (a b : network_address) : bool :=
  match a, b with
  | no_address, no_address => true
  | ipv4_network_address ip _, ipv4_network_address ip' _ => ip =? ip'
  | ipv6_network_address ip _, ipv6_network_address ip' _ => bool_decide (ip = ip')
  | i2p_address host, i2p_address host' => bool_decide (host = host')
  | tor_address host _, tor_address host' _ => bool_decide (host = host')
  | ipv4_network_address ip _, ipv6_network_address actual_ip _ =>
      if is_v4_mapped actual_ip then ip =? make_address_v4_from_v6 actual_ip else false
  | ipv6_network_address actual_ip _, ipv4_network_address ip _ =>
      if is_v4_mapped actual_ip then ip =? make_address_v4_from_v6 actual_ip else false
  | _, _ => false
  end.

(** ** Lists of peers *)

Record peerlist_entry := {
  adr : network_address; id : Z; last_seen : Z; pruning_seed : Z; rpc_port : Z; rpc_credits_per_hash : Z }.
Record anchor_peerlist_entry := { a_adr : network_address; a_id : Z; first_seen : Z }.

Definition P2P_LOCAL_WHITE_PEERLIST_LIMIT : nat := 1000.
Definition P2P_LOCAL_GRAY_PEERLIST_LIMIT : nat := 5000.

(** What the ordered index by time does when an element is inserted and when the element at a
    position is replaced *)
Class TimeIndex := {
  index_insert : forall {A}, (A -> Z) -> A -> list A -> list A;
  index_replace : forall {A}, (A -> Z) -> nat -> A -> list A -> list A }.
Definition in_time {A} (time : A -> Z) : list A -> Prop := StronglySorted (fun x y => time x <= time y).
Class TimeIndexLaws `{TimeIndex} := {
  insert_perm : forall {A} (time : A -> Z) x l, index_insert time x l ≡ₚ x :: l;
  insert_in_time : forall {A} (time : A -> Z) x l, in_time time l -> in_time time (index_insert time x l);
  replace_perm : forall {A} (time : A -> Z) i x l, (i < length l)%nat -> index_replace time i x l ≡ₚ x :: delete i l;
  replace_in_time : forall {A} (time : A -> Z) i x l, in_time time l -> in_time time (index_replace time i x l) }.

Context {index : TimeIndex}.

Record peerlist_manager := Peers {
  m_allow_local_ip : bool; m_peers_gray : list peerlist_entry; m_peers_white : list peerlist_entry;
  m_peers_anchor : list anchor_peerlist_entry }.

Definition with_gray (l : list peerlist_entry) (m : peerlist_manager) : peerlist_manager :=
  Peers (m_allow_local_ip m) l (m_peers_white m) (m_peers_anchor m).
Definition with_white (l : list peerlist_entry) (m : peerlist_manager) : peerlist_manager :=
  Peers (m_allow_local_ip m) (m_peers_gray m) l (m_peers_anchor m).
Definition with_anchor (l : list anchor_peerlist_entry) (m : peerlist_manager) : peerlist_manager :=
  Peers (m_allow_local_ip m) (m_peers_gray m) (m_peers_white m) l.

(** [find] in the index by address, with the position *)
Definition find_adr (a : network_address) (l : list peerlist_entry) : option (nat * peerlist_entry) := list_find (fun e => adr e = a) l.
Definition find_anchor (a : network_address) (l : list anchor_peerlist_entry) : option (nat * anchor_peerlist_entry) :=
  list_find (fun e => a_adr e = a) l.

(** The loops that erase the first of the index by time *)
Fixpoint trim (limit : nat) (l : list peerlist_entry) : list peerlist_entry :=
  match l with
  | [] => []
  | _ :: l' => if bool_decide (limit < length l)%nat then trim limit l' else l
  end.
Definition trim_gray_peerlist (m : peerlist_manager) : peerlist_manager := with_gray (trim P2P_LOCAL_GRAY_PEERLIST_LIMIT (m_peers_gray m)) m.
Definition trim_white_peerlist (m : peerlist_manager) : peerlist_manager := with_white (trim P2P_LOCAL_WHITE_PEERLIST_LIMIT (m_peers_white m)) m.

Definition is_host_allowed (m : peerlist_manager) (address : network_address) : bool :=
  if is_loopback address then false else if negb (m_allow_local_ip m) && is_local address then false else true.

(** [filter]: what [f] accepts is dropped; with the number of those *)
Definition filter_peers (white : bool) (f : peerlist_entry -> bool) (m : peerlist_manager) : Z * peerlist_manager :=
  let l := if white then m_peers_white m else m_peers_gray m in
  let kept := List.filter (fun e => negb (f e)) l in
  (Z.of_nat (length l - length kept), if white then with_white kept m else with_gray kept m).
Definition evict_host_from_peerlist (use_white : bool) (pr : peerlist_entry) (m : peerlist_manager) : peerlist_manager :=
  (filter_peers use_white (fun pe => is_same_host (adr pe) (adr pr)) m).2.

(** An entry with what an older one knows *)
Definition merged (trust_last_seen : bool) (ple old : peerlist_entry) : peerlist_entry :=
  {| adr := adr ple; id := id ple;
     last_seen := if trust_last_seen then last_seen ple else last_seen old;
     pruning_seed := if negb (pruning_seed old =? 0) && (pruning_seed ple =? 0) then pruning_seed old else pruning_seed ple;
     rpc_port := if negb (rpc_port old =? 0) && (rpc_port ple =? 0) then rpc_port old else rpc_port ple;
     rpc_credits_per_hash := rpc_credits_per_hash ple |}.

Definition remove_gray (a : network_address) (m : peerlist_manager) : peerlist_manager :=
  match find_adr a (m_peers_gray m) with None => m | Some (i, _) => with_gray (delete i (m_peers_gray m)) m end.

Definition append_with_peer_white (ple : peerlist_entry) (trust_last_seen : bool) (m : peerlist_manager) : peerlist_manager :=
  if negb (is_host_allowed m (adr ple)) then m
  else
    let m :=
      match find_adr (adr ple) (m_peers_white m) with
      | None =>
          let m := evict_host_from_peerlist true ple m in
          let m := with_white (index_insert last_seen ple (m_peers_white m)) m in
          trim_white_peerlist m
      | Some (i, old) => with_white (index_replace last_seen i (merged trust_last_seen ple old) (m_peers_white m)) m
      end in
    remove_gray (adr ple) m.

Definition append_with_peer_gray (ple : peerlist_entry) (m : peerlist_manager) : peerlist_manager :=
  if negb (is_host_allowed m (adr ple)) then m
  else
    match find_adr (adr ple) (m_peers_white m) with
    | Some _ => m
    | None =>
        match find_adr (adr ple) (m_peers_gray m) with
        | None => trim_gray_peerlist (with_gray (index_insert last_seen ple (m_peers_gray m)) m)
        | Some (i, old) => with_gray (index_replace last_seen i (merged false ple old) (m_peers_gray m)) m
        end
    end.

Definition append_with_peer_anchor (ple : anchor_peerlist_entry) (m : peerlist_manager) : peerlist_manager :=
  match find_anchor (a_adr ple) (m_peers_anchor m) with
  | None => with_anchor (index_insert first_seen ple (m_peers_anchor m)) m
  | Some _ => m
  end.

Definition merge_peerlist (outer_bs : list peerlist_entry) (f : option (peerlist_entry -> bool)) (m : peerlist_manager) : peerlist_manager :=
  trim_gray_peerlist
    (foldl (fun m be => if (match f with None => true | Some f => f be end) then append_with_peer_gray be m else m) m outer_bs).

Definition set_peer_just_seen (now peer : Z) (addr : network_address) (seed port credits : Z) (m : peerlist_manager) : peerlist_manager :=
  append_with_peer_white {| adr := addr; id := peer; last_seen := now; pruning_seed := seed; rpc_port := port; rpc_credits_per_hash := credits |} true m.

Definition remove_from_peer_white (pe : peerlist_entry) (m : peerlist_manager) : peerlist_manager :=
  match find_adr (adr pe) (m_peers_white m) with None => m | Some (i, _) => with_white (delete i (m_peers_white m)) m end.
Definition remove_from_peer_gray (pe : peerlist_entry) (m : peerlist_manager) : peerlist_manager := remove_gray (adr pe) m.
Definition remove_from_peer_anchor (addr : network_address) (m : peerlist_manager) : peerlist_manager :=
  match find_anchor addr (m_peers_anchor m) with None => m | Some (i, _) => with_anchor (delete i (m_peers_anchor m)) m end.
Definition get_and_empty_anchor_peerlist (m : peerlist_manager) : list anchor_peerlist_entry * peerlist_manager :=
  (m_peers_anchor m, with_anchor [] m).

(** *** Looking *)

Definition get_nth_latest_peer (l : list peerlist_entry) (n : nat) : option peerlist_entry := rev l !! n.
Definition get_white_peer_by_index (m : peerlist_manager) (i : nat) : option peerlist_entry :=
  if bool_decide (length (m_peers_white m) <= i)%nat then None else get_nth_latest_peer (m_peers_white m) i.
Definition get_gray_peer_by_index (m : peerlist_manager) (i : nat) : option peerlist_entry :=
  if bool_decide (length (m_peers_gray m) <= i)%nat then None else get_nth_latest_peer (m_peers_gray m) i.
Definition get_random_gray_peer (rand_idx : nat -> nat) (m : peerlist_manager) : option peerlist_entry :=
  if bool_decide (m_peers_gray m = []) then None else get_nth_latest_peer (m_peers_gray m) (rand_idx (length (m_peers_gray m))).

Definition forget_time (e : peerlist_entry) : peerlist_entry :=
  {| adr := adr e; id := id e; last_seen := 0; pruning_seed := pruning_seed e; rpc_port := rpc_port e; rpc_credits_per_hash := rpc_credits_per_hash e |}.
(** [shuffle] is the one of the standard library. *)
Definition get_peerlist_head (shuffle : list peerlist_entry -> list peerlist_entry) (anonymize : bool) (depth : Z) (m : peerlist_manager)
    : list peerlist_entry :=
  let pick_depth := if anonymize then u32 (Z.of_nat (length (m_peers_white m))) else depth in
  let bs_head := take (Z.to_nat pick_depth) (rev (m_peers_white m)) in
  if anonymize then forget_time <$> take (Z.to_nat depth) (shuffle bs_head) else bs_head.

(** *** Loading and storing *)

Record peerlist_types := { white : list peerlist_entry; gray : list peerlist_entry; anchor : list anchor_peerlist_entry }.

(** An insertion into the index by address does nothing when the address is there. *)
Definition add_peer (l : list peerlist_entry) (e : peerlist_entry) : list peerlist_entry :=
  match find_adr (adr e) l with None => index_insert last_seen e l | Some _ => l end.
Definition add_anchor (l : list anchor_peerlist_entry) (e : anchor_peerlist_entry) : list anchor_peerlist_entry :=
  match find_anchor (a_adr e) l with None => index_insert first_seen e l | Some _ => l end.
Definition init (peers : peerlist_types) (allow_local_ip : bool) (m : peerlist_manager) : bool * peerlist_manager :=
  if negb (bool_decide (m_peers_white m = [])) || negb (bool_decide (m_peers_gray m = [])) || negb (bool_decide (m_peers_anchor m = []))
  then (false, m)
  else (true, Peers allow_local_ip (foldl add_peer [] (gray peers)) (foldl add_peer [] (white peers)) (foldl add_anchor [] (anchor peers))).

(** [peerlist_storage]: the peers of all zones, sorted by zone when they were read *)
Definition lower_bound {A} (less : A -> bool) (l : list A) : nat :=
  match list_find (fun x => less x = false) l with Some (i, _) => i | None => length l end.
Definition do_take_zone {A} (adr_of : A -> network_address) (src : list A) (z : zone) : list A * list A :=
  let start := lower_bound (fun x => zone_number (get_zone (adr_of x)) <? zone_number z) src in
  let tail := drop start src in
  let count := lower_bound (fun x => negb (zone_number z <? zone_number (get_zone (adr_of x)))) tail in
  (take count tail, take start src ++ drop count tail).
Definition take_zone (m_types : peerlist_types) (z : zone) : peerlist_types * peerlist_types :=
  let '(w, w') := do_take_zone adr (white m_types) z in
  let '(g, g') := do_take_zone adr (gray m_types) z in
  let '(a, a') := do_take_zone a_adr (anchor m_types) z in
  ({| white := w; gray := g; anchor := a |}, {| white := w'; gray := g'; anchor := a' |}).

(** ** Lists with an index *)

Context {index_laws : TimeIndexLaws}.

Lemma same_host_sym a b : is_same_host a b = is_same_host b a.
Proof. destruct a, b; cbn; try done; try apply Z.eqb_sym; by apply bool_decide_ext. Qed.
Lemma same_host_refl a : is_same_host a a = true.
Proof. destruct a; cbn; try done; try apply Z.eqb_refl; by apply bool_decide_eq_true_2. Qed.

Definition listed (l : list peerlist_entry) : Prop := NoDup (adr <$> l) /\ in_time last_seen l.

Lemma in_time_sublist {A} (time : A -> Z) l k : sublist l k -> in_time time k -> in_time time l.
Proof.
  unfold in_time. induction 1 as [|x l k Hs IH|x l k Hs IH]; [done| |]; inversion 1 as [|? ? Hk Hx]; subst.
  - constructor; [by apply IH|]. rewrite Forall_forall in *. intros y Hy. apply Hx. eapply elem_of_submseteq; [exact Hy|]. by apply sublist_submseteq.
  - by apply IH.
Qed.
Lemma listed_sublist l k : sublist l k -> listed k -> listed l.
Proof. intros Hs [H1 H2]. split; [|by eapply in_time_sublist]. eapply sublist_NoDup; [exact H1|]. by apply fmap_sublist. Qed.

Lemma trim_sublist limit l : sublist (trim limit l) l.
Proof. induction l as [|x l IH]; [done|]. cbn [trim]. case_bool_decide; [by apply sublist_cons|done]. Qed.
Lemma trim_length limit l : (length (trim limit l) <= limit)%nat.
Proof. induction l as [|x l IH]; [cbn; lia|]. cbn [trim]. case_bool_decide; [done|lia]. Qed.
Lemma trim_as_drop limit l : trim limit l = drop (length l - limit) l.
Proof.
  induction l as [|x l IH]; [done|]. cbn [trim]. case_bool_decide as Hl.
  - rewrite IH. cbn in Hl. cbn [length]. by replace (S (length l) - limit)%nat with (S (length l - limit)) by lia.
  - by replace (length (x :: l) - limit)%nat with 0%nat by lia.
Qed.

Lemma find_some a l i e : find_adr a l = Some (i, e) -> l !! i = Some e /\ adr e = a.
Proof. intros (Hi & He & _)%list_find_Some. done. Qed.
Lemma find_none a l : find_adr a l = None -> a ∉ adr <$> l.
Proof. intros Hn%list_find_None Hin. apply list_elem_of_fmap in Hin as (e & -> & He). rewrite Forall_forall in Hn. by apply (Hn e He). Qed.

Lemma listed_insert e l : listed l -> adr e ∉ adr <$> l -> listed (index_insert last_seen e l).
Proof.
  intros [H1 H2] Hn. split; [|by apply insert_in_time]. rewrite (insert_perm last_seen e l). cbn. by constructor.
Qed.
Lemma replace_adr i e old l : l !! i = Some old -> adr e = adr old -> adr <$> index_replace last_seen i e l ≡ₚ adr <$> l.
Proof.
  intros Hi Ha. rewrite (replace_perm last_seen i e l) by (by apply lookup_lt_Some in Hi). cbn. rewrite Ha.
  rewrite (delete_Permutation l i old Hi) at 2. done.
Qed.
Lemma listed_replace i e old l : listed l -> l !! i = Some old -> adr e = adr old -> listed (index_replace last_seen i e l).
Proof. intros [H1 H2] Hi Ha. split; [by rewrite (replace_adr i e old l Hi Ha)|by apply replace_in_time]. Qed.
Lemma replace_length i e (l : list peerlist_entry) : (i < length l)%nat -> length (index_replace last_seen i e l) = length l.
Proof.
  intros Hi. rewrite (replace_perm last_seen i e l Hi). cbn. destruct (lookup_lt_is_Some_2 l i Hi) as [old Ho].
  by rewrite (delete_Permutation l i old Ho) at 2.
Qed.

(** ** The invariant *)

Definition one_per_host (l : list peerlist_entry) : Prop :=
  forall e e', e ∈ l -> e' ∈ l -> is_same_host (adr e) (adr e') = true -> adr e = adr e'.
Definition apart (l k : list peerlist_entry) : Prop := forall a, a ∈ adr <$> l -> a ∈ adr <$> k -> False.

Record peers_ok (m : peerlist_manager) : Prop := {
  white_listed : listed (m_peers_white m);
  gray_listed : listed (m_peers_gray m);
  anchor_listed : NoDup (a_adr <$> m_peers_anchor m) /\ in_time first_seen (m_peers_anchor m);
  lists_apart : apart (m_peers_white m) (m_peers_gray m);
  white_hosts : one_per_host (m_peers_white m);
  sizes_kept : (length (m_peers_white m) <= P2P_LOCAL_WHITE_PEERLIST_LIMIT)%nat
    /\ (length (m_peers_gray m) <= P2P_LOCAL_GRAY_PEERLIST_LIMIT)%nat;
  hosts_allowed : Forall (fun a => is_host_allowed m a = true) ((adr <$> m_peers_white m) ++ (adr <$> m_peers_gray m)) }.

(** A list of peers may be replaced by one with fewer of them. *)
Definition fewer (l k : list peerlist_entry) : Prop := listed l /\ (adr <$> l) ⊆ (adr <$> k) /\ (length l <= length k)%nat.

Lemma sublist_fewer l k : sublist l k -> listed k -> fewer l k.
Proof.
  intros Hs Hk. split; [by eapply listed_sublist|]. split; [|by apply sublist_length].
  intros a Ha. eapply elem_of_submseteq; [exact Ha|]. by apply sublist_submseteq, fmap_sublist.
Qed.
Lemma replace_fewer i e old l : listed l -> l !! i = Some old -> adr e = adr old -> fewer (index_replace last_seen i e l) l.
Proof.
  intros Hl Hi Ha. split; [by eapply listed_replace|]. split; [by rewrite (replace_adr i e old l Hi Ha)|].
  rewrite replace_length; [done|]. by apply lookup_lt_Some in Hi.
Qed.
Lemma hosts_fewer l k : (adr <$> l) ⊆ (adr <$> k) -> one_per_host k -> one_per_host l.
Proof.
  intros Hs Hk e e' He He' Hh. assert (forall x, x ∈ l -> exists y, y ∈ k /\ adr y = adr x) as Hfind.
  { intros x Hx. apply (list_elem_of_fmap_2 adr) in Hx. apply Hs, list_elem_of_fmap in Hx as (y & Ey & Hy). eauto. }
  destruct (Hfind e He) as (y & Hy & Ey), (Hfind e' He') as (y' & Hy' & Ey'). rewrite <- Ey, <- Ey' in *. by apply Hk.
Qed.

Lemma fewer_ok m w g : peers_ok m -> fewer w (m_peers_white m) -> fewer g (m_peers_gray m) ->
  peers_ok (Peers (m_allow_local_ip m) g w (m_peers_anchor m)).
Proof.
  intros [H1 H2 H3 H4 H5 [H6 H6'] H7] (W1 & W2 & W3) (G1 & G2 & G3). split; cbn; [done|done|done| | |lia|].
  - intros a Ha Hb. by apply (H4 a); [apply W2|apply G2].
  - by eapply hosts_fewer.
  - rewrite Forall_forall in *. intros a Ha. apply (H7 a). apply elem_of_app in Ha as [Ha|Ha]; apply elem_of_app; auto.
Qed.
Lemma fewer_refl l : listed l -> fewer l l.
Proof. intros Hl. by apply sublist_fewer. Qed.
Lemma fewer_white m w : peers_ok m -> fewer w (m_peers_white m) -> peers_ok (with_white w m).
Proof. intros Hm Hw. apply (fewer_ok m w (m_peers_gray m) Hm Hw), fewer_refl, gray_listed, Hm. Qed.
Lemma fewer_gray m g : peers_ok m -> fewer g (m_peers_gray m) -> peers_ok (with_gray g m).
Proof. intros Hm Hg. apply (fewer_ok m (m_peers_white m) g Hm); [|done]. apply fewer_refl, white_listed, Hm. Qed.

Lemma filter_sublist (f : peerlist_entry -> bool) l : sublist (List.filter f l) l.
Proof. induction l as [|x l IH]; [done|]. cbn. destruct (f x); [by apply sublist_skip|by apply sublist_cons]. Qed.
Lemma filter_ok white f m : peers_ok m -> peers_ok (filter_peers white f m).2.
Proof.
  intros Hm. unfold filter_peers. cbn. destruct white.
  - apply fewer_white; [done|]. apply sublist_fewer; [apply filter_sublist|apply Hm].
  - apply fewer_gray; [done|]. apply sublist_fewer; [apply filter_sublist|apply Hm].
Qed.
Lemma remove_gray_ok a m : peers_ok m -> peers_ok (remove_gray a m).
Proof.
  intros Hm. unfold remove_gray. destruct (find_adr _ _) as [[i e]|]; [|done]. apply fewer_gray; [done|].
  apply sublist_fewer; [apply sublist_delete|apply Hm].
Qed.
Lemma remove_white_ok e m : peers_ok m -> peers_ok (remove_from_peer_white e m).
Proof.
  intros Hm. unfold remove_from_peer_white. destruct (find_adr _ _) as [[i e']|]; [|done]. apply fewer_white; [done|].
  apply sublist_fewer; [apply sublist_delete|apply Hm].
Qed.

(** A new white peer takes the place of all peers of its host, and leaves the gray list. *)
Lemma white_new e m : peers_ok m -> is_host_allowed m (adr e) = true -> adr e ∉ adr <$> m_peers_white m ->
  peers_ok (remove_gray (adr e) (trim_white_peerlist (with_white (index_insert last_seen e (m_peers_white (evict_host_from_peerlist true e m)))
    (evict_host_from_peerlist true e m)))).
Proof.
  intros Hm Ha Hn. set (m1 := evict_host_from_peerlist true e m). assert (peers_ok m1) as H1 by (by apply filter_ok).
  assert (adr e ∉ adr <$> m_peers_white m1) as Hn1.
  { intros Hin. apply Hn. apply list_elem_of_fmap in Hin as (y & -> & Hy). apply list_elem_of_fmap_2. eapply elem_of_submseteq; [exact Hy|].
    apply sublist_submseteq, filter_sublist. }
  assert (forall y, y ∈ m_peers_white m1 -> is_same_host (adr y) (adr e) = false) as Hh.
  { intros y Hy. unfold m1, evict_host_from_peerlist, filter_peers in Hy. cbn in Hy. apply list_elem_of_In, filter_In in Hy as [_ Hy].
    by apply negb_true_iff in Hy. }
  set (l := index_insert last_seen e (m_peers_white m1)). pose proof (listed_insert e _ (white_listed _ H1) Hn1) as Hl. fold l in Hl.
  pose proof (insert_perm last_seen e (m_peers_white m1)) as Hp. fold l in Hp.
  unfold remove_gray, trim_white_peerlist. cbn. set (w := trim _ l). assert (sublist w l) as Hw by apply trim_sublist.
  assert (forall x, x ∈ w -> x = e \/ x ∈ m_peers_white m1) as Hwe.
  { intros x Hx. apply elem_of_cons. rewrite <- Hp. eapply elem_of_submseteq; [exact Hx|]. by apply sublist_submseteq. }
  set (g := match find_adr (adr e) (m_peers_gray m1) with None => m_peers_gray m1 | Some (i, _) => delete i (m_peers_gray m1) end).
  assert (sublist g (m_peers_gray m1)) as Hg by (unfold g; destruct (find_adr _ _) as [[i ?]|]; [apply sublist_delete|done]).
  assert (adr e ∉ adr <$> g) as Hge.
  { unfold g. destruct (find_adr (adr e) (m_peers_gray m1)) as [[i y]|] eqn:Ef; [|by apply find_none]. apply find_some in Ef as [Hi Hy].
    destruct (gray_listed _ H1) as [Hnd _]. rewrite (delete_Permutation _ i y Hi) in Hnd. cbn in Hnd. apply NoDup_cons in Hnd as [Hnd _]. by rewrite <- Hy. }
  replace (match find_adr (adr e) (m_peers_gray m1) with Some (i, _) => _ | None => _ end) with (Peers (m_allow_local_ip m) g w (m_peers_anchor m))
    by (unfold g; by destruct (find_adr _ _) as [[i ?]|]).
  destruct H1 as [G1 G2 G3 G4 G5 [G6 G6'] G7]. split; cbn.
  - by eapply listed_sublist.
  - by eapply listed_sublist.
  - exact G3.
  - intros a Hx Hy. apply list_elem_of_fmap in Hx as (x & -> & Hx). destruct (Hwe x Hx) as [->|Hx']; [done|].
    apply (G4 (adr x)); [by apply list_elem_of_fmap_2|]. eapply elem_of_submseteq; [exact Hy|]. by apply sublist_submseteq, fmap_sublist.
  - intros x y Hx Hy Hxy. destruct (Hwe x Hx) as [->|Hx'], (Hwe y Hy) as [->|Hy']; [done| | |by apply G5].
    + rewrite same_host_sym, (Hh y Hy') in Hxy. done.
    + by rewrite (Hh x Hx') in Hxy.
  - split; [apply trim_length|]. apply sublist_length in Hg. lia.
  - rewrite Forall_forall in *. intros a Hx. apply elem_of_app in Hx as [Hx|Hx].
    + apply list_elem_of_fmap in Hx as (x & -> & Hx). destruct (Hwe x Hx) as [->|Hx']; [exact Ha|]. apply (G7 (adr x)), elem_of_app. left. by apply list_elem_of_fmap_2.
    + apply (G7 a), elem_of_app. right. eapply elem_of_submseteq; [exact Hx|]. by apply sublist_submseteq, fmap_sublist.
Qed.
Lemma append_white_ok e trust m : peers_ok m -> peers_ok (append_with_peer_white e trust m).
Proof.
  intros Hm. unfold append_with_peer_white. destruct (is_host_allowed m (adr e)) eqn:Ha; cbn [negb]; [|done].
  destruct (find_adr _ _) as [[i old]|] eqn:Ef.
  - apply find_some in Ef as [Hi Ho]. apply remove_gray_ok, fewer_white; [done|]. by eapply replace_fewer; [apply Hm|exact Hi|].
  - apply white_new; [done|done|by apply find_none].
Qed.
Lemma append_gray_ok e m : peers_ok m -> peers_ok (append_with_peer_gray e m).
Proof.
  intros Hm. unfold append_with_peer_gray. destruct (is_host_allowed m (adr e)) eqn:Ha; cbn [negb]; [|done].
  destruct (find_adr (adr e) (m_peers_white m)) as [[i old]|] eqn:Ew; [done|]. apply find_none in Ew.
  destruct (find_adr (adr e) (m_peers_gray m)) as [[i old]|] eqn:Eg.
  - apply find_some in Eg as [Hi Ho]. apply fewer_gray; [done|]. by eapply replace_fewer; [apply Hm|exact Hi|].
  - apply find_none in Eg. unfold trim_gray_peerlist. cbn. set (l := index_insert last_seen e (m_peers_gray m)). set (g := trim _ l).
    pose proof (listed_insert e _ (gray_listed _ Hm) Eg) as Hl. fold l in Hl. pose proof (insert_perm last_seen e (m_peers_gray m)) as Hp. fold l in Hp.
    assert (sublist g l) as Hg by apply trim_sublist.
    assert (forall a, a ∈ adr <$> g -> a = adr e \/ a ∈ adr <$> m_peers_gray m) as Hge.
    { intros a Hx. apply elem_of_cons. rewrite <- fmap_cons, <- Hp. eapply elem_of_submseteq; [exact Hx|]. by apply sublist_submseteq, fmap_sublist. }
    destruct Hm as [G1 G2 G3 G4 G5 [G6 G6'] G7]. split; cbn; [done|by eapply listed_sublist|done| |done|split; [done|apply trim_length]|].
    + intros a Hx Hy. destruct (Hge a Hy) as [->|Hy']; [done|by apply (G4 a)].
    + rewrite Forall_forall in *. intros a Hx. apply elem_of_app in Hx as [Hx|Hx]; [by apply (G7 a), elem_of_app; left|].
      destruct (Hge a Hx) as [->|Hx']; [exact Ha|by apply (G7 a), elem_of_app; right].
Qed.
Lemma merge_ok bs f m : peers_ok m -> peers_ok (merge_peerlist bs f m).
Proof.
  intros Hm. unfold merge_peerlist. assert (forall m, peers_ok m -> peers_ok (foldl (fun m be => if (match f with None => true | Some f => f be end)
    then append_with_peer_gray be m else m) m bs)) as Hall.
  { clear m Hm. induction bs as [|b bs IH]; intros m Hm; [done|]. cbn. apply IH. destruct (match f with None => true | Some f => f b end); [by apply append_gray_ok|done]. }
  specialize (Hall m Hm). apply fewer_gray; [done|]. apply sublist_fewer; [apply trim_sublist|apply Hall].
Qed.

(** The anchors, which no other operation touches *)
Lemma with_anchor_ok l m : peers_ok m -> NoDup (a_adr <$> l) -> in_time first_seen l -> peers_ok (with_anchor l m).
Proof. intros [H1 H2 H3 H4 H5 H6 H7] Hn Ht. split; auto. Qed.
Lemma anchor_ok e m : peers_ok m -> peers_ok (append_with_peer_anchor e m).
Proof.
  intros Hm. unfold append_with_peer_anchor. destruct (find_anchor _ _) as [[i e']|] eqn:Ef; [done|]. destruct (anchor_listed _ Hm) as [Hn Ht].
  apply with_anchor_ok; [done| |by apply insert_in_time]. rewrite (insert_perm first_seen e). cbn. constructor; [|done].
  intros (y & Ey & Hy)%list_elem_of_fmap. apply list_find_None in Ef. rewrite Forall_forall in Ef. by apply (Ef y Hy).
Qed.
Lemma remove_anchor_ok a m : peers_ok m -> peers_ok (remove_from_peer_anchor a m).
Proof.
  intros Hm. unfold remove_from_peer_anchor. destruct (find_anchor _ _) as [[i e]|]; [|done]. destruct (anchor_listed _ Hm) as [Hn Ht].
  apply with_anchor_ok; [done| |eapply in_time_sublist; [apply sublist_delete|done]].
  eapply sublist_NoDup; [exact Hn|]. apply fmap_sublist, sublist_delete.
Qed.

(** *** Loading *)

(** What stored peers need so that loading them without a check keeps the lists in order *)
Record peers_fit (allow_local_ip : bool) (p : peerlist_types) : Prop := {
  fit_apart : apart (white p) (gray p);
  fit_hosts : one_per_host (white p);
  fit_sizes : (length (white p) <= P2P_LOCAL_WHITE_PEERLIST_LIMIT)%nat /\ (length (gray p) <= P2P_LOCAL_GRAY_PEERLIST_LIMIT)%nat;
  fit_allowed : Forall (fun a => is_host_allowed (Peers allow_local_ip [] [] []) a = true) ((adr <$> white p) ++ (adr <$> gray p)) }.

(** The parts of the invariant that hold whatever is loaded *)
Record indexed (m : peerlist_manager) : Prop := {
  ix_white : listed (m_peers_white m);
  ix_gray : listed (m_peers_gray m);
  ix_anchor : NoDup (a_adr <$> m_peers_anchor m) /\ in_time first_seen (m_peers_anchor m) }.

Lemma add_peers_ok l l0 : listed l0 -> let l1 := foldl add_peer l0 l in
  listed l1 /\ (forall e, e ∈ l1 -> e ∈ l0 \/ e ∈ l) /\ (length l1 <= length l0 + length l)%nat.
Proof.
  revert l0. induction l as [|e l IH]; intros l0 Hl0; cbn; [split; [done|split; [by left|lia]]|].
  assert (listed (add_peer l0 e) /\ (forall x, x ∈ add_peer l0 e -> x ∈ l0 \/ x = e) /\ (length (add_peer l0 e) <= S (length l0))%nat) as (Ha & Hin & Hlen).
  { unfold add_peer. destruct (find_adr (adr e) l0) as [[i old]|] eqn:Ef; [split; [done|split; [by left|lia]]|].
    split; [apply listed_insert; [done|by apply find_none]|]. pose proof (insert_perm last_seen e l0) as Hp.
    split; [|by rewrite Hp]. intros x Hx. rewrite Hp in Hx. apply elem_of_cons in Hx as [->|Hx]; auto. }
  destruct (IH _ Ha) as (H1 & H2 & H3). split; [done|]. split; [|lia].
  intros x Hx. destruct (H2 x Hx) as [Hx'|Hx']; [destruct (Hin x Hx') as [?| ->]; [by left|right; left]|right; by right].
Qed.
Lemma add_anchor_ok e l : NoDup (a_adr <$> l) /\ in_time first_seen l -> NoDup (a_adr <$> add_anchor l e) /\ in_time first_seen (add_anchor l e).
Proof.
  intros [Hn Ht]. unfold add_anchor, find_anchor. destruct (list_find _ l) as [[i old]|] eqn:Ef; [done|]. split; [|by apply insert_in_time].
  rewrite (insert_perm first_seen e l). cbn. constructor; [|done]. intros (y & Ey & Hy)%list_elem_of_fmap.
  apply list_find_None in Ef. rewrite Forall_forall in Ef. by apply (Ef y Hy).
Qed.
Lemma add_anchors_ok l l0 : NoDup (a_adr <$> l0) /\ in_time first_seen l0 ->
  NoDup (a_adr <$> foldl add_anchor l0 l) /\ in_time first_seen (foldl add_anchor l0 l).
Proof. revert l0. induction l as [|e l IH]; intros l0 Hl; [done|]. by apply IH, add_anchor_ok. Qed.

Lemma listed_nil : listed [].
Proof. split; constructor. Qed.
Lemma init_indexed p b m : indexed m -> indexed (init p b m).2.
Proof.
  intros Hm. unfold init. destruct (_ || _); [done|]. split; cbn; [apply add_peers_ok, listed_nil..|].
  apply add_anchors_ok. split; constructor.
Qed.
Lemma init_ok p b m : peers_fit b p -> peers_ok m -> peers_ok (init p b m).2.
Proof.
  intros [Fa Fh [Fw Fg] Fl] Hm. unfold init. destruct (_ || _); [done|]. cbn.
  destruct (add_peers_ok (white p) [] listed_nil) as (W1 & W2 & W3), (add_peers_ok (gray p) [] listed_nil) as (G1 & G2 & G3).
  assert (forall e, e ∈ foldl add_peer [] (white p) -> e ∈ white p) as Iw by (intros e He; destruct (W2 e He) as [?%not_elem_of_nil|?]; done).
  assert (forall e, e ∈ foldl add_peer [] (gray p) -> e ∈ gray p) as Ig by (intros e He; destruct (G2 e He) as [?%not_elem_of_nil|?]; done).
  split; cbn; [done|done|apply add_anchors_ok; split; constructor| | |cbn in W3, G3; lia|].
  - intros a (x & -> & Hx)%list_elem_of_fmap (y & E & Hy)%list_elem_of_fmap.
    apply (Fa (adr x)); [by apply list_elem_of_fmap_2, Iw|rewrite E; by apply list_elem_of_fmap_2, Ig].
  - intros e e' He He'. by apply Fh; apply Iw.
  - rewrite Forall_forall in *. intros a Ha. apply (Fl a). apply elem_of_app in Ha as [(x & -> & Hx)%list_elem_of_fmap|(x & -> & Hx)%list_elem_of_fmap];
      apply elem_of_app; [left; by apply list_elem_of_fmap_2, Iw|right; by apply list_elem_of_fmap_2, Ig].
Qed.
(** What a node saves fits when it is loaded with the same setting. *)
Lemma saved_fit m p : peers_ok m -> white p ⊆+ m_peers_white m -> gray p ⊆+ m_peers_gray m -> peers_fit (m_allow_local_ip m) p.
Proof.
  intros [_ _ _ Ha Hh [Sw Sg] Hl] Hw Hg.
  assert (forall l k : list peerlist_entry, l ⊆+ k -> forall a, a ∈ adr <$> l -> a ∈ adr <$> k) as Hsub
    by (intros l k Hlk a Ha'; eapply elem_of_submseteq; [exact Ha'|by apply fmap_submseteq]).
  split.
  - intros a Hx Hy. apply (Ha a); by eapply Hsub.
  - intros e e' He He'. apply Hh; by eapply elem_of_submseteq.
  - apply submseteq_length in Hw, Hg. lia.
  - rewrite Forall_forall in *. intros a [Hx|Hx]%elem_of_app; apply (Hl a), elem_of_app; [left|right]; by eapply Hsub.
Qed.

(** The other calls keep the lists indexed, whatever was loaded. *)
Lemma ix_with_white w m : indexed m -> listed w -> indexed (with_white w m).
Proof. by intros [] ?. Qed.
Lemma ix_with_gray g m : indexed m -> listed g -> indexed (with_gray g m).
Proof. by intros [] ?. Qed.
Lemma ix_with_anchor l m : indexed m -> NoDup (a_adr <$> l) /\ in_time first_seen l -> indexed (with_anchor l m).
Proof. by intros [] ?. Qed.
Lemma ix_remove_gray a m : indexed m -> indexed (remove_gray a m).
Proof.
  intros Hm. unfold remove_gray. destruct (find_adr _ _) as [[i e]|]; [|done]. apply ix_with_gray; [done|].
  eapply listed_sublist; [apply sublist_delete|apply Hm].
Qed.
Lemma ix_remove_white e m : indexed m -> indexed (remove_from_peer_white e m).
Proof.
  intros Hm. unfold remove_from_peer_white. destruct (find_adr _ _) as [[i e']|]; [|done]. apply ix_with_white; [done|].
  eapply listed_sublist; [apply sublist_delete|apply Hm].
Qed.
Lemma ix_filter white f m : indexed m -> indexed (filter_peers white f m).2.
Proof.
  intros Hm. unfold filter_peers. cbn. destruct white; [apply ix_with_white|apply ix_with_gray]; try done;
    (eapply listed_sublist; [apply filter_sublist|apply Hm]).
Qed.
Lemma ix_append_white e trust m : indexed m -> indexed (append_with_peer_white e trust m).
Proof.
  intros Hm. unfold append_with_peer_white. destruct (negb _); [done|]. apply ix_remove_gray.
  destruct (find_adr _ _) as [[i old]|] eqn:Ef.
  - apply find_some in Ef as [Hi Ho]. apply ix_with_white; [done|]. by eapply listed_replace; [apply Hm|exact Hi|].
  - apply find_none in Ef. pose proof (ix_filter true (fun pe => is_same_host (adr pe) (adr e)) m Hm) as Hf.
    assert (adr e ∉ adr <$> m_peers_white (evict_host_from_peerlist true e m)) as Hn.
    { intros Hin. apply Ef. eapply elem_of_submseteq; [exact Hin|]. apply sublist_submseteq, fmap_sublist, filter_sublist. }
    set (m1 := evict_host_from_peerlist true e m). apply (ix_with_white _ (with_white _ m1)).
    + apply ix_with_white; [exact Hf|]. apply listed_insert; [apply Hf|exact Hn].
    + eapply listed_sublist; [apply trim_sublist|]. apply listed_insert; [apply Hf|exact Hn].
Qed.
Lemma ix_append_gray e m : indexed m -> indexed (append_with_peer_gray e m).
Proof.
  intros Hm. unfold append_with_peer_gray. destruct (negb _); [done|]. destruct (find_adr (adr e) (m_peers_white m)); [done|].
  destruct (find_adr (adr e) (m_peers_gray m)) as [[i old]|] eqn:Ef.
  - apply find_some in Ef as [Hi Ho]. apply ix_with_gray; [done|]. by eapply listed_replace; [apply Hm|exact Hi|].
  - apply find_none in Ef. apply (ix_with_gray _ m); [done|]. eapply listed_sublist; [apply trim_sublist|]. by apply listed_insert; [apply Hm|].
Qed.
Lemma ix_merge bs f m : indexed m -> indexed (merge_peerlist bs f m).
Proof.
  intros Hm. unfold merge_peerlist. set (m1 := foldl _ m bs). assert (indexed m1) as H1.
  { unfold m1. clear m1. revert m Hm. induction bs as [|b bs IH]; intros m Hm; [done|]. cbn. apply IH.
    destruct (match f with None => true | Some f => f b end); [by apply ix_append_gray|done]. }
  apply ix_with_gray; [done|]. eapply listed_sublist; [apply trim_sublist|apply H1].
Qed.
Lemma ix_append_anchor e m : indexed m -> indexed (append_with_peer_anchor e m).
Proof.
  intros Hm. pose proof (add_anchor_ok e _ (ix_anchor _ Hm)) as Ha. unfold append_with_peer_anchor. unfold add_anchor in Ha.
  destruct (find_anchor _ _); [done|]. by apply ix_with_anchor.
Qed.
Lemma ix_remove_anchor a m : indexed m -> indexed (remove_from_peer_anchor a m).
Proof.
  intros Hm. unfold remove_from_peer_anchor. destruct (find_anchor _ _) as [[i e]|]; [|done]. destruct (ix_anchor _ Hm) as [Hn Ht].
  apply ix_with_anchor; [done|]. split; [|eapply in_time_sublist; [apply sublist_delete|done]].
  eapply sublist_NoDup; [exact Hn|]. apply fmap_sublist, sublist_delete.
Qed.

(** *** Histories *)

Inductive peer_call :=
  | Init (peers : peerlist_types) (allow_local_ip : bool)
  | Append_white (e : peerlist_entry) (trust_last_seen : bool)
  | Append_gray (e : peerlist_entry)
  | Append_anchor (e : anchor_peerlist_entry)
  | Merge (outer_bs : list peerlist_entry) (f : option (peerlist_entry -> bool))
  | Just_seen (now peer : Z) (addr : network_address) (seed port credits : Z)
  | Remove_white (e : peerlist_entry)
  | Remove_gray (e : peerlist_entry)
  | Remove_anchor (addr : network_address)
  | Empty_anchors
  | Filter (white : bool) (f : peerlist_entry -> bool)
  | Evict (white : bool) (e : peerlist_entry).
Definition peer_step (m : peerlist_manager) (c : peer_call) : peerlist_manager :=
  match c with
  | Init peers allow_local_ip => (init peers allow_local_ip m).2
  | Append_white e trust => append_with_peer_white e trust m
  | Append_gray e => append_with_peer_gray e m
  | Append_anchor e => append_with_peer_anchor e m
  | Merge bs f => merge_peerlist bs f m
  | Just_seen now peer addr seed port credits => set_peer_just_seen now peer addr seed port credits m
  | Remove_white e => remove_from_peer_white e m
  | Remove_gray e => remove_from_peer_gray e m
  | Remove_anchor addr => remove_from_peer_anchor addr m
  | Empty_anchors => (get_and_empty_anchor_peerlist m).2
  | Filter white f => (filter_peers white f m).2
  | Evict white e => evict_host_from_peerlist white e m
  end.

(** What is loaded fits. *)
Definition loads_fit (c : peer_call) : Prop := match c with Init peers allow_local_ip => peers_fit allow_local_ip peers | _ => True end.

Lemma step_ok m c : loads_fit c -> peers_ok m -> peers_ok (peer_step m c).
Proof.
  intros Hc Hm. destruct c; cbn [peer_step]; auto using append_white_ok, append_gray_ok, anchor_ok, merge_ok, remove_white_ok, remove_gray_ok,
    remove_anchor_ok, filter_ok.
  - by apply init_ok.
  - by apply append_white_ok.
  - by apply remove_gray_ok.
  - apply with_anchor_ok; [done|constructor|constructor].
  - by apply filter_ok.
Qed.
Lemma step_indexed m c : indexed m -> indexed (peer_step m c).
Proof.
  intros Hm. destruct c; cbn [peer_step]; auto using ix_append_white, ix_append_gray, ix_append_anchor, ix_merge, ix_remove_white,
    ix_remove_anchor, ix_filter, init_indexed.
  - by apply ix_append_white.
  - by apply ix_remove_gray.
  - apply ix_with_anchor; [done|split; constructor].
  - by apply ix_filter.
Qed.
Definition no_peers (allow_local_ip : bool) : peerlist_manager := Peers allow_local_ip [] [] [].
Lemma none_ok b : peers_ok (no_peers b).
Proof.
  pose proof listed_nil. split; cbn; [done|done|split; constructor|by intros a ?%not_elem_of_nil|by intros e e' ?%not_elem_of_nil| |constructor].
  split; apply Nat.le_0_l.
Qed.
Lemma steps_ok cs m : Forall loads_fit cs -> peers_ok m -> peers_ok (foldl peer_step m cs).
Proof. intros Hcs. revert m. induction Hcs as [|c cs Hc _ IH]; intros m Hm; [done|]. by apply IH, step_ok. Qed.
Lemma steps_indexed cs m : indexed m -> indexed (foldl peer_step m cs).
Proof. revert m. induction cs as [|c cs IH]; intros m Hm; [done|]. by apply IH, step_indexed. Qed.

(** ** Peers told by others *)

Definition key (e : peerlist_entry) : network_address * Z := (adr e, last_seen e).

Lemma trim_id limit l : (length l <= limit)%nat -> trim limit l = l.
Proof. intros Hl. rewrite trim_as_drop. by replace (length l - limit)%nat with 0%nat by lia. Qed.
Lemma trim_one limit l : in_time last_seen l -> (length l <= S limit)%nat ->
  trim limit l = l \/ exists h, l = h :: trim limit l /\ length (trim limit l) = limit /\ Forall (fun x => last_seen h <= last_seen x) (trim limit l).
Proof.
  intros Ht Hl. destruct (decide (length l <= limit)%nat) as [Hle|Hgt]; [left; by apply trim_id|right].
  destruct l as [|h l]; [cbn in Hgt; lia|]. cbn in Hl, Hgt. exists h.
  assert (trim limit (h :: l) = l) as -> by (rewrite trim_as_drop; cbn [length]; by replace (S (length l) - limit)%nat with 1%nat by lia).
  split; [done|]. split; [lia|]. by inversion Ht.
Qed.

Lemma replace_key i b old l : l !! i = Some old -> adr b = adr old -> key <$> index_replace last_seen i (merged false b old) l ≡ₚ key <$> l.
Proof.
  intros Hi Ha. rewrite (replace_perm last_seen i _ l) by (by apply lookup_lt_Some in Hi). rewrite (delete_Permutation l i old Hi) at 2. cbn.
  unfold key at 1 3. cbn. by rewrite Ha.
Qed.

(** What a merge keeps: [m] is what became of [m0] after the peers [bs] *)
Record told (m0 : peerlist_manager) (offered : peerlist_entry -> Prop) (m : peerlist_manager) : Prop := {
  told_ok : peers_ok m;
  told_rest : m_peers_white m = m_peers_white m0 /\ m_peers_anchor m = m_peers_anchor m0 /\ m_allow_local_ip m = m_allow_local_ip m0;
  told_new : forall e, e ∈ m_peers_gray m -> key e ∈ key <$> m_peers_gray m0
    \/ exists b, offered b /\ key b = key e /\ is_host_allowed m0 (adr b) = true /\ adr b ∉ adr <$> m_peers_white m0;
  told_dropped : forall e, e ∈ m_peers_gray m0 -> key e ∈ key <$> m_peers_gray m
    \/ length (m_peers_gray m) = P2P_LOCAL_GRAY_PEERLIST_LIMIT /\ Forall (fun x => last_seen e <= last_seen x) (m_peers_gray m) }.

Lemma told_refl m0 offered : peers_ok m0 -> told m0 offered m0.
Proof. intros Hm. split; [done|done|intros e He; left; by apply list_elem_of_fmap_2|intros e He; left; by apply list_elem_of_fmap_2]. Qed.

Lemma key_times (l k : list peerlist_entry) t : key <$> l ≡ₚ key <$> k -> Forall (fun x => t <= last_seen x) k -> Forall (fun x => t <= last_seen x) l.
Proof.
  intros Hp. rewrite !Forall_forall. intros Hk x Hx. apply (list_elem_of_fmap_2 key) in Hx. rewrite Hp in Hx.
  apply list_elem_of_fmap in Hx as (y & Ey & Hy). injection Ey as _ ->. by apply Hk.
Qed.

Lemma told_gray m0 (offered : peerlist_entry -> Prop) m b : told m0 offered m -> offered b -> told m0 offered (append_with_peer_gray b m).
Proof.
  intros [Hok (Rw & Ra & Rl) Hnew Hdrop] Hb. pose proof (append_gray_ok b m Hok) as Hok'. revert Hok'. unfold append_with_peer_gray.
  destruct (is_host_allowed m (adr b)) eqn:Hal; cbn [negb]; [|intros _; by split].
  destruct (find_adr (adr b) (m_peers_white m)) as [[i old]|] eqn:Ew; [intros _; by split|]. apply find_none in Ew. rewrite Rw in Ew.
  assert (is_host_allowed m0 (adr b) = true) as Hal0 by (unfold is_host_allowed in *; by rewrite <- Rl).
  destruct (find_adr (adr b) (m_peers_gray m)) as [[i old]|] eqn:Eg; intros Hok'.
  - apply find_some in Eg as [Hi Ho]. pose proof (replace_key i b old _ Hi (eq_sym Ho)) as Hp. split; [done|done| |]; cbn.
    + intros e He. apply (list_elem_of_fmap_2 key) in He. rewrite Hp in He. apply list_elem_of_fmap in He as (y & -> & Hy). by apply Hnew.
    + intros e He. destruct (Hdrop e He) as [Hin|[Hl Hf]]; [left; by rewrite Hp|right]. split; [|by eapply key_times].
      rewrite replace_length; [done|]. by apply lookup_lt_Some in Hi.
  - set (l := index_insert last_seen b (m_peers_gray m)) in *. unfold trim_gray_peerlist in *. cbn in *.
    pose proof (insert_perm last_seen b (m_peers_gray m)) as Hp. fold l in Hp. assert (in_time last_seen l) as Ht by (apply insert_in_time, Hok).
    assert (length l <= S P2P_LOCAL_GRAY_PEERLIST_LIMIT)%nat as Hl by (rewrite Hp; cbn [length]; apply le_n_S, Hok).
    set (g := trim P2P_LOCAL_GRAY_PEERLIST_LIMIT l) in *. assert (sublist g l) as Hg by apply trim_sublist. split; [done|done| |].
    + intros e He. cbn in He. assert (e ∈ b :: m_peers_gray m) as He' by (rewrite <- Hp; eapply elem_of_submseteq; [exact He|by apply sublist_submseteq]).
      apply elem_of_cons in He' as [->|He']; [right; by exists b|by apply Hnew].
    + intros e He. cbn. destruct (trim_one _ l Ht Hl) as [Eg'|(h & El & Hlen & Hh)]; [fold g in Eg'|fold g in El, Hlen, Hh].
      * destruct (Hdrop e He) as [Hin|[Hlen Hf]].
        -- left. rewrite Eg'. rewrite Hp. cbn. apply elem_of_cons. by right.
        -- exfalso. assert (length g <= P2P_LOCAL_GRAY_PEERLIST_LIMIT)%nat as Hx by apply trim_length. rewrite Eg', Hp in Hx. cbn [length] in Hx. lia.
      * assert (forall t, t <= last_seen h -> Forall (fun x => t <= last_seen x) g) as Hmin by (intros t Hth; eapply Forall_impl; [exact Hh|]; cbn; lia).
        assert (h = b \/ h ∈ m_peers_gray m) as Hhb by (apply elem_of_cons; rewrite <- Hp, El; by apply list_elem_of_here).
        destruct (Hdrop e He) as [Hin|[Hlen' Hf]].
        -- assert (key e ∈ key <$> l) as Hin' by (rewrite Hp; cbn; apply elem_of_cons; by right). rewrite El in Hin'. cbn in Hin'.
           apply elem_of_cons in Hin' as [Eh|Hin']; [right|by left]. split; [done|]. apply Hmin. injection Eh as _ Eh. lia.
        -- right. split; [done|]. rewrite Forall_forall in Hf |- *. intros x Hx.
           assert (x ∈ b :: m_peers_gray m) as Hx' by (rewrite <- Hp, El; by apply list_elem_of_further).
           apply elem_of_cons in Hx' as [->|Hx']; [|by apply Hf]. rewrite Forall_forall in Hh. specialize (Hh b Hx).
           destruct Hhb as [->|Hhb]; [|specialize (Hf h Hhb); lia].
           exfalso. assert (NoDup l) as Hnd by (rewrite Hp; constructor; [|by eapply NoDup_fmap_1, (gray_listed _ Hok)];
             intros Hin; apply find_none in Eg; apply Eg; by apply list_elem_of_fmap_2).
           rewrite El in Hnd. by apply NoDup_cons in Hnd as [Hnd _].
Qed.
Lemma merge_told outer_bs f m : peers_ok m ->
  told m (fun b => b ∈ outer_bs /\ match f with None => True | Some f => f b = true end) (merge_peerlist outer_bs f m).
Proof.
  intros Hm. set (offered := fun b => b ∈ outer_bs /\ match f with None => True | Some f => f b = true end).
  assert (forall bs m', (forall b, b ∈ bs -> b ∈ outer_bs) -> told m offered m' ->
    told m offered (foldl (fun m be => if (match f with None => true | Some f => f be end) then append_with_peer_gray be m else m) m' bs)) as Hall.
  { intros bs. induction bs as [|b bs IH]; intros m' Hbs Ht; [done|]. cbn. apply IH; [intros x Hx; apply Hbs, elem_of_cons; auto|].
    destruct f as [f|]; [destruct (f b) eqn:Ef; [|done]|]; (apply told_gray; [done|split; [apply Hbs, elem_of_cons; auto|done]]). }
  specialize (Hall outer_bs m (fun b Hb => Hb) (told_refl m offered Hm)). unfold merge_peerlist, trim_gray_peerlist.
  set (m1 := foldl _ _ _) in *. rewrite trim_id by apply (told_ok _ _ _ Hall). by destruct m1.
Qed.

(** C11: After any sequence of calls, loading stored peers among them, no address is twice in a
    list and the lists are sorted by time. Loading checks nothing else; as long as
    the peers that are loaded fit (within the limits, no address in both lists, one white peer per
    host, none that is not allowed), no address is in both lists, no two white peers are on one host,
    the lists are no longer than their limits and hold no address that is not allowed; and
    then what the node saves of its own lists fits when it is loaded again with the same setting. *)
Theorem peers_consistent allow_local_ip cs : let m := foldl peer_step (no_peers allow_local_ip) cs in
  (NoDup (adr <$> m_peers_white m) /\ NoDup (adr <$> m_peers_gray m) /\ NoDup (a_adr <$> m_peers_anchor m)
   /\ in_time last_seen (m_peers_white m) /\ in_time last_seen (m_peers_gray m) /\ in_time first_seen (m_peers_anchor m))
  /\ (Forall loads_fit cs ->
       NoDup ((adr <$> m_peers_white m) ++ (adr <$> m_peers_gray m)) /\ one_per_host (m_peers_white m)
       /\ (length (m_peers_white m) <= P2P_LOCAL_WHITE_PEERLIST_LIMIT)%nat /\ (length (m_peers_gray m) <= P2P_LOCAL_GRAY_PEERLIST_LIMIT)%nat
       /\ Forall (fun a => is_host_allowed m a = true) ((adr <$> m_peers_white m) ++ (adr <$> m_peers_gray m))
       /\ forall p, white p ⊆+ m_peers_white m -> gray p ⊆+ m_peers_gray m -> loads_fit (Init p (m_allow_local_ip m))).
Proof.
  intros m. assert (indexed m) as [[W1 W2] [G1 G2] [A1 A2]] by (apply steps_indexed; split; [apply listed_nil..|split; constructor]).
  split; [by repeat split|]. intros Hcs. pose proof (steps_ok cs _ Hcs (none_ok allow_local_ip)) as Hm. fold m in Hm.
  pose proof Hm as [_ _ _ Hap Hh [S1 S2] Hal]. split; [|do 4 (split; [done|]); intros p; by apply saved_fit].
  apply NoDup_app. split; [done|]. split; [|done]. intros a Ha Hb. by apply (Hap a).
Qed.

(** C16: Peers told by another node cannot change what a node found out itself: they leave the white
    peers and the anchors alone; a gray peer keeps its time, and is dropped only when the list is
    full and nobody in it was seen earlier; and what is new was offered, passed the caller's
    test, is allowed and is not white. *)
Theorem told_peers_harmless outer_bs f m : peers_ok m -> let m' := merge_peerlist outer_bs f m in
  m_peers_white m' = m_peers_white m /\ m_peers_anchor m' = m_peers_anchor m
  /\ (forall e, e ∈ m_peers_gray m -> (exists e', e' ∈ m_peers_gray m' /\ adr e' = adr e /\ last_seen e' = last_seen e)
        \/ length (m_peers_gray m') = P2P_LOCAL_GRAY_PEERLIST_LIMIT /\ Forall (fun e' => last_seen e <= last_seen e') (m_peers_gray m'))
  /\ (forall e', e' ∈ m_peers_gray m' -> (exists e, e ∈ m_peers_gray m /\ adr e' = adr e /\ last_seen e' = last_seen e)
        \/ exists b, b ∈ outer_bs /\ match f with None => True | Some f => f b = true end
             /\ adr e' = adr b /\ last_seen e' = last_seen b /\ is_host_allowed m (adr b) = true /\ adr b ∉ adr <$> m_peers_white m).
Proof.
  intros Hm m'. destruct (merge_told outer_bs f m Hm) as [_ (Rw & Ra & _) Hnew Hdrop]. fold m' in Rw, Ra, Hnew, Hdrop. split; [done|]. split; [done|]. split.
  - intros e He. destruct (Hdrop e He) as [(e' & Ek & Hin)%list_elem_of_fmap|Hfull]; [left|by right]. injection Ek as E1 E2. by exists e'.
  - intros e' He. destruct (Hnew e' He) as [(e & Ek & Hin)%list_elem_of_fmap|(b & [Hb Hf] & Ek & Hal & Hw)]; [left|right].
    + injection Ek as E1 E2. by exists e.
    + injection Ek as E1 E2. exists b. by repeat split.
Qed.

(** What a node tells others about its peers: at most as many as asked for, each address once, only
    white peers, and when it hides them, without any time. Without hiding, they are the ones seen
    last. *)
Theorem head_told shuffle anonymize depth m : peers_ok m -> (forall l, shuffle l ≡ₚ l) -> 0 <= depth < 2 ^ 32 ->
  let head := get_peerlist_head shuffle anonymize depth m in
  NoDup (adr <$> head) /\ length head = (Z.to_nat depth `min` length (m_peers_white m))%nat
  /\ (forall e, e ∈ head -> exists p, p ∈ m_peers_white m /\ e = if anonymize then forget_time p else p)
  /\ (anonymize = false -> exists older, m_peers_white m = older ++ rev head).
Proof.
  intros Hm Hsh Hd head. destruct (white_listed _ Hm) as [Hnd _]. pose proof (proj1 (sizes_kept _ Hm)) as Hs. unfold head, get_peerlist_head.
  assert (forall l : list peerlist_entry, NoDup (adr <$> l) -> forall n, NoDup (adr <$> take n l)) as Htake
    by (intros l Hl n; eapply sublist_NoDup; [exact Hl|apply fmap_sublist, sublist_take]).
  assert (rev (m_peers_white m) ≡ₚ m_peers_white m) as Hrev by (symmetry; apply Permutation_rev).
  destruct anonymize.
  - rewrite wrap_small by (unfold in_width, P2P_LOCAL_WHITE_PEERLIST_LIMIT in *; lia). rewrite Nat2Z.id, (take_ge (rev _)) by (rewrite length_rev; lia).
    assert (shuffle (rev (m_peers_white m)) ≡ₚ m_peers_white m) as Hp by (by rewrite Hsh). split.
    { rewrite <- list_fmap_compose. apply (Htake (shuffle (rev (m_peers_white m)))). by rewrite Hp. }
    split; [by rewrite length_fmap, length_take, Hp|]. split; [|done]. intros e (p & -> & Hin)%list_elem_of_fmap. exists p. split; [|done].
    rewrite <- Hp. by eapply elem_of_submseteq; [exact Hin|apply sublist_submseteq, sublist_take].
  - split; [apply Htake; by rewrite Hrev|]. split; [by rewrite length_take, length_rev|]. split.
    + intros e Hin. exists e. split; [|done]. rewrite <- Hrev. by eapply elem_of_submseteq; [exact Hin|apply sublist_submseteq, sublist_take].
    + intros _. exists (rev (drop (Z.to_nat depth) (rev (m_peers_white m)))). by rewrite <- rev_app_distr, take_drop, rev_involutive.
Qed.

(** ** Zones *)

Lemma lower_bound_cons {A} (less : A -> bool) x l : lower_bound less (x :: l) = if less x then S (lower_bound less l) else 0%nat.
Proof.
  unfold lower_bound. cbn. destruct (less x) eqn:E; [|by rewrite decide_True]. rewrite decide_False by congruence.
  by destruct (list_find _ l) as [[i y]|].
Qed.
Definition zone_of (e : peerlist_entry) : Z := zone_number (get_zone (adr e)).

Lemma take_run z l : in_time zone_of l -> Forall (fun e => zone_number z <= zone_of e) l ->
  let count := lower_bound (fun e => negb (zone_number z <? zone_of e)) l in
  take count l = filter (fun e => zone_of e = zone_number z) l /\ drop count l = filter (fun e => zone_of e <> zone_number z) l.
Proof.
  intros Hs Hl. induction l as [|e l IH]; [done|]. inversion Hs as [|? ? Hs' He]; inversion Hl as [|? ? Hz Hl']; subst. cbn zeta.
  rewrite lower_bound_cons, !filter_cons. destruct (decide (zone_of e = zone_number z)) as [Eq|Hne].
  - rewrite (proj2 (Z.ltb_ge _ _)) by lia. cbn [negb]. rewrite decide_False by (intros Hx; by apply Hx). cbn. destruct (IH Hs' Hl') as [-> ->]. done.
  - rewrite (proj2 (Z.ltb_lt _ _)) by lia. cbn [negb]. rewrite decide_True by done. cbn. split.
    + symmetry. apply filter_none. eapply Forall_impl; [exact He|]. cbn. lia.
    + f_equal. symmetry. apply filter_all. eapply Forall_impl; [exact He|]. cbn. lia.
Qed.

(** Of peers sorted by zone, those of a zone are taken and the others stay, all in their order. *)
Lemma take_zone_spec z l : in_time zone_of l ->
  do_take_zone adr l z = (filter (fun e => zone_of e = zone_number z) l, filter (fun e => zone_of e <> zone_number z) l).
Proof.
  unfold do_take_zone. induction l as [|e l IH]; [done|]. intros Hs. inversion Hs as [|? ? Hs' He]; subst. rewrite lower_bound_cons. fold (zone_of e).
  destruct (zone_of e <? zone_number z) eqn:Hz.
  - apply Z.ltb_lt in Hz. rewrite !filter_cons, decide_False, decide_True by lia. specialize (IH Hs'). apply pair_eq in IH as [E1 E2].
    f_equal; [exact E1|]. exact (f_equal (cons e) E2).
  - apply Z.ltb_ge in Hz. rewrite drop_0, take_0. cbn [app]. assert (Forall (fun x => zone_number z <= zone_of x) (e :: l)) as Hall
      by (constructor; [done|eapply Forall_impl; [exact He|]; cbn; lia]).
    destruct (take_run z (e :: l) Hs Hall) as [E1 E2]. unfold zone_of in E1, E2 |- *. by rewrite E1, E2.
Qed.
End Peers.

(** ** Private and loopback addresses, whose first byte is the lowest *)

Lemma mask_low ip n : 0 <= ip < 2 ^ 32 -> 0 <= n < 32 -> Z.lor ip (2 ^ 32 - 2 ^ n) = 2 ^ 32 - 2 ^ n + ip mod 2 ^ n.
Proof.
  intros Hip Hn. assert (0 < 2 ^ n) by (apply Z.pow_pos_nonneg; lia). rewrite (Z.div_mod ip (2 ^ n)) at 1 by lia.
  pose proof (Z.mod_pos_bound ip (2 ^ n) ltac:(lia)) as Hm. assert (2 ^ 32 = 2 ^ (32 - n) * 2 ^ n) as E by (rewrite <- Z.pow_add_r by lia; f_equal; lia).
  pose proof (Z.div_pos ip (2 ^ n) ltac:(lia) ltac:(lia)) as Hd. assert (ip / 2 ^ n < 2 ^ (32 - n)) as Hd' by (apply Z.div_lt_upper_bound; lia).
  rewrite (Z.mul_comm (2 ^ n)), <- (lor_add_low (ip / 2 ^ n) (ip mod 2 ^ n) n) by lia.
  replace (2 ^ 32 - 2 ^ n) with (Z.shiftl (Z.ones (32 - n)) n) by (rewrite Z.shiftl_mul_pow2, Z.ones_equiv by lia; lia).
  assert (Z.lor (ip / 2 ^ n) (Z.ones (32 - n)) = Z.ones (32 - n)) as Hones.
  { destruct (Z.eq_dec (ip / 2 ^ n) 0) as [->|Hne]; [done|]. apply Z.lor_ones_low; [done|]. apply Z.log2_lt_pow2; lia. }
  rewrite <- Z.lor_assoc, (Z.lor_comm (ip mod 2 ^ n)), Z.lor_assoc, <- Z.shiftl_lor, Hones, lor_add_low by lia.
  by rewrite Z.shiftl_mul_pow2 by lia.
Qed.

(** The addresses 127.x.x.x *)
Lemma is_ip_loopback_spec ip : 0 <= ip < 2 ^ 32 -> is_ip_loopback ip = (ip mod 256 =? 127).
Proof.
  intros Hip. unfold is_ip_loopback. change 0xffffff00 with (2 ^ 32 - 2 ^ 8). rewrite mask_low by lia. change (2 ^ 8) with 256.
  apply bool_eq_iff. rewrite !Z.eqb_eq. lia.
Qed.
(** The addresses 10.x.x.x, 192.168.x.x and 172.16.x.x to 172.31.x.x *)
Lemma is_ip_local_spec ip : 0 <= ip < 2 ^ 32 -> let b0 := ip mod 256 in let b1 := ip / 256 mod 256 in
  is_ip_local ip = (b0 =? 10) || ((b0 =? 192) && (b1 =? 168)) || ((b0 =? 172) && (16 <=? b1) && (b1 <=? 31)).
Proof.
  intros Hip b0 b1. unfold is_ip_local. change 0xffffff00 with (2 ^ 32 - 2 ^ 8). change 0xffff0000 with (2 ^ 32 - 2 ^ 16).
  rewrite !mask_low by lia. change 0xff with (2 ^ 8 - 1). rewrite land_ones_mod, Z.shiftr_div_pow2 by lia. change (2 ^ 8) with 256. change (2 ^ 16) with 65536.
  fold b0 b1. assert (ip mod 65536 = b1 * 256 + b0 /\ 0 <= b0 < 256 /\ 0 <= b1 < 256) as (E & H0 & H1).
  { unfold b0, b1. split; [|split; apply Z.mod_pos_bound; lia]. change 65536 with (256 * 256). rewrite Z.rem_mul_r by lia. lia. }
  rewrite E. clearbody b0 b1. cases_cmp; cbn; try done; lia.
Qed.

(** ** An index, and addresses of 16 bytes *)

Fixpoint insert_upper {A} (time : A -> Z) (x : A) (l : list A) : list A :=
  match l with
  | [] => [x]
  | y :: l' => if time y <=? time x then y :: insert_upper time x l' else x :: l
  end.
#[local] Instance upper_index : TimeIndex := {|
  index_insert := @insert_upper; index_replace A time i x l := insert_upper time x (delete i l) |}.

Lemma insert_upper_perm {A} (time : A -> Z) x l : insert_upper time x l ≡ₚ x :: l.
Proof. induction l as [|y l IH]; [done|]. cbn. destruct (_ <=? _); [|done]. rewrite IH. apply Permutation_swap. Qed.
Lemma insert_upper_in_time {A} (time : A -> Z) x l : in_time time l -> in_time time (insert_upper time x l).
Proof.
  unfold in_time. induction 1 as [|y l Hl IH Hy]; cbn; [by repeat constructor|]. destruct (time y <=? time x) eqn:E.
  - apply Z.leb_le in E. constructor; [done|]. rewrite (insert_upper_perm time x l). by constructor.
  - apply Z.leb_gt in E. constructor; [by constructor|]. constructor; [lia|]. eapply Forall_impl; [exact Hy|]. cbn. lia.
Qed.
#[local] Instance upper_laws : TimeIndexLaws.
Proof.
  split; intros; cbn.
  - apply insert_upper_perm.
  - by apply insert_upper_in_time.
  - apply insert_upper_perm.
  - apply insert_upper_in_time. eapply in_time_sublist; [apply sublist_delete|done].
Qed.

#[local] Instance v6_bytes : AddressV6 (list Z) := {|
  to_bytes a := a; v6_is_loopback a := bool_decide (a = replicate 15 0 ++ [1]);
  v6_is_link_local a := (nth 0 a 0 =? 0xfe) && (Z.land (nth 1 a 0) 0xc0 =? 0x80);
  is_v4_mapped a := bool_decide (take 12 a = replicate 10 0 ++ [255; 255]) |}.

(** 127.0.0.1, and the same written as an IPv6 address, which is the same host but is allowed *)
Definition home : network_address (V6 := list Z) := ipv4_network_address 0x0100007f 18080.
Definition mapped_home : network_address (V6 := list Z) := ipv6_network_address (replicate 10 0 ++ [255; 255; 127; 0; 0; 1]) 18080.
Example mapped_loopback_allowed : is_same_host home mapped_home = true
  /\ is_host_allowed (no_peers false) home = false /\ is_host_allowed (no_peers false) mapped_home = true.
Proof. vm_compute. repeat split. Qed.

(** ** Witnesses *)

Definition peer (ip port time : Z) : peerlist_entry (V6 := list Z) :=
  {| adr := ipv4_network_address ip port; id := 1; last_seen := time; pruning_seed := 0; rpc_port := 0; rpc_credits_per_hash := 0 |}.
Definition demo_calls : list (peer_call (V6 := list Z)) :=
  [Init {| white := []; gray := [peer 5 1 3]; anchor := [] |} false; Append_gray (peer 5 1 10); Append_white (peer 5 2 20) false; Append_white (peer 5 1 30) false; Append_gray (peer 6 1 40);
   Append_white (peer 0x0100007f 1 50) true; Just_seen 60 7 (ipv4_network_address 8 1) 0 0 0].

Lemma demo_fits : Forall loads_fit demo_calls.
Proof.
  constructor; [|by repeat constructor]. split; cbn.
  - by intros a ?%not_elem_of_nil.
  - by intros e e' ?%not_elem_of_nil.
  - split; [apply Nat.le_0_l|]. unfold P2P_LOCAL_GRAY_PEERLIST_LIMIT. lia.
  - by_decide.
Qed.

Lemma peers_consistent_witness :
  m_peers_white (foldl peer_step (no_peers true) demo_calls) = [peer 5 1 30; {| adr := ipv4_network_address 8 1; id := 7; last_seen := 60;
     pruning_seed := 0; rpc_port := 0; rpc_credits_per_hash := 0 |}]
  /\ one_per_host (m_peers_white (foldl peer_step (no_peers true) demo_calls)).
Proof. split; [vm_compute; reflexivity|]. exact (proj1 (proj2 (proj2 (peers_consistent true demo_calls) demo_fits))). Defined.

(** Loading does not check: a stored peer on this computer becomes a white peer. *)
Example loaded_unchecked : let m := peer_step (no_peers false) (Init {| white := [peer 0x0100007f 1 10]; gray := []; anchor := [] |} false) in
  m_peers_white m = [peer 0x0100007f 1 10] /\ is_host_allowed m (adr (peer 0x0100007f 1 10)) = false.
Proof. by vm_compute. Qed.

Definition demo_peers : peerlist_manager (V6 := list Z) := foldl peer_step (no_peers false) demo_calls.
Lemma demo_peers_ok : peers_ok demo_peers.
Proof. apply steps_ok, none_ok. apply demo_fits. Qed.

Lemma told_peers_harmless_witness :
  m_peers_white (merge_peerlist [peer 5 1 90; peer 6 1 95; peer 9 1 70] None demo_peers) = m_peers_white demo_peers
  /\ m_peers_gray (merge_peerlist [peer 5 1 90; peer 6 1 95; peer 9 1 70] None demo_peers) = [peer 6 1 40; peer 9 1 70].
Proof.
  split; [|vm_compute; reflexivity]. exact (proj1 (told_peers_harmless [peer 5 1 90; peer 6 1 95; peer 9 1 70] None demo_peers demo_peers_ok)).
Defined.

Lemma head_told_witness :
  get_peerlist_head (@rev _) true 1 demo_peers = [peer 5 1 0] /\ length (get_peerlist_head (@rev _) true 1 demo_peers) = 1%nat.
Proof.
  split; [vm_compute; reflexivity|].
  exact (proj1 (proj2 (head_told (@rev _) true 1 demo_peers demo_peers_ok (fun l => Permutation_sym (Permutation_rev l)) ltac:(lia)))).
Defined.
